(* ===== verification/_CoqProject ===== *)
-Q . S2P
Prelude.v
CharPredicates.v
Tokens.v
Keywords.v
ScanTables.v
LiteralBuffer.v
Stream.v
CharacterStreams.v
ScannerState.v
Literals.v
Comments.v
Scanner.v
ScanResults.v
ScannerSpec.v
LiteralsSafety.v
CommentsSafety.v
ScannerSafety.v
ScanText.v
TextProperties.v
StreamProperties.v
ScannerProperties.v
DialectProperties.v
LexicalProperties.v
Utf8.v
Utf16.v
Utf8Stream.v
Utf8StreamSpec.v
Utf8Decoder.v
Wtf8DecoderSpec.v
Utf8Properties.v
BigIntDigits.v
BigIntVectors.v
BigIntMemory.v
BigIntArithmetic.v
BigIntMul.v
BigIntShift.v
BigIntDiv.v
BigIntDivSpec.v
BigIntBitwise.v
BigIntBitwiseSpec.v
BigIntTruncateSpec.v
BigIntInterrupts.v
BigIntKaratsuba.v
BigIntKaratsubaSpec.v
BigIntKaratsubaChunks.v
BigIntProcessor.v
BigIntBurnikel.v
BigIntBurnikelSpec.v
BigIntBurnikelBlocks.v
BigIntObjects.v
BigIntQuiet.v
BigIntObjectsSpec.v
BigIntObjectsBitsSpec.v
BigIntProducts.v
BigIntProductsSpec.v
BigIntQuotients.v
BigIntQuotientsSpec.v
BigIntWordsSpec.v
BigIntProgram.v
BigIntProperties.v
BigIntToString.v
BigIntToStringSpec.v
BigIntToStringBits.v
BigIntToStringResult.v
BigIntText.v
BigIntTextSpec.v
BigIntTextProperties.v
