(* ===== verification/Prelude.v ===== *)
(** * A verification library for V8-Speak

    V8-Speak is V8 with source dialects: a script may say in its first line,
    [//# sourceDialect=spa], that its keywords are spelled in another natural
    language. The fork changes the scanner; everything behind the token stream is
    V8. This library models the scanner completely, with the decoding of UTF-8
    sources, and the BigInt arithmetic, V8's self-contained library of integer
    algorithms, from single digits up to the operations of the language. File names below are relative to [src/] of
    the repository's V8 tree.

    ** The scanner

    A [Utf16CharacterStream] hands out UTF-16 code units from blocks that a
    virtual [ReadBlock] loads. The [Scanner] keeps one character of look-ahead,
    three token descriptors with their literal buffers, the error, octal and
    magic-comment members and the dialect. The parser drives it through
    [Initialize], [Next], [PeekAhead], [SeekForward], bookmarks and the rescans
    of templates and regular expressions.

    - [CharPredicates]: [strings/char-predicates*], [strings/unicode.h],
      [base/bounds.h], [base/strings.h]. ICU's database is the parameter
      [UnicodeData], its documented facts the class [UnicodeDataOK].
    - [Tokens]: [parsing/token.h]. [Keywords]: [parsing/keywords-eng-gen.h] (the
      perfect hash), [keywords-spa-gen.h], [pseudokeywords-gen.h],
      [source-dialect.h]. [ScanTables]: the tables of [parsing/scanner-inl.h].
    - [LiteralBuffer]: [parsing/literal-buffer.*].
    - [Stream]: [Utf16CharacterStream] over the interface [BlockReader] with its
      contract [BlockReaderOK]; [CharacterStreams]: the streams of
      [parsing/scanner-character-streams.cc], which meet the contract.
    - [ScannerState], [Literals], [Comments], [Scanner]: [parsing/scanner.h],
      [scanner.cc], [scanner-inl.h], one definition per member function in the
      monad below.
    - [ScannerSpec], [LiteralsSafety], [CommentsSafety], [ScannerSafety],
      [ScanResults], [ScanText]: the invariant [scanner_ok] and, for every
      function, that it ends, stays in bounds and keeps the invariant.
    - [TextProperties], [StreamProperties], [ScannerProperties],
      [DialectProperties], [LexicalProperties]: the claims.

    ** UTF-8

    Source text from the network is UTF-8 that arrives in chunks; strings are
    made from UTF-8 as a whole. Both use a table-driven decoder.

    - [Utf8]: [third_party/utf8-decoder/utf8-decoder.h] and the class [Utf8] of
      [strings/unicode*], with [NonAsciiStart] of [strings/unicode-decoder.h], and
      the lemmas on encoding, validation and incremental decoding. [Utf16]: the
      pairing of surrogates in [strings/unicode*].
    - [Utf8Stream]: [Utf8ExternalStreamingStream] of
      [parsing/scanner-character-streams.cc]; the addresses of the chunks, on which
      the fast path for ASCII depends, are a parameter. [Utf8StreamSpec]: reading
      it block by block.
    - [Utf8Decoder]: [Utf8DecoderBase] of [strings/unicode-decoder.*] with the
      traits of its three instances, [generalized-utf8-decoder.h] and the class
      [Wtf8]; its lemmas for UTF-8. [Wtf8DecoderSpec]: those for WTF-8.
    - [Utf8Properties]: the claims.

    ** The BigInt arithmetic

    A BigInt object is a sign and a vector of digits. [objects/bigint.cc]
    allocates results, dispatches on signs and lengths and makes results
    canonical; [bigint/] computes on views of digits.

    - [BigIntDigits]: [bigint/digit-arithmetic.h], [bigint/util.h], for 32-bit and
      64-bit targets and in each variant of the preprocessor ([DigitTarget]).
    - [BigIntVectors]: [bigint/bigint.h], [bigint/vector-arithmetic.*], on views
      into one shared memory, so that operands may overlap results;
      [BigIntMemory] and [BigIntArithmetic]: values of views, what loops have
      written, the specifications.
    - [BigIntMul], [BigIntDiv], [BigIntShift], [BigIntBitwise]:
      [bigint/mul-schoolbook.cc], [div-schoolbook.cc], [div-helpers.*],
      [bitwise.cc]; [BigIntDivSpec], [BigIntBitwiseSpec], [BigIntTruncateSpec]:
      their specifications.
    - [BigIntInterrupts]: what the work estimate and the interrupt queries do to
      the processor's state in every algorithm.
    - [BigIntKaratsuba]: [bigint/mul-karatsuba.cc]; [BigIntKaratsubaSpec] (the
      recursion), [BigIntKaratsubaChunks] (operands of different lengths).
      [BigIntProcessor]: [bigint/bigint-internal.*], the choice of an algorithm
      for a product and the status for the caller. The Toom-Cook and FFT
      algorithms are the parameter [AdvancedMultiplication] with the contract
      [AdvancedMultiplicationOK].
    - [BigIntBurnikel]: [bigint/div-burnikel.cc]; [BigIntBurnikelSpec] (the
      recursion), [BigIntBurnikelBlocks] (operands of any lengths).
    - [BigIntObjects]: [objects/bigint.cc]; [BigIntObjectsSpec],
      [BigIntObjectsBitsSpec], [BigIntWordsSpec]: each operation computes the
      integer the language asks for, in canonical form, or throws;
      [BigIntQuiet]: these operations leave the processor alone.
    - [BigIntProducts], [BigIntProductsSpec]: products and powers of
      [objects/bigint.cc]. [BigIntQuotients], [BigIntQuotientsSpec]: quotients and
      remainders of [bigint/bigint-internal.cc] and [objects/bigint.cc]; Barrett
      division is the parameter [AdvancedDivision] with the contract
      [AdvancedDivisionOK].
    - [BigIntProgram]: sequences of operations refine the same sequence on
      integers. [BigIntProperties]: the claims.
    - [BigIntToString]: [bigint/tostring.cc]; [BigIntToStringSpec] (the classic
      algorithm), [BigIntToStringBits] (radices that are powers of two),
      [BigIntToStringResult] (lengths, leading zeros, the whole conversion). The
      divide-and-conquer algorithm [Fast] is the parameter [AdvancedToString] with
      the contract [AdvancedToStringOK]. [BigIntText], [BigIntTextSpec]:
      [BigInt::ToString] of [objects/bigint.cc]. [BigIntTextProperties]: the claim.

    ** What the theorems show

    - Every public call of the scanner ends normally from every reachable state,
      whatever the source; the token stream ends; the state stays well formed.
    - A dialect comment selects the dialect, and only before the first token;
      keywords, strings, numbers, punctuators and contextual names are recognised
      as their tables and texts say, in both dialects.
    - Reading does not depend on blocks or chunks; literal buffers collect what
      was added.
    - A UTF-8 source read block by block is the text of its bytes, however it is
      cut; the decoders of whole strings find the same text; valid UTF-8 is what
      the encoder makes of UTF-16 without unpaired surrogates.
    - Digit operations are exact in machine words; vector operations compute sums,
      differences, products, quotients, remainders, shifts and bits of the numbers
      their operands denote, and write nothing else; BigInt operations denote the
      mathematical operations, keep old objects unchanged and throw exactly when
      stated; conversions round-trip.
    - The text of a BigInt in any radix denotes its number and has no leading zero;
      the length computed for it beforehand is always enough.
    - An operation on the processor gives its exact result or reports that the
      embedder asked for its end, exactly when it did, and leaves the processor
      ready for the next one. Builds without the advanced algorithms test for
      interrupts inside of Karatsuba multiplication, though not behind each
      recursive call; there the theorems assume that none is requested
      ([patient]).

    ** Conventions

    Code is in a state monad whose results are a value, [Undefined] (a failed
    [DCHECK], an access out of bounds) or [OutOfFuel]; [wp] excludes the last two,
    so every [wp] theorem is a theorem of total correctness. A loop over an index
    is a structural recursion on its number of rounds. Other loops carry fuel: the
    scanner's is the number of characters left plus two, which suffices since
    every round consumes one; the correction loops of the digit and vector
    division have [kAdjustRounds] and [kRefineRounds], three, proved enough by the
    size of the leading digit, and the correction of a Burnikel-Ziegler estimate
    [kCorrectionRounds], three. The loops that take characters off a number have
    the bits of the number plus one, since each division by the radix takes a bit. The recursions on lengths have the length plus one
    as fuel, since each level halves it; the loop over the blocks of a dividend has
    their number plus one; [halve_above_threshold] 32 rounds for a 32-bit length;
    repeated squaring [kExponentRounds], 31, for an exponent below 2^30. A loop over
    UTF-8 bytes has twice their number plus two, since a byte that breaks off a
    character is looked at twice; the loop that fills a buffer has the number of
    chunks to come plus three. Machine integers are [Z] with their wrap-around
    written out where the code can reach it. Source positions and vector lengths
    are [int] in the code and far below its limit; they are plain [Z].

    Code outside the repository's sources is a parameter: ICU ([UnicodeData]), the
    build configuration, the embedder's interrupt queries ([Platform]) and its
    source streams.

    ** Not modelled

    That a UTF-8 stream is read rightly from an arbitrary position: the search for
    a position is modelled, but fails its own assertions on the second half of a
    pair of surrogates and loses a character broken off at the end
    ([reread_unfinished]); the claim is about reading on from where the stream is.
    The algorithms only builds with
    V8_ADVANCED_BIGINT_ALGORITHMS have (Toom-Cook, FFT, Barrett and the fast
    conversion to text), which appear as parameters with contracts: a product,
    quotient or text of operands of any length is covered without them in the other
    builds. BigInt conversion from text and from and to doubles. Relocation of buffers by the
    garbage collector and concurrency of background parsing: they do not change
    what these components compute. The parser, the compilers, the interpreter, the
    heap and the runtime: orders of magnitude larger, unchanged by the fork, and
    clients of what is modelled here. *)

(** ** Shared notation, automation and lemmas *)

From stdpp Require Import base list numbers strings.
From Stdlib Require Import ZArith Lia Strings.Byte Ascii.

Local Open Scope Z_scope.

(** ** Character and string literals

    Code units and code points are integers. ["x"%uc] is the code unit of the
    character [x]; it is read at parse time, so that it is the plain numeral
    everywhere else. [bytes_of "abc"] is a C string literal without its
    terminating zero. *)

Declare Scope uchar_scope.
Delimit Scope uchar_scope with uc.

Definition uchar_of_bytes (l : list Byte.byte) : option Z :=
  match l with
  | [b] => Some (Z.of_N (Byte.to_N b))
  | _ => None
  end.

Definition bytes_of_uchar (_ : Z) : option (list Byte.byte) := None.

String Notation Z uchar_of_bytes bytes_of_uchar : uchar_scope.

Definition bytes_of (s : string) : list Z :=
  map (fun a => Z.of_N (N_of_ascii a)) (String.list_ascii_of_string s).

(** ** Machine integers *)

Definition wrap (w z : Z) : Z := z mod 2 ^ w.
Definition uint8 (z : Z) : Z := wrap 8 z.
Definition uint16 (z : Z) : Z := wrap 16 z.
Definition uint32 (z : Z) : Z := wrap 32 z.
Definition uint64 (z : Z) : Z := wrap 64 z.

(** Reinterpretation of a 32-bit pattern as a signed [int]. *)
Definition int32 (z : Z) : Z :=
  let u := uint32 z in if u <? 2 ^ 31 then u else u - 2 ^ 32.

Lemma wrap_range w z : 0 <= w -> 0 <= wrap w z < 2 ^ w.
Proof. intros. apply Z.mod_pos_bound. lia. Qed.

Lemma wrap_small w z : 0 <= z < 2 ^ w -> wrap w z = z.
Proof. apply Z.mod_small. Qed.

Lemma uint32_small z : 0 <= z < 2 ^ 32 -> uint32 z = z.
Proof. apply wrap_small. Qed.

Lemma uint32_neg z : - 2 ^ 32 <= z < 0 -> uint32 z = z + 2 ^ 32.
Proof.
  intros. unfold uint32, wrap.
  rewrite <- (Z_mod_plus_full z 1), Z.mod_small; lia.
Qed.

Lemma int32_small z : 0 <= z < 2 ^ 31 -> int32 z = z.
Proof.
  intros. unfold int32. rewrite uint32_small by lia.
  destruct (Z.ltb_spec z (2 ^ 31)); lia.
Qed.

(** Disjoint bits: [lor] is addition. *)
Lemma lor_add a b s : 0 <= s -> 0 <= b < 2 ^ s -> Z.lor (a * 2 ^ s) b = a * 2 ^ s + b.
Proof.
  intros Hs Hb. pose proof (Z.add_lor_land (a * 2 ^ s) b) as E.
  replace (Z.land (a * 2 ^ s) b) with 0 in E; [lia|].
  symmetry. apply Z.bits_inj'. intros i Hi. rewrite Z.land_spec, Z.testbit_0_l.
  destruct (Z.ltb_spec i s).
  - rewrite Z.mul_pow2_bits_low by lia. done.
  - rewrite <- (Z.mod_small b (2 ^ s)) by done. rewrite (Z.mod_pow2_bits_high b) by lia.
    apply andb_false_r.
Qed.

(** ** Case analysis on booleans and matches *)

Ltac bool_to_prop :=
  repeat match goal with
  | H : andb _ _ = true |- _ => apply andb_true_iff in H; destruct H
  | H : orb _ _ = false |- _ => apply orb_false_iff in H; destruct H
  | H : orb _ _ = true |- _ => apply orb_true_iff in H
  | H : andb _ _ = false |- _ => apply andb_false_iff in H
  | H : negb _ = true |- _ => apply negb_true_iff in H
  | H : negb _ = false |- _ => apply negb_false_iff in H
  | H : (_ =? _)%Z = true |- _ => apply Z.eqb_eq in H
  | H : (_ =? _)%Z = false |- _ => apply Z.eqb_neq in H
  | H : (_ <? _)%Z = true |- _ => apply Z.ltb_lt in H
  | H : (_ <? _)%Z = false |- _ => apply Z.ltb_ge in H
  | H : (_ <=? _)%Z = true |- _ => apply Z.leb_le in H
  | H : (_ <=? _)%Z = false |- _ => apply Z.leb_gt in H
  end.

(** [lia] with division and remainder by constants. *)
Ltac div_lia := Z.to_euclidean_division_equations; lia.

(** Reflects a boolean goal on integer comparisons to a proposition. *)
Ltac bool_lia :=
  apply eq_true_iff_eq;
  rewrite ?andb_true_iff, ?orb_true_iff, ?negb_true_iff,
    ?Z.leb_le, ?Z.ltb_lt, ?Z.eqb_eq;
  div_lia.

(** Case analysis on every comparison of integers in the goal. *)
Ltac case_ltb :=
  repeat match goal with
  | |- context [?a <? ?b] => destruct (Z.ltb_spec a b)
  end; try lia.

(** ** Results

    [Ok] is a normal return. [OutOfFuel] is returned by a loop whose iteration
    bound was too small; [Undefined] by an access outside an array or by
    [UNREACHABLE]. The total-correctness statements below exclude both. *)

Inductive Res (A : Type) : Type :=
| Ok (a : A)
| OutOfFuel
| Undefined.
Arguments Ok {A} a.
Arguments OutOfFuel {A}.
Arguments Undefined {A}.

(** ** Stateful computations *)

Definition M (St A : Type) : Type := St -> Res (A * St).

Section Monad.
Context {St : Type}.

Definition ret {A} (a : A) : M St A := fun s => Ok (a, s).

Definition bind {A B} (m : M St A) (k : A -> M St B) : M St B :=
  fun s =>
    match m s with
    | Ok (a, s') => k a s'
    | OutOfFuel => OutOfFuel
    | Undefined => Undefined
    end.

Definition gets {A} (f : St -> A) : M St A := fun s => Ok (f s, s).
Definition modify (f : St -> St) : M St unit := fun s => Ok (tt, f s).
Definition undefined {A} : M St A := fun _ => Undefined.

(** A loop with early exit. The body maps the loop-carried locals to [inl]
    (next iteration) or [inr] (leave the loop with a value). *)
Fixpoint loop {A B} (fuel : nat) (body : A -> M St (A + B)) (a : A) : M St B :=
  match fuel with
  | O => fun _ => OutOfFuel
  | S n =>
      bind (body a) (fun r =>
        match r with
        | inl a' => loop n body a'
        | inr b => ret b
        end)
  end.

(** Weakest precondition for total correctness. *)
Definition wp {A} (m : M St A) (Q : A -> St -> Prop) (s : St) : Prop :=
  match m s with
  | Ok (a, s') => Q a s'
  | _ => False
  end.

Lemma wp_ret {A} (a : A) (Q : A -> St -> Prop) s : Q a s -> wp (ret a) Q s.
Proof. done. Qed.

Lemma wp_gets {A} (f : St -> A) (Q : A -> St -> Prop) s :
  Q (f s) s -> wp (gets f) Q s.
Proof. done. Qed.

Lemma wp_modify (f : St -> St) (Q : unit -> St -> Prop) s :
  Q tt (f s) -> wp (modify f) Q s.
Proof. done. Qed.

Lemma wp_bind {A B} (m : M St A) (k : A -> M St B) Q s :
  wp m (fun a s' => wp (k a) Q s') s -> wp (bind m k) Q s.
Proof. unfold wp, bind. destruct (m s) as [[a s']| |]; done. Qed.

Lemma wp_bind_inv {A B} (m : M St A) (k : A -> M St B) Q s :
  wp (bind m k) Q s -> wp m (fun a s' => wp (k a) Q s') s.
Proof. unfold wp, bind. destruct (m s) as [[a s']| |]; done. Qed.

Lemma wp_mono {A} (m : M St A) (Q R : A -> St -> Prop) s :
  wp m Q s -> (forall a s', Q a s' -> R a s') -> wp m R s.
Proof. unfold wp. destruct (m s) as [[a s']| |]; auto. Qed.

Lemma wp_conj {A} (m : M St A) (Q R : A -> St -> Prop) s :
  wp m Q s -> wp m R s -> wp m (fun a s' => Q a s' /\ R a s') s.
Proof. unfold wp. destruct (m s) as [[a s']| |]; auto. Qed.

Lemma wp_ok {A} (m : M St A) Q s :
  wp m Q s -> exists a s', m s = Ok (a, s') /\ Q a s'.
Proof. unfold wp. destruct (m s) as [[a s']| |]; [eauto|done|done]. Qed.

Lemma wp_of_ok {A} (m : M St A) (Q : A -> St -> Prop) s a s' :
  m s = Ok (a, s') -> Q a s' -> wp m Q s.
Proof. unfold wp. intros ->. done. Qed.

Lemma wp_inv {A} (m : M St A) (Q : A -> St -> Prop) s a s' :
  wp m Q s -> m s = Ok (a, s') -> Q a s'.
Proof. unfold wp. intros H E. rewrite E in H. done. Qed.

(** A loop ends in its postcondition when its body keeps an invariant and
    decreases a measure that starts below the fuel. *)
Lemma wp_loop {A B} (I : A -> St -> Prop) (mu : A -> St -> nat)
    (body : A -> M St (A + B)) (Q : B -> St -> Prop) :
  (forall a s, I a s ->
     wp (body a)
       (fun r s' =>
          match r with
          | inl a' => I a' s' /\ (mu a' s' < mu a s)%nat
          | inr b => Q b s'
          end) s) ->
  forall fuel a s, I a s -> (mu a s < fuel)%nat -> wp (loop fuel body a) Q s.
Proof.
  intros Hbody. induction fuel as [|n IH]; intros a s HI Hmu; [lia|].
  cbn [loop]. apply wp_bind. eapply wp_mono; [apply Hbody, HI|].
  intros [a'|b] s'; [|by intros; apply wp_ret].
  intros [HI' Hlt]. apply IH; [done|lia].
Qed.

(** [for (i = lo; i < hi; i++)] and [for (i = hi; i >= lo; i--)] over a
    loop-carried local. *)
Fixpoint for_loop {A} (n : nat) (step i : Z) (body : Z -> A -> M St A) (a : A) : M St A :=
  match n with
  | O => ret a
  | S n => bind (body i a) (fun a => for_loop n step (i + step) body a)
  end.

Definition for_up {A} (lo hi : Z) (body : Z -> A -> M St A) (a : A) : M St A :=
  for_loop (Z.to_nat (hi - lo)) 1 lo body a.

Definition for_down {A} (hi lo : Z) (body : Z -> A -> M St A) (a : A) : M St A :=
  for_loop (Z.to_nat (hi - lo + 1)) (-1) hi body a.

Lemma wp_for_up {A} (I : Z -> A -> St -> Prop) lo hi (body : Z -> A -> M St A) Q a s :
  lo <= hi -> I lo a s ->
  (forall i a s, lo <= i < hi -> I i a s -> wp (body i a) (I (i + 1)) s) ->
  (forall a s, I hi a s -> Q a s) ->
  wp (for_up lo hi body a) Q s.
Proof.
  intros Hle HI Hb HQ. unfold for_up. remember (Z.to_nat (hi - lo)) as n eqn:En.
  revert lo a s Hle HI Hb En. induction n as [|n IH]; intros lo a s Hle HI Hb En.
  - apply wp_ret, HQ. by replace hi with lo by lia.
  - cbn [for_loop]. apply wp_bind. eapply wp_mono; [apply Hb; [lia|done]|].
    intros a' s' HI'. apply IH; [lia|done| |lia]. intros. apply Hb; [lia|done].
Qed.

Lemma wp_for_up_none {A} lo hi (body : Z -> A -> M St A) (Q : A -> St -> Prop) a s :
  hi <= lo -> Q a s -> wp (for_up lo hi body a) Q s.
Proof. intros. unfold for_up. by replace (Z.to_nat (hi - lo)) with 0%nat by lia. Qed.

(** The invariant at [i] holds before the body is run at [i]. *)
Lemma wp_for_down {A} (I : Z -> A -> St -> Prop) hi lo (body : Z -> A -> M St A) Q a s :
  lo - 1 <= hi -> I hi a s ->
  (forall i a s, lo <= i <= hi -> I i a s -> wp (body i a) (I (i - 1)) s) ->
  (forall a s, I (lo - 1) a s -> Q a s) ->
  wp (for_down hi lo body a) Q s.
Proof.
  intros Hle HI Hb HQ. unfold for_down. remember (Z.to_nat (hi - lo + 1)) as n eqn:En.
  revert hi a s Hle HI Hb En. induction n as [|n IH]; intros hi a s Hle HI Hb En.
  - apply wp_ret, HQ. by replace (lo - 1) with hi by lia.
  - cbn [for_loop]. apply wp_bind. eapply wp_mono; [apply Hb; [lia|done]|].
    intros a' s' HI'. apply IH; [lia|done| |lia]. intros. apply Hb; [lia|done].
Qed.

(** A computation that leaves a projection of the state alone. *)
Definition keeps {A X} (f : St -> X) (m : M St A) : Prop :=
  forall s a s', m s = Ok (a, s') -> f s' = f s.

Lemma keeps_ret {A X} (f : St -> X) (a : A) : keeps f (ret a).
Proof. intros s b s' E. by injection E as _ <-. Qed.

Lemma keeps_gets {A X} (f : St -> X) (g : St -> A) : keeps f (gets g).
Proof. intros s b s' E. by injection E as _ <-. Qed.

Lemma keeps_modify {X} (f : St -> X) (g : St -> St) :
  (forall s, f (g s) = f s) -> keeps f (modify g).
Proof. intros H s b s' E. by injection E as _ <-. Qed.

Lemma keeps_bind {A B X} (f : St -> X) (m : M St A) (k : A -> M St B) :
  keeps f m -> (forall a, keeps f (k a)) -> keeps f (bind m k).
Proof.
  intros Hm Hk s b s' E. unfold bind in E. destruct (m s) as [[a s1]| |] eqn:E1; try done.
  rewrite (Hk _ _ _ _ E). by apply Hm in E1.
Qed.

Lemma keeps_loop {A B X} (f : St -> X) (body : A -> M St (A + B)) fuel a :
  (forall a, keeps f (body a)) -> keeps f (loop fuel body a).
Proof.
  intros Hb. revert a. induction fuel as [|n IH]; intros a; [done|].
  cbn [loop]. apply keeps_bind; [done|]. intros [a'|b]; [apply IH|apply keeps_ret].
Qed.

Lemma wp_keeps {A X} (f : St -> X) (m : M St A) Q s :
  keeps f m -> wp m Q s -> wp m (fun a s' => Q a s' /\ f s' = f s) s.
Proof.
  intros Hk. unfold wp. destruct (m s) as [[a s']| |] eqn:E; [|done|done].
  intros H. split; [done|]. by apply Hk in E.
Qed.

(** A computation whose results satisfy [P]. *)
Definition yields {A} (P : A -> Prop) (m : M St A) : Prop :=
  forall s a s', m s = Ok (a, s') -> P a.

Lemma yields_ret {A} (P : A -> Prop) a : P a -> yields P (ret a).
Proof. intros H s b s' E. by injection E as <- _. Qed.

Lemma yields_bind {A B} (Q : A -> Prop) (P : B -> Prop) (m : M St A) (k : A -> M St B) :
  yields Q m -> (forall a, Q a -> yields P (k a)) -> yields P (bind m k).
Proof.
  intros Hm Hk s b s' E. unfold bind in E. destruct (m s) as [[a s1]| |] eqn:E1; try done.
  apply Hm in E1. by apply Hk in E.
Qed.

Lemma yields_any {A} (m : M St A) : yields (fun _ => True) m.
Proof. done. Qed.

Lemma yields_loop {A B} (P : B -> Prop) (body : A -> M St (A + B)) fuel a :
  (forall a, yields (fun r => match r with inl _ => True | inr b => P b end) (body a)) ->
  yields P (loop fuel body a).
Proof.
  intros Hb. revert a. induction fuel as [|n IH]; intros a; [done|].
  cbn [loop]. eapply yields_bind; [apply Hb|]. intros [a'|b] Hr; [apply IH|by apply yields_ret].
Qed.

Lemma wp_yields {A} (P : A -> Prop) (m : M St A) Q s :
  yields P m -> wp m Q s -> wp m (fun a s' => Q a s' /\ P a) s.
Proof.
  intros Hy. unfold wp. destruct (m s) as [[a s']| |] eqn:E; [|done|done].
  intros H. split; [done|]. by apply Hy in E.
Qed.
End Monad.

Create HintDb yields.

(** Decomposes a computation down to its [ret]s. *)
Ltac yields_step :=
  lazymatch goal with
  | |- yields _ (ret _) => apply yields_ret
  | |- yields _ (if ?b then _ else _) => destruct b
  | |- yields _ (match ?x with _ => _ end) => destruct x
  | |- yields _ (bind _ _) =>
      first [ eapply yields_bind; [solve [eauto with yields]|intros]
            | eapply yields_bind; [apply yields_any|intros ? _] ]
  | |- yields _ _ => solve [eauto with yields]
  end.

Create HintDb keeps.
#[export] Hint Resolve keeps_ret keeps_gets keeps_bind : keeps.

(** Decomposes a computation down to the operations known to keep [f]. *)
Ltac keeps_step :=
  first
    [ solve [eauto with keeps]
    | apply keeps_bind; [|intros]
    | apply keeps_loop; intros
    | match goal with
      | |- keeps _ (if ?b then _ else _) => destruct b
      | |- keeps _ (match ?x with _ => _ end) => destruct x
      | |- keeps _ (let '(_, _) := ?x in _) => destruct x
      end ].

(** The constant a term applies. *)
Ltac head_of t := lazymatch t with ?f _ => head_of f | _ => t end.

Declare Scope prog_scope.
Delimit Scope prog_scope with prog.
Notation "'let*' x ':=' m 'in' k" := (bind m (fun x => k))
  (at level 10, x pattern, m at level 200, k at level 200)
  : prog_scope.
Notation "m ';;;' k" := (bind m (fun _ => k))
  (at level 199, k at level 200, right associativity) : prog_scope.

(** ** Lists *)

Lemma drop_cons_lookup {A} (l : list A) n x t :
  drop n l = x :: t -> l !! n = Some x /\ drop (S n) l = t.
Proof.
  intros H. split.
  - rewrite <- (Nat.add_0_r n), <- lookup_drop, H. done.
  - rewrite <- (Nat.add_1_r n), <- drop_drop, H. done.
Qed.

Lemma drop_nil_length {A} (l : list A) n : drop n l = [] -> (length l <= n)%nat.
Proof. intros H. apply (f_equal length) in H. rewrite length_drop in H. cbn in H. lia. Qed.

(** Exhaustive proofs over a finite range of integers. *)
Lemma forallb_seqZ (P : Z -> bool) lo n :
  forallb P (seqZ lo n) = true -> forall c, lo <= c < lo + n -> P c = true.
Proof.
  intros H c Hc. rewrite forallb_forall in H. apply H.
  apply list_elem_of_In, elem_of_seqZ. lia.
Qed.

Create HintDb speak discriminated.
Create Rewrite HintDb eof.
