(* ===== verification/CharPredicates.v ===== *)
(** * Character predicates, surrogate pairs and range checks

    Models [src/base/bounds.h] ([IsInRange]), [src/base/strings.h] ([HexValue]),
    the [Utf16] class and line terminators of [src/strings/unicode.h], and
    [src/strings/char-predicates-inl.h] / [char-predicates.cc]. A [base::uc32]
    is an integer of [0, 2^32). The ICU property lookups are the parameters of
    the class [UnicodeData]. *)

From S2P Require Import Prelude.
From stdpp Require Import base list numbers.
From Stdlib Require Import ZArith Lia Bool Btauto.

Local Open Scope Z_scope.

Definition is_uc32 (c : Z) : Prop := 0 <= c < 2 ^ 32.
Definition is_uc16 (c : Z) : Prop := 0 <= c < 2 ^ 16.

(** [static_cast<base::uc32>(-1)] *)
Definition kEndOfInput : Z := 2 ^ 32 - 1.

(** ** base/bounds.h *)

(** The single-branch range check on [w]-bit unsigned arithmetic. *)
Definition IsInRange (w value lower_limit higher_limit : Z) : bool :=
  wrap w (wrap w value - wrap w lower_limit)
    <=? wrap w (wrap w higher_limit - wrap w lower_limit).

(** ** base/strings.h *)

Definition HexValue (c : Z) : Z :=
  let c := uint32 (c - "0"%uc) in
  if c <=? 9 then c
  else
    let c := uint32 (Z.lor c 0x20 - ("a"%uc - "0"%uc)) in
    if c <=? 5 then c + 10 else -1.

(** ** unibrow::Utf16 and line terminators *)

Definition kMaxNonSurrogateCharCode : Z := 0xffff.
Definition kMaxCodePoint : Z := 0x10ffff.

Definition IsLeadSurrogate (code : Z) : bool := Z.land code 0x1ffc00 =? 0xd800.
Definition IsTrailSurrogate (code : Z) : bool := Z.land code 0x1ffc00 =? 0xdc00.

Definition CombineSurrogatePair (lead trail : Z) : Z :=
  0x10000 + Z.shiftl (Z.land lead 0x3ff) 10 + Z.land trail 0x3ff.

Definition LeadSurrogate (char_code : Z) : Z :=
  uint16 (0xd800 + Z.land (Z.shiftr (uint32 (char_code - 0x10000)) 10) 0x3ff).

Definition TrailSurrogate (char_code : Z) : Z :=
  uint16 (0xdc00 + Z.land char_code 0x3ff).

Definition IsLineTerminator (c : Z) : bool :=
  (c =? 0x000A) || (c =? 0x000D) || (c =? 0x2028) || (c =? 0x2029).

Definition IsStringLiteralLineTerminator (c : Z) : bool :=
  (c =? 0x000A) || (c =? 0x000D).

(** ** strings/char-predicates-inl.h *)

(** The result is an [int]: [c | 0x20] reinterpreted as signed. *)
Definition AsciiAlphaToLower (c : Z) : Z := int32 (Z.lor c 0x20).

Definition IsCarriageReturn (c : Z) : bool := c =? 0x000D.
Definition IsLineFeed (c : Z) : bool := c =? 0x000A.

Definition IsDecimalDigit (c : Z) : bool := IsInRange 32 c "0"%uc "9"%uc.

Definition IsAlphaNumeric (c : Z) : bool :=
  IsInRange 32 (AsciiAlphaToLower c) "a"%uc "z"%uc || IsDecimalDigit c.

Definition IsAsciiIdentifier (c : Z) : bool :=
  IsAlphaNumeric c || (c =? "$"%uc) || (c =? "_"%uc).

Definition IsHexDigit (c : Z) : bool :=
  IsDecimalDigit c || IsInRange 32 (AsciiAlphaToLower c) "a"%uc "f"%uc.

Definition IsOctalDigit (c : Z) : bool := IsInRange 32 c "0"%uc "7"%uc.
Definition IsNonOctalDecimalDigit (c : Z) : bool := IsInRange 32 c "8"%uc "9"%uc.
Definition IsBinaryDigit (c : Z) : bool := (c =? "0"%uc) || (c =? "1"%uc).
Definition IsAsciiLower (c : Z) : bool := IsInRange 32 c "a"%uc "z"%uc.
Definition IsAsciiUpper (c : Z) : bool := IsInRange 32 c "A"%uc "Z"%uc.

Definition ToAsciiUpper (c : Z) : Z :=
  Z.land c (uint32 (Z.lnot (Z.shiftl (Z.b2z (IsAsciiLower c)) 5))).

Definition ToAsciiLower (c : Z) : Z :=
  Z.lor c (Z.shiftl (Z.b2z (IsAsciiUpper c)) 5).

Definition IsRegExpWord (c : Z) : bool := IsAlphaNumeric c || (c =? "_"%uc).

(** [enum OneByteCharFlags] *)
Definition kIsIdentifierStart : Z := 1.
Definition kIsIdentifierPart : Z := 2.
Definition kIsWhiteSpace : Z := 4.
Definition kIsWhiteSpaceOrLineTerminator : Z := 8.
Definition kMaybeLineEnd : Z := 16.

Definition within (lo hi c : Z) : bool := (lo <=? c) && (c <=? hi).

Definition IsOneByteIDStart (c : Z) : bool :=
  (c =? 0x0024) || within 0x0041 0x005A c || (c =? 0x005F)
  || within 0x0061 0x007A c || (c =? 0x00AA) || (c =? 0x00B5)
  || (c =? 0x00BA) || within 0x00C0 0x00D6 c
  || within 0x00D8 0x00F6 c || within 0x00F8 0x00FF c.

Definition IsOneByteIDContinue (c : Z) : bool :=
  (c =? 0x0024) || within 0x0030 0x0039 c || (c =? 0x005F)
  || within 0x0041 0x005A c || within 0x0061 0x007A c
  || (c =? 0x00AA) || (c =? 0x00B5) || (c =? 0x00B7) || (c =? 0x00BA)
  || within 0x00C0 0x00D6 c || within 0x00D8 0x00F6 c
  || within 0x00F8 0x00FF c.

(** ['\t'], ['\v'], ['\f'], [' '] and U+00A0. *)
Definition IsOneByteWhitespace (c : Z) : bool :=
  (c =? 0x09) || (c =? 0x0B) || (c =? 0x0C) || (c =? " "%uc) || (c =? 0xA0).

Definition BuildOneByteCharFlags (c : Z) : Z :=
  let result := 0 in
  let result :=
    if IsOneByteIDStart c || (c =? "\"%uc)
    then Z.lor result kIsIdentifierStart else result in
  let result :=
    if IsOneByteIDContinue c || (c =? "\"%uc)
    then Z.lor result kIsIdentifierPart else result in
  let result :=
    if IsOneByteWhitespace c
    then Z.lor result (Z.lor kIsWhiteSpace kIsWhiteSpaceOrLineTerminator)
    else result in
  let result :=
    if (c =? 0x0D) || (c =? 0x0A)
    then Z.lor result (Z.lor kIsWhiteSpaceOrLineTerminator kMaybeLineEnd)
    else result in
  if (c =? uint8 0x2028) || (c =? uint8 0x2029)
  then Z.lor result kMaybeLineEnd else result.

Definition kOneByteCharFlags : list Z :=
  Eval vm_compute in map BuildOneByteCharFlags (seqZ 0 256).

Definition one_byte_flag (c flag : Z) : bool :=
  negb (Z.land (nth (Z.to_nat c) kOneByteCharFlags 0) flag =? 0).

(** ** Unicode properties

    [u_hasBinaryProperty] for [UCHAR_ID_START] and [UCHAR_ID_CONTINUE], and
    [u_charType(c) == U_SPACE_SEPARATOR], of ICU. *)
Class UnicodeData : Type := {
  u_is_ID_START : Z -> bool;
  u_is_ID_CONTINUE : Z -> bool;
  u_is_SPACE_SEPARATOR : Z -> bool
}.

Section Predicates.
Context {U : UnicodeData}.

Definition IsIdentifierStartSlow (c : Z) : bool :=
  u_is_ID_START c
  || ((c <? 0x60) && ((c =? "$"%uc) || (c =? "\"%uc) || (c =? "_"%uc))).

Definition IsIdentifierPartSlow (c : Z) : bool :=
  u_is_ID_CONTINUE c
  || ((c <? 0x60) && ((c =? "$"%uc) || (c =? "\"%uc) || (c =? "_"%uc)))
  || (c =? 0x200C) || (c =? 0x200D).

Definition IsWhiteSpaceSlow (c : Z) : bool :=
  u_is_SPACE_SEPARATOR c
  || ((c <? 0x0D) && ((c =? 0x09) || (c =? 0x0B) || (c =? 0x0C)))
  || (c =? 0xFEFF).

Definition IsWhiteSpaceOrLineTerminatorSlow (c : Z) : bool :=
  IsWhiteSpaceSlow c || IsLineTerminator c.

Definition IsIdentifierStart (c : Z) : bool :=
  if negb (IsInRange 32 c 0 255) then IsIdentifierStartSlow c
  else one_byte_flag c kIsIdentifierStart.

Definition IsIdentifierPart (c : Z) : bool :=
  if negb (IsInRange 32 c 0 255) then IsIdentifierPartSlow c
  else one_byte_flag c kIsIdentifierPart.

Definition IsWhiteSpace (c : Z) : bool :=
  if negb (IsInRange 32 c 0 255) then IsWhiteSpaceSlow c
  else one_byte_flag c kIsWhiteSpace.

Definition IsWhiteSpaceOrLineTerminator (c : Z) : bool :=
  if negb (IsInRange 32 c 0 255) then IsWhiteSpaceOrLineTerminatorSlow c
  else one_byte_flag c kIsWhiteSpaceOrLineTerminator.
End Predicates.

Definition IsLineTerminatorSequence (c next : Z) : bool :=
  if one_byte_flag (uint8 c) kMaybeLineEnd then
    if c =? 0x0A then true
    else if c =? 0x0D then negb (next =? 0x0A)
    else IsInRange 32 c 0x2028 0x2029
  else false.

(** What the code relies on of the Unicode character database: the Latin-1
    rows, [ID_Start] being part of [ID_Continue], properties holding of code
    points only, and identifier characters being disjoint from white space and
    line terminators. *)
Class UnicodeDataOK (U : UnicodeData) : Prop := {
  id_start_latin1 c : 0 <= c <= 255 ->
    u_is_ID_START c = IsOneByteIDStart c && negb (c =? 0x24) && negb (c =? 0x5F);
  id_continue_latin1 c : 0 <= c <= 255 ->
    u_is_ID_CONTINUE c = IsOneByteIDContinue c && negb (c =? 0x24);
  space_separator_latin1 c : 0 <= c <= 255 ->
    u_is_SPACE_SEPARATOR c = (c =? 0x20) || (c =? 0xA0);
  id_start_continue c : u_is_ID_START c = true -> u_is_ID_CONTINUE c = true;
  id_continue_code_point c : u_is_ID_CONTINUE c = true -> 0 <= c <= kMaxCodePoint;
  space_separator_code_point c :
    u_is_SPACE_SEPARATOR c = true -> 0 <= c <= kMaxCodePoint;
  id_continue_not_space c :
    u_is_ID_CONTINUE c = true -> u_is_SPACE_SEPARATOR c = false;
  id_continue_not_line_terminator c :
    u_is_ID_CONTINUE c = true ->
    IsLineTerminator c = false /\ c <> 0xFEFF
}.

(** The Latin-1 rows of the database and nothing above: the smallest instance,
    used to evaluate the scanner on concrete inputs. *)
#[export] Instance Latin1Data : UnicodeData := {|
  u_is_ID_START c :=
    within 0 255 c && IsOneByteIDStart c && negb (c =? 0x24) && negb (c =? 0x5F);
  u_is_ID_CONTINUE c := within 0 255 c && IsOneByteIDContinue c && negb (c =? 0x24);
  u_is_SPACE_SEPARATOR c := (c =? 0x20) || (c =? 0xA0)
|}.

(** ** Lemmas *)

Lemma IsInRange_spec w v lo hi :
  0 <= w -> 0 <= v < 2 ^ w -> 0 <= lo <= hi -> hi < 2 ^ w ->
  IsInRange w v lo hi = within lo hi v.
Proof.
  intros Hw Hv Hlo Hhi. unfold IsInRange, within.
  rewrite (wrap_small w v), (wrap_small w lo), (wrap_small w hi), (wrap_small w (hi - lo))
    by lia.
  destruct (Z.leb_spec lo v).
  - rewrite (wrap_small w (v - lo)) by lia. bool_lia.
  - replace (wrap w (v - lo)) with (v - lo + 2 ^ w).
    + bool_lia.
    + unfold wrap. rewrite <- (Z_mod_plus_full (v - lo) 1), Z.mod_small; lia.
Qed.

Lemma lor_32 x : 0 <= x -> Z.lor x 32 = x + 32 * (1 - (x / 32) mod 2).
Proof.
  intros Hx. change 32 with (2 ^ 5).
  pose proof (Z.testbit_spec' x 5 ltac:(lia)) as Hb.
  destruct (Z.testbit x 5) eqn:E; cbn [Z.b2z] in Hb; rewrite <- Hb.
  - replace (x + 2 ^ 5 * (1 - 1)) with x by lia.
    apply Z.bits_inj'. intros n Hn. rewrite Z.lor_spec, Z.pow2_bits_eqb by lia.
    destruct (Z.eqb_spec 5 n); subst; rewrite ?E; btauto.
  - assert (Hl : Z.land x (2 ^ 5) = 0).
    { apply Z.bits_inj'. intros n Hn.
      rewrite Z.land_spec, Z.pow2_bits_eqb, Z.bits_0 by lia.
      destruct (Z.eqb_spec 5 n); subst; rewrite ?E; btauto. }
    rewrite <- Z.lxor_lor, <- Z.add_nocarry_lxor by done. lia.
Qed.

Lemma lor_32_range x : 0 <= x < 2 ^ 32 -> 0 <= Z.lor x 32 < 2 ^ 32.
Proof. intros. rewrite lor_32 by lia. div_lia. Qed.

(** Range checks after lower-casing accept both cases of the letters. *)
Lemma IsInRange_lower c lo hi :
  is_uc32 c -> 97 <= lo <= hi -> hi <= 122 ->
  IsInRange 32 (AsciiAlphaToLower c) lo hi
  = within lo hi c || within (lo - 32) (hi - 32) c.
Proof.
  intros Hc Hlo Hhi. unfold is_uc32 in Hc.
  assert (HA : IsInRange 32 (AsciiAlphaToLower c) lo hi
               = IsInRange 32 (Z.lor c 32) lo hi).
  { unfold IsInRange, AsciiAlphaToLower, int32. f_equal. f_equal. f_equal.
    unfold uint32. destruct (_ <? _).
    - unfold wrap. apply Z.mod_mod. lia.
    - unfold wrap. rewrite <- (Z_mod_plus_full _ (-1)).
      replace (-1 * 2 ^ 32) with (- 2 ^ 32) by lia.
      rewrite <- (Z_mod_plus_full _ 1), Z.mul_1_l.
      replace (_ - 2 ^ 32 + - 2 ^ 32 + 2 ^ 32)
        with (Z.lor c 32 mod 2 ^ 32 + (-1) * 2 ^ 32) by lia.
      rewrite Z_mod_plus_full. apply Z.mod_mod. lia. }
  rewrite HA, IsInRange_spec by (try apply lor_32_range; lia).
  unfold within. rewrite lor_32 by lia.
  bool_lia.
Qed.

Lemma IsDecimalDigit_spec c : is_uc32 c -> IsDecimalDigit c = within 48 57 c.
Proof. intros. apply IsInRange_spec; unfold is_uc32 in *; lia. Qed.

Lemma IsOctalDigit_spec c : is_uc32 c -> IsOctalDigit c = within 48 55 c.
Proof. intros. apply IsInRange_spec; unfold is_uc32 in *; lia. Qed.

Lemma IsNonOctalDecimalDigit_spec c :
  is_uc32 c -> IsNonOctalDecimalDigit c = within 56 57 c.
Proof. intros. apply IsInRange_spec; unfold is_uc32 in *; lia. Qed.

Lemma IsHexDigit_spec c :
  is_uc32 c ->
  IsHexDigit c = within 48 57 c || within 97 102 c || within 65 70 c.
Proof.
  intros. unfold IsHexDigit.
  rewrite IsDecimalDigit_spec, IsInRange_lower by (done || lia).
  by rewrite orb_assoc.
Qed.

Lemma IsAsciiIdentifier_spec c :
  is_uc32 c ->
  IsAsciiIdentifier c =
    within 97 122 c || within 65 90 c || within 48 57 c
    || (c =? 36) || (c =? 95).
Proof.
  intros. unfold IsAsciiIdentifier, IsAlphaNumeric.
  by rewrite IsDecimalDigit_spec, IsInRange_lower by (done || lia).
Qed.

Lemma AsciiAlphaToLower_letter c l :
  is_uc32 c -> 97 <= l <= 122 ->
  (AsciiAlphaToLower c =? l) = (c =? l) || (c =? l - 32).
Proof.
  intros Hc Hl. unfold is_uc32 in Hc. unfold AsciiAlphaToLower, int32.
  rewrite uint32_small by (apply lor_32_range; lia).
  rewrite lor_32 by lia.
  destruct (Z.ltb_spec (c + 32 * (1 - (c / 32) mod 2)) (2 ^ 31)); bool_lia.
Qed.

(** The digit value of a hexadecimal character. *)
Definition hex_digit_value (c : Z) : option Z :=
  if within 48 57 c then Some (c - 48)
  else if within 97 102 c then Some (c - 87)
  else if within 65 70 c then Some (c - 55)
  else None.

Lemma HexValue_spec c :
  is_uc32 c -> HexValue c = default (-1) (hex_digit_value c).
Proof.
  intros Hc. unfold is_uc32 in Hc.
  destruct (Z.ltb_spec c 128).
  - apply Z.eqb_eq. revert c Hc H.
    assert (H : forall c, 0 <= c < 0 + 128 ->
                (HexValue c =? default (-1) (hex_digit_value c)) = true)
      by (apply forallb_seqZ; vm_compute; reflexivity).
    intros. apply H. lia.
  - unfold HexValue, hex_digit_value, within. cbv zeta.
    rewrite (uint32_small (c - 48)) by lia.
    pose proof (lor_32_range (c - 48) ltac:(lia)).
    assert (c - 48 <= Z.lor (c - 48) 32).
    { rewrite lor_32 by lia. div_lia. }
    change 0x20 with 32. rewrite uint32_small by lia.
    replace (c - 48 <=? 9) with false by bool_lia.
    replace (_ <=? 5) with false by bool_lia.
    replace (c <=? 57) with false by bool_lia.
    replace (c <=? 102) with false by bool_lia.
    replace (c <=? 70) with false by bool_lia.
    by rewrite !andb_false_r.
Qed.

(** *** Surrogates *)

Lemma land_surrogate_mask c :
  0 <= c -> Z.land c 0x1ffc00 = ((c / 2 ^ 10) mod 2 ^ 11) * 2 ^ 10.
Proof.
  intros. rewrite <- Z.shiftr_div_pow2, <- Z.land_ones, <- Z.shiftl_mul_pow2 by lia.
  change 0x1ffc00 with (Z.shiftl (Z.ones 11) 10).
  apply Z.bits_inj'. intros n Hn.
  rewrite Z.land_spec, !Z.shiftl_spec, Z.land_spec by lia.
  destruct (Z.ltb_spec n 10).
  - rewrite !(Z.testbit_neg_r _ (n - 10)) by lia. btauto.
  - rewrite Z.shiftr_spec by lia. by replace (n - 10 + 10) with n by lia.
Qed.

Lemma land_10_bits c : Z.land c 0x3ff = c mod 2 ^ 10.
Proof. change 0x3ff with (Z.ones 10). apply Z.land_ones. lia. Qed.

(** On code points the mask test is the surrogate range. *)
Lemma IsLeadSurrogate_spec c :
  0 <= c <= kMaxCodePoint -> IsLeadSurrogate c = within 0xd800 0xdbff c.
Proof.
  unfold kMaxCodePoint. intros. unfold IsLeadSurrogate, within.
  rewrite land_surrogate_mask by lia. bool_lia.
Qed.

Lemma IsTrailSurrogate_spec c :
  0 <= c <= kMaxCodePoint -> IsTrailSurrogate c = within 0xdc00 0xdfff c.
Proof.
  unfold kMaxCodePoint. intros. unfold IsTrailSurrogate, within.
  rewrite land_surrogate_mask by lia. bool_lia.
Qed.

Lemma LeadSurrogate_spec c :
  0x10000 <= c <= kMaxCodePoint ->
  LeadSurrogate c = 0xd800 + (c - 0x10000) / 2 ^ 10.
Proof.
  unfold kMaxCodePoint. intros. unfold LeadSurrogate, uint16.
  rewrite land_10_bits, Z.shiftr_div_pow2, uint32_small by lia.
  rewrite wrap_small; div_lia.
Qed.

Lemma TrailSurrogate_spec c : 0 <= c -> TrailSurrogate c = 0xdc00 + c mod 2 ^ 10.
Proof.
  intros. unfold TrailSurrogate, uint16. rewrite land_10_bits, wrap_small; div_lia.
Qed.

Lemma CombineSurrogatePair_spec lead trail :
  0xd800 <= lead <= 0xdbff -> 0xdc00 <= trail <= 0xdfff ->
  CombineSurrogatePair lead trail
  = 0x10000 + (lead - 0xd800) * 2 ^ 10 + (trail - 0xdc00).
Proof.
  intros. unfold CombineSurrogatePair.
  rewrite !land_10_bits, Z.shiftl_mul_pow2 by lia. div_lia.
Qed.

(** The UTF-16 code units of a code point. *)
Definition utf16_encode (c : Z) : list Z :=
  if c <=? kMaxNonSurrogateCharCode then [c]
  else [LeadSurrogate c; TrailSurrogate c].

(** *** The one-byte tables *)

Lemma one_byte_table_sound (slow : Z -> bool) flag :
  forallb (fun c => Bool.eqb (one_byte_flag c flag) (slow c)) (seqZ 0 256) = true ->
  forall c, is_uc32 c ->
    (if negb (IsInRange 32 c 0 255) then slow c else one_byte_flag c flag) = slow c.
Proof.
  intros H c Hc. rewrite IsInRange_spec by (unfold is_uc32 in Hc; lia).
  destruct (within 0 255 c) eqn:E; [|done]. unfold within in E. bool_to_prop.
  exact (eqb_prop _ _ (forallb_seqZ _ 0 256 H c ltac:(lia))).
Qed.

Section TableFacts.
Context {U : UnicodeData} {UOK : UnicodeDataOK U}.

(** A proof for the whole one-byte range from the Latin-1 rows. *)
Local Lemma one_byte_ext (f g : Z -> bool) :
  (forall c, 0 <= c <= 255 -> f c = g c) ->
  forallb (fun c => g c) (seqZ 0 256) = true ->
  forallb (fun c => f c) (seqZ 0 256) = true.
Proof.
  intros Hfg Hg. rewrite forallb_forall in *. intros c Hc.
  rewrite Hfg; [by apply Hg|].
  apply list_elem_of_In, elem_of_seqZ in Hc. lia.
Qed.

Lemma IsIdentifierStart_slow c :
  is_uc32 c -> IsIdentifierStart c = IsIdentifierStartSlow c.
Proof.
  apply one_byte_table_sound.
  eapply one_byte_ext;
    [intros x Hx; unfold IsIdentifierStartSlow; rewrite id_start_latin1 by done;
     reflexivity|].
  vm_compute. reflexivity.
Qed.

Lemma IsIdentifierPart_slow c :
  is_uc32 c -> IsIdentifierPart c = IsIdentifierPartSlow c.
Proof.
  apply one_byte_table_sound.
  eapply one_byte_ext;
    [intros x Hx; unfold IsIdentifierPartSlow; rewrite id_continue_latin1 by done;
     reflexivity|].
  vm_compute. reflexivity.
Qed.

Lemma IsWhiteSpace_slow c : is_uc32 c -> IsWhiteSpace c = IsWhiteSpaceSlow c.
Proof.
  apply one_byte_table_sound.
  eapply one_byte_ext;
    [intros x Hx; unfold IsWhiteSpaceSlow; rewrite space_separator_latin1 by done;
     reflexivity|].
  vm_compute. reflexivity.
Qed.

Lemma IsWhiteSpaceOrLineTerminator_slow c :
  is_uc32 c -> IsWhiteSpaceOrLineTerminator c = IsWhiteSpaceOrLineTerminatorSlow c.
Proof.
  apply one_byte_table_sound.
  eapply one_byte_ext;
    [intros x Hx; unfold IsWhiteSpaceOrLineTerminatorSlow, IsWhiteSpaceSlow;
     rewrite space_separator_latin1 by done; reflexivity|].
  vm_compute. reflexivity.
Qed.

Lemma is_uc32_kEndOfInput : is_uc32 kEndOfInput.
Proof. unfold is_uc32, kEndOfInput. lia. Qed.

Local Ltac property_at_eof :=
  match goal with
  | |- context [u_is_ID_START ?c] =>
      destruct (u_is_ID_START c) eqn:E;
      [apply id_start_continue, id_continue_code_point in E;
       unfold kMaxCodePoint, kEndOfInput in E; lia|]
  | |- context [u_is_ID_CONTINUE ?c] =>
      destruct (u_is_ID_CONTINUE c) eqn:E;
      [apply id_continue_code_point in E;
       unfold kMaxCodePoint, kEndOfInput in E; lia|]
  | |- context [u_is_SPACE_SEPARATOR ?c] =>
      destruct (u_is_SPACE_SEPARATOR c) eqn:E;
      [apply space_separator_code_point in E;
       unfold kMaxCodePoint, kEndOfInput in E; lia|]
  end; reflexivity.

Lemma IsIdentifierStart_eof : IsIdentifierStart kEndOfInput = false.
Proof.
  rewrite IsIdentifierStart_slow by apply is_uc32_kEndOfInput.
  unfold IsIdentifierStartSlow. property_at_eof.
Qed.

Lemma IsIdentifierPart_eof : IsIdentifierPart kEndOfInput = false.
Proof.
  rewrite IsIdentifierPart_slow by apply is_uc32_kEndOfInput.
  unfold IsIdentifierPartSlow. property_at_eof.
Qed.

Lemma IsWhiteSpace_eof : IsWhiteSpace kEndOfInput = false.
Proof.
  rewrite IsWhiteSpace_slow by apply is_uc32_kEndOfInput.
  unfold IsWhiteSpaceSlow. property_at_eof.
Qed.

Lemma IsWhiteSpaceOrLineTerminator_eof :
  IsWhiteSpaceOrLineTerminator kEndOfInput = false.
Proof.
  rewrite IsWhiteSpaceOrLineTerminator_slow by apply is_uc32_kEndOfInput.
  unfold IsWhiteSpaceOrLineTerminatorSlow, IsWhiteSpaceSlow. property_at_eof.
Qed.

Lemma IsIdentifierStart_Part c :
  is_uc32 c -> IsIdentifierStart c = true -> IsIdentifierPart c = true.
Proof.
  intros Hc. rewrite IsIdentifierStart_slow, IsIdentifierPart_slow by done.
  unfold IsIdentifierStartSlow, IsIdentifierPartSlow.
  destruct (u_is_ID_START c) eqn:E; [by rewrite (id_start_continue _ E)|].
  cbn [orb]. intros ->. btauto.
Qed.

(** White space plus line terminators is what the combined table holds. *)
Lemma IsWhiteSpaceOrLineTerminator_split c :
  is_uc32 c ->
  IsWhiteSpaceOrLineTerminator c = IsWhiteSpace c || IsLineTerminator c.
Proof.
  intros. by rewrite IsWhiteSpaceOrLineTerminator_slow, IsWhiteSpace_slow.
Qed.
End TableFacts.

#[export] Instance Latin1DataOK : UnicodeDataOK Latin1Data.
Proof.
  split; cbn; unfold within, kMaxCodePoint; intros c.
  - intros. replace (0 <=? c) with true by bool_lia.
    by replace (c <=? 255) with true by bool_lia.
  - intros. replace (0 <=? c) with true by bool_lia.
    by replace (c <=? 255) with true by bool_lia.
  - done.
  - unfold IsOneByteIDStart, IsOneByteIDContinue, within. intros. bool_to_prop.
    apply andb_true_iff. split; [|bool_lia]. bool_lia.
  - intros. bool_to_prop. lia.
  - intros. bool_to_prop. lia.
  - unfold IsOneByteIDContinue, within. intros. bool_to_prop. bool_lia.
  - unfold IsOneByteIDContinue, IsLineTerminator, within. intros. bool_to_prop.
    split; [bool_lia|lia].
Qed.

#[export] Hint Resolve is_uc32_kEndOfInput : speak.
#[export] Hint Rewrite @IsIdentifierStart_eof @IsIdentifierPart_eof
  @IsWhiteSpace_eof @IsWhiteSpaceOrLineTerminator_eof using typeclasses eauto : eof.
