(* ===== verification/Tokens.v ===== *)
(** * Tokens

    Models [src/parsing/token.h] and [token.cc]: the token enumeration, the
    tables generated from [TOKEN_LIST] (names, spellings, lengths, precedences
    and flags) and the predicates on token ranges. *)

From S2P Require Import Prelude.
From S2P Require Import CharPredicates.
From stdpp Require Import base list numbers strings decidable.
From Stdlib Require Import ZArith Lia Bool.

Local Open Scope string_scope.
Local Open Scope Z_scope.

Module Token.

(** [enum Value : uint8_t], in declaration order. *)
Inductive Value : Type :=
  | TEMPLATE_SPAN | TEMPLATE_TAIL | PERIOD | LBRACK | QUESTION_PERIOD
  | LPAREN | RPAREN | RBRACK | LBRACE | COLON | ELLIPSIS | CONDITIONAL
  | SEMICOLON | RBRACE | EOS | ARROW | INIT | ASSIGN | ASSIGN_NULLISH
  | ASSIGN_OR | ASSIGN_AND | ASSIGN_BIT_OR | ASSIGN_BIT_XOR | ASSIGN_BIT_AND
  | ASSIGN_SHL | ASSIGN_SAR | ASSIGN_SHR | ASSIGN_MUL | ASSIGN_DIV
  | ASSIGN_MOD | ASSIGN_EXP | ASSIGN_ADD | ASSIGN_SUB | COMMA | NULLISH | OR
  | AND | BIT_OR | BIT_XOR | BIT_AND | SHL | SAR | SHR | MUL | DIV | MOD
  | EXP | ADD | SUB | NOT | BIT_NOT | DELETE | TYPEOF | VOID | INC | DEC | EQ
  | EQ_STRICT | NE | NE_STRICT | LT | GT | LTE | GTE | INSTANCEOF | IN
  | BREAK | CASE | CATCH | CONTINUE | DEBUGGER | DEFAULT | DO | ELSE
  | FINALLY | FOR | FUNCTION | IF | NEW | RETURN | SWITCH | THROW | TRY | VAR
  | WHILE | WITH | THIS | NULL_LITERAL | TRUE_LITERAL | FALSE_LITERAL
  | NUMBER | SMI | BIGINT | STRING | SUPER | IDENTIFIER | GET | SET | ASYNC
  | AWAIT | YIELD | LET | STATIC | FUTURE_STRICT_RESERVED_WORD
  | ESCAPED_STRICT_RESERVED_WORD | ENUM | CLASS | CONST | EXPORT | EXTENDS
  | IMPORT | PRIVATE_NAME | ILLEGAL | ESCAPED_KEYWORD | WHITESPACE
  | UNINITIALIZED | REGEXP_LITERAL.

(** Which macro of [TOKEN_LIST] declares the token. *)
Inductive TokenClass : Type := T | K.

(** [TOKEN_LIST(T, K)]: class, token, spelling, precedence and C++ name. *)
Definition TOKEN_LIST : list (TokenClass * Value * option string * Z * string) :=
  [
    (T, TEMPLATE_SPAN, None, 0, "TEMPLATE_SPAN");
    (T, TEMPLATE_TAIL, None, 0, "TEMPLATE_TAIL");
    (T, PERIOD, Some ".", 0, "PERIOD");
    (T, LBRACK, Some "[", 0, "LBRACK");
    (T, QUESTION_PERIOD, Some "?.", 0, "QUESTION_PERIOD");
    (T, LPAREN, Some "(", 0, "LPAREN");
    (T, RPAREN, Some ")", 0, "RPAREN");
    (T, RBRACK, Some "]", 0, "RBRACK");
    (T, LBRACE, Some "{", 0, "LBRACE");
    (T, COLON, Some ":", 0, "COLON");
    (T, ELLIPSIS, Some "...", 0, "ELLIPSIS");
    (T, CONDITIONAL, Some "?", 3, "CONDITIONAL");
    (T, SEMICOLON, Some ";", 0, "SEMICOLON");
    (T, RBRACE, Some "}", 0, "RBRACE");
    (T, EOS, Some "EOS", 0, "EOS");
    (T, ARROW, Some "=>", 0, "ARROW");
    (T, INIT, Some "=init", 2, "INIT");
    (T, ASSIGN, Some "=", 2, "ASSIGN");
    (T, ASSIGN_NULLISH, Some "??=", 2, "ASSIGN_NULLISH");
    (T, ASSIGN_OR, Some "||=", 2, "ASSIGN_OR");
    (T, ASSIGN_AND, Some "&&=", 2, "ASSIGN_AND");
    (T, ASSIGN_BIT_OR, Some "|=", 2, "ASSIGN_BIT_OR");
    (T, ASSIGN_BIT_XOR, Some "^=", 2, "ASSIGN_BIT_XOR");
    (T, ASSIGN_BIT_AND, Some "&=", 2, "ASSIGN_BIT_AND");
    (T, ASSIGN_SHL, Some "<<=", 2, "ASSIGN_SHL");
    (T, ASSIGN_SAR, Some ">>=", 2, "ASSIGN_SAR");
    (T, ASSIGN_SHR, Some ">>>=", 2, "ASSIGN_SHR");
    (T, ASSIGN_MUL, Some "*=", 2, "ASSIGN_MUL");
    (T, ASSIGN_DIV, Some "/=", 2, "ASSIGN_DIV");
    (T, ASSIGN_MOD, Some "%=", 2, "ASSIGN_MOD");
    (T, ASSIGN_EXP, Some "**=", 2, "ASSIGN_EXP");
    (T, ASSIGN_ADD, Some "+=", 2, "ASSIGN_ADD");
    (T, ASSIGN_SUB, Some "-=", 2, "ASSIGN_SUB");
    (T, COMMA, Some ",", 1, "COMMA");
    (T, NULLISH, Some "??", 3, "NULLISH");
    (T, OR, Some "||", 4, "OR");
    (T, AND, Some "&&", 5, "AND");
    (T, BIT_OR, Some "|", 6, "BIT_OR");
    (T, BIT_XOR, Some "^", 7, "BIT_XOR");
    (T, BIT_AND, Some "&", 8, "BIT_AND");
    (T, SHL, Some "<<", 11, "SHL");
    (T, SAR, Some ">>", 11, "SAR");
    (T, SHR, Some ">>>", 11, "SHR");
    (T, MUL, Some "*", 13, "MUL");
    (T, DIV, Some "/", 13, "DIV");
    (T, MOD, Some "%", 13, "MOD");
    (T, EXP, Some "**", 14, "EXP");
    (T, ADD, Some "+", 12, "ADD");
    (T, SUB, Some "-", 12, "SUB");
    (T, NOT, Some "!", 0, "NOT");
    (T, BIT_NOT, Some "~", 0, "BIT_NOT");
    (K, DELETE, Some "delete", 0, "DELETE");
    (K, TYPEOF, Some "typeof", 0, "TYPEOF");
    (K, VOID, Some "void", 0, "VOID");
    (T, INC, Some "++", 0, "INC");
    (T, DEC, Some "--", 0, "DEC");
    (T, EQ, Some "==", 9, "EQ");
    (T, EQ_STRICT, Some "===", 9, "EQ_STRICT");
    (T, NE, Some "!=", 9, "NE");
    (T, NE_STRICT, Some "!==", 9, "NE_STRICT");
    (T, LT, Some "<", 10, "LT");
    (T, GT, Some ">", 10, "GT");
    (T, LTE, Some "<=", 10, "LTE");
    (T, GTE, Some ">=", 10, "GTE");
    (K, INSTANCEOF, Some "instanceof", 10, "INSTANCEOF");
    (K, IN, Some "in", 10, "IN");
    (K, BREAK, Some "break", 0, "BREAK");
    (K, CASE, Some "case", 0, "CASE");
    (K, CATCH, Some "catch", 0, "CATCH");
    (K, CONTINUE, Some "continue", 0, "CONTINUE");
    (K, DEBUGGER, Some "debugger", 0, "DEBUGGER");
    (K, DEFAULT, Some "default", 0, "DEFAULT");
    (K, DO, Some "do", 0, "DO");
    (K, ELSE, Some "else", 0, "ELSE");
    (K, FINALLY, Some "finally", 0, "FINALLY");
    (K, FOR, Some "for", 0, "FOR");
    (K, FUNCTION, Some "function", 0, "FUNCTION");
    (K, IF, Some "if", 0, "IF");
    (K, NEW, Some "new", 0, "NEW");
    (K, RETURN, Some "return", 0, "RETURN");
    (K, SWITCH, Some "switch", 0, "SWITCH");
    (K, THROW, Some "throw", 0, "THROW");
    (K, TRY, Some "try", 0, "TRY");
    (K, VAR, Some "var", 0, "VAR");
    (K, WHILE, Some "while", 0, "WHILE");
    (K, WITH, Some "with", 0, "WITH");
    (K, THIS, Some "this", 0, "THIS");
    (K, NULL_LITERAL, Some "null", 0, "NULL_LITERAL");
    (K, TRUE_LITERAL, Some "true", 0, "TRUE_LITERAL");
    (K, FALSE_LITERAL, Some "false", 0, "FALSE_LITERAL");
    (T, NUMBER, None, 0, "NUMBER");
    (T, SMI, None, 0, "SMI");
    (T, BIGINT, None, 0, "BIGINT");
    (T, STRING, None, 0, "STRING");
    (K, SUPER, Some "super", 0, "SUPER");
    (T, IDENTIFIER, None, 0, "IDENTIFIER");
    (K, GET, Some "get", 0, "GET");
    (K, SET, Some "set", 0, "SET");
    (K, ASYNC, Some "async", 0, "ASYNC");
    (K, AWAIT, Some "await", 0, "AWAIT");
    (K, YIELD, Some "yield", 0, "YIELD");
    (K, LET, Some "let", 0, "LET");
    (K, STATIC, Some "static", 0, "STATIC");
    (T, FUTURE_STRICT_RESERVED_WORD, None, 0, "FUTURE_STRICT_RESERVED_WORD");
    (T, ESCAPED_STRICT_RESERVED_WORD, None, 0, "ESCAPED_STRICT_RESERVED_WORD");
    (K, ENUM, Some "enum", 0, "ENUM");
    (K, CLASS, Some "class", 0, "CLASS");
    (K, CONST, Some "const", 0, "CONST");
    (K, EXPORT, Some "export", 0, "EXPORT");
    (K, EXTENDS, Some "extends", 0, "EXTENDS");
    (K, IMPORT, Some "import", 0, "IMPORT");
    (T, PRIVATE_NAME, None, 0, "PRIVATE_NAME");
    (T, ILLEGAL, Some "ILLEGAL", 0, "ILLEGAL");
    (T, ESCAPED_KEYWORD, None, 0, "ESCAPED_KEYWORD");
    (T, WHITESPACE, None, 0, "WHITESPACE");
    (T, UNINITIALIZED, None, 0, "UNINITIALIZED");
    (T, REGEXP_LITERAL, None, 0, "REGEXP_LITERAL")
  ].

Definition row_class (r : TokenClass * Value * option string * Z * string) :=
  let '(c, _, _, _, _) := r in c.
Definition row_value (r : TokenClass * Value * option string * Z * string) :=
  let '(_, v, _, _, _) := r in v.
Definition row_string (r : TokenClass * Value * option string * Z * string) :=
  let '(_, _, s, _, _) := r in s.
Definition row_precedence (r : TokenClass * Value * option string * Z * string) :=
  let '(_, _, _, p, _) := r in p.
Definition row_name (r : TokenClass * Value * option string * Z * string) :=
  let '(_, _, _, _, n) := r in n.

Definition token_values : list Value := Eval compute in map row_value TOKEN_LIST.
Definition NUM_TOKENS : Z := Eval vm_compute in Z.of_nat (length TOKEN_LIST).

(** The underlying [uint8_t] of a token. *)
Definition value_index (t : Value) : Z :=
  match t with
  | TEMPLATE_SPAN => 0
  | TEMPLATE_TAIL => 1
  | PERIOD => 2
  | LBRACK => 3
  | QUESTION_PERIOD => 4
  | LPAREN => 5
  | RPAREN => 6
  | RBRACK => 7
  | LBRACE => 8
  | COLON => 9
  | ELLIPSIS => 10
  | CONDITIONAL => 11
  | SEMICOLON => 12
  | RBRACE => 13
  | EOS => 14
  | ARROW => 15
  | INIT => 16
  | ASSIGN => 17
  | ASSIGN_NULLISH => 18
  | ASSIGN_OR => 19
  | ASSIGN_AND => 20
  | ASSIGN_BIT_OR => 21
  | ASSIGN_BIT_XOR => 22
  | ASSIGN_BIT_AND => 23
  | ASSIGN_SHL => 24
  | ASSIGN_SAR => 25
  | ASSIGN_SHR => 26
  | ASSIGN_MUL => 27
  | ASSIGN_DIV => 28
  | ASSIGN_MOD => 29
  | ASSIGN_EXP => 30
  | ASSIGN_ADD => 31
  | ASSIGN_SUB => 32
  | COMMA => 33
  | NULLISH => 34
  | OR => 35
  | AND => 36
  | BIT_OR => 37
  | BIT_XOR => 38
  | BIT_AND => 39
  | SHL => 40
  | SAR => 41
  | SHR => 42
  | MUL => 43
  | DIV => 44
  | MOD => 45
  | EXP => 46
  | ADD => 47
  | SUB => 48
  | NOT => 49
  | BIT_NOT => 50
  | DELETE => 51
  | TYPEOF => 52
  | VOID => 53
  | INC => 54
  | DEC => 55
  | EQ => 56
  | EQ_STRICT => 57
  | NE => 58
  | NE_STRICT => 59
  | LT => 60
  | GT => 61
  | LTE => 62
  | GTE => 63
  | INSTANCEOF => 64
  | IN => 65
  | BREAK => 66
  | CASE => 67
  | CATCH => 68
  | CONTINUE => 69
  | DEBUGGER => 70
  | DEFAULT => 71
  | DO => 72
  | ELSE => 73
  | FINALLY => 74
  | FOR => 75
  | FUNCTION => 76
  | IF => 77
  | NEW => 78
  | RETURN => 79
  | SWITCH => 80
  | THROW => 81
  | TRY => 82
  | VAR => 83
  | WHILE => 84
  | WITH => 85
  | THIS => 86
  | NULL_LITERAL => 87
  | TRUE_LITERAL => 88
  | FALSE_LITERAL => 89
  | NUMBER => 90
  | SMI => 91
  | BIGINT => 92
  | STRING => 93
  | SUPER => 94
  | IDENTIFIER => 95
  | GET => 96
  | SET => 97
  | ASYNC => 98
  | AWAIT => 99
  | YIELD => 100
  | LET => 101
  | STATIC => 102
  | FUTURE_STRICT_RESERVED_WORD => 103
  | ESCAPED_STRICT_RESERVED_WORD => 104
  | ENUM => 105
  | CLASS => 106
  | CONST => 107
  | EXPORT => 108
  | EXTENDS => 109
  | IMPORT => 110
  | PRIVATE_NAME => 111
  | ILLEGAL => 112
  | ESCAPED_KEYWORD => 113
  | WHITESPACE => 114
  | UNINITIALIZED => 115
  | REGEXP_LITERAL => 116
  end.

(** [static_cast<Value>]: defined on the values of the enumeration. *)
Definition value_of_index (i : Z) : option Value :=
  if i <? 0 then None else token_values !! Z.to_nat i.

Lemma value_of_index_of t : value_of_index (value_index t) = Some t.
Proof. destruct t; reflexivity. Qed.

#[global] Instance value_index_inj : Inj (=) (=) value_index.
Proof.
  intros x y H. apply (f_equal value_of_index) in H.
  rewrite !value_of_index_of in H. congruence.
Qed.

#[global] Instance Value_eq_dec : EqDecision Value :=
  fun x y =>
    match decide (value_index x = value_index y) with
    | left H => left (inj value_index x y H)
    | right H => right (fun E => H (f_equal value_index E))
    end.

(** The static tables of token.cc, indexed by token. *)
Definition name_ : list string := Eval compute in map row_name TOKEN_LIST.
Definition string_ : list (option string) := Eval compute in map row_string TOKEN_LIST.

Definition length (str : option string) : Z :=
  match str with
  | Some s => uint8 (Z.of_nat (String.length s))
  | None => 0
  end.

Definition string_length_ : list Z := Eval vm_compute in map length string_.

Definition precedence_no_in (r : TokenClass * Value * option string * Z * string) : Z :=
  if decide (row_value r = IN) then 0 else row_precedence r.

(** [precedence_[0]] for [accept_IN == false], [precedence_[1]] otherwise. *)
Definition precedence_ (accept_IN : bool) : list Z :=
  if accept_IN then map row_precedence TOKEN_LIST
  else map precedence_no_in TOKEN_LIST.

Definition token_range (t lo hi : Value) : bool :=
  IsInRange 8 (value_index t) (value_index lo) (value_index hi).

Definition Name (token : Value) : string :=
  nth (Z.to_nat (value_index token)) name_ "".

Definition IsAnyIdentifier (token : Value) : bool :=
  token_range token IDENTIFIER ESCAPED_STRICT_RESERVED_WORD.

(** [IsKeywordBits = BitField8<bool, 0, 1>], [IsPropertyNameBits] is the next bit. *)
Definition IsKeywordBits_encode (b : bool) : Z := Z.b2z b.
Definition IsPropertyNameBits_encode (b : bool) : Z := Z.shiftl (Z.b2z b) 1.
Definition IsKeywordBits_decode (flags : Z) : bool := negb (Z.land flags 1 =? 0).
Definition IsPropertyNameBits_decode (flags : Z) : bool :=
  negb (Z.shiftr (Z.land flags 2) 1 =? 0).

Definition token_flags_row (r : TokenClass * Value * option string * Z * string) : Z :=
  match row_class r with
  | T => IsPropertyNameBits_encode
           (IsAnyIdentifier (row_value r) || bool_decide (row_value r = ESCAPED_KEYWORD))
  | K => Z.lor (IsKeywordBits_encode true) (IsPropertyNameBits_encode true)
  end.

Definition token_flags : list Z := Eval vm_compute in map token_flags_row TOKEN_LIST.

Definition IsKeyword (token : Value) : bool :=
  IsKeywordBits_decode (nth (Z.to_nat (value_index token)) token_flags 0).
Definition IsPropertyName (token : Value) : bool :=
  IsPropertyNameBits_decode (nth (Z.to_nat (value_index token)) token_flags 0).

Inductive LanguageMode : Type := kSloppy | kStrict.
Definition is_sloppy (m : LanguageMode) : bool :=
  match m with kSloppy => true | kStrict => false end.

Definition IsStrictReservedWord (token : Value) : bool :=
  token_range token YIELD ESCAPED_STRICT_RESERVED_WORD.

Definition IsValidIdentifier (token : Value) (language_mode : LanguageMode)
    (is_generator disallow_await : bool) : bool :=
  if token_range token IDENTIFIER ASYNC then true
  else if bool_decide (token = AWAIT) then negb disallow_await
  else if bool_decide (token = YIELD) then negb is_generator && is_sloppy language_mode
  else IsStrictReservedWord token && is_sloppy language_mode.

Definition IsCallable (token : Value) : bool :=
  token_range token SUPER ESCAPED_STRICT_RESERVED_WORD.
Definition IsAutoSemicolon (token : Value) : bool := token_range token SEMICOLON EOS.
Definition IsLiteral (token : Value) : bool := token_range token NULL_LITERAL STRING.
Definition IsTemplate (token : Value) : bool :=
  token_range token TEMPLATE_SPAN TEMPLATE_TAIL.
Definition IsMember (token : Value) : bool := token_range token TEMPLATE_SPAN LBRACK.
Definition IsProperty (token : Value) : bool := token_range token PERIOD LBRACK.
Definition IsPropertyOrCall (token : Value) : bool :=
  token_range token TEMPLATE_SPAN LPAREN.
Definition IsArrowOrAssignmentOp (token : Value) : bool :=
  token_range token ARROW ASSIGN_SUB.
Definition IsAssignmentOp (token : Value) : bool := token_range token INIT ASSIGN_SUB.
Definition IsLogicalAssignmentOp (token : Value) : bool :=
  token_range token ASSIGN_NULLISH ASSIGN_AND.
Definition IsBinaryOp (op : Value) : bool := token_range op COMMA SUB.
Definition IsCompareOp (op : Value) : bool := token_range op EQ IN.
Definition IsOrderedRelationalCompareOp (op : Value) : bool := token_range op LT GTE.
Definition IsEqualityOp (op : Value) : bool := token_range op EQ EQ_STRICT.

Definition BinaryOpForAssignment (op : Value) : option Value :=
  value_of_index (value_index op - value_index ASSIGN_NULLISH + value_index NULLISH).

Definition IsBitOp (op : Value) : bool :=
  token_range op BIT_OR SHR || bool_decide (op = BIT_NOT).
Definition IsUnaryOp (op : Value) : bool := token_range op ADD VOID.
Definition IsCountOp (op : Value) : bool := token_range op INC DEC.
Definition IsUnaryOrCountOp (op : Value) : bool := token_range op ADD DEC.
Definition IsShiftOp (op : Value) : bool := token_range op SHL SHR.

(** The name [String] of the source is taken by the string type here. *)
Definition TokenString (token : Value) : option string :=
  nth (Z.to_nat (value_index token)) string_ None.
Definition StringLength (token : Value) : Z :=
  nth (Z.to_nat (value_index token)) string_length_ 0.
Definition Precedence (token : Value) (accept_IN : bool) : Z :=
  nth (Z.to_nat (value_index token)) (precedence_ accept_IN) 0.

(** ** Lemmas *)

Lemma value_index_range t : 0 <= value_index t < NUM_TOKENS.
Proof. destruct t; vm_compute; split; congruence. Qed.

Lemma token_range_spec t lo hi :
  value_index lo <= value_index hi ->
  token_range t lo hi = within (value_index lo) (value_index hi) (value_index t).
Proof.
  intros. pose proof (value_index_range t). pose proof (value_index_range lo).
  pose proof (value_index_range hi). unfold NUM_TOKENS in *.
  apply IsInRange_spec; lia.
Qed.

Lemma token_values_complete t : In t token_values.
Proof.
  apply list_elem_of_In, list_elem_of_lookup.
  exists (Z.to_nat (value_index t)). pose proof (value_of_index_of t) as H.
  unfold value_of_index in H. destruct (_ <? 0); [done|exact H].
Qed.

(** Proofs by enumeration of the tokens. *)
Lemma token_forall (P : Value -> bool) :
  forallb P token_values = true -> forall t, P t = true.
Proof. rewrite forallb_forall. intros H t. apply H, token_values_complete. Qed.

End Token.
