(* ===== verification/Keywords.v ===== *)
(** * Keywords, dialects and contextual names

    Models the keyword tables of the two dialects,
    [src/parsing/keywords-eng-gen.h] (a gperf perfect hash) and
    [keywords-spa-gen.h] (a switch on the length), the contextual names of
    [pseudokeywords-gen.h], [source-dialect.h], the keyword macros of
    [scanner-inl.h] and the dialect a lazily compiled function reads back from
    its script ([parse-info.cc]). Identifier texts are lists of code units. *)

From S2P Require Import Prelude.
From S2P Require Import CharPredicates.
From S2P Require Import Tokens.
From stdpp Require Import base list numbers strings decidable.
From Stdlib Require Import ZArith Lia Bool.

Local Open Scope string_scope.
Local Open Scope Z_scope.

(** ** C string comparison *)

(** [std::strncmp(a, b, n) == 0]. A string literal ends in a zero, which is
    what reading one element behind the list yields. *)
Fixpoint strncmp_eq (a b : list Z) (n : nat) : bool :=
  match n with
  | O => true
  | S n' =>
      let x := hd 0 a in
      let y := hd 0 b in
      if x =? y then (if x =? 0 then true else strncmp_eq (tl a) (tl b) n') else false
  end.

(** ** source-dialect.h *)

Inductive SourceDialect : Type := kJsEng | kJsSpa.

#[export] Instance SourceDialect_eq_dec : EqDecision SourceDialect.
Proof. solve_decision. Defined.

Definition MatchesSourceDialectString (value : list Z) (expected : string) : bool :=
  let expected_length := length (bytes_of expected) in
  Nat.eqb (length value) expected_length
  && strncmp_eq value (bytes_of expected) expected_length.

Definition TryParseSourceDialect (value : list Z) : option SourceDialect :=
  if MatchesSourceDialectString value "js-eng" then Some kJsEng
  else if MatchesSourceDialectString value "js-spa" then Some kJsSpa
  else None.

Definition SourceDialectName (source_dialect : SourceDialect) : string :=
  match source_dialect with
  | kJsEng => "js-eng"
  | kJsSpa => "js-spa"
  end.

(** ** keywords-eng-gen.h *)

Module PerfectKeywordHash.

Definition MIN_WORD_LENGTH : Z := 2.
Definition MAX_WORD_LENGTH : Z := 10.

Definition asso_values : list Z :=
  [
    56; 56; 56; 56; 56; 56; 56; 56; 56; 56; 56; 56; 56; 56; 56; 56;
    56; 56; 56; 56; 56; 56; 56; 56; 56; 56; 56; 56; 56; 56; 56; 56;
    56; 56; 56; 56; 56; 56; 56; 56; 56; 56; 56; 56; 56; 56; 56; 56;
    56; 56; 56; 56; 56; 56; 56; 56; 56; 56; 56; 56; 56; 56; 56; 56;
    56; 56; 56; 56; 56; 56; 56; 56; 56; 56; 56; 56; 56; 56; 56; 56;
    56; 56; 56; 56; 56; 56; 56; 56; 56; 56; 56; 56; 56; 56; 56; 56;
    56; 8; 0; 6; 0; 0; 9; 9; 9; 0; 56; 56; 34; 41; 0; 3;
    6; 56; 19; 10; 13; 16; 39; 26; 37; 36; 56; 56; 56; 56; 56; 56
  ].

(** [None]: a read outside [asso_values] or [str]. *)
Definition Hash (str : list Z) (len : Z) : option Z :=
  c1 ← str !! 1%nat;
  a1 ← asso_values !! Z.to_nat c1;
  c0 ← str !! 0%nat;
  a0 ← asso_values !! Z.to_nat c0;
  Some (uint32 (len + a1 + a0)).

Definition kPerfectKeywordLengthTable : list Z :=
  [
    0; 0; 2; 3; 4; 2; 6; 7; 8; 9; 10; 2; 3; 3; 5; 3; 7; 8; 4; 5; 4; 7;
    5; 5; 5; 6; 4; 5; 6; 6; 4; 5; 7; 8; 9; 3; 4; 3; 4; 5; 5; 5; 6; 6;
    7; 5; 4; 6; 0; 0; 3; 10; 0; 0; 0; 6; 0; 0; 0; 0; 0; 0; 0; 0
  ].

Definition kPerfectKeywordHashTable : list (string * Token.Value) :=
  [
     ("", Token.IDENTIFIER);
     ("", Token.IDENTIFIER);
     ("in", Token.IN);
     ("new", Token.NEW);
     ("enum", Token.ENUM);
     ("do", Token.DO);
     ("delete", Token.DELETE);
     ("default", Token.DEFAULT);
     ("debugger", Token.DEBUGGER);
     ("interface", Token.FUTURE_STRICT_RESERVED_WORD);
     ("instanceof", Token.INSTANCEOF);
     ("if", Token.IF);
     ("get", Token.GET);
     ("set", Token.SET);
     ("const", Token.CONST);
     ("for", Token.FOR);
     ("finally", Token.FINALLY);
     ("continue", Token.CONTINUE);
     ("case", Token.CASE);
     ("catch", Token.CATCH);
     ("null", Token.NULL_LITERAL);
     ("package", Token.FUTURE_STRICT_RESERVED_WORD);
     ("false", Token.FALSE_LITERAL);
     ("async", Token.ASYNC);
     ("break", Token.BREAK);
     ("return", Token.RETURN);
     ("this", Token.THIS);
     ("throw", Token.THROW);
     ("public", Token.FUTURE_STRICT_RESERVED_WORD);
     ("static", Token.STATIC);
     ("with", Token.WITH);
     ("super", Token.SUPER);
     ("private", Token.FUTURE_STRICT_RESERVED_WORD);
     ("function", Token.FUNCTION);
     ("protected", Token.FUTURE_STRICT_RESERVED_WORD);
     ("try", Token.TRY);
     ("true", Token.TRUE_LITERAL);
     ("let", Token.LET);
     ("else", Token.ELSE);
     ("await", Token.AWAIT);
     ("while", Token.WHILE);
     ("yield", Token.YIELD);
     ("switch", Token.SWITCH);
     ("export", Token.EXPORT);
     ("extends", Token.EXTENDS);
     ("class", Token.CLASS);
     ("void", Token.VOID);
     ("import", Token.IMPORT);
     ("", Token.IDENTIFIER);
     ("", Token.IDENTIFIER);
     ("var", Token.VAR);
     ("implements", Token.FUTURE_STRICT_RESERVED_WORD);
     ("", Token.IDENTIFIER);
     ("", Token.IDENTIFIER);
     ("", Token.IDENTIFIER);
     ("typeof", Token.TYPEOF);
     ("", Token.IDENTIFIER);
     ("", Token.IDENTIFIER);
     ("", Token.IDENTIFIER);
     ("", Token.IDENTIFIER);
     ("", Token.IDENTIFIER);
     ("", Token.IDENTIFIER);
     ("", Token.IDENTIFIER);
     ("", Token.IDENTIFIER)
  ].

(** [while ( *s != 0) if ( *s++ != *str++) return IDENTIFIER;]: whether the
    loop ran to the end of the name; [None] is a read behind [str]. *)
Fixpoint name_matches (s str : list Z) : option bool :=
  match s with
  | [] => Some true
  | c :: s' =>
      match str with
      | [] => None
      | d :: str' => if c =? d then name_matches s' str' else Some false
      end
  end.

Definition GetToken (str : list Z) (len : Z) : option Token.Value :=
  if IsInRange 32 len MIN_WORD_LENGTH MAX_WORD_LENGTH then
    h ← Hash str len;
    let key := Z.to_nat (Z.land h 0x3f) in
    l ← kPerfectKeywordLengthTable !! key;
    if len =? l then
      '(name, value) ← kPerfectKeywordHashTable !! key;
      m ← name_matches (bytes_of name) str;
      Some (if (m : bool) then value else Token.IDENTIFIER)
    else Some Token.IDENTIFIER
  else Some Token.IDENTIFIER.

End PerfectKeywordHash.

(** ** keywords-spa-gen.h *)

Module JsSpaKeywordHash.

(** The spellings tested in [case len:], in order. *)
Definition cases (len : Z) : list (string * Token.Value) :=
  if len =? 2 then
    [
     ("si", Token.IF);
     ("en", Token.IN)
    ]
  else if len =? 3 then
    [
     ("sal", Token.BREAK);
     ("haz", Token.DO);
     ("por", Token.FOR);
     ("lee", Token.GET);
     ("sea", Token.LET);
     ("pon", Token.SET);
     ("var", Token.VAR);
     ("con", Token.WITH)
    ]
  else if len =? 4 then
    [
     ("caso", Token.CASE);
     ("sino", Token.ELSE);
     ("enum", Token.ENUM);
     ("nulo", Token.NULL_LITERAL);
     ("este", Token.THIS);
     ("cede", Token.YIELD)
    ]
  else if len =? 5 then
    [
     ("asinc", Token.ASYNC);
     ("clase", Token.CLASS);
     ("const", Token.CONST);
     ("borra", Token.DELETE);
     ("falso", Token.FALSE_LITERAL);
     ("enfin", Token.FINALLY);
     ("nuevo", Token.NEW);
     ("super", Token.SUPER);
     ("lanza", Token.THROW);
     ("vacio", Token.VOID)
    ]
  else if len =? 6 then
    [
     ("espera", Token.AWAIT);
     ("atrapa", Token.CATCH);
     ("cambio", Token.SWITCH);
     ("cierto", Token.TRUE_LITERAL);
     ("prueba", Token.TRY);
     ("tipode", Token.TYPEOF)
    ]
  else if len =? 7 then
    [
     ("defecto", Token.DEFAULT);
     ("exporta", Token.EXPORT);
     ("funcion", Token.FUNCTION);
     ("importa", Token.IMPORT);
     ("paquete", Token.FUTURE_STRICT_RESERVED_WORD);
     ("privado", Token.FUTURE_STRICT_RESERVED_WORD);
     ("publico", Token.FUTURE_STRICT_RESERVED_WORD)
    ]
  else if len =? 8 then
    [
     ("continua", Token.CONTINUE);
     ("extiende", Token.EXTENDS);
     ("interfaz", Token.FUTURE_STRICT_RESERVED_WORD);
     ("devuelve", Token.RETURN);
     ("estatico", Token.STATIC);
     ("mientras", Token.WHILE)
    ]
  else if len =? 9 then
    [
     ("depurador", Token.DEBUGGER);
     ("protegido", Token.FUTURE_STRICT_RESERVED_WORD)
    ]
  else if len =? 10 then
    [
     ("implementa", Token.FUTURE_STRICT_RESERVED_WORD)
    ]
  else if len =? 11 then
    [
     ("instanciade", Token.INSTANCEOF)
    ]
  else [].

Fixpoint first_match (str : list Z) (len : Z) (l : list (string * Token.Value)) :
    Token.Value :=
  match l with
  | [] => Token.IDENTIFIER
  | (name, value) :: l' =>
      if strncmp_eq str (bytes_of name) (Z.to_nat len) then value
      else first_match str len l'
  end.

Definition GetToken (str : list Z) (len : Z) : Token.Value :=
  first_match str len (cases len).

End JsSpaKeywordHash.

(** ** scanner-inl.h: keyword macros *)

(** [KEYWORDS(KEYWORD_GROUP, KEYWORD)] *)
Definition KEYWORDS : list (Z * list (string * Token.Value)) :=
  [
    ("a"%uc,
     [
      ("async", Token.ASYNC);
      ("await", Token.AWAIT)
     ]);
    ("b"%uc,
     [
      ("break", Token.BREAK)
     ]);
    ("c"%uc,
     [
      ("case", Token.CASE);
      ("catch", Token.CATCH);
      ("class", Token.CLASS);
      ("const", Token.CONST);
      ("continue", Token.CONTINUE)
     ]);
    ("d"%uc,
     [
      ("debugger", Token.DEBUGGER);
      ("default", Token.DEFAULT);
      ("delete", Token.DELETE);
      ("do", Token.DO)
     ]);
    ("e"%uc,
     [
      ("else", Token.ELSE);
      ("enum", Token.ENUM);
      ("export", Token.EXPORT);
      ("extends", Token.EXTENDS)
     ]);
    ("f"%uc,
     [
      ("false", Token.FALSE_LITERAL);
      ("finally", Token.FINALLY);
      ("for", Token.FOR);
      ("function", Token.FUNCTION)
     ]);
    ("g"%uc,
     [
      ("get", Token.GET)
     ]);
    ("i"%uc,
     [
      ("if", Token.IF);
      ("implements", Token.FUTURE_STRICT_RESERVED_WORD);
      ("import", Token.IMPORT);
      ("in", Token.IN);
      ("instanceof", Token.INSTANCEOF);
      ("interface", Token.FUTURE_STRICT_RESERVED_WORD)
     ]);
    ("l"%uc,
     [
      ("let", Token.LET)
     ]);
    ("n"%uc,
     [
      ("new", Token.NEW);
      ("null", Token.NULL_LITERAL)
     ]);
    ("p"%uc,
     [
      ("package", Token.FUTURE_STRICT_RESERVED_WORD);
      ("private", Token.FUTURE_STRICT_RESERVED_WORD);
      ("protected", Token.FUTURE_STRICT_RESERVED_WORD);
      ("public", Token.FUTURE_STRICT_RESERVED_WORD)
     ]);
    ("r"%uc,
     [
      ("return", Token.RETURN)
     ]);
    ("s"%uc,
     [
      ("set", Token.SET);
      ("static", Token.STATIC);
      ("super", Token.SUPER);
      ("switch", Token.SWITCH)
     ]);
    ("t"%uc,
     [
      ("this", Token.THIS);
      ("throw", Token.THROW);
      ("true", Token.TRUE_LITERAL);
      ("try", Token.TRY);
      ("typeof", Token.TYPEOF)
     ]);
    ("v"%uc,
     [
      ("var", Token.VAR);
      ("void", Token.VOID)
     ]);
    ("w"%uc,
     [
      ("while", Token.WHILE);
      ("with", Token.WITH)
     ]);
    ("y"%uc,
     [
      ("yield", Token.YIELD)
     ])
  ].

Definition IsKeywordStart (c : Z) : bool :=
  existsb (fun g => c =? fst g) KEYWORDS.

(** [None]: undefined behaviour of the perfect hash. *)
Definition KeywordOrIdentifierToken (source_dialect : SourceDialect)
    (input : list Z) (input_length : Z) : option Token.Value :=
  if bool_decide (source_dialect = kJsEng) then
    PerfectKeywordHash.GetToken input input_length
  else if bool_decide (source_dialect = kJsSpa) then
    Some (JsSpaKeywordHash.GetToken input input_length)
  else Some Token.IDENTIFIER.

(** The array includes the terminating zero of the string literal. *)
Definition IsInString (s : list Z) (c : Z) : bool :=
  existsb (fun d => d =? c) (s ++ [0]).

Definition CanBeKeywordCharacter (c : Z) : bool :=
  IsInString (concat (map (fun g => concat (map (fun e => bytes_of (fst e)) (snd g)))
                        KEYWORDS)) c.

(** ** pseudokeywords-gen.h *)

Inductive PseudoKeywordName : Type :=
  | kArguments | kAs | kConstructor | kEval | kFrom | kMeta | kOf | kProto | kTarget.

Definition pseudo_keyword_names : list PseudoKeywordName :=
  [kArguments; kAs; kConstructor; kEval; kFrom; kMeta; kOf; kProto; kTarget].

Module JsEngPseudoKeywordNameMap.
Definition GetSpelling (name : PseudoKeywordName) : string :=
  match name with
  | kArguments => "arguments"
  | kAs => "as"
  | kConstructor => "constructor"
  | kEval => "eval"
  | kFrom => "from"
  | kMeta => "meta"
  | kOf => "of"
  | kProto => "__proto__"
  | kTarget => "target"
  end.
End JsEngPseudoKeywordNameMap.

Module JsSpaPseudoKeywordNameMap.
Definition GetSpelling (name : PseudoKeywordName) : string :=
  match name with
  | kArguments => "argumentos"
  | kAs => "como"
  | kConstructor => "constructor"
  | kEval => "eval"
  | kFrom => "desde"
  | kMeta => "meta"
  | kOf => "de"
  | kProto => "__proto__"
  | kTarget => "dest"
  end.
End JsSpaPseudoKeywordNameMap.

Definition SourceDialectNameSpelling (source_dialect : SourceDialect)
    (name : PseudoKeywordName) : string :=
  match source_dialect with
  | kJsEng => JsEngPseudoKeywordNameMap.GetSpelling name
  | kJsSpa => JsSpaPseudoKeywordNameMap.GetSpelling name
  end.

(** An interned identifier: [ast/ast-value-factory.h]. *)
Record AstRawString : Type := {
  is_one_byte : bool;
  literal_bytes : list Z
}.

Definition IsOneByteEqualTo (s : AstRawString) (data : string) : bool :=
  if negb (is_one_byte s) then false
  else if negb (Nat.eqb (length (literal_bytes s)) (length (bytes_of data))) then false
  else strncmp_eq (literal_bytes s) (bytes_of data) (length (literal_bytes s)).

(** [None] is the null pointer. *)
Definition AstRawStringEqualsSourceDialectName (identifier : option AstRawString)
    (source_dialect : SourceDialect) (name : PseudoKeywordName) : bool :=
  match identifier with
  | None => false
  | Some id => IsOneByteEqualTo id (SourceDialectNameSpelling source_dialect name)
  end.

(** ** parse-info.cc: the dialect of a function compiled from its script

    [source_dialect] is the script's field: [None] for a value that is not a
    string, otherwise its characters. *)
Definition SetFlagsForFunctionFromScript_dialect (source_dialect : option (list Z)) :
    SourceDialect :=
  match source_dialect with
  | Some str => if bool_decide (str = bytes_of "js-spa") then kJsSpa else kJsEng
  | None => kJsEng
  end.

(** ** Specification: the keyword lists of the dialects

    The entries of [keywords/keywords-eng.txt] and [keywords-spa.txt], from
    which the two generated headers are made. *)
Definition keywords_eng : list (string * Token.Value) :=
  [
    ("async", Token.ASYNC);
    ("await", Token.AWAIT);
    ("break", Token.BREAK);
    ("case", Token.CASE);
    ("catch", Token.CATCH);
    ("class", Token.CLASS);
    ("const", Token.CONST);
    ("continue", Token.CONTINUE);
    ("debugger", Token.DEBUGGER);
    ("default", Token.DEFAULT);
    ("delete", Token.DELETE);
    ("do", Token.DO);
    ("else", Token.ELSE);
    ("enum", Token.ENUM);
    ("export", Token.EXPORT);
    ("extends", Token.EXTENDS);
    ("false", Token.FALSE_LITERAL);
    ("finally", Token.FINALLY);
    ("for", Token.FOR);
    ("function", Token.FUNCTION);
    ("get", Token.GET);
    ("if", Token.IF);
    ("implements", Token.FUTURE_STRICT_RESERVED_WORD);
    ("import", Token.IMPORT);
    ("in", Token.IN);
    ("instanceof", Token.INSTANCEOF);
    ("interface", Token.FUTURE_STRICT_RESERVED_WORD);
    ("let", Token.LET);
    ("new", Token.NEW);
    ("null", Token.NULL_LITERAL);
    ("package", Token.FUTURE_STRICT_RESERVED_WORD);
    ("private", Token.FUTURE_STRICT_RESERVED_WORD);
    ("protected", Token.FUTURE_STRICT_RESERVED_WORD);
    ("public", Token.FUTURE_STRICT_RESERVED_WORD);
    ("return", Token.RETURN);
    ("set", Token.SET);
    ("static", Token.STATIC);
    ("super", Token.SUPER);
    ("switch", Token.SWITCH);
    ("this", Token.THIS);
    ("throw", Token.THROW);
    ("true", Token.TRUE_LITERAL);
    ("try", Token.TRY);
    ("typeof", Token.TYPEOF);
    ("var", Token.VAR);
    ("void", Token.VOID);
    ("while", Token.WHILE);
    ("with", Token.WITH);
    ("yield", Token.YIELD)
  ].

Definition keywords_spa : list (string * Token.Value) :=
  [
    ("asinc", Token.ASYNC);
    ("espera", Token.AWAIT);
    ("sal", Token.BREAK);
    ("caso", Token.CASE);
    ("atrapa", Token.CATCH);
    ("clase", Token.CLASS);
    ("const", Token.CONST);
    ("continua", Token.CONTINUE);
    ("depurador", Token.DEBUGGER);
    ("defecto", Token.DEFAULT);
    ("borra", Token.DELETE);
    ("haz", Token.DO);
    ("sino", Token.ELSE);
    ("enum", Token.ENUM);
    ("exporta", Token.EXPORT);
    ("extiende", Token.EXTENDS);
    ("falso", Token.FALSE_LITERAL);
    ("enfin", Token.FINALLY);
    ("por", Token.FOR);
    ("funcion", Token.FUNCTION);
    ("lee", Token.GET);
    ("si", Token.IF);
    ("implementa", Token.FUTURE_STRICT_RESERVED_WORD);
    ("importa", Token.IMPORT);
    ("en", Token.IN);
    ("instanciade", Token.INSTANCEOF);
    ("interfaz", Token.FUTURE_STRICT_RESERVED_WORD);
    ("sea", Token.LET);
    ("nuevo", Token.NEW);
    ("nulo", Token.NULL_LITERAL);
    ("paquete", Token.FUTURE_STRICT_RESERVED_WORD);
    ("privado", Token.FUTURE_STRICT_RESERVED_WORD);
    ("protegido", Token.FUTURE_STRICT_RESERVED_WORD);
    ("publico", Token.FUTURE_STRICT_RESERVED_WORD);
    ("devuelve", Token.RETURN);
    ("pon", Token.SET);
    ("estatico", Token.STATIC);
    ("super", Token.SUPER);
    ("cambio", Token.SWITCH);
    ("este", Token.THIS);
    ("lanza", Token.THROW);
    ("cierto", Token.TRUE_LITERAL);
    ("prueba", Token.TRY);
    ("tipode", Token.TYPEOF);
    ("var", Token.VAR);
    ("vacio", Token.VOID);
    ("mientras", Token.WHILE);
    ("con", Token.WITH);
    ("cede", Token.YIELD)
  ].

Definition keywords_of (d : SourceDialect) : list (string * Token.Value) :=
  match d with kJsEng => keywords_eng | kJsSpa => keywords_spa end.

(** The token of the first entry spelled [str], [IDENTIFIER] otherwise. *)
Fixpoint keyword_lookup (l : list (string * Token.Value)) (str : list Z) : Token.Value :=
  match l with
  | [] => Token.IDENTIFIER
  | (name, value) :: l' =>
      if bool_decide (str = bytes_of name) then value else keyword_lookup l' str
  end.

(** ** Lemmas *)

Definition nonzero (l : list Z) : bool := forallb (fun c => negb (c =? 0)) l.

Lemma strncmp_eq_spec a b :
  length a = length b -> nonzero b = true ->
  strncmp_eq a b (length b) = bool_decide (a = b).
Proof.
  revert a. induction b as [|y b IH]; intros [|x a] Hlen Hnz; try done.
  cbn [length strncmp_eq hd tl]. unfold nonzero in Hnz. cbn [forallb] in Hnz.
  apply andb_true_iff in Hnz as [Hy Hnz].
  destruct (Z.eqb_spec x y) as [->|Hne].
  - apply negb_true_iff in Hy. rewrite Hy, IH by (done || (cbn in Hlen; lia)).
    apply bool_decide_ext. split; congruence.
  - symmetry. apply bool_decide_eq_false. congruence.
Qed.

Lemma keyword_lookup_notin l str :
  (forall e, In e l -> str <> bytes_of (fst e)) -> keyword_lookup l str = Token.IDENTIFIER.
Proof.
  induction l as [|[n v] l IH]; intros H; cbn; [done|].
  rewrite bool_decide_eq_false_2 by (apply (H (n, v)); cbn; auto).
  apply IH. intros e He. apply H. cbn. auto.
Qed.

(** Whether some entry of the list is spelled [str]. *)
Definition is_spelled (l : list (string * Token.Value)) (str : list Z) : bool :=
  existsb (fun e => bool_decide (str = bytes_of (fst e))) l.

Lemma is_spelled_false l str :
  is_spelled l str = false -> forall e, In e l -> str <> bytes_of (fst e).
Proof.
  intros H e He Heq.
  assert (is_spelled l str = true); [|congruence].
  apply existsb_exists. exists e. split; [done|]. by apply bool_decide_eq_true.
Qed.

Lemma is_spelled_true l str :
  is_spelled l str = true -> exists e, In e l /\ str = bytes_of (fst e).
Proof.
  intros H. apply existsb_exists in H as [e [He Heq]].
  exists e. split; [done|]. by apply bool_decide_eq_true in Heq.
Qed.

(** *** Dialect names *)

Lemma MatchesSourceDialectString_spec value d :
  MatchesSourceDialectString value (SourceDialectName d)
  = bool_decide (value = bytes_of (SourceDialectName d)).
Proof.
  unfold MatchesSourceDialectString.
  destruct (Nat.eqb_spec (length value) (length (bytes_of (SourceDialectName d)))) as [E|E].
  - rewrite strncmp_eq_spec; [done|done|by destruct d].
  - symmetry. apply bool_decide_eq_false. intros ->. done.
Qed.

Lemma TryParseSourceDialect_Some value d :
  TryParseSourceDialect value = Some d <-> value = bytes_of (SourceDialectName d).
Proof.
  unfold TryParseSourceDialect.
  change "js-eng" with (SourceDialectName kJsEng).
  change "js-spa" with (SourceDialectName kJsSpa).
  rewrite !MatchesSourceDialectString_spec.
  repeat case_bool_decide; destruct d; cbn; split; intros; subst; try done; congruence.
Qed.

(** *** The perfect hash *)

Lemma name_matches_true s str :
  length str = length s -> PerfectKeywordHash.name_matches s str = Some (bool_decide (str = s)).
Proof.
  revert str. induction s as [|c s IH]; intros [|d str] Hlen; try done.
  cbn [PerfectKeywordHash.name_matches]. destruct (Z.eqb_spec c d) as [->|Hne].
  - rewrite IH by (cbn in Hlen; lia). f_equal. apply bool_decide_ext. split; congruence.
  - f_equal. symmetry. apply bool_decide_eq_false. congruence.
Qed.

(** Every slot of the table holds the length of its name, and a name that is
    not a keyword has length zero. *)
Definition perfect_slot_ok (i : nat) : bool :=
  match PerfectKeywordHash.kPerfectKeywordLengthTable !! i,
        PerfectKeywordHash.kPerfectKeywordHashTable !! i with
  | Some l, Some (name, _) =>
      (l =? Z.of_nat (length (bytes_of name)))
      && ((l =? 0) || is_spelled keywords_eng (bytes_of name))
  | _, _ => false
  end.

Lemma perfect_slots_ok i : (i < 64)%nat -> perfect_slot_ok i = true.
Proof.
  assert (H : forallb perfect_slot_ok (seq 0 64) = true) by (vm_compute; reflexivity).
  rewrite forallb_forall in H. intros. apply H, in_seq. lia.
Qed.

Lemma Hash_defined str :
  (2 <= length str)%nat -> Forall (fun c => 0 <= c < 128) (take 2 str) ->
  exists h, PerfectKeywordHash.Hash str (Z.of_nat (length str)) = Some h /\ 0 <= h.
Proof.
  intros Hlen H. destruct str as [|c0 [|c1 str]]; cbn in Hlen; try lia.
  cbn [take] in H. apply Forall_cons_1 in H as [H0 H]. apply Forall_cons_1 in H as [H1 _].
  unfold PerfectKeywordHash.Hash. cbn [lookup list_lookup mbind option_bind].
  assert (forall c, 0 <= c < 128 ->
            is_Some (PerfectKeywordHash.asso_values !! Z.to_nat c)) as Ha.
  { intros c Hc. apply lookup_lt_is_Some_2.
    change (length PerfectKeywordHash.asso_values) with 128%nat. lia. }
  destruct (Ha c0 H0) as [a0 ->], (Ha c1 H1) as [a1 ->]. cbn.
  eexists. split; [done|]. apply wrap_range. lia.
Qed.

Lemma eng_keywords_hashed :
  Forall (fun e => PerfectKeywordHash.GetToken (bytes_of (fst e))
                     (Z.of_nat (length (bytes_of (fst e))))
                   = Some (keyword_lookup keywords_eng (bytes_of (fst e)))) keywords_eng.
Proof. repeat (constructor; [vm_compute; reflexivity|]). constructor. Qed.

Lemma land_63_lt h : 0 <= h -> (Z.to_nat (Z.land h 63) < 64)%nat.
Proof.
  intros. change 63 with (Z.ones 6). rewrite Z.land_ones by lia.
  pose proof (Z.mod_pos_bound h (2 ^ 6) ltac:(lia)). lia.
Qed.

(** A text that is no keyword falls out of the hash table. *)
Lemma GetToken_eng_other str :
  Forall (fun c => 0 <= c < 128) (take 2 str) -> Z.of_nat (length str) < 2 ^ 31 ->
  is_spelled keywords_eng str = false ->
  PerfectKeywordHash.GetToken str (Z.of_nat (length str)) = Some Token.IDENTIFIER.
Proof.
  intros Hascii Hlen Hno. unfold PerfectKeywordHash.GetToken.
  unfold PerfectKeywordHash.MIN_WORD_LENGTH, PerfectKeywordHash.MAX_WORD_LENGTH.
  rewrite IsInRange_spec by lia.
  destruct (within 2 10 (Z.of_nat (length str))) eqn:E; [|done].
  unfold within in E. bool_to_prop.
  destruct (Hash_defined str) as [h [Hh Hpos]]; [lia|done|].
  rewrite Hh. cbn [mbind option_bind].
  pose proof (perfect_slots_ok _ (land_63_lt h Hpos)) as Hok.
  unfold perfect_slot_ok in Hok.
  destruct (PerfectKeywordHash.kPerfectKeywordLengthTable !! _) as [l|]; [|done].
  destruct (PerfectKeywordHash.kPerfectKeywordHashTable !! _) as [[name value]|]; [|done].
  cbn [mbind option_bind]. bool_to_prop.
  destruct (Z.eqb_spec (Z.of_nat (length str)) l) as [E|]; [|done].
  rewrite name_matches_true by lia. cbn.
  case_bool_decide as Heq; [|done]. subst str.
  destruct H2 as [H2|H2]; [bool_to_prop; lia|congruence].
Qed.

Lemma GetToken_eng str :
  Forall (fun c => 0 <= c < 128) (take 2 str) -> Z.of_nat (length str) < 2 ^ 31 ->
  PerfectKeywordHash.GetToken str (Z.of_nat (length str))
  = Some (keyword_lookup keywords_eng str).
Proof.
  intros Hascii Hlen. destruct (is_spelled keywords_eng str) eqn:E.
  - apply is_spelled_true in E as [e [He ->]].
    pose proof eng_keywords_hashed as H. rewrite Forall_forall in H.
    apply H, He.
  - rewrite GetToken_eng_other by done.
    by rewrite keyword_lookup_notin by by apply is_spelled_false.
Qed.

(** *** The Spanish table *)

(** The entries of one case have that length and contain no zero. *)
Lemma spa_cases_ok len :
  Forall (fun e => Z.of_nat (length (bytes_of (fst e))) = len
                   /\ nonzero (bytes_of (fst e)) = true)
    (JsSpaKeywordHash.cases len).
Proof.
  unfold JsSpaKeywordHash.cases.
  repeat match goal with
  | |- context [if len =? ?n then _ else _] => destruct (Z.eqb_spec len n) as [->|]
  end; repeat constructor.
Qed.

Lemma first_match_lookup str l :
  Forall (fun e => Z.of_nat (length (bytes_of (fst e))) = Z.of_nat (length str)
                   /\ nonzero (bytes_of (fst e)) = true) l ->
  JsSpaKeywordHash.first_match str (Z.of_nat (length str)) l = keyword_lookup l str.
Proof.
  induction 1 as [|[name value] l [Hlen Hnz] _ IH]; cbn; [done|].
  cbn in Hlen, Hnz. apply Nat2Z.inj in Hlen. rewrite IH, Nat2Z.id.
  rewrite <- Hlen at 1. by rewrite strncmp_eq_spec.
Qed.

Lemma spa_cases_keywords len :
  Forall (fun e => is_spelled keywords_spa (bytes_of (fst e)) = true)
    (JsSpaKeywordHash.cases len).
Proof.
  unfold JsSpaKeywordHash.cases.
  repeat match goal with
  | |- context [if len =? ?n then _ else _] => destruct (Z.eqb_spec len n) as [->|]
  end; repeat (constructor; [vm_compute; reflexivity|]); constructor.
Qed.

Lemma spa_keywords_matched :
  Forall (fun e => JsSpaKeywordHash.GetToken (bytes_of (fst e))
                     (Z.of_nat (length (bytes_of (fst e))))
                   = keyword_lookup keywords_spa (bytes_of (fst e))) keywords_spa.
Proof. repeat (constructor; [vm_compute; reflexivity|]). constructor. Qed.

Lemma GetToken_spa str :
  JsSpaKeywordHash.GetToken str (Z.of_nat (length str)) = keyword_lookup keywords_spa str.
Proof.
  destruct (is_spelled keywords_spa str) eqn:E.
  - apply is_spelled_true in E as [e [He ->]].
    pose proof spa_keywords_matched as H. rewrite Forall_forall in H.
    apply H, He.
  - unfold JsSpaKeywordHash.GetToken. rewrite first_match_lookup by apply spa_cases_ok.
    rewrite !keyword_lookup_notin; [done|by apply is_spelled_false|].
    intros e He ->. pose proof (spa_cases_keywords (Z.of_nat (length (bytes_of e.1)))) as H.
    rewrite Forall_forall in H. rewrite (H e) in E by done. done.
Qed.

(** Both dialects: the scanner's keyword test is lookup in the dialect's list. *)
Lemma KeywordOrIdentifierToken_spec d str :
  (d = kJsEng -> Forall (fun c => 0 <= c < 128) (take 2 str)) ->
  Z.of_nat (length str) < 2 ^ 31 ->
  KeywordOrIdentifierToken d str (Z.of_nat (length str))
  = Some (keyword_lookup (keywords_of d) str).
Proof.
  intros. unfold KeywordOrIdentifierToken. destruct d; cbn [keywords_of].
  - rewrite bool_decide_eq_true_2, GetToken_eng by auto. done.
  - by rewrite bool_decide_eq_false_2, bool_decide_eq_true_2, GetToken_spa.
Qed.

(** The lookup stays inside its tables for any word that starts in ASCII. *)
Lemma KeywordOrIdentifierToken_defined d str :
  (d = kJsEng -> Forall (fun c => 0 <= c < 128) (take 2 str)) ->
  exists t, KeywordOrIdentifierToken d str (Z.of_nat (length str)) = Some t.
Proof.
  intros Hascii. destruct (decide (Z.of_nat (length str) < 2 ^ 31)) as [Hl|Hl].
  { rewrite KeywordOrIdentifierToken_spec by done. by eexists. }
  unfold KeywordOrIdentifierToken. destruct d.
  2: { rewrite bool_decide_eq_false_2, bool_decide_eq_true_2 by done. by eexists. }
  rewrite bool_decide_eq_true_2 by done. unfold PerfectKeywordHash.GetToken.
  destruct (IsInRange 32 _ _ _); [|by eexists].
  destruct (Hash_defined str) as [h [-> Hpos]]; [lia|auto|]. cbn [mbind option_bind].
  pose proof (perfect_slots_ok _ (land_63_lt h Hpos)) as Hok. unfold perfect_slot_ok in Hok.
  destruct (PerfectKeywordHash.kPerfectKeywordLengthTable !! _) as [l|]; [|done].
  destruct (PerfectKeywordHash.kPerfectKeywordHashTable !! _) as [[name value]|]; [|done].
  cbn [mbind option_bind]. destruct (Z.eqb_spec (Z.of_nat (length str)) l); [|by eexists].
  bool_to_prop. rewrite name_matches_true by lia. by eexists.
Qed.
