(* ===== verification/ScanTables.v ===== *)
(** * Character tables of the scanner

    Models the constexpr tables of [src/parsing/scanner-inl.h]:
    [one_char_tokens] and [character_scan_flags], with the tests on the flags,
    and the regular expression flags of [src/regexp/regexp-flags.h] and
    [src/objects/js-regexp.h]. *)

From S2P Require Import Prelude.
From S2P Require Import CharPredicates.
From S2P Require Import Tokens.
From S2P Require Import Keywords.
From stdpp Require Import base list numbers decidable.
From Stdlib Require Import ZArith Lia Bool.

Local Open Scope Z_scope.

Definition kMaxAscii : Z := 127.

(** The double quote is written as its code, 34. *)
Definition GetOneCharToken (c : Z) : Token.Value :=
  if c =? "("%uc then Token.LPAREN
  else if c =? ")"%uc then Token.RPAREN
  else if c =? "{"%uc then Token.LBRACE
  else if c =? "}"%uc then Token.RBRACE
  else if c =? "["%uc then Token.LBRACK
  else if c =? "]"%uc then Token.RBRACK
  else if c =? "?"%uc then Token.CONDITIONAL
  else if c =? ":"%uc then Token.COLON
  else if c =? ";"%uc then Token.SEMICOLON
  else if c =? ","%uc then Token.COMMA
  else if c =? "."%uc then Token.PERIOD
  else if c =? "|"%uc then Token.BIT_OR
  else if c =? "&"%uc then Token.BIT_AND
  else if c =? "^"%uc then Token.BIT_XOR
  else if c =? "~"%uc then Token.BIT_NOT
  else if c =? "!"%uc then Token.NOT
  else if c =? "<"%uc then Token.LT
  else if c =? ">"%uc then Token.GT
  else if c =? "%"%uc then Token.MOD
  else if c =? "="%uc then Token.ASSIGN
  else if c =? "+"%uc then Token.ADD
  else if c =? "-"%uc then Token.SUB
  else if c =? "*"%uc then Token.MUL
  else if c =? "/"%uc then Token.DIV
  else if c =? "#"%uc then Token.PRIVATE_NAME
  else if c =? 34 then Token.STRING
  else if c =? "'"%uc then Token.STRING
  else if c =? "`"%uc then Token.TEMPLATE_SPAN
  else if c =? "\"%uc then Token.IDENTIFIER
  else if c =? " "%uc then Token.WHITESPACE
  else if c =? 0x09 then Token.WHITESPACE
  else if c =? 0x0B then Token.WHITESPACE
  else if c =? 0x0C then Token.WHITESPACE
  else if c =? 0x0D then Token.WHITESPACE
  else if c =? 0x0A then Token.WHITESPACE
  else if IsDecimalDigit c then Token.NUMBER
  else if IsAsciiIdentifier c then Token.IDENTIFIER
  else Token.ILLEGAL.

Definition one_char_tokens : list Token.Value :=
  Eval vm_compute in map GetOneCharToken (seqZ 0 128).

(** [enum class ScanFlags] *)
Definition kTerminatesLiteral : Z := 1.
Definition kCannotBeKeyword : Z := 2.
Definition kCannotBeKeywordStart : Z := 4.
Definition kStringTerminator : Z := 8.
Definition kIdentifierNeedsSlowPath : Z := 16.
Definition kMultilineCommentCharacterNeedsSlowPath : Z := 32.

Definition flag_if (b : bool) (f : Z) : Z := if b then f else 0.

Definition GetScanFlags (c : Z) : Z :=
  Z.lor (flag_if (IsAsciiIdentifier c && negb (CanBeKeywordCharacter c)) kCannotBeKeyword)
  (Z.lor (flag_if (negb (IsKeywordStart c)) kCannotBeKeywordStart)
  (Z.lor (flag_if (negb (IsAsciiIdentifier c)) kTerminatesLiteral)
  (Z.lor (flag_if ((c =? "'"%uc) || (c =? 34) || (c =? 0x0A) || (c =? 0x0D) || (c =? "\"%uc))
            kStringTerminator)
  (Z.lor (flag_if (c =? "\"%uc) kIdentifierNeedsSlowPath)
         (flag_if ((c =? 0x0A) || (c =? 0x0D) || (c =? "*"%uc))
            kMultilineCommentCharacterNeedsSlowPath))))).

Definition has_flag (scan_flags f : Z) : bool := negb (Z.land scan_flags f =? 0).

Definition TerminatesLiteral (scan_flags : Z) : bool := has_flag scan_flags kTerminatesLiteral.
Definition CanBeKeyword (scan_flags : Z) : bool := negb (has_flag scan_flags kCannotBeKeyword).
Definition IdentifierNeedsSlowPath (scan_flags : Z) : bool :=
  has_flag scan_flags kIdentifierNeedsSlowPath.
Definition MultilineCommentCharacterNeedsSlowPath (scan_flags : Z) : bool :=
  has_flag scan_flags kMultilineCommentCharacterNeedsSlowPath.
Definition MayTerminateString (scan_flags : Z) : bool := has_flag scan_flags kStringTerminator.

Definition character_scan_flags : list Z :=
  Eval vm_compute in map GetScanFlags (seqZ 0 128).

(** A read of the table at an index already known to be at most [kMaxAscii]. *)
Definition scan_flags_at (c : Z) : Z := nth (Z.to_nat c) character_scan_flags 0.

Definition CharCanBeKeyword (c : Z) : bool :=
  (c <? 128) && CanBeKeyword (scan_flags_at c).

(** ** Regular expression flags *)

Inductive RegExpFlag : Type :=
| kHasIndices | kGlobal | kIgnoreCase | kLinear | kMultiline | kDotAll | kUnicode
| kUnicodeSets | kSticky.

(** [REGEXP_FLAG_LIST]: flag, character and bit. *)
Definition REGEXP_FLAG_LIST : list (RegExpFlag * Z * Z) :=
  [(kHasIndices, "d"%uc, 7); (kGlobal, "g"%uc, 0); (kIgnoreCase, "i"%uc, 1);
   (kLinear, "l"%uc, 6); (kMultiline, "m"%uc, 2); (kDotAll, "s"%uc, 5);
   (kUnicode, "u"%uc, 4); (kUnicodeSets, "v"%uc, 8); (kSticky, "y"%uc, 3)].

Definition flag_bit (f : RegExpFlag) : Z :=
  match f with
  | kHasIndices => Z.shiftl 1 7
  | kGlobal => Z.shiftl 1 0
  | kIgnoreCase => Z.shiftl 1 1
  | kLinear => Z.shiftl 1 6
  | kMultiline => Z.shiftl 1 2
  | kDotAll => Z.shiftl 1 5
  | kUnicode => Z.shiftl 1 4
  | kUnicodeSets => Z.shiftl 1 8
  | kSticky => Z.shiftl 1 3
  end.

(** The argument is a [char]. *)
Definition TryRegExpFlagFromChar (c : Z) : option RegExpFlag :=
  (fun r => fst (fst r)) <$> List.find (fun r => c =? snd (fst r)) REGEXP_FLAG_LIST.

(** Build configuration and runtime flags the scanner depends on. *)
Class BuildConfig : Type := {
  SmiValuesAre31Bits : bool;
  enable_experimental_regexp_engine : bool;
  harmony_regexp_unicode_sets : bool
}.

#[export] Instance DefaultConfig : BuildConfig := {|
  SmiValuesAre31Bits := true;
  enable_experimental_regexp_engine := false;
  harmony_regexp_unicode_sets := false
|}.

(** [Smi::kMaxValue] *)
Definition kSmiMaxValue {C : BuildConfig} : Z :=
  if SmiValuesAre31Bits then 2 ^ 30 - 1 else 2 ^ 31 - 1.

(** [JSRegExp::FlagFromChar(char c)] *)
Definition FlagFromChar {C : BuildConfig} (c : Z) : option RegExpFlag :=
  match TryRegExpFlagFromChar c with
  | None => None
  | Some kLinear => if enable_experimental_regexp_engine then Some kLinear else None
  | Some kUnicodeSets => if harmony_regexp_unicode_sets then Some kUnicodeSets else None
  | Some f => Some f
  end.
