(* ===== verification/LiteralBuffer.v ===== *)
(** * LiteralBuffer

    Models [src/parsing/literal-buffer.h] and [literal-buffer.cc]: the growing
    byte buffer in which the scanner collects literals, one byte per character
    until a character above U+00FF arrives, two bytes (little-endian UTF-16
    code units) from then on. A store outside the backing array is [None]. The
    bytes of a fresh array are not initialised by the code; they are zero here,
    and no byte at or behind [position_] is ever read. *)

From S2P Require Import Prelude.
From S2P Require Import CharPredicates.
From stdpp Require Import base list numbers.
From Stdlib Require Import ZArith Lia Bool.

Local Open Scope Z_scope.

Definition kOneByteSize : Z := 1.
Definition kUC16Size : Z := 2.
Definition kLatin1MaxChar : Z := 0xff.

Record LiteralBuffer : Type := mkLiteralBuffer {
  backing_store_ : list Z;
  position_ : Z;
  is_one_byte_ : bool
}.

Definition kInitialCapacity : Z := 16.
Definition kGrowthFactor : Z := 4.
Definition kMaxGrowth : Z := 1024 * 1024.

(** [base::Vector<byte>::length] and [base::Vector<byte>::New]. *)
Definition vlength (v : list Z) : Z := Z.of_nat (length v).
Definition Vector_New (n : Z) : list Z := replicate (Z.to_nat n) 0.

(** [LiteralBuffer()] *)
Definition LiteralBuffer_new : LiteralBuffer := mkLiteralBuffer [] 0 true.

Definition is_one_byte (b : LiteralBuffer) : bool := is_one_byte_ b.

Definition Start (b : LiteralBuffer) : LiteralBuffer :=
  mkLiteralBuffer (backing_store_ b) 0 true.

Definition NewCapacity (min_capacity : Z) : Z :=
  if min_capacity <? Z.quot kMaxGrowth (kGrowthFactor - 1)
  then min_capacity * kGrowthFactor
  else min_capacity + kMaxGrowth.

(** [MemCopy(dst, src, n)]: [None] when it leaves one of the arrays. *)
Definition MemCopy (dst src : list Z) (n : Z) : option (list Z) :=
  if (n <=? vlength src) && (n <=? vlength dst)
  then Some (take (Z.to_nat n) src ++ drop (Z.to_nat n) dst)
  else None.

Definition ExpandBuffer (b : LiteralBuffer) : option LiteralBuffer :=
  let min_capacity := Z.max kInitialCapacity (vlength (backing_store_ b)) in
  let new_store := Vector_New (NewCapacity min_capacity) in
  new_store ←
    (if 0 <? position_ b then MemCopy new_store (backing_store_ b) (position_ b)
     else Some new_store);
  Some (mkLiteralBuffer new_store (position_ b) (is_one_byte_ b)).

(** Byte and 16-bit stores. *)
Definition store8 (v : list Z) (i x : Z) : option (list Z) :=
  if (0 <=? i) && (i <? vlength v) then Some (<[Z.to_nat i := uint8 x]> v) else None.

Definition store16 (v : list Z) (i x : Z) : option (list Z) :=
  v ← store8 v i (uint16 x);
  store8 v (i + 1) (Z.shiftr (uint16 x) 8).

Definition load8 (v : list Z) (i : Z) : option Z :=
  if 0 <=? i then v !! Z.to_nat i else None.

Definition AddOneByteChar (b : LiteralBuffer) (one_byte_char : Z) : option LiteralBuffer :=
  b ← (if vlength (backing_store_ b) <=? position_ b then ExpandBuffer b else Some b);
  store ← store8 (backing_store_ b) (position_ b) one_byte_char;
  Some (mkLiteralBuffer store (position_ b + kOneByteSize) (is_one_byte_ b)).

(** The loop [for (int i = position_ - 1; i >= 0; i--) dst[i] = src[i];] with
    [n = i + 1]. [aliased]: both pointers point into the same array. *)
Fixpoint widen_loop (aliased : bool) (src dst : list Z) (n : nat) : option (list Z) :=
  match n with
  | O => Some dst
  | S i =>
      x ← load8 (if aliased then dst else src) (Z.of_nat i);
      dst ← store16 dst (2 * Z.of_nat i) x;
      widen_loop aliased src dst i
  end.

Definition ConvertToTwoByte (b : LiteralBuffer) : option LiteralBuffer :=
  let new_content_size := position_ b * kUC16Size in
  let fresh := vlength (backing_store_ b) <=? new_content_size in
  let new_store :=
    if fresh then Vector_New (NewCapacity new_content_size) else backing_store_ b in
  new_store ←
    widen_loop (negb fresh) (backing_store_ b) new_store (Z.to_nat (position_ b));
  Some (mkLiteralBuffer new_store new_content_size false).

(** One 16-bit store at the end of the buffer, growing it when it is full. *)
Definition push16 (b : LiteralBuffer) (x : Z) : option LiteralBuffer :=
  b ← (if vlength (backing_store_ b) <=? position_ b then ExpandBuffer b else Some b);
  store ← store16 (backing_store_ b) (position_ b) x;
  Some (mkLiteralBuffer store (position_ b + kUC16Size) (is_one_byte_ b)).

Definition AddTwoByteChar (b : LiteralBuffer) (code_unit : Z) : option LiteralBuffer :=
  if code_unit <=? kMaxNonSurrogateCharCode then push16 b code_unit
  else
    b ← push16 b (LeadSurrogate code_unit);
    push16 b (TrailSurrogate code_unit).

(** [AddChar(base::uc32)] *)
Definition AddChar (b : LiteralBuffer) (code_unit : Z) : option LiteralBuffer :=
  if is_one_byte b then
    if code_unit <=? kLatin1MaxChar then AddOneByteChar b (uint8 code_unit)
    else b ← ConvertToTwoByte b; AddTwoByteChar b code_unit
  else AddTwoByteChar b code_unit.

(** [AddChar(char)] *)
Definition AddAsciiChar (b : LiteralBuffer) (code_unit : Z) : option LiteralBuffer :=
  AddOneByteChar b (uint8 code_unit).

(** [length()], [one_byte_literal()] and [two_byte_literal()] *)
Definition literal_length (b : LiteralBuffer) : Z :=
  if is_one_byte b then position_ b else Z.shiftr (position_ b) 1.

Definition one_byte_literal (b : LiteralBuffer) : list Z :=
  take (Z.to_nat (position_ b)) (backing_store_ b).

Definition load16 (v : list Z) (k : nat) : Z :=
  default 0 (v !! (2 * k)%nat) + 256 * default 0 (v !! (2 * k + 1)%nat).

Definition two_byte_literal (b : LiteralBuffer) : list Z :=
  map (load16 (backing_store_ b)) (seq 0 (Z.to_nat (Z.shiftr (position_ b) 1))).

Definition Equals (b : LiteralBuffer) (keyword : list Z) : bool :=
  is_one_byte b && (vlength keyword =? position_ b)
  && bool_decide (keyword = one_byte_literal b).

(** The collected code units. *)
Definition code_units (b : LiteralBuffer) : list Z :=
  if is_one_byte b then one_byte_literal b else two_byte_literal b.

(** ** Invariant *)

Definition is_byte (x : Z) : Prop := 0 <= x < 2 ^ 8.

Record buffer_ok (b : LiteralBuffer) : Prop := {
  ok_position : 0 <= position_ b <= vlength (backing_store_ b);
  ok_bytes : Forall is_byte (backing_store_ b);
  ok_capacity_even : Z.Even (vlength (backing_store_ b));
  ok_position_even : is_one_byte_ b = false -> Z.Even (position_ b)
}.

(** ** Lemmas *)

Lemma uint8_is_byte x : is_byte (uint8 x).
Proof. apply (wrap_range 8). lia. Qed.

Lemma Vector_New_length n : 0 <= n -> vlength (Vector_New n) = n.
Proof. intros. unfold vlength, Vector_New. rewrite length_replicate. lia. Qed.

Lemma Vector_New_bytes n : Forall is_byte (Vector_New n).
Proof. apply Forall_replicate. unfold is_byte. lia. Qed.

Lemma NewCapacity_spec m :
  16 <= m -> Z.Even m -> m + 2 <= NewCapacity m /\ Z.Even (NewCapacity m).
Proof.
  intros Hm [k ->]. unfold NewCapacity, kGrowthFactor, kMaxGrowth.
  destruct (_ <? _); (split; [lia|]); [exists (k * 4)|exists (k + 524288)]; lia.
Qed.

Lemma NewCapacity_small m :
  0 <= m -> Z.Even m -> m <= NewCapacity m /\ Z.Even (NewCapacity m).
Proof.
  intros Hm [k ->]. unfold NewCapacity, kGrowthFactor, kMaxGrowth.
  destruct (_ <? _); (split; [lia|]); [exists (k * 4)|exists (k + 524288)]; lia.
Qed.

Lemma store8_spec v i x :
  0 <= i < vlength v -> store8 v i x = Some (<[Z.to_nat i := uint8 x]> v).
Proof.
  intros. unfold store8. replace (0 <=? i) with true by bool_lia.
  by replace (i <? vlength v) with true by bool_lia.
Qed.

Lemma vlength_insert v i x : vlength (<[i := x]> v) = vlength v.
Proof. unfold vlength. by rewrite length_insert. Qed.

Lemma store16_spec v i x :
  0 <= i -> i + 1 < vlength v ->
  store16 v i x
  = Some (<[Z.to_nat (i + 1) := uint8 (Z.shiftr (uint16 x) 8)]>
            (<[Z.to_nat i := uint8 (uint16 x)]> v)).
Proof.
  intros. unfold store16. rewrite store8_spec by lia. cbn.
  rewrite store8_spec; [done|]. rewrite vlength_insert. lia.
Qed.

(** The two bytes of a code unit load as that code unit. *)
Lemma load16_store16 v i x v' :
  Z.of_nat (2 * i) + 1 < vlength v -> is_uc16 x ->
  store16 v (Z.of_nat (2 * i)) x = Some v' -> load16 v' i = x.
Proof.
  intros Hlen Hx. rewrite store16_spec by lia.
  intros Heq. apply (inj Some) in Heq. subst v'. unfold load16.
  unfold vlength in Hlen.
  replace (Z.to_nat (Z.of_nat (2 * i) + 1)) with (2 * i + 1)%nat by lia.
  replace (Z.to_nat (Z.of_nat (2 * i))) with (2 * i)%nat by lia.
  rewrite list_lookup_insert_ne by lia.
  rewrite !list_lookup_insert_eq by (rewrite ?length_insert; lia). cbn [default from_option id].
  unfold is_uc16 in Hx. unfold uint8, uint16. rewrite !(wrap_small 16) by lia.
  rewrite Z.shiftr_div_pow2 by lia. unfold wrap.
  change (2 ^ 8) with 256. change (2 ^ 16) with 65536 in Hx. div_lia.
Qed.

Lemma load16_insert_other v i k x :
  (i <> 2 * k)%nat -> (i <> 2 * k + 1)%nat -> load16 (<[i := x]> v) k = load16 v k.
Proof. intros. unfold load16. by rewrite !list_lookup_insert_ne by lia. Qed.

Lemma take_insert_snoc {A} (l : list A) n x :
  (n < length l)%nat -> take (S n) (<[n := x]> l) = take n l ++ [x].
Proof.
  intros. rewrite (take_S_r _ n x) by (by apply list_lookup_insert_eq).
  by rewrite take_insert_ge by lia.
Qed.

(** *** Growing *)

Lemma ExpandBuffer_spec b :
  buffer_ok b ->
  exists b', ExpandBuffer b = Some b' /\ buffer_ok b' /\
    position_ b' = position_ b /\ is_one_byte_ b' = is_one_byte_ b /\
    position_ b + 2 <= vlength (backing_store_ b') /\ code_units b' = code_units b.
Proof.
  intros [Hpos Hbytes Hcap Hpe]. unfold ExpandBuffer.
  set (m := Z.max kInitialCapacity (vlength (backing_store_ b))).
  assert (Hm : 16 <= m /\ vlength (backing_store_ b) <= m /\ Z.Even m).
  { unfold m, kInitialCapacity. split; [lia|]. split; [lia|].
    destruct (Z.max_spec 16 (vlength (backing_store_ b))) as [[_ ->]|[_ ->]]; [done|].
    by exists 8. }
  destruct (NewCapacity_spec m) as [Hbig Heven]; [tauto|tauto|].
  set (cap := NewCapacity m) in *.
  set (st := take (Z.to_nat (position_ b)) (backing_store_ b)
               ++ drop (Z.to_nat (position_ b)) (Vector_New cap)).
  assert (Hst : (if 0 <? position_ b
                 then MemCopy (Vector_New cap) (backing_store_ b) (position_ b)
                 else Some (Vector_New cap)) = Some st).
  { destruct (Z.ltb_spec 0 (position_ b)).
    - unfold MemCopy. rewrite Vector_New_length by lia.
      replace (_ <=? vlength _) with true by bool_lia.
      by replace (_ <=? cap) with true by bool_lia.
    - unfold st. by replace (Z.to_nat (position_ b)) with 0%nat by lia. }
  rewrite Hst. cbn [mbind option_bind]. eexists. split; [done|].
  assert (Hlen : vlength st = cap).
  { unfold vlength, st. rewrite length_app, length_take, length_drop.
    unfold Vector_New, vlength in *. rewrite length_replicate. lia. }
  split; [|split; [done|split; [done|split; [cbn; lia|]]]].
  - split; cbn; rewrite ?Hlen; [lia| |done|done].
    apply Forall_app. split; [by apply Forall_take|apply Forall_drop, Vector_New_bytes].
  - unfold vlength in Hpos.
    assert (Htake : take (Z.to_nat (position_ b)) st
                    = take (Z.to_nat (position_ b)) (backing_store_ b)).
    { unfold st. rewrite take_app_le by (rewrite length_take; lia).
      by rewrite take_take, Nat.min_id. }
    unfold code_units, is_one_byte, one_byte_literal, two_byte_literal. cbn.
    destruct (is_one_byte_ b); [done|].
    apply map_ext_in. intros k Hk. apply in_seq in Hk.
    destruct (Hpe eq_refl) as [q Hq]. rewrite Z.shiftr_div_pow2 in Hk by lia.
    assert (Hlk : forall j, (j < Z.to_nat (position_ b))%nat ->
                    st !! j = backing_store_ b !! j).
    { intros j Hj. rewrite <- (lookup_take_lt st _ _ Hj), Htake. by apply lookup_take_lt. }
    unfold load16. rewrite !Hlk; [done| |]; div_lia.
Qed.

(** *** Appending *)

(** [b'] is [b] with [units] appended. *)
Definition appended (b b' : LiteralBuffer) (one_byte : bool) (units : list Z) : Prop :=
  buffer_ok b' /\ is_one_byte_ b' = one_byte /\ code_units b' = code_units b ++ units.

Lemma grow_if_full b :
  buffer_ok b ->
  exists b',
    (if vlength (backing_store_ b) <=? position_ b then ExpandBuffer b else Some b)
      = Some b' /\
    buffer_ok b' /\ position_ b' = position_ b /\ is_one_byte_ b' = is_one_byte_ b /\
    position_ b < vlength (backing_store_ b') /\ code_units b' = code_units b.
Proof.
  intros Hb. destruct (Z.leb_spec (vlength (backing_store_ b)) (position_ b)).
  - destruct (ExpandBuffer_spec b Hb) as (b' & E & Hok & Hp & Ho & Hl & Hu).
    exists b'. repeat split; auto; try apply Hok. lia.
  - exists b. repeat split; auto; try apply Hb.
Qed.

Lemma AddOneByteChar_spec b c :
  buffer_ok b -> is_one_byte_ b = true -> is_byte c ->
  exists b', AddOneByteChar b c = Some b' /\ appended b b' true [c].
Proof.
  intros Hb Ho Hc. unfold AddOneByteChar.
  destruct (grow_if_full b Hb) as (b1 & -> & Hok & Hp & Ho1 & Hl & Hu). cbn [mbind option_bind].
  pose proof (ok_position _ Hok). rewrite store8_spec by lia. cbn [mbind option_bind].
  eexists. split; [done|]. rewrite Ho in Ho1. unfold kOneByteSize.
  assert (Hl' : (Z.to_nat (position_ b1) < length (backing_store_ b1))%nat)
    by (unfold vlength in *; lia).
  split; [|split; [done|]].
  - split; cbn.
    + rewrite vlength_insert. lia.
    + apply Forall_insert; [apply Hok|apply uint8_is_byte].
    + rewrite vlength_insert. apply Hok.
    + rewrite Ho1. done.
  - rewrite <- Hu. unfold code_units, is_one_byte, one_byte_literal. cbn. rewrite Ho1.
    replace (Z.to_nat (position_ b1 + 1)) with (S (Z.to_nat (position_ b1))) by lia.
    rewrite take_insert_snoc by done. do 2 f_equal.
    apply (wrap_small 8). exact Hc.
Qed.

Lemma push16_spec b x :
  buffer_ok b -> is_one_byte_ b = false -> is_uc16 x ->
  exists b', push16 b x = Some b' /\ appended b b' false [x].
Proof.
  intros Hb Ho Hx. unfold push16.
  destruct (grow_if_full b Hb) as (b1 & -> & Hok & Hp & Ho1 & Hl & Hu). cbn [mbind option_bind].
  rewrite Ho in Ho1.
  destruct (ok_position_even _ Hok Ho1) as [k Hk].
  destruct (ok_capacity_even _ Hok) as [q Hq].
  pose proof (ok_position _ Hok). unfold kUC16Size.
  assert (Hst : exists v, store16 (backing_store_ b1) (position_ b1) x = Some v)
    by (rewrite store16_spec by lia; eauto).
  destruct Hst as [v Hv]. rewrite Hv. cbn [mbind option_bind]. eexists. split; [done|].
  pose proof Hv as Hv'. rewrite store16_spec in Hv' by lia.
  apply (inj Some) in Hv'.
  assert (Hlen : vlength v = vlength (backing_store_ b1))
    by (subst v; rewrite !vlength_insert; done).
  split; [|split; [done|]].
  - split; cbn; rewrite ?Hlen.
    + lia.
    + subst v. repeat (apply Forall_insert; [|apply uint8_is_byte]). apply Hok.
    + apply Hok.
    + intros _. exists (k + 1). lia.
  - rewrite <- Hu. unfold code_units, is_one_byte, two_byte_literal. cbn. rewrite Ho1.
    rewrite !Z.shiftr_div_pow2 by lia. change (2 ^ 1) with 2.
    replace (Z.to_nat ((position_ b1 + 2) / 2)) with (S (Z.to_nat k)) by div_lia.
    replace (Z.to_nat (position_ b1 / 2)) with (Z.to_nat k) by div_lia.
    rewrite seq_S, map_app. cbn [map]. f_equal.
    + apply map_ext_in. intros j Hj. apply in_seq in Hj. subst v.
      rewrite !load16_insert_other by lia. done.
    + f_equal. eapply (load16_store16 (backing_store_ b1)); [lia|done|].
      rewrite <- Hv. f_equal. lia.
Qed.

Lemma LeadSurrogate_uc16 c : is_uc16 (LeadSurrogate c).
Proof. apply (wrap_range 16). lia. Qed.

Lemma TrailSurrogate_uc16 c : is_uc16 (TrailSurrogate c).
Proof. apply (wrap_range 16). lia. Qed.

Lemma AddTwoByteChar_spec b c :
  buffer_ok b -> is_one_byte_ b = false -> 0 <= c ->
  exists b', AddTwoByteChar b c = Some b' /\ appended b b' false (utf16_encode c).
Proof.
  intros Hb Ho Hc. unfold AddTwoByteChar, utf16_encode.
  destruct (Z.leb_spec c kMaxNonSurrogateCharCode).
  - apply push16_spec; [done|done|]. unfold is_uc16, kMaxNonSurrogateCharCode in *. lia.
  - destruct (push16_spec b (LeadSurrogate c)) as (b1 & -> & Hok1 & Ho1 & Hu1);
      [done|done|apply LeadSurrogate_uc16|].
    cbn [mbind option_bind].
    destruct (push16_spec b1 (TrailSurrogate c)) as (b2 & -> & Hok2 & Ho2 & Hu2);
      [done|done|apply TrailSurrogate_uc16|].
    exists b2. split; [done|]. split; [done|]. split; [done|].
    rewrite Hu2, Hu1, <- app_assoc. done.
Qed.

(** *** Widening

    After the loop ran down to index [n], the bytes below [n] are untouched and
    every character from [n] on has been widened; this holds in place too,
    because the store for index [i] starts at [2 * i >= i]. *)
Definition widened (aliased : bool) (src dst : list Z) (n m : nat) : Prop :=
  (aliased = true -> forall j, (j < n)%nat -> dst !! j = src !! j) /\
  (forall k, (n <= k < m)%nat -> load16 dst k = default 0 (src !! k)).

Lemma widen_loop_spec aliased src m n dst :
  (n <= m <= length src)%nat -> Z.of_nat (2 * m) <= vlength dst ->
  Forall is_byte src -> Forall is_byte dst -> widened aliased src dst n m ->
  exists dst', widen_loop aliased src dst n = Some dst' /\
    vlength dst' = vlength dst /\ Forall is_byte dst' /\ widened aliased src dst' 0 m.
Proof.
  revert dst. induction n as [|i IH]; intros dst Hn Hlen Hsrc Hdst [Hlow Hhigh].
  - exists dst. repeat split; auto.
  - cbn [widen_loop].
    destruct (lookup_lt_is_Some_2 src i ltac:(lia)) as [x Hx].
    assert (Hload : load8 (if aliased then dst else src) (Z.of_nat i) = Some x).
    { unfold load8. replace (0 <=? Z.of_nat i) with true by bool_lia. rewrite Nat2Z.id.
      destruct aliased; [rewrite Hlow by (done || lia)|]; done. }
    rewrite Hload. cbn [mbind option_bind].
    assert (Hxb : is_byte x) by exact (Forall_lookup_1 _ _ _ _ Hsrc Hx).
    assert (Hi : 2 * Z.of_nat i = Z.of_nat (2 * i)) by lia. rewrite Hi.
    rewrite store16_spec by lia. cbn [mbind option_bind].
    set (dst1 := <[_ := _]> (<[_ := _]> dst)).
    assert (Hlen1 : vlength dst1 = vlength dst) by (unfold dst1; rewrite !vlength_insert; done).
    destruct (IH dst1) as (dst' & -> & Hl' & Hb' & Hw').
    + lia.
    + lia.
    + done.
    + unfold dst1. repeat (apply Forall_insert; [|apply uint8_is_byte]). done.
    + split.
      * intros Ha j Hj. unfold dst1. rewrite !list_lookup_insert_ne by lia. apply Hlow; [done|lia].
      * intros k Hk. destruct (decide (k = i)) as [->|Hne].
        -- rewrite Hx. cbn [default from_option id].
           eapply (load16_store16 dst); [lia| |rewrite store16_spec by lia; reflexivity].
           unfold is_byte, is_uc16 in *. lia.
        -- unfold dst1. rewrite !load16_insert_other by lia. apply Hhigh. lia.
    + exists dst'. split; [done|]. split; [lia|]. split; [done|exact Hw'].
Qed.

Lemma take_map_seq (l : list Z) n :
  (n <= length l)%nat -> take n l = map (fun k => default 0 (l !! k)) (seq 0 n).
Proof.
  intros Hn. apply list_eq. intros i. rewrite list_lookup_fmap.
  destruct (decide (i < n)%nat) as [Hi|Hi].
  - rewrite lookup_take_lt, lookup_seq_lt by lia. cbn.
    destruct (lookup_lt_is_Some_2 l i ltac:(lia)) as [x ->]. done.
  - rewrite lookup_take_ge, lookup_seq_ge by lia. done.
Qed.

Lemma ConvertToTwoByte_spec b :
  buffer_ok b -> is_one_byte_ b = true ->
  exists b', ConvertToTwoByte b = Some b' /\ appended b b' false [].
Proof.
  intros [Hpos Hbytes Hcap _] Ho. unfold ConvertToTwoByte, kUC16Size.
  set (p := Z.to_nat (position_ b)).
  set (fresh := vlength (backing_store_ b) <=? position_ b * 2).
  set (st := if fresh then Vector_New _ else _).
  destruct (NewCapacity_small (position_ b * 2)) as [Hge Heven];
    [lia|exists (position_ b); lia|].
  assert (Hst : Z.of_nat (2 * p) <= vlength st /\ Z.Even (vlength st) /\ Forall is_byte st).
  { unfold st, fresh. destruct (Z.leb_spec (vlength (backing_store_ b)) (position_ b * 2)).
    - rewrite Vector_New_length by lia. split; [lia|]. split; [done|apply Vector_New_bytes].
    - split; [lia|done]. }
  destruct Hst as (Hlst & Hest & Hbst).
  destruct (widen_loop_spec (negb fresh) (backing_store_ b) p p st)
    as (st' & -> & Hl' & Hb' & _ & Hw').
  - unfold vlength in Hpos. lia.
  - done.
  - done.
  - done.
  - split; [|intros; lia]. intros Hf j Hj. unfold st.
    destruct fresh; done.
  - cbn [mbind option_bind]. eexists. split; [done|]. split; [|split; [done|]].
    + split; cbn; rewrite ?Hl'; [lia|done|done|]. intros _. exists (position_ b). lia.
    + rewrite app_nil_r. unfold code_units, is_one_byte, one_byte_literal, two_byte_literal.
      cbn. rewrite Ho, Z.shiftr_div_pow2 by lia. change (2 ^ 1) with 2.
      rewrite Z.div_mul by lia. fold p. unfold vlength in Hpos.
      rewrite take_map_seq by lia.
      apply map_ext_in. intros k Hk. apply in_seq in Hk. apply Hw'. lia.
Qed.

(** *** The interface *)

Lemma buffer_new_ok : buffer_ok LiteralBuffer_new.
Proof. split; cbn; [unfold vlength; cbn; lia|done|by exists 0|done]. Qed.

Lemma Start_spec b :
  buffer_ok b -> buffer_ok (Start b) /\ is_one_byte_ (Start b) = true /\ code_units (Start b) = [].
Proof.
  intros [Hpos Hbytes Hcap _]. split; [|done]. split; cbn; auto; [lia|done].
Qed.

Lemma AddChar_spec b c :
  buffer_ok b -> 0 <= c ->
  exists b', AddChar b c = Some b' /\
    appended b b' (is_one_byte_ b && (c <=? kLatin1MaxChar)) (utf16_encode c).
Proof.
  intros Hb Hc. unfold AddChar, is_one_byte.
  destruct (is_one_byte_ b) eqn:Ho; [|by apply AddTwoByteChar_spec].
  destruct (Z.leb_spec c kLatin1MaxChar) as [Hle|Hgt].
  - unfold kLatin1MaxChar in Hle. unfold uint8. rewrite wrap_small by lia.
    unfold utf16_encode, kMaxNonSurrogateCharCode.
    replace (c <=? 0xffff) with true by bool_lia.
    apply AddOneByteChar_spec; [done|done|]. unfold is_byte. lia.
  - destruct (ConvertToTwoByte_spec b Hb Ho) as (b1 & -> & Hok1 & Ho1 & Hu1).
    cbn [mbind option_bind].
    destruct (AddTwoByteChar_spec b1 c) as (b2 & -> & Hok2 & Ho2 & Hu2); [done..|].
    exists b2. split; [done|]. split; [done|]. split; [done|].
    by rewrite Hu2, Hu1, app_nil_r.
Qed.

Lemma AddAsciiChar_spec b c :
  buffer_ok b -> is_one_byte_ b = true -> 0 <= c < 128 ->
  exists b', AddAsciiChar b c = Some b' /\ appended b b' true [c].
Proof.
  intros Hb Ho Hc. unfold AddAsciiChar, uint8. rewrite wrap_small by lia.
  apply AddOneByteChar_spec; [done|done|]. unfold is_byte. lia.
Qed.

Lemma literal_length_spec b :
  buffer_ok b -> literal_length b = Z.of_nat (length (code_units b)).
Proof.
  intros [Hpos _ _ _]. unfold literal_length, code_units. unfold vlength in Hpos.
  destruct (is_one_byte b).
  - unfold one_byte_literal. rewrite length_take. lia.
  - unfold two_byte_literal. rewrite length_map, length_seq, Z.shiftr_div_pow2 by lia. div_lia.
Qed.

Lemma one_byte_units b :
  is_one_byte_ b = true -> one_byte_literal b = code_units b.
Proof. unfold code_units, is_one_byte. by intros ->. Qed.

Lemma Equals_spec b keyword :
  buffer_ok b ->
  Equals b keyword = is_one_byte_ b && bool_decide (code_units b = keyword).
Proof.
  intros Hb. unfold Equals, is_one_byte. destruct (is_one_byte_ b) eqn:Ho; [|done].
  pose proof (literal_length_spec b Hb) as Hl. unfold literal_length, is_one_byte in Hl.
  rewrite Ho in Hl. rewrite (one_byte_units _ Ho), Hl. cbn [andb]. unfold vlength.
  repeat case_bool_decide; subst; try done; rewrite ?andb_true_r, ?andb_false_r; try done.
  by rewrite Z.eqb_refl.
Qed.

(** One-byte code units are bytes, two-byte ones 16-bit words. *)
Lemma code_units_range b : buffer_ok b -> Forall is_uc16 (code_units b).
Proof.
  intros [Hpos Hbytes _ _]. unfold code_units. destruct (is_one_byte b).
  - apply Forall_take. revert Hbytes. apply Forall_impl. unfold is_byte, is_uc16. lia.
  - unfold two_byte_literal. apply Forall_forall. intros x Hx.
    apply in_map_iff in Hx as [k [<- _]]. unfold load16, is_uc16.
    assert (Hd : forall j, is_byte (default 0 (backing_store_ b !! j))).
    { intros j. destruct (backing_store_ b !! j) eqn:E; [|unfold is_byte; cbn; lia].
      exact (Forall_lookup_1 _ _ _ _ Hbytes E). }
    pose proof (Hd (2 * k)%nat). pose proof (Hd (2 * k + 1)%nat). unfold is_byte in *. lia.
Qed.

#[export] Hint Resolve buffer_new_ok : speak.
