(* ===== verification/Stream.v ===== *)
(** * Utf16CharacterStream

    Models the buffered stream of UTF-16 code units of [src/parsing/scanner.h].
    The buffer pointers are represented by the loaded block [buffer_] and the
    offset [buffer_cursor_] of the cursor from [buffer_start_]; [buffer_end_] is
    the length of the block. The virtual method [ReadBlock] is the operation of
    the class [BlockReader]; [BlockReaderOK] is its documented contract, proved
    for the concrete streams in [CharacterStreams.v]. *)

From S2P Require Import Prelude.
From S2P Require Import CharPredicates.
From stdpp Require Import base list numbers.
From Stdlib Require Import ZArith Lia Bool.

Local Open Scope Z_scope.

Record Utf16CharacterStream (D : Type) : Type := mkStream {
  byte_stream_ : D;
  buffer_ : list Z;
  buffer_cursor_ : Z;
  buffer_pos_ : Z;
  has_parser_error_ : bool
}.
Arguments mkStream {D}.
Arguments byte_stream_ {D}.
Arguments buffer_ {D}.
Arguments buffer_cursor_ {D}.
Arguments buffer_pos_ {D}.
Arguments has_parser_error_ {D}.

(** [contents] is the text the stream stands for and [source_ok] the invariant
    of the underlying source. *)
Class BlockReader (D : Type) : Type := {
  ReadBlock : Utf16CharacterStream D -> Z -> bool * Utf16CharacterStream D;
  contents : D -> list Z;
  source_ok : D -> Prop
}.

Section Operations.
Context {D : Type} {BR : BlockReader D}.
Implicit Types st : Utf16CharacterStream D.

Definition set_cursor (c : Z) st : Utf16CharacterStream D :=
  mkStream (byte_stream_ st) (buffer_ st) c (buffer_pos_ st) (has_parser_error_ st).

Definition set_error_flag (e : bool) st : Utf16CharacterStream D :=
  mkStream (byte_stream_ st) (buffer_ st) (buffer_cursor_ st) (buffer_pos_ st) e.

(** [buffer_end_ - buffer_start_] *)
Definition buffer_end_ st : Z := Z.of_nat (length (buffer_ st)).

Definition set_parser_error st : Utf16CharacterStream D :=
  set_error_flag true (set_cursor (buffer_end_ st + 1) st).

Definition reset_parser_error_flag st : Utf16CharacterStream D :=
  set_error_flag false st.

Definition pos st : Z := buffer_pos_ st + buffer_cursor_ st.

(** [*buffer_cursor_], read only inside the block. *)
Definition cursor_char st : Z :=
  nth (Z.to_nat (buffer_cursor_ st)) (buffer_ st) 0.

Definition ReadBlockChecked st (position : Z) : bool * Utf16CharacterStream D :=
  if has_parser_error_ st then (false, st) else ReadBlock st position.

Definition Peek st : Z * Utf16CharacterStream D :=
  if buffer_cursor_ st <? buffer_end_ st then (cursor_char st, st)
  else
    let '(success, st) := ReadBlockChecked st (pos st) in
    if success : bool then (cursor_char st, st) else (kEndOfInput, st).

Definition Advance st : Z * Utf16CharacterStream D :=
  let '(result, st) := Peek st in
  (result, set_cursor (buffer_cursor_ st + 1) st).

(** [std::find_if] with a predicate that updates the captured variables. *)
Fixpoint find_if {T} (check : Z -> T -> Res (bool * T)) (t : T) (l : list Z) :
    Res (option nat * T) :=
  match l with
  | [] => Ok (None, t)
  | c :: l' =>
      match check c t with
      | Ok (found, t) =>
          if found : bool then Ok (Some O, t)
          else
            match find_if check t l' with
            | Ok (i, t) => Ok (S <$> i, t)
            | e => e
            end
      | OutOfFuel => OutOfFuel
      | Undefined => Undefined
      end
  end.

Fixpoint AdvanceUntil_loop {T} (fuel : nat) (check : Z -> T -> Res (bool * T)) (t : T) st :
    Res (Z * T * Utf16CharacterStream D) :=
  match fuel with
  | O => OutOfFuel
  | S n =>
      if buffer_end_ st <? buffer_cursor_ st then Undefined
      else
        match find_if check t (drop (Z.to_nat (buffer_cursor_ st)) (buffer_ st)) with
        | OutOfFuel => OutOfFuel
        | Undefined => Undefined
        | Ok (None, t) =>
            let st := set_cursor (buffer_end_ st) st in
            let '(success, st) := ReadBlockChecked st (pos st) in
            if negb success then
              Ok (kEndOfInput, t, set_cursor (buffer_cursor_ st + 1) st)
            else AdvanceUntil_loop n check t st
        | Ok (Some i, t) =>
            let next := buffer_cursor_ st + Z.of_nat i in
            Ok (cursor_char (set_cursor next st), t, set_cursor (next + 1) st)
        end
  end.

Definition AdvanceUntil {T} (check : Z -> T -> Res (bool * T)) (t : T) st :
    Res (Z * T * Utf16CharacterStream D) :=
  AdvanceUntil_loop (S (S (length (contents (byte_stream_ st))))) check t st.

Definition Back st : Utf16CharacterStream D :=
  if 0 <? buffer_cursor_ st then set_cursor (buffer_cursor_ st - 1) st
  else snd (ReadBlockChecked st (pos st - 1)).

Definition Seek st (position : Z) : Utf16CharacterStream D :=
  if (buffer_pos_ st <=? position) && (position <? buffer_pos_ st + buffer_end_ st)
  then set_cursor (position - buffer_pos_ st) st
  else snd (ReadBlockChecked st position).
End Operations.

(** ** The contract of ReadBlock *)

(** The loaded block is the part of the text at [buffer_pos_]. *)
Definition block_ok {D} `{BlockReader D} (st : Utf16CharacterStream D) : Prop :=
  0 <= buffer_pos_ st /\ 0 <= buffer_cursor_ st /\
  buffer_ st = take (length (buffer_ st))
                 (drop (Z.to_nat (buffer_pos_ st)) (contents (byte_stream_ st))).

Definition stream_ok {D} `{BlockReader D} (st : Utf16CharacterStream D) : Prop :=
  source_ok (byte_stream_ st) /\ block_ok st.

(** After [ReadBlock(position)] the stream is at [position], inside a block of
    the same text, and there are characters to read iff it returned true; it
    returns true whenever the text has a character there. *)
Class BlockReaderOK (D : Type) {BR : BlockReader D} : Prop := {
  contents_uc16 d : source_ok d -> Forall is_uc16 (contents d);
  ReadBlock_spec (st : Utf16CharacterStream D) position :
    source_ok (byte_stream_ st) -> 0 <= position ->
    let '(success, st') := ReadBlock st position in
    stream_ok st' /\
    contents (byte_stream_ st') = contents (byte_stream_ st) /\
    has_parser_error_ st' = has_parser_error_ st /\
    pos st' = position /\
    buffer_cursor_ st' <= buffer_end_ st' /\
    success = (buffer_cursor_ st' <? buffer_end_ st') /\
    (position < Z.of_nat (length (contents (byte_stream_ st))) -> success = true)
}.

(** ** The abstract view: the characters still to be read *)

Section Refinement.
Context {D : Type} {BR : BlockReader D} {BOK : BlockReaderOK D}.
Implicit Types st : Utf16CharacterStream D.

Definition text st : list Z := contents (byte_stream_ st).

(** In the error state nothing behind the loaded block is readable. *)
Definition rest st : list Z :=
  if has_parser_error_ st then drop (Z.to_nat (buffer_cursor_ st)) (buffer_ st)
  else drop (Z.to_nat (pos st)) (text st).

(** The cursor is inside the block or at its end. *)
Definition readable st : Prop := buffer_cursor_ st <= buffer_end_ st.

(** Two states of one stream that differ in the loaded block only. *)
Definition same_view st st' : Prop :=
  text st' = text st /\ pos st' = pos st /\
  has_parser_error_ st' = has_parser_error_ st /\ rest st' = rest st.

Lemma same_view_refl st : same_view st st.
Proof. done. Qed.

Lemma rest_block st :
  stream_ok st -> readable st ->
  rest st = drop (Z.to_nat (buffer_cursor_ st)) (buffer_ st)
            ++ (if has_parser_error_ st then []
                else drop (Z.to_nat (buffer_pos_ st + buffer_end_ st)) (text st)).
Proof.
  intros [_ (Hp & Hc & Hb)] Hr. unfold rest, readable, buffer_end_, text, pos in *.
  destruct (has_parser_error_ st); [by rewrite app_nil_r|].
  set (l := contents (byte_stream_ st)) in *.
  set (p := buffer_pos_ st) in *. set (c := buffer_cursor_ st) in *.
  replace (Z.to_nat (p + c)) with (Z.to_nat p + Z.to_nat c)%nat by lia.
  replace (Z.to_nat (p + Z.of_nat (length (buffer_ st))))
    with (Z.to_nat p + length (buffer_ st))%nat by lia.
  rewrite <- !drop_drop. set (r := drop (Z.to_nat p) l) in *.
  rewrite <- (take_drop (length (buffer_ st)) r) at 1. rewrite <- Hb.
  by rewrite drop_app_le by lia.
Qed.

Lemma cursor_char_spec st :
  stream_ok st -> buffer_cursor_ st < buffer_end_ st ->
  exists r, rest st = cursor_char st :: r.
Proof.
  intros Hok Hlt. assert (Hr : readable st) by (unfold readable; lia).
  rewrite (rest_block st Hok Hr). unfold cursor_char.
  destruct Hok as [_ (_ & Hc & _)]. unfold buffer_end_ in *.
  destruct (lookup_lt_is_Some_2 (buffer_ st) (Z.to_nat (buffer_cursor_ st)) ltac:(lia))
    as [x Hx].
  rewrite (drop_S _ _ _ Hx), (nth_lookup_Some _ _ _ _ Hx). cbn. eauto.
Qed.

Lemma ReadBlockChecked_spec st position :
  stream_ok st -> 0 <= position -> has_parser_error_ st = false ->
  exists success st', ReadBlockChecked st position = (success, st') /\
    stream_ok st' /\ text st' = text st /\ has_parser_error_ st' = false /\
    pos st' = position /\ readable st' /\
    rest st' = drop (Z.to_nat position) (text st) /\
    success = (buffer_cursor_ st' <? buffer_end_ st') /\
    (success = false -> rest st' = []).
Proof.
  intros [Hs Hb] Hp He. unfold ReadBlockChecked. rewrite He.
  pose proof (ReadBlock_spec st position Hs Hp) as H.
  destruct (ReadBlock st position) as [success st'].
  destruct H as (Hok & Ht & He' & Hpos & Hr & Hsucc & Hmore).
  exists success, st'. split; [done|]. split; [done|]. split; [done|].
  split; [congruence|]. split; [done|]. split; [done|].
  assert (Hrest : rest st' = drop (Z.to_nat position) (text st)).
  { unfold rest. rewrite He', He, Hpos. unfold text. by rewrite Ht. }
  split; [done|]. split; [done|]. intros ->. rewrite Hrest. apply drop_ge.
  unfold text. destruct (Z.ltb_spec position (Z.of_nat (length (contents (byte_stream_ st)))));
    [|lia]. exfalso. by apply Hmore in H.
Qed.

Lemma rest_error st :
  stream_ok st -> has_parser_error_ st = true -> buffer_end_ st <= buffer_cursor_ st ->
  rest st = [].
Proof.
  intros _ He Hc. unfold rest. rewrite He. apply drop_ge. unfold buffer_end_ in Hc. lia.
Qed.

(** [Peek] returns the next character and changes the loaded block only. *)
Lemma Peek_spec st :
  stream_ok st ->
  exists st', Peek st = (hd kEndOfInput (rest st), st') /\ stream_ok st' /\
    same_view st st' /\ (readable st -> readable st') /\
    (rest st <> [] -> buffer_cursor_ st' < buffer_end_ st').
Proof.
  intros Hok. unfold Peek.
  destruct (Z.ltb_spec (buffer_cursor_ st) (buffer_end_ st)) as [Hlt|Hge].
  { destruct (cursor_char_spec st Hok Hlt) as [r Hr]. exists st. rewrite Hr. cbn. done. }
  destruct (has_parser_error_ st) eqn:He.
  { unfold ReadBlockChecked. rewrite He. exists st.
    rewrite (rest_error st) by done. cbn. done. }
  assert (Hp : 0 <= pos st) by (destruct Hok as [_ (? & ? & _)]; unfold pos; lia).
  destruct (ReadBlockChecked_spec st (pos st) Hok Hp He)
    as (success & st' & -> & Hok' & Ht & He' & Hpos & Hrd & Hrest & Hs & Hf).
  assert (Heq : rest st' = rest st) by (rewrite Hrest; unfold rest; by rewrite He).
  exists st'. destruct success.
  - symmetry in Hs. apply Z.ltb_lt in Hs.
    destruct (cursor_char_spec st' Hok' Hs) as [r Hr].
    rewrite <- Heq, Hr. cbn. repeat split; auto; try apply Hok'; congruence.
  - rewrite <- Heq, (Hf eq_refl). cbn. repeat split; auto; try apply Hok'; try congruence.
Qed.

Lemma set_cursor_ok c st : 0 <= c -> stream_ok st -> stream_ok (set_cursor c st).
Proof. intros Hc [Hs (Hp & _ & Hb)]. split; [done|]. split; [done|]. done. Qed.

Lemma rest_set_cursor_succ st :
  stream_ok st -> rest (set_cursor (buffer_cursor_ st + 1) st) = tl (rest st).
Proof.
  intros [_ (Hp & Hc & _)]. unfold rest, set_cursor, pos, text. cbn.
  destruct (has_parser_error_ st).
  - replace (Z.to_nat (buffer_cursor_ st + 1)) with (Z.to_nat (buffer_cursor_ st) + 1)%nat
      by lia.
    rewrite <- drop_drop. by destruct (drop (Z.to_nat (buffer_cursor_ st)) (buffer_ st)).
  - replace (Z.to_nat (buffer_pos_ st + (buffer_cursor_ st + 1)))
      with (Z.to_nat (buffer_pos_ st + buffer_cursor_ st) + 1)%nat by lia.
    rewrite <- drop_drop. by destruct (drop _ (contents (byte_stream_ st))).
Qed.

(** [Advance] returns the next character and moves one position forward. *)
Lemma Stream_Advance_spec st :
  stream_ok st ->
  exists st', Advance st = (hd kEndOfInput (rest st), st') /\ stream_ok st' /\
    text st' = text st /\ has_parser_error_ st' = has_parser_error_ st /\
    pos st' = pos st + 1 /\ rest st' = tl (rest st) /\
    (rest st <> [] -> readable st') /\
    (readable st -> buffer_cursor_ st' <= buffer_end_ st' + 1) /\
    0 < buffer_cursor_ st'.
Proof.
  intros Hok. unfold Advance.
  destruct (Peek_spec st Hok) as (st1 & -> & Hok1 & (Ht & Hp & He & Hr) & Hrd & Hne).
  exists (set_cursor (buffer_cursor_ st1 + 1) st1). split; [done|].
  destruct Hok1 as [Hs1 Hb1]. assert (Hc : 0 <= buffer_cursor_ st1) by apply Hb1.
  split; [apply set_cursor_ok; [lia|split; done]|].
  split; [done|]. split; [done|]. split; [unfold pos in *; cbn; lia|].
  split; [rewrite rest_set_cursor_succ by (split; done); congruence|].
  split; [intros Hx; specialize (Hne Hx); unfold readable, buffer_end_ in *; cbn; lia|].
  split; [intros Hx; specialize (Hrd Hx); unfold readable, buffer_end_ in *; cbn; lia|].
  cbn. lia.
Qed.

(** [Back] undoes [Advance]. *)
Lemma Back_Advance st :
  stream_ok st ->
  exists st', Back (snd (Advance st)) = st' /\ stream_ok st' /\ same_view st st' /\
    (readable st -> readable st') /\
    (rest st <> [] -> buffer_cursor_ st' < buffer_end_ st').
Proof.
  intros Hok. destruct (Peek_spec st Hok) as (st1 & HP & Hok1 & Hv & Hrd & Hne).
  exists st1. split; [|done]. unfold Advance. rewrite HP. cbn [snd]. unfold Back. cbn.
  destruct Hok1 as [_ (_ & Hc & _)].
  replace (0 <? buffer_cursor_ st1 + 1) with true by bool_lia.
  unfold set_cursor. destruct st1. cbn. f_equal. lia.
Qed.

(** [Back] from any position behind the first, when no error was set. *)
Lemma Back_spec st :
  stream_ok st -> has_parser_error_ st = false -> 1 <= pos st ->
  stream_ok (Back st) /\ text (Back st) = text st /\
  has_parser_error_ (Back st) = false /\ pos (Back st) = pos st - 1 /\
  rest (Back st) = drop (Z.to_nat (pos st - 1)) (text st) /\
  (buffer_cursor_ st <= buffer_end_ st + 1 -> readable (Back st)).
Proof.
  intros Hok He Hp. unfold Back.
  destruct (Z.ltb_spec 0 (buffer_cursor_ st)).
  - split; [apply set_cursor_ok; [lia|done]|]. split; [done|]. split; [done|].
    unfold rest, pos. cbn. rewrite He. split; [lia|]. unfold text. cbn. split.
    + f_equal. f_equal. lia.
    + unfold readable, buffer_end_. cbn. lia.
  - destruct (ReadBlockChecked_spec st (pos st - 1) Hok ltac:(lia) He)
      as (success & st' & -> & Hok' & Ht & He' & Hpos & Hrd & Hrest & _). cbn. done.
Qed.

Lemma Seek_spec st position :
  stream_ok st -> has_parser_error_ st = false -> 0 <= position ->
  stream_ok (Seek st position) /\ text (Seek st position) = text st /\
  has_parser_error_ (Seek st position) = false /\ pos (Seek st position) = position /\
  readable (Seek st position) /\
  rest (Seek st position) = drop (Z.to_nat position) (text st).
Proof.
  intros Hok He Hp. unfold Seek.
  destruct ((buffer_pos_ st <=? position) && _) eqn:E.
  - bool_to_prop. split; [apply set_cursor_ok; [lia|done]|].
    split; [done|]. split; [done|]. unfold rest, pos, readable, buffer_end_ in *. cbn.
    rewrite He. split; [lia|]. split; [lia|]. unfold text. cbn. f_equal. f_equal. lia.
  - destruct (ReadBlockChecked_spec st position Hok Hp He)
      as (success & st' & -> & Hok' & Ht & He' & Hpos & Hrd & Hrest & _). cbn. done.
Qed.

(** After a parser error nothing can be read. *)
Lemma set_parser_error_spec st :
  stream_ok st ->
  stream_ok (set_parser_error st) /\ text (set_parser_error st) = text st /\
  has_parser_error_ (set_parser_error st) = true /\ rest (set_parser_error st) = [].
Proof.
  intros [Hs (Hp & Hc & Hb)]. split; [|split; [done|split; [done|]]].
  - split; [done|]. split; [done|]. split; [cbn; unfold buffer_end_; lia|done].
  - unfold rest. cbn. apply drop_ge. unfold buffer_end_. cbn. lia.
Qed.

(** *** AdvanceUntil *)

(** The first character that satisfies the check, with what follows it. *)
Fixpoint scan_until {T} (check : Z -> T -> Res (bool * T)) (t : T) (l : list Z) :
    Res (option (Z * list Z) * T) :=
  match l with
  | [] => Ok (None, t)
  | c :: l' =>
      match check c t with
      | Ok (found, t) =>
          if found : bool then Ok (Some (c, l'), t) else scan_until check t l'
      | OutOfFuel => OutOfFuel
      | Undefined => Undefined
      end
  end.

Lemma find_if_scan {T} (check : Z -> T -> Res (bool * T)) t l1 l2 r :
  scan_until check t (l1 ++ l2) = Ok r ->
  exists i t', find_if check t l1 = Ok (i, t') /\
    match i with
    | None => scan_until check t' l2 = Ok r
    | Some i => (i < length l1)%nat /\ r = (Some (nth i l1 0, drop (S i) l1 ++ l2), t')
    end.
Proof.
  revert t. induction l1 as [|c l1 IH]; intros t; [by exists None, t|].
  cbn [app scan_until find_if]. destruct (check c t) as [[[|] t1]| |]; [|..]; try done.
  - intros [= <-]. exists (Some 0%nat), t1. cbn. split; [done|]. split; [lia|done].
  - intros H. destruct (IH _ H) as ([i|] & t2 & -> & Hi); cbn.
    + exists (Some (S i)), t2. split; [done|]. destruct Hi as [Hi ->]. split; [lia|done].
    + by exists None, t2.
Qed.

(** The result and the state after [AdvanceUntil]. *)
Definition advanced_until (st st' : Utf16CharacterStream D) (c : Z)
    (r : option (Z * list Z)) : Prop :=
  stream_ok st' /\ text st' = text st /\
  has_parser_error_ st' = has_parser_error_ st /\
  match r with
  | Some (c', l) =>
      c = c' /\ rest st' = l /\ readable st' /\
      pos st' = pos st + Z.of_nat (length (rest st)) - Z.of_nat (length l)
  | None =>
      c = kEndOfInput /\ rest st' = [] /\
      pos st' = pos st + Z.of_nat (length (rest st)) + 1
  end.

Lemma readable_end st : stream_ok st -> readable st ->
  stream_ok (set_cursor (buffer_end_ st) st) /\
  rest (set_cursor (buffer_end_ st) st) =
    (if has_parser_error_ st then []
     else drop (Z.to_nat (buffer_pos_ st + buffer_end_ st)) (text st)).
Proof.
  intros Hok Hr. split; [apply set_cursor_ok; [unfold buffer_end_; lia|done]|].
  unfold rest, pos, text. cbn. destruct (has_parser_error_ st); [|done].
  apply drop_ge. unfold buffer_end_. lia.
Qed.

Lemma AdvanceUntil_found st i r :
  stream_ok st -> readable st ->
  (i < length (drop (Z.to_nat (buffer_cursor_ st)) (buffer_ st)))%nat ->
  let next := buffer_cursor_ st + Z.of_nat i in
  let b := drop (Z.to_nat (buffer_cursor_ st)) (buffer_ st) in
  rest st = b ++ r ->
  advanced_until st (set_cursor (next + 1) st) (cursor_char (set_cursor next st))
    (Some (nth i b 0, drop (S i) b ++ r)).
Proof.
  intros Hok Hr Hi next b Hrest. pose proof Hok as [_ (_ & Hc & _)].
  rewrite length_drop in Hi.
  split; [apply set_cursor_ok; [unfold next; lia|done]|]. split; [done|]. split; [done|].
  split.
  { unfold cursor_char, b, next. cbn. rewrite !nth_lookup, lookup_drop. do 2 f_equal. lia. }
  assert (Hr' : readable (set_cursor (next + 1) st))
    by (unfold readable, buffer_end_, next in *; cbn; lia).
  rewrite (rest_block st Hok Hr) in Hrest. apply app_inv_head in Hrest.
  split; [|split; [done|]].
  - rewrite rest_block by (try apply set_cursor_ok; unfold next; done || lia).
    cbn. unfold text, buffer_end_ in *. cbn. rewrite <- Hrest. f_equal.
    unfold b. rewrite drop_drop. f_equal. unfold next. lia.
  - rewrite (rest_block st Hok Hr), Hrest, !length_app, !length_drop.
    fold b. unfold pos, next, b. cbn. rewrite length_drop. lia.
Qed.

Lemma AdvanceUntil_loop_spec {T} (check : Z -> T -> Res (bool * T)) fuel t st r t' :
  stream_ok st -> readable st ->
  (length (rest st) + (if decide (buffer_cursor_ st = buffer_end_ st) then 1 else 0)
     < fuel)%nat ->
  scan_until check t (rest st) = Ok (r, t') ->
  exists c st',
    AdvanceUntil_loop fuel check t st = Ok (c, t', st') /\ advanced_until st st' c r.
Proof.
  revert t st. induction fuel as [|n IH]; intros t st Hok Hr Hfuel Hscan; [lia|].
  cbn [AdvanceUntil_loop]. unfold readable in Hr.
  replace (buffer_end_ st <? buffer_cursor_ st) with false by bool_lia.
  pose proof (rest_block st Hok Hr) as Hrb.
  set (b := drop (Z.to_nat (buffer_cursor_ st)) (buffer_ st)) in *.
  set (more := if has_parser_error_ st then [] else _) in *.
  rewrite Hrb in Hscan. destruct (find_if_scan check t b more _ Hscan) as (i & t1 & -> & Hi).
  destruct i as [i|].
  { destruct Hi as [Hi [= -> ->]]. do 2 eexists. split; [done|].
    by apply AdvanceUntil_found. }
  destruct (readable_end st Hok Hr) as [Hok1 Hrest1].
  set (st1 := set_cursor (buffer_end_ st) st) in *.
  change (if has_parser_error_ st then [] else _) with more in Hrest1.
  assert (Hb : Z.of_nat (length b) = buffer_end_ st - buffer_cursor_ st).
  { unfold b. rewrite length_drop. destruct Hok as [_ (_ & Hc & _)].
    unfold buffer_end_ in *. lia. }
  destruct (has_parser_error_ st) eqn:He.
  { unfold ReadBlockChecked. change (has_parser_error_ st1) with (has_parser_error_ st).
    rewrite He. cbn [negb]. unfold more in Hi. cbn in Hi. injection Hi as <- <-.
    do 2 eexists. split; [done|].
    split; [apply set_cursor_ok; [unfold st1; cbn; unfold buffer_end_; lia|done]|].
    split; [done|]. split; [cbn; done|]. split; [done|].
    split; [by rewrite rest_set_cursor_succ, Hrest1|].
    rewrite Hrb. unfold more. rewrite app_nil_r. unfold pos, st1. cbn. lia. }
  assert (Hp1 : 0 <= pos st1) by (destruct Hok1 as [_ (? & ? & _)]; unfold pos; lia).
  destruct (ReadBlockChecked_spec st1 (pos st1) Hok1 Hp1 He)
    as (success & st' & -> & Hok' & Ht & He' & Hpos & Hrd & Hrest & Hs & Hf).
  assert (Hmore : rest st' = more).
  { rewrite Hrest. unfold more, text, pos, st1. cbn. done. }
  assert (Hpos1 : pos st1 = pos st + Z.of_nat (length b)) by (unfold pos, st1; cbn; lia).
  destruct success; cbn [negb].
  - symmetry in Hs. apply Z.ltb_lt in Hs. rewrite <- Hmore in Hi.
    destruct (IH t1 st' Hok' Hrd) as (c & st2 & Hloop & Hadv); [|done|].
    + rewrite Hmore. rewrite Hrb, length_app in Hfuel.
      destruct (decide (buffer_cursor_ st' = buffer_end_ st')); [lia|].
      destruct (decide (buffer_cursor_ st = buffer_end_ st)); [lia|].
      assert (0 < length b)%nat by lia. lia.
    + rewrite Hloop. do 2 eexists. split; [done|].
      destruct Hadv as (Ho2 & Ht2 & He2 & Hrest2).
      split; [done|]. split; [by rewrite Ht2, Ht|]. split; [by rewrite He2, He', He|].
      rewrite Hmore in Hrest2. destruct r as [[c' l]|].
      * destruct Hrest2 as (-> & Hl & Hr2 & Hp2). repeat split; auto.
        rewrite Hp2, Hpos, Hpos1, Hrb, length_app. lia.
      * destruct Hrest2 as (-> & Hl & Hp2). repeat split; auto.
        rewrite Hp2, Hpos, Hpos1, Hrb, length_app. lia.
  - rewrite <- Hmore, (Hf eq_refl) in Hi. cbn in Hi. injection Hi as <- <-.
    do 2 eexists. split; [done|]. destruct Hok' as [Hs' (Hb' & Hc' & Hbl')].
    split; [apply set_cursor_ok; [lia|split; done]|]. split; [cbn; done|].
    split; [cbn; congruence|]. split; [done|].
    split; [rewrite rest_set_cursor_succ by (split; done); by rewrite (Hf eq_refl)|].
    rewrite Hrb, <- Hmore, (Hf eq_refl), app_nil_r. unfold pos in *. cbn. lia.
Qed.

Lemma rest_length st : stream_ok st -> (length (rest st) <= length (text st))%nat.
Proof.
  intros [_ (_ & _ & Hb)]. unfold rest, text. destruct (has_parser_error_ st).
  - rewrite length_drop, Hb, length_take, length_drop. lia.
  - rewrite length_drop. lia.
Qed.

(** [AdvanceUntil] finds the first character accepted by the check, over all
    the blocks of the stream, or reaches the end of the input. *)
Lemma AdvanceUntil_spec {T} (check : Z -> T -> Res (bool * T)) t st r t' :
  stream_ok st -> readable st -> scan_until check t (rest st) = Ok (r, t') ->
  exists c st', AdvanceUntil check t st = Ok (c, t', st') /\ advanced_until st st' c r.
Proof.
  intros Hok Hr. apply AdvanceUntil_loop_spec; [done|done|].
  pose proof (rest_length st Hok). unfold text in *. destruct (decide _); lia.
Qed.

Lemma rest_uc16 st : stream_ok st -> Forall is_uc16 (rest st).
Proof.
  intros [Hs (_ & _ & Hb)]. pose proof (contents_uc16 _ Hs) as Hc.
  unfold rest, text. destruct (has_parser_error_ st); [|by apply Forall_drop].
  rewrite Hb. by apply Forall_drop, Forall_take, Forall_drop.
Qed.
End Refinement.
