(* ===== verification/CharacterStreams.v ===== *)
(** * Character streams

    Models [src/parsing/scanner-character-streams.cc]: the byte streams
    ([OnHeapStream], [ExternalStringStream], [TestingStream], [ChunkedStream])
    and the UTF-16 views on them ([UnbufferedCharacterStream],
    [BufferedCharacterStream], [Windows1252CharacterStream]). Each view is an
    instance of [BlockReader]; that it meets the contract [BlockReaderOK] is
    proved for any byte stream that meets [ByteStreamOK]. A pointer range is the
    list of its characters. The embedder's [GetMoreData] is represented by the
    list of the chunks it will deliver; when the list is exhausted it delivers
    an empty chunk, as the embedder interface documents for the end of the
    data. *)

From S2P Require Import Prelude.
From S2P Require Import CharPredicates.
From S2P Require Import Stream.
From stdpp Require Import base list numbers.
From Stdlib Require Import ZArith Lia Bool.

Local Open Scope Z_scope.

(** ** Byte streams *)

(** [GetDataAt(pos)]; [data] is the text a stream stands for. *)
Class ByteStream (B : Type) : Type := {
  GetDataAt : B -> Z -> Res (list Z * B);
  data : B -> list Z;
  byte_stream_ok : B -> Prop
}.

(** [GetDataAt] returns characters of the text from [pos] on, and at least one
    unless [pos] is at or behind the end. *)
Class ByteStreamOK (B : Type) {BS : ByteStream B} : Prop := {
  GetDataAt_spec (b : B) pos :
    byte_stream_ok b -> 0 <= pos ->
    exists range b', GetDataAt b pos = Ok (range, b') /\
      byte_stream_ok b' /\ data b' = data b /\
      (exists tail, drop (Z.to_nat pos) (data b) = range ++ tail) /\
      (range = [] -> drop (Z.to_nat pos) (data b) = [])
}.

(** [OnHeapStream<Char>]: [string_] from [start_offset_], [length_] characters. *)
Record OnHeapStream : Type := mkOnHeapStream {
  string_ : list Z;
  start_offset_ : Z;
  length_ : Z
}.

(** The characters between two pointers into an array. *)
Definition range_of (chars : list Z) (first last : Z) : list Z :=
  take (Z.to_nat (last - first)) (drop (Z.to_nat first) chars).

Definition OnHeapStream_GetDataAt (b : OnHeapStream) (pos : Z) : Res (list Z * OnHeapStream) :=
  Ok (range_of (string_ b) (start_offset_ b + Z.min (length_ b) pos)
        (start_offset_ b + length_ b), b).

#[export] Instance OnHeapStream_ByteStream : ByteStream OnHeapStream := {
  GetDataAt := OnHeapStream_GetDataAt;
  data b := range_of (string_ b) (start_offset_ b) (start_offset_ b + length_ b);
  byte_stream_ok b :=
    0 <= start_offset_ b /\ 0 <= length_ b /\
    start_offset_ b + length_ b <= Z.of_nat (length (string_ b))
}.

(** [ExternalStringStream<Char>] and [TestingStream<Char>]: an array of
    [flat_length_] characters. *)
Record FlatStream : Type := mkFlatStream { data_ : list Z; flat_length_ : Z }.

Definition FlatStream_GetDataAt (b : FlatStream) (pos : Z) : Res (list Z * FlatStream) :=
  Ok (range_of (data_ b) (Z.min (flat_length_ b) pos) (flat_length_ b), b).

Definition ExternalStringStream_new (chars : list Z) (start_offset length : Z) : FlatStream :=
  mkFlatStream (drop (Z.to_nat start_offset) chars) length.

Definition TestingStream_new (chars : list Z) (length : Z) : FlatStream := mkFlatStream chars length.

#[export] Instance FlatStream_ByteStream : ByteStream FlatStream := {
  GetDataAt := FlatStream_GetDataAt;
  data b := range_of (data_ b) 0 (flat_length_ b);
  byte_stream_ok b := 0 <= flat_length_ b <= Z.of_nat (length (data_ b))
}.

(** *** ChunkedStream *)

Record Chunk : Type := mkChunk { chunk_data : list Z; position : Z }.

Definition chunk_length (c : Chunk) : Z := Z.of_nat (length (chunk_data c)).
Definition end_position (c : Chunk) : Z := position c + chunk_length c.

(** [source_] holds the chunks still to be delivered; [chunks_] is kept with
    its last element first. *)
Record ChunkedStream : Type := mkChunkedStream {
  source_ : list (list Z);
  chunks_ : list Chunk
}.

Definition GetMoreData (source : list (list Z)) : list Z * list (list Z) :=
  match source with
  | [] => ([], [])
  | d :: source' => (d, source')
  end.

(** [FetchChunk] and [ProcessChunk] *)
Definition FetchChunk (b : ChunkedStream) (position : Z) : ChunkedStream :=
  let '(d, source') := GetMoreData (source_ b) in
  mkChunkedStream source' (mkChunk d position :: chunks_ b).

(** [while (position >= back().end_position() && back().length > 0) ...] *)
Fixpoint walk_forwards (fuel : nat) (position : Z) (b : ChunkedStream) : Res ChunkedStream :=
  match fuel with
  | O => OutOfFuel
  | S n =>
      match chunks_ b with
      | [] => Undefined
      | back :: _ =>
          if (end_position back <=? position) && (0 <? chunk_length back)
          then walk_forwards n position (FetchChunk b (end_position back))
          else Ok b
      end
  end.

(** The first chunk from the back that starts at or before [position]. *)
Fixpoint walk_backwards (pos : Z) (chunks : list Chunk) : option Chunk :=
  match chunks with
  | [] => None
  | c :: chunks' => if position c <=? pos then Some c else walk_backwards pos chunks'
  end.

Definition FindChunk (b : ChunkedStream) (position : Z) : Res (Chunk * ChunkedStream) :=
  let b := match chunks_ b with [] => FetchChunk b 0 | _ => b end in
  match walk_forwards (S (S (length (source_ b)))) position b with
  | Ok b =>
      match walk_backwards position (chunks_ b) with
      | Some c => Ok (c, b)
      | None => Undefined
      end
  | OutOfFuel => OutOfFuel
  | Undefined => Undefined
  end.

Definition ChunkedStream_GetDataAt (b : ChunkedStream) (pos : Z) :
    Res (list Z * ChunkedStream) :=
  match FindChunk b pos with
  | Ok (chunk, b) =>
      let buffer_end := chunk_length chunk in
      let buffer_pos := Z.min buffer_end (pos - position chunk) in
      Ok (range_of (chunk_data chunk) buffer_pos buffer_end, b)
  | OutOfFuel => OutOfFuel
  | Undefined => Undefined
  end.

(** What the source will deliver: its chunks up to the first empty one. *)
Fixpoint pending (source : list (list Z)) : list Z :=
  match source with
  | [] | [] :: _ => []
  | d :: source' => d ++ pending source'
  end.

(** The text of the chunks fetched so far (last chunk first). *)
Definition fetched (chunks : list Chunk) : list Z :=
  concat (map chunk_data (rev chunks)).

Definition finished (chunks : list Chunk) : bool :=
  match chunks with
  | back :: _ => chunk_length back =? 0
  | [] => false
  end.

(** Chunks are contiguous from position 0, and only the last one may be empty. *)
Fixpoint chunks_ok (chunks : list Chunk) : Prop :=
  match chunks with
  | [] => True
  | c :: chunks' =>
      position c = Z.of_nat (length (fetched chunks')) /\ finished chunks' = false /\
      chunks_ok chunks'
  end.

#[export] Instance ChunkedStream_ByteStream : ByteStream ChunkedStream := {
  GetDataAt := ChunkedStream_GetDataAt;
  data b := fetched (chunks_ b) ++ (if finished (chunks_ b) then [] else pending (source_ b));
  byte_stream_ok b := chunks_ok (chunks_ b)
}.

(** ** UTF-16 views *)

Definition kBufferSize : Z := 512.

(** Each view wraps its byte stream in a type of its own. *)
Inductive UnbufferedCharacterStream (B : Type) : Type := mkUnbuffered (b : B).
Inductive BufferedCharacterStream (B : Type) : Type := mkBuffered (b : B).
Inductive Windows1252CharacterStream (B : Type) : Type := mkWindows1252 (b : B).
Arguments mkUnbuffered {B} b.
Arguments mkBuffered {B} b.
Arguments mkWindows1252 {B} b.

Definition unbuffered_bytes {B} (d : UnbufferedCharacterStream B) : B :=
  match d with mkUnbuffered b => b end.
Definition buffered_bytes {B} (d : BufferedCharacterStream B) : B :=
  match d with mkBuffered b => b end.
Definition windows1252_bytes {B} (d : Windows1252CharacterStream B) : B :=
  match d with mkWindows1252 b => b end.

Definition kWindows1252ToUC16 : list Z :=
  seqZ 0 128 ++
  [ 0x20AC; 0x0081; 0x201A; 0x0192; 0x201E; 0x2026; 0x2020; 0x2021;
    0x02C6; 0x2030; 0x0160; 0x2039; 0x0152; 0x008D; 0x017D; 0x008F;
    0x0090; 0x2018; 0x2019; 0x201C; 0x201D; 0x2022; 0x2013; 0x2014;
    0x02DC; 0x2122; 0x0161; 0x203A; 0x0153; 0x009D; 0x017E; 0x0178 ] ++
  seqZ 0xA0 96.

Definition windows1252_char (c : Z) : Z := nth (Z.to_nat c) kWindows1252ToUC16 0.

Section Views.
Context {B : Type} {BS : ByteStream B}.

(** A failing [GetDataAt] leaves an empty block; [ByteStreamOK] excludes it. *)
Definition get_data (b : B) (position : Z) : list Z * B :=
  match GetDataAt b position with Ok r => r | _ => ([], b) end.

Definition Unbuffered_ReadBlock
    (st : Utf16CharacterStream (UnbufferedCharacterStream B)) (position : Z) :
    bool * Utf16CharacterStream (UnbufferedCharacterStream B) :=
  let '(range, b) := get_data (unbuffered_bytes (byte_stream_ st)) position in
  (negb (Z.of_nat (length range) =? 0),
   mkStream (mkUnbuffered b) range 0 position (has_parser_error_ st)).

Definition Buffered_ReadBlock
    (st : Utf16CharacterStream (BufferedCharacterStream B)) (position : Z) :
    bool * Utf16CharacterStream (BufferedCharacterStream B) :=
  let '(range, b) := get_data (buffered_bytes (byte_stream_ st)) position in
  if Z.of_nat (length range) =? 0 then
    (false, mkStream (mkBuffered b) [] 0 position (has_parser_error_ st))
  else
    let length := Z.min kBufferSize (Z.of_nat (length range)) in
    (true, mkStream (mkBuffered b) (take (Z.to_nat length) range) 0 position (has_parser_error_ st)).

Definition Windows1252_ReadBlock
    (st : Utf16CharacterStream (Windows1252CharacterStream B)) (position : Z) :
    bool * Utf16CharacterStream (Windows1252CharacterStream B) :=
  let '(range, b) := get_data (windows1252_bytes (byte_stream_ st)) position in
  if Z.of_nat (length range) =? 0 then
    (false, mkStream (mkWindows1252 b) [] 0 position (has_parser_error_ st))
  else
    let length := Z.min kBufferSize (Z.of_nat (length range)) in
    (true, mkStream (mkWindows1252 b) (map windows1252_char (take (Z.to_nat length) range))
             0 position (has_parser_error_ st)).

(** The views, with the character range their text has to be in. *)
#[export] Instance Unbuffered_BlockReader : BlockReader (UnbufferedCharacterStream B) := {
  ReadBlock := Unbuffered_ReadBlock;
  contents d := data (unbuffered_bytes d);
  source_ok d := byte_stream_ok (unbuffered_bytes d) /\ Forall is_uc16 (data (unbuffered_bytes d))
}.

Definition is_latin1 (c : Z) : Prop := 0 <= c < 256.

#[export] Instance Buffered_BlockReader : BlockReader (BufferedCharacterStream B) := {
  ReadBlock := Buffered_ReadBlock;
  contents d := data (buffered_bytes d);
  source_ok d := byte_stream_ok (buffered_bytes d) /\ Forall is_latin1 (data (buffered_bytes d))
}.

#[export] Instance Windows1252_BlockReader : BlockReader (Windows1252CharacterStream B) := {
  ReadBlock := Windows1252_ReadBlock;
  contents d := map windows1252_char (data (windows1252_bytes d));
  source_ok d := byte_stream_ok (windows1252_bytes d) /\ Forall is_latin1 (data (windows1252_bytes d))
}.

(** A stream before its first block was read. *)
Definition stream_at {D} (d : D) (pos : Z) : Utf16CharacterStream D := mkStream d [] 0 pos false.
End Views.

(** ** ScannerStream::For and ForTesting *)

Definition ForTesting_one_byte (chars : list Z) :
    Utf16CharacterStream (BufferedCharacterStream FlatStream) :=
  stream_at (mkBuffered (TestingStream_new chars (Z.of_nat (length chars)))) 0.

Definition ForTesting_two_byte (chars : list Z) :
    Utf16CharacterStream (UnbufferedCharacterStream FlatStream) :=
  stream_at (mkUnbuffered (TestingStream_new chars (Z.of_nat (length chars)))) 0.

(** [For(source_stream, TWO_BYTE)], [ONE_BYTE] and [WINDOWS_1252] *)
Definition For_two_byte_source (source : list (list Z)) :
    Utf16CharacterStream (UnbufferedCharacterStream ChunkedStream) :=
  stream_at (mkUnbuffered (mkChunkedStream source [])) 0.

Definition For_one_byte_source (source : list (list Z)) :
    Utf16CharacterStream (BufferedCharacterStream ChunkedStream) :=
  stream_at (mkBuffered (mkChunkedStream source [])) 0.

Definition For_windows1252_source (source : list (list Z)) :
    Utf16CharacterStream (Windows1252CharacterStream ChunkedStream) :=
  stream_at (mkWindows1252 (mkChunkedStream source [])) 0.

(** [For(isolate, data, start_pos, end_pos)] on a sequential string. *)
Definition For_seq_one_byte (chars : list Z) (start_offset start_pos end_pos : Z) :
    Utf16CharacterStream (BufferedCharacterStream OnHeapStream) :=
  stream_at (mkBuffered (mkOnHeapStream chars start_offset end_pos)) start_pos.

Definition For_seq_two_byte (chars : list Z) (start_offset start_pos end_pos : Z) :
    Utf16CharacterStream (UnbufferedCharacterStream OnHeapStream) :=
  stream_at (mkUnbuffered (mkOnHeapStream chars start_offset end_pos)) start_pos.

Definition For_external_one_byte (chars : list Z) (start_offset start_pos end_pos : Z) :
    Utf16CharacterStream (BufferedCharacterStream FlatStream) :=
  stream_at (mkBuffered (ExternalStringStream_new chars start_offset end_pos)) start_pos.

Definition For_external_two_byte (chars : list Z) (start_offset start_pos end_pos : Z) :
    Utf16CharacterStream (UnbufferedCharacterStream FlatStream) :=
  stream_at (mkUnbuffered (ExternalStringStream_new chars start_offset end_pos)) start_pos.

(** ** Lemmas *)

Lemma drop_range_of chars first last n :
  0 <= first <= last -> 0 <= n ->
  drop (Z.to_nat n) (range_of chars first last)
  = range_of chars (first + Z.min (last - first) n) last.
Proof.
  intros Hf Hn. unfold range_of. rewrite skipn_firstn_comm, drop_drop.
  destruct (Z.min_spec (last - first) n) as [[Hlt ->]|[Hge ->]].
  - replace (Z.to_nat (last - first) - Z.to_nat n)%nat with 0%nat by lia.
    by replace (Z.to_nat (last - (first + (last - first)))) with 0%nat by lia.
  - f_equal; [lia|]. f_equal. lia.
Qed.

Lemma range_of_length chars first last :
  0 <= first <= last -> last <= Z.of_nat (length chars) ->
  Z.of_nat (length (range_of chars first last)) = last - first.
Proof. intros. unfold range_of. rewrite length_take, length_drop. lia. Qed.

#[export] Instance OnHeapStream_ok : ByteStreamOK OnHeapStream.
Proof.
  split. intros [s o l] pos (Ho & Hl & Hb) Hp. cbn in *.
  eexists _, _. split; [reflexivity|]. cbn. split; [done|]. split; [done|].
  rewrite drop_range_of by lia. replace (o + l - o) with l by lia.
  split; [exists []; by rewrite app_nil_r|done].
Qed.

#[export] Instance FlatStream_ok : ByteStreamOK FlatStream.
Proof.
  split. intros [s l] pos Hb Hp. cbn in *.
  eexists _, _. split; [reflexivity|]. cbn. split; [done|]. split; [done|].
  rewrite drop_range_of by lia. rewrite Z.sub_0_r, Z.add_0_l.
  split; [exists []; by rewrite app_nil_r|done].
Qed.

(** *** Chunks *)

Lemma fetched_cons c chunks : fetched (c :: chunks) = fetched chunks ++ chunk_data c.
Proof.
  unfold fetched. cbn [rev]. rewrite map_app, concat_app. cbn. by rewrite app_nil_r.
Qed.

(** Fetching moves a chunk from the source to the list, and keeps the text. *)
Lemma FetchChunk_spec b p :
  byte_stream_ok b -> finished (chunks_ b) = false ->
  p = Z.of_nat (length (fetched (chunks_ b))) ->
  byte_stream_ok (FetchChunk b p) /\ data (FetchChunk b p) = data b /\
  (length (source_ (FetchChunk b p)) < length (source_ b) \/
   finished (chunks_ (FetchChunk b p)) = true)%nat.
Proof.
  intros Hok Hf ->. unfold FetchChunk. cbn in Hok.
  destruct (GetMoreData (source_ b)) as [d source'] eqn:E. cbn -[fetched pending]. rewrite Hf.
  split; [done|]. unfold chunk_length. cbn [chunk_data]. rewrite fetched_cons. cbn [chunk_data].
  destruct (source_ b) as [|d' source'']; cbn in E; injection E as <- <-.
  - cbn [length Z.of_nat Z.eqb pending]. rewrite !app_nil_r. split; [done|]. by right.
  - split; [|left; cbn; lia]. destruct d' as [|c d']; cbn [length Z.of_nat Z.eqb pending];
      [by rewrite !app_nil_r|by rewrite <- app_assoc].
Qed.

(** The position the last chunk ends at. *)
Lemma end_position_fetched back chunks :
  chunks_ok (back :: chunks) -> end_position back = Z.of_nat (length (fetched (back :: chunks))).
Proof.
  intros [Hp _]. unfold end_position, chunk_length. rewrite fetched_cons, length_app. lia.
Qed.

Lemma walk_forwards_spec fuel p b :
  (length (source_ b) + (if finished (chunks_ b) then 0 else 1) < fuel)%nat ->
  byte_stream_ok b -> chunks_ b <> [] ->
  exists b', walk_forwards fuel p b = Ok b' /\ byte_stream_ok b' /\ data b' = data b /\
    chunks_ b' <> [] /\
    (p < Z.of_nat (length (fetched (chunks_ b'))) \/ finished (chunks_ b') = true).
Proof.
  revert b. induction fuel as [|n IH]; intros b Hfuel Hok Hne; [lia|].
  destruct b as [source chunks]. cbn [chunks_ source_] in *.
  destruct chunks as [|back chunks]; [done|]. cbn [walk_forwards chunks_].
  pose proof (end_position_fetched _ _ Hok) as He.
  destruct ((end_position back <=? p) && (0 <? chunk_length back)) eqn:E.
  - bool_to_prop.
    assert (Hf : finished (back :: chunks) = false) by (cbn; apply Z.eqb_neq; lia).
    rewrite Hf in Hfuel.
    destruct (FetchChunk_spec (mkChunkedStream source (back :: chunks)) (end_position back))
      as (Hok' & Hd & Hlt); [done|done|done|].
    destruct (IH (FetchChunk (mkChunkedStream source (back :: chunks)) (end_position back)))
      as (b' & E' & H1 & H2 & H3 & H4); [|done| |].
    + cbn [source_ chunks_] in *. destruct Hlt as [Hlt|Hfin].
      * clear -Hlt Hfuel; case_match; lia.
      * rewrite Hfin. unfold FetchChunk. cbn. destruct source; cbn in *; lia.
    + unfold FetchChunk. by destruct (GetMoreData _).
    + exists b'. rewrite H2. done.
  - eexists. split; [done|]. split; [done|]. split; [done|]. split; [done|].
    cbn [chunks_]. rewrite <- He. bool_to_prop. cbn [finished].
    destruct E as [E|E]; bool_to_prop; [by left|right].
    unfold chunk_length in *. apply Z.eqb_eq. lia.
Qed.

(** The chunk found holds the text from [p] on, unless [p] is behind the end. *)
Lemma walk_backwards_spec p chunks :
  0 <= p -> chunks_ok chunks -> chunks <> [] ->
  (p < Z.of_nat (length (fetched chunks)) \/ finished chunks = true) ->
  exists c, walk_backwards p chunks = Some c /\
    (0 <= position c <= p /\ position c <= Z.of_nat (length (fetched chunks))) /\
    (exists tail, drop (Z.to_nat (position c)) (fetched chunks) = chunk_data c ++ tail) /\
    (p < end_position c \/ Z.of_nat (length (fetched chunks)) <= p).
Proof.
  intros Hp. induction chunks as [|c chunks IH]; intros Hok Hne Hor; [done|].
  cbn [walk_backwards]. pose proof (end_position_fetched _ _ Hok) as He.
  destruct Hok as (Hpos & Hf & Hok). rewrite fetched_cons in *.
  destruct (Z.leb_spec (position c) p) as [Hle|Hgt].
  - exists c. split; [done|]. split; [rewrite length_app; lia|].
    rewrite Hpos, Nat2Z.id, drop_app_length.
    split; [exists []; by rewrite app_nil_r|].
    destruct (decide (p < end_position c)) as [|Hge]; [by left|right].
    rewrite length_app in *. lia.
  - destruct chunks as [|c' chunks']; [cbn in Hpos; lia|].
    destruct (IH Hok) as (c1 & E & [Hle Hle'] & [tail Ht] & Hend); [done|left; lia|].
    exists c1. split; [done|]. split; [rewrite length_app; lia|].
    assert (Hlt : (Z.to_nat (position c1) <= length (fetched (c' :: chunks')))%nat) by lia.
    split.
    + exists (tail ++ chunk_data c). rewrite drop_app_le by done.
      by rewrite Ht, <- app_assoc.
    + destruct Hend as [|Hend]; [by left|lia].
Qed.

Lemma FindChunk_spec b p :
  0 <= p -> byte_stream_ok b ->
  exists c b', FindChunk b p = Ok (c, b') /\ byte_stream_ok b' /\ data b' = data b /\
    0 <= position c <= p /\
    (exists tail, drop (Z.to_nat (position c)) (data b) = chunk_data c ++ tail) /\
    (p < end_position c \/ Z.of_nat (length (data b)) <= p).
Proof.
  intros Hp Hok. unfold FindChunk.
  set (b1 := match chunks_ b with [] => FetchChunk b 0 | _ => b end).
  assert (H1 : byte_stream_ok b1 /\ data b1 = data b /\ chunks_ b1 <> []).
  { unfold b1. destruct (chunks_ b) eqn:E; [|by rewrite E].
    destruct (FetchChunk_spec b 0) as (H1 & H2 & _); [done|by rewrite E|by rewrite E|].
    split; [done|]. split; [done|]. unfold FetchChunk. by destruct (GetMoreData _). }
  destruct H1 as (Hok1 & Hd1 & Hne1).
  destruct (walk_forwards_spec (S (S (length (source_ b1)))) p b1)
    as (b2 & -> & Hok2 & Hd2 & Hne2 & Hor); [destruct (finished _); lia|done|done|].
  destruct (walk_backwards_spec p (chunks_ b2) Hp Hok2 Hne2 Hor)
    as (c & -> & [Hle Hpos] & [tail Ht] & Hend).
  exists c, b2. split; [done|]. split; [done|]. split; [congruence|]. split; [done|].
  rewrite <- Hd1, <- Hd2. cbn -[fetched].
  split.
  - rewrite drop_app_le, Ht, <- app_assoc by lia. by eexists.
  - destruct Hend as [|Hend]; [by left|]. destruct Hor as [|Hfin]; [lia|].
    right. rewrite Hfin, app_nil_r. done.
Qed.

#[export] Instance ChunkedStream_ok : ByteStreamOK ChunkedStream.
Proof.
  split. intros b p Hok Hp.
  destruct (FindChunk_spec b p Hp Hok) as (c & b' & E & Hok' & Hd & Hle & [tail Ht] & Hend).
  cbn [GetDataAt ChunkedStream_ByteStream]. unfold ChunkedStream_GetDataAt. rewrite E.
  eexists _, _. split; [reflexivity|]. split; [done|]. split; [done|].
  set (l := data b) in *.
  assert (Hdrop : drop (Z.to_nat p) l = drop (Z.to_nat (p - position c)) (chunk_data c ++ tail)).
  { rewrite <- Ht, drop_drop. f_equal. lia. }
  rewrite Hdrop. unfold range_of, end_position, chunk_length in *.
  set (n := length (chunk_data c)) in *.
  destruct (decide (p - position c <= Z.of_nat n)) as [Hin|Hout].
  - rewrite Z.min_r by lia. rewrite drop_app_le by lia.
    rewrite take_ge by (rewrite length_drop; unfold n in *; lia).
    split; [by eexists|]. intros Hnil. apply drop_nil_length in Hnil. fold n in Hnil.
    destruct Hend as [|Hend]; [lia|]. rewrite <- drop_app_le, <- Hdrop by (fold n; lia).
    apply drop_ge. lia.
  - rewrite Z.min_l by lia. replace (Z.to_nat (Z.of_nat n - Z.of_nat n)) with 0%nat by lia. cbn.
    split; [by eexists|]. intros _. destruct Hend as [|Hend]; [lia|].
    rewrite <- Hdrop. apply drop_ge. lia.
Qed.

(** *** The views meet the contract of ReadBlock *)

Lemma windows1252_table_uc16 : Forall is_uc16 kWindows1252ToUC16.
Proof.
  apply Forall_forall. intros x Hx.
  assert (H : forallb (fun c => (0 <=? c) && (c <? 2 ^ 16)) kWindows1252ToUC16 = true)
    by (vm_compute; reflexivity).
  rewrite forallb_forall in H. apply H in Hx. bool_to_prop. done.
Qed.

Lemma windows1252_char_uc16 c : is_uc16 (windows1252_char c).
Proof.
  unfold windows1252_char. destruct (nth_in_or_default (Z.to_nat c) kWindows1252ToUC16 0) as [H| ->].
  - pose proof windows1252_table_uc16 as Hf. rewrite Forall_forall in Hf. auto.
  - unfold is_uc16. lia.
Qed.

Section ViewsOK.
Context {B : Type} {BS : ByteStream B} {BOK : ByteStreamOK B}.

(** A block copied from the start of a range of the text. *)
Lemma block_of_range (text range tail : list Z) n p :
  drop p text = range ++ tail ->
  take n range = take (length (take n range)) (drop p text).
Proof.
  intros ->. rewrite length_take. rewrite take_app_le by lia.
  destruct (decide (n <= length range)%nat).
  - by rewrite Nat.min_l by lia.
  - rewrite Nat.min_r by lia. by rewrite !take_ge by lia.
Qed.

(** What [ReadBlock] has to establish, for a view that copies at most [n]
    characters of the range and maps them with [f]. *)
Lemma loaded_block_ok {D} {BR : BlockReader D} (d' : D) (block : list Z) p e l :
  source_ok d' -> contents d' = l -> 0 <= p ->
  block = take (length block) (drop (Z.to_nat p) l) ->
  (block = [] -> drop (Z.to_nat p) l = []) ->
  let st' := mkStream d' block 0 p e in
  stream_ok st' /\ contents (byte_stream_ st') = l /\ has_parser_error_ st' = e /\
  pos st' = p /\ buffer_cursor_ st' <= buffer_end_ st' /\
  (p < Z.of_nat (length l) -> 0 < buffer_end_ st').
Proof.
  intros Hs Hc Hp Hb Hn. cbn. unfold pos, buffer_end_. cbn.
  split; [split; [done|]; split; [done|]; split; [cbn; lia|]; cbn; by rewrite Hc|].
  split; [done|]. split; [done|]. split; [lia|]. split; [lia|]. intros Hlt.
  destruct block as [|c block]; [|cbn; lia]. specialize (Hn eq_refl).
  apply drop_nil_length in Hn. lia.
Qed.

Lemma get_data_spec b p :
  byte_stream_ok b -> 0 <= p ->
  exists range b', get_data b p = (range, b') /\ byte_stream_ok b' /\ data b' = data b /\
    (exists tail, drop (Z.to_nat p) (data b) = range ++ tail) /\
    (range = [] -> drop (Z.to_nat p) (data b) = []).
Proof.
  intros Hb Hp. destruct (GetDataAt_spec b p Hb Hp) as (range & b' & E & H).
  exists range, b'. unfold get_data. by rewrite E.
Qed.

Lemma latin1_uc16 l : Forall is_latin1 l -> Forall is_uc16 l.
Proof. apply Forall_impl. unfold is_latin1, is_uc16. lia. Qed.

Lemma take_kBufferSize_nil (range : list Z) :
  take (Z.to_nat (Z.min kBufferSize (Z.of_nat (length range)))) range = [] -> range = [].
Proof.
  intros H. apply (f_equal length) in H. rewrite length_take in H. unfold kBufferSize in H.
  destruct range; [done|cbn in H; lia].
Qed.

#[export] Instance Unbuffered_ok : BlockReaderOK (UnbufferedCharacterStream B).
Proof.
  split; [by intros d [_ H]|]. intros [[b] buf cur bp e] p [Hb Hu] Hp.
  unfold ReadBlock, Unbuffered_BlockReader, Unbuffered_ReadBlock. cbn [byte_stream_ unbuffered_bytes] in *.
  destruct (get_data_spec b p Hb Hp) as (range & b' & -> & Hb' & Hd & [tail Ht] & Hn).
  cbn [has_parser_error_].
  destruct (loaded_block_ok (mkUnbuffered b') range p e (data b)) as (H1 & H2 & H3 & H4 & H5 & H6);
    [by split; [|rewrite <- Hd in Hu]|done|done|by rewrite Ht, take_app_length|done|].
  unfold buffer_end_ in *. cbn in *.
  split; [done|]. split; [done|]. split; [done|]. split; [done|]. split; [done|].
  destruct range; cbn in *; (split; [done|]); intros Hlt; [specialize (H6 Hlt); lia|done].
Qed.

#[export] Instance Buffered_ok : BlockReaderOK (BufferedCharacterStream B).
Proof.
  split; [intros d [_ H]; by apply latin1_uc16|]. intros [[b] buf cur bp e] p [Hb Hu] Hp.
  unfold ReadBlock, Buffered_BlockReader, Buffered_ReadBlock. cbn [byte_stream_ buffered_bytes] in *.
  destruct (get_data_spec b p Hb Hp) as (range & b' & -> & Hb' & Hd & [tail Ht] & Hn).
  cbn [has_parser_error_].
  assert (Hs : source_ok (mkBuffered b')) by (split; [done|cbn; by rewrite Hd]).
  destruct (Z.eqb_spec (Z.of_nat (length range)) 0) as [E|E].
  - destruct range; [|done]. rewrite Ht in Hn. 
    destruct (loaded_block_ok (mkBuffered b') [] p e (data b)) as (H1 & H2 & H3 & H4 & H5 & H6);
      [done|done|done|done|intros _; rewrite Ht; auto|].
    unfold buffer_end_ in *. cbn in *. repeat (split; [done|]). intros Hlt. specialize (H6 Hlt). lia.
  - set (n := Z.to_nat _).
    destruct (loaded_block_ok (mkBuffered b') (take n range) p e (data b))
      as (H1 & H2 & H3 & H4 & H5 & H6);
      [done|done|done|by eapply block_of_range|intros H; by apply Hn, take_kBufferSize_nil|].
    assert (Hl : take n range <> [])
      by (intros H; apply take_kBufferSize_nil in H; by subst).
    unfold buffer_end_ in *. cbn in *. repeat (split; [done|]). split; [|done].
    destruct (take n range); done.
Qed.

#[export] Instance Windows1252_ok : BlockReaderOK (Windows1252CharacterStream B).
Proof.
  split.
  { intros d _. cbn. apply Forall_forall. intros c Hc. apply in_map_iff in Hc as (x & <- & _).
    apply windows1252_char_uc16. }
  intros [[b] buf cur bp e] p [Hb Hu] Hp.
  unfold ReadBlock, Windows1252_BlockReader, Windows1252_ReadBlock.
  cbn [byte_stream_ windows1252_bytes] in *.
  destruct (get_data_spec b p Hb Hp) as (range & b' & -> & Hb' & Hd & [tail Ht] & Hn).
  cbn [has_parser_error_].
  assert (Hs : source_ok (mkWindows1252 b')) by (split; [done|cbn; by rewrite Hd]).
  assert (Hc : contents (mkWindows1252 b') = map windows1252_char (data b)) by (cbn; by rewrite Hd).
  assert (Hm : drop (Z.to_nat p) (map windows1252_char (data b))
               = map windows1252_char range ++ map windows1252_char tail)
    by (by rewrite skipn_map, Ht, map_app).
  destruct (Z.eqb_spec (Z.of_nat (length range)) 0) as [E|E].
  - destruct range; [|done].
    destruct (loaded_block_ok (mkWindows1252 b') [] p e (map windows1252_char (data b)))
      as (H1 & H2 & H3 & H4 & H5 & H6);
      [done|done|done|done|intros _; by rewrite skipn_map, Hn|].
    unfold buffer_end_ in *. cbn in *. repeat (split; [done|]). intros Hlt. specialize (H6 Hlt). lia.
  - set (n := Z.to_nat _).
    destruct (loaded_block_ok (mkWindows1252 b') (map windows1252_char (take n range)) p e
                (map windows1252_char (data b))) as (H1 & H2 & H3 & H4 & H5 & H6);
      [done|done|done| | |].
    + rewrite <- firstn_map. by eapply block_of_range.
    + intros H. apply map_eq_nil, take_kBufferSize_nil in H. by subst.
    + assert (Hl : take n range <> [])
        by (intros H; apply take_kBufferSize_nil in H; by subst).
      unfold buffer_end_ in *. cbn in *. repeat (split; [done|]). split; [|done].
      destruct (take n range); done.
Qed.
End ViewsOK.
