(* ===== verification/ScannerState.v ===== *)
(** * Scanner state

    Models the data members of [Scanner] in [src/parsing/scanner.h], the token
    descriptors and the operations the scanning functions are built from. The
    three pointers [current_], [next_] and [next_next_] into [token_storage_]
    are slots, so that the descriptors they share are shared here. Source
    positions are [int] in the code; they stay below [String::kMaxLength]
    (about 2^29), so they are unbounded integers here. *)

From S2P Require Import Prelude.
From S2P Require Import CharPredicates.
From S2P Require Import Tokens.
From S2P Require Import Keywords.
From S2P Require Import LiteralBuffer.
From S2P Require Import Stream.
From stdpp Require Import base list numbers decidable.
From Stdlib Require Import ZArith Lia Bool.

Local Open Scope Z_scope.
Local Open Scope prog_scope.

(** The messages the scanner reports. *)
Inductive MessageTemplate : Type :=
| kNone
| kInvalidUnicodeEscapeSequence
| kInvalidHexEscapeSequence
| kUndefinedUnicodeCodePoint
| kHtmlCommentInModule
| kInvalidOrUnexpectedToken
| kTemplate8Or9Escape
| kStrict8Or9Escape
| kTemplateOctalLiteral
| kStrictOctalEscape
| kContinuousNumericSeparator
| kTrailingNumericSeparator
| kZeroDigitNumericSeparator
| kStrictOctalLiteral
| kStrictDecimalWithLeadingZero
| kBigIntTooBig.

#[export] Instance MessageTemplate_eq_dec : EqDecision MessageTemplate.
Proof. solve_decision. Defined.

(** ** Scanner::Location *)

Record Location : Type := mkLocation { beg_pos : Z; end_pos : Z }.

Definition Location_length (l : Location) : Z := end_pos l - beg_pos l.
Definition Location_IsValid (l : Location) : bool := IsInRange 32 (beg_pos l) 0 (end_pos l).
Definition Location_invalid : Location := mkLocation (-1) 0.

(** The members of [UnoptimizedCompileFlags] that the scanner reads. *)
Record UnoptimizedCompileFlags : Type := mkFlags {
  is_module : bool;
  flags_source_dialect : SourceDialect
}.

(** ** Scanner::TokenDesc *)

Record TokenDesc : Type := mkTokenDesc {
  location : Location;
  literal_chars : LiteralBuffer;
  raw_literal_chars : LiteralBuffer;
  token : Token.Value;
  invalid_template_escape_message : MessageTemplate;
  invalid_template_escape_location : Location;
  smi_value_ : Z;
  after_line_terminator : bool
}.

Definition TokenDesc_new : TokenDesc :=
  mkTokenDesc (mkLocation 0 0) LiteralBuffer_new LiteralBuffer_new Token.UNINITIALIZED
    kNone (mkLocation 0 0) 0 false.

Section TokenDescSetters.
Definition desc_set_location (v : Location) (d : TokenDesc) : TokenDesc :=
  mkTokenDesc v (literal_chars d) (raw_literal_chars d) (token d)
    (invalid_template_escape_message d) (invalid_template_escape_location d)
    (smi_value_ d) (after_line_terminator d).
Definition desc_set_literal_chars (v : LiteralBuffer) (d : TokenDesc) : TokenDesc :=
  mkTokenDesc (location d) v (raw_literal_chars d) (token d)
    (invalid_template_escape_message d) (invalid_template_escape_location d)
    (smi_value_ d) (after_line_terminator d).
Definition desc_set_raw_literal_chars (v : LiteralBuffer) (d : TokenDesc) : TokenDesc :=
  mkTokenDesc (location d) (literal_chars d) v (token d)
    (invalid_template_escape_message d) (invalid_template_escape_location d)
    (smi_value_ d) (after_line_terminator d).
Definition desc_set_token (v : Token.Value) (d : TokenDesc) : TokenDesc :=
  mkTokenDesc (location d) (literal_chars d) (raw_literal_chars d) v
    (invalid_template_escape_message d) (invalid_template_escape_location d)
    (smi_value_ d) (after_line_terminator d).
Definition desc_set_invalid_template_escape_message (v : MessageTemplate) (d : TokenDesc) : TokenDesc :=
  mkTokenDesc (location d) (literal_chars d) (raw_literal_chars d) (token d) v
    (invalid_template_escape_location d) (smi_value_ d) (after_line_terminator d).
Definition desc_set_invalid_template_escape_location (v : Location) (d : TokenDesc) : TokenDesc :=
  mkTokenDesc (location d) (literal_chars d) (raw_literal_chars d) (token d)
    (invalid_template_escape_message d) v (smi_value_ d) (after_line_terminator d).
Definition desc_set_smi_value (v : Z) (d : TokenDesc) : TokenDesc :=
  mkTokenDesc (location d) (literal_chars d) (raw_literal_chars d) (token d)
    (invalid_template_escape_message d) (invalid_template_escape_location d) v
    (after_line_terminator d).
Definition desc_set_after_line_terminator (v : bool) (d : TokenDesc) : TokenDesc :=
  mkTokenDesc (location d) (literal_chars d) (raw_literal_chars d) (token d)
    (invalid_template_escape_message d) (invalid_template_escape_location d)
    (smi_value_ d) v.
End TokenDescSetters.

(** [TokenDesc token_storage_[3]] and pointers into it. *)
Inductive Slot : Type := Slot0 | Slot1 | Slot2.

#[export] Instance Slot_eq_dec : EqDecision Slot.
Proof. solve_decision. Defined.

Record TokenStorage : Type := mkStorage { slot0 : TokenDesc; slot1 : TokenDesc; slot2 : TokenDesc }.

Definition storage_get (p : Slot) (ts : TokenStorage) : TokenDesc :=
  match p with Slot0 => slot0 ts | Slot1 => slot1 ts | Slot2 => slot2 ts end.

Definition storage_set (p : Slot) (d : TokenDesc) (ts : TokenStorage) : TokenStorage :=
  match p with
  | Slot0 => mkStorage d (slot1 ts) (slot2 ts)
  | Slot1 => mkStorage (slot0 ts) d (slot2 ts)
  | Slot2 => mkStorage (slot0 ts) (slot1 ts) d
  end.

Definition storage_map (f : TokenDesc -> TokenDesc) (ts : TokenStorage) : TokenStorage :=
  mkStorage (f (slot0 ts)) (f (slot1 ts)) (f (slot2 ts)).

(** ** Scanner *)

Record Scanner (D : Type) : Type := mkScanner {
  flags_ : UnoptimizedCompileFlags;
  current_ : Slot;
  next_ : Slot;
  next_next_ : Slot;
  source_ : Utf16CharacterStream D;
  c0_ : Z;
  token_storage_ : TokenStorage;
  found_html_comment_ : bool;
  source_url_ : LiteralBuffer;
  source_mapping_url_ : LiteralBuffer;
  source_dialect_name_ : LiteralBuffer;
  source_dialect_ : SourceDialect;
  saw_non_comment_token_ : bool;
  found_source_dialect_comment_ : bool;
  octal_pos_ : Location;
  octal_message_ : MessageTemplate;
  scanner_error_ : MessageTemplate;
  scanner_error_location_ : Location
}.
Arguments mkScanner {D}.
Arguments flags_ {D}.
Arguments current_ {D}.
Arguments next_ {D}.
Arguments next_next_ {D}.
Arguments source_ {D}.
Arguments c0_ {D}.
Arguments token_storage_ {D}.
Arguments found_html_comment_ {D}.
Arguments source_url_ {D}.
Arguments source_mapping_url_ {D}.
Arguments source_dialect_name_ {D}.
Arguments source_dialect_ {D}.
Arguments saw_non_comment_token_ {D}.
Arguments found_source_dialect_comment_ {D}.
Arguments octal_pos_ {D}.
Arguments octal_message_ {D}.
Arguments scanner_error_ {D}.
Arguments scanner_error_location_ {D}.

Section Setters.
Context {D : Type}.

Definition set_flags (v : UnoptimizedCompileFlags) (s : Scanner D) : Scanner D :=
  mkScanner v (current_ s) (next_ s) (next_next_ s) (source_ s) (c0_ s)
    (token_storage_ s) (found_html_comment_ s) (source_url_ s)
    (source_mapping_url_ s) (source_dialect_name_ s) (source_dialect_ s)
    (saw_non_comment_token_ s) (found_source_dialect_comment_ s) (octal_pos_ s)
    (octal_message_ s) (scanner_error_ s) (scanner_error_location_ s).
Definition set_current (v : Slot) (s : Scanner D) : Scanner D :=
  mkScanner (flags_ s) v (next_ s) (next_next_ s) (source_ s) (c0_ s)
    (token_storage_ s) (found_html_comment_ s) (source_url_ s)
    (source_mapping_url_ s) (source_dialect_name_ s) (source_dialect_ s)
    (saw_non_comment_token_ s) (found_source_dialect_comment_ s) (octal_pos_ s)
    (octal_message_ s) (scanner_error_ s) (scanner_error_location_ s).
Definition set_next (v : Slot) (s : Scanner D) : Scanner D :=
  mkScanner (flags_ s) (current_ s) v (next_next_ s) (source_ s) (c0_ s)
    (token_storage_ s) (found_html_comment_ s) (source_url_ s)
    (source_mapping_url_ s) (source_dialect_name_ s) (source_dialect_ s)
    (saw_non_comment_token_ s) (found_source_dialect_comment_ s) (octal_pos_ s)
    (octal_message_ s) (scanner_error_ s) (scanner_error_location_ s).
Definition set_next_next (v : Slot) (s : Scanner D) : Scanner D :=
  mkScanner (flags_ s) (current_ s) (next_ s) v (source_ s) (c0_ s)
    (token_storage_ s) (found_html_comment_ s) (source_url_ s)
    (source_mapping_url_ s) (source_dialect_name_ s) (source_dialect_ s)
    (saw_non_comment_token_ s) (found_source_dialect_comment_ s) (octal_pos_ s)
    (octal_message_ s) (scanner_error_ s) (scanner_error_location_ s).
Definition set_source (v : Utf16CharacterStream D) (s : Scanner D) : Scanner D :=
  mkScanner (flags_ s) (current_ s) (next_ s) (next_next_ s) v (c0_ s)
    (token_storage_ s) (found_html_comment_ s) (source_url_ s)
    (source_mapping_url_ s) (source_dialect_name_ s) (source_dialect_ s)
    (saw_non_comment_token_ s) (found_source_dialect_comment_ s) (octal_pos_ s)
    (octal_message_ s) (scanner_error_ s) (scanner_error_location_ s).
Definition set_c0 (v : Z) (s : Scanner D) : Scanner D :=
  mkScanner (flags_ s) (current_ s) (next_ s) (next_next_ s) (source_ s) v
    (token_storage_ s) (found_html_comment_ s) (source_url_ s)
    (source_mapping_url_ s) (source_dialect_name_ s) (source_dialect_ s)
    (saw_non_comment_token_ s) (found_source_dialect_comment_ s) (octal_pos_ s)
    (octal_message_ s) (scanner_error_ s) (scanner_error_location_ s).
Definition set_token_storage (v : TokenStorage) (s : Scanner D) : Scanner D :=
  mkScanner (flags_ s) (current_ s) (next_ s) (next_next_ s) (source_ s) (c0_ s) v
    (found_html_comment_ s) (source_url_ s) (source_mapping_url_ s)
    (source_dialect_name_ s) (source_dialect_ s) (saw_non_comment_token_ s)
    (found_source_dialect_comment_ s) (octal_pos_ s) (octal_message_ s)
    (scanner_error_ s) (scanner_error_location_ s).
Definition set_found_html_comment (v : bool) (s : Scanner D) : Scanner D :=
  mkScanner (flags_ s) (current_ s) (next_ s) (next_next_ s) (source_ s) (c0_ s)
    (token_storage_ s) v (source_url_ s) (source_mapping_url_ s)
    (source_dialect_name_ s) (source_dialect_ s) (saw_non_comment_token_ s)
    (found_source_dialect_comment_ s) (octal_pos_ s) (octal_message_ s)
    (scanner_error_ s) (scanner_error_location_ s).
Definition set_source_url (v : LiteralBuffer) (s : Scanner D) : Scanner D :=
  mkScanner (flags_ s) (current_ s) (next_ s) (next_next_ s) (source_ s) (c0_ s)
    (token_storage_ s) (found_html_comment_ s) v (source_mapping_url_ s)
    (source_dialect_name_ s) (source_dialect_ s) (saw_non_comment_token_ s)
    (found_source_dialect_comment_ s) (octal_pos_ s) (octal_message_ s)
    (scanner_error_ s) (scanner_error_location_ s).
Definition set_source_mapping_url (v : LiteralBuffer) (s : Scanner D) : Scanner D :=
  mkScanner (flags_ s) (current_ s) (next_ s) (next_next_ s) (source_ s) (c0_ s)
    (token_storage_ s) (found_html_comment_ s) (source_url_ s) v
    (source_dialect_name_ s) (source_dialect_ s) (saw_non_comment_token_ s)
    (found_source_dialect_comment_ s) (octal_pos_ s) (octal_message_ s)
    (scanner_error_ s) (scanner_error_location_ s).
Definition set_source_dialect_name (v : LiteralBuffer) (s : Scanner D) : Scanner D :=
  mkScanner (flags_ s) (current_ s) (next_ s) (next_next_ s) (source_ s) (c0_ s)
    (token_storage_ s) (found_html_comment_ s) (source_url_ s)
    (source_mapping_url_ s) v (source_dialect_ s) (saw_non_comment_token_ s)
    (found_source_dialect_comment_ s) (octal_pos_ s) (octal_message_ s)
    (scanner_error_ s) (scanner_error_location_ s).
Definition set_source_dialect (v : SourceDialect) (s : Scanner D) : Scanner D :=
  mkScanner (flags_ s) (current_ s) (next_ s) (next_next_ s) (source_ s) (c0_ s)
    (token_storage_ s) (found_html_comment_ s) (source_url_ s)
    (source_mapping_url_ s) (source_dialect_name_ s) v (saw_non_comment_token_ s)
    (found_source_dialect_comment_ s) (octal_pos_ s) (octal_message_ s)
    (scanner_error_ s) (scanner_error_location_ s).
Definition set_saw_non_comment_token (v : bool) (s : Scanner D) : Scanner D :=
  mkScanner (flags_ s) (current_ s) (next_ s) (next_next_ s) (source_ s) (c0_ s)
    (token_storage_ s) (found_html_comment_ s) (source_url_ s)
    (source_mapping_url_ s) (source_dialect_name_ s) (source_dialect_ s) v
    (found_source_dialect_comment_ s) (octal_pos_ s) (octal_message_ s)
    (scanner_error_ s) (scanner_error_location_ s).
Definition set_found_source_dialect_comment (v : bool) (s : Scanner D) : Scanner D :=
  mkScanner (flags_ s) (current_ s) (next_ s) (next_next_ s) (source_ s) (c0_ s)
    (token_storage_ s) (found_html_comment_ s) (source_url_ s)
    (source_mapping_url_ s) (source_dialect_name_ s) (source_dialect_ s)
    (saw_non_comment_token_ s) v (octal_pos_ s) (octal_message_ s) (scanner_error_ s)
    (scanner_error_location_ s).
Definition set_octal_pos (v : Location) (s : Scanner D) : Scanner D :=
  mkScanner (flags_ s) (current_ s) (next_ s) (next_next_ s) (source_ s) (c0_ s)
    (token_storage_ s) (found_html_comment_ s) (source_url_ s)
    (source_mapping_url_ s) (source_dialect_name_ s) (source_dialect_ s)
    (saw_non_comment_token_ s) (found_source_dialect_comment_ s) v (octal_message_ s)
    (scanner_error_ s) (scanner_error_location_ s).
Definition set_octal_message (v : MessageTemplate) (s : Scanner D) : Scanner D :=
  mkScanner (flags_ s) (current_ s) (next_ s) (next_next_ s) (source_ s) (c0_ s)
    (token_storage_ s) (found_html_comment_ s) (source_url_ s)
    (source_mapping_url_ s) (source_dialect_name_ s) (source_dialect_ s)
    (saw_non_comment_token_ s) (found_source_dialect_comment_ s) (octal_pos_ s) v
    (scanner_error_ s) (scanner_error_location_ s).
Definition set_scanner_error (v : MessageTemplate) (s : Scanner D) : Scanner D :=
  mkScanner (flags_ s) (current_ s) (next_ s) (next_next_ s) (source_ s) (c0_ s)
    (token_storage_ s) (found_html_comment_ s) (source_url_ s)
    (source_mapping_url_ s) (source_dialect_name_ s) (source_dialect_ s)
    (saw_non_comment_token_ s) (found_source_dialect_comment_ s) (octal_pos_ s)
    (octal_message_ s) v (scanner_error_location_ s).
Definition set_scanner_error_location (v : Location) (s : Scanner D) : Scanner D :=
  mkScanner (flags_ s) (current_ s) (next_ s) (next_next_ s) (source_ s) (c0_ s)
    (token_storage_ s) (found_html_comment_ s) (source_url_ s)
    (source_mapping_url_ s) (source_dialect_name_ s) (source_dialect_ s)
    (saw_non_comment_token_ s) (found_source_dialect_comment_ s) (octal_pos_ s)
    (octal_message_ s) (scanner_error_ s) v.
End Setters.

Section LowLevel.
Context {D : Type} {BR : BlockReader D}.
Implicit Types s : Scanner D.

(** [next()], [current()] and [next_next()] *)
Definition next s : TokenDesc := storage_get (next_ s) (token_storage_ s).
Definition current s : TokenDesc := storage_get (current_ s) (token_storage_ s).
Definition next_next s : TokenDesc := storage_get (next_next_ s) (token_storage_ s).

Definition update_slot (p : Slot) (f : TokenDesc -> TokenDesc) s : Scanner D :=
  set_token_storage (storage_set p (f (storage_get p (token_storage_ s))) (token_storage_ s)) s.

Definition update_next (f : TokenDesc -> TokenDesc) s : Scanner D :=
  update_slot (next_ s) f s.

(** The constructor and [Init]. *)
Definition Scanner_new (source : Utf16CharacterStream D) (flags : UnoptimizedCompileFlags) :
    Scanner D :=
  mkScanner flags Slot0 Slot1 Slot2 source kEndOfInput
    (mkStorage TokenDesc_new TokenDesc_new TokenDesc_new) false
    LiteralBuffer_new LiteralBuffer_new LiteralBuffer_new (flags_source_dialect flags)
    false false Location_invalid kNone kNone (mkLocation 0 0).

Definition source_pos s : Z := pos (source_ s) - 1.

Definition has_error s : bool := negb (bool_decide (scanner_error_ s = kNone)).
Definition has_parser_error s : bool := has_parser_error_ (source_ s).

Definition ReportScannerError (location : Location) (error : MessageTemplate) :
    M (Scanner D) unit :=
  modify (fun s =>
    if has_error s then s
    else set_scanner_error_location location (set_scanner_error error s)).

Definition ReportScannerErrorAt (pos : Z) (error : MessageTemplate) : M (Scanner D) unit :=
  ReportScannerError (mkLocation pos (pos + 1)) error.

Definition mark_illegal (d : TokenDesc) : TokenDesc :=
  if bool_decide (token d = Token.UNINITIALIZED) then d
  else desc_set_token Token.ILLEGAL d.

(** [Scanner::set_parser_error] *)
Definition scanner_set_parser_error s : Scanner D :=
  if has_parser_error s then s
  else
    set_token_storage (storage_map mark_illegal (token_storage_ s))
      (set_source (set_parser_error (source_ s)) (set_c0 kEndOfInput s)).

Definition scanner_reset_parser_error_flag s : Scanner D :=
  set_source (reset_parser_error_flag (source_ s)) s.

(** A buffer operation on the next token, failing on a store out of bounds. *)
Definition buffer_op (get : TokenDesc -> LiteralBuffer)
    (set : LiteralBuffer -> TokenDesc -> TokenDesc)
    (op : LiteralBuffer -> option LiteralBuffer) : M (Scanner D) unit :=
  fun s =>
    match op (get (next s)) with
    | Some b => Ok (tt, update_next (set b) s)
    | None => Undefined
    end.

(** [AddLiteralChar(base::uc32)], [AddLiteralChar(char)], [AddRawLiteralChar] *)
Definition AddLiteralChar (c : Z) : M (Scanner D) unit :=
  buffer_op literal_chars desc_set_literal_chars (fun b => AddChar b c).
Definition AddLiteralAsciiChar (c : Z) : M (Scanner D) unit :=
  buffer_op literal_chars desc_set_literal_chars (fun b => AddAsciiChar b c).
Definition AddRawLiteralChar (c : Z) : M (Scanner D) unit :=
  buffer_op raw_literal_chars desc_set_raw_literal_chars (fun b => AddChar b c).

Definition StartLiteral : M (Scanner D) unit :=
  modify (update_next (fun d => desc_set_literal_chars (Start (literal_chars d)) d)).
Definition StartRawLiteral : M (Scanner D) unit :=
  modify (update_next (fun d => desc_set_raw_literal_chars (Start (raw_literal_chars d)) d)).

(** [c0_ = source_->Advance()] *)
Definition AdvanceSource : M (Scanner D) unit :=
  modify (fun s =>
    let '(c, st) := Stream.Advance (source_ s) in set_c0 c (set_source st s)).

(** [Advance<capture_raw>()] *)
Definition Advance (capture_raw : bool) : M (Scanner D) unit :=
  (if capture_raw then let* c := gets c0_ in AddRawLiteralChar c else ret tt) ;;;
  AdvanceSource.

Definition AddLiteralCharAdvance : M (Scanner D) unit :=
  let* c := gets c0_ in AddLiteralChar c ;;; Advance false.

(** [AdvanceUntil(check)]: the check updates locals of type [L] and members of
    the scanner other than the stream. *)
Definition run_check {L} (check : Z -> L -> M (Scanner D) (bool * L)) (c : Z)
    (t : L * Scanner D) : Res (bool * (L * Scanner D)) :=
  match check c (fst t) (snd t) with
  | Ok ((found, l), s) => Ok (found, (l, s))
  | OutOfFuel => OutOfFuel
  | Undefined => Undefined
  end.

Definition AdvanceUntil {L} (check : Z -> L -> M (Scanner D) (bool * L)) (l : L) :
    M (Scanner D) L :=
  fun s =>
    match Stream.AdvanceUntil (run_check check) (l, s) (source_ s) with
    | Ok (c, (l, s), st) => Ok (l, set_c0 c (set_source st s))
    | OutOfFuel => OutOfFuel
    | Undefined => Undefined
    end.

Definition CombineSurrogatePairM : M (Scanner D) bool :=
  fun s =>
    if IsLeadSurrogate (int32 (c0_ s)) then
      let '(c1, st) := Stream.Advance (source_ s) in
      if IsTrailSurrogate (int32 c1)
      then Ok (true, set_c0 (CombineSurrogatePair (c0_ s) c1) (set_source st s))
      else Ok (false, set_source (Back st) s)
    else Ok (false, s).

Definition PushBack (ch : Z) : M (Scanner D) unit :=
  modify (fun s => set_c0 ch (set_source (Back (source_ s)) s)).

Definition PeekChar : M (Scanner D) Z :=
  fun s => let '(c, st) := Peek (source_ s) in Ok (c, set_source st s).

(** [Select(tok)] and [Select(next, then, else_)] *)
Definition Select (tok : Token.Value) : M (Scanner D) Token.Value :=
  Advance false ;;; ret tok.

Definition SelectIf (next : Z) (then_ else_ : Token.Value) : M (Scanner D) Token.Value :=
  Advance false ;;;
  let* c := gets c0_ in
  if c =? next then Advance false ;;; ret then_ else ret else_.

(** The number of characters from [c0_] on: the bound of the scanning loops. *)
Definition input_left s : nat :=
  if c0_ s =? kEndOfInput then 0 else S (length (rest (source_ s))).

(** A [while] loop over the input. *)
Definition scan_loop {A B} (body : A -> M (Scanner D) (A + B)) (a : A) : M (Scanner D) B :=
  fun s => loop (S (S (input_left s))) body a s.
End LowLevel.
