(* ===== verification/Literals.v ===== *)
(** * Scanning literals

    Models the member functions of [Scanner] that scan escape sequences, string
    literals, numbers, identifiers, keywords and private names
    ([src/parsing/scanner.cc], [scanner-inl.h]), one definition per function,
    over the state of [ScannerState.v]. Template parameters ([capture_raw], [unicode]) are
    arguments. [while] loops are [scan_loop]s, whose fuel is the number of
    characters left plus two. *)

From S2P Require Import Prelude.
From S2P Require Import CharPredicates.
From S2P Require Import Tokens.
From S2P Require Import Keywords.
From S2P Require Import ScanTables.
From S2P Require Import LiteralBuffer.
From S2P Require Import Stream.
From S2P Require Import ScannerState.
From stdpp Require Import base list numbers decidable.
From Stdlib Require Import ZArith Lia Bool.

Local Open Scope string_scope.
Local Open Scope Z_scope.
Local Open Scope prog_scope.

Definition kInvalidSequence : Z := 2 ^ 32 - 1.
Definition Invalid : Z := kInvalidSequence.
Definition IsInvalid (c : Z) : bool := c =? Invalid.

(** Implicit conversion of a character to [char]. *)
Definition to_char (c : Z) : Z :=
  let u := uint8 c in if u <? 128 then u else u - 256.

Section Scanning.
Context {D : Type} {BR : BlockReader D} {U : UnicodeData} {C : BuildConfig}.
Local Abbreviation Scanner := (Scanner D).
Local Abbreviation SM := (M Scanner).

(** ** Escape sequences *)

(** The loop of [ScanHexNumber], [n] iterations before its end. *)
Fixpoint ScanHexNumber_loop (capture_raw unicode : bool) (begin expected_length : Z)
    (n : nat) (x : Z) : SM Z :=
  match n with
  | O => ret x
  | S n' =>
      let* c0 := gets c0_ in
      let d := HexValue c0 in
      if d <? 0 then
        ReportScannerError (mkLocation begin (begin + expected_length + 2))
          (if unicode then kInvalidUnicodeEscapeSequence else kInvalidHexEscapeSequence) ;;;
        ret Invalid
      else
        Advance capture_raw ;;;
        ScanHexNumber_loop capture_raw unicode begin expected_length n' (uint32 (x * 16 + d))
  end.

Definition ScanHexNumber (capture_raw unicode : bool) (expected_length : Z) : SM Z :=
  let* begin := gets (fun s => source_pos s - 2) in
  ScanHexNumber_loop capture_raw unicode begin expected_length (Z.to_nat expected_length) 0.

Definition ScanUnlimitedLengthHexNumber (capture_raw : bool) (max_value beg_pos : Z) : SM Z :=
  let* c0 := gets c0_ in
  let d := HexValue c0 in
  if d <? 0 then ret Invalid
  else
    scan_loop
      (fun '(x, d) =>
         if d <? 0 then ret (inr x)
         else
           let x := uint32 (x * 16 + d) in
           if max_value <? x then
             let* p := gets source_pos in
             ReportScannerError (mkLocation beg_pos (p + 1)) kUndefinedUnicodeCodePoint ;;;
             ret (inr Invalid)
           else
             Advance capture_raw ;;;
             let* c0 := gets c0_ in
             ret (inl (x, HexValue c0)))
      (0, d).

Definition ScanUnicodeEscape (capture_raw : bool) : SM Z :=
  let* c0 := gets c0_ in
  if c0 =? "{"%uc then
    let* begin := gets (fun s => source_pos s - 2) in
    Advance capture_raw ;;;
    let* cp := ScanUnlimitedLengthHexNumber capture_raw kMaxCodePoint begin in
    let* c0 := gets c0_ in
    if (cp =? kInvalidSequence) || negb (c0 =? "}"%uc) then
      let* p := gets source_pos in
      ReportScannerErrorAt p kInvalidUnicodeEscapeSequence ;;;
      ret Invalid
    else Advance capture_raw ;;; ret cp
  else ScanHexNumber capture_raw true 4.

Definition ScanIdentifierUnicodeEscape : SM Z :=
  Advance false ;;;
  let* c0 := gets c0_ in
  if negb (c0 =? "u"%uc) then ret Invalid
  else Advance false ;;; ScanUnicodeEscape false.

Definition set_octal (l : Location) (m : MessageTemplate) : SM unit :=
  modify (fun s => set_octal_message m (set_octal_pos l s)).

(** The loop of [ScanOctalEscape]: returns [x] and [i]. *)
Fixpoint ScanOctalEscape_loop (capture_raw : bool) (n : nat) (x i : Z) : SM (Z * Z) :=
  match n with
  | O => ret (x, i)
  | S n' =>
      let* c0 := gets c0_ in
      let d := int32 (c0 - "0"%uc) in
      if (d <? 0) || (7 <? d) then ret (x, i)
      else
        let nx := int32 (x * 8 + d) in
        if 256 <=? nx then ret (x, i)
        else Advance capture_raw ;;; ScanOctalEscape_loop capture_raw n' nx (i + 1)
  end.

Definition ScanOctalEscape (capture_raw : bool) (c length : Z) : SM Z :=
  let* (x, i) :=
    ScanOctalEscape_loop capture_raw (Z.to_nat length) (uint32 (c - "0"%uc)) 0 in
  let* c0 := gets c0_ in
  let* p := gets source_pos in
  (if negb (c =? "0"%uc) || (0 <? i) || IsNonOctalDecimalDigit c0 then
     set_octal (mkLocation (p - i - 1) (p - 1))
       (if capture_raw then kTemplateOctalLiteral else kStrictOctalEscape)
   else ret tt) ;;;
  ret x.

(** The [switch] of [ScanEscape]: [None] is [return false]. *)
Definition ScanEscape_switch (capture_raw : bool) (c : Z) : SM (option Z) :=
  if c =? "b"%uc then ret (Some 0x08)
  else if c =? "f"%uc then ret (Some 0x0C)
  else if c =? "n"%uc then ret (Some 0x0A)
  else if c =? "r"%uc then ret (Some 0x0D)
  else if c =? "t"%uc then ret (Some 0x09)
  else if c =? "u"%uc then
    let* c := ScanUnicodeEscape capture_raw in
    ret (if IsInvalid c then None else Some c)
  else if c =? "v"%uc then ret (Some 0x0B)
  else if c =? "x"%uc then
    let* c := ScanHexNumber capture_raw false 2 in
    ret (if IsInvalid c then None else Some c)
  else if within "0"%uc "7"%uc c then
    let* c := ScanOctalEscape capture_raw c 2 in ret (Some c)
  else if (c =? "8"%uc) || (c =? "9"%uc) then
    let* p := gets source_pos in
    set_octal (mkLocation (p - 2) (p - 1))
      (if capture_raw then kTemplate8Or9Escape else kStrict8Or9Escape) ;;;
    ret (Some c)
  else ret (Some c).

Definition ScanEscape (capture_raw : bool) : SM bool :=
  let* c := gets c0_ in
  Advance capture_raw ;;;
  let* c0 := gets c0_ in
  if negb capture_raw && IsLineTerminator c then
    (if IsCarriageReturn c && IsLineFeed c0 then Advance false else ret tt) ;;;
    ret true
  else
    let* r := ScanEscape_switch capture_raw c in
    match r with
    | None => ret false
    | Some c => AddLiteralChar c ;;; ret true
    end.

(** ** String literals *)

Definition ScanString_check (c0 : Z) (_ : unit) : SM (bool * unit) :=
  if kMaxAscii <? c0 then
    if IsStringLiteralLineTerminator c0 then ret (true, tt)
    else AddLiteralChar c0 ;;; ret (false, tt)
  else if MayTerminateString (scan_flags_at c0) then ret (true, tt)
  else AddLiteralChar c0 ;;; ret (false, tt).

(** [while (c0_ == '\\') ...]: false is [return Token::ILLEGAL]. *)
Definition ScanString_escapes : SM bool :=
  scan_loop
    (fun _ : unit =>
       let* c0 := gets c0_ in
       if negb (c0 =? "\"%uc) then ret (inr true)
       else
         Advance false ;;;
         let* c0 := gets c0_ in
         if c0 =? kEndOfInput then ret (inr false)
         else
           let* ok := ScanEscape false in
           ret (if ok : bool then inl tt else inr false))
    tt.

Definition ScanString : SM Token.Value :=
  let* quote := gets c0_ in
  StartLiteral ;;;
  scan_loop
    (fun _ : unit =>
       AdvanceUntil ScanString_check tt ;;;
       let* ok := ScanString_escapes in
       if negb ok then ret (inr Token.ILLEGAL)
       else
         let* c0 := gets c0_ in
         if c0 =? quote then Advance false ;;; ret (inr Token.STRING)
         else if (c0 =? kEndOfInput) || IsStringLiteralLineTerminator c0 then
           ret (inr Token.ILLEGAL)
         else AddLiteralChar c0 ;;; ret (inl tt))
    tt.

(** ** Numbers *)

Inductive NumberKind : Type :=
| IMPLICIT_OCTAL | BINARY | OCTAL | HEX | DECIMAL | DECIMAL_WITH_LEADING_ZERO.

Definition kind_index (k : NumberKind) : Z :=
  match k with
  | IMPLICIT_OCTAL => 0 | BINARY => 1 | OCTAL => 2 | HEX => 3 | DECIMAL => 4
  | DECIMAL_WITH_LEADING_ZERO => 5
  end.

Definition IsValidBigIntKind (kind : NumberKind) : bool :=
  IsInRange 32 (kind_index kind) (kind_index BINARY) (kind_index DECIMAL).
Definition IsDecimalNumberKind (kind : NumberKind) : bool :=
  IsInRange 32 (kind_index kind) (kind_index DECIMAL) (kind_index DECIMAL_WITH_LEADING_ZERO).
Definition is_leading_zero (kind : NumberKind) : bool :=
  kind_index kind =? kind_index DECIMAL_WITH_LEADING_ZERO.

Definition report_here (m : MessageTemplate) : SM unit :=
  let* p := gets source_pos in ReportScannerError (mkLocation p (p + 1)) m.

Definition ScanDigitsWithNumericSeparators (predicate : Z -> bool)
    (is_check_first_digit : bool) : SM bool :=
  let* c0 := gets c0_ in
  if is_check_first_digit && negb (predicate c0) then ret false
  else
    let* r :=
      scan_loop
        (fun separator_seen =>
           let* c0 := gets c0_ in
           if negb (predicate c0 || (c0 =? "_"%uc)) then ret (inr (Some separator_seen))
           else if c0 =? "_"%uc then
             Advance false ;;;
             let* c0 := gets c0_ in
             if c0 =? "_"%uc then
               report_here kContinuousNumericSeparator ;;; ret (inr None)
             else ret (inl true)
           else AddLiteralCharAdvance ;;; ret (inl false))
        false in
    match r with
    | None => ret false
    | Some true => report_here kTrailingNumericSeparator ;;; ret false
    | Some false => ret true
    end.

Definition ScanDecimalDigits (allow_numeric_separator : bool) : SM bool :=
  if allow_numeric_separator then ScanDigitsWithNumericSeparators IsDecimalDigit false
  else
    scan_loop
      (fun _ : unit =>
         let* c0 := gets c0_ in
         if IsDecimalDigit c0 then AddLiteralCharAdvance ;;; ret (inl tt) else ret (inr tt))
      tt ;;;
    let* c0 := gets c0_ in
    if c0 =? "_"%uc then report_here kInvalidOrUnexpectedToken ;;; ret false
    else ret true.

(** [None] is [return false]; the value is a [uint64_t]. *)
Definition ScanDecimalAsSmiWithNumericSeparators (value : Z) : SM (option Z) :=
  let* r :=
    scan_loop
      (fun '(value, separator_seen) =>
         let* c0 := gets c0_ in
         if negb (IsDecimalDigit c0 || (c0 =? "_"%uc)) then
           ret (inr (Some (value, separator_seen)))
         else if c0 =? "_"%uc then
           Advance false ;;;
           let* c0 := gets c0_ in
           if c0 =? "_"%uc then
             report_here kContinuousNumericSeparator ;;; ret (inr None)
           else ret (inl (value, true))
         else
           let value := uint64 (10 * value + (c0 - "0"%uc)) in
           Advance false ;;;
           AddLiteralChar c0 ;;;
           ret (inl (value, false)))
      (value, false) in
  match r with
  | None => ret None
  | Some (_, true) => report_here kTrailingNumericSeparator ;;; ret None
  | Some (value, false) => ret (Some value)
  end.

Definition ScanDecimalAsSmi (value : Z) (allow_numeric_separator : bool) : SM (option Z) :=
  if allow_numeric_separator then ScanDecimalAsSmiWithNumericSeparators value
  else
    let* value :=
      scan_loop
        (fun value =>
           let* c0 := gets c0_ in
           if IsDecimalDigit c0 then
             let value := uint64 (10 * value + (c0 - "0"%uc)) in
             Advance false ;;;
             AddLiteralChar c0 ;;;
             ret (inl value)
           else ret (inr value))
        value in
    ret (Some value).

Definition ScanBinaryDigits : SM bool := ScanDigitsWithNumericSeparators IsBinaryDigit true.
Definition ScanOctalDigits : SM bool := ScanDigitsWithNumericSeparators IsOctalDigit true.
Definition ScanHexDigits : SM bool := ScanDigitsWithNumericSeparators IsHexDigit true.

(** Always returns true; the result is the [kind] out parameter. *)
Definition ScanImplicitOctalDigits (start_pos : Z) : SM NumberKind :=
  scan_loop
    (fun _ : unit =>
       let* c0 := gets c0_ in
       if IsNonOctalDecimalDigit c0 then ret (inr DECIMAL_WITH_LEADING_ZERO)
       else if negb (IsOctalDigit c0) then
         let* p := gets source_pos in
         set_octal (mkLocation start_pos p) kStrictOctalLiteral ;;;
         ret (inr IMPLICIT_OCTAL)
       else AddLiteralCharAdvance ;;; ret (inl tt))
    tt.

Definition ScanSignedInteger : SM bool :=
  let* c0 := gets c0_ in
  (if (c0 =? "+"%uc) || (c0 =? "-"%uc) then AddLiteralCharAdvance else ret tt) ;;;
  let* c0 := gets c0_ in
  if negb (IsDecimalDigit c0) then ret false else ScanDecimalDigits true.

(** The part of [ScanNumber] after a leading ['0']: [None] is
    [return Token::ILLEGAL], otherwise [kind] and [at_start]. *)
Definition ScanNumber_zero (start_pos : Z) (at_start : bool) : SM (option (NumberKind * bool)) :=
  AddLiteralCharAdvance ;;;
  let* c0 := gets c0_ in
  if AsciiAlphaToLower c0 =? "x"%uc then
    AddLiteralCharAdvance ;;;
    let* ok := ScanHexDigits in ret (if ok : bool then Some (HEX, at_start) else None)
  else if AsciiAlphaToLower c0 =? "o"%uc then
    AddLiteralCharAdvance ;;;
    let* ok := ScanOctalDigits in ret (if ok : bool then Some (OCTAL, at_start) else None)
  else if AsciiAlphaToLower c0 =? "b"%uc then
    AddLiteralCharAdvance ;;;
    let* ok := ScanBinaryDigits in ret (if ok : bool then Some (BINARY, at_start) else None)
  else if IsOctalDigit c0 then
    let* kind := ScanImplicitOctalDigits start_pos in
    ret (Some (kind, if is_leading_zero kind then false else at_start))
  else if IsNonOctalDecimalDigit c0 then ret (Some (DECIMAL_WITH_LEADING_ZERO, at_start))
  else if c0 =? "_"%uc then
    report_here kZeroDigitNumericSeparator ;;; ret None
  else ret (Some (DECIMAL, at_start)).

(** The decimal digits and the fraction: [inr] is [return], [inl] the value of
    [seen_period]. *)
Definition ScanNumber_decimal (start_pos : Z) (kind : NumberKind) (at_start : bool) :
    SM (bool + Token.Value) :=
  let allow_numeric_separator := negb (is_leading_zero kind) in
  let* smi :=
    (if at_start then
       let* value := ScanDecimalAsSmi 0 allow_numeric_separator in
       match value with
       | None => ret (Some Token.ILLEGAL)
       | Some value =>
           let* len := gets (fun s => Z.of_nat (length (one_byte_literal (literal_chars (next s))))) in
           let* c0 := gets c0_ in
           if (len <=? 10) && (value <=? kSmiMaxValue) && negb (c0 =? "."%uc)
              && negb (IsIdentifierStart c0) then
             modify (update_next (desc_set_smi_value (uint32 value))) ;;;
             let* p := gets source_pos in
             (if is_leading_zero kind then
                set_octal (mkLocation start_pos p) kStrictDecimalWithLeadingZero
              else ret tt) ;;;
             ret (Some Token.SMI)
           else ret None
       end
     else ret None) in
  match smi with
  | Some t => ret (inr t)
  | None =>
      let* ok := ScanDecimalDigits allow_numeric_separator in
      if negb ok then ret (inr Token.ILLEGAL)
      else
        let* c0 := gets c0_ in
        if c0 =? "."%uc then
          AddLiteralCharAdvance ;;;
          let* c0 := gets c0_ in
          if c0 =? "_"%uc then ret (inr Token.ILLEGAL)
          else
            let* ok := ScanDecimalDigits true in
            ret (if ok : bool then inl true else inr Token.ILLEGAL)
        else ret (inl false)
  end.

Definition kMaxBigIntCharacters : Z := Z.quot (2 ^ 30) 4.

(** The suffix ([n] or exponent) and the check of the following character. *)
Definition ScanNumber_suffix (start_pos : Z) (kind : NumberKind) (seen_period : bool) :
    SM Token.Value :=
  let* c0 := gets c0_ in
  let* is_bigint :=
    (if (c0 =? "n"%uc) && negb seen_period && IsValidBigIntKind kind then
       let* p := gets source_pos in
       let length := p - start_pos - (if kind_index kind =? kind_index DECIMAL then 0 else 2) in
       if kMaxBigIntCharacters <? length then
         ReportScannerError (mkLocation start_pos p) kBigIntTooBig ;;;
         ret None
       else Advance false ;;; ret (Some true)
     else if AsciiAlphaToLower c0 =? "e"%uc then
       if negb (IsDecimalNumberKind kind) then ret None
       else
         AddLiteralCharAdvance ;;;
         let* ok := ScanSignedInteger in
         ret (if ok : bool then Some false else None)
     else ret (Some false)) in
  match is_bigint with
  | None => ret Token.ILLEGAL
  | Some is_bigint =>
      let* c0 := gets c0_ in
      if IsDecimalDigit c0 || IsIdentifierStart c0 then ret Token.ILLEGAL
      else
        let* p := gets source_pos in
        (if is_leading_zero kind then
           set_octal (mkLocation start_pos p) kStrictDecimalWithLeadingZero
         else ret tt) ;;;
        ret (if is_bigint : bool then Token.BIGINT else Token.NUMBER)
  end.

Definition ScanNumber (seen_period : bool) : SM Token.Value :=
  StartLiteral ;;;
  let at_start := negb seen_period in
  let* start_pos := gets source_pos in
  if seen_period then
    AddLiteralAsciiChar "."%uc ;;;
    let* c0 := gets c0_ in
    if c0 =? "_"%uc then ret Token.ILLEGAL
    else
      let* ok := ScanDecimalDigits true in
      if negb ok then ret Token.ILLEGAL else ScanNumber_suffix start_pos DECIMAL true
  else
    let* c0 := gets c0_ in
    let* zero :=
      (if c0 =? "0"%uc then ScanNumber_zero start_pos at_start
       else ret (Some (DECIMAL, at_start))) in
    match zero with
    | None => ret Token.ILLEGAL
    | Some (kind, at_start) =>
        if IsDecimalNumberKind kind then
          let* r := ScanNumber_decimal start_pos kind at_start in
          match r with
          | inr t => ret t
          | inl seen_period => ScanNumber_suffix start_pos kind seen_period
          end
        else ScanNumber_suffix start_pos kind false
    end.

(** ** Identifiers, keywords and private names *)

(** A table lookup outside the perfect hash's domain is undefined. *)
Definition KeywordToken (chars : list Z) : SM Token.Value :=
  let* d := gets source_dialect_ in
  match KeywordOrIdentifierToken d chars (Z.of_nat (length chars)) with
  | Some t => ret t
  | None => undefined
  end.

Definition is_part_after_combining (c0 : Z) (part : Z -> bool) : SM bool :=
  if part c0 then ret true
  else
    let* combined := CombineSurrogatePairM in
    let* c0 := gets c0_ in
    ret (combined && part c0).

(** The end of [ScanIdentifierOrKeywordInnerSlow]: the token of the literal. *)
Definition IdentifierToken (escaped can_be_keyword : bool) : SM Token.Value :=
  let* dialect := gets source_dialect_ in
  let* one_byte := gets (fun s => is_one_byte (literal_chars (next s))) in
  if (can_be_keyword || negb (bool_decide (dialect = kJsEng))) && one_byte then
    let* chars := gets (fun s => one_byte_literal (literal_chars (next s))) in
    let* token := KeywordToken chars in
    if Token.token_range token Token.IDENTIFIER Token.YIELD then ret token
    else if bool_decide (token = Token.FUTURE_STRICT_RESERVED_WORD) then
      ret (if escaped : bool then Token.ESCAPED_STRICT_RESERVED_WORD else token)
    else if negb escaped then ret token
    else if Token.token_range token Token.LET Token.STATIC then
      ret Token.ESCAPED_STRICT_RESERVED_WORD
    else ret Token.ESCAPED_KEYWORD
  else ret Token.IDENTIFIER.

Definition ScanIdentifierOrKeywordInnerSlow (escaped can_be_keyword : bool) :
    SM Token.Value :=
  let* r :=
    scan_loop
      (fun '(escaped, can_be_keyword) =>
         let* c0 := gets c0_ in
         if c0 =? "\"%uc then
           let* c := ScanIdentifierUnicodeEscape in
           if (c =? "\"%uc) || negb (IsIdentifierPart c) then ret (inr None)
           else
             AddLiteralChar c ;;;
             ret (inl (true, can_be_keyword && CharCanBeKeyword c))
         else
           let* part := is_part_after_combining c0 IsIdentifierPart in
           if part then
             let* c0 := gets c0_ in
             AddLiteralCharAdvance ;;;
             ret (inl (escaped, can_be_keyword && CharCanBeKeyword c0))
           else ret (inr (Some (escaped, can_be_keyword))))
      (escaped, can_be_keyword) in
  match r with
  | None => ret Token.ILLEGAL
  | Some (escaped, can_be_keyword) => IdentifierToken escaped can_be_keyword
  end.

(** The check of the fast path; the local is [scan_flags]. *)
Definition identifier_check (c0 : Z) (scan_flags : Z) : SM (bool * Z) :=
  if kMaxAscii <? c0 then ret (true, Z.lor scan_flags kIdentifierNeedsSlowPath)
  else
    let char_flags := scan_flags_at c0 in
    let scan_flags := Z.lor scan_flags char_flags in
    if TerminatesLiteral char_flags then ret (true, scan_flags)
    else AddLiteralAsciiChar c0 ;;; ret (false, scan_flags).

Definition ScanIdentifierOrKeywordInner : SM Token.Value :=
  let* c0 := gets c0_ in
  if c0 <=? kMaxAscii then
    if negb (c0 =? "\"%uc) then
      let scan_flags := Z.shiftr (scan_flags_at c0) 1 in
      AddLiteralAsciiChar c0 ;;;
      let* scan_flags := AdvanceUntil identifier_check scan_flags in
      if negb (IdentifierNeedsSlowPath scan_flags) then
        let* chars := gets (fun s => one_byte_literal (literal_chars (next s))) in
        let* dialect := gets source_dialect_ in
        if bool_decide (dialect = kJsEng) && negb (CanBeKeyword scan_flags) then
          ret Token.IDENTIFIER
        else KeywordToken chars
      else ScanIdentifierOrKeywordInnerSlow false (CanBeKeyword scan_flags)
    else
      let* c := ScanIdentifierUnicodeEscape in
      if (c =? "\"%uc) || negb (IsIdentifierStart c) then ret Token.ILLEGAL
      else
        AddLiteralChar c ;;;
        ScanIdentifierOrKeywordInnerSlow true (CharCanBeKeyword c)
  else ScanIdentifierOrKeywordInnerSlow false true.

Definition ScanIdentifierOrKeyword : SM Token.Value :=
  StartLiteral ;;; ScanIdentifierOrKeywordInner.

Definition ScanPrivateName : SM Token.Value :=
  StartLiteral ;;;
  let* pos := gets source_pos in
  Advance false ;;;
  let* c0 := gets c0_ in
  let* start := is_part_after_combining c0 IsIdentifierStart in
  if start then
    AddLiteralAsciiChar "#"%uc ;;;
    let* token := ScanIdentifierOrKeywordInner in
    ret (if bool_decide (token = Token.ILLEGAL) then Token.ILLEGAL else Token.PRIVATE_NAME)
  else
    ReportScannerErrorAt pos kInvalidOrUnexpectedToken ;;;
    ret Token.ILLEGAL.
End Scanning.
