(* ===== verification/Comments.v ===== *)
(** * White space and comments

    Models [SkipWhiteSpace], the comment scanners and the magic comments
    ([sourceURL], [sourceMappingURL], [sourceDialect]) of
    [src/parsing/scanner.cc] and [scanner-inl.h]. *)

From S2P Require Import Prelude.
From S2P Require Import CharPredicates.
From S2P Require Import Tokens.
From S2P Require Import Keywords.
From S2P Require Import ScanTables.
From S2P Require Import LiteralBuffer.
From S2P Require Import Stream.
From S2P Require Import ScannerState.
From stdpp Require Import base list numbers decidable.
From Stdlib Require Import ZArith Lia Bool String.

Local Open Scope string_scope.
Local Open Scope Z_scope.
Local Open Scope prog_scope.

Section Skipping.
Context {D : Type} {BR : BlockReader D} {U : UnicodeData}.
Local Abbreviation Scanner := (Scanner D).
Local Abbreviation SM := (M Scanner).

(** ** White space *)

Definition note_line_terminator (c : Z) : SM unit :=
  modify (fun s =>
    if negb (after_line_terminator (next s)) && IsLineTerminator c
    then update_next (desc_set_after_line_terminator true) s
    else s).

(** The check of [SkipWhiteSpace]; the local is [hint]. *)
Definition white_space_check (c0 : Z) (hint : Z) : SM (bool * Z) :=
  if c0 =? hint then ret (false, hint)
  else if IsWhiteSpaceOrLineTerminator c0 then
    note_line_terminator c0 ;;; ret (false, c0)
  else ret (true, hint).

Definition SkipWhiteSpace : SM Token.Value :=
  let* c0 := gets c0_ in
  if negb (IsWhiteSpaceOrLineTerminator c0) then ret Token.ILLEGAL
  else
    note_line_terminator c0 ;;;
    AdvanceUntil white_space_check " "%uc ;;;
    ret Token.WHITESPACE.

(** A check that reads the character only. *)
Definition pure_check (p : Z -> bool) (c0 : Z) (_ : unit) : SM (bool * unit) :=
  ret (p c0, tt).

(** ** Single-line comments *)

Definition SkipSingleLineComment : SM Token.Value :=
  AdvanceUntil (pure_check IsLineTerminator) tt ;;;
  ret Token.WHITESPACE.

Definition SkipSingleHTMLComment : SM Token.Value :=
  let* m := gets (fun s => is_module (flags_ s)) in
  if m then
    let* p := gets source_pos in
    ReportScannerErrorAt p kHtmlCommentInModule ;;;
    ret Token.ILLEGAL
  else SkipSingleLineComment.

Definition ScanHtmlComment : SM Token.Value :=
  Advance false ;;;
  let* c0 := gets c0_ in
  let* is_comment :=
    (if negb (c0 =? "-"%uc) then ret false
     else let* c1 := PeekChar in ret (c1 =? "-"%uc)) in
  if negb is_comment then PushBack "!"%uc ;;; ret Token.LT
  else
    Advance false ;;;
    modify (set_found_html_comment true) ;;;
    SkipSingleHTMLComment.

(** ** Magic comments *)

Definition lift {A} (o : option A) : SM A :=
  match o with Some a => ret a | None => undefined end.

(** The buffers [value] points to; [nullptr] is [None]. *)
Inductive ValueBuffer : Type := SourceUrlBuffer | SourceMappingUrlBuffer.

Definition get_value (v : ValueBuffer) (s : Scanner) : LiteralBuffer :=
  match v with
  | SourceUrlBuffer => source_url_ s
  | SourceMappingUrlBuffer => source_mapping_url_ s
  end.

Definition set_value (v : ValueBuffer) (b : LiteralBuffer) : Scanner -> Scanner :=
  match v with
  | SourceUrlBuffer => set_source_url b
  | SourceMappingUrlBuffer => set_source_mapping_url b
  end.

Definition value_start (v : option ValueBuffer) : SM unit :=
  match v with
  | Some v => modify (fun s => set_value v (Start (get_value v s)) s)
  | None => ret tt
  end.

Definition value_add (v : option ValueBuffer) (c : Z) : SM unit :=
  match v with
  | Some v =>
      let* b := gets (get_value v) in
      let* b := lift (AddChar b c) in
      modify (set_value v b)
  | None => ret tt
  end.

(** The loop that fills [source_dialect_name_]. *)
Fixpoint AddDialectName (value_literal : list Z) : SM unit :=
  match value_literal with
  | [] => ret tt
  | c :: l =>
      let* b := gets source_dialect_name_ in
      let* b := lift (AddAsciiChar b c) in
      modify (set_source_dialect_name b) ;;;
      AddDialectName l
  end.

Definition dialect_comment_error : SM bool :=
  let* p := gets source_pos in
  ReportScannerErrorAt p kInvalidOrUnexpectedToken ;;;
  modify scanner_set_parser_error ;;;
  ret false.

Definition TrySetSourceDialect (value_literal : list Z) : SM bool :=
  let* too_late := gets (fun s => saw_non_comment_token_ s || found_source_dialect_comment_ s) in
  if too_late then dialect_comment_error
  else
    match TryParseSourceDialect value_literal with
    | Some d =>
        modify (set_source_dialect d) ;;;
        modify (fun s => set_source_dialect_name (Start (source_dialect_name_ s)) s) ;;;
        AddDialectName value_literal ;;;
        modify (set_found_source_dialect_comment true) ;;;
        ret true
    | None => dialect_comment_error
    end.

(** [while (IsWhiteSpace(c0_)) Advance();] *)
Definition skip_blanks : SM unit :=
  scan_loop
    (fun _ : unit =>
       let* c0 := gets c0_ in
       if IsWhiteSpace c0 then Advance false ;;; ret (inl tt) else ret (inr tt))
    tt.

Definition scan_comment_name : SM LiteralBuffer :=
  scan_loop
    (fun name =>
       let* c0 := gets c0_ in
       if negb (c0 =? kEndOfInput) && negb (IsWhiteSpaceOrLineTerminator c0)
          && negb (c0 =? "="%uc) then
         let* name := lift (AddChar name c0) in
         Advance false ;;;
         ret (inl name)
       else ret (inr name))
    (Start LiteralBuffer_new).

Definition comment_target (name_literal : list Z) : option (option ValueBuffer) :=
  if bool_decide (name_literal = bytes_of "sourceURL") then Some (Some SourceUrlBuffer)
  else if bool_decide (name_literal = bytes_of "sourceMappingURL") then
    Some (Some SourceMappingUrlBuffer)
  else if bool_decide (name_literal = bytes_of "sourceDialect") then Some None
  else None.

Definition scan_comment_value (value : option ValueBuffer) : SM LiteralBuffer :=
  scan_loop
    (fun source_dialect_literal =>
       let* c0 := gets c0_ in
       if (c0 =? kEndOfInput) || IsLineTerminator c0 then ret (inr source_dialect_literal)
       else if IsWhiteSpace c0 then ret (inr source_dialect_literal)
       else
         value_add value c0 ;;;
         let* b := lift (AddChar source_dialect_literal c0) in
         Advance false ;;;
         ret (inl b))
    (Start LiteralBuffer_new).

(** Only white space may follow the value on its line. *)
Definition scan_comment_end (value : option ValueBuffer)
    (source_dialect_literal : LiteralBuffer) : SM LiteralBuffer :=
  scan_loop
    (fun source_dialect_literal =>
       let* c0 := gets c0_ in
       if (c0 =? kEndOfInput) || IsLineTerminator c0 then ret (inr source_dialect_literal)
       else if negb (IsWhiteSpace c0) then
         value_start value ;;; ret (inr (Start source_dialect_literal))
       else Advance false ;;; ret (inl source_dialect_literal))
    source_dialect_literal.

Definition TryToParseSourceURLComment : SM unit :=
  let* c0 := gets c0_ in
  if negb (IsWhiteSpace c0) then ret tt
  else
    Advance false ;;;
    let* name := scan_comment_name in
    if negb (is_one_byte name) then ret tt
    else
      match comment_target (one_byte_literal name) with
      | None => ret tt
      | Some value =>
          skip_blanks ;;;
          let* c0 := gets c0_ in
          if negb (c0 =? "="%uc) then ret tt
          else
            value_start value ;;;
            Advance false ;;;
            skip_blanks ;;;
            let* literal := scan_comment_value value in
            let* literal := scan_comment_end value literal in
            match value with
            | Some _ => ret tt
            | None =>
                if negb (is_one_byte literal) then ret tt
                else let* _ := TrySetSourceDialect (one_byte_literal literal) in ret tt
            end
      end.

Definition SkipSourceURLComment : SM Token.Value :=
  TryToParseSourceURLComment ;;;
  let* c0 := gets c0_ in
  if IsLineTerminator c0 || (c0 =? kEndOfInput) then ret Token.WHITESPACE
  else SkipSingleLineComment.

(** ** Multi-line comments *)

Definition multi_line_check (c0 : Z) : bool :=
  if kMaxAscii <? c0 then IsLineTerminator c0
  else MultilineCommentCharacterNeedsSlowPath (scan_flags_at c0).

(** [while (c0_ == '*') ...]: true when [*/] was consumed. *)
Definition scan_stars : SM bool :=
  scan_loop
    (fun _ : unit =>
       let* c0 := gets c0_ in
       if c0 =? "*"%uc then
         Advance false ;;;
         let* c0 := gets c0_ in
         if c0 =? "/"%uc then Advance false ;;; ret (inr true) else ret (inl tt)
       else ret (inr false))
    tt.

(** The loop up to the first line terminator: true when the comment ended. *)
Definition SkipMultiLineComment_first : SM bool :=
  scan_loop
    (fun _ : unit =>
       AdvanceUntil (pure_check multi_line_check) tt ;;;
       let* closed := scan_stars in
       if closed : bool then ret (inr true)
       else
         let* c0 := gets c0_ in
         if IsLineTerminator c0 then
           modify (update_next (desc_set_after_line_terminator true)) ;;;
           ret (inr false)
         else ret (if c0 =? kEndOfInput then inr false else inl tt))
    tt.

Definition SkipMultiLineComment : SM Token.Value :=
  let* after := gets (fun s => after_line_terminator (next s)) in
  let* closed := (if after : bool then ret false else SkipMultiLineComment_first) in
  if closed : bool then ret Token.WHITESPACE
  else
    scan_loop
      (fun _ : unit =>
         let* c0 := gets c0_ in
         if c0 =? kEndOfInput then ret (inr Token.ILLEGAL)
         else
           AdvanceUntil (pure_check (fun c0 => c0 =? "*"%uc)) tt ;;;
           let* closed := scan_stars in
           ret (if closed : bool then inr Token.WHITESPACE else inl tt))
      tt.

(** ** The strings of the magic comments *)

Definition SourceUrl (s : Scanner) : option (list Z) :=
  if 0 <? literal_length (source_url_ s) then Some (code_units (source_url_ s)) else None.

Definition SourceMappingUrl (s : Scanner) : option (list Z) :=
  if 0 <? literal_length (source_mapping_url_ s) then Some (code_units (source_mapping_url_ s))
  else None.

Definition SourceDialectString (s : Scanner) : list Z :=
  if 0 <? literal_length (source_dialect_name_ s) then code_units (source_dialect_name_ s)
  else bytes_of (SourceDialectName (source_dialect_ s)).
End Skipping.
