(* ===== verification/Scanner.v ===== *)
(** * The scanner

    Models the template and regular-expression scanners, [ScanSingleToken],
    [Scan] and the public operations of [Scanner] ([src/parsing/scanner.cc],
    [scanner-inl.h], [scanner.h]): [Initialize], [Next], [PeekAhead],
    [SeekForward], [SeekNext], [BookmarkScope] and the literal accessors. *)

From S2P Require Import Prelude.
From S2P Require Import CharPredicates.
From S2P Require Import Tokens.
From S2P Require Import Keywords.
From S2P Require Import ScanTables.
From S2P Require Import LiteralBuffer.
From S2P Require Import Stream.
From S2P Require Import ScannerState.
From S2P Require Import Literals.
From S2P Require Import Comments.
From stdpp Require Import base list numbers decidable.
From Stdlib Require Import ZArith Lia Bool.

Local Open Scope string_scope.
Local Open Scope Z_scope.
Local Open Scope prog_scope.

Section Scanning.
Context {D : Type} {BR : BlockReader D} {U : UnicodeData} {C : BuildConfig}.
Local Abbreviation Scanner := (Scanner D).
Local Abbreviation SM := (M Scanner).

(** ** Template literals *)

(** [Scanner::ErrorState] on [scanner_error_] and on [octal_message_]: the
    saved message and location, and the two members it points to. *)
Record ErrorState : Type := mkErrorState { old_message_ : MessageTemplate; old_location_ : Location }.

Record ErrorStack : Type := mkErrorStack {
  message_stack : Scanner -> MessageTemplate;
  location_stack : Scanner -> Location;
  set_message_stack : MessageTemplate -> Scanner -> Scanner;
  set_location_stack : Location -> Scanner -> Scanner
}.

Definition scanner_errors : ErrorStack :=
  mkErrorStack scanner_error_ scanner_error_location_ set_scanner_error set_scanner_error_location.
Definition octal_errors : ErrorStack :=
  mkErrorStack octal_message_ octal_pos_ set_octal_message set_octal_pos.

Definition ErrorState_clear (e : ErrorStack) (s : Scanner) : Scanner :=
  set_location_stack e Location_invalid (set_message_stack e kNone s).

Definition ErrorState_new (e : ErrorStack) : SM ErrorState :=
  let* old := gets (fun s => mkErrorState (message_stack e s) (location_stack e s)) in
  modify (ErrorState_clear e) ;;;
  ret old.

Definition ErrorState_restore (e : ErrorStack) (old : ErrorState) : SM unit :=
  modify (fun s =>
    set_location_stack e (old_location_ old) (set_message_stack e (old_message_ old) s)).

(** [MoveErrorTo(next_)] *)
Definition MoveErrorTo (e : ErrorStack) (dest : Slot) : SM unit :=
  modify (fun s =>
    if bool_decide (message_stack e s = kNone) then s
    else
      let s1 :=
        update_slot dest
          (fun d =>
             if bool_decide (invalid_template_escape_message d = kNone) then
               desc_set_invalid_template_escape_location (location_stack e s)
                 (desc_set_invalid_template_escape_message (message_stack e s) d)
             else d) s in
      ErrorState_clear e s1).

Definition ScanTemplateSpan_escape : SM unit :=
  Advance false ;;;
  AddRawLiteralChar "\"%uc ;;;
  let* c0 := gets c0_ in
  if IsLineTerminator c0 then
    let lastChar := c0 in
    Advance false ;;;
    let* c0 := gets c0_ in
    let* lastChar :=
      (if lastChar =? 0x0D then
         (if c0 =? 0x0A then Advance false else ret tt) ;;; ret 0x0A
       else ret lastChar) in
    AddRawLiteralChar lastChar
  else
    let* _ := ScanEscape true in
    let* next_ := gets next_ in
    MoveErrorTo scanner_errors next_ ;;;
    MoveErrorTo octal_errors next_.

Definition ScanTemplateSpan_char (c : Z) : SM unit :=
  Advance false ;;;
  let* c0 := gets c0_ in
  let* c :=
    (if c =? 0x0D then (if c0 =? 0x0A then Advance false else ret tt) ;;; ret 0x0A
     else ret c) in
  AddRawLiteralChar c ;;;
  AddLiteralChar c.

Definition ScanTemplateSpan_loop : SM Token.Value :=
  scan_loop
    (fun _ : unit =>
       let* c := gets c0_ in
       if c =? "`"%uc then Advance false ;;; ret (inr Token.TEMPLATE_TAIL)
       else
         let* open_brace :=
           (if c =? "$"%uc then let* c1 := PeekChar in ret (c1 =? "{"%uc) else ret false) in
         if open_brace : bool then
           Advance false ;;; Advance false ;;; ret (inr Token.TEMPLATE_SPAN)
         else if c =? "\"%uc then ScanTemplateSpan_escape ;;; ret (inl tt)
         else if c =? kEndOfInput then ret (inr Token.TEMPLATE_SPAN)
         else ScanTemplateSpan_char c ;;; ret (inl tt))
    tt.

Definition set_end_pos (d : TokenDesc) (p : Z) : TokenDesc :=
  desc_set_location (mkLocation (beg_pos (location d)) p) d.
Definition set_beg_pos (d : TokenDesc) (p : Z) : TokenDesc :=
  desc_set_location (mkLocation p (end_pos (location d))) d.

Definition ScanTemplateSpan : SM Token.Value :=
  let* scanner_error_state := ErrorState_new scanner_errors in
  let* octal_error_state := ErrorState_new octal_errors in
  StartLiteral ;;;
  StartRawLiteral ;;;
  let* result := ScanTemplateSpan_loop in
  modify (fun s => update_next (fun d => set_end_pos d (source_pos s)) s) ;;;
  modify (update_next (desc_set_token result)) ;;;
  ErrorState_restore octal_errors octal_error_state ;;;
  ErrorState_restore scanner_errors scanner_error_state ;;;
  ret result.

Definition ScanTemplateContinuation : SM Token.Value := ScanTemplateSpan.

(** ** Tokens *)

Definition one_char_token (c : Z) : Token.Value :=
  nth (Z.to_nat c) one_char_tokens Token.ILLEGAL.

(** The results of the [switch]: [inl] is [continue], [inr] is [return]. *)
Definition skipped (m : SM Token.Value) : SM (Token.Value + Token.Value) :=
  let* t := m in ret (inl t).
Definition returned (m : SM Token.Value) : SM (Token.Value + Token.Value) :=
  let* t := m in ret (inr t).

(** The punctuators of more than one character, after their first one. *)
Definition ScanPunctuator (token : Token.Value) (c0 : Z) :
    option (SM (Token.Value + Token.Value)) :=
  match token with
  | Token.CONDITIONAL =>
      Some
        (if c0 =? "."%uc then
           Advance false ;;;
           let* c0 := gets c0_ in
           if negb (IsDecimalDigit c0) then ret (inr Token.QUESTION_PERIOD)
           else PushBack "."%uc ;;; ret (inr Token.CONDITIONAL)
         else if c0 =? "?"%uc then
           returned (SelectIf "="%uc Token.ASSIGN_NULLISH Token.NULLISH)
         else ret (inr Token.CONDITIONAL))
  | Token.LT =>
      Some
        (if c0 =? "="%uc then returned (Select Token.LTE)
         else if c0 =? "<"%uc then returned (SelectIf "="%uc Token.ASSIGN_SHL Token.SHL)
         else if c0 =? "!"%uc then skipped ScanHtmlComment
         else ret (inr Token.LT))
  | Token.GT =>
      Some
        (if c0 =? "="%uc then returned (Select Token.GTE)
         else if c0 =? ">"%uc then
           Advance false ;;;
           let* c0 := gets c0_ in
           if c0 =? "="%uc then returned (Select Token.ASSIGN_SAR)
           else if c0 =? ">"%uc then returned (SelectIf "="%uc Token.ASSIGN_SHR Token.SHR)
           else ret (inr Token.SAR)
         else ret (inr Token.GT))
  | Token.ASSIGN =>
      Some
        (if c0 =? "="%uc then returned (SelectIf "="%uc Token.EQ_STRICT Token.EQ)
         else if c0 =? ">"%uc then returned (Select Token.ARROW)
         else ret (inr Token.ASSIGN))
  | Token.NOT =>
      Some
        (if c0 =? "="%uc then returned (SelectIf "="%uc Token.NE_STRICT Token.NE)
         else ret (inr Token.NOT))
  | Token.ADD =>
      Some
        (if c0 =? "+"%uc then returned (Select Token.INC)
         else if c0 =? "="%uc then returned (Select Token.ASSIGN_ADD)
         else ret (inr Token.ADD))
  | Token.SUB =>
      Some
        (if c0 =? "-"%uc then
           Advance false ;;;
           let* c0 := gets c0_ in
           let* after := gets (fun s => after_line_terminator (next s)) in
           if (c0 =? ">"%uc) && after then skipped SkipSingleHTMLComment
           else ret (inr Token.DEC)
         else if c0 =? "="%uc then returned (Select Token.ASSIGN_SUB)
         else ret (inr Token.SUB))
  | Token.MUL =>
      Some
        (if c0 =? "*"%uc then returned (SelectIf "="%uc Token.ASSIGN_EXP Token.EXP)
         else if c0 =? "="%uc then returned (Select Token.ASSIGN_MUL)
         else ret (inr Token.MUL))
  | Token.DIV =>
      Some
        (if c0 =? "/"%uc then
           let* c := PeekChar in
           if (c =? "#"%uc) || (c =? "@"%uc) then
             Advance false ;;; Advance false ;;; skipped SkipSourceURLComment
           else skipped SkipSingleLineComment
         else if c0 =? "*"%uc then skipped SkipMultiLineComment
         else if c0 =? "="%uc then returned (Select Token.ASSIGN_DIV)
         else ret (inr Token.DIV))
  | Token.BIT_AND =>
      Some
        (if c0 =? "&"%uc then returned (SelectIf "="%uc Token.ASSIGN_AND Token.AND)
         else if c0 =? "="%uc then returned (Select Token.ASSIGN_BIT_AND)
         else ret (inr Token.BIT_AND))
  | Token.BIT_OR =>
      Some
        (if c0 =? "|"%uc then returned (SelectIf "="%uc Token.ASSIGN_OR Token.OR)
         else if c0 =? "="%uc then returned (Select Token.ASSIGN_BIT_OR)
         else ret (inr Token.BIT_OR))
  | Token.PERIOD =>
      Some
        (if IsDecimalDigit c0 then returned (ScanNumber true)
         else if c0 =? "."%uc then
           let* c1 := PeekChar in
           if c1 =? "."%uc then
             Advance false ;;; Advance false ;;; ret (inr Token.ELLIPSIS)
           else ret (inr Token.PERIOD)
         else ret (inr Token.PERIOD))
  | Token.TEMPLATE_SPAN => Some (returned ScanTemplateSpan)
  | _ => None
  end.

(** The [switch] on [one_char_tokens[c0_]]. *)
Definition ScanAsciiToken (token : Token.Value) : SM (Token.Value + Token.Value) :=
  match token with
  | Token.LPAREN | Token.RPAREN | Token.LBRACE | Token.RBRACE | Token.LBRACK
  | Token.RBRACK | Token.COLON | Token.SEMICOLON | Token.COMMA | Token.BIT_NOT
  | Token.ILLEGAL => returned (Select token)
  | Token.STRING => returned ScanString
  | Token.MOD => returned (SelectIf "="%uc Token.ASSIGN_MOD Token.MOD)
  | Token.BIT_XOR => returned (SelectIf "="%uc Token.ASSIGN_BIT_XOR Token.BIT_XOR)
  | Token.PRIVATE_NAME =>
      let* p := gets source_pos in
      let* hash_bang :=
        (if p =? 0 then let* c1 := PeekChar in ret (c1 =? "!"%uc) else ret false) in
      if hash_bang : bool then skipped SkipSingleLineComment else returned ScanPrivateName
  | Token.WHITESPACE => skipped SkipWhiteSpace
  | Token.NUMBER => returned (ScanNumber false)
  | Token.IDENTIFIER => returned ScanIdentifierOrKeyword
  | Token.CONDITIONAL | Token.LT | Token.GT | Token.ASSIGN | Token.NOT | Token.ADD
  | Token.SUB | Token.MUL | Token.DIV | Token.BIT_AND | Token.BIT_OR | Token.PERIOD
  | Token.TEMPLATE_SPAN =>
      Advance false ;;;
      let* c0 := gets c0_ in
      match ScanPunctuator token c0 with Some m => m | None => undefined end
  | _ => undefined
  end.

(** The part of the loop for characters above [kMaxAscii] and the end of input. *)
Definition ScanNonAsciiToken : SM (Token.Value + Token.Value) :=
  let* c0 := gets c0_ in
  let* start := is_part_after_combining c0 IsIdentifierStart in
  if start : bool then returned ScanIdentifierOrKeyword
  else
    let* c0 := gets c0_ in
    if c0 =? kEndOfInput then
      let* error := gets has_parser_error in
      ret (inr (if error : bool then Token.ILLEGAL else Token.EOS))
    else skipped SkipWhiteSpace.

Definition ScanSingleToken : SM Token.Value :=
  scan_loop
    (fun _ : unit =>
       modify (fun s => update_next (fun d => set_beg_pos d (source_pos s)) s) ;;;
       let* c0 := gets c0_ in
       let* r :=
         (if c0 <=? kMaxAscii then ScanAsciiToken (one_char_token c0) else ScanNonAsciiToken) in
       match r with
       | inr token => ret (inr token)
       | inl token =>
           ret (if bool_decide (token = Token.WHITESPACE) then inl tt else inr token)
       end)
    tt.

(** [Scan(next_desc)] with [next_desc == next_] *)
Definition Scan : SM unit :=
  modify (update_next (desc_set_after_line_terminator false)) ;;;
  let* token := ScanSingleToken in
  modify (update_next (desc_set_token token)) ;;;
  (if negb (bool_decide (token = Token.WHITESPACE))
      && negb (bool_decide (token = Token.UNINITIALIZED))
   then modify (set_saw_non_comment_token true) else ret tt) ;;;
  modify (fun s => update_next (fun d => set_end_pos d (source_pos s)) s).

(** ** Public operations *)

Definition Init : SM unit :=
  Advance false ;;;
  modify (set_current Slot0) ;;;
  modify (set_next Slot1) ;;;
  modify (set_next_next Slot2) ;;;
  modify (set_found_html_comment false) ;;;
  modify (set_scanner_error kNone) ;;;
  modify (fun s => set_source_dialect (flags_source_dialect (flags_ s)) s) ;;;
  modify (fun s => set_source_dialect_name (Start (source_dialect_name_ s)) s) ;;;
  modify (set_saw_non_comment_token false) ;;;
  modify (set_found_source_dialect_comment false).

Definition Initialize : SM unit :=
  Init ;;;
  modify (update_next (desc_set_after_line_terminator true)) ;;;
  Scan.

Definition Next : SM Token.Value :=
  let* previous := gets current_ in
  modify (fun s => set_current (next_ s) s) ;;;
  let* t := gets (fun s => token (next_next s)) in
  (if bool_decide (t = Token.UNINITIALIZED) then
     modify (set_next previous) ;;;
     modify (update_slot previous (desc_set_after_line_terminator false)) ;;;
     Scan
   else
     modify (fun s => set_next (next_next_ s) s) ;;;
     modify (set_next_next previous) ;;;
     modify (update_slot previous (desc_set_token Token.UNINITIALIZED))) ;;;
  gets (fun s => token (current s)).

Definition PeekAhead : SM Token.Value :=
  let* t := gets (fun s => token (next_next s)) in
  if negb (bool_decide (t = Token.UNINITIALIZED)) then ret t
  else
    let* temp := gets next_ in
    modify (fun s => set_next (next_next_ s) s) ;;;
    modify (update_next (desc_set_after_line_terminator false)) ;;;
    Scan ;;;
    modify (fun s => set_next_next (next_ s) s) ;;;
    modify (set_next temp) ;;;
    gets (fun s => token (next_next s)).

Definition HasLineTerminatorAfterNext : SM bool :=
  let* _ := PeekAhead in gets (fun s => after_line_terminator (next_next s)).

Definition SeekSource (position : Z) : SM unit :=
  modify (fun s => set_source (Seek (source_ s) position) s).

Definition SeekForward (pos : Z) : SM unit :=
  let* beg := gets (fun s => beg_pos (location (next s))) in
  if pos =? beg then ret tt
  else
    let* current_pos := gets source_pos in
    (if negb (pos =? current_pos) then
       SeekSource pos ;;;
       Advance false ;;;
       modify (update_next (desc_set_after_line_terminator false))
     else ret tt) ;;;
    Scan.

Definition SeekNext (position : Z) : SM unit :=
  modify (fun s =>
    set_token_storage
      (storage_map
         (fun d => desc_set_invalid_template_escape_message kNone
                     (desc_set_token Token.UNINITIALIZED d))
         (token_storage_ s)) s) ;;;
  SeekSource position ;;;
  AdvanceSource ;;;
  modify (update_next (desc_set_after_line_terminator false)) ;;;
  Scan.

(** *** BookmarkScope *)

Record BookmarkScope : Type := mkBookmark { bookmark_ : Z; had_parser_error_ : bool }.

Definition kNoBookmark : Z := 2 ^ 64 - 1 - 1.
Definition kBookmarkWasApplied : Z := 2 ^ 64 - 1.

Definition BookmarkScope_new (s : Scanner) : BookmarkScope :=
  mkBookmark kNoBookmark (has_parser_error s).
Definition Bookmark_Set (b : BookmarkScope) (position : Z) : BookmarkScope :=
  mkBookmark position (had_parser_error_ b).
Definition HasBeenSet (b : BookmarkScope) : bool :=
  negb (bookmark_ b =? kNoBookmark) && negb (bookmark_ b =? kBookmarkWasApplied).
Definition HasBeenApplied (b : BookmarkScope) : bool := bookmark_ b =? kBookmarkWasApplied.

Definition Bookmark_Apply (b : BookmarkScope) : SM BookmarkScope :=
  (if had_parser_error_ b then modify scanner_set_parser_error
   else
     modify scanner_reset_parser_error_flag ;;;
     SeekNext (bookmark_ b)) ;;;
  ret (mkBookmark kBookmarkWasApplied (had_parser_error_ b)).

(** *** Regular expressions *)

Definition ScanRegExpPattern : SM bool :=
  StartLiteral ;;;
  let* t := gets (fun s => token (next s)) in
  (if bool_decide (t = Token.ASSIGN_DIV) then AddLiteralAsciiChar "="%uc else ret tt) ;;;
  let* ok :=
    scan_loop
      (fun in_character_class : bool =>
         let* c0 := gets c0_ in
         if (c0 =? "/"%uc) && negb in_character_class then ret (inr true)
         else if (c0 =? kEndOfInput) || IsLineTerminator c0 then ret (inr false)
         else if c0 =? "\"%uc then
           AddLiteralCharAdvance ;;;
           let* c0 := gets c0_ in
           if (c0 =? kEndOfInput) || IsLineTerminator c0 then ret (inr false)
           else AddLiteralCharAdvance ;;; ret (inl in_character_class)
         else
           AddLiteralCharAdvance ;;;
           ret (inl (if c0 =? "["%uc then true
                     else if c0 =? "]"%uc then false
                     else in_character_class)))
      false in
  if negb ok then ret false
  else
    Advance false ;;;
    modify (update_next (desc_set_token Token.REGEXP_LITERAL)) ;;;
    ret true.

(** The flags are a bit set; [None] is [return {}]. *)
Definition ScanRegExpFlags : SM (option Z) :=
  StartLiteral ;;;
  let* r :=
    scan_loop
      (fun flags =>
         let* c0 := gets c0_ in
         if negb (IsIdentifierPart c0) then ret (inr (Some flags))
         else
           match FlagFromChar (to_char c0) with
           | None => ret (inr None)
           | Some flag =>
               if negb (Z.land flags (flag_bit flag) =? 0) then ret (inr None)
               else AddLiteralCharAdvance ;;; ret (inl (Z.lor flags (flag_bit flag)))
           end)
      0 in
  match r with
  | None => ret None
  | Some flags =>
      modify (fun s => update_next (fun d => set_end_pos d (source_pos s)) s) ;;;
      ret (Some flags)
  end.

(** *** Literals of the current and the next token *)

Definition LiteralContainsEscapes (token : TokenDesc) : bool :=
  let source_length := end_pos (location token) - beg_pos (location token) in
  let source_length :=
    if bool_decide (ScannerState.token token = Token.STRING) then source_length - 2
    else source_length in
  negb (literal_length (literal_chars token) =? source_length).

(** [s] is the string without its terminating zero: N is [length s + 1]. *)
Definition CurrentLiteralEquals (s : list Z) (sc : Scanner) : bool :=
  if negb (is_one_byte (literal_chars (current sc))) then false
  else
    let chars := one_byte_literal (literal_chars (current sc)) in
    (Z.of_nat (length chars) =? Z.of_nat (length s))
    && strncmp_eq s chars (length s).

Definition NextLiteralExactlyEquals (s : list Z) (sc : Scanner) : bool :=
  if negb (is_one_byte (literal_chars (next sc))) then false
  else if negb (Location_length (location (next sc)) =? Z.of_nat (length s) + 2) then false
  else
    let chars := one_byte_literal (literal_chars (next sc)) in
    (Z.of_nat (length chars) =? Z.of_nat (length s))
    && strncmp_eq s chars (length s).

(** *** Accessors *)

Definition current_token (s : Scanner) : Token.Value := token (current s).
Definition peek (s : Scanner) : Token.Value := token (next s).
Definition CurrentMatches (t : Token.Value) (s : Scanner) : bool :=
  bool_decide (token (current s) = t).
Definition has_invalid_template_escape (s : Scanner) : bool :=
  negb (bool_decide (invalid_template_escape_message (current s) = kNone)).
Definition literal_contains_escapes (s : Scanner) : bool := LiteralContainsEscapes (current s).
Definition next_literal_contains_escapes (s : Scanner) : bool := LiteralContainsEscapes (next s).
Definition smi_value (s : Scanner) : Z := smi_value_ (current s).
Definition HasLineTerminatorBeforeNext (s : Scanner) : bool := after_line_terminator (next s).
Definition BigIntLiteral (s : Scanner) : list Z := one_byte_literal (literal_chars (current s)).

Definition clear_octal_position (s : Scanner) : Scanner :=
  set_octal_message kNone (set_octal_pos Location_invalid s).

Definition clear_invalid_template_escape_message (s : Scanner) : Scanner :=
  update_slot (current_ s) (desc_set_invalid_template_escape_message kNone) s.
End Scanning.
