(* ===== verification/ScanResults.v ===== *)
(** * The tokens a scan returns

    No scanning function returns [UNINITIALIZED], and [ScanSingleToken] does not
    return [WHITESPACE] either: the descriptor of a scanned token is always
    recognisable as scanned. *)

From S2P Require Import Prelude.
From S2P Require Import CharPredicates.
From S2P Require Import Tokens.
From S2P Require Import Keywords.
From S2P Require Import ScanTables.
From S2P Require Import LiteralBuffer.
From S2P Require Import Stream.
From S2P Require Import ScannerState.
From S2P Require Import Literals.
From S2P Require Import Comments.
From S2P Require Import Scanner.
From stdpp Require Import base list numbers decidable.
From Stdlib Require Import ZArith Lia Bool.

Local Open Scope Z_scope.
Local Open Scope prog_scope.

(** A token that was scanned from the source. *)
Definition is_scanned (t : Token.Value) : bool :=
  match t with
  | Token.UNINITIALIZED | Token.WHITESPACE => false
  | _ => true
  end.

(** A result of the skipping functions. *)
Definition is_initialized (t : Token.Value) : bool :=
  match t with
  | Token.UNINITIALIZED => false
  | _ => true
  end.

Lemma is_scanned_initialized t : is_scanned t = true -> is_initialized t = true.
Proof. by destruct t. Qed.

Lemma keyword_scanned d str len t :
  KeywordOrIdentifierToken d str len = Some t -> is_scanned t = true.
Proof.
  unfold KeywordOrIdentifierToken. destruct d.
  - rewrite bool_decide_eq_true_2 by done. unfold PerfectKeywordHash.GetToken.
    destruct (IsInRange 32 len _ _); [|by intros [= <-]].
    destruct (PerfectKeywordHash.Hash str len) as [h|]; [|done]. cbn [mbind option_bind].
    destruct (PerfectKeywordHash.kPerfectKeywordLengthTable !! _) as [l|]; [|done].
    cbn [mbind option_bind]. destruct (len =? l); [|by intros [= <-]].
    destruct (PerfectKeywordHash.kPerfectKeywordHashTable !! _) as [[name value]|] eqn:E; [|done].
    cbn [mbind option_bind]. destruct (PerfectKeywordHash.name_matches _ _) as [m|]; [|done].
    cbn [mbind option_bind]. intros [= <-]. destruct m; [|done].
    assert (H : forallb (fun e => is_scanned (snd e)) PerfectKeywordHash.kPerfectKeywordHashTable = true)
      by (vm_compute; reflexivity).
    rewrite forallb_forall in H. apply (H (name, value)).
    apply list_elem_of_In. by eapply list_elem_of_lookup_2.
  - rewrite bool_decide_eq_false_2, bool_decide_eq_true_2 by done. intros [= <-].
    unfold JsSpaKeywordHash.GetToken.
    assert (H : Forall (fun e => is_scanned (snd e) = true) (JsSpaKeywordHash.cases len)).
    { unfold JsSpaKeywordHash.cases. repeat case_match; repeat constructor. }
    induction H as [|[n v] l Hv Hl IH]; cbn; [done|]. by case_match.
Qed.

Section Results.
Context {D : Type} {BR : BlockReader D} {U : UnicodeData} {C : BuildConfig}.
Local Abbreviation Scanner := (Scanner D).
Local Abbreviation SM := (M Scanner).

Local Abbreviation scanned := (yields (St:=Scanner) (fun t => is_scanned t = true)).

Lemma yields_scan_loop {A B} (P : B -> Prop) (body : A -> SM (A + B)) a :
  (forall a, yields (fun r => match r with inl _ => True | inr b => P b end) (body a)) ->
  yields P (scan_loop body a).
Proof. intros Hb s. by apply yields_loop. Qed.

Ltac yields_go :=
  repeat first [ yields_step | apply yields_scan_loop; intros ];
  repeat match goal with |- context [if ?b then _ else _] => destruct b end;
  try done.

Lemma KeywordToken_scanned chars : scanned (KeywordToken chars).
Proof.
  unfold KeywordToken. eapply yields_bind; [apply yields_any|]. intros d _.
  destruct (KeywordOrIdentifierToken d chars _) eqn:E; [|done].
  apply yields_ret. by apply keyword_scanned in E.
Qed.
#[local] Hint Resolve KeywordToken_scanned : yields.

Lemma IdentifierToken_scanned e k : scanned (IdentifierToken e k).
Proof. unfold IdentifierToken. yields_go. Qed.
#[local] Hint Resolve IdentifierToken_scanned : yields.

Lemma ScanIdentifierOrKeyword_scanned : scanned ScanIdentifierOrKeyword.
Proof.
  unfold ScanIdentifierOrKeyword, ScanIdentifierOrKeywordInner,
    ScanIdentifierOrKeywordInnerSlow. yields_go.
Qed.

Lemma ScanPrivateName_scanned : scanned ScanPrivateName.
Proof.
  unfold ScanPrivateName. yields_go.
Qed.

Lemma ScanString_scanned : scanned ScanString.
Proof. unfold ScanString. yields_go. Qed.

Lemma ScanNumber_decimal_scanned b k a :
  yields (St:=Scanner)
    (fun r => match r with inr t => is_scanned t = true | inl _ => True end)
    (ScanNumber_decimal b k a).
Proof.
  unfold ScanNumber_decimal.
  apply (yields_bind (fun r => match r with Some t => is_scanned t = true | None => True end)).
  - yields_go.
  - intros [t|] Ht; yields_go.
Qed.
#[local] Hint Resolve ScanNumber_decimal_scanned : yields.

Lemma ScanNumber_scanned p : scanned (ScanNumber p).
Proof. unfold ScanNumber, ScanNumber_suffix. yields_go. Qed.

Lemma ScanTemplateSpan_scanned : scanned ScanTemplateSpan.
Proof.
  unfold ScanTemplateSpan. do 4 (eapply yields_bind; [apply yields_any|intros ? _]).
  apply (yields_bind (fun t => is_scanned t = true)).
  - unfold ScanTemplateSpan_loop. yields_go.
  - intros t Ht. yields_go.
Qed.

Local Abbreviation skips := (yields (St:=Scanner) (fun t => is_initialized t = true)).

Lemma SkipWhiteSpace_skips : skips SkipWhiteSpace.
Proof. unfold SkipWhiteSpace. yields_go. Qed.

Lemma SkipSingleLineComment_skips : skips SkipSingleLineComment.
Proof. unfold SkipSingleLineComment. yields_go. Qed.
#[local] Hint Resolve SkipSingleLineComment_skips : yields.

Lemma SkipSingleHTMLComment_skips : skips SkipSingleHTMLComment.
Proof. unfold SkipSingleHTMLComment. yields_go. Qed.
#[local] Hint Resolve SkipSingleHTMLComment_skips : yields.

Lemma ScanHtmlComment_skips : skips ScanHtmlComment.
Proof. unfold ScanHtmlComment. yields_go. Qed.

Lemma SkipSourceURLComment_skips : skips SkipSourceURLComment.
Proof. unfold SkipSourceURLComment. yields_go. Qed.

Lemma SkipMultiLineComment_skips : skips SkipMultiLineComment.
Proof. unfold SkipMultiLineComment. yields_go. Qed.

(** The results of one round of [ScanSingleToken]. *)
Definition round_result (r : Token.Value + Token.Value) : Prop :=
  match r with
  | inl t => is_initialized t = true
  | inr t => is_scanned t = true
  end.

Lemma skipped_result m : skips m -> yields (St:=Scanner) round_result (skipped m).
Proof. intros H. eapply yields_bind; [apply H|]. intros t Ht. by apply yields_ret. Qed.

Lemma returned_result m : scanned m -> yields (St:=Scanner) round_result (returned m).
Proof. intros H. eapply yields_bind; [apply H|]. intros t Ht. by apply yields_ret. Qed.

Lemma Select_scanned t : is_scanned t = true -> scanned (Select t).
Proof. intros. unfold Select. yields_go. Qed.

Lemma SelectIf_scanned c t1 t2 :
  is_scanned t1 = true -> is_scanned t2 = true -> scanned (SelectIf c t1 t2).
Proof. intros. unfold SelectIf. yields_go. Qed.

#[local] Hint Resolve skipped_result returned_result Select_scanned SelectIf_scanned
  ScanTemplateSpan_scanned ScanNumber_scanned ScanString_scanned ScanPrivateName_scanned
  ScanIdentifierOrKeyword_scanned SkipWhiteSpace_skips ScanHtmlComment_skips
  SkipSourceURLComment_skips SkipMultiLineComment_skips : yields.

Lemma ScanPunctuator_result t c m :
  ScanPunctuator t c = Some m -> yields (St:=Scanner) round_result m.
Proof.
  destruct t; intros E; try discriminate E; apply (inj Some) in E; subst m; yields_go.
Qed.

Lemma ScanAsciiToken_result t : yields (St:=Scanner) round_result (ScanAsciiToken t).
Proof.
  destruct t; cbn [ScanAsciiToken]; try done; try solve [eauto with yields].
  all: try (do 2 (eapply yields_bind; [apply yields_any|intros ? _]);
            destruct (ScanPunctuator _ _) eqn:E; [by apply ScanPunctuator_result in E|done]).
  yields_go.
Qed.

Lemma ScanSingleToken_scanned : scanned ScanSingleToken.
Proof.
  unfold ScanSingleToken. apply yields_scan_loop. intros _.
  do 2 (eapply yields_bind; [apply yields_any|intros ? _]).
  apply (yields_bind round_result).
  - destruct (_ <=? _); [apply ScanAsciiToken_result|]. unfold ScanNonAsciiToken.
    yields_go.
  - intros [t|t] Ht; apply yields_ret; [|done]. case_bool_decide; [done|]. by destruct t.
Qed.
End Results.
