(* ===== verification/ScannerSpec.v ===== *)
(** * Specifications of the scanner's primitives

    The invariant [scanner_ok] of the scanner, the relations that say what a
    scanning function leaves alone, and a weakest-precondition specification of
    each operation of [ScannerState.v] on the abstract view of the scanner: the
    look-ahead [c0_], the characters behind it and the literal collected. *)

From S2P Require Import Prelude.
From S2P Require Import CharPredicates.
From S2P Require Import Tokens.
From S2P Require Import Keywords.
From S2P Require Import LiteralBuffer.
From S2P Require Import Stream.
From S2P Require Import ScannerState.
From stdpp Require Import base list numbers decidable.
From Stdlib Require Import ZArith Lia Bool.

Local Open Scope Z_scope.
Local Open Scope prog_scope.

Section Specs.
Context {D : Type} {BR : BlockReader D} {BOK : BlockReaderOK D}.
Local Abbreviation Scanner := (Scanner D).
Local Abbreviation SM := (M Scanner).
Implicit Types s : Scanner.

(** ** The invariant *)

Definition desc_ok (d : TokenDesc) : Prop :=
  buffer_ok (literal_chars d) /\ buffer_ok (raw_literal_chars d).

(** Every literal buffer is well formed. *)
Record members_ok s : Prop := {
  ok_descs p : desc_ok (storage_get p (token_storage_ s));
  ok_source_url : buffer_ok (source_url_ s);
  ok_source_mapping_url : buffer_ok (source_mapping_url_ s);
  ok_source_dialect_name : buffer_ok (source_dialect_name_ s)
}.

(** The look-ahead character fits the stream behind it: at the end of the input
    nothing is left, and otherwise the cursor is inside the loaded block. *)
Record input_ok (st : Utf16CharacterStream D) (c : Z) : Prop := {
  ok_stream : stream_ok st;
  ok_c0 : c = kEndOfInput \/ 0 <= c <= kMaxCodePoint;
  ok_pos : 1 <= pos st;
  ok_readable : c <> kEndOfInput -> readable st /\ has_parser_error_ st = false;
  ok_end : c = kEndOfInput -> rest st = []
}.

Definition scanner_ok s : Prop := members_ok s /\ input_ok (source_ s) (c0_ s).

(** ** The abstract view *)

Definition lit s : list Z := code_units (literal_chars (next s)).
Definition lit_one_byte s : bool := is_one_byte_ (literal_chars (next s)).
Definition raw_lit s : list Z := code_units (raw_literal_chars (next s)).
Definition ahead s : list Z := rest (source_ s).

(** The characters not consumed yet, the look-ahead first. *)
Definition chars_left s : list Z := if c0_ s =? kEndOfInput then [] else c0_ s :: ahead s.

(** ** Frames *)

(** What the literal scanners leave alone: every member but the stream, the
    look-ahead, the error fields and the buffers and value of the next token. *)
Definition desc_core (d : TokenDesc) :=
  (location d, token d, invalid_template_escape_message d,
   invalid_template_escape_location d, after_line_terminator d).

Definition core s :=
  (flags_ s, (current_ s, next_ s, next_next_ s), found_html_comment_ s,
   (source_url_ s, source_mapping_url_ s, source_dialect_name_ s, source_dialect_ s),
   (saw_non_comment_token_ s, found_source_dialect_comment_ s), desc_core (next s)).

Record lit_frame s s' : Prop := {
  lf_text : text (source_ s') = text (source_ s);
  lf_error : has_parser_error s' = has_parser_error s;
  lf_left : (input_left s' <= input_left s)%nat;
  lf_core : core s' = core s;
  lf_slots p : p <> next_ s ->
    storage_get p (token_storage_ s') = storage_get p (token_storage_ s)
}.

(** A token or a dialect comment has been seen. *)
Definition dialect_fixed s : Prop :=
  saw_non_comment_token_ s = true \/ found_source_dialect_comment_ s = true.

(** A descriptor that is not scanned into changes only when the scanner stops. *)
Definition same_or_illegal (d d' : TokenDesc) : Prop := d' = d \/ d' = mark_illegal d.

(** What every scanning function leaves alone: the text, the flags, the
    pointers, the descriptors of the other tokens, and the dialect once it is
    fixed. *)
Record frame s s' : Prop := {
  fr_text : text (source_ s') = text (source_ s);
  fr_error : has_parser_error s = true -> has_parser_error s' = true;
  fr_left : (input_left s' <= input_left s)%nat;
  fr_flags : flags_ s' = flags_ s;
  fr_pointers : (current_ s', next_ s', next_next_ s') = (current_ s, next_ s, next_next_ s);
  fr_saw : saw_non_comment_token_ s' = saw_non_comment_token_ s;
  fr_found : found_source_dialect_comment_ s = true -> found_source_dialect_comment_ s' = true;
  fr_dialect : dialect_fixed s -> source_dialect_ s' = source_dialect_ s;
  fr_slots p : p <> next_ s ->
    same_or_illegal (storage_get p (token_storage_ s)) (storage_get p (token_storage_ s'))
}.

Lemma lit_frame_refl s : lit_frame s s.
Proof. split; done. Qed.

Lemma lit_frame_next s s' : lit_frame s s' -> next_ s' = next_ s.
Proof. intros H. pose proof (lf_core _ _ H) as E. unfold core in E. congruence. Qed.

Lemma lit_frame_trans s1 s2 s3 : lit_frame s1 s2 -> lit_frame s2 s3 -> lit_frame s1 s3.
Proof.
  intros H1 H2. pose proof (lit_frame_next _ _ H1) as Hn. destruct H1, H2. split.
  - congruence.
  - congruence.
  - lia.
  - congruence.
  - intros p Hp. rewrite lf_slots1 by congruence. auto.
Qed.

Lemma lit_frame_dialect s s' : lit_frame s s' -> source_dialect_ s' = source_dialect_ s.
Proof. intros H. pose proof (lf_core _ _ H) as E. unfold core in E. congruence. Qed.

Lemma mark_illegal_idemp d : mark_illegal (mark_illegal d) = mark_illegal d.
Proof.
  unfold mark_illegal at 2. case_bool_decide as E; [done|].
  unfold mark_illegal. rewrite (bool_decide_eq_false_2 (token d = _)) by done. done.
Qed.

Lemma same_or_illegal_trans d1 d2 d3 :
  same_or_illegal d1 d2 -> same_or_illegal d2 d3 -> same_or_illegal d1 d3.
Proof.
  intros [->| ->] [->| ->]; rewrite ?mark_illegal_idemp; first [by left | by right].
Qed.

Lemma frame_refl s : frame s s.
Proof. split; try done. intros. by left. Qed.

Lemma frame_trans s1 s2 s3 : frame s1 s2 -> frame s2 s3 -> frame s1 s3.
Proof.
  intros [] []. assert (dialect_fixed s1 -> dialect_fixed s2)
    by (intros [H|H]; [left; congruence|right; auto]).
  split; try first [congruence | lia | by auto].
  - intros Hd. rewrite fr_dialect1 by auto. auto.
  - intros p Hp. eapply same_or_illegal_trans; [by apply fr_slots0|apply fr_slots1; congruence].
Qed.

Lemma lit_frame_frame s s' : lit_frame s s' -> frame s s'.
Proof.
  intros []. unfold core in *. split; try first [congruence | done].
  intros p Hp. left. auto.
Qed.

(** ** Helper facts *)

Lemma storage_get_set_eq p d ts : storage_get p (storage_set p d ts) = d.
Proof. by destruct p. Qed.

Lemma storage_get_set_ne p q d ts :
  p <> q -> storage_get p (storage_set q d ts) = storage_get p ts.
Proof. by destruct p, q. Qed.

Lemma storage_get_map p f ts : storage_get p (storage_map f ts) = f (storage_get p ts).
Proof. by destruct p. Qed.

Lemma next_update_next f s : next (update_next f s) = f (next s).
Proof. unfold next, update_next, update_slot. cbn. by rewrite storage_get_set_eq. Qed.

Lemma members_ok_next s : members_ok s -> desc_ok (next s).
Proof. intros H. apply H. Qed.

Lemma members_ok_update_slot p f s :
  members_ok s -> (forall d, desc_ok d -> desc_ok (f d)) -> members_ok (update_slot p f s).
Proof.
  intros [Hd H1 H2 H3] Hf. split; cbn; [|done..]. intros q. destruct (decide (q = p)) as [->|Hne].
  - rewrite storage_get_set_eq. auto.
  - rewrite storage_get_set_ne by done. auto.
Qed.

Lemma input_left_eof s : c0_ s = kEndOfInput -> input_left s = 0%nat.
Proof. intros E. unfold input_left. by rewrite E. Qed.

Lemma input_left_more s : c0_ s <> kEndOfInput -> input_left s = S (length (ahead s)).
Proof. intros E. unfold input_left. by destruct (Z.eqb_spec (c0_ s) kEndOfInput). Qed.

Lemma input_ok_no_error s :
  input_ok (source_ s) (c0_ s) -> c0_ s <> kEndOfInput -> has_parser_error s = false.
Proof. intros H E. by apply H. Qed.

Lemma input_ok_uc32 s : input_ok (source_ s) (c0_ s) -> is_uc32 (c0_ s).
Proof. intros [_ Hc _ _ _]. unfold is_uc32, kEndOfInput, kMaxCodePoint in *. lia. Qed.

(** ** Primitive operations *)

Definition errors s := (scanner_error_ s, scanner_error_location_ s, octal_pos_ s, octal_message_ s).
Definition input s := (source_ s, c0_ s).

(** [s'] is [s] with one more character consumed. *)
Record advanced s s' : Prop := {
  ad_ok : scanner_ok s';
  ad_frame : lit_frame s s';
  ad_c0 : c0_ s' = hd kEndOfInput (ahead s);
  ad_ahead : ahead s' = tl (ahead s);
  ad_pos : pos (source_ s') = pos (source_ s) + 1;
  ad_left : input_left s' = pred (input_left s);
  ad_next : next s' = next s;
  ad_errors : errors s' = errors s;
  ad_cursor : readable (source_ s) -> buffer_cursor_ (source_ s') <= buffer_end_ (source_ s') + 1
}.

Lemma hd_uc16 l :
  Forall is_uc16 l -> hd kEndOfInput l = kEndOfInput \/ 0 <= hd kEndOfInput l <= kMaxCodePoint.
Proof.
  destruct l as [|c l]; [by left|]. intros H. apply Forall_cons_1 in H as [H _].
  right. unfold is_uc16, kMaxCodePoint in *. cbn. lia.
Qed.

Lemma uc16_not_eof c : is_uc16 c -> c <> kEndOfInput.
Proof. unfold is_uc16, kEndOfInput. lia. Qed.

(** Advancing establishes the input invariant from any well-formed stream. *)
Lemma AdvanceSource_input st :
  stream_ok st -> 0 <= pos st -> (has_parser_error_ st = true -> rest st = []) ->
  exists st', Stream.Advance st = (hd kEndOfInput (rest st), st') /\
    input_ok st' (hd kEndOfInput (rest st)) /\ text st' = text st /\
    has_parser_error_ st' = has_parser_error_ st /\ pos st' = pos st + 1 /\
    rest st' = tl (rest st) /\
    (readable st -> buffer_cursor_ st' <= buffer_end_ st' + 1).
Proof.
  intros Hok Hp He. pose proof (rest_uc16 st Hok) as Hu.
  destruct (Stream_Advance_spec st Hok) as (st' & -> & Hok' & Ht & He' & Hp' & Hr & Hrd & Hc & _).
  exists st'. split; [done|]. split; [|done]. split; [done|by apply hd_uc16|lia| |].
  - intros Hne. destruct (rest st) eqn:E; [done|]. split; [by apply Hrd|].
    destruct (has_parser_error_ st); [by specialize (He eq_refl)|done].
  - intros Heq. rewrite Hr. destruct (rest st) as [|c l]; [done|]. cbn in Heq.
    apply Forall_cons_1 in Hu as [Hu _]. by apply uc16_not_eof in Hu.
Qed.

Lemma input_ok_stream s :
  input_ok (source_ s) (c0_ s) ->
  stream_ok (source_ s) /\ 0 <= pos (source_ s) /\
  (has_parser_error_ (source_ s) = true -> rest (source_ s) = []).
Proof.
  intros [Hok _ Hp Hrd He]. split; [done|]. split; [lia|]. intros Herr. apply He.
  destruct (decide (c0_ s = kEndOfInput)) as [|Hne]; [done|].
  destruct (Hrd Hne). congruence.
Qed.

Lemma input_left_advance s s' :
  input_ok (source_ s) (c0_ s) -> c0_ s' = hd kEndOfInput (ahead s) ->
  ahead s' = tl (ahead s) -> input_left s' = pred (input_left s).
Proof.
  intros Hi Hc Ha. pose proof (rest_uc16 _ (ok_stream _ _ Hi)) as Hu. unfold input_left.
  destruct (Z.eqb_spec (c0_ s) kEndOfInput) as [E|E].
  - rewrite Hc. unfold ahead. by rewrite (ok_end _ _ Hi E).
  - fold (ahead s) (ahead s') in *. rewrite Hc, Ha. destruct (ahead s) as [|c l]; [done|].
    apply Forall_cons_1 in Hu as [Hu _]. cbn.
    by destruct (Z.eqb_spec c kEndOfInput) as [->|]; [apply uc16_not_eof in Hu|].
Qed.

Lemma AdvanceSource_spec s :
  scanner_ok s -> wp AdvanceSource (fun _ s' => advanced s s') s.
Proof.
  intros [Hm Hi]. destruct (input_ok_stream s Hi) as (H1 & H2 & H3).
  destruct (AdvanceSource_input _ H1 H2 H3) as (st' & E & Hi' & Ht & He & Hp & Hr & Hc).
  unfold AdvanceSource. apply wp_modify. rewrite E.
  set (s' := set_c0 _ _).
  assert (Hl : input_left s' = pred (input_left s)) by (by apply input_left_advance).
  assert (Hm' : members_ok s') by (destruct Hm; by split).
  split; [done| |done..]. split; [done|done|rewrite Hl; lia|done|done].
Qed.

Lemma Advance_spec s : scanner_ok s -> wp (Advance false) (fun _ s' => advanced s s') s.
Proof. intros H. apply wp_bind, wp_ret. by apply AdvanceSource_spec. Qed.

(** [s'] is [s] with different literal buffers of the next token. *)
Record collected s s' : Prop := {
  co_ok : scanner_ok s';
  co_frame : lit_frame s s';
  co_input : input s' = input s;
  co_errors : errors s' = errors s
}.

Lemma collected_ahead s s' : collected s s' -> ahead s' = ahead s /\ c0_ s' = c0_ s.
Proof. intros [_ _ H _]. unfold input, ahead in *. split; congruence. Qed.

Lemma update_next_collected f s :
  scanner_ok s -> (forall d, desc_ok d -> desc_ok (f d)) ->
  (forall d, desc_core (f d) = desc_core d) ->
  collected s (update_next f s).
Proof.
  intros [Hm Hi] Hf Hc. split; [split; [by apply members_ok_update_slot|done]| |done|done].
  split; try done.
  - unfold core. rewrite next_update_next, Hc. done.
  - intros p Hp. cbn. by rewrite storage_get_set_ne.
Qed.

Lemma set_literal_collected b s :
  scanner_ok s -> buffer_ok b -> collected s (update_next (desc_set_literal_chars b) s).
Proof. intros H Hb. apply update_next_collected; [done| |done]. intros d []. by split. Qed.

Lemma set_raw_literal_collected b s :
  scanner_ok s -> buffer_ok b -> collected s (update_next (desc_set_raw_literal_chars b) s).
Proof. intros H Hb. apply update_next_collected; [done| |done]. intros d []. by split. Qed.

Lemma next_buffers s : scanner_ok s ->
  buffer_ok (literal_chars (next s)) /\ buffer_ok (raw_literal_chars (next s)).
Proof. intros [Hm _]. apply (members_ok_next s Hm). Qed.

Lemma AddLiteralChar_spec c s :
  scanner_ok s -> 0 <= c ->
  wp (AddLiteralChar c)
    (fun _ s' =>
       collected s s' /\ lit s' = lit s ++ utf16_encode c /\
       lit_one_byte s' = lit_one_byte s && (c <=? kLatin1MaxChar) /\ raw_lit s' = raw_lit s) s.
Proof.
  intros Hok Hc. destruct (next_buffers s Hok) as [Hb _].
  destruct (AddChar_spec _ c Hb Hc) as (b & E & Hb' & Ho & Hu).
  unfold wp, AddLiteralChar, buffer_op. rewrite E. split; [by apply set_literal_collected|].
  unfold lit, lit_one_byte, raw_lit. rewrite next_update_next. done.
Qed.

Lemma AddLiteralAsciiChar_spec c s :
  scanner_ok s -> 0 <= c < 128 -> lit_one_byte s = true ->
  wp (AddLiteralAsciiChar c)
    (fun _ s' =>
       collected s s' /\ lit s' = lit s ++ [c] /\ lit_one_byte s' = true /\
       raw_lit s' = raw_lit s) s.
Proof.
  intros Hok Hc Ho. destruct (next_buffers s Hok) as [Hb _].
  destruct (AddAsciiChar_spec _ c Hb Ho Hc) as (b & E & Hb' & Ho' & Hu).
  unfold wp, AddLiteralAsciiChar, buffer_op. rewrite E. split; [by apply set_literal_collected|].
  unfold lit, lit_one_byte, raw_lit. rewrite next_update_next. done.
Qed.

Lemma AddRawLiteralChar_spec c s :
  scanner_ok s -> 0 <= c ->
  wp (AddRawLiteralChar c)
    (fun _ s' =>
       collected s s' /\ lit s' = lit s /\ lit_one_byte s' = lit_one_byte s /\
       raw_lit s' = raw_lit s ++ utf16_encode c) s.
Proof.
  intros Hok Hc. destruct (next_buffers s Hok) as [_ Hb].
  destruct (AddChar_spec _ c Hb Hc) as (b & E & Hb' & Ho & Hu).
  unfold wp, AddRawLiteralChar, buffer_op. rewrite E. split; [by apply set_raw_literal_collected|].
  unfold lit, lit_one_byte, raw_lit. rewrite next_update_next. done.
Qed.

Lemma StartLiteral_spec s :
  scanner_ok s ->
  wp StartLiteral
    (fun _ s' => collected s s' /\ lit s' = [] /\ lit_one_byte s' = true /\
       raw_lit s' = raw_lit s) s.
Proof.
  intros Hok. destruct (next_buffers s Hok) as [Hb _].
  destruct (Start_spec _ Hb) as (Hb' & Ho & Hu). apply wp_modify. split.
  - apply update_next_collected; [done| |done]. intros d []. split; [by apply Start_spec|done].
  - unfold lit, lit_one_byte, raw_lit. rewrite next_update_next. done.
Qed.

Lemma StartRawLiteral_spec s :
  scanner_ok s ->
  wp StartRawLiteral
    (fun _ s' => collected s s' /\ lit s' = lit s /\ lit_one_byte s' = lit_one_byte s /\
       raw_lit s' = []) s.
Proof.
  intros Hok. destruct (next_buffers s Hok) as [_ Hb].
  destruct (Start_spec _ Hb) as (Hb' & Ho & Hu). apply wp_modify. split.
  - apply update_next_collected; [done| |done]. intros d []. split; [done|by apply Start_spec].
  - unfold lit, lit_one_byte, raw_lit. rewrite next_update_next. done.
Qed.

Lemma Advance_raw_spec s :
  scanner_ok s ->
  wp (Advance true)
    (fun _ s' =>
       exists s1, collected s s1 /\ advanced s1 s' /\ lit s' = lit s /\
         lit_one_byte s' = lit_one_byte s /\ raw_lit s' = raw_lit s ++ utf16_encode (c0_ s)) s.
Proof.
  intros Hok. assert (Hc : 0 <= c0_ s) by (destruct Hok as [_ Hi]; apply (input_ok_uc32 s Hi)).
  apply wp_bind. eapply wp_mono; [apply wp_bind, wp_gets, AddRawLiteralChar_spec; done|].
  intros [] s1 (H1 & Hl & Ho & Hr). eapply wp_mono; [apply AdvanceSource_spec, H1|].
  intros [] s' H'. exists s1. unfold lit, lit_one_byte, raw_lit in *. by rewrite (ad_next _ _ H').
Qed.

Lemma AddLiteralCharAdvance_spec s :
  scanner_ok s ->
  wp AddLiteralCharAdvance
    (fun _ s' =>
       exists s1, collected s s1 /\ advanced s1 s' /\ lit s' = lit s ++ utf16_encode (c0_ s) /\
         lit_one_byte s' = lit_one_byte s && (c0_ s <=? kLatin1MaxChar) /\
         raw_lit s' = raw_lit s) s.
Proof.
  intros Hok. assert (Hc : 0 <= c0_ s) by (destruct Hok as [_ Hi]; apply (input_ok_uc32 s Hi)).
  unfold AddLiteralCharAdvance. apply wp_bind, wp_gets, wp_bind.
  eapply wp_mono; [by apply AddLiteralChar_spec|].
  intros [] s1 (H1 & Hl & Ho & Hr). eapply wp_mono; [apply Advance_spec, H1|].
  intros [] s' H'. exists s1. unfold lit, lit_one_byte, raw_lit in *. by rewrite (ad_next _ _ H').
Qed.

(** Recording an error changes the error fields only. *)
Record reported s s' : Prop := {
  rp_ok : scanner_ok s';
  rp_frame : lit_frame s s';
  rp_input : input s' = input s;
  rp_next : next s' = next s
}.

Lemma reported_refl s : scanner_ok s -> reported s s.
Proof. intros. by split; [|apply lit_frame_refl|..]. Qed.

Lemma set_scanner_error_reported e l s :
  scanner_ok s -> reported s (set_scanner_error_location l (set_scanner_error e s)).
Proof. intros [[] Hi]. split; [by split|by split|done|done]. Qed.

Lemma set_octal_reported e l s :
  scanner_ok s -> reported s (set_octal_message e (set_octal_pos l s)).
Proof. intros [[] Hi]. split; [by split|by split|done|done]. Qed.

Lemma ReportScannerError_spec l e s :
  scanner_ok s ->
  wp (ReportScannerError l e)
    (fun _ s' => reported s s' /\ (e <> kNone -> has_error s' = true)) s.
Proof.
  intros Hok. apply wp_modify. destruct (has_error s) eqn:E.
  - split; [by apply reported_refl|done].
  - split; [by apply set_scanner_error_reported|]. intros He. unfold has_error. cbn.
    by rewrite bool_decide_false.
Qed.

Lemma PeekChar_spec s :
  scanner_ok s ->
  wp PeekChar
    (fun c s' =>
       scanner_ok s' /\ lit_frame s s' /\ c = hd kEndOfInput (ahead s) /\
       ahead s' = ahead s /\ c0_ s' = c0_ s /\ pos (source_ s') = pos (source_ s) /\
       next s' = next s /\ errors s' = errors s) s.
Proof.
  intros [Hm Hi]. unfold wp, PeekChar.
  destruct (Peek_spec (source_ s) (ok_stream _ _ Hi)) as (st' & -> & Hok & (Ht & Hp & He & Hr) & Hrd & _).
  assert (Hi' : input_ok st' (c0_ s)).
  { destruct Hi as [Hi1 Hi2 Hi3 Hi4 Hi5]. split; [done|done|lia| |].
    - intros Hne. destruct (Hi4 Hne). split; [auto|congruence].
    - intros E. rewrite Hr. auto. }
  split; [split; [destruct Hm; by split|done]|]. split.
  - split; try done. unfold input_left. cbn. by rewrite Hr.
  - done.
Qed.

(** ** Loops *)

Lemma wp_scan_loop {A B} (I : A -> Scanner -> Prop) (body : A -> SM (A + B)) Q a s :
  I a s ->
  (forall a s1, I a s1 ->
     wp (body a)
       (fun r s2 =>
          match r with
          | inl a' => I a' s2 /\ (input_left s2 < input_left s1)%nat
          | inr b => Q b s2
          end) s1) ->
  wp (scan_loop body a) Q s.
Proof.
  intros HI Hb. change (wp (loop (S (S (input_left s))) body a) Q s).
  apply (wp_loop I (fun _ => input_left)); [|done|lia]. intros a1 s1 H1. by apply Hb.
Qed.

(** The state after [AdvanceUntil] stopped behind the characters [pre], in
    terms of the state [s2] its check has produced. *)
Record stopped_at s s2 s' (pre : list Z) : Prop := {
  st_input : input_ok (source_ s') (c0_ s');
  st_stop :
    (exists c r, ahead s = pre ++ c :: r /\ c0_ s' = c /\ ahead s' = r /\ is_uc16 c) \/
    (ahead s = pre /\ c0_ s' = kEndOfInput /\ ahead s' = []);
  st_text : text (source_ s') = text (source_ s);
  st_error : has_parser_error s' = has_parser_error s;
  st_pos : pos (source_ s') = pos (source_ s) + Z.of_nat (length pre) + 1;
  st_state : s' = set_c0 (c0_ s') (set_source (source_ s') s2)
}.

(** What [scan_until] computes, from what each check preserves. *)
Lemma scan_until_check {L} (check : Z -> L -> SM (bool * L))
    (J : list Z -> L -> Scanner -> Prop) (F : list Z -> Z -> L -> Scanner -> Prop) :
  (forall pre c l1 s1, J pre l1 s1 -> is_uc16 c ->
     wp (check c l1)
       (fun r s2 => if fst r : bool then F pre c (snd r) s2 else J (pre ++ [c]) (snd r) s2) s1) ->
  forall chars pre l1 s1, J pre l1 s1 -> Forall is_uc16 chars ->
  exists r l2 s2, scan_until (run_check check) (l1, s1) chars = Ok (r, (l2, s2)) /\
    match r with
    | Some (c, tail) => exists mid, chars = mid ++ c :: tail /\ F (pre ++ mid) c l2 s2
    | None => J (pre ++ chars) l2 s2
    end.
Proof.
  intros Hc. induction chars as [|c chars IH]; intros pre l1 s1 HJ Hu.
  { exists None, l1, s1. split; [done|]. by rewrite app_nil_r. }
  apply Forall_cons_1 in Hu as [Hu Hin].
  destruct (wp_ok _ _ _ (Hc pre c l1 s1 HJ Hu)) as ([found l2] & s2 & E & H2).
  cbn [scan_until]. unfold run_check. cbn [fst snd]. rewrite E. cbn [fst snd] in H2.
  destruct found.
  - exists (Some (c, chars)), l2, s2. split; [done|]. exists []. by rewrite app_nil_r.
  - destruct (IH _ _ _ H2 Hin) as (r & l3 & s3 & E3 & H3). exists r, l3, s3.
    split; [exact E3|]. destruct r as [[c' tail]|].
    + destruct H3 as (mid & -> & HF). exists (c :: mid). split; [done|].
      by rewrite <- app_assoc in HF.
    + by rewrite <- app_assoc in H3.
Qed.

Lemma wp_AdvanceUntil {L} (check : Z -> L -> SM (bool * L))
    (J : list Z -> L -> Scanner -> Prop) (F : list Z -> Z -> L -> Scanner -> Prop) Q l s :
  input_ok (source_ s) (c0_ s) -> c0_ s <> kEndOfInput -> J [] l s ->
  (forall pre c l1 s1, J pre l1 s1 -> is_uc16 c ->
     wp (check c l1)
       (fun r s2 => if fst r : bool then F pre c (snd r) s2 else J (pre ++ [c]) (snd r) s2) s1) ->
  (forall pre l2 s2 s', stopped_at s s2 s' pre ->
     ((exists c, c0_ s' = c /\ c <> kEndOfInput /\ F pre c l2 s2) \/
      (c0_ s' = kEndOfInput /\ J pre l2 s2)) ->
     Q l2 s') ->
  wp (AdvanceUntil check l) Q s.
Proof.
  intros Hi Hne HJ Hcheck HQ. destruct (ok_readable _ _ Hi Hne) as [Hrd He].
  pose proof (rest_uc16 _ (ok_stream _ _ Hi)) as Hu.
  destruct (scan_until_check check J F Hcheck (ahead s) [] l s HJ Hu)
    as (r & l2 & s2 & E & Hr). cbn [app] in Hr.
  destruct (AdvanceUntil_spec (run_check check) (l, s) (source_ s) r (l2, s2)
              (ok_stream _ _ Hi) Hrd E) as (c & st & EA & Hok & Ht & He' & Hres).
  unfold wp, AdvanceUntil. rewrite EA. pose proof (ok_pos _ _ Hi) as Hp.
  destruct r as [[c' tail]|].
  - destruct Hres as (-> & Htail & Hrd' & Hpos). destruct Hr as (mid & Hmid & HF).
    assert (Hu' : is_uc16 c').
    { unfold ahead in Hmid. rewrite Hmid in Hu. apply Forall_app in Hu as [_ Hu].
      by apply Forall_cons_1 in Hu as [Hu _]. }
    unfold ahead in Hmid. rewrite Hmid, length_app in Hpos. cbn in Hpos.
    apply (HQ mid l2 s2); [|left; exists c'; split; [done|split; [by apply uc16_not_eof|done]]].
    assert (0 <= c' <= kMaxCodePoint) by (unfold is_uc16, kMaxCodePoint in *; lia).
    split; cbn; [| |done|done|lia|done].
    + split; [done|by right|lia|intros _; split; [done|congruence]|].
      intros Ec. by apply uc16_not_eof in Hu'.
    + left. exists c', tail. done.
  - destruct Hres as (-> & Htail & Hpos).
    apply (HQ (ahead s) l2 s2); [|by right].
    split; cbn; [|by right|done|done|done|done].
    split; [done|by left|lia|done|done].
Qed.

(** The check collects literals only. *)
Lemma AdvanceUntil_collect {L} (check : Z -> L -> SM (bool * L))
    (J : list Z -> L -> Scanner -> Prop) (F : list Z -> Z -> L -> Scanner -> Prop) l s :
  scanner_ok s -> c0_ s <> kEndOfInput -> J [] l s ->
  (forall pre c l1 s1, collected s s1 -> J pre l1 s1 -> is_uc16 c ->
     wp (check c l1)
       (fun r s2 => collected s1 s2 /\
          if fst r : bool then F pre c (snd r) s2 else J (pre ++ [c]) (snd r) s2) s1) ->
  wp (AdvanceUntil check l)
    (fun l2 s' => exists pre s2, collected s s2 /\ stopped_at s s2 s' pre /\
       ((exists c, c0_ s' = c /\ c <> kEndOfInput /\ F pre c l2 s2) \/
        (c0_ s' = kEndOfInput /\ J pre l2 s2))) s.
Proof.
  intros [Hm Hi] Hne HJ Hc.
  apply (wp_AdvanceUntil _ (fun pre l1 s1 => collected s s1 /\ J pre l1 s1)
           (fun pre c l1 s1 => collected s s1 /\ F pre c l1 s1)); [done|done| | |].
  - split; [|done]. by split; [split|apply lit_frame_refl|..].
  - intros pre c l1 s1 [H1 HJ1] Hu. eapply wp_mono; [by apply Hc|].
    intros [found l2] s2 [H2 HF]. cbn in *.
    assert (collected s s2) by (destruct H1, H2; split; [done|by eapply lit_frame_trans|congruence..]).
    destruct found; done.
  - intros pre l2 s2 s' Hst [(c & E & Hnc & H2 & HF)|(E & H2 & HJ2)]; exists pre, s2;
      (split; [done|]); (split; [done|]); [left; exists c; done|by right].
Qed.

(** Stopping keeps the invariant and consumes at least the look-ahead. *)
Lemma stopped_left s s2 s' pre :
  c0_ s <> kEndOfInput -> stopped_at s s2 s' pre -> (input_left s' < input_left s)%nat.
Proof.
  intros Hne Hst. rewrite (input_left_more s Hne).
  destruct (st_stop _ _ _ _ Hst) as [(c & r & Ha & Hc & Hr & _)|(Ha & Hc & Hr)].
  - unfold input_left. fold (ahead s'). rewrite Hr, Ha, length_app. cbn. case_match; lia.
  - rewrite (input_left_eof s' Hc). lia.
Qed.

Lemma stopped_next s s2 s' pre : stopped_at s s2 s' pre -> next s' = next s2.
Proof. intros Hst. by rewrite (st_state _ _ _ _ Hst). Qed.

Lemma stopped_collected s s2 s' pre :
  c0_ s <> kEndOfInput -> collected s s2 -> stopped_at s s2 s' pre ->
  scanner_ok s' /\ lit_frame s s' /\ errors s' = errors s /\ lit s' = lit s2 /\
  lit_one_byte s' = lit_one_byte s2 /\ (input_left s' < input_left s)%nat.
Proof.
  intros Hne [[Hm2 _] Hf2 Hi2 He2] Hst. pose proof (stopped_left _ _ _ _ Hne Hst) as Hl.
  pose proof (stopped_next _ _ _ _ Hst) as Hn. pose proof (st_state _ _ _ _ Hst) as Hs.
  assert (members_ok s') by (rewrite Hs; destruct Hm2; by split).
  split; [split; [done|apply Hst]|]. split.
  - destruct Hf2. split; [apply Hst|apply Hst|lia| |].
    + rewrite <- lf_core0, Hs. done.
    + intros p Hp. rewrite <- lf_slots0 by done. by rewrite Hs.
  - unfold lit, lit_one_byte. rewrite Hn. split; [|done]. rewrite <- He2. by rewrite Hs.
Qed.

(** ** Surrogate pairs and pushing back *)

Lemma int32_c0 s : scanner_ok s -> c0_ s <> kEndOfInput -> int32 (c0_ s) = c0_ s.
Proof.
  intros [_ Hi] Hne. destruct (ok_c0 _ _ Hi) as [|Hc]; [done|].
  apply int32_small. unfold kMaxCodePoint in Hc. lia.
Qed.

Lemma IsLeadSurrogate_eof : IsLeadSurrogate (int32 kEndOfInput) = false.
Proof. done. Qed.

Lemma IsTrailSurrogate_eof : IsTrailSurrogate (int32 kEndOfInput) = false.
Proof. done. Qed.

(** Stepping forward over a character that is then stepped back over. *)
Lemma unread_view s :
  input_ok (source_ s) (c0_ s) ->
  let st := Back (snd (Stream.Advance (source_ s))) in
  input_ok st (c0_ s) /\ same_view (source_ s) st.
Proof.
  intros [Hok Hc Hp Hrd He]. cbn.
  destruct (Back_Advance (source_ s) Hok) as (st' & -> & Hok' & (Ht & Hp' & He' & Hr) & Hrd' & _).
  split; [|done]. split; [done|done|lia| |].
  - intros Hne. destruct (Hrd Hne). split; [auto|congruence].
  - intros E. rewrite Hr. auto.
Qed.

Record combined s s' : Prop := {
  cb_ok : scanner_ok s';
  cb_frame : lit_frame s s';
  cb_next : next s' = next s;
  cb_errors : errors s' = errors s
}.

Lemma CombineSurrogatePairM_spec s :
  scanner_ok s ->
  wp CombineSurrogatePairM
    (fun b s' =>
       combined s s' /\
       if b : bool then
         exists trail, ahead s = trail :: ahead s' /\ 0xd800 <= c0_ s <= 0xdbff /\
           0xdc00 <= trail <= 0xdfff /\ c0_ s' = CombineSurrogatePair (c0_ s) trail /\
           pos (source_ s') = pos (source_ s) + 1 /\ input_left s' = pred (input_left s)
       else
         ahead s' = ahead s /\ c0_ s' = c0_ s /\ pos (source_ s') = pos (source_ s)) s.
Proof.
  intros Hok. pose proof Hok as [Hm Hi]. unfold wp, CombineSurrogatePairM.
  assert (Hself : combined s s /\ ahead s = ahead s /\ c0_ s = c0_ s /\ pos (source_ s) = pos (source_ s))
    by (split; [by split; [|apply lit_frame_refl|..]|done]).
  destruct (IsLeadSurrogate (int32 (c0_ s))) eqn:Hlead; [|done].
  assert (Hne : c0_ s <> kEndOfInput) by (intros E; by rewrite E in Hlead).
  rewrite (int32_c0 s Hok Hne) in Hlead.
  destruct (ok_c0 _ _ Hi) as [|Hc]; [done|].
  rewrite IsLeadSurrogate_spec in Hlead by done. unfold within in Hlead. bool_to_prop.
  destruct (input_ok_stream s Hi) as (H1 & H2 & H3).
  pose proof (unread_view s Hi) as Hback. cbn in Hback.
  destruct (AdvanceSource_input _ H1 H2 H3) as (st' & E & Hi' & Ht & He & Hp & Hr & _).
  rewrite E in *. cbn [snd] in Hback. fold (ahead s) in *.
  pose proof (rest_uc16 _ H1) as Hu. fold (ahead s) in Hu.
  destruct (IsTrailSurrogate (int32 (hd kEndOfInput (ahead s)))) eqn:Htrail.
  - destruct (ahead s) as [|c l] eqn:Ea; [done|]. cbn [hd tl] in *.
    apply Forall_cons_1 in Hu as [Hu _].
    assert (0 <= c <= kMaxCodePoint) by (unfold is_uc16, kMaxCodePoint in *; lia).
    rewrite int32_small in Htrail by (unfold kMaxCodePoint in *; lia).
    rewrite IsTrailSurrogate_spec in Htrail by done. unfold within in Htrail. bool_to_prop.
    set (cc := CombineSurrogatePair (c0_ s) c).
    assert (Hcc : 0 <= cc <= kMaxCodePoint)
      by (unfold cc; rewrite CombineSurrogatePair_spec by lia; unfold kMaxCodePoint; lia).
    assert (Hn : cc <> kEndOfInput) by (unfold kMaxCodePoint, kEndOfInput in *; lia).
    set (s' := set_c0 cc (set_source st' s)).
    assert (Hl : input_left s' = pred (input_left s)).
    { rewrite (input_left_more s Hne), (input_left_more s' Hn), Ea. unfold ahead, s'. cbn.
      by rewrite Hr. }
    split; [|exists c; unfold ahead; cbn; rewrite Hr; done].
    split; [split; [destruct Hm; by split|]| |done|done].
    + destruct Hi' as [Ha Hb Hd Hf Hg].
      split; [done|by right|done|intros _; apply Hf; by apply uc16_not_eof|done].
    + split; [done|done|rewrite Hl; lia|done|done].
  - destruct Hback as [Hib (Htb & Hpb & Heb & Hrb)]. split; [|done].
    split; [split; [destruct Hm; by split|done]| |done|done].
    split; try done. unfold input_left. cbn. by rewrite Hrb.
Qed.

(** [PushBack] of the character consumed last restores the input. *)
Lemma PushBack_spec s0 s1 :
  scanner_ok s0 -> c0_ s0 <> kEndOfInput -> scanner_ok s1 -> lit_frame s0 s1 ->
  pos (source_ s1) = pos (source_ s0) + 1 ->
  buffer_cursor_ (source_ s1) <= buffer_end_ (source_ s1) + 1 ->
  wp (PushBack (c0_ s0))
    (fun _ s' => scanner_ok s' /\ lit_frame s0 s' /\ ahead s' = ahead s0 /\ c0_ s' = c0_ s0 /\
       next s' = next s1 /\ errors s' = errors s1) s1.
Proof.
  intros [Hm0 Hi0] Hne [Hm1 Hi1] [Ht He Hl Hc Hs] Hp Hcur. apply wp_modify.
  destruct (ok_readable _ _ Hi0 Hne) as [_ He0]. unfold has_parser_error in He.
  pose proof (ok_pos _ _ Hi0). pose proof (ok_pos _ _ Hi1).
  destruct (Back_spec (source_ s1) (ok_stream _ _ Hi1) ltac:(congruence) ltac:(lia))
    as (Hok & Htb & Heb & Hpb & Hrb & Hrd).
  assert (Ha : rest (Back (source_ s1)) = rest (source_ s0)).
  { rewrite Hrb, Ht, Hp. unfold rest. rewrite He0. do 2 f_equal. lia. }
  split; [split; [destruct Hm1; by split|]|].
  - destruct (ok_c0 _ _ Hi0) as [|Hc0]; [done|].
    split; [done|by right|cbn; lia|intros _; split; [cbn; auto|done]|done].
  - split; [|done]. split; [cbn; congruence|unfold has_parser_error; cbn; congruence| |done|done].
    unfold input_left. cbn. by rewrite Ha.
Qed.
End Specs.

#[export] Hint Resolve lit_frame_refl frame_refl : speak.
