(* ===== verification/LiteralsSafety.v ===== *)
(** * Safety of the literal scanners

    Every function of [Literals.v] ends normally from any well-formed state:
    its loops stop within their bound, no store or table access is out of
    bounds, and the state it leaves is well formed and differs from the first
    one only where the function may change it ([lit_frame]). *)

From S2P Require Import Prelude.
From S2P Require Import CharPredicates.
From S2P Require Import Tokens.
From S2P Require Import Keywords.
From S2P Require Import ScanTables.
From S2P Require Import LiteralBuffer.
From S2P Require Import Stream.
From S2P Require Import ScannerState.
From S2P Require Import Literals.
From S2P Require Import ScannerSpec.
From stdpp Require Import base list numbers decidable.
From Stdlib Require Import ZArith Lia Bool.

Local Open Scope Z_scope.
Local Open Scope prog_scope.

Section Safe.
Context {D : Type} {BR : BlockReader D} {BOK : BlockReaderOK D}.
Local Abbreviation Scanner := (Scanner D).
Local Abbreviation SM := (M Scanner).
Implicit Types s : Scanner.

Definition safe s s' : Prop := scanner_ok s' /\ lit_frame s s'.

(** [m] ends normally in a safe state, with a result that satisfies [P]. *)
Definition runs_safely {A} (m : SM A) (P : A -> Prop) : Prop :=
  forall s, scanner_ok s -> wp m (fun a s' => safe s s' /\ P a) s.

Lemma safe_refl s : scanner_ok s -> safe s s.
Proof. intros. split; [done|apply lit_frame_refl]. Qed.

Lemma safe_trans s0 s s' : safe s0 s -> safe s s' -> safe s0 s'.
Proof. intros [_ H1] [H2 H3]. split; [done|by eapply lit_frame_trans]. Qed.

Lemma safe_left s s' : safe s s' -> (input_left s' <= input_left s)%nat.
Proof. intros [_ []]. done. Qed.

Lemma safe_c0 s0 s : safe s0 s -> 0 <= c0_ s.
Proof. intros [[_ Hi] _]. apply (input_ok_uc32 s Hi). Qed.

(** Rules in continuation form, for stepping through a function body. *)
Lemma step_call {A} (m : SM A) P s0 s Q :
  runs_safely m P -> safe s0 s ->
  (forall a s', safe s0 s' -> (input_left s' <= input_left s)%nat -> P a -> Q a s') ->
  wp m Q s.
Proof.
  intros Hm Hs HQ. eapply wp_mono; [apply Hm, Hs|]. intros a s' [H HP].
  apply HQ; [by eapply safe_trans|by apply safe_left|done].
Qed.

Lemma advanced_safe s s' : advanced s s' -> safe s s'.
Proof. intros []. done. Qed.

Lemma collected_safe s s' : collected s s' -> safe s s'.
Proof. intros []. done. Qed.

Lemma reported_safe s s' : reported s s' -> safe s s'.
Proof. intros []. done. Qed.

Lemma same_input_left s s' : input s' = input s -> input_left s' = input_left s.
Proof. unfold input. intros E. injection E as E1 E2. unfold input_left. by rewrite E1, E2. Qed.

Lemma step_Advance raw s0 s Q :
  safe s0 s ->
  (forall s', safe s0 s' -> input_left s' = pred (input_left s) -> Q tt s') ->
  wp (Advance raw) Q s.
Proof.
  intros Hs HQ. destruct raw.
  - eapply wp_mono; [apply Advance_raw_spec, Hs|]. intros [] s' (s1 & H1 & H' & _).
    apply HQ.
    + eapply safe_trans; [done|]. eapply safe_trans; [by apply collected_safe|by apply advanced_safe].
    + rewrite (ad_left _ _ H'), (same_input_left s s1); [done|apply H1].
  - eapply wp_mono; [apply Advance_spec, Hs|]. intros [] s' H'. apply HQ.
    + eapply safe_trans; [done|by apply advanced_safe].
    + apply H'.
Qed.

Lemma step_AddLiteralCharAdvance s0 s Q :
  safe s0 s ->
  (forall s', safe s0 s' -> input_left s' = pred (input_left s) -> Q tt s') ->
  wp AddLiteralCharAdvance Q s.
Proof.
  intros Hs HQ. eapply wp_mono; [apply AddLiteralCharAdvance_spec, Hs|].
  intros [] s' (s1 & H1 & H' & _). apply HQ.
  - eapply safe_trans; [done|]. eapply safe_trans; [by apply collected_safe|by apply advanced_safe].
  - rewrite (ad_left _ _ H'), (same_input_left s s1); [done|apply H1].
Qed.

Lemma step_quiet (m : SM unit) s0 s Q :
  wp m (fun _ s' => safe s s' /\ input s' = input s) s -> safe s0 s ->
  (forall s', safe s0 s' -> input_left s' = input_left s -> c0_ s' = c0_ s -> Q tt s') ->
  wp m Q s.
Proof.
  intros Hm Hs HQ. eapply wp_mono; [apply Hm|]. intros [] s' [H' E].
  apply HQ; [by eapply safe_trans|by apply same_input_left|unfold input in E; congruence].
Qed.

Lemma quiet_collected (m : SM unit) s (P : Scanner -> Prop) :
  wp m (fun _ s' => collected s s' /\ P s') s ->
  wp m (fun _ s' => safe s s' /\ input s' = input s) s.
Proof. intros H. eapply wp_mono; [apply H|]. intros [] s' [[] _]. done. Qed.

Lemma quiet_reported (m : SM unit) s (P : Scanner -> Prop) :
  wp m (fun _ s' => reported s s' /\ P s') s ->
  wp m (fun _ s' => safe s s' /\ input s' = input s) s.
Proof. intros H. eapply wp_mono; [apply H|]. intros [] s' [[] _]. done. Qed.

Lemma quiet_AddLiteralChar c s :
  scanner_ok s -> 0 <= c -> wp (AddLiteralChar c) (fun _ s' => safe s s' /\ input s' = input s) s.
Proof. intros. eapply quiet_collected. by apply AddLiteralChar_spec. Qed.

Lemma quiet_AddRawLiteralChar c s :
  scanner_ok s -> 0 <= c -> wp (AddRawLiteralChar c) (fun _ s' => safe s s' /\ input s' = input s) s.
Proof. intros. eapply quiet_collected. by apply AddRawLiteralChar_spec. Qed.

Lemma quiet_StartLiteral s :
  scanner_ok s -> wp StartLiteral (fun _ s' => safe s s' /\ input s' = input s) s.
Proof. intros. eapply quiet_collected. by apply StartLiteral_spec. Qed.

Lemma quiet_StartRawLiteral s :
  scanner_ok s -> wp StartRawLiteral (fun _ s' => safe s s' /\ input s' = input s) s.
Proof. intros. eapply quiet_collected. by apply StartRawLiteral_spec. Qed.

Lemma quiet_ReportScannerError l e s :
  scanner_ok s -> wp (ReportScannerError l e) (fun _ s' => safe s s' /\ input s' = input s) s.
Proof. intros. eapply quiet_reported. by apply ReportScannerError_spec. Qed.

Lemma quiet_set_octal l e s :
  scanner_ok s -> wp (set_octal l e) (fun _ s' => safe s s' /\ input s' = input s) s.
Proof.
  intros. apply (quiet_reported _ _ (fun _ => True)). apply wp_modify. split; [|done].
  by apply set_octal_reported.
Qed.

Lemma step_PeekChar s0 s Q :
  safe s0 s ->
  (forall c s', safe s0 s' -> input_left s' = input_left s -> c0_ s' = c0_ s -> Q c s') ->
  wp PeekChar Q s.
Proof.
  intros Hs HQ. eapply wp_mono; [apply PeekChar_spec, Hs|].
  intros c s' (H1 & H2 & _ & Ha & Hc & _). apply HQ; [|unfold input_left; fold (ahead s) (ahead s'); by rewrite Ha, Hc|done].
  eapply safe_trans; [done|done].
Qed.

Lemma step_CombineSurrogatePair s0 s Q :
  safe s0 s ->
  (forall b s', safe s0 s' -> (input_left s' <= input_left s)%nat ->
     (c0_ s <> kEndOfInput -> c0_ s' <> kEndOfInput) ->
     (b = false -> c0_ s' = c0_ s) -> Q b s') ->
  wp CombineSurrogatePairM Q s.
Proof.
  intros Hs HQ. eapply wp_mono; [apply CombineSurrogatePairM_spec, Hs|].
  intros b s' [Hcb Hb].
  assert (Hss : safe s s') by (split; apply Hcb).
  apply HQ; [by eapply safe_trans|by apply safe_left| |].
  - destruct b.
    + destruct Hb as (t & _ & H1 & H2 & -> & _). intros _.
      rewrite CombineSurrogatePair_spec by lia. unfold kEndOfInput. lia.
    + destruct Hb as (_ & -> & _). done.
  - intros ->. apply Hb.
Qed.
End Safe.

(** A character that satisfies a predicate false at the end of the input is not
    the end of the input. *)
Ltac has_var H :=
  match type of H with context [?x] => is_var x end.

Ltac at_eof H :=
  first
    [ tryif has_var H then fail else (vm_compute in H; discriminate H)
    | progress (autorewrite with eof in H); cbn in H; discriminate H ].

Ltac not_eof s :=
  lazymatch goal with
  | _ : c0_ s <> kEndOfInput |- _ => idtac
  | _ =>
      let Hne := fresh "Hne" in
      assert (Hne : c0_ s <> kEndOfInput);
      [ let E := fresh "E" in
        intros E;
        match goal with
        | H : context [c0_ s] |- _ => rewrite E in H; at_eof H
        end
      | ]
  end.

(** One step through a function body. *)
Ltac safe_step :=
  lazymatch goal with
  | |- wp (bind _ _) _ _ => apply wp_bind
  | |- wp (ret _) _ _ => apply wp_ret
  | |- wp (gets _) _ _ => apply wp_gets
  | H : safe ?s0 ?s |- wp (Advance _) _ ?s =>
      eapply (step_Advance _ s0 s); [exact H|intros]
  | H : safe ?s0 ?s |- wp AddLiteralCharAdvance _ ?s =>
      eapply (step_AddLiteralCharAdvance s0 s); [exact H|intros]
  | H : safe ?s0 ?s |- wp PeekChar _ ?s =>
      eapply (step_PeekChar s0 s); [exact H|intros]
  | H : safe ?s0 ?s |- wp CombineSurrogatePairM _ ?s =>
      eapply (step_CombineSurrogatePair s0 s); [exact H|intros]
  | H : safe ?s0 ?s |- wp (AddLiteralChar _) _ ?s =>
      eapply (step_quiet _ s0 s);
      [apply quiet_AddLiteralChar; [apply H|try lia; eauto using safe_c0]|exact H|intros]
  | H : safe ?s0 ?s |- wp (AddRawLiteralChar _) _ ?s =>
      eapply (step_quiet _ s0 s);
      [apply quiet_AddRawLiteralChar; [apply H|try lia; eauto using safe_c0]|exact H|intros]
  | H : safe ?s0 ?s |- wp StartLiteral _ ?s =>
      eapply (step_quiet _ s0 s); [apply quiet_StartLiteral, H|exact H|intros]
  | H : safe ?s0 ?s |- wp StartRawLiteral _ ?s =>
      eapply (step_quiet _ s0 s); [apply quiet_StartRawLiteral, H|exact H|intros]
  | H : safe ?s0 ?s |- wp (ReportScannerError _ _) _ ?s =>
      eapply (step_quiet _ s0 s); [apply quiet_ReportScannerError, H|exact H|intros]
  | H : safe ?s0 ?s |- wp (ReportScannerErrorAt _ _) _ ?s => unfold ReportScannerErrorAt
  | H : safe ?s0 ?s |- wp (report_here _) _ ?s => unfold report_here
  | H : safe ?s0 ?s |- wp (set_octal _ _) _ ?s =>
      eapply (step_quiet _ s0 s); [apply quiet_set_octal, H|exact H|intros]
  | |- wp (if ?b then _ else _) _ _ => destruct b eqn:?
  | |- wp (match ?x with _ => _ end) _ _ => destruct x eqn:?
  | |- wp (let '(_, _) := ?x in _) _ _ => destruct x eqn:?
  | H : safe ?s0 ?s |- wp _ _ ?s =>
      eapply (step_call _ _ s0 s); [solve [eauto with safety]|exact H|intros; cbn beta in *]
  end.

Create HintDb safety.

(** Closes the goals at the end of a path. *)
Ltac left_lia :=
  first
    [ lia
    | match goal with
      | H : input_left ?s' = pred (input_left ?s) |- _ =>
          not_eof s; rewrite (input_left_more s) in * by assumption; lia
      end ].

Ltac safe_done :=
  cbn [fst snd]; cbn beta in *;
  repeat match goal with
  | |- context [match (if ?b then _ else _) with _ => _ end] => destruct b eqn:?
  end;
  repeat match goal with |- _ /\ _ => split end;
  lazymatch goal with
  | |- safe _ _ => assumption
  | |- (_ < _)%nat => left_lia
  | |- (_ <= _)%nat => left_lia
  | |- True => exact I
  | |- _ => first [assumption | reflexivity | lia | solve [eauto using safe_c0 with safety]]
  end.

Section Literals.
Context {D : Type} {BR : BlockReader D} {BOK : BlockReaderOK D}.
Context {U : UnicodeData} {UOK : UnicodeDataOK U} {C : BuildConfig}.
Local Abbreviation Scanner := (Scanner D).
Local Abbreviation SM := (M Scanner).
Implicit Types s : Scanner.

(** A loop whose locals are irrelevant to its safety. *)
Lemma loop_safe {A B} (body : A -> SM (A + B)) (I : A -> Scanner -> Prop) (P : B -> Prop) a s0 s Q :
  safe s0 s -> I a s ->
  (forall a s1, safe s0 s1 -> I a s1 ->
     wp (body a)
       (fun r s2 => safe s0 s2 /\
          match r with
          | inl a' => I a' s2 /\ (input_left s2 < input_left s1)%nat
          | inr b => P b
          end) s1) ->
  (forall b s', safe s0 s' -> P b -> Q b s') ->
  wp (scan_loop body a) Q s.
Proof.
  intros Hs HI Hb HQ.
  apply (wp_scan_loop (fun a s1 => safe s0 s1 /\ I a s1)); [done|].
  intros a1 s1 [H1 H2]. eapply wp_mono; [by apply Hb|]. intros [a'|b] s2 [Hs2 Hr]; [|auto].
  destruct Hr. done.
Qed.

Lemma uint32_nonneg x : 0 <= uint32 x.
Proof. apply (wrap_range 32). lia. Qed.
#[local] Hint Resolve uint32_nonneg : safety.

Lemma Invalid_nonneg : 0 <= Invalid.
Proof. done. Qed.
#[local] Hint Resolve Invalid_nonneg : safety.

Lemma ScanHexNumber_loop_safe raw unicode b len n x :
  0 <= x -> runs_safely (ScanHexNumber_loop (D:=D) raw unicode b len n x) (fun a => 0 <= a).
Proof.
  revert x. induction n as [|n IH]; intros x Hx s Hok; cbn [ScanHexNumber_loop];
    pose proof (safe_refl s Hok).
  - repeat safe_step. safe_done.
  - safe_step. safe_step. safe_step.
    + safe_step. safe_step. safe_step. safe_done.
    + safe_step. safe_step.
      eapply step_call; [apply IH, uint32_nonneg|done|]. intros. safe_done.
Qed.

Lemma ScanHexNumber_safe raw unicode len :
  runs_safely (ScanHexNumber (D:=D) raw unicode len) (fun a => 0 <= a).
Proof.
  intros s Hok. pose proof (safe_refl s Hok). unfold ScanHexNumber.
  safe_step. safe_step. eapply step_call; [by apply ScanHexNumber_loop_safe|done|].
  intros. safe_done.
Qed.
#[local] Hint Resolve ScanHexNumber_safe : safety.

Lemma HexValue_range c : -1 <= HexValue c <= 15.
Proof.
  unfold HexValue. pose proof (wrap_range 32 (c - 48) ltac:(lia)). unfold uint32 in *.
  destruct (Z.leb_spec (wrap 32 (c - 48)) 9); [lia|].
  pose proof (wrap_range 32 (Z.lor (wrap 32 (c - 48)) 32 - (97 - 48)) ltac:(lia)).
  case_match eqn:E; bool_to_prop; lia.
Qed.

Lemma ScanUnlimitedLengthHexNumber_safe raw max b :
  runs_safely (ScanUnlimitedLengthHexNumber (D:=D) raw max b) (fun a => 0 <= a).
Proof.
  intros s Hok. pose proof (safe_refl s Hok). unfold ScanUnlimitedLengthHexNumber.
  do 3 safe_step; [safe_step; safe_done|].
  eapply (loop_safe _ (fun '(x, d) s1 => 0 <= x /\ d = HexValue (c0_ s1)) (fun a => 0 <= a));
    [done|done| |intros; safe_done].
  intros [x d] s1 H1 [Hx ->]. repeat safe_step; safe_done.
Qed.
#[local] Hint Resolve ScanUnlimitedLengthHexNumber_safe : safety.

(** Steps through a body without loops. *)
Ltac safe_body := repeat safe_step; safe_done.

Lemma ScanUnicodeEscape_safe raw :
  runs_safely (ScanUnicodeEscape (D:=D) raw) (fun a => 0 <= a).
Proof. intros s Hok. pose proof (safe_refl s Hok). unfold ScanUnicodeEscape. safe_body. Qed.
#[local] Hint Resolve ScanUnicodeEscape_safe : safety.

Lemma ScanIdentifierUnicodeEscape_safe :
  runs_safely (ScanIdentifierUnicodeEscape (D:=D)) (fun a => 0 <= a).
Proof.
  intros s Hok. pose proof (safe_refl s Hok). unfold ScanIdentifierUnicodeEscape. safe_body.
Qed.
#[local] Hint Resolve ScanIdentifierUnicodeEscape_safe : safety.

Lemma ScanOctalEscape_loop_safe raw n x i :
  0 <= x < 256 ->
  runs_safely (ScanOctalEscape_loop (D:=D) raw n x i) (fun r => 0 <= fst r < 256).
Proof.
  revert x i. induction n as [|n IH]; intros x i Hx s Hok; cbn [ScanOctalEscape_loop];
    pose proof (safe_refl s Hok).
  - safe_body.
  - do 3 safe_step; [safe_body|]. safe_step; [safe_body|]. do 2 safe_step.
    bool_to_prop. rewrite int32_small in * by lia.
    eapply step_call; [apply IH; lia|done|]. intros. safe_done.
Qed.

Lemma ScanOctalEscape_safe raw c len :
  48 <= c <= 55 -> runs_safely (ScanOctalEscape (D:=D) raw c len) (fun a => 0 <= a).
Proof.
  intros Hc s Hok. pose proof (safe_refl s Hok). unfold ScanOctalEscape. safe_step.
  assert (Hx : 0 <= uint32 (c - 48) < 256) by (rewrite uint32_small; lia).
  eapply step_call; [by apply ScanOctalEscape_loop_safe|done|].
  intros [x i] s' Hs' _ Hx'. cbn in Hx'. safe_body.
Qed.

Lemma ScanEscape_switch_safe raw c :
  0 <= c ->
  runs_safely (ScanEscape_switch (D:=D) raw c)
    (fun r => match r with Some a => 0 <= a | None => True end).
Proof.
  intros Hc s Hok. pose proof (safe_refl s Hok). unfold ScanEscape_switch.
  repeat match goal with |- wp (if within _ _ _ then _ else _) _ _ => fail 1 | _ => safe_step end.
  all: try safe_done.
  all: try (destruct (IsInvalid _); safe_done).
  safe_step; [|safe_body].
  unfold within in *. bool_to_prop. safe_step.
  eapply step_call; [apply ScanOctalEscape_safe; lia|done|]. intros. safe_body.
Qed.
#[local] Hint Resolve ScanEscape_switch_safe : safety.

Lemma ScanEscape_safe raw : runs_safely (ScanEscape (D:=D) raw) (fun _ => True).
Proof.
  intros s Hok. pose proof (safe_refl s Hok) as Hs. unfold ScanEscape.
  pose proof (safe_c0 _ _ Hs) as Hc.
  safe_body.
Qed.
#[local] Hint Resolve ScanEscape_safe : safety.

(** The result and the bound of a loop of the form [while (p(c0_)) ...]. *)
Ltac safe_loop :=
  eapply (loop_safe _ (fun _ _ => True) (fun _ => True));
  [eassumption|exact I| |intros].

Lemma ScanString_escapes_safe : runs_safely (ScanString_escapes (D:=D)) (fun _ => True).
Proof.
  intros s Hok. pose proof (safe_refl s Hok). unfold ScanString_escapes.
  safe_loop; [intros [] s1 H1 _|safe_done]. repeat safe_step; safe_done.
Qed.
#[local] Hint Resolve ScanString_escapes_safe : safety.

(** [AdvanceUntil] with a check that only collects characters. *)
Lemma step_AdvanceUntil {L} (check : Z -> L -> SM (bool * L)) (J : L -> Scanner -> Prop) l s0 s Q :
  safe s0 s -> c0_ s <> kEndOfInput -> J l s ->
  (forall c l1 s1, scanner_ok s1 -> J l1 s1 -> is_uc16 c ->
     wp (check c l1) (fun r s2 => collected s1 s2 /\ J (snd r) s2) s1) ->
  (forall l2 s2 s', safe s0 s' -> (input_left s' < input_left s)%nat ->
     J l2 s2 -> lit s' = lit s2 -> lit_one_byte s' = lit_one_byte s2 ->
     source_dialect_ s' = source_dialect_ s -> Q l2 s') ->
  wp (AdvanceUntil check l) Q s.
Proof.
  intros Hs Hne HJ Hc HQ.
  eapply wp_mono; [apply (AdvanceUntil_collect check (fun _ => J) (fun _ _ => J)); try done|].
  - apply Hs.
  - intros pre c l1 s1 H1 HJ1 Hu. eapply wp_mono; [by apply Hc; [apply H1|..]|].
    intros [[] l2] s2 H2; done.
  - intros l2 s' (pre & s2 & Hcol & Hst & HJ2).
    destruct (stopped_collected _ _ _ _ Hne Hcol Hst) as (Hok' & Hf & _ & Hlit & Hone & Hleft).
    apply (HQ l2 s2); try done.
    + eapply safe_trans; [done|split; done].
    + destruct HJ2 as [(c & _ & _ & H)|[_ H]]; done.
    + by apply lit_frame_dialect.
Qed.

Lemma ScanString_check_safe c s :
  scanner_ok s -> is_uc16 c ->
  wp (ScanString_check c tt) (fun _ s' => collected s s' /\ True) s.
Proof.
  intros Hok Hc. unfold ScanString_check, is_uc16 in *.
  assert (collected s s) by (by split; [|apply lit_frame_refl|..]).
  repeat safe_step; try done.
  all: eapply wp_mono; [apply AddLiteralChar_spec; [done|lia]|].
  all: intros [] s' (? & _); by apply wp_ret.
Qed.

Lemma ScanString_safe s :
  scanner_ok s -> c0_ s <> kEndOfInput ->
  wp (ScanString (D:=D)) (fun _ s' => safe s s' /\ (input_left s' < input_left s)%nat) s.
Proof.
  intros Hok Hne. pose proof (safe_refl s Hok). unfold ScanString. do 4 safe_step.
  apply (wp_scan_loop
           (fun _ s1 => safe s s1 /\ c0_ s1 <> kEndOfInput /\ (input_left s1 <= input_left s)%nat)).
  - split; [done|]. split; [congruence|lia].
  - intros [] s1 (Hs1 & Hne1 & Hl1). safe_step.
    apply (step_AdvanceUntil _ (fun _ _ => True) _ s s1); [done|done|done| |].
    + intros c [] s2 H2' _ Hc. by apply ScanString_check_safe.
    + intros [] s2 s3 Hs3 Hl3 _ _ _ _. repeat safe_step; try (split; [done|lia]).
      bool_to_prop. split; [|lia]. split; [done|]. split; [congruence|lia].
Qed.

(** *** Numbers *)

Lemma ScanDigitsWithNumericSeparators_safe (p : Z -> bool) first :
  p kEndOfInput = false ->
  runs_safely (ScanDigitsWithNumericSeparators (D:=D) p first) (fun _ => True).
Proof.
  intros Hp s Hok. pose proof (safe_refl s Hok). unfold ScanDigitsWithNumericSeparators.
  do 3 safe_step; [safe_body|]. safe_step. safe_loop; [|safe_body].
  intros seen s1 H1 _. repeat safe_step; try safe_done.
  split; [done|]. split; [done|].
  assert (Hne : c0_ s1 <> kEndOfInput) by (intros E; rewrite E, Hp in *; done).
  rewrite (input_left_more s1 Hne) in *. lia.
Qed.

Lemma digit_predicates_eof :
  IsDecimalDigit kEndOfInput = false /\ IsBinaryDigit kEndOfInput = false /\
  IsOctalDigit kEndOfInput = false /\ IsHexDigit kEndOfInput = false.
Proof. by vm_compute. Qed.

Lemma ScanDecimalDigits_safe sep : runs_safely (ScanDecimalDigits (D:=D) sep) (fun _ => True).
Proof.
  intros s Hok. pose proof (safe_refl s Hok). unfold ScanDecimalDigits. safe_step.
  - by apply ScanDigitsWithNumericSeparators_safe.
  - safe_step. safe_loop; [|safe_body]. intros [] s1 H1 _. safe_body.
Qed.

Lemma ScanBinaryDigits_safe : runs_safely (ScanBinaryDigits (D:=D)) (fun _ => True).
Proof. by apply ScanDigitsWithNumericSeparators_safe. Qed.

Lemma ScanOctalDigits_safe : runs_safely (ScanOctalDigits (D:=D)) (fun _ => True).
Proof. by apply ScanDigitsWithNumericSeparators_safe. Qed.

Lemma ScanHexDigits_safe : runs_safely (ScanHexDigits (D:=D)) (fun _ => True).
Proof. by apply ScanDigitsWithNumericSeparators_safe. Qed.
#[local] Hint Resolve ScanDecimalDigits_safe ScanBinaryDigits_safe ScanOctalDigits_safe
  ScanHexDigits_safe : safety.

(** A loop that goes on at least while [go] holds makes progress if [go] holds
    at its start. *)
Lemma loop_progress {A B} (go : Z -> bool) (body : A -> SM (A + B)) (P : B -> Prop) a s0 s Q :
  safe s0 s ->
  (forall a s1, safe s0 s1 ->
     wp (body a)
       (fun r s2 => safe s0 s2 /\
          match r with
          | inl _ => (input_left s2 < input_left s1)%nat
          | inr b => P b /\ (input_left s2 <= input_left s1)%nat /\
              (go (c0_ s1) = true -> (input_left s2 < input_left s1)%nat)
          end) s1) ->
  (forall b s', safe s0 s' -> P b -> (input_left s' <= input_left s)%nat ->
     (go (c0_ s) = true -> (input_left s' < input_left s)%nat) -> Q b s') ->
  wp (scan_loop body a) Q s.
Proof.
  intros Hs Hb HQ.
  apply (wp_scan_loop (fun _ s1 => safe s0 s1 /\ (s1 = s \/ (input_left s1 < input_left s)%nat)));
    [by split; [|left]|].
  intros a1 s1 [H1 H2]. eapply wp_mono; [by apply Hb|]. intros [a'|b] s2 [Hs2 Hr].
  - split; [|done]. split; [done|]. right. destruct H2 as [->|]; lia.
  - destruct Hr as (HP & Hle & Hgo). destruct H2 as [->|]; apply HQ; auto; intros; lia.
Qed.

Ltac progress_done :=
  cbn beta in *;
  repeat match goal with |- _ /\ _ => split end;
  first [ assumption | exact I | left_lia
        | intros ?Hgo; rewrite ?Hgo in *; cbn in *; discriminate
        | intros ?Hgo; left_lia ].

Lemma ScanDecimalAsSmiWithNumericSeparators_safe v s :
  scanner_ok s ->
  wp (ScanDecimalAsSmiWithNumericSeparators (D:=D) v)
    (fun _ s' => safe s s' /\ (input_left s' <= input_left s)%nat /\
       (IsDecimalDigit (c0_ s) = true -> (input_left s' < input_left s)%nat)) s.
Proof.
  intros Hok. pose proof (safe_refl s Hok). unfold ScanDecimalAsSmiWithNumericSeparators. safe_step.
  apply (loop_progress IsDecimalDigit _ (fun _ => True) _ s); [done| |].
  - intros [value seen] s1 H1. repeat safe_step; progress_done.
  - intros b s' Hs' _ Hle Hgo. repeat safe_step; rewrite ?H0; (split; [done|]);
      (split; [lia|]); intros Hd; specialize (Hgo Hd); lia.
Qed.

Lemma ScanDecimalAsSmi_safe v sep s :
  scanner_ok s ->
  wp (ScanDecimalAsSmi (D:=D) v sep)
    (fun _ s' => safe s s' /\ (input_left s' <= input_left s)%nat /\
       (IsDecimalDigit (c0_ s) = true -> (input_left s' < input_left s)%nat)) s.
Proof.
  intros Hok. pose proof (safe_refl s Hok). unfold ScanDecimalAsSmi. safe_step.
  { by apply ScanDecimalAsSmiWithNumericSeparators_safe. }
  safe_step. apply (loop_progress IsDecimalDigit _ (fun _ => True) _ s); [done| |].
  - intros value s1 H1. repeat safe_step; progress_done.
  - intros b s' Hs' _ Hle Hgo. by apply wp_ret.
Qed.

Lemma ScanImplicitOctalDigits_safe b : runs_safely (ScanImplicitOctalDigits (D:=D) b) (fun _ => True).
Proof.
  intros s Hok. pose proof (safe_refl s Hok). unfold ScanImplicitOctalDigits.
  safe_loop; [|safe_done]. intros [] s1 H1 _. safe_body.
Qed.
#[local] Hint Resolve ScanImplicitOctalDigits_safe : safety.

Lemma ScanSignedInteger_safe : runs_safely (ScanSignedInteger (D:=D)) (fun _ => True).
Proof. intros s Hok. pose proof (safe_refl s Hok). unfold ScanSignedInteger. safe_body. Qed.
#[local] Hint Resolve ScanSignedInteger_safe : safety.

Lemma ScanNumber_zero_safe b at_start s :
  scanner_ok s -> c0_ s <> kEndOfInput ->
  wp (ScanNumber_zero (D:=D) b at_start)
    (fun _ s' => safe s s' /\ (input_left s' < input_left s)%nat) s.
Proof.
  intros Hok Hne. pose proof (safe_refl s Hok). unfold ScanNumber_zero.
  pose proof (input_left_more s Hne). repeat safe_step; safe_done.
Qed.

Lemma step_update_next (f : TokenDesc -> TokenDesc) s0 s Q :
  safe s0 s -> (forall d, desc_ok d -> desc_ok (f d)) ->
  (forall d, desc_core (f d) = desc_core d) ->
  (forall s', safe s0 s' -> input_left s' = input_left s -> c0_ s' = c0_ s -> Q tt s') ->
  wp (modify (update_next f)) Q s.
Proof.
  intros Hs Hf Hc. apply step_quiet; [|done]. apply wp_modify.
  pose proof (update_next_collected f s (proj1 Hs) Hf Hc). split; [by apply collected_safe|done].
Qed.

Ltac moved_done :=
  repeat match goal with |- _ /\ _ => split end;
  first
    [ assumption
    | lia
    | intros;
      repeat match goal with
      | H : ?P -> (_ < _)%nat, H' : ?P |- _ => specialize (H H')
      end;
      first [discriminate | lia] ].

Lemma ScanNumber_decimal_safe b kind at_start s :
  scanner_ok s ->
  wp (ScanNumber_decimal (D:=D) b kind at_start)
    (fun _ s' => safe s s' /\ (input_left s' <= input_left s)%nat /\
       (at_start = true -> IsDecimalDigit (c0_ s) = true -> (input_left s' < input_left s)%nat)) s.
Proof.
  intros Hok. pose proof (safe_refl s Hok) as Hs. unfold ScanNumber_decimal.
  safe_step. safe_step.
  - safe_step. eapply wp_mono; [by apply ScanDecimalAsSmi_safe|].
    intros v s1 (H1 & Hle & Hgo). safe_step.
    + do 5 safe_step.
      * safe_step.
        eapply (step_update_next _ s); [done|by intros d []|done|]. intros s2 H2 Hl2 Hc2.
        repeat safe_step; moved_done.
      * repeat safe_step; moved_done.
    + repeat safe_step; moved_done.
  - safe_step. repeat safe_step; moved_done.
Qed.

Lemma ScanNumber_suffix_safe b kind seen_period :
  runs_safely (ScanNumber_suffix (D:=D) b kind seen_period) (fun _ => True).
Proof. intros s Hok. pose proof (safe_refl s Hok). unfold ScanNumber_suffix. safe_body. Qed.
#[local] Hint Resolve ScanNumber_suffix_safe : safety.

Lemma ScanNumber_period_safe : runs_safely (ScanNumber (D:=D) true) (fun _ => True).
Proof.
  intros s Hok. pose proof (safe_refl s Hok). unfold ScanNumber. safe_step.
  eapply wp_mono; [by apply StartLiteral_spec|]. intros [] s1 (H1 & _ & Ho & _).
  do 3 safe_step. eapply wp_mono; [apply AddLiteralAsciiChar_spec; [apply H1|lia|done]|].
  intros [] s2 (H2 & _).
  assert (safe s s2) by (eapply safe_trans; by apply collected_safe).
  safe_body.
Qed.

Lemma ScanNumber_safe s :
  scanner_ok s -> IsDecimalDigit (c0_ s) = true ->
  wp (ScanNumber (D:=D) false) (fun _ s' => safe s s' /\ (input_left s' < input_left s)%nat) s.
Proof.
  intros Hok Hd. pose proof (safe_refl s Hok) as Hs. unfold ScanNumber.
  assert (Hne : c0_ s <> kEndOfInput) by (intros E; by rewrite E in Hd).
  safe_step. eapply wp_mono; [by apply StartLiteral_spec|]. intros [] s1 (Hcol & _).
  pose proof (collected_safe _ _ Hcol) as H1.
  destruct (collected_ahead _ _ Hcol) as [_ Hc1].
  rewrite <- (same_input_left s s1) by apply Hcol. rewrite <- Hc1 in Hd, Hne. cbn [negb].
  do 5 safe_step. destruct (c0_ s1 =? _) eqn:Hz.
  - eapply wp_mono; [apply ScanNumber_zero_safe; [apply H1|done]|].
    intros z s2 [H2 Hl2]. assert (safe s s2) by (by eapply safe_trans).
    repeat safe_step; try (split; [done|lia]).
    eapply wp_mono; [apply ScanNumber_decimal_safe; apply H|].
    intros r s3 (H3 & Hl3 & _). assert (safe s s3) by (by eapply safe_trans).
    repeat safe_step; (split; [done|lia]).
  - safe_step.
    replace (IsDecimalNumberKind DECIMAL) with true by done. safe_step.
    eapply wp_mono; [apply ScanNumber_decimal_safe; apply H1|].
    intros r s3 (H3 & _ & Hgo). specialize (Hgo eq_refl Hd).
    assert (safe s s3) by (by eapply safe_trans). repeat safe_step; (split; [done|lia]).
Qed.

(** *** Identifiers *)

(** The escapes of identifiers collect nothing. *)
Lemma keeps_next_Advance : keeps (next (D:=D)) (Advance false).
Proof.
  intros s [] s' E. unfold Advance, bind, ret, AdvanceSource, modify in E.
  destruct (Stream.Advance (source_ s)). by injection E as <-.
Qed.

Lemma keeps_next_ReportScannerError l e : keeps (next (D:=D)) (ReportScannerError l e).
Proof. apply keeps_modify. intros s. by destruct (has_error s). Qed.
#[local] Hint Resolve keeps_next_Advance keeps_next_ReportScannerError : keeps.

Lemma keeps_scan_loop {A B X} (f : Scanner -> X) (body : A -> SM (A + B)) a :
  (forall a, keeps f (body a)) -> keeps f (scan_loop body a).
Proof. intros Hb s. by apply keeps_loop. Qed.

Lemma keeps_next_ScanHexNumber_loop u b l n x :
  keeps (next (D:=D)) (ScanHexNumber_loop false u b l n x).
Proof.
  revert x. induction n as [|n IH]; intros x; cbn [ScanHexNumber_loop]; repeat keeps_step.
Qed.
#[local] Hint Resolve keeps_next_ScanHexNumber_loop : keeps.

Lemma keeps_next_ScanIdentifierUnicodeEscape :
  keeps (next (D:=D)) ScanIdentifierUnicodeEscape.
Proof.
  unfold ScanIdentifierUnicodeEscape, ScanUnicodeEscape, ScanHexNumber,
    ScanUnlimitedLengthHexNumber, ReportScannerErrorAt.
  repeat first [keeps_step | apply keeps_scan_loop; intros [x d]].
Qed.

Definition is_ascii (c : Z) : Prop := 0 <= c < 128.

(** What the keyword lookup relies on: only letters that can occur in a keyword
    were collected while [can_be_keyword] holds. *)
Definition keyword_literal (can_be_keyword : bool) s : Prop :=
  can_be_keyword = true -> Forall is_ascii (lit s).

Lemma CharCanBeKeyword_ascii c : 0 <= c -> CharCanBeKeyword c = true -> is_ascii c.
Proof. unfold CharCanBeKeyword, is_ascii. intros Hc H. bool_to_prop. cbn in H. lia. Qed.

Lemma utf16_encode_ascii c : is_ascii c -> utf16_encode c = [c].
Proof.
  unfold is_ascii, utf16_encode, kMaxNonSurrogateCharCode. intros.
  by replace (c <=? 0xffff) with true by bool_lia.
Qed.

Lemma KeywordToken_spec chars s Q :
  (source_dialect_ s = kJsEng -> Forall is_ascii (take 2 chars)) ->
  (forall t, KeywordOrIdentifierToken (source_dialect_ s) chars (Z.of_nat (length chars)) = Some t ->
     Q t s) ->
  wp (KeywordToken (D:=D) chars) Q s.
Proof.
  intros Ha HQ. unfold KeywordToken. apply wp_bind, wp_gets.
  destruct (KeywordOrIdentifierToken_defined (source_dialect_ s) chars Ha) as [t Ht].
  rewrite Ht. apply wp_ret. auto.
Qed.

Lemma keyword_literal_add b s s' c :
  keyword_literal b s -> 0 <= c -> lit s' = lit s ++ utf16_encode c ->
  keyword_literal (b && CharCanBeKeyword c) s'.
Proof.
  intros Hb Hc E H. bool_to_prop. rewrite E. apply Forall_app. split; [by apply Hb|].
  apply CharCanBeKeyword_ascii in H0; [|done]. rewrite utf16_encode_ascii by done.
  by constructor.
Qed.

Lemma ScanIdentifierUnicodeEscape_spec s :
  scanner_ok s -> c0_ s <> kEndOfInput ->
  wp ScanIdentifierUnicodeEscape
    (fun c s' => safe s s' /\ 0 <= c /\ next s' = next s /\
       (input_left s' < input_left s)%nat) s.
Proof.
  intros Hok Hne. pose proof (safe_refl s Hok).
  eapply wp_mono; [apply (wp_keeps next);
    [apply keeps_next_ScanIdentifierUnicodeEscape|
     instantiate (1 := fun c s' => safe s s' /\ 0 <= c /\ (input_left s' < input_left s)%nat)]|].
  - unfold ScanIdentifierUnicodeEscape. pose proof (input_left_more s Hne).
    repeat safe_step; safe_done.
  - intros c s' [(H1 & H2 & H3) H4]. done.
Qed.

Lemma AddLiteral_keyword_literal c b s0 s Q :
  safe s0 s -> 0 <= c -> (source_dialect_ s0 = kJsEng -> keyword_literal b s) ->
  (forall s', safe s0 s' -> input_left s' = input_left s -> c0_ s' = c0_ s ->
     (source_dialect_ s0 = kJsEng -> keyword_literal (b && CharCanBeKeyword c) s') -> Q tt s') ->
  wp (AddLiteralChar c) Q s.
Proof.
  intros Hs Hc Hk HQ. eapply wp_mono; [by apply AddLiteralChar_spec; [apply Hs|]|].
  intros [] s' (Hcol & Hl & _). destruct (collected_ahead _ _ Hcol) as [_ E].
  apply HQ; [|apply same_input_left, Hcol|done|].
  - eapply safe_trans; [done|by apply collected_safe].
  - intros Hd. eapply keyword_literal_add; [by apply Hk|done|done].
Qed.

Lemma is_part_after_combining_spec c part s :
  scanner_ok s -> c = c0_ s -> part kEndOfInput = false ->
  wp (is_part_after_combining c part)
    (fun b s' => safe s s' /\ next s' = next s /\ (input_left s' <= input_left s)%nat /\
       (b = true -> c0_ s' <> kEndOfInput /\ part (c0_ s') = true) /\
       (part c = true -> b = true /\ s' = s) /\
       (b = false -> (c0_ s' = kEndOfInput <-> c = kEndOfInput))) s.
Proof.
  intros Hok -> He. unfold is_part_after_combining. pose proof (safe_refl s Hok).
  destruct (part (c0_ s)) eqn:Hp.
  - apply wp_ret. split; [done|]. split; [done|]. split; [lia|]. split; [|done].
    intros _. split; [|done]. intros E. congruence.
  - apply wp_bind. eapply wp_mono; [by apply CombineSurrogatePairM_spec|].
    intros b s' [Hcb Hb]. apply wp_bind, wp_gets, wp_ret.
    assert (safe s s') by (split; apply Hcb).
    split; [done|]. split; [apply Hcb|]. split; [by apply safe_left|]. split; [|split; [done|]].
    + intros E. apply andb_true_iff in E as [-> E]. split; [|done]. intros E'. congruence.
    + destruct b; intros Hf; [|destruct Hb as (_ & -> & _); done].
      destruct Hb as (t & _ & H1 & H2 & Hc & _).
      rewrite Hc, CombineSurrogatePair_spec by lia. unfold kEndOfInput. lia.
Qed.

Lemma IdentifierToken_safe escaped can_be_keyword s0 s :
  safe s0 s -> (source_dialect_ s0 = kJsEng -> keyword_literal can_be_keyword s) ->
  wp (IdentifierToken (D:=D) escaped can_be_keyword) (fun _ s' => s' = s) s.
Proof.
  intros Hs Hk. unfold IdentifierToken. do 4 safe_step. safe_step; [|by apply wp_ret].
  do 3 safe_step. bool_to_prop. pose proof (lit_frame_dialect _ _ (proj2 Hs)) as Hd.
  apply KeywordToken_spec.
  - intros E. apply Forall_take. rewrite (one_byte_units _ H0). apply Hk; [congruence|].
    destruct H as [|H]; [done|]. bool_to_prop. by apply bool_decide_eq_false in H.
  - intros t _. by repeat safe_step.
Qed.

Lemma ScanIdentifierOrKeywordInnerSlow_safe escaped can_be_keyword s :
  scanner_ok s -> (source_dialect_ s = kJsEng -> keyword_literal can_be_keyword s) ->
  wp (ScanIdentifierOrKeywordInnerSlow (D:=D) escaped can_be_keyword)
    (fun _ s' => safe s s' /\ (input_left s' <= input_left s)%nat /\
       (IsIdentifierPart (c0_ s) = true -> (input_left s' < input_left s)%nat)) s.
Proof.
  intros Hok Hk. pose proof (safe_refl s Hok) as Hs. unfold ScanIdentifierOrKeywordInnerSlow.
  apply wp_bind.
  apply (wp_scan_loop
    (fun '(e, k) s1 => safe s s1 /\ (source_dialect_ s = kJsEng -> keyword_literal k s1) /\
       (s1 = s \/ (input_left s1 < input_left s)%nat)));
    [split; [done|]; split; [done|by left]|].
  intros [e k] s1 (H1 & Hk1 & Hp1). do 2 safe_step.
  assert (Hle1 : (input_left s1 <= input_left s)%nat) by (destruct Hp1 as [->|]; lia).
  safe_step.
  - assert (Hne : c0_ s1 <> kEndOfInput) by (intros E; by rewrite E in *).
    safe_step. eapply wp_mono; [by apply ScanIdentifierUnicodeEscape_spec; [apply H1|]|].
    intros c s2 (H2 & Hc & Hn & Hl2). assert (Hs2 : safe s s2) by (by eapply safe_trans).
    safe_step; [repeat safe_step; split; [done|]; split; intros; lia|].
    safe_step. apply (AddLiteral_keyword_literal c k s); [done|done| |].
    { intros Hd. unfold keyword_literal, lit. rewrite Hn. by apply Hk1. }
    intros s3 H3 Hl3 _ Hk3. safe_step. split; [|lia]. split; [done|]. split; [done|]. right. lia.
  - safe_step. eapply wp_mono.
    { apply is_part_after_combining_spec; [apply H1|done|apply IsIdentifierPart_eof]. }
    intros part s2 (H2 & Hn & Hl2 & Hpart & Hself & _).
    assert (Hs2 : safe s s2) by (by eapply safe_trans). safe_step.
    + destruct (Hpart eq_refl) as [Hne _]. do 3 safe_step. unfold AddLiteralCharAdvance.
      do 3 safe_step. apply (AddLiteral_keyword_literal (c0_ s2) k s);
        [done|by eapply safe_c0| |].
      { intros Hd. unfold keyword_literal, lit. rewrite Hn. by apply Hk1. }
      intros s3 H3 Hl3 Hc3 Hk3.
      eapply wp_mono; [apply Advance_spec, H3|]. intros [] s4 H4. safe_step.
      pose proof (ad_left _ _ H4) as Hl4. rewrite Hl3, (input_left_more s2 Hne) in Hl4.
      rewrite (input_left_more s2 Hne) in Hl2. cbn in Hl4. split; [|lia].
      split; [eapply safe_trans; [done|by apply advanced_safe]|]. split; [|right; lia].
      intros Hd. unfold keyword_literal, lit. rewrite (ad_next _ _ H4). by apply Hk3.
    + safe_step. eapply wp_mono.
      { apply (IdentifierToken_safe e k s s2); [done|]. intros Hd. unfold keyword_literal, lit.
        rewrite Hn. by apply Hk1. }
      intros t s3 ->. split; [done|]. split; [lia|]. intros Hp.
      destruct Hp1 as [->|]; [|lia]. by destruct (Hself Hp).
Qed.

Lemma identifier_check_spec flags c s :
  scanner_ok s -> is_uc16 c -> lit_one_byte s = true -> Forall is_ascii (lit s) ->
  wp (identifier_check (D:=D) c flags)
    (fun _ s' => collected s s' /\ lit_one_byte s' = true /\ Forall is_ascii (lit s')) s.
Proof.
  intros Hok Hc Ho Ha. unfold identifier_check.
  assert (collected s s) by (by split; [|apply lit_frame_refl|..]).
  repeat safe_step; try done. bool_to_prop. unfold kMaxAscii, is_uc16 in *.
  eapply wp_mono; [apply AddLiteralAsciiChar_spec; [done|lia|done]|].
  intros [] s' (Hcol & Hl & Ho' & _). apply wp_ret. split; [done|]. split; [done|].
  rewrite Hl. apply Forall_app. split; [done|]. constructor; [|done]. unfold is_ascii. lia.
Qed.

(** The literal holds at most the prefix of a private name at the start. *)
Lemma ScanIdentifierOrKeywordInner_safe s :
  scanner_ok s -> lit_one_byte s = true -> Forall is_ascii (lit s) ->
  wp (ScanIdentifierOrKeywordInner (D:=D))
    (fun _ s' => safe s s' /\ (input_left s' <= input_left s)%nat /\
       (IsIdentifierPart (c0_ s) = true -> (input_left s' < input_left s)%nat)) s.
Proof.
  intros Hok Ho Ha. pose proof (safe_refl s Hok) as Hs. pose proof (safe_c0 _ _ Hs) as Hc0.
  unfold ScanIdentifierOrKeywordInner. do 2 safe_step. safe_step.
  2: { apply ScanIdentifierOrKeywordInnerSlow_safe; [done|by intros _ _]. }
  bool_to_prop. unfold kMaxAscii in *.
  assert (Hne : c0_ s <> kEndOfInput) by (unfold kEndOfInput; lia).
  safe_step.
  - safe_step. eapply wp_mono; [apply AddLiteralAsciiChar_spec; [done|lia|done]|].
    intros [] s1 (Hcol & Hl1 & Ho1 & _). destruct (collected_ahead _ _ Hcol) as [_ Hc1].
    pose proof (collected_safe _ _ Hcol) as Hs1. pose proof (same_input_left s s1 (co_input _ _ Hcol)) as Hi1.
    safe_step.
    apply (step_AdvanceUntil _ (fun _ s2 => lit_one_byte s2 = true /\ Forall is_ascii (lit s2)) _ s s1);
      [done|congruence| | |].
    { split; [done|]. rewrite Hl1. apply Forall_app. split; [done|].
      constructor; [|done]. unfold is_ascii. lia. }
    { intros c l2 s2 H2 [Ho2 Ha2] Hu. by apply identifier_check_spec. }
    intros flags s2 s3 Hs3 Hl3 [Ho2 Ha2] Hlit Hone Hd. safe_step.
    + repeat safe_step; [split; [done|]; split; intros; lia|].
      apply KeywordToken_spec.
      * intros _. apply Forall_take. rewrite one_byte_units by (by rewrite <- Hone in Ho2).
        fold (lit s3). by rewrite Hlit.
      * intros t _. split; [done|]. split; intros; lia.
    + eapply wp_mono; [apply ScanIdentifierOrKeywordInnerSlow_safe; [apply Hs3|]|].
      * intros _ _. by rewrite Hlit.
      * intros t s4 (H4 & Hl4 & _). split; [by eapply safe_trans|]. split; intros; lia.
  - safe_step. eapply wp_mono; [by apply ScanIdentifierUnicodeEscape_spec|].
    intros c s1 (Hs1 & Hc & Hn & Hl1). safe_step; [safe_step; split; [done|]; split; intros; lia|].
    safe_step. apply (AddLiteral_keyword_literal c true s); [done|done| |].
    { intros _ _. unfold lit. by rewrite Hn. }
    intros s2 Hs2 Hl2 _ Hk2.
    eapply wp_mono; [apply ScanIdentifierOrKeywordInnerSlow_safe; [apply Hs2|]|].
    + intros Hd. apply Hk2. by rewrite <- (lit_frame_dialect _ _ (proj2 Hs2)).
    + intros t s4 (H4 & Hl4 & _). split; [by eapply safe_trans|]. split; intros; lia.
Qed.

Lemma ScanIdentifierOrKeyword_safe s :
  scanner_ok s ->
  wp (ScanIdentifierOrKeyword (D:=D))
    (fun _ s' => safe s s' /\ (input_left s' <= input_left s)%nat /\
       (IsIdentifierPart (c0_ s) = true -> (input_left s' < input_left s)%nat)) s.
Proof.
  intros Hok. unfold ScanIdentifierOrKeyword. apply wp_bind.
  eapply wp_mono; [by apply StartLiteral_spec|]. intros [] s1 (Hcol & Hl & Ho & _).
  destruct (collected_ahead _ _ Hcol) as [_ Hc].
  rewrite <- (same_input_left s s1), <- Hc by apply Hcol.
  eapply wp_mono; [apply ScanIdentifierOrKeywordInner_safe; [apply Hcol|done|by rewrite Hl]|].
  intros t s' (H1 & H2). split; [|done]. eapply safe_trans; [by apply collected_safe|done].
Qed.

Lemma ScanPrivateName_safe s :
  scanner_ok s -> c0_ s <> kEndOfInput ->
  wp (ScanPrivateName (D:=D)) (fun _ s' => safe s s' /\ (input_left s' < input_left s)%nat) s.
Proof.
  intros Hok Hne. unfold ScanPrivateName. apply wp_bind.
  eapply wp_mono; [by apply StartLiteral_spec|]. intros [] s1 (Hcol & Hl & Ho & _).
  destruct (collected_ahead _ _ Hcol) as [_ Hc]. pose proof (collected_safe _ _ Hcol) as Hs1.
  rewrite <- (same_input_left s s1) by apply Hcol. rewrite <- Hc in Hne.
  do 3 safe_step. eapply wp_mono; [apply Advance_spec, Hs1|]. intros [] s2 H2.
  pose proof (ad_left _ _ H2) as Hl2. rewrite (input_left_more s1 Hne) in *. cbn in Hl2.
  assert (Hs2 : safe s s2) by (eapply safe_trans; [done|by apply advanced_safe]).
  do 3 safe_step. eapply wp_mono.
  { apply is_part_after_combining_spec; [apply Hs2|done|apply IsIdentifierStart_eof]. }
  intros b s3 (H3 & Hn3 & Hl3 & _). assert (Hs3 : safe s s3) by (by eapply safe_trans).
  safe_step.
  - safe_step. eapply wp_mono.
    { apply AddLiteralAsciiChar_spec; [apply H3|lia|]. unfold lit_one_byte.
      by rewrite Hn3, (ad_next _ _ H2). }
    intros [] s4 (Hcol4 & Hl4 & Ho4 & _).
    assert (Hs4 : safe s s4) by (eapply safe_trans; [done|by apply collected_safe]).
    safe_step. eapply wp_mono; [apply ScanIdentifierOrKeywordInner_safe; [apply Hs4|done|]|].
    { rewrite Hl4. unfold lit in *. rewrite Hn3, (ad_next _ _ H2), Hl. repeat constructor; lia. }
    intros t s5 (H5 & Hl5 & _). safe_step. rewrite (same_input_left s3 s4) in Hl5 by apply Hcol4.
    split; [by eapply safe_trans|lia].
  - repeat safe_step. split; [done|lia].
Qed.
End Literals.
