(* ===== verification/CommentsSafety.v ===== *)
(** * Safety of the comment scanners

    Every function of [Comments.v] ends normally from any well-formed state and
    leaves a well-formed state; magic comments may change the URL and dialect
    members, and an ill-placed [sourceDialect] comment stops the scanner. *)

From S2P Require Import Prelude.
From S2P Require Import CharPredicates.
From S2P Require Import Tokens.
From S2P Require Import Keywords.
From S2P Require Import ScanTables.
From S2P Require Import LiteralBuffer.
From S2P Require Import Stream.
From S2P Require Import ScannerState.
From S2P Require Import Literals.
From S2P Require Import Comments.
From S2P Require Import ScannerSpec.
From S2P Require Import LiteralsSafety.
From stdpp Require Import base list numbers decidable.
From Stdlib Require Import ZArith Lia Bool.

Local Open Scope Z_scope.
Local Open Scope prog_scope.

Section Walks.
Context {D : Type} {BR : BlockReader D} {BOK : BlockReaderOK D}.
Local Abbreviation Scanner := (Scanner D).
Local Abbreviation SM := (M Scanner).
Implicit Types s : Scanner.

Definition walks s s' : Prop := scanner_ok s' /\ frame s s'.

Lemma walks_refl s : scanner_ok s -> walks s s.
Proof. intros. split; [done|apply frame_refl]. Qed.

Lemma walks_trans s0 s s' : walks s0 s -> walks s s' -> walks s0 s'.
Proof. intros [_ H1] [H2 H3]. split; [done|by eapply frame_trans]. Qed.

Lemma safe_walks s s' : safe s s' -> walks s s'.
Proof. intros [H1 H2]. split; [done|by apply lit_frame_frame]. Qed.

Lemma walks_left s s' : walks s s' -> (input_left s' <= input_left s)%nat.
Proof. intros [_ []]. done. Qed.

Lemma walk_call {A} (m : SM A) (P : A -> Scanner -> Prop) s0 s Q :
  wp m (fun a s' => walks s s' /\ P a s') s -> walks s0 s ->
  (forall a s', walks s0 s' -> (input_left s' <= input_left s)%nat -> P a s' -> Q a s') ->
  wp m Q s.
Proof.
  intros Hm Hs HQ. eapply wp_mono; [apply Hm|]. intros a s' [H HP].
  apply HQ; [by eapply walks_trans|by apply walks_left|done].
Qed.

Lemma walk_Advance s0 s Q :
  walks s0 s ->
  (forall s', walks s0 s' -> input_left s' = pred (input_left s) -> Q tt s') ->
  wp (Advance false) Q s.
Proof.
  intros Hs HQ. eapply wp_mono; [apply Advance_spec, Hs|]. intros [] s' H'. apply HQ.
  - eapply walks_trans; [done|by apply safe_walks, advanced_safe].
  - apply H'.
Qed.

Lemma walk_PeekChar s0 s Q :
  walks s0 s ->
  (forall c s', walks s0 s' -> input_left s' = input_left s -> c0_ s' = c0_ s -> Q c s') ->
  wp PeekChar Q s.
Proof.
  intros Hs HQ. eapply (step_PeekChar s s); [apply safe_refl, Hs|].
  intros c s' H' Hl Hc. apply HQ; [|done|done].
  eapply walks_trans; [done|by apply safe_walks].
Qed.

Lemma walk_ReportScannerError l e s0 s Q :
  walks s0 s ->
  (forall s', walks s0 s' -> input_left s' = input_left s -> c0_ s' = c0_ s -> Q tt s') ->
  wp (ReportScannerError l e) Q s.
Proof.
  intros Hs HQ. eapply (step_quiet _ s s); [apply quiet_ReportScannerError, Hs|apply safe_refl, Hs|].
  intros s' H' Hl Hc. apply HQ; [|done|done].
  eapply walks_trans; [done|by apply safe_walks].
Qed.

Lemma walk_modify (f : Scanner -> Scanner) s0 s Q :
  walks s0 s -> walks s (f s) -> (walks s0 (f s) -> Q tt (f s)) -> wp (modify f) Q s.
Proof. intros Hs Hf HQ. apply wp_modify, HQ. by eapply walks_trans. Qed.

(** [AdvanceUntil] with a check that reads the character only. *)
Lemma walk_AdvanceUntil (p : Z -> bool) s0 s Q :
  walks s0 s -> c0_ s <> kEndOfInput ->
  (forall s', walks s0 s' -> (input_left s' < input_left s)%nat ->
     next s' = next s -> Q tt s') ->
  wp (AdvanceUntil (pure_check p) tt) Q s.
Proof.
  intros Hs Hne HQ.
  eapply wp_mono; [apply (AdvanceUntil_collect (pure_check p)
    (fun _ _ s1 => s1 = s) (fun _ _ _ s1 => s1 = s)); [apply Hs|done|done|]|].
  - intros pre c [] s1 H1 -> Hu. apply wp_ret. cbn [fst snd].
    split; [by split; [apply Hs|apply lit_frame_refl|..]|by destruct (p c)].
  - intros [] s' (pre & s2 & Hcol & Hst & Hs2).
    assert (s2 = s) as -> by (destruct Hs2 as [(c & _ & _ & E)|[_ E]]; done).
    destruct (stopped_collected _ _ _ _ Hne Hcol Hst) as (Hok' & Hf & _ & _ & _ & Hleft).
    apply HQ; [|done|by apply (stopped_next _ _ _ _ Hst)].
    eapply walks_trans; [done|]. by apply safe_walks.
Qed.

Lemma walk_loop {A B} (body : A -> SM (A + B)) (I : A -> Prop) (P : B -> Prop) a s0 s Q :
  walks s0 s -> I a ->
  (forall a s1, walks s0 s1 -> I a -> (input_left s1 <= input_left s)%nat ->
     wp (body a)
       (fun r s2 => walks s0 s2 /\
          match r with
          | inl a' => I a' /\ (input_left s2 < input_left s1)%nat
          | inr b => P b /\ (input_left s2 <= input_left s1)%nat
          end) s1) ->
  (forall b s', walks s0 s' -> P b -> (input_left s' <= input_left s)%nat -> Q b s') ->
  wp (scan_loop body a) Q s.
Proof.
  intros Hs HI Hb HQ.
  apply (wp_scan_loop (fun a s1 => walks s0 s1 /\ I a /\ (input_left s1 <= input_left s)%nat));
    [done|].
  intros a1 s1 (H1 & H2 & H3). eapply wp_mono; [by apply Hb|].
  intros [a'|b] s2 [Hs2 Hr]; destruct Hr.
  - split; [|done]. split; [done|]. split; [done|lia].
  - apply HQ; [done|done|lia].
Qed.
End Walks.

Ltac walk_step :=
  lazymatch goal with
  | |- wp (bind _ _) _ _ => apply wp_bind
  | |- wp (ret _) _ _ => apply wp_ret
  | |- wp (gets _) _ _ => apply wp_gets
  | H : walks ?s0 ?s |- wp (Advance _) _ ?s =>
      eapply (walk_Advance s0 s); [exact H|intros]
  | H : walks ?s0 ?s |- wp PeekChar _ ?s =>
      eapply (walk_PeekChar s0 s); [exact H|intros]
  | H : walks ?s0 ?s |- wp (ReportScannerError _ _) _ ?s =>
      eapply (walk_ReportScannerError _ _ s0 s); [exact H|intros]
  | |- wp (ReportScannerErrorAt _ _) _ _ => unfold ReportScannerErrorAt
  | |- wp (if ?b then _ else _) _ _ => destruct b eqn:?
  | |- wp (match ?x with _ => _ end) _ _ => destruct x eqn:?
  | H : walks ?s0 ?s |- wp _ _ ?s =>
      eapply (walk_call _ _ s0 s);
      [solve [eauto with walking]|exact H|intros; cbn beta in *]
  end.

Ltac walk_done :=
  cbn beta in *;
  repeat match goal with |- _ /\ _ => split end;
  first
    [ assumption | exact I | left_lia
    | intros; first [discriminate | congruence | left_lia] ].

Create HintDb walking.

Section Comments.
Context {D : Type} {BR : BlockReader D} {BOK : BlockReaderOK D}.
Context {U : UnicodeData} {UOK : UnicodeDataOK U}.
Local Abbreviation Scanner := (Scanner D).
Local Abbreviation SM := (M Scanner).
Implicit Types s : Scanner.

Lemma walks_c0 s0 s : walks s0 s -> 0 <= c0_ s.
Proof. intros [[_ Hi] _]. apply (input_ok_uc32 s Hi). Qed.

(** Members outside the frame were changed. *)
Ltac frame_same := split; try done; intros; by left.

(** *** White space *)

(** A change of the next descriptor that keeps its buffers. *)
Lemma walks_update_next (f : TokenDesc -> TokenDesc) s :
  scanner_ok s -> (forall d, desc_ok d -> desc_ok (f d)) -> walks s (update_next f s).
Proof.
  intros [Hm Hi] Hf. split; [split; [by apply members_ok_update_slot|done]|].
  split; try done. intros p Hp. left. cbn. by rewrite storage_get_set_ne.
Qed.

Lemma note_line_terminator_spec c s :
  scanner_ok s ->
  wp (note_line_terminator c)
    (fun _ s' =>
       walks s s' /\ input s' = input s /\ errors s' = errors s /\
       next s' = desc_set_after_line_terminator
                   (after_line_terminator (next s) || IsLineTerminator c) (next s)) s.
Proof.
  intros Hok. apply wp_modify.
  destruct (after_line_terminator (next s)) eqn:E, (IsLineTerminator c) eqn:E'; cbn [negb andb orb].
  2: { pose proof (walks_refl s Hok). destruct (next s); cbn in *. by subst. }
  all: try (pose proof (walks_refl s Hok); destruct (next s); cbn in *; by subst).
  split; [by apply walks_update_next|]. split; [done|]. split; [done|]. apply next_update_next.
Qed.

Lemma walks_members s s1 s' :
  walks s s1 -> input_ok (source_ s') (c0_ s') -> text (source_ s') = text (source_ s) ->
  has_parser_error s' = has_parser_error s -> (input_left s' <= input_left s)%nat ->
  s' = set_c0 (c0_ s') (set_source (source_ s') s1) -> walks s s'.
Proof.
  intros [[Hm _] Hf] Hi Ht He Hl Hs.
  assert (members_ok s') by (rewrite Hs; destruct Hm; by split).
  split; [done|]. destruct Hf. split; [done|congruence|done| | | | | |].
  all: rewrite Hs; done.
Qed.

Lemma SkipWhiteSpace_spec s :
  scanner_ok s ->
  wp SkipWhiteSpace
    (fun t s' => walks s s' /\
       (t = Token.WHITESPACE /\ (input_left s' < input_left s)%nat \/ t = Token.ILLEGAL)) s.
Proof.
  intros Hok. pose proof (walks_refl s Hok) as Hs. unfold SkipWhiteSpace. do 3 walk_step.
  { walk_step. split; [done|by right]. }
  assert (Hne : c0_ s <> kEndOfInput)
    by (intros E; rewrite E, IsWhiteSpaceOrLineTerminator_eof in *; done).
  walk_step. eapply wp_mono; [by apply note_line_terminator_spec|].
  intros [] s1 (Hs1 & Hi1 & _). pose proof (same_input_left s s1 Hi1) as Hl1.
  assert (Hc1 : c0_ s1 = c0_ s) by (unfold input in Hi1; congruence).
  walk_step.
  apply (wp_AdvanceUntil _ (fun _ _ s2 => walks s s2) (fun _ _ _ s2 => walks s s2));
    [apply Hs1|congruence|done| |].
  - intros pre c hint s2 H2 Hu. unfold white_space_check. repeat walk_step; try done.
    eapply wp_mono; [apply note_line_terminator_spec, H2|]. intros [] s3 (H3 & _).
    apply wp_ret. by eapply walks_trans.
  - intros pre l2 s2 s' Hst HF. walk_step.
    assert (H2 : walks s s2) by (destruct HF as [(c & _ & _ & H)|[_ H]]; done).
    assert (Hl : (input_left s' < input_left s)%nat)
      by (rewrite <- Hl1; eapply stopped_left; [|done]; congruence).
    split; [|by left].
    eapply (walks_members s s2); [done|apply Hst| | |lia|apply Hst].
    + rewrite (st_text _ _ _ _ Hst). apply Hs1.
    + rewrite (st_error _ _ _ _ Hst). unfold has_parser_error, input in *. congruence.
Qed.

(** *** Single-line comments *)

Lemma SkipSingleLineComment_spec s :
  scanner_ok s -> c0_ s <> kEndOfInput ->
  wp SkipSingleLineComment
    (fun t s' => walks s s' /\ (input_left s' < input_left s)%nat) s.
Proof.
  intros Hok Hne. pose proof (walks_refl s Hok) as Hs. unfold SkipSingleLineComment. walk_step.
  apply (walk_AdvanceUntil _ s); [done|done|]. intros s' H' Hl _. by apply wp_ret.
Qed.

Lemma SkipSingleHTMLComment_spec s :
  scanner_ok s -> c0_ s <> kEndOfInput ->
  wp SkipSingleHTMLComment (fun t s' => walks s s' /\ True) s.
Proof.
  intros Hok Hne. pose proof (walks_refl s Hok) as Hs. unfold SkipSingleHTMLComment.
  repeat walk_step; [done|].
  eapply wp_mono; [by apply SkipSingleLineComment_spec|]. intros t s' [H _]. done.
Qed.

Lemma walks_set_found_html_comment b s : scanner_ok s -> walks s (set_found_html_comment b s).
Proof. intros [Hm Hi]. split; [split; [destruct Hm; by split|done]|frame_same]. Qed.

Lemma ScanHtmlComment_spec s :
  scanner_ok s -> c0_ s = "!"%uc ->
  wp ScanHtmlComment (fun t s' => walks s s' /\ True) s.
Proof.
  intros Hok Hbang. pose proof (walks_refl s Hok) as Hs. unfold ScanHtmlComment.
  assert (Hne : c0_ s <> kEndOfInput) by (rewrite Hbang; done).
  destruct (ok_readable _ _ (proj2 Hok) Hne) as [Hrd _].
  walk_step. eapply wp_mono; [by apply Advance_spec|]. intros [] s1 H1.
  pose proof (safe_walks _ _ (advanced_safe _ _ H1)) as Hs1.
  pose proof (ad_cursor _ _ H1 Hrd) as Hcur1.
  do 3 walk_step. destruct (c0_ s1 =? _) eqn:Hdash; cbn [negb].
  - assert (Hne1 : c0_ s1 <> kEndOfInput) by (intros E; by rewrite E in Hdash).
    walk_step. eapply wp_mono; [apply PeekChar_spec, Hs1|].
    intros c s2 (Hok2 & Hf2 & Hpk & Ha2 & Hc2 & Hp2 & _ & _).
    assert (Hs2 : walks s s2) by (eapply walks_trans; [done|by apply safe_walks]).
    walk_step. walk_step.
    + walk_step. rewrite <- Hbang. eapply wp_mono.
      { apply (PushBack_spec s s2); [done|done|done| |rewrite Hp2; apply H1|].
        - eapply lit_frame_trans; [apply H1|done].
        - assert (Hne2 : c0_ s2 <> kEndOfInput) by congruence.
          destruct (ok_readable _ _ (proj2 Hok2) Hne2) as [Hr _]. unfold readable in Hr. lia. }
      intros [] s3 (Hok3 & Hf3 & _). apply wp_ret. split; [by apply safe_walks|done].
    + walk_step. eapply wp_mono; [by apply Advance_spec|]. intros [] s3 H3.
      assert (Hs3 : walks s s3)
        by (eapply walks_trans; [done|by apply safe_walks, advanced_safe]).
      walk_step. apply (walk_modify _ s); [done|apply walks_set_found_html_comment, Hs3|]. intros H4.
      eapply (walk_call _ (fun _ _ => True) s); [|done|done].
      apply SkipSingleHTMLComment_spec; [apply H4|]. cbn. rewrite (ad_c0 _ _ H3), Ha2, <- Hpk.
      bool_to_prop. intros E. by rewrite E in *.
  - walk_step. cbn [negb]. walk_step. rewrite <- Hbang. eapply wp_mono.
    { apply (PushBack_spec s s1); [done|done|apply H1|apply H1|apply H1|done]. }
    intros [] s3 (Hok3 & Hf3 & _). apply wp_ret. split; [by apply safe_walks|done].
Qed.

(** *** Magic comments *)

Lemma wp_lift_AddChar b c s Q :
  buffer_ok b -> 0 <= c -> (forall b', buffer_ok b' -> Q b' s) ->
  wp (lift (AddChar b c)) Q s.
Proof.
  intros Hb Hc HQ. destruct (AddChar_spec b c Hb Hc) as (b' & E & Hb' & _).
  rewrite E. apply wp_ret. auto.
Qed.

Lemma buffer_ok_Start b : buffer_ok b -> buffer_ok (Start b).
Proof. apply Start_spec. Qed.

Lemma members_set_value v b s : members_ok s -> buffer_ok b -> members_ok (set_value v b s).
Proof. intros [] Hb. destruct v; by split. Qed.

Lemma walks_set_value v b s : scanner_ok s -> buffer_ok b -> walks s (set_value v b s).
Proof.
  intros [Hm Hi] Hb. split; [split; [by apply members_set_value|by destruct v]|destruct v; frame_same].
Qed.

Lemma get_value_ok v s : scanner_ok s -> buffer_ok (get_value v s).
Proof. intros [[] _]. by destruct v. Qed.

Lemma value_start_spec v s :
  scanner_ok s -> wp (value_start v) (fun _ s' => walks s s' /\ input s' = input s) s.
Proof.
  intros Hok. destruct v as [v|]; cbn [value_start]; [|by split; [apply walks_refl|]].
  apply wp_modify. split; [|by destruct v].
  by apply walks_set_value, buffer_ok_Start, get_value_ok.
Qed.

Lemma value_add_spec v c s :
  scanner_ok s -> 0 <= c ->
  wp (value_add v c) (fun _ s' => walks s s' /\ input s' = input s) s.
Proof.
  intros Hok Hc. destruct v as [v|]; cbn [value_add]; [|by split; [apply walks_refl|]].
  apply wp_bind, wp_gets, wp_bind. apply wp_lift_AddChar; [by apply get_value_ok|done|].
  intros b Hb. apply wp_modify. split; [by apply walks_set_value|by destruct v].
Qed.

Lemma walks_set_source_dialect d s :
  scanner_ok s -> ~ dialect_fixed s -> walks s (set_source_dialect d s).
Proof.
  intros [Hm Hi] Hd. split; [split; [destruct Hm; by split|done]|].
  split; try done. intros. by left.
Qed.

Lemma walks_set_found s : scanner_ok s -> walks s (set_found_source_dialect_comment true s).
Proof. intros [Hm Hi]. split; [split; [destruct Hm; by split|done]|frame_same]. Qed.

Lemma walks_set_source_dialect_name b s :
  scanner_ok s -> buffer_ok b -> walks s (set_source_dialect_name b s).
Proof. intros [Hm Hi] Hb. split; [split; [destruct Hm; by split|done]|frame_same]. Qed.

(** Stopping the scanner. *)
Lemma walks_set_parser_error s :
  scanner_ok s -> walks s (scanner_set_parser_error s) /\ c0_ (scanner_set_parser_error s) = kEndOfInput.
Proof.
  intros Hok. pose proof Hok as [Hm Hi]. unfold scanner_set_parser_error.
  destruct (has_parser_error s) eqn:E.
  { split; [by apply walks_refl|]. destruct (decide (c0_ s = kEndOfInput)) as [|Hne]; [done|].
    rewrite (input_ok_no_error s Hi Hne) in E. done. }
  split; [|done].
  destruct (set_parser_error_spec (source_ s) (ok_stream _ _ Hi)) as (H1 & H2 & H3 & H4).
  assert (Hp : 1 <= pos (set_parser_error (source_ s))).
  { destruct (ok_stream _ _ Hi) as [_ (? & _)]. unfold pos, buffer_end_. cbn.
    unfold buffer_end_. lia. }
  split; [split|split; try done].
  - destruct Hm as [Hd Hu1 Hu2 Hu3]. split; [|done|done|done]. intros p. cbn.
    rewrite storage_get_map. specialize (Hd p). destruct (storage_get p (token_storage_ s)).
    unfold mark_illegal. by case_bool_decide.
  - split; [done|by left|done|done|done].
  - rewrite input_left_eof by done. lia.
  - intros p _. right. cbn. by rewrite storage_get_map.
Qed.

Lemma dialect_comment_error_spec s :
  scanner_ok s -> wp dialect_comment_error (fun _ s' => walks s s' /\ True) s.
Proof.
  intros Hok. pose proof (walks_refl s Hok) as Hs. unfold dialect_comment_error.
  do 5 walk_step. walk_step. apply (walk_modify _ s); [done|by apply walks_set_parser_error, H|].
  intros H'. by apply wp_ret.
Qed.

Lemma AddDialectName_spec l s :
  scanner_ok s -> is_one_byte_ (source_dialect_name_ s) = true -> Forall is_ascii l ->
  wp (AddDialectName l)
    (fun _ s' => walks s s' /\ input s' = input s /\ errors s' = errors s /\ next s' = next s /\
       is_one_byte_ (source_dialect_name_ s') = true /\ source_dialect_ s' = source_dialect_ s /\
       code_units (source_dialect_name_ s') = code_units (source_dialect_name_ s) ++ l) s.
Proof.
  revert s. induction l as [|c l IH]; intros s Hok Ho Hl; cbn [AddDialectName].
  { apply wp_ret. rewrite app_nil_r. pose proof (walks_refl s Hok). done. }
  apply Forall_cons_1 in Hl as [Hc Hl].
  destruct (AddAsciiChar_spec (source_dialect_name_ s) c) as (b & E & Hb & Hob & Hu);
    [apply Hok|done|done|].
  do 3 walk_step. rewrite E. apply wp_ret, wp_bind, wp_modify.
  pose proof (walks_set_source_dialect_name b s Hok Hb) as H1.
  eapply wp_mono; [apply IH; [apply H1|done|done]|].
  intros [] s' (H2 & Hi & He & Hn & Ho' & Hd & Hu').
  split; [by eapply walks_trans|]. split; [done|]. split; [done|]. split; [done|]. split; [done|].
  split; [done|]. rewrite Hu'. cbn. by rewrite Hu, <- app_assoc.
Qed.

Lemma dialect_name_ascii d : Forall is_ascii (bytes_of (SourceDialectName d)).
Proof. destruct d; repeat constructor; done. Qed.

Lemma TrySetSourceDialect_spec l s :
  scanner_ok s -> wp (TrySetSourceDialect l) (fun _ s' => walks s s' /\ True) s.
Proof.
  intros Hok. pose proof (walks_refl s Hok) as Hs. unfold TrySetSourceDialect.
  do 3 walk_step; [by apply dialect_comment_error_spec|].
  destruct (TryParseSourceDialect l) as [d|] eqn:E; [|by apply dialect_comment_error_spec].
  apply TryParseSourceDialect_Some in E as ->.
  assert (Hfix : ~ dialect_fixed s).
  { intros Hd. apply orb_false_iff in Heqb as [E1 E2]. destruct Hd; congruence. }
  walk_step. apply (walk_modify _ s); [done|by apply walks_set_source_dialect|]. intros H1.
  walk_step. apply (walk_modify _ s); [done| |].
  { apply walks_set_source_dialect_name; [apply H1|apply buffer_ok_Start, H1]. }
  intros H2. walk_step. eapply wp_mono.
  { apply AddDialectName_spec; [apply H2|done|apply dialect_name_ascii]. }
  intros [] s3 (H3 & _). assert (walks s s3) by (by eapply walks_trans).
  walk_step. apply (walk_modify _ s); [done|by apply walks_set_found, H3|].
  intros H4. by apply wp_ret.
Qed.

Lemma skip_blanks_spec s : scanner_ok s -> wp skip_blanks (fun _ s' => walks s s' /\ True) s.
Proof.
  intros Hok. pose proof (walks_refl s Hok) as Hs. unfold skip_blanks.
  apply (walk_loop _ (fun _ => True) (fun _ => True) _ s); [done|done| |done].
  intros [] s1 H1 _ _. repeat walk_step; walk_done.
Qed.

Lemma scan_comment_name_spec s :
  scanner_ok s -> wp scan_comment_name (fun _ s' => walks s s' /\ True) s.
Proof.
  intros Hok. pose proof (walks_refl s Hok) as Hs. unfold scan_comment_name.
  apply (walk_loop _ buffer_ok (fun _ => True) _ s);
    [done|apply buffer_ok_Start, buffer_new_ok| |done].
  intros name s1 H1 Hb _. do 3 walk_step; [|repeat walk_step; walk_done].
  walk_step. apply wp_lift_AddChar; [done|by eapply walks_c0|]. intros b Hb'.
  repeat walk_step. bool_to_prop. rewrite (input_left_more s1) in * by done. walk_done.
Qed.

Lemma scan_comment_value_spec v s :
  scanner_ok s -> wp (scan_comment_value v) (fun b s' => walks s s' /\ buffer_ok b) s.
Proof.
  intros Hok. pose proof (walks_refl s Hok) as Hs. unfold scan_comment_value.
  apply (walk_loop _ buffer_ok buffer_ok _ s);
    [done|apply buffer_ok_Start, buffer_new_ok| |done].
  intros b s1 H1 Hb _. do 3 walk_step; [repeat walk_step; walk_done|].
  walk_step; [repeat walk_step; walk_done|]. walk_step.
  eapply wp_mono; [apply value_add_spec; [apply H1|by eapply walks_c0]|].
  intros [] s2 [H2 Hi2]. pose proof (same_input_left _ _ Hi2).
  assert (walks s s2) by (by eapply walks_trans). bool_to_prop.
  walk_step. apply wp_lift_AddChar; [done|by eapply walks_c0|]. intros b' Hb'.
  repeat walk_step. rewrite (input_left_more s1) in * by done. walk_done.
Qed.

Lemma scan_comment_end_spec v b s :
  scanner_ok s -> buffer_ok b -> wp (scan_comment_end v b) (fun b' s' => walks s s' /\ buffer_ok b') s.
Proof.
  intros Hok Hb. pose proof (walks_refl s Hok) as Hs. unfold scan_comment_end.
  apply (walk_loop _ buffer_ok buffer_ok _ s); [done|done| |done].
  intros b1 s1 H1 Hb1 _. do 3 walk_step; [repeat walk_step; walk_done|].
  walk_step; [|repeat walk_step; walk_done].
  walk_step. eapply wp_mono; [apply value_start_spec, H1|].
  intros [] s2 [H2 Hi2]. pose proof (same_input_left _ _ Hi2). apply wp_ret.
  split; [by eapply walks_trans|]. split; [by apply buffer_ok_Start|lia].
Qed.

Lemma TryToParseSourceURLComment_spec s :
  scanner_ok s -> wp TryToParseSourceURLComment (fun _ s' => walks s s' /\ True) s.
Proof.
  intros Hok. pose proof (walks_refl s Hok) as Hs. unfold TryToParseSourceURLComment.
  do 3 walk_step; [by apply wp_ret|]. do 3 walk_step.
  eapply (walk_call _ _ s); [apply scan_comment_name_spec, H|done|]. intros name s1 H1 _ _.
  walk_step; [by apply wp_ret|]. walk_step; [|by apply wp_ret].
  walk_step. eapply (walk_call _ _ s); [apply skip_blanks_spec, H1|done|]. intros [] s2 H2 _ _.
  do 3 walk_step; [by apply wp_ret|].
  walk_step. eapply (walk_call _ _ s); [apply value_start_spec, H2|done|]. intros [] s3 H3 _ _.
  do 2 walk_step.
  walk_step. eapply (walk_call _ _ s); [apply skip_blanks_spec, H4|done|]. intros [] s4 Hs4 _ _.
  walk_step. eapply (walk_call _ _ s); [apply scan_comment_value_spec, Hs4|done|].
  intros b s5 Hs5 _ Hb5.
  walk_step. eapply (walk_call _ _ s); [apply scan_comment_end_spec; [apply Hs5|done]|done|].
  intros b6 s6 Hs6 _ _.
  repeat walk_step; try done.
  eapply (walk_call _ _ s); [apply TrySetSourceDialect_spec, Hs6|done|]. intros. by apply wp_ret.
Qed.

Lemma SkipSourceURLComment_spec s :
  scanner_ok s -> wp SkipSourceURLComment (fun _ s' => walks s s' /\ True) s.
Proof.
  intros Hok. pose proof (walks_refl s Hok) as Hs. unfold SkipSourceURLComment.
  walk_step. eapply wp_mono; [by apply TryToParseSourceURLComment_spec|].
  intros [] s1 [H1 _]. do 3 walk_step; [by apply wp_ret|]. bool_to_prop.
  eapply (walk_call _ _ s); [apply SkipSingleLineComment_spec; [apply H1|done]|done|]. done.
Qed.

(** *** Multi-line comments *)

Lemma scan_stars_spec s : scanner_ok s -> wp scan_stars (fun _ s' => walks s s' /\ True) s.
Proof.
  intros Hok. pose proof (walks_refl s Hok) as Hs. unfold scan_stars.
  apply (walk_loop _ (fun _ => True) (fun _ => True) _ s); [done|done| |done].
  intros [] s1 H1 _ _. repeat walk_step; walk_done.
Qed.

Lemma SkipMultiLineComment_first_spec s :
  scanner_ok s -> c0_ s <> kEndOfInput ->
  wp SkipMultiLineComment_first (fun _ s' => walks s s' /\ True) s.
Proof.
  intros Hok Hne. pose proof (walks_refl s Hok) as Hs. unfold SkipMultiLineComment_first.
  apply (wp_scan_loop (fun _ s1 => walks s s1 /\ c0_ s1 <> kEndOfInput)); [done|].
  intros [] s1 [H1 Hne1]. walk_step. apply (walk_AdvanceUntil _ s); [done|done|].
  intros s2 H2 Hl2 _. walk_step.
  eapply (walk_call _ _ s); [apply scan_stars_spec, H2|done|]. intros [] s3 H3 Hl3 _.
  { by apply wp_ret. }
  do 3 walk_step.
  - walk_step. apply (walk_modify _ s); [done|by apply walks_update_next; [apply H3|]|].
    intros H4. by apply wp_ret.
  - walk_step. destruct (c0_ s3 =? kEndOfInput) eqn:E; [done|]. bool_to_prop.
    split; [done|lia].
Qed.

Lemma SkipMultiLineComment_spec s :
  scanner_ok s -> c0_ s <> kEndOfInput ->
  wp SkipMultiLineComment (fun _ s' => walks s s' /\ True) s.
Proof.
  intros Hok Hne. pose proof (walks_refl s Hok) as Hs. unfold SkipMultiLineComment.
  do 3 walk_step. eapply (walk_call _ (fun _ _ => True) s); [|done|].
  { walk_step; [by apply wp_ret|by apply SkipMultiLineComment_first_spec]. }
  intros closed s1 H1 _ _. walk_step; [by apply wp_ret|].
  apply (walk_loop _ (fun _ => True) (fun _ => True) _ s); [done|done| |done].
  intros [] s2 H2 _ _. do 3 walk_step; [repeat walk_step; walk_done|]. bool_to_prop.
  walk_step. apply (walk_AdvanceUntil _ s); [done|done|]. intros s3 H3 Hl3 _. walk_step.
  eapply (walk_call _ _ s); [apply scan_stars_spec, H3|done|]. intros [] s4 H4 Hl4 _;
    apply wp_ret; walk_done.
Qed.
End Comments.
