(* ===== verification/ScannerSafety.v ===== *)
(** * Safety and progress of the scanner

    Template literals, regular expressions, [ScanSingleToken], [Scan] and the
    public operations end normally from every well-formed state; a scan that
    returns anything but [EOS] or [ILLEGAL] has consumed input. *)

From S2P Require Import Prelude.
From S2P Require Import CharPredicates.
From S2P Require Import Tokens.
From S2P Require Import Keywords.
From S2P Require Import ScanTables.
From S2P Require Import LiteralBuffer.
From S2P Require Import Stream.
From S2P Require Import ScannerState.
From S2P Require Import Literals.
From S2P Require Import Comments.
From S2P Require Import Scanner.
From S2P Require Import ScanResults.
From S2P Require Import ScannerSpec.
From S2P Require Import LiteralsSafety.
From S2P Require Import CommentsSafety.
From stdpp Require Import base list numbers decidable.
From Stdlib Require Import ZArith Lia Bool.

Local Open Scope Z_scope.
Local Open Scope prog_scope.

Section Rules.
Context {D : Type} {BR : BlockReader D} {BOK : BlockReaderOK D}.
Local Abbreviation Scanner := (Scanner D).
Local Abbreviation SM := (M Scanner).
Implicit Types s : Scanner.

Lemma walk_safe {A} (m : SM A) P s0 s Q :
  runs_safely m P -> walks s0 s ->
  (forall a s', walks s0 s' -> (input_left s' <= input_left s)%nat -> P a -> Q a s') ->
  wp m Q s.
Proof.
  intros Hm Hs HQ. eapply (step_call m P s s); [done|apply safe_refl, Hs|].
  intros a s' H' Hl HP. apply HQ; [|done|done]. eapply walks_trans; [done|by apply safe_walks].
Qed.

Lemma walk_quiet (m : SM unit) s0 s Q :
  wp m (fun _ s' => safe s s' /\ input s' = input s) s -> walks s0 s ->
  (forall s', walks s0 s' -> input_left s' = input_left s -> c0_ s' = c0_ s -> Q tt s') ->
  wp m Q s.
Proof.
  intros Hm Hs HQ. eapply (step_quiet m s s); [done|apply safe_refl, Hs|].
  intros s' H' Hl Hc. apply HQ; [|done|done]. eapply walks_trans; [done|by apply safe_walks].
Qed.

Lemma walk_AddLiteralCharAdvance s0 s Q :
  walks s0 s ->
  (forall s', walks s0 s' -> input_left s' = pred (input_left s) -> Q tt s') ->
  wp AddLiteralCharAdvance Q s.
Proof.
  intros Hs HQ. eapply (step_AddLiteralCharAdvance s s); [apply safe_refl, Hs|].
  intros s' H' Hl. apply HQ; [|done]. eapply walks_trans; [done|by apply safe_walks].
Qed.

End Rules.

Ltac scan_step :=
  lazymatch goal with
  | H : walks ?s0 ?s |- wp AddLiteralCharAdvance _ ?s =>
      eapply (walk_AddLiteralCharAdvance s0 s); [exact H|intros]
  | H : walks ?s0 ?s |- wp (AddLiteralChar _) _ ?s =>
      eapply (walk_quiet _ s0 s);
      [apply quiet_AddLiteralChar; [apply H|try lia; eauto using walks_c0]|exact H|intros]
  | H : walks ?s0 ?s |- wp (AddRawLiteralChar _) _ ?s =>
      eapply (walk_quiet _ s0 s);
      [apply quiet_AddRawLiteralChar; [apply H|try lia; eauto using walks_c0]|exact H|intros]
  | H : walks ?s0 ?s |- wp StartLiteral _ ?s =>
      eapply (walk_quiet _ s0 s); [apply quiet_StartLiteral, H|exact H|intros]
  | H : walks ?s0 ?s |- wp StartRawLiteral _ ?s =>
      eapply (walk_quiet _ s0 s); [apply quiet_StartRawLiteral, H|exact H|intros]
  | H : walks ?s0 ?s |- wp (ScanEscape _) _ ?s =>
      eapply (walk_safe _ (fun _ => True) s0 s); [apply ScanEscape_safe|exact H|intros]
  | |- wp (modify _) _ _ => fail
  | _ => walk_step
  end.

Ltac state_ok :=
  match goal with H : walks _ ?s |- scanner_ok ?s => apply H end.

Section Templates.
Context {D : Type} {BR : BlockReader D} {BOK : BlockReaderOK D}.
Context {U : UnicodeData} {UOK : UnicodeDataOK U} {C : BuildConfig}.
Local Abbreviation Scanner := (Scanner D).
Local Abbreviation SM := (M Scanner).
Implicit Types s : Scanner.

(** The two error stacks. *)
Definition is_error_stack (e : ErrorStack (D:=D)) : Prop := e = scanner_errors \/ e = octal_errors.

Lemma walks_set_error e m l s :
  is_error_stack e -> scanner_ok s ->
  walks s (set_location_stack e l (set_message_stack e m s)) /\
  input (set_location_stack e l (set_message_stack e m s)) = input s.
Proof.
  intros [->| ->] [Hm Hi]; (split; [|done]).
  all: split; [split; [destruct Hm; by split|done]|split; try done; intros; by left].
Qed.

Lemma MoveErrorTo_spec e p s :
  is_error_stack e -> scanner_ok s -> p = next_ s ->
  wp (MoveErrorTo e p) (fun _ s' => walks s s' /\ True) s.
Proof.
  intros He Hok ->. apply wp_modify. case_bool_decide; [by split; [apply walks_refl|]|].
  split; [|done]. set (f := fun d => if bool_decide _ then _ else d).
  assert (H1 : walks s (update_next f s)).
  { apply walks_update_next; [done|]. intros d Hd. unfold f. by case_bool_decide. }
  eapply walks_trans; [done|]. apply walks_set_error; [done|apply H1].
Qed.

Lemma ScanTemplateSpan_escape_spec s :
  scanner_ok s -> c0_ s <> kEndOfInput ->
  wp ScanTemplateSpan_escape
    (fun _ s' => walks s s' /\ (input_left s' < input_left s)%nat) s.
Proof.
  intros Hok Hne. pose proof (walks_refl s Hok) as Hs. unfold ScanTemplateSpan_escape.
  pose proof (input_left_more s Hne).
  do 7 scan_step; [repeat scan_step; split; first [done|lia]|].
  do 5 scan_step.
  match goal with |- wp _ _ ?s1 => rename s1 into s2 end.
  assert (Hs2 : walks s s2) by done.
  eapply wp_mono; [apply MoveErrorTo_spec; [by left|apply Hs2|done]|].
  intros [] s3 [Hw3 _]. assert (Hs3 : walks s s3) by (by eapply walks_trans).
  assert (Hn : next_ s2 = next_ s3) by (destruct Hw3 as [_ []]; congruence).
  eapply wp_mono; [apply MoveErrorTo_spec; [by right|apply Hs3|done]|].
  intros [] s4 [Hw4 _]. assert (Hs4 : walks s s4) by (by eapply walks_trans).
  apply walks_left in Hw3, Hw4. split; [done|lia].
Qed.

Lemma ScanTemplateSpan_char_spec s :
  scanner_ok s -> c0_ s <> kEndOfInput ->
  wp (ScanTemplateSpan_char (c0_ s))
    (fun _ s' => walks s s' /\ (input_left s' < input_left s)%nat) s.
Proof.
  intros Hok Hne. pose proof (walks_refl s Hok) as Hs. unfold ScanTemplateSpan_char.
  pose proof (input_left_more s Hne). repeat scan_step; split; first [done|lia].
Qed.

Lemma ScanTemplateSpan_loop_spec s :
  scanner_ok s -> wp ScanTemplateSpan_loop (fun _ s' => walks s s' /\ True) s.
Proof.
  intros Hok. pose proof (walks_refl s Hok) as Hs. unfold ScanTemplateSpan_loop.
  apply (wp_scan_loop (fun _ s1 => walks s s1)); [done|]. intros [] s1 H1.
  do 3 scan_step; [repeat scan_step; done|].
  scan_step. eapply (walk_call _ (fun _ s2 => c0_ s2 = c0_ s1 /\ input_left s2 = input_left s1) s);
    [|exact H1|].
  { pose proof (walks_refl s1 (proj1 H1)). repeat scan_step; split; done. }
  intros b s2 H2 _ [Hc2 Hl2]. scan_step; [repeat scan_step; done|]. scan_step.
  - assert (Hne : c0_ s2 <> kEndOfInput) by (intros E; rewrite <- Hc2, E in *; done).
    scan_step. eapply (walk_call _ _ s); [apply ScanTemplateSpan_escape_spec; [apply H2|done]|done|].
    intros [] s3 H3 _ Hl3. apply wp_ret. split; [done|lia].
  - scan_step; [by repeat scan_step|]. bool_to_prop. rewrite <- Hc2 in *. scan_step.
    eapply (walk_call _ _ s); [apply ScanTemplateSpan_char_spec; [apply H2|done]|done|].
    intros [] s3 H3 _ Hl3. apply wp_ret. split; [done|lia].
Qed.

Lemma ErrorState_new_spec e s :
  is_error_stack e -> scanner_ok s ->
  wp (ErrorState_new e)
    (fun old s' => (walks s s' /\ input s' = input s) /\
       old = mkErrorState (message_stack e s) (location_stack e s)) s.
Proof. intros He Hok. split; [by apply walks_set_error|done]. Qed.

Lemma ErrorState_restore_spec e old s :
  is_error_stack e -> scanner_ok s ->
  wp (ErrorState_restore e old) (fun _ s' => walks s s' /\ True) s.
Proof. intros He Hok. apply wp_modify. split; [by apply walks_set_error|done]. Qed.

Lemma ScanTemplateSpan_spec s :
  scanner_ok s -> wp ScanTemplateSpan (fun _ s' => walks s s' /\ True) s.
Proof.
  intros Hok. pose proof (walks_refl s Hok) as Hs. unfold ScanTemplateSpan.
  scan_step. eapply wp_mono; [apply ErrorState_new_spec; [by left|done]|].
  intros old1 s1 [[H1 _] _]. scan_step.
  eapply wp_mono; [apply ErrorState_new_spec; [by right|apply H1]|].
  intros old2 s2 [[H2 _] _]. assert (Hs2 : walks s s2) by (by eapply walks_trans).
  do 4 scan_step. scan_step. eapply (walk_call _ _ s); [apply ScanTemplateSpan_loop_spec; state_ok|done|].
  intros result s3 H3' _ _. scan_step.
  apply (walk_modify _ s); [done|by apply walks_update_next; [state_ok|]|]. intros Hs4.
  scan_step. apply (walk_modify _ s); [done|by apply walks_update_next; [state_ok|]|]. intros Hs5.
  scan_step. eapply (walk_call _ _ s); [apply ErrorState_restore_spec; [by right|state_ok]|done|].
  intros [] s6 Hs6 _ _.
  scan_step. eapply (walk_call _ _ s); [apply ErrorState_restore_spec; [by left|state_ok]|done|].
  intros [] s7 Hs7 _ _. by apply wp_ret.
Qed.
End Templates.

Section Tokens.
Context {D : Type} {BR : BlockReader D} {BOK : BlockReaderOK D}.
Context {U : UnicodeData} {UOK : UnicodeDataOK U} {C : BuildConfig}.
Local Abbreviation Scanner := (Scanner D).
Local Abbreviation SM := (M Scanner).
Implicit Types s : Scanner.

Lemma Select_spec t s :
  scanner_ok s ->
  wp (Select t) (fun _ s' => walks s s' /\ input_left s' = pred (input_left s)) s.
Proof. intros Hok. pose proof (walks_refl s Hok). unfold Select. by repeat scan_step. Qed.

Lemma SelectIf_spec c t1 t2 s :
  scanner_ok s ->
  wp (SelectIf c t1 t2) (fun _ s' => walks s s' /\ (input_left s' <= pred (input_left s))%nat) s.
Proof.
  intros Hok. pose proof (walks_refl s Hok). unfold SelectIf.
  repeat scan_step; (split; [done|lia]).
Qed.

Lemma ScanNumber_period_spec s :
  scanner_ok s -> wp (ScanNumber (D:=D) true) (fun _ s' => walks s s' /\ True) s.
Proof.
  intros Hok. eapply wp_mono; [by apply ScanNumber_period_safe|].
  intros t s' [H _]. split; [by apply safe_walks|done].
Qed.

Ltac not_eof_goal :=
  bool_to_prop;
  match goal with
  | H : c0_ ?s' = c0_ ?s |- c0_ ?s' <> kEndOfInput => rewrite H; not_eof s; assumption
  | |- c0_ ?s <> kEndOfInput => not_eof s; assumption
  end.

#[local] Hint Extern 1 (wp _ _ _) =>
  first [ apply Select_spec | apply SelectIf_spec | apply ScanNumber_period_spec
        | apply ScanTemplateSpan_spec | apply SkipWhiteSpace_spec
        | apply SkipSingleLineComment_spec | apply SkipSingleHTMLComment_spec
        | apply ScanHtmlComment_spec | apply SkipSourceURLComment_spec
        | apply SkipMultiLineComment_spec ] : walking.
#[local] Hint Extern 0 (scanner_ok _) => state_ok : walking.
#[local] Hint Extern 1 (c0_ _ <> kEndOfInput) => not_eof_goal : walking.
#[local] Hint Extern 1 (c0_ _ = _) => (apply Z.eqb_eq; assumption) : walking.

Lemma question_digit_spec s :
  scanner_ok s -> c0_ s = "."%uc ->
  wp (Advance false ;;;
      let* c0 := gets c0_ in
      if negb (IsDecimalDigit c0) then ret (inr Token.QUESTION_PERIOD)
      else PushBack "."%uc ;;; ret (inr (A:=Token.Value) Token.CONDITIONAL))
    (fun _ s' => walks s s') s.
Proof.
  intros Hok Hdot. assert (Hne : c0_ s <> kEndOfInput) by (by rewrite Hdot).
  destruct (ok_readable _ _ (proj2 Hok) Hne) as [Hrd _].
  scan_step. eapply wp_mono; [by apply Advance_spec|]. intros [] s1 H1.
  pose proof (safe_walks _ _ (advanced_safe _ _ H1)) as Hs1.
  do 3 scan_step; [by apply wp_ret|]. scan_step. rewrite <- Hdot.
  eapply wp_mono; [apply (PushBack_spec s s1); try apply H1; try done|].
  intros [] s2 (H2 & H3 & _). apply wp_ret. by apply safe_walks.
Qed.

Lemma ScanPunctuator_spec t m s :
  scanner_ok s -> ScanPunctuator (D:=D) t (c0_ s) = Some m ->
  wp m (fun _ s' => walks s s') s.
Proof.
  intros Hok Hm. pose proof (walks_refl s Hok) as Hs.
  destruct t; try discriminate Hm; apply (inj Some) in Hm; subst m; unfold skipped, returned.
  all: repeat first [apply question_digit_spec; [done|by apply Z.eqb_eq] | scan_step]; done.
Qed.

(** The classes of ASCII characters the [switch] relies on. *)
Definition one_char_token_ok (c : Z) : bool :=
  match one_char_token c with
  | Token.NUMBER => IsDecimalDigit c
  | Token.IDENTIFIER => IsIdentifierPart c
  | Token.LPAREN | Token.RPAREN | Token.LBRACE | Token.RBRACE | Token.LBRACK
  | Token.RBRACK | Token.COLON | Token.SEMICOLON | Token.COMMA | Token.BIT_NOT
  | Token.ILLEGAL | Token.STRING | Token.MOD | Token.BIT_XOR | Token.PRIVATE_NAME
  | Token.WHITESPACE | Token.CONDITIONAL | Token.LT | Token.GT | Token.ASSIGN
  | Token.NOT | Token.ADD | Token.SUB | Token.MUL | Token.DIV | Token.BIT_AND
  | Token.BIT_OR | Token.PERIOD | Token.TEMPLATE_SPAN => true
  | _ => false
  end.

Lemma one_char_tokens_ok c : 0 <= c <= 127 -> one_char_token_ok c = true.
Proof.
  intros Hc. apply (forallb_seqZ one_char_token_ok 0 128); [|lia]. vm_compute. reflexivity.
Qed.

(** What one round of [ScanSingleToken] guarantees. *)
Definition round_post s (r : Token.Value + Token.Value) s' : Prop :=
  walks s s' /\
  match r with
  | inl t => t = Token.WHITESPACE \/ t <> Token.EOS /\ t <> Token.ILLEGAL ->
             (input_left s' < input_left s)%nat
  | inr t => t <> Token.EOS -> t <> Token.ILLEGAL -> (input_left s' < input_left s)%nat
  end.

Lemma round_strict (m : SM (Token.Value + Token.Value)) s0 s :
  walks s0 s -> (input_left s < input_left s0)%nat ->
  wp m (fun _ s' => walks s s') s -> wp m (round_post s0) s.
Proof.
  intros H1 Hl H. eapply wp_mono; [apply H|]. intros r s' H'. split; [by eapply walks_trans|].
  apply walks_left in H'. destruct r; intros; lia.
Qed.

Lemma round_returned (m : SM Token.Value) s :
  wp m (fun t s' => walks s s' /\
          (t <> Token.EOS -> t <> Token.ILLEGAL -> (input_left s' < input_left s)%nat)) s ->
  wp (returned m) (round_post s) s.
Proof. intros H. apply wp_bind. eapply wp_mono; [apply H|]. intros t s' []. by split. Qed.

Lemma round_returned_left (m : SM Token.Value) s :
  wp m (fun t s' => walks s s' /\ (input_left s' < input_left s)%nat) s ->
  wp (returned m) (round_post s) s.
Proof.
  intros H. apply round_returned. eapply wp_mono; [apply H|]. intros t s' [H1 H2]. by split.
Qed.

Lemma safe_walks_wp {A} (m : SM A) (P : A -> Scanner -> Prop) s :
  wp m (fun a s' => safe s s' /\ P a s') s -> wp m (fun a s' => walks s s' /\ P a s') s.
Proof. intros H. eapply wp_mono; [apply H|]. intros a s' []. split; [by apply safe_walks|done]. Qed.

Lemma hash_token_spec s :
  scanner_ok s -> c0_ s <> kEndOfInput ->
  wp (ScanAsciiToken Token.PRIVATE_NAME) (round_post s) s.
Proof.
  intros Hok Hne. pose proof (walks_refl s Hok) as Hs. cbn [ScanAsciiToken].
  do 3 scan_step.
  eapply (walk_call _ (fun _ s1 => c0_ s1 = c0_ s /\ input_left s1 = input_left s) s); [|done|].
  { repeat scan_step; split; done. }
  intros b s1 H1 _ [Hc Hl]. rewrite <- Hc in Hne. scan_step.
  - apply wp_bind. eapply wp_mono; [apply SkipSingleLineComment_spec; [apply H1|done]|].
    intros t s2 [H2 Hl2]. apply wp_ret. split; [by eapply walks_trans|]. intros _. lia.
  - apply wp_bind. eapply wp_mono; [apply ScanPrivateName_safe; [apply H1|done]|].
    intros t s2 [H2 Hl2]. apply wp_ret.
    split; [eapply walks_trans; [done|by apply safe_walks]|]. intros _ _. lia.
Qed.

Lemma punctuator_token_spec t s :
  scanner_ok s -> c0_ s <> kEndOfInput ->
  (forall c, exists m, ScanPunctuator (D:=D) t c = Some m) ->
  wp (Advance false ;;;
      let* c0 := gets c0_ in
      match ScanPunctuator t c0 with Some m => m | None => undefined end) (round_post s) s.
Proof.
  intros Hok Hne Hp. pose proof (walks_refl s Hok) as Hs. pose proof (input_left_more s Hne).
  do 4 scan_step. destruct (Hp (c0_ s')) as [m Hm]. rewrite Hm.
  apply round_strict; [done|lia|]. eapply ScanPunctuator_spec; [state_ok|done].
Qed.

Lemma ScanAsciiToken_spec s :
  scanner_ok s -> c0_ s <= kMaxAscii -> wp (ScanAsciiToken (one_char_token (c0_ s))) (round_post s) s.
Proof.
  intros Hok Hle. unfold kMaxAscii in Hle.
  assert (Hc0 : 0 <= c0_ s) by (apply (input_ok_uc32 s (proj2 Hok))).
  assert (Hne : c0_ s <> kEndOfInput) by (unfold kEndOfInput; lia).
  pose proof (input_left_more s Hne) as Hleft.
  pose proof (one_char_tokens_ok (c0_ s) ltac:(lia)) as Ht. unfold one_char_token_ok in Ht.
  destruct (one_char_token (c0_ s)); try discriminate Ht; cbn [ScanAsciiToken].
  all: try (apply punctuator_token_spec; [done|done|intros; by eexists]).
  all: try by apply hash_token_spec.
  all: try (apply round_returned_left; eapply wp_mono;
            [first [by apply Select_spec | by apply SelectIf_spec]|intros t s' [H1 H2]; split; [done|lia]]).
  - apply round_returned_left, safe_walks_wp. by apply ScanNumber_safe.
  - apply round_returned_left, safe_walks_wp. by apply ScanString_safe.
  - apply round_returned, safe_walks_wp. eapply wp_mono; [by apply ScanIdentifierOrKeyword_safe|].
    intros t s' (H1 & _ & H2). auto.
  - apply wp_bind. eapply wp_mono; [by apply SkipWhiteSpace_spec|].
    intros t s' (H1 & [[-> H2]| ->]); apply wp_ret; (split; [done|]); [done|].
    intros [|[_ ?]]; done.
Qed.

Lemma ScanNonAsciiToken_spec s : scanner_ok s -> wp ScanNonAsciiToken (round_post s) s.
Proof.
  intros Hok. pose proof (walks_refl s Hok) as Hs. unfold ScanNonAsciiToken. do 3 scan_step.
  eapply wp_mono; [apply is_part_after_combining_spec; [done|done|apply IsIdentifierStart_eof]|].
  intros b s1 (H1 & _ & Hl1 & Hstart & _ & Heof). apply safe_walks in H1 as Hs1. scan_step.
  - apply wp_bind. eapply wp_mono; [apply ScanIdentifierOrKeyword_safe, Hs1|].
    intros t s2 (H2 & Hl2 & Hgo). apply wp_ret.
    split; [eapply walks_trans; [done|by apply safe_walks]|].
    destruct (Hstart eq_refl) as [_ Hp]. intros _ _.
    apply IsIdentifierStart_Part in Hp; [|apply (input_ok_uc32 s1), Hs1].
    specialize (Hgo Hp). lia.
  - do 3 scan_step.
    + do 3 scan_step. split; [done|]. by destruct (has_parser_error s1).
    + apply wp_bind. eapply wp_mono; [apply SkipWhiteSpace_spec, Hs1|].
      intros t s2 (H2 & Ht). apply wp_ret. split; [by eapply walks_trans|].
      destruct Ht as [[-> Hl2]| ->]; [lia|]. intros [|[_ ?]]; done.
Qed.

Lemma ScanSingleToken_spec s :
  scanner_ok s ->
  wp ScanSingleToken
    (fun t s' => walks s s' /\
       (t <> Token.EOS -> t <> Token.ILLEGAL -> (input_left s' < input_left s)%nat)) s.
Proof.
  intros Hok. pose proof (walks_refl s Hok) as Hs. unfold ScanSingleToken.
  apply (wp_scan_loop (fun _ s1 => walks s s1)); [done|]. intros [] s1 H1.
  scan_step. apply (walk_modify _ s); [done|by apply walks_update_next; [state_ok|]|].
  set (s2 := update_next _ s1). intros H2.
  assert (Hl2 : input_left s2 = input_left s1) by done.
  do 3 scan_step. eapply wp_mono with (Q := round_post s2).
  - destruct (Z.leb_spec (c0_ s2) kMaxAscii);
      [by apply ScanAsciiToken_spec; [state_ok|]|by apply ScanNonAsciiToken_spec; state_ok].
  - apply walks_left in H1. intros [t|t] s3 [H3 Hr]; apply wp_ret;
      assert (Hs3 : walks s s3) by (by eapply walks_trans).
    + case_bool_decide as Ht; [split; [done|]; rewrite <- Hl2; auto|].
      split; [done|]. intros. rewrite Hl2 in *. assert (input_left s3 < input_left s1)%nat by auto. lia.
    + split; [done|]. intros Ha Hb. specialize (Hr Ha Hb). lia.
Qed.

Lemma walks_set_saw b s : scanner_ok s -> scanner_ok (set_saw_non_comment_token b s).
Proof. intros [Hm Hi]. split; [destruct Hm; by split|done]. Qed.

(** What [Scan] leaves alone. *)
Record scan_frame s s' : Prop := {
  sf_text : text (source_ s') = text (source_ s);
  sf_error : has_parser_error s = true -> has_parser_error s' = true;
  sf_left : (input_left s' <= input_left s)%nat;
  sf_flags : flags_ s' = flags_ s;
  sf_pointers : (current_ s', next_ s', next_next_ s') = (current_ s, next_ s, next_next_ s);
  sf_saw : saw_non_comment_token_ s = true -> saw_non_comment_token_ s' = true;
  sf_found : found_source_dialect_comment_ s = true -> found_source_dialect_comment_ s' = true;
  sf_dialect : dialect_fixed s -> source_dialect_ s' = source_dialect_ s;
  sf_slots p : p <> next_ s ->
    same_or_illegal (storage_get p (token_storage_ s)) (storage_get p (token_storage_ s'))
}.

Lemma walks_scan_frame s s' : walks s s' -> scan_frame s s'.
Proof. intros [_ []]. split; first [done | congruence]. Qed.

Lemma scan_frame_trans s1 s2 s3 : scan_frame s1 s2 -> scan_frame s2 s3 -> scan_frame s1 s3.
Proof.
  intros [] []. assert (dialect_fixed s1 -> dialect_fixed s2) by (intros [H|H]; [left|right]; auto).
  split; try first [congruence | lia | by auto].
  - intros Hd. rewrite sf_dialect1 by auto. auto.
  - intros p Hp. eapply same_or_illegal_trans; [by apply sf_slots0|apply sf_slots1; congruence].
Qed.

(** The descriptor of the next token is complete after [Scan]. *)
Lemma Scan_spec s :
  scanner_ok s ->
  wp Scan
    (fun _ s' => scanner_ok s' /\ scan_frame s s' /\
       end_pos (location (next s')) = source_pos s' /\
       (token (next s') <> Token.EOS -> token (next s') <> Token.ILLEGAL ->
        (input_left s' < input_left s)%nat) /\
       is_scanned (token (next s')) = true /\ saw_non_comment_token_ s' = true) s.
Proof.
  intros Hok. pose proof (walks_refl s Hok) as Hs. unfold Scan.
  scan_step. apply (walk_modify _ s); [done|by apply walks_update_next; [state_ok|]|]. intros H1.
  scan_step. eapply wp_mono.
  { eapply wp_yields; [apply ScanSingleToken_scanned|apply ScanSingleToken_spec, H1]. }
  intros t s2 [[H2 Hprog] Hscan].
  assert (Hs2 : walks s s2) by (by eapply walks_trans).
  scan_step. apply (walk_modify _ s); [done|by apply walks_update_next; [state_ok|]|].
  set (s3 := update_next _ s2). intros H3.
  assert (Hn3 : token (next s3) = t) by (unfold s3; by rewrite next_update_next).
  rewrite !bool_decide_eq_false_2 by (intros ->; discriminate Hscan).
  scan_step. apply wp_modify, wp_modify. set (s4 := set_saw_non_comment_token true s3).
  assert (Hf4 : scan_frame s s4) by (by apply walks_scan_frame in H3 as []).
  assert (H5 : walks s4 (update_next (fun d => set_end_pos d (source_pos s4)) s4))
    by (apply walks_update_next; [by apply walks_set_saw, H3|done]).
  split; [apply H5|]. split; [eapply scan_frame_trans; [done|by apply walks_scan_frame]|].
  rewrite next_update_next. split; [done|]. cbn. change (token (next s4)) with (token (next s3)).
  rewrite Hn3. done.
Qed.
End Tokens.

Section PublicOperations.
Context {D : Type} {BR : BlockReader D} {BOK : BlockReaderOK D}.
Context {U : UnicodeData} {UOK : UnicodeDataOK U} {C : BuildConfig}.
Local Abbreviation Scanner := (Scanner D).
Local Abbreviation SM := (M Scanner).
Implicit Types s : Scanner.

(** What every public operation preserves: the invariant, the text and the flags. *)
Definition keeps_ok s s' : Prop :=
  scanner_ok s' /\ text (source_ s') = text (source_ s) /\ flags_ s' = flags_ s.

Lemma keeps_ok_trans s1 s2 s3 : keeps_ok s1 s2 -> keeps_ok s2 s3 -> keeps_ok s1 s3.
Proof. intros (_ & ? & ?) (? & ? & ?). split; [done|]. split; congruence. Qed.

Lemma walks_keeps_ok s s' : walks s s' -> keeps_ok s s'.
Proof. intros [H []]. done. Qed.

Lemma Scan_keeps_ok s : scanner_ok s -> wp Scan (fun _ s' => keeps_ok s s') s.
Proof.
  intros Hok. eapply wp_mono; [by apply Scan_spec|]. intros [] s' (H & [] & _). done.
Qed.

(** Moving the three pointers around is harmless. *)
Lemma ok_set_pointers s a b c :
  scanner_ok s -> keeps_ok s (set_current a (set_next b (set_next_next c s))).
Proof. intros [Hm Hi]. split; [split; [destruct Hm; by split|done]|done]. Qed.

Lemma ok_set_current s p : scanner_ok s -> keeps_ok s (set_current p s).
Proof. intros [Hm Hi]. split; [split; [destruct Hm; by split|done]|done]. Qed.

Lemma ok_set_next s p : scanner_ok s -> keeps_ok s (set_next p s).
Proof. intros [Hm Hi]. split; [split; [destruct Hm; by split|done]|done]. Qed.

Lemma ok_set_next_next s p : scanner_ok s -> keeps_ok s (set_next_next p s).
Proof. intros [Hm Hi]. split; [split; [destruct Hm; by split|done]|done]. Qed.

Lemma ok_update_slot p f s :
  scanner_ok s -> (forall d, desc_ok d -> desc_ok (f d)) -> keeps_ok s (update_slot p f s).
Proof. intros [Hm Hi] Hf. split; [split; [by apply members_ok_update_slot|done]|done]. Qed.

(** A state change inside an operation. *)
Lemma ok_modify (f : Scanner -> Scanner) s0 s Q :
  keeps_ok s0 s -> keeps_ok s (f s) -> (keeps_ok s0 (f s) -> Q tt (f s)) -> wp (modify f) Q s.
Proof. intros H1 H2 HQ. apply wp_modify, HQ. by eapply keeps_ok_trans. Qed.

Lemma ok_Scan s0 s Q :
  keeps_ok s0 s -> (forall s', keeps_ok s0 s' -> Q tt s') -> wp Scan Q s.
Proof.
  intros H HQ. eapply wp_mono; [apply Scan_keeps_ok, H|]. intros [] s' H'.
  apply HQ. by eapply keeps_ok_trans.
Qed.

Ltac ok_step :=
  lazymatch goal with
  | |- wp (bind _ _) _ _ => apply wp_bind
  | |- wp (ret _) _ _ => apply wp_ret
  | |- wp (gets _) _ _ => apply wp_gets
  | |- wp (if ?b then _ else _) _ _ => destruct b eqn:?
  | H : keeps_ok ?s0 ?s |- wp (modify _) _ ?s =>
      apply (ok_modify _ s0 s);
      [exact H
      |first [ apply ok_set_current | apply ok_set_next | apply ok_set_next_next
             | apply ok_update_slot ]; solve [apply H | by intros ? []]
      |intros]
  | H : keeps_ok ?s0 ?s |- wp Scan _ ?s =>
      apply (ok_Scan s0 s); [exact H|intros]
  end.

Lemma keeps_ok_refl s : scanner_ok s -> keeps_ok s s.
Proof. done. Qed.

Lemma Next_spec s : scanner_ok s -> wp Next (fun _ s' => keeps_ok s s') s.
Proof.
  intros Hok. pose proof (keeps_ok_refl s Hok). unfold Next. by repeat ok_step.
Qed.

Lemma PeekAhead_spec s : scanner_ok s -> wp PeekAhead (fun _ s' => keeps_ok s s') s.
Proof.
  intros Hok. pose proof (keeps_ok_refl s Hok). unfold PeekAhead. by repeat ok_step.
Qed.

(** Any well-formed stream can be scanned from its position. *)
Lemma AdvanceSource_base s :
  members_ok s -> stream_ok (source_ s) -> 0 <= pos (source_ s) ->
  (has_parser_error_ (source_ s) = true -> rest (source_ s) = []) ->
  wp AdvanceSource
    (fun _ s' => keeps_ok s s' /\ c0_ s' = hd kEndOfInput (ahead s) /\ ahead s' = tl (ahead s) /\
       pos (source_ s') = pos (source_ s) + 1 /\ has_parser_error s' = has_parser_error s) s.
Proof.
  intros Hm H1 H2 H3.
  destruct (AdvanceSource_input _ H1 H2 H3) as (st' & E & Hi' & Ht & He & Hp & Hr & _).
  unfold AdvanceSource. apply wp_modify. rewrite E.
  split; [|done]. split; [split; [destruct Hm; by split|done]|done].
Qed.

Lemma Advance_base s :
  members_ok s -> stream_ok (source_ s) -> 0 <= pos (source_ s) ->
  (has_parser_error_ (source_ s) = true -> rest (source_ s) = []) ->
  wp (Advance false)
    (fun _ s' => keeps_ok s s' /\ c0_ s' = hd kEndOfInput (ahead s) /\ ahead s' = tl (ahead s) /\
       pos (source_ s') = pos (source_ s) + 1 /\ has_parser_error s' = has_parser_error s) s.
Proof. intros. apply wp_bind, wp_ret. by apply AdvanceSource_base. Qed.

Lemma members_seek position s : members_ok s -> members_ok (set_source (Seek (source_ s) position) s).
Proof. intros []. by split. Qed.

(** Seeking re-reads the text from [position]. *)
Lemma Seek_Advance_spec position s :
  members_ok s -> stream_ok (source_ s) -> has_parser_error s = false -> 0 <= position ->
  wp (SeekSource position ;;; AdvanceSource)
    (fun _ s' => keeps_ok s s' /\
       c0_ s' = hd kEndOfInput (drop (Z.to_nat position) (text (source_ s))) /\
       ahead s' = drop (S (Z.to_nat position)) (text (source_ s)) /\
       pos (source_ s') = position + 1 /\ has_parser_error s' = false) s.
Proof.
  intros Hm Hok He Hp. destruct (Seek_spec (source_ s) position Hok He Hp)
    as (H1 & H2 & H3 & H4 & H5 & H6).
  apply wp_bind, wp_modify. eapply wp_mono.
  { apply AdvanceSource_base; cbn; [by apply members_seek|done|lia|congruence]. }
  intros [] s' (Hk & Hc & Ha & Hpos & Herr). unfold ahead in *. cbn in *.
  destruct Hk as (Hok' & Ht' & Hf'). cbn in *.
  split; [split; [done|split; congruence]|]. rewrite Hc, Ha, H6. split; [done|].
  split; [|split; [lia|unfold has_parser_error in *; cbn in *; congruence]].
  change (tl (drop (Z.to_nat position) (text (source_ s)))) with
    (tail (drop (Z.to_nat position) (text (source_ s)))).
  rewrite <- (Nat.add_1_r (Z.to_nat position)), <- drop_drop.
  by destruct (drop (Z.to_nat position) (text (source_ s))).
Qed.

Lemma SeekNext_spec position s :
  members_ok s -> stream_ok (source_ s) -> has_parser_error s = false -> 0 <= position ->
  wp (SeekNext position) (fun _ s' => keeps_ok s s') s.
Proof.
  intros Hm Hok He Hp. unfold SeekNext. apply wp_bind, wp_modify.
  set (s1 := set_token_storage _ s).
  assert (Hm1 : members_ok s1).
  { destruct Hm as [Hd H1 H2 H3]. split; [|done|done|done]. intros p. cbn.
    rewrite storage_get_map. specialize (Hd p). by destruct (storage_get p (token_storage_ s)). }
  apply wp_bind. eapply wp_mono.
  { exact (wp_bind_inv _ _ _ _ (Seek_Advance_spec position s1 Hm1 Hok He Hp)). }
  intros [] s2 H2. apply wp_bind. eapply wp_mono; [exact H2|].
  intros [] s3 [H3 _]. assert (H' : keeps_ok s s3) by exact H3. by repeat ok_step.
Qed.

Lemma Bookmark_Apply_spec b s :
  scanner_ok s -> 0 <= bookmark_ b ->
  wp (Bookmark_Apply b) (fun b' s' => keeps_ok s s' /\ HasBeenApplied b' = true) s.
Proof.
  intros Hok Hb. unfold Bookmark_Apply. apply wp_bind. destruct (had_parser_error_ b).
  - apply wp_modify, wp_ret. split; [|done]. apply walks_keeps_ok. by apply walks_set_parser_error.
  - apply wp_bind, wp_modify. destruct Hok as [Hm Hi].
    eapply wp_mono; [apply SeekNext_spec; [destruct Hm; by split|apply Hi|done|done]|].
    intros [] s' (H1 & H2 & H3). by apply wp_ret.
Qed.

Lemma SeekForward_spec position s :
  scanner_ok s -> has_parser_error s = false -> 0 <= position ->
  wp (SeekForward position) (fun _ s' => keeps_ok s s') s.
Proof.
  intros Hok He Hp. pose proof (keeps_ok_refl s Hok) as Hs. unfold SeekForward.
  do 3 ok_step; [by apply wp_ret|]. do 3 ok_step. ok_step; [|by repeat ok_step].
  destruct Hok as [Hm Hi].
  apply wp_bind. eapply wp_mono.
  { exact (wp_bind_inv _ _ _ _ (Seek_Advance_spec position s Hm (ok_stream _ _ Hi) He Hp)). }
  intros [] s2 H2. apply wp_bind. unfold Advance. apply wp_bind, wp_ret. eapply wp_mono; [exact H2|].
  intros [] s3 [H3 _]. by repeat ok_step.
Qed.

Lemma AdvanceSource_keeps_storage : keeps (St:=Scanner) token_storage_ AdvanceSource.
Proof. apply keeps_modify. intros s. by destruct (Stream.Advance (source_ s)). Qed.

Lemma Advance_keeps_storage : keeps (St:=Scanner) token_storage_ (Advance false).
Proof. apply keeps_bind; [apply keeps_ret|]. intros _. apply AdvanceSource_keeps_storage. Qed.

(** The state [Init] leaves for the first token. *)
Record starting st flags s : Prop := {
  st_ok : keeps_ok (Scanner_new st flags) s;
  st_pointers : (current_ s, next_ s, next_next_ s) = (Slot0, Slot1, Slot2);
  st_storage : token_storage_ s = mkStorage TokenDesc_new TokenDesc_new TokenDesc_new;
  st_c0 : c0_ s = hd kEndOfInput (rest st);
  st_ahead : ahead s = tl (rest st);
  st_pos : pos (source_ s) = pos st + 1;
  st_dialect : source_dialect_ s = flags_source_dialect flags;
  st_saw : saw_non_comment_token_ s = false;
  st_found : found_source_dialect_comment_ s = false;
  st_error : scanner_error_ s = kNone;
  st_parser_error : has_parser_error s = false
}.

Lemma starting_left st flags s : stream_ok st -> starting st flags s -> input_left s = length (rest st).
Proof.
  intros Hok []. pose proof (rest_uc16 st Hok) as Hu. unfold input_left.
  fold (ahead s). rewrite st_c1, st_ahead0. destruct (rest st) as [|c l]; [done|].
  apply Forall_cons_1 in Hu as [Hu _]. apply uc16_not_eof in Hu. cbn.
  by destruct (Z.eqb_spec c kEndOfInput).
Qed.

Lemma Init_spec st flags :
  stream_ok st -> 0 <= pos st -> has_parser_error_ st = false ->
  wp Init (fun _ s => starting st flags s) (Scanner_new st flags).
Proof.
  intros Hok Hp He. unfold Init. apply wp_bind. eapply wp_mono.
  { apply (wp_keeps token_storage_); [apply Advance_keeps_storage|].
    apply Advance_base; cbn; [|done|done|congruence].
    assert (Hd : desc_ok TokenDesc_new) by (split; apply buffer_new_ok).
    split; [|apply buffer_new_ok..]. intros []; apply Hd. }
  intros [] s1 ((((Hm & Hi) & Ht & Hf) & Hc & Ha & Hpos & Herr) & Hst).
  do 8 (apply wp_bind, wp_modify). apply wp_modify. split; try done.
  - split; [split; [|done]|done].
    destruct Hm as [Hm1 Hm2 Hm3 Hm4]. split; [apply Hm1|done|done|]. by apply buffer_ok_Start.
  - cbn. by rewrite Hf.
  - unfold has_parser_error in *. cbn in *. congruence.
Qed.

Lemma Initialize_spec st flags :
  stream_ok st -> 0 <= pos st -> has_parser_error_ st = false ->
  wp Initialize (fun _ s' => keeps_ok (Scanner_new st flags) s') (Scanner_new st flags).
Proof.
  intros Hok Hp He. unfold Initialize. apply wp_bind.
  eapply wp_mono; [by apply Init_spec|]. intros [] s1 [H1 _]. by repeat ok_step.
Qed.

Lemma ScanTemplateContinuation_spec s :
  scanner_ok s -> wp ScanTemplateContinuation (fun _ s' => keeps_ok s s') s.
Proof.
  intros Hok. eapply wp_mono; [by apply ScanTemplateSpan_spec|].
  intros t s' [H _]. by apply walks_keeps_ok.
Qed.

Lemma ScanRegExpPattern_spec s :
  scanner_ok s -> wp ScanRegExpPattern (fun _ s' => walks s s' /\ True) s.
Proof.
  intros Hok. pose proof (walks_refl s Hok) as Hs. unfold ScanRegExpPattern. scan_step.
  eapply wp_mono; [by apply StartLiteral_spec|]. intros [] s1 (H1 & _ & Ho & _).
  pose proof (safe_walks _ _ (collected_safe _ _ H1)) as Hs1. do 3 scan_step.
  eapply (walk_call _ (fun _ _ => True) s); [|done|].
  { pose proof (walks_refl s1 (proj1 Hs1)) as H. scan_step; [|by apply wp_ret].
    eapply wp_mono; [apply AddLiteralAsciiChar_spec; [apply Hs1|lia|done]|].
    intros [] s2 (H2 & _). split; [|done]. by apply safe_walks, collected_safe. }
  intros [] s2 H2 _ _. scan_step.
  apply (walk_loop _ (fun _ => True) (fun _ => True) _ s); [done|done| |].
  - intros cls s3 H3 _ _. do 3 scan_step; [repeat scan_step; walk_done|].
    scan_step; [repeat scan_step; walk_done|].
    assert (Hne : c0_ s3 <> kEndOfInput) by (bool_to_prop; done).
    pose proof (input_left_more s3 Hne).
    repeat scan_step; split; try done; first [lia | split; [done|lia]].
  - intros ok s3 H3 _ _. scan_step; [by apply wp_ret|]. do 3 scan_step.
    apply (walk_modify _ s); [done|by apply walks_update_next; [state_ok|]|].
    intros H5. by apply wp_ret.
Qed.

Lemma ScanRegExpFlags_spec s :
  scanner_ok s -> wp ScanRegExpFlags (fun _ s' => walks s s' /\ True) s.
Proof.
  intros Hok. pose proof (walks_refl s Hok) as Hs. unfold ScanRegExpFlags.
  do 3 scan_step.
  apply (walk_loop _ (fun _ => True) (fun _ => True) _ s); [done|done| |].
  - intros flags s3 H3 _ _. do 3 scan_step; [repeat scan_step; walk_done|].
    repeat scan_step; walk_done.
  - intros r s3 H3 _ _. scan_step; [|by apply wp_ret]. scan_step.
    apply (walk_modify _ s); [done|by apply walks_update_next; [state_ok|]|].
    intros H5. by apply wp_ret.
Qed.
End PublicOperations.
