(* ===== verification/ScanText.v ===== *)
(** * Scanning known text

    Rules to run the scanner on a source of which the next characters are
    known: [chars_left] is the abstract input, and each primitive operation of
    [ScannerState.v] is a function on it. *)

From S2P Require Import Prelude.
From S2P Require Import CharPredicates.
From S2P Require Import Tokens.
From S2P Require Import Keywords.
From S2P Require Import ScanTables.
From S2P Require Import LiteralBuffer.
From S2P Require Import Stream.
From S2P Require Import ScannerState.
From S2P Require Import Literals.
From S2P Require Import Comments.
From S2P Require Import Scanner.
From S2P Require Import ScannerSpec.
From S2P Require Import LiteralsSafety.
From S2P Require Import CommentsSafety.
From stdpp Require Import base list numbers decidable.
From Stdlib Require Import ZArith Lia Bool.

Local Open Scope Z_scope.
Local Open Scope prog_scope.

Section Text.
Context {D : Type} {BR : BlockReader D} {BOK : BlockReaderOK D}.
Context {U : UnicodeData} {UOK : UnicodeDataOK U} {C : BuildConfig}.
Local Abbreviation Scanner := (Scanner D).
Local Abbreviation SM := (M Scanner).
Implicit Types s : Scanner.

Lemma chars_left_length s : length (chars_left s) = input_left s.
Proof. unfold chars_left, input_left. by destruct (c0_ s =? kEndOfInput). Qed.

Lemma chars_left_cons s c l :
  chars_left s = c :: l -> c0_ s = c /\ ahead s = l /\ c <> kEndOfInput.
Proof.
  unfold chars_left. destruct (Z.eqb_spec (c0_ s) kEndOfInput) as [|Hne]; [done|].
  intros [= <- <-]. done.
Qed.

Lemma chars_left_nil s : chars_left s = [] -> c0_ s = kEndOfInput.
Proof. unfold chars_left. by destruct (Z.eqb_spec (c0_ s) kEndOfInput). Qed.

Lemma chars_left_input s s' : input s' = input s -> chars_left s' = chars_left s.
Proof. unfold input, chars_left, ahead. by intros [= -> ->]. Qed.

Lemma chars_left_advanced s s' :
  scanner_ok s -> advanced s s' -> chars_left s' = tl (chars_left s).
Proof.
  intros [_ Hi] H. pose proof (rest_uc16 _ (ok_stream _ _ Hi)) as Hu. unfold chars_left.
  rewrite (ad_c0 _ _ H), (ad_ahead _ _ H). fold (ahead s) in Hu.
  destruct (Z.eqb_spec (c0_ s) kEndOfInput) as [E|E].
  { unfold ahead. by rewrite (ok_end _ _ Hi E). }
  destruct (ahead s) as [|c l]; [done|]. apply Forall_cons_1 in Hu as [Hu _].
  apply uc16_not_eof in Hu. cbn. by destruct (Z.eqb_spec c kEndOfInput).
Qed.

(** [s'] is [s] after consuming text into nothing but the look-ahead. *)
Definition consumed s s' (l : list Z) : Prop :=
  scanner_ok s' /\ lit_frame s s' /\ chars_left s' = l.

Lemma wp_Advance_text c l s Q :
  scanner_ok s -> chars_left s = c :: l ->
  (forall s', consumed s s' l -> next s' = next s -> errors s' = errors s -> Q tt s') ->
  wp (Advance false) Q s.
Proof.
  intros Hok Hl HQ. eapply wp_mono; [by apply Advance_spec|]. intros [] s' H. apply HQ.
  - split; [apply H|]. split; [apply H|]. by rewrite (chars_left_advanced _ _ Hok H), Hl.
  - apply H.
  - apply H.
Qed.

Lemma wp_PeekChar_text c1 c2 l s Q :
  scanner_ok s -> chars_left s = c1 :: c2 :: l ->
  (forall s', consumed s s' (c1 :: c2 :: l) -> next s' = next s -> errors s' = errors s ->
     Q c2 s') ->
  wp PeekChar Q s.
Proof.
  intros Hok Hl HQ. eapply wp_mono; [by apply PeekChar_spec|].
  intros c s' (Hok' & Hf & -> & Ha & Hc & _ & Hn & He).
  destruct (chars_left_cons _ _ _ Hl) as (Hc1 & Ha1 & _). rewrite Ha1. apply HQ; [|done|done].
  split; [done|]. split; [done|]. unfold chars_left. by rewrite Ha, Hc, <- Hl.
Qed.

Lemma consumed_trans s1 s2 s3 l2 l3 : consumed s1 s2 l2 -> consumed s2 s3 l3 -> consumed s1 s3 l3.
Proof.
  intros (_ & H1 & _) (H2 & H3 & H4). split; [done|]. split; [by eapply lit_frame_trans|done].
Qed.

Lemma consumed_refl s : scanner_ok s -> consumed s s (chars_left s).
Proof. intros. split; [done|]. split; [apply lit_frame_refl|done]. Qed.

Lemma consumed_walks s s' l : consumed s s' l -> walks s s'.
Proof. intros (H1 & H2 & _). split; [done|by apply lit_frame_frame]. Qed.

(** The text ends, or goes on with a character that satisfies [p]. *)
Definition ends_at (p : Z -> bool) (l : list Z) : Prop :=
  match l with [] => True | c :: _ => p c = true end.

(** A loop that adds each character to a buffer until the text [tail]. *)
Lemma wp_collect_loop (body : LiteralBuffer -> SM (LiteralBuffer + LiteralBuffer))
    (l tail : list Z) b s Q :
  scanner_ok s -> buffer_ok b -> is_one_byte_ b = true ->
  chars_left s = l ++ tail -> Forall (fun c => 0 <= c <= 255) l ->
  (forall b1 s1 c r, In c l -> scanner_ok s1 -> buffer_ok b1 -> chars_left s1 = c :: r ->
     wp (body b1)
       (fun res s2 => consumed s1 s2 r /\ exists b2, AddChar b1 c = Some b2 /\ res = inl b2) s1) ->
  (forall b1 s1, scanner_ok s1 -> chars_left s1 = tail ->
     wp (body b1) (fun res s2 => s2 = s1 /\ res = inr b1) s1) ->
  (forall b' s', consumed s s' tail -> buffer_ok b' -> is_one_byte_ b' = true ->
     code_units b' = code_units b ++ l -> Q b' s') ->
  wp (scan_loop body b) Q s.
Proof.
  intros Hok Hb Ho Hl Hlat Hstep Hend HQ.
  apply (wp_scan_loop (fun b1 s1 => exists l1 l2, l = l1 ++ l2 /\ consumed s s1 (l2 ++ tail) /\
           buffer_ok b1 /\ is_one_byte_ b1 = true /\ code_units b1 = code_units b ++ l1)).
  { exists [], l. split; [done|]. split; [rewrite <- Hl; by apply consumed_refl|].
    by rewrite app_nil_r. }
  intros b1 s1 (l1 & l2 & -> & Hc & Hb1 & Ho1 & Hu1). destruct l2 as [|c l2].
  - eapply wp_mono; [apply Hend; apply Hc|]. intros res s2 [-> ->].
    apply HQ; [done|done|done|]. by rewrite app_nil_r.
  - eapply wp_mono.
    { eapply (Hstep b1 s1 c (l2 ++ tail)); [apply in_or_app; right; by left|apply Hc|done|apply Hc]. }
    intros res s2 (Hc2 & b2 & E & ->).
    apply Forall_app in Hlat as [_ Hlat]. apply Forall_cons_1 in Hlat as [[Hlat1 Hlat2] _].
    destruct (AddChar_spec b1 c Hb1 Hlat1) as (b2' & E' & Hb2 & Ho2 & Hu2).
    rewrite E in E'. injection E' as <-.
    split.
    + exists (l1 ++ [c]), l2. split; [by rewrite <- app_assoc|].
      split; [by eapply consumed_trans|]. split; [done|]. split.
      * rewrite Ho2, Ho1. unfold kLatin1MaxChar. cbn. apply Z.leb_le. lia.
      * rewrite Hu2, Hu1, <- app_assoc. f_equal. f_equal. unfold utf16_encode.
        unfold kMaxNonSurrogateCharCode. destruct (Z.leb_spec c 0xffff); [done|lia].
    + destruct Hc as (_ & _ & Hc), Hc2 as (_ & _ & Hc2).
      rewrite <- !chars_left_length, Hc, Hc2. apply Nat.lt_succ_diag_r.
Qed.
End Text.

(** Chains the [consumed] facts of successive steps. *)
Ltac consumed_chain :=
  repeat first [assumption | eapply consumed_trans; [eassumption|]].
