(* ===== verification/TextProperties.v ===== *)
(** * Properties of characters, tokens and keywords

    The theorems about [CharPredicates.v], [Tokens.v] and [Keywords.v]. *)

From Stdlib Require Import String Ascii.
From S2P Require Import Prelude.
From S2P Require Import CharPredicates.
From S2P Require Import Tokens.
From S2P Require Import Keywords.
From S2P Require Import ScanTables.
From stdpp Require Import base list numbers decidable.
From Stdlib Require Import ZArith Lia Bool List.

Local Open Scope string_scope.
Local Open Scope Z_scope.

(** ** Keywords *)

(** C4: the keyword test of both dialects is exact. On every word whose first
    two characters are ASCII (English) or on every word at all (Spanish), the
    perfect hash of the English table and the length switch of the Spanish one
    return the token of the dialect's keyword list that is spelled like the
    word, and [IDENTIFIER] for every other word; no table access is out of
    bounds. *)
Theorem keyword_recognition d str :
  (d = kJsEng -> Forall (fun c => 0 <= c < 128) (take 2 str)) ->
  Z.of_nat (length str) < 2 ^ 31 ->
  KeywordOrIdentifierToken d str (Z.of_nat (length str))
  = Some (keyword_lookup (keywords_of d) str).
Proof. apply KeywordOrIdentifierToken_spec. Qed.

Lemma keyword_recognition_witness :
  KeywordOrIdentifierToken kJsEng (bytes_of "instanceof") 10 = Some Token.INSTANCEOF /\
  KeywordOrIdentifierToken kJsSpa (bytes_of "instanciade") 11 = Some Token.INSTANCEOF.
Proof.
  split.
  - apply (keyword_recognition kJsEng (bytes_of "instanceof")); [intros _; repeat constructor; lia|].
    vm_compute. reflexivity.
  - apply (keyword_recognition kJsSpa (bytes_of "instanciade")); [discriminate|].
    vm_compute. reflexivity.
Defined.

(** Every entry of a keyword list is found under its own spelling. *)
Definition self_lookup (l : list (string * Token.Value)) : bool :=
  forallb (fun e => bool_decide (keyword_lookup l (bytes_of (fst e)) = snd e)) l.

Definition spelled_tokens (d : SourceDialect) : list Token.Value := map snd (keywords_of d).

Lemma keyword_lookup_cases l str :
  keyword_lookup l str = Token.IDENTIFIER \/ In (keyword_lookup l str) (map snd l).
Proof.
  induction l as [|[n v] l IH]; cbn; [by left|]. case_bool_decide; [by right; left|].
  destruct IH; [by left|right; by right].
Qed.

Lemma spelled_tokens_self d e :
  In e (keywords_of d) -> keyword_lookup (keywords_of d) (bytes_of (fst e)) = snd e.
Proof.
  assert (H : self_lookup keywords_eng && self_lookup keywords_spa = true)
    by (vm_compute; reflexivity).
  apply andb_true_iff in H as [H1 H2]. unfold self_lookup in *. rewrite forallb_forall in H1, H2.
  intros He. destruct d; cbn in *; [apply H1 in He|apply H2 in He]; by apply bool_decide_eq_true in He.
Qed.

Lemma spelled_tokens_same t :
  In t (spelled_tokens kJsEng) <-> In t (spelled_tokens kJsSpa).
Proof.
  assert (H : forall d d', forallb (fun t => existsb (fun t' => bool_decide (t = t')) (spelled_tokens d'))
                        (spelled_tokens d) = true -> In t (spelled_tokens d) -> In t (spelled_tokens d')).
  { intros d d' H Ht. rewrite forallb_forall in H. apply H, existsb_exists in Ht as (t' & Ht & E).
    by apply bool_decide_eq_true in E as ->. }
  split; apply H; vm_compute; reflexivity.
Qed.

(** The dialects have the same expressive power: a token other than
    [IDENTIFIER] is the meaning of some English word exactly if it is the meaning
    of some Spanish word. *)
Theorem dialects_cover_same_tokens t :
  t <> Token.IDENTIFIER ->
  ((exists w, keyword_lookup (keywords_of kJsEng) w = t) <->
   (exists w, keyword_lookup (keywords_of kJsSpa) w = t)).
Proof.
  intros Hid.
  assert (H : forall d, (exists w, keyword_lookup (keywords_of d) w = t) <-> In t (spelled_tokens d)).
  { intros d. split.
    - intros [w E]. destruct (keyword_lookup_cases (keywords_of d) w) as [H|H]; [congruence|by subst t].
    - intros Ht. apply in_map_iff in Ht as (e & <- & He).
      exists (bytes_of (fst e)). by apply spelled_tokens_self. }
  rewrite !H. apply spelled_tokens_same.
Qed.

Lemma dialects_cover_same_tokens_witness :
  exists w, keyword_lookup (keywords_of kJsSpa) w = Token.WHILE.
Proof.
  assert (Hid : Token.WHILE <> Token.IDENTIFIER) by discriminate.
  refine (proj1 (dialects_cover_same_tokens Token.WHILE Hid) _).
  exists (bytes_of "while"). vm_compute. reflexivity.
Defined.

(** The contextual names ([of], [from], [arguments], ... and their Spanish
    spellings) are ordinary identifiers in their own dialect: the scanner returns
    [IDENTIFIER] for each of them, so that the parser's comparison against the
    dialect's spelling decides. *)
Theorem contextual_names_are_identifiers d name :
  KeywordOrIdentifierToken d (bytes_of (SourceDialectNameSpelling d name))
    (Z.of_nat (length (bytes_of (SourceDialectNameSpelling d name)))) = Some Token.IDENTIFIER.
Proof. destruct d, name; vm_compute; reflexivity. Qed.

Lemma spelling_nonzero d name : nonzero (bytes_of (SourceDialectNameSpelling d name)) = true.
Proof. destruct d, name; vm_compute; reflexivity. Qed.

Lemma IsOneByteEqualTo_spec id data :
  nonzero (bytes_of data) = true ->
  IsOneByteEqualTo id data = is_one_byte id && bool_decide (literal_bytes id = bytes_of data).
Proof.
  intros Hnz. unfold IsOneByteEqualTo. destruct (is_one_byte id); [|done]. cbn [negb andb].
  destruct (Nat.eqb_spec (length (literal_bytes id)) (length (bytes_of data))) as [E|E]; cbn [negb].
  - rewrite E. by apply strncmp_eq_spec.
  - symmetry. apply bool_decide_eq_false. congruence.
Qed.

(** The parser's test for a contextual name accepts exactly the one-byte
    identifier with the spelling of the current dialect, and within one dialect
    two names never accept the same identifier. *)
Theorem contextual_name_test d id name :
  AstRawStringEqualsSourceDialectName id d name = true <->
  exists s, id = Some s /\ is_one_byte s = true /\
    literal_bytes s = bytes_of (SourceDialectNameSpelling d name) /\
    forall name', AstRawStringEqualsSourceDialectName id d name' = true -> name' = name.
Proof.
  assert (Hinj : forall n1 n2, bytes_of (SourceDialectNameSpelling d n1)
                   = bytes_of (SourceDialectNameSpelling d n2) -> n1 = n2).
  { intros n1 n2. destruct d, n1, n2; intros E; try done; vm_compute in E; discriminate E. }
  assert (Hspec : forall s n, IsOneByteEqualTo s (SourceDialectNameSpelling d n)
            = is_one_byte s && bool_decide (literal_bytes s = bytes_of (SourceDialectNameSpelling d n)))
    by (intros; apply IsOneByteEqualTo_spec, spelling_nonzero).
  destruct id as [s|]; cbn; [|split; [done|by intros (s & [=] & _)]].
  split.
  - intros H. exists s. pose proof H as H'. rewrite Hspec in H'. bool_to_prop.
    apply bool_decide_eq_true in H1. split; [done|]. split; [done|]. split; [done|].
    intros n'. rewrite Hspec. intros Hn. bool_to_prop. apply bool_decide_eq_true in H3.
    apply Hinj. congruence.
  - intros (s' & [= <-] & Ho & Hb & _). rewrite Hspec, Ho, Hb. by rewrite bool_decide_eq_true_2.
Qed.

(** C39: a dialect name parses to its dialect and nothing else does; and the
    name stored in a compiled script restores the dialect for the functions
    compiled from it later. *)
Theorem dialect_name_roundtrip d :
  (forall value, TryParseSourceDialect value = Some d <-> value = bytes_of (SourceDialectName d)) /\
  SetFlagsForFunctionFromScript_dialect (Some (bytes_of (SourceDialectName d))) = d.
Proof.
  split; [intros value; apply TryParseSourceDialect_Some|]. by destruct d.
Qed.

(** ** Tokens *)

Definition binary_op_ok (t : Token.Value) : bool :=
  if Token.IsAssignmentOp t
     && negb (existsb (fun t' => bool_decide (t = t')) [Token.INIT; Token.ASSIGN]) then
    match Token.BinaryOpForAssignment t with
    | Some op =>
        Token.IsBinaryOp op && negb (Token.IsAssignmentOp op)
        && match Token.TokenString t, Token.TokenString op with
           | Some s, Some s' => String.eqb s (s' ++ "=")
           | _, _ => false
           end
    | None => false
    end
  else true.

(** The offset between a compound assignment and its binary operator in
    the token numbering is right: for every assignment operator but [INIT] and
    [=], [BinaryOpForAssignment] is a binary operator whose source text is the
    assignment's without the trailing [=]. *)
Theorem assignment_operators t :
  Token.IsAssignmentOp t = true -> t <> Token.INIT -> t <> Token.ASSIGN ->
  exists op s, Token.BinaryOpForAssignment t = Some op /\ Token.IsBinaryOp op = true /\
    Token.TokenString op = Some s /\ Token.TokenString t = Some (s ++ "=")%string.
Proof.
  intros Ha Hi Hs.
  pose proof (Token.token_forall binary_op_ok ltac:(vm_compute; reflexivity) t) as H.
  unfold binary_op_ok in H. rewrite Ha in H. cbn [existsb] in H.
  rewrite !bool_decide_eq_false_2 in H by done. cbn [orb negb andb] in H.
  destruct (Token.BinaryOpForAssignment t) as [op|]; [|done].
  bool_to_prop. destruct (Token.TokenString t) as [s|], (Token.TokenString op) as [s'|] eqn:E; try done.
  apply String.eqb_eq in H0. exists op, s'. by subst.
Qed.

Lemma assignment_operators_witness :
  exists op s, Token.BinaryOpForAssignment Token.ASSIGN_SHR = Some op /\
    Token.IsBinaryOp op = true /\ Token.TokenString op = Some s /\
    Token.TokenString Token.ASSIGN_SHR = Some (s ++ "=")%string.
Proof. apply (assignment_operators Token.ASSIGN_SHR); [reflexivity|discriminate|discriminate]. Defined.

(** The precedence the binary-expression parser relies on. *)
Definition precedence_ok (t : Token.Value) : bool :=
  Bool.eqb (0 <? Token.Precedence t true)
    (Token.IsBinaryOp t || Token.IsCompareOp t || Token.IsAssignmentOp t
     || bool_decide (t = Token.CONDITIONAL))
  && Bool.eqb (3 <? Token.Precedence t true)
    ((Token.IsBinaryOp t || Token.IsCompareOp t)
     && negb (bool_decide (t = Token.COMMA)) && negb (bool_decide (t = Token.NULLISH)))
  && (if bool_decide (t = Token.IN) then Token.Precedence t false =? 0
      else Token.Precedence t false =? Token.Precedence t true).

(** The tokens with a positive precedence are the binary, comparison and
    assignment operators and [?]; those above the level 3 of [?] and [??], from
    which the parser builds left-associative binary expressions, are the binary
    and comparison operators other than the comma and [??]; and not accepting
    [in] changes the precedence of [in] only. *)
Theorem precedence_of_operators t :
  (0 < Token.Precedence t true <->
   Token.IsBinaryOp t = true \/ Token.IsCompareOp t = true \/ Token.IsAssignmentOp t = true \/
   t = Token.CONDITIONAL) /\
  (3 < Token.Precedence t true <->
   (Token.IsBinaryOp t = true \/ Token.IsCompareOp t = true) /\
   t <> Token.COMMA /\ t <> Token.NULLISH) /\
  Token.Precedence t false = (if bool_decide (t = Token.IN) then 0 else Token.Precedence t true).
Proof.
  pose proof (Token.token_forall precedence_ok ltac:(vm_compute; reflexivity) t) as H.
  unfold precedence_ok in H. rewrite !andb_true_iff in H. destruct H as [[H1 H2] H3].
  apply eqb_prop in H1, H2. split; [|split].
  - rewrite <- Z.ltb_lt, H1, !orb_true_iff, bool_decide_eq_true. tauto.
  - rewrite <- Z.ltb_lt, H2, !andb_true_iff, orb_true_iff, !negb_true_iff, !bool_decide_eq_false.
    tauto.
  - case_bool_decide; apply Z.eqb_eq in H3; done.
Qed.

(** ** Characters *)

(** The single-branch range check on unsigned machine integers of any width
    decides membership in the interval. *)
Theorem IsInRange_correct w value lower higher :
  0 <= w -> 0 <= value < 2 ^ w -> 0 <= lower <= higher -> higher < 2 ^ w ->
  IsInRange w value lower higher = true <-> lower <= value <= higher.
Proof.
  intros. rewrite IsInRange_spec by done. unfold within.
  rewrite andb_true_iff, !Z.leb_le. done.
Qed.

Lemma IsInRange_correct_witness : IsInRange 32 (2 ^ 32 - 1) 48 57 = false.
Proof.
  apply not_true_iff_false. intros H.
  apply (IsInRange_correct 32 (2 ^ 32 - 1) 48 57) in H; lia.
Defined.

(** [HexValue] computes the value of a hexadecimal digit of either case for
    any 32-bit character, and -1 for every other character. *)
Theorem HexValue_correct c :
  is_uc32 c ->
  HexValue c =
    (if within "0"%uc "9"%uc c then c - "0"%uc
     else if within "a"%uc "f"%uc c then c - "a"%uc + 10
     else if within "A"%uc "F"%uc c then c - "A"%uc + 10
     else -1).
Proof.
  intros Hc. rewrite HexValue_spec by done. unfold hex_digit_value.
  destruct (within 48 57 c), (within 97 102 c), (within 65 70 c); cbn; try done; lia.
Qed.

Lemma HexValue_correct_witness : HexValue "F"%uc = 15 /\ HexValue kEndOfInput = -1.
Proof.
  split; rewrite HexValue_correct; unfold is_uc32, kEndOfInput; try reflexivity; lia.
Defined.



(** A supplementary code point splits into a lead and a trail surrogate that
    combine to it again, and every surrogate pair is the split of one code
    point. *)
Theorem surrogate_pair_roundtrip :
  (forall c, 0x10000 <= c <= kMaxCodePoint ->
     IsLeadSurrogate (LeadSurrogate c) = true /\ IsTrailSurrogate (TrailSurrogate c) = true /\
     CombineSurrogatePair (LeadSurrogate c) (TrailSurrogate c) = c) /\
  (forall lead trail, 0 <= lead <= kMaxCodePoint -> 0 <= trail <= kMaxCodePoint ->
     IsLeadSurrogate lead = true -> IsTrailSurrogate trail = true ->
     utf16_encode (CombineSurrogatePair lead trail) = [lead; trail]).
Proof.
  unfold kMaxCodePoint. split.
  - intros c Hc. rewrite LeadSurrogate_spec, TrailSurrogate_spec by (unfold kMaxCodePoint; lia).
    assert (0 <= (c - 0x10000) / 2 ^ 10 < 2 ^ 10) by div_lia.
    assert (0 <= c mod 2 ^ 10 < 2 ^ 10) by div_lia.
    rewrite IsLeadSurrogate_spec, IsTrailSurrogate_spec by (unfold kMaxCodePoint; lia).
    rewrite CombineSurrogatePair_spec by lia. unfold within. split; [bool_lia|].
    split; [bool_lia|div_lia].
  - intros lead trail Hl Ht. rewrite IsLeadSurrogate_spec, IsTrailSurrogate_spec by done.
    unfold within. intros H1 H2. bool_to_prop. rewrite CombineSurrogatePair_spec by lia.
    unfold utf16_encode, kMaxNonSurrogateCharCode.
    replace (_ <=? _) with false by bool_lia.
    rewrite LeadSurrogate_spec, TrailSurrogate_spec by (unfold kMaxCodePoint; lia).
    f_equal; [div_lia|]. f_equal. div_lia.
Qed.
