(* ===== verification/StreamProperties.v ===== *)
(** * Properties of literal buffers and character streams

    The theorems about [LiteralBuffer.v], [Stream.v] and [CharacterStreams.v]. *)

From S2P Require Import Prelude.
From S2P Require Import CharPredicates.
From S2P Require Import LiteralBuffer.
From S2P Require Import Stream.
From S2P Require Import CharacterStreams.
From stdpp Require Import base list numbers decidable.
From Stdlib Require Import ZArith Lia Bool.

Local Open Scope Z_scope.

(** ** LiteralBuffer *)

(** Collecting a sequence of code points. *)
Fixpoint AddChars (b : LiteralBuffer) (cs : list Z) : option LiteralBuffer :=
  match cs with
  | [] => Some b
  | c :: cs' => b ← AddChar b c; AddChars b cs'
  end.

Lemma AddChars_spec b cs :
  buffer_ok b -> Forall (fun c => 0 <= c) cs ->
  exists b', AddChars b cs = Some b' /\ buffer_ok b' /\
    code_units b' = code_units b ++ concat (map utf16_encode cs) /\
    is_one_byte_ b' = is_one_byte_ b && forallb (fun c => c <=? kLatin1MaxChar) cs.
Proof.
  revert b. induction cs as [|c cs IH]; intros b Hb Hc; cbn.
  { exists b. rewrite app_nil_r, andb_true_r. done. }
  apply Forall_cons_1 in Hc as [Hc Hcs].
  destruct (AddChar_spec b c Hb Hc) as (b1 & -> & Hb1 & Ho1 & Hu1). cbn.
  destruct (IH b1 Hb1 Hcs) as (b2 & -> & Hb2 & Hu2 & Ho2).
  exists b2. rewrite Hu2, Hu1, Ho2, Ho1, <- app_assoc, andb_assoc. done.
Qed.

(** C28: after [Start], collecting any sequence of code points never stores
    outside the backing store, leaves a well-formed buffer that holds exactly
    their UTF-16 encoding, and stays one-byte exactly if all are Latin-1. *)
Theorem literal_buffer_collects b cs :
  buffer_ok b -> Forall (fun c => 0 <= c <= kMaxCodePoint) cs ->
  exists b', AddChars (Start b) cs = Some b' /\ buffer_ok b' /\
    code_units b' = concat (map utf16_encode cs) /\
    LiteralBuffer.is_one_byte b' = forallb (fun c => c <=? 0xff) cs /\
    literal_length b' = Z.of_nat (length (concat (map utf16_encode cs))).
Proof.
  intros Hb Hc. destruct (Start_spec b Hb) as (Hs & Ho & Hu).
  destruct (AddChars_spec (Start b) cs Hs) as (b' & E & Hb' & Hu' & Ho').
  { revert Hc. apply Forall_impl. lia. }
  exists b'. rewrite Hu in Hu'. rewrite (literal_length_spec b' Hb'), Hu'.
  unfold LiteralBuffer.is_one_byte. rewrite Ho', Ho. done.
Qed.

Lemma literal_buffer_collects_witness :
  exists b', AddChars (Start LiteralBuffer_new) [0x61; 0x1F600; 0xE9] = Some b' /\
    code_units b' = [0x61; 0xD83D; 0xDE00; 0xE9].
Proof.
  destruct (literal_buffer_collects LiteralBuffer_new [0x61; 0x1F600; 0xE9])
    as (b' & E & _ & Hu & _).
  - exact buffer_new_ok.
  - repeat constructor; unfold kMaxCodePoint; lia.
  - exists b'. split; [exact E|]. rewrite Hu. reflexivity.
Defined.

(** Widening a one-byte buffer to two bytes per character keeps its
    characters, in a new backing store and in place alike: when source and target
    overlap, the loop from the end reads every byte before it overwrites it. *)
Theorem ConvertToTwoByte_keeps_characters b :
  buffer_ok b -> LiteralBuffer.is_one_byte b = true ->
  exists b', ConvertToTwoByte b = Some b' /\ buffer_ok b' /\
    LiteralBuffer.is_one_byte b' = false /\ two_byte_literal b' = one_byte_literal b.
Proof.
  intros Hb Ho. destruct (ConvertToTwoByte_spec b Hb Ho) as (b' & E & Hb' & Ho' & Hu).
  exists b'. split; [done|]. split; [done|]. split; [done|].
  rewrite app_nil_r in Hu. unfold code_units, LiteralBuffer.is_one_byte in *.
  by rewrite Ho, Ho' in Hu.
Qed.

Lemma ConvertToTwoByte_keeps_characters_witness :
  exists b b', AddChars (Start LiteralBuffer_new) [0x61; 0x62; 0xE9] = Some b /\
    vlength (backing_store_ b) = 64 /\
    ConvertToTwoByte b = Some b' /\ two_byte_literal b' = [0x61; 0x62; 0xE9].
Proof.
  destruct (AddChars (Start LiteralBuffer_new) [0x61; 0x62; 0xE9]) as [b|] eqn:E;
    [|vm_compute in E; discriminate E].
  destruct (AddChars_spec (Start LiteralBuffer_new) [0x61; 0x62; 0xE9]) as (b1 & E1 & Hb & Hu & Ho).
  - apply Start_spec, buffer_new_ok.
  - repeat constructor; lia.
  - assert (b1 = b) as -> by congruence.
    destruct (ConvertToTwoByte_keeps_characters b Hb) as (b' & E' & _ & _ & Hu'); [exact Ho|].
    exists b, b'. split; [reflexivity|].
    split; [vm_compute in E; injection E as <-; reflexivity|].
    split; [exact E'|]. rewrite Hu'. vm_compute in E. injection E as <-. reflexivity.
Defined.

(** ** Utf16CharacterStream *)

Section Streams.
Context {D : Type} {BR : BlockReader D} {BOK : BlockReaderOK D}.
Implicit Types st : Utf16CharacterStream D.

(** The characters [n] calls of [Advance] return, and the stream after them. *)
Fixpoint read (n : nat) st : list Z * Utf16CharacterStream D :=
  match n with
  | O => ([], st)
  | S n' =>
      let '(c, st) := Advance st in
      let '(l, st) := read n' st in
      (c :: l, st)
  end.

Lemma read_spec n st :
  stream_ok st ->
  exists st', read n st = (take n (rest st ++ replicate n kEndOfInput), st') /\
    stream_ok st' /\ text st' = text st /\ has_parser_error_ st' = has_parser_error_ st /\
    pos st' = pos st + Z.of_nat n /\ rest st' = drop n (rest st).
Proof.
  revert st. induction n as [|n IH]; intros st Hok.
  { exists st. split; [done|]. split; [done|]. split; [done|]. split; [done|]. split; [lia|done]. }
  cbn [read]. destruct (Stream_Advance_spec st Hok) as (st1 & -> & Hok1 & Ht1 & He1 & Hp1 & Hr1 & _).
  destruct (IH st1 Hok1) as (st2 & -> & Hok2 & Ht2 & He2 & Hp2 & Hr2).
  exists st2. rewrite Hr1. split.
  - f_equal. destruct (rest st) as [|c l]; [done|]. cbn [app take hd tl]. f_equal.
    rewrite !take_app. f_equal. rewrite !take_replicate. f_equal. lia.
  - split; [done|]. split; [congruence|]. split; [congruence|]. split; [lia|].
    rewrite Hr2, Hr1. destruct (rest st); cbn; [by rewrite drop_nil|done].
Qed.


(** C29: reading a well-formed stream character by character returns its text
    from the current position on and then the end-of-input marker for ever,
    whatever blocks the underlying source delivers. *)
Theorem reading_returns_text n st :
  stream_ok st -> has_parser_error_ st = false ->
  fst (read n st) = take n (drop (Z.to_nat (pos st)) (text st) ++ replicate n kEndOfInput) /\
  pos (snd (read n st)) = pos st + Z.of_nat n.
Proof.
  intros Hok He. destruct (read_spec n st Hok) as (st' & -> & _ & _ & _ & Hp & _).
  unfold rest. by rewrite He.
Qed.

(** The first character that satisfies [p], with the characters behind it. *)
Fixpoint find_char (p : Z -> bool) (l : list Z) : Z * list Z :=
  match l with
  | [] => (kEndOfInput, [])
  | c :: l' => if p c then (c, l') else find_char p l'
  end.

Lemma scan_until_pure (p : Z -> bool) l :
  exists r, scan_until (fun c (t : unit) => Ok (p c, t)) tt l = Ok (r, tt) /\
    find_char p l = match r with Some x => x | None => (kEndOfInput, []) end.
Proof.
  induction l as [|c l IH]; cbn; [by exists None|].
  destruct (p c); [by exists (Some (c, l))|]. destruct IH as (r & E & H). by exists r.
Qed.

(** C30: [AdvanceUntil] stops at the first character that satisfies the check,
    across any number of block boundaries, or at the end of the input; the
    characters behind it are the ones read next. It is defined only with the
    cursor inside the loaded block. *)
Theorem AdvanceUntil_finds_first (p : Z -> bool) st :
  stream_ok st -> readable st ->
  exists st', AdvanceUntil (fun c (t : unit) => Ok (p c, t)) tt st
              = Ok (fst (find_char p (rest st)), tt, st') /\
    stream_ok st' /\ text st' = text st /\ rest st' = snd (find_char p (rest st)).
Proof.
  intros Hok Hr. destruct (scan_until_pure p (rest st)) as (r & E & Hf).
  destruct (AdvanceUntil_spec _ tt st r tt Hok Hr E) as (c & st' & EA & Hok' & Ht & _ & Hres).
  exists st'. rewrite EA, Hf. destruct r as [[c' l]|].
  - destruct Hres as (-> & Hl & _). done.
  - destruct Hres as (-> & Hl & _). done.
Qed.

(** C31: [Seek] to any position and [Back] over a character just read both put
    the stream where reading returns the text from that position again. *)
Theorem seek_and_back st position :
  stream_ok st -> has_parser_error_ st = false -> 0 <= position ->
  (stream_ok (Seek st position) /\ pos (Seek st position) = position /\
   rest (Seek st position) = drop (Z.to_nat position) (text st)) /\
  (let st' := Back (snd (Advance st)) in
   stream_ok st' /\ pos st' = pos st /\ rest st' = rest st /\ text st' = text st).
Proof.
  intros Hok He Hp. split.
  - destruct (Seek_spec st position Hok He Hp) as (H1 & _ & _ & H2 & _ & H3). done.
  - destruct (Back_Advance st Hok) as (st' & <- & Hok' & (Ht & Hp' & _ & Hr) & _). done.
Qed.
End Streams.

(** The streams of the test interface hold the given text. *)
Lemma ForTesting_two_byte_ok chars :
  Forall is_uc16 chars ->
  stream_ok (ForTesting_two_byte chars) /\ text (ForTesting_two_byte chars) = chars.
Proof.
  intros Hu. assert (E : text (ForTesting_two_byte chars) = chars).
  { unfold text. cbn. unfold range_of. cbn. rewrite Z.sub_0_r, Nat2Z.id. apply take_ge. lia. }
  split; [|done]. split; [split; [cbn; lia|unfold text in E; cbn in *; by rewrite E]|].
  split; [done|]. split; done.
Qed.

Lemma reading_returns_text_witness :
  fst (read 5 (ForTesting_two_byte [0x61; 0x62; 0x63]))
  = [0x61; 0x62; 0x63; kEndOfInput; kEndOfInput].
Proof.
  destruct (ForTesting_two_byte_ok [0x61; 0x62; 0x63]) as [Hok Ht].
  - repeat constructor; lia.
  - destruct (reading_returns_text 5 (ForTesting_two_byte [0x61; 0x62; 0x63]) Hok eq_refl) as [E _].
    rewrite E, Ht. reflexivity.
Defined.

Lemma AdvanceUntil_finds_first_witness :
  exists st', AdvanceUntil (fun c (t : unit) => Ok (c =? 0x63, t)) tt
                (ForTesting_two_byte [0x61; 0x62; 0x63; 0x64]) = Ok (0x63, tt, st') /\
    rest st' = [0x64].
Proof.
  destruct (ForTesting_two_byte_ok [0x61; 0x62; 0x63; 0x64]) as [Hok Ht].
  - repeat constructor; lia.
  - assert (Hrd : readable (ForTesting_two_byte [0x61; 0x62; 0x63; 0x64]))
      by (unfold readable, buffer_end_; cbn; lia).
    destruct (AdvanceUntil_finds_first (fun c => c =? 0x63)
                (ForTesting_two_byte [0x61; 0x62; 0x63; 0x64]) Hok Hrd) as (st' & E & _ & _ & Hr).
    exists st'. split; [exact E|exact Hr].
Defined.

Lemma seek_and_back_witness :
  rest (Seek (ForTesting_two_byte [0x61; 0x62; 0x63]) 2) = [0x63].
Proof.
  destruct (ForTesting_two_byte_ok [0x61; 0x62; 0x63]) as [Hok Ht].
  - repeat constructor; lia.
  - destruct (seek_and_back (ForTesting_two_byte [0x61; 0x62; 0x63]) 2 Hok eq_refl) as [(_ & _ & E) _];
      [lia|exact E].
Defined.

(** ** Byte streams and views *)





