(* ===== verification/ScannerProperties.v ===== *)
(** * Properties of the scanner as a whole

    Reachable states and their invariant, termination of the token stream, the
    look-ahead, the error state and the dialect. *)

From S2P Require Import Prelude.
From S2P Require Import CharPredicates.
From S2P Require Import Tokens.
From S2P Require Import Keywords.
From S2P Require Import ScanTables.
From S2P Require Import LiteralBuffer.
From S2P Require Import Stream.
From S2P Require Import CharacterStreams.
From S2P Require Import ScannerState.
From S2P Require Import Literals.
From S2P Require Import Comments.
From S2P Require Import Scanner.
From S2P Require Import ScanResults.
From S2P Require Import ScannerSpec.
From S2P Require Import LiteralsSafety.
From S2P Require Import CommentsSafety.
From S2P Require Import ScannerSafety.
From S2P Require Import StreamProperties.
From stdpp Require Import base list numbers strings decidable.
From Stdlib Require Import ZArith Lia Bool.

Local Open Scope string_scope.
Local Open Scope Z_scope.
Local Open Scope prog_scope.

Section Reachability.
Context {D : Type} {BR : BlockReader D} {BOK : BlockReaderOK D}.
Context {U : UnicodeData} {UOK : UnicodeDataOK U} {C : BuildConfig}.
Local Abbreviation Scanner := (Scanner D).
Local Abbreviation SM := (M Scanner).
Implicit Types s : Scanner.

(** The calls the parser makes on the scanner, with the conditions under which
    it makes them. *)
Inductive step : Scanner -> Scanner -> Prop :=
| step_Next t s s' : Next s = Ok (t, s') -> step s s'
| step_PeekAhead t s s' : PeekAhead s = Ok (t, s') -> step s s'
| step_ScanTemplateContinuation t s s' :
    token (next s) = Token.RBRACE -> ScanTemplateContinuation s = Ok (t, s') -> step s s'
| step_ScanRegExpPattern b s s' :
    token (next s) = Token.DIV \/ token (next s) = Token.ASSIGN_DIV ->
    ScanRegExpPattern s = Ok (b, s') -> step s s'
| step_ScanRegExpFlags f s s' :
    token (next s) = Token.REGEXP_LITERAL -> ScanRegExpFlags s = Ok (f, s') -> step s s'
| step_SeekForward position s s' :
    0 <= position -> has_parser_error s = false ->
    SeekForward position s = Ok (tt, s') -> step s s'
| step_Apply b b' s s' :
    HasBeenSet b = true -> 0 <= bookmark_ b -> Bookmark_Apply b s = Ok (b', s') -> step s s'
| step_set_parser_error s : step s (scanner_set_parser_error s)
| step_clear_octal_position s : step s (clear_octal_position s)
| step_clear_invalid_template_escape_message s :
    step s (clear_invalid_template_escape_message s).

(** The states of a scanner over [st], from [Initialize] on. *)
Inductive reachable (st : Utf16CharacterStream D) (flags : UnoptimizedCompileFlags) :
    Scanner -> Prop :=
| reach_Initialize s : Initialize (Scanner_new st flags) = Ok (tt, s) -> reachable st flags s
| reach_step s s' : reachable st flags s -> step s s' -> reachable st flags s'.

Lemma step_keeps_ok s s' : scanner_ok s -> step s s' -> keeps_ok s s'.
Proof.
  intros Hok Hstep. destruct Hstep.
  - exact (wp_inv _ _ _ _ _ (Next_spec s Hok) H).
  - exact (wp_inv _ _ _ _ _ (PeekAhead_spec s Hok) H).
  - exact (wp_inv _ _ _ _ _ (ScanTemplateContinuation_spec s Hok) H0).
  - apply walks_keeps_ok. exact (proj1 (wp_inv _ _ _ _ _ (ScanRegExpPattern_spec s Hok) H0)).
  - apply walks_keeps_ok. exact (proj1 (wp_inv _ _ _ _ _ (ScanRegExpFlags_spec s Hok) H0)).
  - exact (wp_inv _ _ _ _ _ (SeekForward_spec position s Hok H0 H) H1).
  - exact (proj1 (wp_inv _ _ _ _ _ (Bookmark_Apply_spec b s Hok H0) H1)).
  - apply walks_keeps_ok. by apply walks_set_parser_error.
  - destruct Hok as [[] Hi]. split; [by split|done].
  - by apply ok_update_slot.
Qed.

Lemma reachable_ok st flags s :
  stream_ok st -> 0 <= pos st -> has_parser_error_ st = false ->
  reachable st flags s ->
  scanner_ok s /\ text (source_ s) = text st /\ flags_ s = flags.
Proof.
  intros Hst Hp He. induction 1 as [s H|s s' _ [IH1 [IH2 IH3]] Hstep].
  - exact (wp_inv _ _ _ _ _ (Initialize_spec st flags Hst Hp He) H).
  - destruct (step_keeps_ok _ _ IH1 Hstep) as (H1 & H2 & H3). split; [done|]. split; congruence.
Qed.

(** C7: every state a scanner can reach by any sequence of calls is well formed:
    the stream's loaded block is part of the source text, every literal buffer
    is within its backing store, the look-ahead is the end-of-input marker only
    with nothing left to read, and the text and the flags are the ones the
    scanner was created with. *)
Theorem reachable_states_well_formed st flags s :
  stream_ok st -> 0 <= pos st -> has_parser_error_ st = false ->
  reachable st flags s ->
  scanner_ok s /\ text (source_ s) = text st /\ flags_ s = flags.
Proof. apply reachable_ok. Qed.

(** C1: no call can fail: in every reachable state each operation returns: its
    loops stop within their bounds, no buffer or table is accessed out of bounds
    and no unreachable case is taken. *)
Theorem operations_always_return st flags s :
  stream_ok st -> 0 <= pos st -> has_parser_error_ st = false ->
  (exists s0, Initialize (Scanner_new st flags) = Ok (tt, s0)) /\
  (reachable st flags s ->
   (exists t s', Next s = Ok (t, s')) /\
   (exists t s', PeekAhead s = Ok (t, s')) /\
   (exists t s', ScanTemplateContinuation s = Ok (t, s')) /\
   (exists b s', ScanRegExpPattern s = Ok (b, s')) /\
   (exists f s', ScanRegExpFlags s = Ok (f, s')) /\
   (forall position, 0 <= position -> has_parser_error s = false ->
      exists s', SeekForward position s = Ok (tt, s')) /\
   (forall b, 0 <= bookmark_ b -> exists b' s', Bookmark_Apply b s = Ok (b', s'))).
Proof.
  intros Hst Hp He. split.
  { destruct (wp_ok _ _ _ (Initialize_spec st flags Hst Hp He)) as ([] & s0 & E & _). eauto. }
  intros Hr. destruct (reachable_ok st flags s Hst Hp He Hr) as (Hok & _).
  assert (Hret : forall A (m : SM A) Q, wp m Q s -> exists a s', m s = Ok (a, s')).
  { intros A m Q H. destruct (wp_ok _ _ _ H) as (a & s' & E & _). eauto. }
  repeat split; try intros.
  - by eapply Hret, Next_spec.
  - by eapply Hret, PeekAhead_spec.
  - by eapply Hret, ScanTemplateContinuation_spec.
  - by eapply Hret, ScanRegExpPattern_spec.
  - by eapply Hret, ScanRegExpFlags_spec.
  - destruct (Hret _ _ _ (SeekForward_spec position s Hok H0 H)) as ([] & s' & E). eauto.
  - by eapply Hret, Bookmark_Apply_spec.
Qed.
End Reachability.

Section TokenStream.
Context {D : Type} {BR : BlockReader D} {BOK : BlockReaderOK D}.
Context {U : UnicodeData} {UOK : UnicodeDataOK U} {C : BuildConfig}.
Local Abbreviation Scanner := (Scanner D).
Local Abbreviation SM := (M Scanner).
Implicit Types s : Scanner.

(** The three descriptors are distinct, and nothing is looked ahead. *)
Definition pointers_distinct s : Prop :=
  current_ s <> next_ s /\ next_ s <> next_next_ s /\ current_ s <> next_next_ s.

Definition no_lookahead s : Prop := token (next_next s) = Token.UNINITIALIZED.

Definition is_final (t : Token.Value) : bool :=
  bool_decide (t = Token.EOS) || bool_decide (t = Token.ILLEGAL).

Lemma mark_illegal_cases d :
  token (mark_illegal d) = token d \/ token (mark_illegal d) = Token.ILLEGAL.
Proof. unfold mark_illegal. case_bool_decide; [by left|by right]. Qed.

Lemma same_or_illegal_token d d' :
  same_or_illegal d d' -> token d' = token d \/ token d' = Token.ILLEGAL.
Proof. intros [->| ->]; [by left|apply mark_illegal_cases]. Qed.

Lemma same_or_illegal_uninitialized d d' :
  same_or_illegal d d' -> token d = Token.UNINITIALIZED -> d' = d.
Proof. intros [->| ->] E; [done|]. unfold mark_illegal. by rewrite bool_decide_eq_true_2. Qed.

(** [Next] without a token looked ahead scans one token. *)
Lemma Next_scans s :
  scanner_ok s -> pointers_distinct s -> no_lookahead s ->
  wp Next
    (fun t s' => keeps_ok s s' /\ pointers_distinct s' /\ no_lookahead s' /\
       (input_left s' <= input_left s)%nat /\
       (t = token (next s) \/ t = Token.ILLEGAL) /\
       same_or_illegal (next s) (current s') /\ t = token (current s') /\
       is_scanned (token (next s')) = true /\
       (is_final (token (next s')) = false -> (input_left s' < input_left s)%nat) /\
       (dialect_fixed s -> source_dialect_ s' = source_dialect_ s) /\ dialect_fixed s') s.
Proof.
  intros Hok (Hcn & Hnn & Hcnn) Hno. unfold Next.
  apply wp_bind, wp_gets, wp_bind, wp_modify, wp_bind, wp_gets. cbn [next_next_ token_storage_].
  change (token (next_next (set_current (next_ s) s))) with (token (next_next s)).
  rewrite Hno, bool_decide_eq_true_2 by done. apply wp_bind, wp_bind, wp_modify, wp_bind, wp_modify.
  set (s1 := update_slot _ _ _).
  assert (H1 : keeps_ok s s1).
  { apply (keeps_ok_trans s (set_next (current_ s) (set_current (next_ s) s))).
    - by apply (keeps_ok_trans _ (set_current (next_ s) s)); [apply ok_set_current|apply ok_set_next, ok_set_current].
    - apply ok_update_slot; [by apply ok_set_next, ok_set_current|done]. }
  assert (Hslot : forall p, p <> current_ s ->
            storage_get p (token_storage_ s1) = storage_get p (token_storage_ s))
    by (intros p Hp; unfold s1; cbn; by rewrite storage_get_set_ne).
  eapply wp_mono; [apply Scan_spec, H1|]. intros [] s2 (Hok2 & Hf & _ & Hprog & Hsc & Hsaw).
  apply wp_gets. destruct Hf as [Ht _ Hl Hfl Hptr _ _ Hdial Hslots].
  assert (Hc2 : current_ s2 = next_ s) by (cbn in Hptr; congruence).
  assert (Hn2 : next_ s2 = current_ s) by (cbn in Hptr; congruence).
  assert (Hnn2 : next_next_ s2 = next_next_ s) by (cbn in Hptr; congruence).
  assert (Hcur : same_or_illegal (next s) (current s2)).
  { unfold current. rewrite Hc2. pose proof (Hslots (next_ s)) as H. rewrite Hslot in H by congruence.
    apply H. cbn. congruence. }
  split; [split; [done|]; destruct H1 as (_ & ? & ?); split; congruence|].
  split; [unfold pointers_distinct; rewrite Hc2, Hn2, Hnn2; repeat split; congruence|].
  split.
  { unfold no_lookahead, next_next in *. rewrite Hnn2. pose proof (Hslots (next_next_ s)) as H.
    rewrite Hslot in H by congruence. cbn in H.
    apply same_or_illegal_uninitialized in H; [congruence|congruence|done]. }
  split; [done|]. split; [by apply same_or_illegal_token|]. split; [done|]. split; [done|].
  split; [done|]. split.
  - intros Hfin. unfold is_final in Hfin. apply orb_false_iff in Hfin as [E1 E2].
    apply bool_decide_eq_false in E1, E2. exact (Hprog E1 E2).
  - split; [|by left]. intros Hd. apply Hdial. destruct Hd; [by left|by right].
Qed.

(** Calling [Next] until the end of the source or an error. *)
Definition all_tokens (fuel : nat) : SM (list Token.Value) :=
  loop fuel
    (fun tokens =>
       let* t := Next in
       ret ((if is_final t then inr (tokens ++ [t]) else inl (tokens ++ [t]))%list))
    [].

Lemma all_tokens_spec s fuel :
  scanner_ok s -> pointers_distinct s -> no_lookahead s -> (input_left s + 1 < fuel)%nat ->
  wp (all_tokens fuel)
    (fun l s' => (exists tokens last, l = (tokens ++ [last])%list /\ is_final last = true /\
                    Forall (fun t => is_final t = false) tokens /\
                    (length l <= input_left s + 2)%nat) /\ scanner_ok s') s.
Proof.
  intros Hok Hp Hno Hfuel.
  apply (wp_loop
           (fun l s1 => scanner_ok s1 /\ pointers_distinct s1 /\ no_lookahead s1 /\
              Forall (fun t => is_final t = false) l /\
              (length l + input_left s1 + (if is_final (token (next s1)) then 0 else 1) <=
               input_left s + 1)%nat)
           (fun _ s1 => input_left s1 + (if is_final (token (next s1)) then 0 else 1))%nat).
  2: { split_and!; [done..|]. cbn. case_match; lia. }
  2: { case_match; lia. }
  intros l s1 (Hok1 & Hp1 & Hno1 & Hl1 & Hlen). apply wp_bind. eapply wp_mono; [by apply Next_scans|].
  intros t s2 (Hk & Hp2 & Hno2 & Hl & Ht & _ & _ & _ & Hprog & _). apply wp_ret.
  assert (Hlen2 : length (l ++ [t]) = S (length l)) by (rewrite length_app; cbn; lia).
  destruct (is_final t) eqn:Ef.
  { split; [|apply Hk]. exists l, t. split_and!; [done..|]. rewrite Hlen2. lia. }
  destruct Ht as [->| ->]; [|done]. rewrite Ef in *.
  assert (Hl2 : Forall (fun t => is_final t = false) (l ++ [token (next s1)]))
    by (apply Forall_app; split; [done|by repeat constructor]).
  destruct (is_final (token (next s2))); [|specialize (Hprog eq_refl)];
    (split; [split_and!; [apply Hk|done..|rewrite Hlen2; lia]|lia]).
Qed.

(** Setting a scanner up and reading the source to its end. *)
Definition tokenize (fuel : nat) : SM (list Token.Value) := Initialize ;;; all_tokens fuel.

Lemma Initialize_starts st flags :
  stream_ok st -> 0 <= pos st -> has_parser_error_ st = false ->
  wp Initialize
    (fun _ s => keeps_ok (Scanner_new st flags) s /\ pointers_distinct s /\ no_lookahead s /\
       (input_left s <= length (rest st))%nat /\ is_scanned (token (next s)) = true /\
       dialect_fixed s)
    (Scanner_new st flags).
Proof.
  intros Hok Hp He. unfold Initialize. apply wp_bind.
  eapply wp_mono; [by apply Init_spec|]. intros [] s1 H1.
  pose proof (starting_left _ _ _ Hok H1) as Hl1. destruct H1 as [H1 Hptr Hst _ _ _ _ _ _ _ _].
  apply wp_bind, wp_modify. set (s2 := update_next _ s1).
  assert (H2 : keeps_ok (Scanner_new st flags) s2)
    by (eapply keeps_ok_trans; [exact H1|]; apply ok_update_slot; [apply H1|by intros ? []]).
  eapply wp_mono; [apply Scan_spec, H2|].
  intros [] s3 (Hok3 & [Ht _ Hl Hf Hptr3 _ _ _ Hslots] & _ & _ & Hsc & Hsaw).
  assert (Hptr' : (current_ s3, next_ s3, next_next_ s3) = (Slot0, Slot1, Slot2))
    by (rewrite Hptr3; exact Hptr).
  injection Hptr' as Hc Hn Hnn. injection Hptr as Hc1 Hn1 Hnn1. split_and!; try done.
  - split; [done|]. destruct H2 as (_ & ? & ?). split; congruence.
  - unfold pointers_distinct. by rewrite Hc, Hn, Hnn.
  - unfold no_lookahead, next_next. rewrite Hnn. pose proof (Hslots Slot2) as H.
    assert (Hs2 : storage_get Slot2 (token_storage_ s2) = TokenDesc_new)
      by (unfold s2, update_next, update_slot; cbn [token_storage_ set_token_storage];
          rewrite storage_get_set_ne by congruence; by rewrite Hst).
    rewrite Hs2 in H. apply same_or_illegal_uninitialized in H; [by rewrite H| |done].
    change (next_ s2) with (next_ s1). congruence.
  - change (input_left s2) with (input_left s1) in Hl. lia.
  - by left.
Qed.

(** C6: tokenizing always ends: from any well-formed source, setting the scanner
    up and calling [Next] repeatedly reaches [EOS] or [ILLEGAL], for the first
    time, within two calls more than the source has characters. *)
Theorem token_stream_ends st flags fuel :
  stream_ok st -> 0 <= pos st -> has_parser_error_ st = false ->
  (length (rest st) + 1 < fuel)%nat ->
  exists tokens last s', tokenize fuel (Scanner_new st flags) = Ok ((tokens ++ [last])%list, s') /\
    is_final last = true /\ Forall (fun t => is_final t = false) tokens /\
    (length tokens <= length (rest st) + 1)%nat /\ scanner_ok s'.
Proof.
  intros Hst Hp He Hfuel.
  assert (H : wp (tokenize fuel)
                (fun l s' => (exists tokens last, l = (tokens ++ [last])%list /\
                   is_final last = true /\ Forall (fun t => is_final t = false) tokens /\
                   (length l <= length (rest st) + 2)%nat) /\ scanner_ok s')
                (Scanner_new st flags)).
  { apply wp_bind. eapply wp_mono; [by apply Initialize_starts|].
    intros [] s (Hk & Hd & Hno & Hl & _). eapply wp_mono.
    { apply all_tokens_spec; [apply Hk|done|done|lia]. }
    intros l s' ((tokens & last & -> & H1 & H2 & H3) & Hok'). split; [|done].
    exists tokens, last. split_and!; [done..|]. lia. }
  destruct (wp_ok _ _ _ H) as (l & s' & E & (tokens & last & -> & H1 & H2 & H3) & Hok').
  rewrite length_app in H3. cbn in H3. exists tokens, last, s'. split_and!; [done..|lia|done].
Qed.


(** C33: scanning ahead leaves the current token alone: the descriptor of the
    token [Next] returns is the one that was peeked, with the location, the
    literals and the value it was scanned with; only an error stop may turn the
    token into [ILLEGAL]. *)
Theorem Next_returns_peeked_token s t s' :
  scanner_ok s -> pointers_distinct s -> no_lookahead s ->
  Next s = Ok (t, s') ->
  (current s' = next s /\ t = token (next s)) \/
  (current s' = mark_illegal (next s) /\ t = token (mark_illegal (next s))).
Proof.
  intros Hok Hp Hno E. pose proof (wp_inv _ _ _ _ _ (Next_scans s Hok Hp Hno) E) as H.
  destruct H as (_ & _ & _ & _ & _ & [Hs|Hs] & Ht & _); [left|right]; rewrite Ht, Hs; done.
Qed.

(** [PeekAhead] without a token looked ahead scans into the third descriptor. *)
Lemma PeekAhead_scans s :
  scanner_ok s -> pointers_distinct s -> no_lookahead s ->
  wp PeekAhead
    (fun t s' => keeps_ok s s' /\
       (current_ s', next_ s', next_next_ s') = (current_ s, next_ s, next_next_ s) /\
       same_or_illegal (current s) (current s') /\ same_or_illegal (next s) (next s') /\
       t = token (next_next s') /\ is_scanned t = true) s.
Proof.
  intros Hok (Hcn & Hnn & Hcnn) Hno. unfold PeekAhead. apply wp_bind, wp_gets.
  unfold no_lookahead in Hno. rewrite Hno, bool_decide_eq_true_2 by done. cbn [negb].
  apply wp_bind, wp_gets, wp_bind, wp_modify, wp_bind, wp_modify.
  set (s1 := update_next _ _).
  assert (H1 : keeps_ok s s1).
  { apply (keeps_ok_trans s (set_next (next_next_ s) s)); [by apply ok_set_next|].
    apply ok_update_slot; [by apply ok_set_next|by intros ? []]. }
  assert (Hslot : forall p, p <> next_next_ s ->
            storage_get p (token_storage_ s1) = storage_get p (token_storage_ s))
    by (intros p Hp; unfold s1; cbn; by rewrite storage_get_set_ne).
  apply wp_bind. eapply wp_mono; [apply Scan_spec, H1|].
  intros [] s2 (Hok2 & [Ht _ _ Hf Hptr _ _ _ Hslots] & _ & _ & Hsc & _).
  apply wp_bind, wp_modify, wp_bind, wp_modify, wp_gets.
  change (next_next (set_next (next_ s) (set_next_next (next_ s2) s2))) with (next s2).
  cbn in Hptr. injection Hptr as Hc2 Hn2 Hnn2.
  split.
  { apply (keeps_ok_trans s s2); [split; [done|]; destruct H1 as (_ & ? & ?); split; congruence|].
    eapply keeps_ok_trans; [by apply ok_set_next_next|]. by apply ok_set_next, ok_set_next_next. }
  split; [cbn; by rewrite Hc2, Hn2|].
  assert (Hold : forall p, p <> next_next_ s ->
            same_or_illegal (storage_get p (token_storage_ s)) (storage_get p (token_storage_ s2))).
  { intros p Hp. rewrite <- (Hslot p Hp). by apply Hslots. }
  split; [unfold current; cbn; rewrite Hc2; by apply Hold|].
  split; [unfold next at 2; cbn; by apply Hold|]. done.
Qed.

(** C8: looking ahead is a peek: [PeekAhead] leaves the current and the next
    token where they are, a second [PeekAhead] returns the same token from the
    same state, and the following [Next] returns the next token, makes the token
    looked ahead the next one and reads nothing more from the source. *)
Theorem PeekAhead_then_Next s t s1 :
  scanner_ok s -> pointers_distinct s -> no_lookahead s -> PeekAhead s = Ok (t, s1) ->
  same_or_illegal (current s) (current s1) /\ same_or_illegal (next s) (next s1) /\
  PeekAhead s1 = Ok (t, s1) /\
  exists s2, Next s1 = Ok (token (next s1), s2) /\ current s2 = next s1 /\
    next s2 = next_next s1 /\ token (next s2) = t /\ input s2 = input s1 /\
    no_lookahead s2 /\ pointers_distinct s2.
Proof.
  intros Hok Hp Hno E.
  destruct (wp_inv _ _ _ _ _ (PeekAhead_scans s Hok Hp Hno) E) as (Hk & Hptr & H1 & H2 & Ht & Hsc).
  injection Hptr as Hc Hn Hnn. destruct Hp as (Hcn & Hnn' & Hcnn).
  split; [done|]. split; [done|].
  assert (Hinit : bool_decide (token (next_next s1) = Token.UNINITIALIZED) = false)
    by (apply bool_decide_eq_false; intros E'; rewrite Ht, E' in Hsc; done).
  split.
  { unfold PeekAhead, bind, gets. rewrite Hinit. cbn. by rewrite Ht. }
  eexists. split.
  { unfold Next, bind, gets, modify. cbn [next_ next_next_].
    change (token (next_next (set_current (next_ s1) s1))) with (token (next_next s1)).
    rewrite Hinit. unfold current at 1. cbn. rewrite storage_get_set_ne by congruence. done. }
  unfold no_lookahead, current, next, next_next, pointers_distinct, input. cbn.
  rewrite storage_get_set_eq, !storage_get_set_ne by congruence.
  split_and!; try done; congruence.
Qed.

(** *** Stopping *)

(** The parser has stopped the scanner: nothing is left to read and every
    descriptor that holds a token holds [ILLEGAL]. *)
Record stopped_scanner s : Prop := {
  stop_ok : scanner_ok s;
  stop_error : has_parser_error s = true;
  stop_next : token (next s) = Token.ILLEGAL;
  stop_slots p : let t := token (storage_get p (token_storage_ s)) in
    t = Token.ILLEGAL \/ t = Token.UNINITIALIZED
}.

Lemma ok_error_c0 s : scanner_ok s -> has_parser_error s = true -> c0_ s = kEndOfInput.
Proof.
  intros [_ Hi] He. destruct (decide (c0_ s = kEndOfInput)) as [|Hne]; [done|].
  apply (input_ok_no_error s) in Hi; [congruence|done].
Qed.

(** What [Scan] does at the end of the input. *)
Record end_scanned s s' : Prop := {
  es_input : input s' = input s;
  es_token : token (next s') = if has_parser_error s then Token.ILLEGAL else Token.EOS;
  es_location : location (next s') = mkLocation (source_pos s) (source_pos s);
  es_errors : errors s' = errors s;
  es_dialect : source_dialect_ s' = source_dialect_ s;
  es_pointers : (current_ s', next_ s', next_next_ s') = (current_ s, next_ s, next_next_ s);
  es_slots p : p <> next_ s ->
    storage_get p (token_storage_ s') = storage_get p (token_storage_ s)
}.

Lemma wp_scan_once {A B} (body : A -> SM (A + B)) a (Q : B -> Scanner -> Prop) s :
  wp (body a) (fun r s' => match r with inl _ => False | inr b => Q b s' end) s ->
  wp (scan_loop body a) Q s.
Proof.
  intros H. unfold scan_loop, wp. cbn [loop]. apply wp_bind. eapply wp_mono; [exact H|].
  by intros [] s'; [|apply wp_ret].
Qed.

Lemma ScanNonAsciiToken_end s :
  c0_ s = kEndOfInput ->
  ScanNonAsciiToken s =
  Ok (inr (if has_parser_error s then Token.ILLEGAL else Token.EOS), s).
Proof.
  intros E. unfold ScanNonAsciiToken, is_part_after_combining, CombineSurrogatePairM, bind, gets, ret.
  rewrite !E, IsIdentifierStart_eof.
  assert (Hl : IsLeadSurrogate (int32 (c0_ s)) = false) by (by rewrite E).
  rewrite Hl. cbn [andb]. rewrite E. done.
Qed.

Lemma Scan_at_end s : c0_ s = kEndOfInput -> wp Scan (fun _ s' => end_scanned s s') s.
Proof.
  intros E. unfold Scan. apply wp_bind, wp_modify, wp_bind.
  set (s2 := update_next _ s). apply wp_scan_once.
 apply wp_bind, wp_modify, wp_bind, wp_gets.
  set (s3 := update_next _ s2). assert (E3 : c0_ s3 = kEndOfInput) by exact E. rewrite E3.
  change (kEndOfInput <=? kMaxAscii) with false. cbv iota. apply wp_bind.
  eapply wp_of_ok; [by apply ScanNonAsciiToken_end|]. apply wp_ret.
  change (has_parser_error s3) with (has_parser_error s).
  apply wp_bind, wp_modify, wp_bind.
  rewrite !bool_decide_eq_false_2 by (by destruct (has_parser_error s)).
  apply wp_modify, wp_modify. set (s4 := update_next _ _).
  split; try done.
  - unfold s4. rewrite next_update_next. unfold set_end_pos. cbn [token desc_set_location].
    unfold next. cbn [token_storage_ next_ set_saw_non_comment_token]. fold (next (update_next
      (desc_set_token (if has_parser_error s then Token.ILLEGAL else Token.EOS)) s3)).
    by rewrite next_update_next.
  - unfold s4. rewrite next_update_next. unfold next at 1.
    cbn [token_storage_ next_ set_saw_non_comment_token]. fold (next (update_next
      (desc_set_token (if has_parser_error s then Token.ILLEGAL else Token.EOS)) s3)).
    rewrite next_update_next. unfold s3 at 1. by rewrite next_update_next.
  - intros p Hp. unfold s4, s3, s2, update_next, update_slot. cbn.
    by rewrite !storage_get_set_ne by done.
Qed.

Lemma stopped_Scan s :
  scanner_ok s -> has_parser_error s = true ->
  wp Scan (fun _ s' => scanner_ok s' /\ end_scanned s s') s.
Proof.
  intros Hok He. apply wp_conj; [|by apply Scan_at_end, ok_error_c0].
  eapply wp_mono; [by apply Scan_spec|]. by intros [] s' [].
Qed.

Lemma stopped_Next s :
  stopped_scanner s -> pointers_distinct s ->
  wp Next (fun t s' => t = Token.ILLEGAL /\ stopped_scanner s' /\ input s' = input s /\
             errors s' = errors s /\ source_dialect_ s' = source_dialect_ s) s.
Proof.
  intros [Hok He Hn Hs] (Hcn & Hnn & Hcnn).
  unfold Next. apply wp_bind, wp_gets, wp_bind, wp_modify, wp_bind, wp_gets.
  case_bool_decide as Hun; apply wp_bind.
  - apply wp_bind, wp_modify, wp_bind, wp_modify. set (s1 := update_slot _ _ _).
    assert (Hok1 : scanner_ok s1)
      by (apply ok_update_slot; [by apply ok_set_next, ok_set_current|by intros ? []]).
    eapply wp_mono; [by apply stopped_Scan|]. intros [] s2 (Hok2 & []). apply wp_gets.
    injection es_pointers0 as Hc2 Hn2 Hnn2. cbn in Hc2, Hn2, Hnn2.
    change (has_parser_error s1) with (has_parser_error s) in es_token0. rewrite He in es_token0.
    assert (Hcur : token (current s2) = Token.ILLEGAL).
    { unfold current. rewrite Hc2, es_slots0 by (cbn; congruence). unfold s1. cbn.
      by rewrite storage_get_set_ne by congruence. }
    split_and!; [done| |done..]. split; [done| |done|].
    + unfold has_parser_error, input in *. cbn in es_input0. congruence.
    + intros p. destruct (decide (p = current_ s)) as [->|Hp].
      * left. rewrite <- Hn2. exact es_token0.
      * rewrite es_slots0 by done. unfold s1. cbn. rewrite storage_get_set_ne by done. apply Hs.
  - apply wp_bind, wp_modify, wp_bind, wp_modify, wp_modify, wp_gets.
    set (s1 := update_slot _ _ _).
    assert (Hok1 : scanner_ok s1)
      by (apply ok_update_slot; [by apply ok_set_next_next, ok_set_next, ok_set_current|by intros ? []]).
    assert (Hslot : forall p, p <> current_ s ->
              storage_get p (token_storage_ s1) = storage_get p (token_storage_ s))
      by (intros p Hp; unfold s1; cbn; by rewrite storage_get_set_ne).
    split_and!; [| |done..].
    + unfold current. change (current_ s1) with (next_ s). by rewrite Hslot by congruence.
    + split; [done|done| |].
      * unfold next. change (next_ s1) with (next_next_ s). rewrite Hslot by congruence.
        by destruct (Hs (next_next_ s)) as [|H'].
      * intros p. destruct (decide (p = current_ s)) as [->|Hp].
        -- right. unfold s1. cbn. by rewrite storage_get_set_eq.
        -- rewrite Hslot by done. apply Hs.
Qed.

(** C9: stopping is final: [set_parser_error] turns every scanned token into
    [ILLEGAL], and from then on each [Next] returns [ILLEGAL], reads nothing and
    leaves the scanner stopped, its errors and its dialect alone. *)
Theorem stopped_scanner_only_illegal s :
  (scanner_ok s -> has_parser_error s = false -> token (next s) <> Token.UNINITIALIZED ->
   stopped_scanner (scanner_set_parser_error s)) /\
  (stopped_scanner s -> pointers_distinct s ->
   exists s', Next s = Ok (Token.ILLEGAL, s') /\ stopped_scanner s' /\ input s' = input s /\
     errors s' = errors s /\ source_dialect_ s' = source_dialect_ s).
Proof.
  split.
  { intros Hok He Hi. pose proof (walks_set_parser_error s Hok) as [[Hok' _] _].
    unfold scanner_set_parser_error in *. rewrite He in *. split; [done|done| |].
    - unfold next in *. cbn. rewrite storage_get_map. unfold mark_illegal. by case_bool_decide.
    - intros p. cbn. rewrite storage_get_map. unfold mark_illegal.
      case_bool_decide; [by right|by left]. }
  intros Hs Hp. destruct (wp_ok _ _ _ (stopped_Next s Hs Hp)) as (t & s' & E & -> & H').
  by exists s'.
Qed.

(** *** Going back to a bookmark *)

(** [s1] is about to scan the text from [position], with no token in store. *)
Record rewound_to (position : Z) s s1 : Prop := {
  rw_chars : chars_left s1 = drop (Z.to_nat position) (text (source_ s));
  rw_pos : source_pos s1 = position;
  rw_error : has_parser_error s1 = false;
  rw_slots p : let d := storage_get p (token_storage_ s1) in
    token d = Token.UNINITIALIZED /\ invalid_template_escape_message d = kNone;
  rw_dialect : source_dialect_ s1 = source_dialect_ s
}.

Lemma hd_drop_chars (l : list Z) n :
  Forall is_uc16 l ->
  (if hd kEndOfInput (drop n l) =? kEndOfInput then []
   else hd kEndOfInput (drop n l) :: drop (S n) l) = drop n l.
Proof.
  intros H. apply (Forall_drop _ n) in H. destruct (drop n l) as [|c r] eqn:E; [done|]. cbn [hd].
  apply Forall_cons_1 in H as [H _]. apply uc16_not_eof in H.
  destruct (Z.eqb_spec c kEndOfInput); [done|]. f_equal.
  by apply drop_cons_lookup in E as [_ E].
Qed.

Lemma AdvanceSource_keeps_dialect : keeps (St:=Scanner) source_dialect_ AdvanceSource.
Proof. apply keeps_modify. intros s. by destruct (Stream.Advance (source_ s)). Qed.

Lemma SeekNext_rewinds position s :
  members_ok s -> stream_ok (source_ s) -> has_parser_error s = false -> 0 <= position ->
  wp (SeekNext position)
    (fun _ s' => exists s1, rewound_to position s s1 /\ Scan s1 = Ok (tt, s') /\ scanner_ok s') s.
Proof.
  intros Hm Hok He Hp. unfold SeekNext. apply wp_bind, wp_modify.
  set (s1 := set_token_storage _ s).
  assert (Hm1 : members_ok s1).
  { destruct Hm as [Hd H1 H2 H3]. split; [|done|done|done]. intros p. cbn.
    rewrite storage_get_map. specialize (Hd p). by destruct (storage_get p (token_storage_ s)). }
  pose proof (Seek_Advance_spec position s1 Hm1 Hok He Hp) as H.
  apply (wp_keeps source_dialect_) in H;
    [|apply keeps_bind; [by apply keeps_modify|intros; apply AdvanceSource_keeps_dialect]].
  apply (wp_keeps token_storage_) in H;
    [|apply keeps_bind; [by apply keeps_modify|intros; apply AdvanceSource_keeps_storage]].
  apply wp_bind. eapply wp_mono; [exact (wp_bind_inv _ _ _ _ H)|].
  intros [] s2 H2. apply wp_bind. eapply wp_mono; [exact H2|].
  intros [] s3 [[(Hk & Hc & Ha & Hpos & Herr) Hd3] Hst]. apply wp_bind, wp_modify.
  set (s4 := update_next _ s3).
  assert (Hok4 : scanner_ok s4) by (apply ok_update_slot; [apply Hk|by intros ? []]).
  destruct (wp_ok _ _ _ (Scan_spec s4 Hok4)) as ([] & s5 & E & Hok5 & _).
  eapply wp_of_ok; [exact E|]. exists s4. split; [|done]. split; [| |done| |done].
  - unfold chars_left. change (c0_ s4) with (c0_ s3). change (ahead s4) with (ahead s3).
    rewrite Hc, Ha. apply hd_drop_chars. apply contents_uc16, Hok.
  - unfold source_pos. change (source_ s4) with (source_ s3). lia.
  - intros p. assert (H3 : forall q, token (storage_get q (token_storage_ s3)) = Token.UNINITIALIZED /\
      invalid_template_escape_message (storage_get q (token_storage_ s3)) = kNone).
    { intros q. rewrite Hst. unfold s1. cbn. by rewrite storage_get_map. }
    destruct (decide (p = next_ s3)) as [->|Hp3].
    + unfold s4, update_next, update_slot. cbn. rewrite storage_get_set_eq. apply H3.
    + unfold s4, update_next, update_slot. cbn. rewrite storage_get_set_ne by done. apply H3.
Qed.

(** C34: applying a bookmark goes back: when no error had occurred before it was
    set, [Apply] drops every token in store and scans afresh from exactly the
    bookmarked position of the text, even after the parser stopped the scanner,
    and marks the bookmark as applied. *)
Theorem Apply_rescans_from_bookmark b s :
  scanner_ok s -> 0 <= bookmark_ b -> had_parser_error_ b = false ->
  exists s1 s' b', rewound_to (bookmark_ b) s s1 /\ Scan s1 = Ok (tt, s') /\
    Bookmark_Apply b s = Ok (b', s') /\ scanner_ok s' /\ HasBeenApplied b' = true.
Proof.
  intros [Hm Hi] Hb He.
  assert (H : wp (Bookmark_Apply b) (fun b' s' => exists s1, rewound_to (bookmark_ b) s s1 /\
                Scan s1 = Ok (tt, s') /\ scanner_ok s' /\ HasBeenApplied b' = true) s).
  { unfold Bookmark_Apply. rewrite He. apply wp_bind, wp_bind, wp_modify.
    eapply wp_mono; [apply SeekNext_rewinds; [destruct Hm; by split|apply Hi|done|done]|].
    intros [] s' (s1 & [] & HScan & Hok'). apply wp_ret. exists s1. split; [by split|done]. }
  destruct (wp_ok _ _ _ H) as (b' & s' & E & s1 & H1 & H2 & H3 & H4). by exists s1, s', b'.
Qed.

(** *** Templates *)

Lemma ScanTemplateSpan_loop_result :
  yields (St:=Scanner) (fun t => t = Token.TEMPLATE_SPAN \/ t = Token.TEMPLATE_TAIL)
    ScanTemplateSpan_loop.
Proof.
  unfold ScanTemplateSpan_loop. apply yields_scan_loop. intros _. repeat yields_step; auto.
Qed.

Lemma ErrorState_clear_ok e s :
  is_error_stack e -> scanner_ok s -> scanner_ok (ErrorState_clear e s).
Proof. intros He Hok. by destruct (walks_set_error e kNone Location_invalid s He Hok) as [[H _] _]. Qed.

(** C35: scanning a template span ends with [TEMPLATE_SPAN] or [TEMPLATE_TAIL] as
    the next token, ending where the scanner stands, and never lets an error of
    an escape inside the template escape into the scanner's own error and octal
    fields: they are as before the span. *)
Theorem ScanTemplateSpan_keeps_errors s :
  scanner_ok s ->
  exists t s', ScanTemplateSpan s = Ok (t, s') /\
    (t = Token.TEMPLATE_SPAN \/ t = Token.TEMPLATE_TAIL) /\ token (next s') = t /\
    end_pos (location (next s')) = source_pos s' /\ errors s' = errors s /\ scanner_ok s'.
Proof.
  intros Hok.
  assert (H : wp ScanTemplateSpan (fun t s' =>
    (t = Token.TEMPLATE_SPAN \/ t = Token.TEMPLATE_TAIL) /\ token (next s') = t /\
    end_pos (location (next s')) = source_pos s' /\ errors s' = errors s) s).
  { unfold ScanTemplateSpan, ErrorState_new.
    do 2 apply wp_bind. apply wp_gets, wp_bind, wp_modify, wp_ret.
    do 2 apply wp_bind. apply wp_gets, wp_bind, wp_modify, wp_ret.     assert (Hok2 : scanner_ok (ErrorState_clear octal_errors (ErrorState_clear scanner_errors s)))
      by (apply ErrorState_clear_ok; [by right|]; by apply ErrorState_clear_ok; [left|]).
    apply wp_bind. eapply wp_mono; [by apply StartLiteral_spec|]. intros [] s3 (H3 & _).
    apply wp_bind. eapply wp_mono; [apply StartRawLiteral_spec, H3|]. intros [] s4 (H4 & _).
    apply wp_bind. eapply wp_mono.
    { eapply wp_yields; [apply ScanTemplateSpan_loop_result|].
      apply ScanTemplateSpan_loop_spec, H4. }
    intros t s5 [_ Ht]. unfold ErrorState_restore.
    do 4 apply wp_bind, wp_modify. apply wp_ret. set (s6 := update_next _ s5).
    assert (Hn : next (update_next (desc_set_token t) s6) = desc_set_token t (next s6))
      by apply next_update_next.
    assert (Hn6 : next s6 = set_end_pos (next s5) (source_pos s5))
      by apply (next_update_next (fun d => set_end_pos d (source_pos s5))).
    split; [done|]. match goal with |- token (next ?s7) = _ /\ _ =>
      change (next s7) with (next (update_next (desc_set_token t) s6)) end.
    rewrite Hn, Hn6. done. }
  apply (wp_conj _ _ _ _ (ScanTemplateSpan_spec s Hok)) in H.
  destruct (wp_ok _ _ _ H) as (t & s' & E & [[Hok' _] _] & Ht & H1 & H2 & H3).
  by exists t, s'.
Qed.
End TokenStream.

(** ** A concrete scanner for the witnesses *)

Definition sample_flags (d : SourceDialect) : UnoptimizedCompileFlags := mkFlags false d.

Definition sample_stream (chars : list Z) := ForTesting_two_byte chars.

#[local] Existing Instance Latin1Data.
#[local] Existing Instance Latin1DataOK.
#[local] Existing Instance DefaultConfig.

Definition SampleScanner := Scanner (UnbufferedCharacterStream FlatStream).

(** The scanner over [chars] after [Initialize]. *)
Definition initialized (chars : list Z) (d : SourceDialect) :=
  Initialize (Scanner_new (sample_stream chars) (sample_flags d)).

Lemma sample_stream_spec chars :
  forallb (fun c => (0 <=? c) && (c <? 2 ^ 16)) chars = true ->
  stream_ok (sample_stream chars) /\ rest (sample_stream chars) = chars.
Proof.
  intros H. assert (Hu : Forall is_uc16 chars).
  { rewrite forallb_forall in H. apply Forall_forall. intros c Hc. apply H in Hc. bool_to_prop. done. }
  destruct (ForTesting_two_byte_ok chars Hu) as [Hok Ht]. split; [exact Hok|].
  unfold rest. exact Ht.
Qed.

Lemma sample_stream_ok chars :
  forallb (fun c => (0 <=? c) && (c <? 2 ^ 16)) chars = true -> stream_ok (sample_stream chars).
Proof. apply sample_stream_spec. Qed.

(** [Initialize] returns on a sample stream, in a state ready for [Next]. *)
Lemma sample_initialized chars d :
  forallb (fun c => (0 <=? c) && (c <? 2 ^ 16)) chars = true ->
  exists s, initialized chars d = Ok (tt, s) /\ scanner_ok s /\
    reachable (sample_stream chars) (sample_flags d) s /\ pointers_distinct s /\
    no_lookahead s /\ is_scanned (token (next s)) = true.
Proof.
  intros H. apply sample_stream_ok in H.
  destruct (wp_ok _ _ _ (Initialize_starts (sample_stream chars) (sample_flags d) H
                           (Z.le_refl 0) eq_refl)) as ([] & s & E & [Hok _] & Hp & Hno & _ & Hsc & _).
  exists s. split; [exact E|]. split; [exact Hok|]. split; [by apply reach_Initialize|done].
Qed.

Lemma sample_no_error : match initialized (bytes_of "x = 1") kJsEng with
                        | Ok (_, s) => has_parser_error s
                        | _ => true
                        end = false.
Proof. vm_compute. reflexivity. Qed.

Lemma reachable_states_well_formed_witness :
  exists s, reachable (sample_stream (bytes_of "x = 1")) (sample_flags kJsEng) s /\ scanner_ok s.
Proof.
  assert (Hst : stream_ok (sample_stream (bytes_of "x = 1"))) by (apply sample_stream_ok; reflexivity).
  destruct (sample_initialized (bytes_of "x = 1") kJsEng eq_refl) as (s & _ & _ & Hr & _).
  exists s. split; [exact Hr|].
  destruct (reachable_states_well_formed _ _ s Hst (Z.le_refl 0) eq_refl Hr) as [Hok _]. exact Hok.
Defined.

Lemma operations_always_return_witness :
  exists s, reachable (sample_stream (bytes_of "x = 1")) (sample_flags kJsEng) s /\
    exists t s', Next s = Ok (t, s').
Proof.
  assert (Hst : stream_ok (sample_stream (bytes_of "x = 1"))) by (apply sample_stream_ok; reflexivity).
  destruct (sample_initialized (bytes_of "x = 1") kJsEng eq_refl) as (s & _ & _ & Hr & _).
  exists s. split; [exact Hr|].
  destruct (operations_always_return _ (sample_flags kJsEng) s Hst (Z.le_refl 0) eq_refl) as [_ H].
  exact (proj1 (H Hr)).
Defined.

Lemma token_stream_ends_witness :
  exists tokens last s',
    tokenize 7 (Scanner_new (sample_stream (bytes_of "x = 1")) (sample_flags kJsEng)) =
      Ok ((tokens ++ [last])%list, s') /\ is_final last = true.
Proof.
  assert (Hst : stream_ok (sample_stream (bytes_of "x = 1"))) by (apply sample_stream_ok; reflexivity).
  assert (Hf : (length (rest (sample_stream (bytes_of "x = 1"))) + 1 < 7)%nat) by (vm_compute; lia).
  destruct (token_stream_ends _ (sample_flags kJsEng) 7 Hst (Z.le_refl 0) eq_refl Hf)
    as (tokens & last & s' & E & Hfin & _).
  exists tokens, last, s'. split; [exact E|exact Hfin].
Defined.


Lemma Next_returns_peeked_token_witness :
  exists (s : SampleScanner) t s', Next s = Ok (t, s') /\ (t = token (next s) \/ t = token (mark_illegal (next s))).
Proof.
  destruct (sample_initialized (bytes_of "x = 1") kJsEng eq_refl) as (s & _ & Hok & _ & Hp & Hno & _).
  destruct (wp_ok _ _ _ (Next_spec s Hok)) as (t & s' & E & _).
  exists s, t, s'. split; [exact E|].
  destruct (Next_returns_peeked_token s t s' Hok Hp Hno E) as [[_ H]|[_ H]]; [left|right]; exact H.
Defined.

Lemma PeekAhead_then_Next_witness :
  exists (s : SampleScanner) t s1, PeekAhead s = Ok (t, s1) /\ PeekAhead s1 = Ok (t, s1).
Proof.
  destruct (sample_initialized (bytes_of "x = 1") kJsEng eq_refl) as (s & _ & Hok & _ & Hp & Hno & _).
  destruct (wp_ok _ _ _ (PeekAhead_spec s Hok)) as (t & s1 & E & _).
  exists s, t, s1. split; [exact E|].
  exact (proj1 (proj2 (proj2 (PeekAhead_then_Next s t s1 Hok Hp Hno E)))).
Defined.

Lemma stopped_scanner_only_illegal_witness :
  exists s : SampleScanner, stopped_scanner (scanner_set_parser_error s).
Proof.
  pose proof sample_no_error as Hne.
  destruct (sample_initialized (bytes_of "x = 1") kJsEng eq_refl) as (s & Es & Hok & _ & _ & _ & Hsc).
  rewrite Es in Hne. exists s. apply (proj1 (stopped_scanner_only_illegal s) Hok Hne).
  intros E. rewrite E in Hsc. discriminate Hsc.
Defined.

Lemma Apply_rescans_from_bookmark_witness :
  exists s s1 : SampleScanner, rewound_to 2 s s1.
Proof.
  destruct (sample_initialized (bytes_of "x = 1") kJsEng eq_refl) as (s & _ & Hok & _).
  assert (Hb : 0 <= bookmark_ (mkBookmark 2 false)) by (cbn; lia).
  destruct (Apply_rescans_from_bookmark (mkBookmark 2 false) s Hok Hb eq_refl) as (s1 & _ & _ & H & _).
  exists s, s1. exact H.
Defined.

Lemma ScanTemplateSpan_keeps_errors_witness :
  exists (s : SampleScanner) t s', ScanTemplateSpan s = Ok (t, s') /\ errors s' = errors s.
Proof.
  destruct (sample_initialized (bytes_of "x = 1") kJsEng eq_refl) as (s & _ & Hok & _).
  destruct (ScanTemplateSpan_keeps_errors s Hok) as (t & s' & E & _ & _ & _ & H & _).
  exists s, t, s'. split; [exact E|exact H].
Defined.
