(* ===== verification/DialectProperties.v ===== *)
(** * Properties of the dialect comment

    What [TrySetSourceDialect] does on each branch, and what a dialect comment at
    the top of a source does to the scanner, whatever the flags and whatever
    follows it. *)

From S2P Require Import Prelude.
From S2P Require Import CharPredicates.
From S2P Require Import Tokens.
From S2P Require Import Keywords.
From S2P Require Import ScanTables.
From S2P Require Import LiteralBuffer.
From S2P Require Import Stream.
From S2P Require Import CharacterStreams.
From S2P Require Import ScannerState.
From S2P Require Import Literals.
From S2P Require Import Comments.
From S2P Require Import Scanner.
From S2P Require Import ScanResults.
From S2P Require Import ScannerSpec.
From S2P Require Import LiteralsSafety.
From S2P Require Import CommentsSafety.
From S2P Require Import ScannerSafety.
From S2P Require Import ScanText.
From S2P Require Import StreamProperties.
From S2P Require Import ScannerProperties.
From stdpp Require Import base list numbers strings decidable.
From Stdlib Require Import ZArith Lia Bool.

Local Open Scope string_scope.
Local Open Scope list_scope.
Local Open Scope Z_scope.
Local Open Scope prog_scope.

Section Dialect.
Context {D : Type} {BR : BlockReader D} {BOK : BlockReaderOK D}.
Context {U : UnicodeData} {UOK : UnicodeDataOK U} {C : BuildConfig}.
Local Abbreviation Scanner := (Scanner D).
Local Abbreviation SM := (M Scanner).
Implicit Types s : Scanner.

(** ** TrySetSourceDialect *)


(** The dialect [d] and its name [value] are recorded; nothing else changes. *)
Record dialect_accepted (d : SourceDialect) (value : list Z) s s' : Prop := {
  da_walks : walks s s';
  da_dialect : source_dialect_ s' = d;
  da_name : SourceDialectString s' = value;
  da_found : found_source_dialect_comment_ s' = true;
  da_input : input s' = input s;
  da_errors : errors s' = errors s;
  da_next : next s' = next s
}.


Lemma TrySetSourceDialect_accepts d s :
  scanner_ok s -> ~ dialect_fixed s ->
  wp (TrySetSourceDialect (bytes_of (SourceDialectName d)))
    (fun b s' => b = true /\ dialect_accepted d (bytes_of (SourceDialectName d)) s s') s.
Proof.
  intros Hok Hfix. pose proof (walks_refl s Hok) as Hs. unfold TrySetSourceDialect.
  apply wp_bind, wp_gets.
  assert (E : saw_non_comment_token_ s || found_source_dialect_comment_ s = false).
  { apply orb_false_iff. unfold dialect_fixed in Hfix.
    split; apply not_true_is_false; intros E; apply Hfix; auto. }
  rewrite E. assert (Ep : TryParseSourceDialect (bytes_of (SourceDialectName d)) = Some d)
    by (by destruct d). rewrite Ep.
  apply wp_bind, (walk_modify _ s); [done|by apply walks_set_source_dialect|]. intros H1.
  apply wp_bind, (walk_modify _ s); [done| |].
  { apply walks_set_source_dialect_name; [apply H1|apply buffer_ok_Start, H1]. }
  intros H2. apply wp_bind. eapply wp_mono.
  { apply AddDialectName_spec; [apply H2|done|apply dialect_name_ascii]. }
  intros [] s3 (H3 & Hi3 & He3 & Hn3 & Ho3 & Hd3 & Hu3).
  assert (Hs3 : walks s s3) by (by eapply walks_trans).
  apply wp_bind, (walk_modify _ s); [done|by apply walks_set_found, H3|].
  intros H4. apply wp_ret. split; [done|].
  assert (Hname : code_units (source_dialect_name_ s3) = bytes_of (SourceDialectName d))
    by exact Hu3.
  split; try done. unfold SourceDialectString. cbn [source_dialect_name_ set_found_source_dialect_comment].
  rewrite Hname. destruct (0 <? literal_length (source_dialect_name_ s3)); [done|].
  cbn. by rewrite Hd3.
Qed.


(** ** The comment *)

(** Characters that may be in the name or the value of a magic comment. *)
Definition plain_char (c : Z) : bool :=
  (0 <=? c) && (c <=? 127) && negb (IsWhiteSpaceOrLineTerminator c) && negb (c =? "="%uc)
  && negb (IsWhiteSpace c) && negb (IsLineTerminator c).

Lemma plain_chars_latin1 l : forallb plain_char l = true -> Forall (fun c => 0 <= c <= 255) l.
Proof.
  rewrite forallb_forall. intros H. apply Forall_forall. intros c Hc. apply H in Hc.
  unfold plain_char in Hc. bool_to_prop. lia.
Qed.

Lemma plain_chars_In l c :
  forallb plain_char l = true -> In c l ->
  IsWhiteSpaceOrLineTerminator c = false /\ (c =? "="%uc) = false /\ IsWhiteSpace c = false /\
  IsLineTerminator c = false /\ 0 <= c.
Proof.
  rewrite forallb_forall. intros H Hc. apply H in Hc. unfold plain_char in Hc.
  rewrite !andb_true_iff, !negb_true_iff, !Z.leb_le in Hc. tauto.
Qed.

Lemma new_buffer_empty : code_units (Start LiteralBuffer_new) = [].
Proof. done. Qed.

Lemma char_not_end s c r : chars_left s = c :: r -> (c0_ s =? kEndOfInput) = false.
Proof. intros H. apply chars_left_cons in H as (-> & _ & H). by apply Z.eqb_neq. Qed.

Lemma scan_comment_name_text l tail s :
  scanner_ok s -> forallb plain_char l = true -> chars_left s = l ++ tail ->
  ends_at (fun c => c =? "="%uc) tail ->
  wp scan_comment_name
    (fun b s' => consumed s s' tail /\ buffer_ok b /\ is_one_byte_ b = true /\ code_units b = l) s.
Proof.
  intros Hok Hp Hl Htail. unfold scan_comment_name.
  eapply (wp_collect_loop _ l tail); [done|apply buffer_ok_Start, buffer_new_ok|done|done| | | |].
  - by apply plain_chars_latin1.
  - intros b1 s1 c r Hin Hok1 Hb1 Hl1. destruct (plain_chars_In _ _ Hp Hin) as (E1 & E2 & _ & _ & Hc).
    pose proof (char_not_end _ _ _ Hl1) as E3. destruct (chars_left_cons _ _ _ Hl1) as (Hc0 & _).
    apply wp_bind, wp_gets. rewrite E3, Hc0, E1, E2. cbn [negb andb].
    destruct (AddChar_spec b1 c Hb1 Hc) as (b2 & E & _). rewrite E.
    apply wp_bind, wp_ret, wp_bind, (wp_Advance_text c r); [done|done|].
    intros s2 H2 _ _. apply wp_ret. split; [done|]. by exists b2.
  - intros b1 s1 Hok1 Hl1. apply wp_bind, wp_gets. destruct tail as [|c r].
    + apply chars_left_nil in Hl1. by rewrite Hl1.
    + destruct (chars_left_cons _ _ _ Hl1) as (Hc0 & _). cbn in Htail.
      rewrite Hc0, Htail. rewrite andb_false_r. by apply wp_ret.
  - intros b' s' H1 H2 H3 H4. by rewrite new_buffer_empty in H4.
Qed.

Lemma scan_comment_value_text l tail s :
  scanner_ok s -> forallb plain_char l = true -> chars_left s = l ++ tail ->
  ends_at IsLineTerminator tail ->
  wp (scan_comment_value None)
    (fun b s' => consumed s s' tail /\ buffer_ok b /\ is_one_byte_ b = true /\ code_units b = l) s.
Proof.
  intros Hok Hp Hl Htail. unfold scan_comment_value.
  eapply (wp_collect_loop _ l tail); [done|apply buffer_ok_Start, buffer_new_ok|done|done| | | |].
  - by apply plain_chars_latin1.
  - intros b1 s1 c r Hin Hok1 Hb1 Hl1. destruct (plain_chars_In _ _ Hp Hin) as (_ & _ & E1 & E2 & Hc).
    pose proof (char_not_end _ _ _ Hl1) as E3. destruct (chars_left_cons _ _ _ Hl1) as (Hc0 & _).
    apply wp_bind, wp_gets. rewrite E3, Hc0, E1, E2. cbn [negb orb].
    apply wp_bind, wp_ret. destruct (AddChar_spec b1 c Hb1 Hc) as (b2 & E & _). rewrite E.
    apply wp_bind, wp_ret, wp_bind, (wp_Advance_text c r); [done|done|].
    intros s2 H2 _ _. apply wp_ret. split; [done|]. by exists b2.
  - intros b1 s1 Hok1 Hl1. apply wp_bind, wp_gets. destruct tail as [|c r].
    + apply chars_left_nil in Hl1. by rewrite Hl1.
    + destruct (chars_left_cons _ _ _ Hl1) as (Hc0 & _). cbn in Htail.
      rewrite Hc0, Htail, orb_true_r. by apply wp_ret.
  - intros b' s' H1 H2 H3 H4. by rewrite new_buffer_empty in H4.
Qed.

Lemma skip_blanks_none s :
  IsWhiteSpace (c0_ s) = false -> wp skip_blanks (fun _ s' => s' = s) s.
Proof.
  intros E. unfold skip_blanks. apply (wp_scan_loop (fun _ s1 => s1 = s)); [done|].
  intros [] s1 ->. apply wp_bind, wp_gets. rewrite E. by apply wp_ret.
Qed.

Lemma scan_comment_end_here b s tail :
  chars_left s = tail -> ends_at IsLineTerminator tail ->
  wp (scan_comment_end None b) (fun b' s' => b' = b /\ s' = s) s.
Proof.
  intros Hl Htail. unfold scan_comment_end.
  apply (wp_scan_loop (fun b1 s1 => b1 = b /\ s1 = s)); [done|]. intros b1 s1 [-> ->].
  apply wp_bind, wp_gets. destruct tail as [|c r].
  - apply chars_left_nil in Hl. rewrite Hl. by apply wp_ret.
  - destruct (chars_left_cons _ _ _ Hl) as (Hc0 & _). cbn in Htail.
    rewrite Hc0, Htail, orb_true_r. by apply wp_ret.
Qed.

Lemma dialect_name_plain d : forallb plain_char (bytes_of (SourceDialectName d)) = true.
Proof. by destruct d. Qed.

Lemma dialect_name_no_blank d tail s :
  ends_at IsLineTerminator tail -> chars_left s = bytes_of (SourceDialectName d) ++ tail ->
  IsWhiteSpace (c0_ s) = false.
Proof. intros _. destruct d; intros H; cbn in H; by apply chars_left_cons in H as (-> & _). Qed.

(** The dialect is [d] and stays [d]. *)
Definition dialect_set (d : SourceDialect) s : Prop :=
  source_dialect_ s = d /\ found_source_dialect_comment_ s = true.

Lemma dialect_set_walks d s s' : walks s s' -> dialect_set d s -> dialect_set d s'.
Proof.
  intros [_ Hf] [H1 H2]. split; [|by apply (fr_found _ _ Hf)].
  rewrite (fr_dialect _ _ Hf); [done|]. by right.
Qed.

Lemma not_fixed_consumed s s' l : consumed s s' l -> ~ dialect_fixed s -> ~ dialect_fixed s'.
Proof.
  intros (_ & Hf & _) H. pose proof (lf_core _ _ Hf) as E. unfold core in E.
  unfold dialect_fixed in *. injection E. intros. congruence.
Qed.

Lemma TryToParseSourceURLComment_dialect d tail s :
  scanner_ok s -> ~ dialect_fixed s ->
  chars_left s = bytes_of " sourceDialect=" ++ bytes_of (SourceDialectName d) ++ tail ->
  ends_at IsLineTerminator tail ->
  wp TryToParseSourceURLComment
    (fun _ s' => walks s s' /\ dialect_set d s' /\ chars_left s' = tail) s.
Proof.
  intros Hok Hfix Hl Htail. set (rest := bytes_of (SourceDialectName d) ++ tail) in *.
  change (bytes_of " sourceDialect=" ++ rest)
    with (" "%uc :: (bytes_of "sourceDialect" ++ "="%uc :: rest)) in Hl.
  destruct (chars_left_cons _ _ _ Hl) as (Hc0 & _). unfold TryToParseSourceURLComment.
  apply wp_bind, wp_gets. rewrite Hc0. change (IsWhiteSpace " "%uc) with true. cbn [negb].
  apply wp_bind, (wp_Advance_text _ _ _ _ Hok Hl). intros s1 H1 _ _.
  apply wp_bind. eapply wp_mono.
  { apply (scan_comment_name_text (bytes_of "sourceDialect") ("="%uc :: rest));
      [apply H1|done|apply H1|done]. }
  intros name s2 (H2 & _ & Ho2 & Hu2). unfold code_units, is_one_byte in Hu2. unfold is_one_byte.
  rewrite Ho2 in *. cbn [negb]. rewrite Hu2.
  change (comment_target (bytes_of "sourceDialect")) with (Some (@None ValueBuffer)).
  destruct (chars_left_cons s2 _ _ (proj2 (proj2 H2))) as (Hc2 & _).
  apply wp_bind. eapply wp_mono; [apply skip_blanks_none; by rewrite Hc2|]. intros [] ? ->.
  apply wp_bind, wp_gets. rewrite Hc2. cbn [negb Z.eqb]. change (61 =? 61) with true. cbn [negb].
  apply wp_bind, wp_ret, wp_bind.
  apply (wp_Advance_text _ _ _ _ (proj1 H2) (proj2 (proj2 H2))). intros s3 H3 _ _.
  apply wp_bind. eapply wp_mono.
  { apply skip_blanks_none, (dialect_name_no_blank d tail); [done|apply H3]. }
  intros [] ? ->. apply wp_bind. eapply wp_mono.
  { apply (scan_comment_value_text (bytes_of (SourceDialectName d)) tail);
      [apply H3|apply dialect_name_plain|apply H3|done]. }
  intros b s4 (H4 & _ & Ho4 & Hu4). apply wp_bind. eapply wp_mono.
  { by apply (scan_comment_end_here _ _ tail); [apply H4|]. }
  intros ? ? [-> ->]. unfold code_units, is_one_byte in Hu4. unfold is_one_byte.
  rewrite Ho4 in *. cbn [negb]. rewrite Hu4.
  assert (Hs4 : consumed s s4 tail) by consumed_chain.
  apply wp_bind. eapply wp_mono.
  { apply TrySetSourceDialect_accepts; [apply H4|by eapply not_fixed_consumed]. }
  intros ? s5 [_ H5]. apply wp_ret. split; [|split].
  - eapply walks_trans; [by eapply consumed_walks|apply (da_walks _ _ _ _ H5)].
  - split; [apply (da_dialect _ _ _ _ H5)|apply (da_found _ _ _ _ H5)].
  - rewrite (chars_left_input s4 s5 (da_input _ _ _ _ H5)). apply H4.
Qed.

(** The first round of [ScanSingleToken] at a dialect comment. *)
Lemma dialect_comment_round d tail s :
  scanner_ok s -> ~ dialect_fixed s ->
  chars_left s = bytes_of "//# sourceDialect=" ++ bytes_of (SourceDialectName d) ++ tail ->
  ends_at IsLineTerminator tail ->
  wp (ScanAsciiToken (one_char_token (c0_ s)))
    (fun r s' => r = inl Token.WHITESPACE /\ walks s s' /\ dialect_set d s' /\
       chars_left s' = tail) s.
Proof.
  intros Hok Hfix Hl Htail. set (rest := bytes_of " sourceDialect=" ++ bytes_of (SourceDialectName d) ++ tail).
  change (chars_left s = "/"%uc :: "/"%uc :: "#"%uc :: rest) in Hl.
  destruct (chars_left_cons _ _ _ Hl) as (Hc0 & _). rewrite Hc0.
  change (one_char_token "/"%uc) with Token.DIV. cbn [ScanAsciiToken].
  apply wp_bind, (wp_Advance_text _ _ _ _ Hok Hl). intros s1 H1 _ _. apply wp_bind, wp_gets.
  destruct (chars_left_cons s1 _ _ (proj2 (proj2 H1))) as (Hc1 & _). rewrite Hc1.
  cbn [ScanPunctuator]. change (47 =? 47) with true. cbv iota.
  apply wp_bind, (wp_PeekChar_text _ _ _ _ _ (proj1 H1) (proj2 (proj2 H1))). intros s2 H2 _ _.
  change ((35 =? 35) || (35 =? 64)) with true. cbv iota.
  apply wp_bind, (wp_Advance_text _ _ _ _ (proj1 H2) (proj2 (proj2 H2))). intros s3 H3 _ _.
  apply wp_bind, (wp_Advance_text _ _ _ _ (proj1 H3) (proj2 (proj2 H3))). intros s4 H4 _ _.
  assert (Hs4 : consumed s s4 rest) by consumed_chain.
  apply wp_bind. unfold SkipSourceURLComment. apply wp_bind. eapply wp_mono.
  { apply (TryToParseSourceURLComment_dialect d tail);
      [apply H4|by eapply not_fixed_consumed|apply H4|done]. }
  intros [] s5 (H5 & Hd5 & Hl5). apply wp_bind, wp_gets.
  assert (E : IsLineTerminator (c0_ s5) || (c0_ s5 =? kEndOfInput) = true).
  { destruct tail as [|c r]; [apply chars_left_nil in Hl5; by rewrite Hl5|].
    destruct (chars_left_cons _ _ _ Hl5) as (-> & _). cbn in Htail. by rewrite Htail. }
  rewrite E. apply wp_ret, wp_ret. split; [done|].
  split; [eapply walks_trans; [by eapply consumed_walks|done]|done].
Qed.

Definition dialect_comment (d : SourceDialect) : list Z :=
  bytes_of "//# sourceDialect=" ++ bytes_of (SourceDialectName d).

Lemma ScanSingleToken_dialect d tail s :
  scanner_ok s -> ~ dialect_fixed s -> chars_left s = dialect_comment d ++ tail ->
  ends_at IsLineTerminator tail ->
  wp ScanSingleToken (fun _ s' => walks s s' /\ dialect_set d s') s.
Proof.
  intros Hok Hfix Hl Htail. unfold dialect_comment in Hl. rewrite <- app_assoc in Hl.
  unfold ScanSingleToken.
  apply (wp_scan_loop (fun _ s1 => s1 = s \/ walks s s1 /\ dialect_set d s1)); [by left|].
  intros [] s1 H1.
  assert (Hok1 : scanner_ok s1) by (destruct H1 as [->|[[] _]]; done).
  apply wp_bind, wp_modify. set (s2 := update_next _ s1).
  assert (H12 : walks s1 s2) by (by apply walks_update_next).
  apply wp_bind, wp_gets, wp_bind. destruct H1 as [->|[H1 Hd1]].
  - assert (Hl2 : chars_left s2 = chars_left s) by done.
    assert (Hc2 : c0_ s2 = "/"%uc)
      by (rewrite Hl in Hl2; by destruct (chars_left_cons s2 _ _ Hl2) as (-> & _)).
    assert (Hle : (c0_ s2 <=? kMaxAscii) = true) by (by rewrite Hc2). rewrite Hle.
    eapply wp_mono.
    { apply (dialect_comment_round d tail); [apply H12|done|by rewrite Hl2|done]. }
    intros ? s3 (-> & H3 & Hd3 & Hl3). apply wp_ret. rewrite bool_decide_eq_true_2 by done.
    split; [right; split; [by eapply walks_trans|done]|].
    rewrite <- !chars_left_length, Hl3, Hl, !length_app. cbn. lia.
  - assert (Hd2 : dialect_set d s2) by done.
    eapply wp_mono with (Q := round_post s2).
    { destruct (Z.leb_spec (c0_ s2) kMaxAscii);
        [by apply ScanAsciiToken_spec; [apply H12|]|by apply ScanNonAsciiToken_spec; apply H12]. }
    assert (Hs2 : walks s s2) by (by eapply walks_trans).
    assert (Hl2 : input_left s2 = input_left s1) by done.
    intros [t|t] s3 [H3 Hr]; apply wp_ret;
      assert (Hs3 : walks s s3) by (exact (walks_trans _ _ _ Hs2 H3));
      assert (Hd3 : dialect_set d s3) by (exact (dialect_set_walks _ _ _ H3 Hd2)); [|done].
    case_bool_decide as Ht; [|done]. split; [by right|]. rewrite <- Hl2. auto.
Qed.

Lemma Scan_dialect d tail s :
  scanner_ok s -> ~ dialect_fixed s -> chars_left s = dialect_comment d ++ tail ->
  ends_at IsLineTerminator tail ->
  wp Scan (fun _ s' => scanner_ok s' /\ dialect_set d s') s.
Proof.
  intros Hok Hfix Hl Htail.
  assert (H : wp Scan (fun _ s' => dialect_set d s') s).
  { unfold Scan. apply wp_bind, wp_modify.
    set (s1 := update_next _ s).
    assert (H1 : walks s s1) by (by apply walks_update_next).
    apply wp_bind. eapply wp_mono.
    { apply (ScanSingleToken_dialect d tail); [apply H1|done|done|done]. }
    intros t s2 [_ Hd2].
    apply wp_bind, wp_modify, wp_bind.
    assert (Hd : wp (if negb (bool_decide (t = Token.WHITESPACE))
                        && negb (bool_decide (t = Token.UNINITIALIZED))
                     then modify (set_saw_non_comment_token true) else ret tt)
                   (fun _ s4 => dialect_set d s4) (update_next (desc_set_token t) s2))
      by (by destruct (_ && _)).
    eapply wp_mono; [exact Hd|]. intros [] s4 Hd4. apply wp_modify. exact Hd4. }
  eapply wp_mono; [exact (wp_conj _ _ _ _ (Scan_spec s Hok) H)|]. by intros [] s' [[Hok' _] Hd].
Qed.

(** C2: a source that starts with a dialect comment is scanned in that dialect:
    whatever dialect the flags ask for, whatever the rest of the source is and
    however it is split into blocks, after [Initialize] the scanner's dialect is
    the one the comment names. *)
Theorem dialect_comment_selects_dialect d tail st flags :
  stream_ok st -> 0 <= pos st -> has_parser_error_ st = false ->
  rest st = dialect_comment d ++ tail -> ends_at IsLineTerminator tail ->
  exists s, Initialize (Scanner_new st flags) = Ok (tt, s) /\ source_dialect_ s = d /\
    found_source_dialect_comment_ s = true.
Proof.
  intros Hok Hp He Hr Htail.
  assert (H : wp Initialize (fun _ s => dialect_set d s) (Scanner_new st flags)).
  { unfold Initialize. apply wp_bind. eapply wp_mono; [by apply Init_spec|]. intros [] s1 H1.
    apply wp_bind, wp_modify. set (s2 := update_next _ s1).
    assert (H2 : keeps_ok s1 s2)
      by (apply ok_update_slot; [apply (st_ok _ _ _ H1)|by intros ? []]).
    eapply wp_mono; [apply (Scan_dialect d tail); [apply H2| |  |done]|].
    - pose proof (st_saw _ _ _ H1). pose proof (st_found _ _ _ H1).
      intros [H'|H']; cbn in H'; congruence.
    - unfold chars_left. change (c0_ s2) with (c0_ s1). change (ahead s2) with (ahead s1).
      rewrite (st_c0 _ _ _ H1), (st_ahead _ _ _ H1), Hr. done.
    - intros [] s' [_ Hd]. exact Hd. }
  destruct (wp_ok _ _ _ H) as ([] & s & E & Hd). by exists s.
Qed.
End Dialect.

#[local] Existing Instance Latin1Data.
#[local] Existing Instance Latin1DataOK.
#[local] Existing Instance DefaultConfig.

(** A source that starts with a comment for the Spanish dialect. *)
Definition spanish_sample : list Z := dialect_comment kJsSpa ++ [0x0A] ++ bytes_of "si (x) y".

Lemma spanish_sample_ok : stream_ok (sample_stream spanish_sample).
Proof. by apply sample_stream_ok. Qed.


Lemma dialect_comment_selects_dialect_witness :
  exists s, Initialize (Scanner_new (sample_stream spanish_sample) (sample_flags kJsEng)) =
              Ok (tt, s) /\ source_dialect_ s = kJsSpa.
Proof.
  assert (Hr : rest (sample_stream spanish_sample) =
               dialect_comment kJsSpa ++ [0x0A] ++ bytes_of "si (x) y") by (vm_compute; reflexivity).
  destruct (dialect_comment_selects_dialect kJsSpa _ _ (sample_flags kJsEng) spanish_sample_ok
              (Z.le_refl 0) eq_refl Hr eq_refl) as (s & E & Hd & _).
  exists s. split; [exact E|exact Hd].
Defined.
