(* ===== verification/LexicalProperties.v ===== *)
(** * What the lexical functions return on known text

    Identifiers and keywords against the keyword list of the dialect, string
    literals, small integers and punctuators against their text. *)

From S2P Require Import Prelude.
From S2P Require Import CharPredicates.
From S2P Require Import Tokens.
From S2P Require Import Keywords.
From S2P Require Import ScanTables.
From S2P Require Import LiteralBuffer.
From S2P Require Import Stream.
From S2P Require Import CharacterStreams.
From S2P Require Import ScannerState.
From S2P Require Import Literals.
From S2P Require Import Comments.
From S2P Require Import Scanner.
From S2P Require Import ScanResults.
From S2P Require Import ScannerSpec.
From S2P Require Import LiteralsSafety.
From S2P Require Import CommentsSafety.
From S2P Require Import ScannerSafety.
From S2P Require Import ScanText.
From S2P Require Import StreamProperties.
From S2P Require Import ScannerProperties.
From stdpp Require Import base list numbers strings decidable.
From Stdlib Require Import ZArith Lia Bool.

Local Open Scope string_scope.
Local Open Scope list_scope.
Local Open Scope Z_scope.
Local Open Scope prog_scope.

(** ** Splitting text at the first character that satisfies a predicate *)

Lemma first_stop_unique {A} (p : A -> bool) l1 l2 x r tail :
  forallb (fun c => negb (p c)) l1 = true -> forallb (fun c => negb (p c)) l2 = true ->
  p x = true -> match tail with [] => True | c :: _ => p c = true end ->
  l1 ++ x :: r = l2 ++ tail -> l1 = l2 /\ tail = x :: r.
Proof.
  revert l2. induction l1 as [|a l1 IH]; intros [|b l2] H1 H2 Hx Ht E; cbn in *.
  - done.
  - injection E as -> ->. rewrite Hx in H2. done.
  - subst tail. cbn in Ht. rewrite Ht in H1. done.
  - injection E as -> E. apply andb_true_iff in H1 as [_ H1], H2 as [_ H2].
    destruct (IH l2 H1 H2 Hx Ht E) as [-> ->]. done.
Qed.

Lemma no_stop_unique {A} (p : A -> bool) l1 l2 tail :
  forallb (fun c => negb (p c)) l1 = true ->
  match tail with [] => True | c :: _ => p c = true end ->
  l1 = l2 ++ tail -> tail = [] /\ l1 = l2.
Proof.
  intros H1 Ht ->. rewrite forallb_app in H1. apply andb_true_iff in H1 as [_ H1].
  destruct tail as [|c r]; [by rewrite app_nil_r|]. cbn in H1. by rewrite Ht in H1.
Qed.

(** ** Scan flags *)

Lemma has_flag_lor a b f : has_flag (Z.lor a b) f = has_flag a f || has_flag b f.
Proof.
  unfold has_flag. rewrite Z.land_lor_distr_l.
  destruct (Z.eqb_spec (Z.land a f) 0) as [->|Ha]; cbn; [done|].
  destruct (Z.eqb_spec (Z.lor (Z.land a f) (Z.land b f)) 0) as [E|]; [|done].
  by apply Z.lor_eq_0_iff in E as [].
Qed.

(** An ASCII character of an identifier, other than a backslash. *)
Definition word_char (c : Z) : bool := (0 <=? c) && (c <=? kMaxAscii) && IsAsciiIdentifier c.

(** An ASCII character that ends an identifier. *)
Definition word_end (c : Z) : bool :=
  (0 <=? c) && (c <=? kMaxAscii) && negb (IsAsciiIdentifier c) && negb (c =? "\"%uc).

(** The condition [identifier_check] stops on. *)
Definition word_stop (c : Z) : bool := (kMaxAscii <? c) || TerminatesLiteral (scan_flags_at c).

Definition char_flags_ok (c : Z) : bool :=
  let f := scan_flags_at c in
  (negb (word_char c)
   || negb (TerminatesLiteral f) && negb (IdentifierNeedsSlowPath f)
      && negb (IdentifierNeedsSlowPath (Z.shiftr f 1)) && negb (c =? "\"%uc))
  && (negb (word_end c)
      || TerminatesLiteral f && negb (IdentifierNeedsSlowPath f) && CanBeKeyword f).

Lemma char_flags_checked c : 0 <= c <= kMaxAscii -> char_flags_ok c = true.
Proof.
  intros Hc. apply (forallb_seqZ char_flags_ok 0 128); [vm_compute; reflexivity|].
  unfold kMaxAscii in Hc. lia.
Qed.

Lemma word_char_flags c :
  word_char c = true ->
  0 <= c <= kMaxAscii /\ word_stop c = false /\ IdentifierNeedsSlowPath (scan_flags_at c) = false /\
  IdentifierNeedsSlowPath (Z.shiftr (scan_flags_at c) 1) = false /\ (c =? "\"%uc) = false.
Proof.
  intros H. assert (Hc : 0 <= c <= kMaxAscii) by (unfold word_char in H; bool_to_prop; lia).
  pose proof (char_flags_checked c Hc) as Hf. unfold char_flags_ok in Hf. rewrite H in Hf.
  cbn [negb orb] in Hf. rewrite !andb_true_iff, !negb_true_iff in Hf. unfold word_stop.
  destruct (Z.ltb_spec kMaxAscii c); [lia|]. cbn [orb]. tauto.
Qed.

Lemma word_end_flags c :
  word_end c = true ->
  0 <= c <= kMaxAscii /\ word_stop c = true /\ IdentifierNeedsSlowPath (scan_flags_at c) = false /\
  CanBeKeyword (scan_flags_at c) = true.
Proof.
  intros H. assert (Hc : 0 <= c <= kMaxAscii) by (unfold word_end in H; bool_to_prop; lia).
  pose proof (char_flags_checked c Hc) as Hf. unfold char_flags_ok in Hf. rewrite H in Hf.
  cbn [negb orb] in Hf. rewrite !andb_true_iff, !orb_true_iff, !andb_true_iff, !negb_true_iff in Hf.
  unfold word_stop. destruct (Z.ltb_spec kMaxAscii c); [lia|]. cbn [orb]. tauto.
Qed.

(** The flags the fast path has collected after a word. *)
Definition word_flags (c : Z) (l : list Z) : Z :=
  fold_left (fun f c => Z.lor f (scan_flags_at c)) l (Z.shiftr (scan_flags_at c) 1).

Lemma word_flags_snoc c l x : word_flags c (l ++ [x]) = Z.lor (word_flags c l) (scan_flags_at x).
Proof. unfold word_flags. by rewrite fold_left_app. Qed.

Lemma word_flags_fast c l :
  word_char c = true -> forallb word_char l = true ->
  IdentifierNeedsSlowPath (word_flags c l) = false.
Proof.
  intros Hc. induction l as [|x l IH] using rev_ind; intros Hl.
  { apply (word_char_flags c Hc). }
  rewrite forallb_app in Hl. apply andb_true_iff in Hl as [Hl Hx]. cbn in Hx. rewrite andb_true_r in Hx.
  rewrite word_flags_snoc. unfold IdentifierNeedsSlowPath in *. rewrite has_flag_lor, IH by done.
  apply (word_char_flags x Hx).
Qed.

(** No English keyword is ruled out by the flags of its characters. *)
Lemma eng_keywords_possible :
  forallb (fun e => match bytes_of (fst e) with
                    | c :: l => CanBeKeyword (word_flags c l)
                    | [] => false
                    end) keywords_eng = true.
Proof. vm_compute. reflexivity. Qed.

Lemma ruled_out_word c l :
  CanBeKeyword (word_flags c l) = false ->
  keyword_lookup (keywords_of kJsEng) (c :: l) = Token.IDENTIFIER.
Proof.
  intros H. apply keyword_lookup_notin. intros e He E.
  pose proof eng_keywords_possible as Hp. rewrite forallb_forall in Hp. specialize (Hp e He).
  cbn in Hp. rewrite <- E in Hp. congruence.
Qed.

Section Lexical.
Context {D : Type} {BR : BlockReader D} {BOK : BlockReaderOK D}.
Context {U : UnicodeData} {UOK : UnicodeDataOK U} {C : BuildConfig}.
Local Abbreviation Scanner := (Scanner D).
Local Abbreviation SM := (M Scanner).
Implicit Types s : Scanner.

(** What follows the characters [AdvanceUntil] consumed. *)
Lemma stopped_chars s s2 s' pre c :
  stopped_at s s2 s' pre -> c0_ s' = c -> c <> kEndOfInput ->
  ahead s = pre ++ chars_left s'.
Proof.
  intros Hst E Hne. unfold chars_left. rewrite E. destruct (Z.eqb_spec c kEndOfInput); [done|].
  destruct (st_stop _ _ _ _ Hst) as [(c' & r & Ha & Hc & Hr & _)|(_ & Hc & _)]; [|congruence].
  rewrite Hr, Ha. congruence.
Qed.

Lemma stopped_end s s2 s' pre :
  stopped_at s s2 s' pre -> c0_ s' = kEndOfInput -> ahead s = pre /\ chars_left s' = [].
Proof.
  intros Hst E. unfold chars_left. rewrite E. split; [|done].
  destruct (st_stop _ _ _ _ Hst) as [(c' & r & _ & Hc & _ & Hu)|(Ha & _)]; [|done].
  apply uc16_not_eof in Hu. congruence.
Qed.

(** ** Identifiers and keywords *)

Definition word_ahead (word tail : list Z) : Prop :=
  forallb word_char word = true /\ ends_at word_end tail.

(** The state of the fast path behind the characters [pre]. *)
Definition word_so_far (c : Z) (pre : list Z) (flags : Z) s : Prop :=
  lit s = c :: pre /\ lit_one_byte s = true /\ flags = word_flags c pre /\
  forallb (fun x => negb (word_stop x)) pre = true.

Lemma identifier_check_word c pre x flags s :
  scanner_ok s -> is_uc16 x -> word_so_far c pre flags s ->
  wp (identifier_check x flags)
    (fun r s' => collected s s' /\
       if fst r : bool then
         word_stop x = true /\ lit s' = c :: pre /\ lit_one_byte s' = true /\
         forallb (fun x => negb (word_stop x)) pre = true /\
         (x <= kMaxAscii -> snd r = Z.lor (word_flags c pre) (scan_flags_at x))
       else word_so_far c (pre ++ [x]) (snd r) s') s.
Proof.
  intros Hok Hu (Hl & Ho & -> & Hp). unfold identifier_check, word_stop.
  assert (Hcol : collected s s) by (by split; [|apply lit_frame_refl|..]).
  destruct (Z.ltb_spec kMaxAscii x) as [Hx|Hx].
  { apply wp_ret. cbn. split; [done|]. split_and!; [done..|]. lia. }
  cbn [orb]. destruct (TerminatesLiteral (scan_flags_at x)) eqn:Et; [by apply wp_ret|].
  apply wp_bind. unfold kMaxAscii, is_uc16 in *.
  eapply wp_mono; [apply AddLiteralAsciiChar_spec; [done|lia|done]|].
  intros [] s' (Hcol' & Hl' & Ho' & _). apply wp_ret. cbn. split; [done|].
  split; [by rewrite Hl', Hl|]. split; [done|]. rewrite word_flags_snoc. split; [done|].
  rewrite forallb_app, Hp. cbn. unfold word_stop. rewrite Et.
  destruct (Z.ltb_spec kMaxAscii x); [unfold kMaxAscii in *; lia|done].
Qed.

(** The fast path collects the word and stops at its end. *)
Lemma AdvanceUntil_word c word tail s :
  scanner_ok s -> chars_left s = c :: word ++ tail -> word_ahead word tail ->
  word_char c = true -> lit s = [c] -> lit_one_byte s = true ->
  wp (AdvanceUntil identifier_check (word_flags c []))
    (fun flags s' => consumed s s' tail /\ lit s' = c :: word /\ lit_one_byte s' = true /\
       errors s' = errors s /\ IdentifierNeedsSlowPath flags = false /\
       CanBeKeyword flags = CanBeKeyword (word_flags c word)) s.
Proof.
  intros Hok Hl [Hw Ht] Hc Hlit Ho. destruct (chars_left_cons _ _ _ Hl) as (Hc0 & Ha & Hne).
  rewrite <- Hc0 in Hne.
  assert (Hstops : forallb (fun x => negb (word_stop x)) word = true).
  { apply forallb_forall. intros x Hx. rewrite forallb_forall in Hw. apply Hw, word_char_flags in Hx.
    apply negb_true_iff. tauto. }
  assert (Htstop : match tail with [] => True | x :: _ => word_stop x = true end)
    by (destruct tail; [done|]; apply (word_end_flags _ Ht)).
  pose proof (word_flags_fast c word Hc Hw) as Hfast.
  eapply wp_mono.
  { apply (AdvanceUntil_collect _ (word_so_far c)
             (fun pre x flags s2 => word_stop x = true /\ lit s2 = c :: pre /\
                lit_one_byte s2 = true /\ forallb (fun x => negb (word_stop x)) pre = true /\
                (x <= kMaxAscii -> flags = Z.lor (word_flags c pre) (scan_flags_at x))));
      [done|done|done|].
    intros pre x flags s1 H1 HJ Hu. apply identifier_check_word; [apply H1|done|done]. }
  intros flags s' (pre & s2 & Hcol & Hst & Hcase).
  destruct (stopped_collected _ _ _ _ Hne Hcol Hst) as (Hok' & Hf & Herr & Hlit' & Ho' & _).
  destruct Hcase as [(x & Ex & Hx & Hs & H1 & H2 & H3 & H4)|(E & H1 & H2 & -> & H3)].
  - pose proof (stopped_chars _ _ _ _ _ Hst Ex Hx) as Hsplit. rewrite Ha in Hsplit.
    assert (Hcl : chars_left s' = x :: ahead s').
    { unfold chars_left. rewrite Ex. by destruct (Z.eqb_spec x kEndOfInput). }
    rewrite Hcl in Hsplit. symmetry in Hsplit.
    destruct (first_stop_unique _ _ _ _ _ _ H3 Hstops Hs Htstop Hsplit) as [-> Htail].
    rewrite Htail in Ht. cbn in Ht. destruct (word_end_flags x Ht) as (Hxr & _ & Hslow & Hcan).
    rewrite H4 by lia. unfold IdentifierNeedsSlowPath, CanBeKeyword in *.
    rewrite !has_flag_lor, Hfast, Hslow. apply negb_true_iff in Hcan. rewrite Hcan.
    split_and!; [split; [done|split; [done|congruence]]|congruence|congruence|done|done|].
    by rewrite orb_false_r.
  - destruct (stopped_end _ _ _ _ Hst E) as [Hpre Hcl]. rewrite Ha in Hpre.
    symmetry in Hpre. destruct (no_stop_unique _ _ _ _ H3 Htstop Hpre) as [-> ->].
    split_and!; [split; [done|split; [done|congruence]]|congruence|congruence|done..].
Qed.

Lemma KeywordToken_word word s Q :
  forallb word_char word = true -> Z.of_nat (length word) < 2 ^ 31 ->
  Q (keyword_lookup (keywords_of (source_dialect_ s)) word) s -> wp (KeywordToken word) Q s.
Proof.
  intros Hw Hlen HQ.
  assert (Hascii : Forall (fun x => 0 <= x < 128) word).
  { apply Forall_forall. intros x Hx. rewrite forallb_forall in Hw. apply Hw in Hx.
    destruct (word_char_flags x Hx) as ([] & _). unfold kMaxAscii in *. lia. }
  apply KeywordToken_spec; [intros _; by apply Forall_take|]. intros t Et.
  rewrite KeywordOrIdentifierToken_spec in Et; [|intros _; by apply Forall_take|done].
  by injection Et as <-.
Qed.

(** C3: the fast path of the identifier scanner is the keyword table: on an
    ASCII word followed by a character that ends it, [ScanIdentifierOrKeyword]
    returns the token the active dialect's keyword list gives the word
    ([IDENTIFIER] when it is none), collects exactly the word as the literal,
    and stops behind it. In particular the flag test that skips the keyword
    lookup never skips a keyword. *)
Theorem ScanIdentifierOrKeyword_token word tail s :
  scanner_ok s -> chars_left s = word ++ tail -> word <> [] -> word_ahead word tail ->
  Z.of_nat (length word) < 2 ^ 31 ->
  exists s', ScanIdentifierOrKeyword s =
      Ok (keyword_lookup (keywords_of (source_dialect_ s)) word, s') /\
    scanner_ok s' /\ lit s' = word /\ chars_left s' = tail /\ errors s' = errors s.
Proof.
  intros Hok Hl Hne [Hw Ht] Hlen. destruct word as [|c word]; [done|].
  cbn in Hw. apply andb_true_iff in Hw as [Hc Hw].
  destruct (word_char_flags c Hc) as (Hcr & _ & _ & _ & Hbs).
  assert (H : wp ScanIdentifierOrKeyword
    (fun t s' => t = keyword_lookup (keywords_of (source_dialect_ s)) (c :: word) /\
       scanner_ok s' /\ lit s' = c :: word /\ chars_left s' = tail /\ errors s' = errors s) s).
  2: { destruct (wp_ok _ _ _ H) as (t & s' & E & -> & H'). by exists s'. }
  unfold ScanIdentifierOrKeyword, ScanIdentifierOrKeywordInner. apply wp_bind.
  eapply wp_mono; [by apply StartLiteral_spec|]. intros [] s1 (Hcol1 & Hl1 & Ho1 & _).
  apply wp_bind, wp_gets. pose proof (chars_left_input _ _ (co_input _ _ Hcol1)) as Hcl1.
  rewrite Hl in Hcl1. destruct (chars_left_cons _ _ _ Hcl1) as (Hc1 & _). rewrite Hc1, Hbs.
  destruct (Z.leb_spec c kMaxAscii); [|lia]. cbn [negb].
  apply wp_bind. unfold kMaxAscii in *.
  eapply wp_mono; [apply AddLiteralAsciiChar_spec; [apply Hcol1|lia|done]|].
  intros [] s2 (Hcol2 & Hl2 & Ho2 & _).
  pose proof (chars_left_input _ _ (co_input _ _ Hcol2)) as Hcl2. rewrite Hcl1 in Hcl2.
  apply wp_bind. change (Z.shiftr (scan_flags_at c) 1) with (word_flags c []).
  eapply wp_mono.
  { apply (AdvanceUntil_word c word tail); [apply Hcol2|done|done|done|by rewrite Hl2, Hl1|done]. }
  intros flags s3 (Hcons & Hl3 & Ho3 & He3 & Hslow & Hcan). rewrite Hslow. cbn [negb].
  apply wp_bind, wp_gets, wp_bind, wp_gets.
  assert (Hchars : one_byte_literal (literal_chars (next s3)) = c :: word)
    by (rewrite one_byte_units by exact Ho3; exact Hl3).
  assert (Hd : source_dialect_ s3 = source_dialect_ s).
  { rewrite (lit_frame_dialect _ _ (proj1 (proj2 Hcons))),
      (lit_frame_dialect _ _ (co_frame _ _ Hcol2)). apply lit_frame_dialect, Hcol1. }
  assert (Hres : errors s3 = errors s)
    by (rewrite He3, (co_errors _ _ Hcol2); apply (co_errors _ _ Hcol1)).
  rewrite Hchars, Hd. destruct (bool_decide (source_dialect_ s = kJsEng) && negb (CanBeKeyword flags))
    eqn:Eskip.
  - apply andb_true_iff in Eskip as [Ed Ek]. apply bool_decide_eq_true in Ed.
    apply negb_true_iff in Ek. rewrite Hcan in Ek. apply wp_ret.
    rewrite Ed, ruled_out_word by done. split_and!; [done|apply Hcons|done|apply Hcons|done].
  - apply KeywordToken_word; [cbn; by rewrite Hc|done|]. rewrite Hd.
    split_and!; [done|apply Hcons|done|apply Hcons|done].
Qed.

(** ** String literals *)

(** The condition [ScanString_check] stops on. *)
Definition string_stop (c : Z) : bool :=
  if kMaxAscii <? c then IsStringLiteralLineTerminator c else MayTerminateString (scan_flags_at c).

(** A character that stands for itself in a string delimited by [quote]. *)
Definition string_char (quote c : Z) : bool :=
  negb (c =? quote) && negb (c =? "\"%uc) && negb (IsStringLiteralLineTerminator c).

Definition is_quote (c : Z) : bool := (c =? "'"%uc) || (c =? 34).

Lemma split_stop {A} (p : A -> bool) pre c r todo q tail :
  forallb (fun c => negb (p c)) pre = true -> p q = true ->
  pre ++ c :: r = todo ++ q :: tail ->
  (pre = todo /\ c = q /\ r = tail) \/
  exists todo', todo = pre ++ c :: todo' /\ r = todo' ++ q :: tail.
Proof.
  revert todo. induction pre as [|a pre IH]; intros [|b todo] Hp Hq E; cbn in *.
  - injection E as -> ->. by left.
  - injection E as -> ->. right. by exists todo.
  - injection E as -> E. by rewrite Hq in Hp.
  - injection E as -> E. apply andb_true_iff in Hp as [_ Hp].
    destruct (IH todo Hp Hq E) as [(-> & -> & ->)|(todo' & -> & ->)]; [by left|].
    right. by exists todo'.
Qed.

Lemma utf16_encode_unit c : is_uc16 c -> utf16_encode c = [c].
Proof.
  unfold is_uc16, utf16_encode, kMaxNonSurrogateCharCode. intros.
  by destruct (Z.leb_spec c 0xffff); [|lia].
Qed.

Lemma ScanString_check_text l pre c s :
  scanner_ok s -> is_uc16 c ->
  lit s = l ++ pre /\ forallb (fun x => negb (string_stop x)) pre = true ->
  wp (ScanString_check c tt)
    (fun r s' => collected s s' /\
       if fst r : bool then
         string_stop c = true /\ lit s' = l ++ pre /\
         forallb (fun x => negb (string_stop x)) pre = true
       else lit s' = l ++ (pre ++ [c]) /\
            forallb (fun x => negb (string_stop x)) (pre ++ [c]) = true) s.
Proof.
  intros Hok Hu [Hl Hp]. assert (Hcol : collected s s) by (by split; [|apply lit_frame_refl|..]).
  assert (E : ScanString_check (D:=D) c tt =
              if string_stop c then ret (true, tt) else AddLiteralChar c ;;; ret (false, tt)).
  { unfold ScanString_check, string_stop. by destruct (kMaxAscii <? c). }
  rewrite E. destruct (string_stop c) eqn:Es; [by apply wp_ret|].
  apply wp_bind. eapply wp_mono; [apply AddLiteralChar_spec; [done|unfold is_uc16 in Hu; lia]|].
  intros [] s' (Hcol' & Hl' & _). apply wp_ret. cbn [fst]. split; [done|].
  rewrite utf16_encode_unit in Hl' by done. rewrite Hl', Hl, <- app_assoc. split; [done|].
  rewrite forallb_app, Hp. cbn. by rewrite Es.
Qed.

Lemma ScanString_escapes_none s :
  c0_ s <> "\"%uc -> wp ScanString_escapes (fun ok s' => ok = true /\ s' = s) s.
Proof.
  intros Hne. unfold ScanString_escapes. apply (wp_scan_loop (fun _ s1 => s1 = s)); [done|].
  intros [] s1 ->. apply wp_bind, wp_gets. by destruct (Z.eqb_spec (c0_ s) "\"%uc).
Qed.

Lemma quote_stops q : is_quote q = true -> string_stop q = true /\ q <> "\"%uc /\ q <> kEndOfInput.
Proof. unfold is_quote. intros H. apply orb_true_iff in H as [H|H]; bool_to_prop; by subst. Qed.

(** One call of [AdvanceUntil] inside a string: up to the closing quote, or up
    to another character that may end a string. *)
Lemma AdvanceUntil_string quote l todo tail s :
  scanner_ok s -> c0_ s <> kEndOfInput -> string_stop quote = true -> lit s = l ->
  ahead s = todo ++ quote :: tail ->
  wp (AdvanceUntil ScanString_check tt)
    (fun _ s' => scanner_ok s' /\ (input_left s' < input_left s)%nat /\
       ((lit s' = l ++ todo /\ chars_left s' = quote :: tail) \/
        exists pre c todo', todo = pre ++ c :: todo' /\ lit s' = l ++ pre /\
          chars_left s' = c :: todo' ++ quote :: tail /\ is_uc16 c)) s.
Proof.
  intros Hok Hne Hqs Hl Ha. eapply wp_mono.
  { apply (AdvanceUntil_collect _
             (fun pre _ s3 => lit s3 = l ++ pre /\ forallb (fun x => negb (string_stop x)) pre = true)
             (fun pre c _ s3 => string_stop c = true /\ lit s3 = l ++ pre /\
                forallb (fun x => negb (string_stop x)) pre = true)); [done|done| |].
    - by rewrite app_nil_r.
    - intros pre c [] s3 H3 HJ Hu. apply ScanString_check_text; [apply H3|done|done]. }
  intros [] s3 (pre & s2' & Hcol3 & Hst & Hcase).
  destruct (stopped_collected _ _ _ _ Hne Hcol3 Hst) as (Hok3 & _ & _ & Hlit3 & _ & Hleft3).
  destruct Hcase as [(c & Ec & Hce & Hs & Hl3 & Hp)|(E & Hl3 & Hp)].
  2: { exfalso. destruct (stopped_end _ _ _ _ Hst E) as [Hpre _]. rewrite Ha in Hpre.
       rewrite <- Hpre, forallb_app in Hp. apply andb_true_iff in Hp as [_ Hp]. cbn in Hp.
       by rewrite Hqs in Hp. }
  pose proof (stopped_chars _ _ _ _ _ Hst Ec Hce) as Hsplit.
  assert (Hcl : chars_left s3 = c :: ahead s3).
  { unfold chars_left. rewrite Ec. by destruct (Z.eqb_spec c kEndOfInput). }
  rewrite Hcl, Ha in Hsplit. symmetry in Hsplit. split; [done|]. split; [done|]. rewrite Hcl.
  destruct (split_stop _ _ _ _ _ _ _ Hp Hqs Hsplit) as [(-> & -> & ->)|(todo' & -> & ->)].
  - left. split; [congruence|done].
  - right. exists pre, c, todo'. split_and!; [done|congruence|done|].
    destruct (st_stop _ _ _ _ Hst) as [(c' & r & _ & Hc' & _ & Hu)|(_ & Hc' & _)]; congruence.
Qed.

(** C36: a string literal without escapes is read verbatim: between two equal
    quotes, any characters but that quote, a backslash and a line terminator,
    the other quote and characters beyond Latin-1 included, scan to [STRING]
    with exactly those characters as the literal, and the scanner stops behind
    the closing quote. *)
Theorem ScanString_literal quote body tail s :
  scanner_ok s -> is_quote quote = true -> forallb (string_char quote) body = true ->
  chars_left s = quote :: body ++ quote :: tail ->
  exists s', ScanString s = Ok (Token.STRING, s') /\ scanner_ok s' /\ lit s' = body /\
    chars_left s' = tail.
Proof.
  intros Hok Hq Hbody Hl. destruct (quote_stops quote Hq) as (Hqs & Hqb & Hqe).
  assert (H : wp ScanString (fun t s' => t = Token.STRING /\ scanner_ok s' /\ lit s' = body /\
                chars_left s' = tail) s).
  2: { destruct (wp_ok _ _ _ H) as (t & s' & E & -> & H'). by exists s'. }
  unfold ScanString. apply wp_bind, wp_gets. destruct (chars_left_cons _ _ _ Hl) as (Hc0 & Ha & _).
  apply wp_bind. eapply wp_mono; [by apply StartLiteral_spec|]. intros [] s1 (Hcol & Hl1 & _).
  destruct (collected_ahead _ _ Hcol) as [Ha1 Hc1].
  apply (wp_scan_loop (fun _ s2 => scanner_ok s2 /\ c0_ s2 <> kEndOfInput /\
           exists l todo, body = l ++ todo /\ lit s2 = l /\ ahead s2 = todo ++ quote :: tail)).
  { split; [apply Hcol|]. split; [congruence|]. exists [], body. split; [done|]. split; [done|congruence]. }
  intros [] s2 (Hok2 & Hne2 & l & todo & -> & Hl2 & Ha2). apply wp_bind.
  eapply wp_mono; [by apply (AdvanceUntil_string quote l todo tail)|].
  intros [] s3 (Hok3 & Hleft3 & [[Hl3 Hcl3]|(pre & c & todo' & -> & Hl3 & Hcl3 & Hu)]);
    destruct (chars_left_cons _ _ _ Hcl3) as (Ec & Ha3 & Hce).
  - apply wp_bind. eapply wp_mono; [apply ScanString_escapes_none; congruence|].
    intros ok ? [-> ->]. cbn [negb]. apply wp_bind, wp_gets. rewrite Ec, Hc0, Z.eqb_refl.
    apply wp_bind, (wp_Advance_text quote tail); [done|done|].
    intros s4 H4 Hn4 _. apply wp_ret. split_and!; [done|apply H4| |apply H4].
    unfold lit in *. congruence.
  - rewrite !forallb_app, !andb_true_iff in Hbody. destruct Hbody as (_ & _ & Hbody). cbn in Hbody.
    apply andb_true_iff in Hbody as [Hc _]. unfold string_char in Hc.
    rewrite !andb_true_iff, !negb_true_iff, !Z.eqb_neq in Hc. destruct Hc as [[Hcq Hcb] Hct].
    apply wp_bind. eapply wp_mono; [apply ScanString_escapes_none; congruence|].
    intros ok ? [-> ->]. cbn [negb]. apply wp_bind, wp_gets. rewrite Ec, Hc0.
    destruct (Z.eqb_spec c quote); [done|]. destruct (Z.eqb_spec c kEndOfInput); [done|].
    rewrite Hct. cbn [orb].
    apply wp_bind. eapply wp_mono; [apply AddLiteralChar_spec; [done|apply Hu]|].
    intros [] s4 (Hcol4 & Hl4 & _). destruct (collected_ahead _ _ Hcol4) as [Ha4 Hc4].
    apply wp_ret. rewrite (same_input_left s3 s4 (co_input _ _ Hcol4)). split; [|done].
    split; [apply Hcol4|]. split; [congruence|]. exists (l ++ pre ++ [c]), todo'.
    split; [by rewrite <- !app_assoc|]. split; [|congruence].
    by rewrite Hl4, Hl3, utf16_encode_unit, <- app_assoc by done.
Qed.

(** ** Decimal integers *)

(** The value of a sequence of decimal digits. *)
Definition decimal_value (digits : list Z) : Z :=
  fold_left (fun v c => 10 * v + (c - "0"%uc)) digits 0.

(** A character that ends a decimal integer. *)
Definition number_end (c : Z) : bool :=
  negb (IsDecimalDigit c) && negb (c =? "_"%uc) && negb (c =? "."%uc) && negb (IsIdentifierStart c).

Lemma decimal_value_snoc l c : decimal_value (l ++ [c]) = 10 * decimal_value l + (c - "0"%uc).
Proof. unfold decimal_value. by rewrite fold_left_app. Qed.

Lemma uint64_step v d : uint64 (10 * uint64 v + d) = uint64 (10 * v + d).
Proof. unfold uint64, wrap. Z.to_euclidean_division_equations. lia. Qed.

Lemma digit_range c :
  within "0"%uc "9"%uc c = true -> 48 <= c <= 57 /\ IsDecimalDigit c = true.
Proof.
  intros H. assert (Hr : 48 <= c <= 57) by (unfold within in H; bool_to_prop; lia). split; [done|].
  rewrite IsDecimalDigit_spec; [done|]. unfold is_uc32. lia.
Qed.

Lemma decimal_value_range l :
  Forall (fun c => 48 <= c <= 57) l ->
  0 <= decimal_value l < 10 ^ Z.of_nat (length l).
Proof.
  induction l as [|c l IH] using rev_ind; intros H; [cbn; lia|].
  apply Forall_app in H as [H Hc]. apply Forall_cons_1 in Hc as [Hc _]. specialize (IH H).
  rewrite decimal_value_snoc, length_app. cbn [length].
  rewrite Nat2Z.inj_add, Z.pow_add_r by lia. change (10 ^ Z.of_nat 1) with 10. lia.
Qed.

(** What the scanner sees behind a decimal integer. *)
Lemma number_end_c0 s tail :
  scanner_ok s -> chars_left s = tail -> ends_at number_end tail ->
  IsDecimalDigit (c0_ s) = false /\ (c0_ s =? "_"%uc) = false /\ (c0_ s =? "."%uc) = false /\
  IsIdentifierStart (c0_ s) = false /\ (c0_ s =? "n"%uc) = false /\
  (AsciiAlphaToLower (c0_ s) =? "e"%uc) = false.
Proof.
  intros [_ Hi] Hl Ht. pose proof (input_ok_uc32 s Hi) as Hu.
  assert (H : IsDecimalDigit (c0_ s) = false /\ (c0_ s =? "_"%uc) = false /\
              (c0_ s =? "."%uc) = false /\ IsIdentifierStart (c0_ s) = false).
  { destruct tail as [|c r].
    - rewrite (chars_left_nil _ Hl). split_and!; [done..|]. apply IsIdentifierStart_eof.
    - destruct (chars_left_cons _ _ _ Hl) as (-> & _). cbn in Ht. unfold number_end in Ht.
      rewrite !andb_true_iff, !negb_true_iff in Ht. tauto. }
  destruct H as (H1 & H2 & H3 & H4). split_and!; [done..| |].
  - destruct (Z.eqb_spec (c0_ s) "n"%uc) as [E|]; [|done]. by rewrite E in H4.
  - rewrite AsciiAlphaToLower_letter by (done || lia).
    destruct (Z.eqb_spec (c0_ s) "e"%uc) as [E|]; [by rewrite E in H4|].
    destruct (Z.eqb_spec (c0_ s) ("e"%uc - 32)) as [E|]; [by rewrite E in H4|done].
Qed.

Lemma ScanDecimalAsSmi_digits digits tail s :
  scanner_ok s -> lit s = [] -> lit_one_byte s = true -> chars_left s = digits ++ tail ->
  forallb (within "0"%uc "9"%uc) digits = true -> ends_at number_end tail ->
  wp (ScanDecimalAsSmi 0 true)
    (fun v s' => v = Some (uint64 (decimal_value digits)) /\ scanner_ok s' /\
       lit_frame s s' /\ chars_left s' = tail /\ lit s' = digits /\ lit_one_byte s' = true) s.
Proof.
  intros Hok Hl0 Ho0 Hl Hd Ht. unfold ScanDecimalAsSmi, ScanDecimalAsSmiWithNumericSeparators.
  apply wp_bind.
  apply (wp_scan_loop (fun '(v, seen) s1 => scanner_ok s1 /\ lit_frame s s1 /\ seen = false /\
           exists l todo, digits = l ++ todo /\ v = uint64 (decimal_value l) /\ lit s1 = l /\
             lit_one_byte s1 = true /\ chars_left s1 = todo ++ tail)).
  { split_and!; [done|apply lit_frame_refl|done|]. by exists [], digits. }
  intros [v seen] s1 (Hok1 & Hf1 & -> & l & todo & -> & -> & Hl1 & Ho1 & Hcl1).
  apply wp_bind, wp_gets. destruct todo as [|c todo].
  - destruct (number_end_c0 s1 tail Hok1 Hcl1 Ht) as (E1 & E2 & _). rewrite E1, E2. cbn [negb orb].
    apply wp_ret, wp_ret. rewrite app_nil_r. done.
  - rewrite forallb_app, andb_true_iff in Hd. destruct Hd as [_ Hd]. cbn in Hd.
    apply andb_true_iff in Hd as [Hc Hd]. destruct (chars_left_cons _ _ _ Hcl1) as (Hc1 & _).
    apply digit_range in Hc as [Hr Hc]. rewrite Hc1, Hc. cbn [negb orb]. destruct (Z.eqb_spec c "_"%uc); [lia|].
    apply wp_bind, (wp_Advance_text c (todo ++ tail)); [done|done|]. intros s2 (Hok2 & Hf2 & Hcl2) Hn2 _.
    apply wp_bind. eapply wp_mono; [apply AddLiteralChar_spec; [done|lia]|].
    intros [] s3 (Hcol3 & Hl3 & Ho3 & _). apply wp_ret.
    pose proof (chars_left_input _ _ (co_input _ _ Hcol3)) as Hcl3. rewrite Hcl2 in Hcl3.
    split; [|rewrite <- !chars_left_length, Hcl3, Hcl1; cbn; lia].
    split_and!; [apply Hcol3| |done|].
    { eapply lit_frame_trans; [done|]. eapply lit_frame_trans; [done|apply Hcol3]. }
    exists (l ++ [c]), todo. unfold lit, lit_one_byte in *. rewrite Hn2 in Hl3, Ho3.
    split_and!; [by rewrite <- app_assoc| | | |done].
    + by rewrite uint64_step, decimal_value_snoc.
    + by rewrite Hl3, Hl1, utf16_encode_unit by (unfold is_uc16; lia).
    + rewrite Ho3, Ho1. unfold kLatin1MaxChar. cbn. apply Z.leb_le. lia.
Qed.

Lemma ScanDecimalDigits_none s :
  IsDecimalDigit (c0_ s) = false -> (c0_ s =? "_"%uc) = false ->
  wp (ScanDecimalDigits true) (fun ok s' => ok = true /\ s' = s) s.
Proof.
  intros E1 E2. unfold ScanDecimalDigits, ScanDigitsWithNumericSeparators.
  apply wp_bind, wp_gets. cbn [andb]. apply wp_bind.
  apply (wp_scan_loop (fun seen s1 => seen = false /\ s1 = s)); [done|]. intros seen s1 [-> ->].
  apply wp_bind, wp_gets. rewrite E1, E2. by apply wp_ret, wp_ret.
Qed.

Lemma ScanNumber_suffix_none start_pos s tail :
  scanner_ok s -> chars_left s = tail -> ends_at number_end tail ->
  wp (ScanNumber_suffix start_pos DECIMAL false) (fun t s' => t = Token.NUMBER /\ s' = s) s.
Proof.
  intros Hok Hl Ht. destruct (number_end_c0 s tail Hok Hl Ht) as (E1 & E2 & E3 & E4 & E5 & E6).
  unfold ScanNumber_suffix. apply wp_bind, wp_gets. rewrite E5, E6. cbn [andb].
  apply wp_bind, wp_ret, wp_bind, wp_gets. rewrite E1, E4. cbn [orb].
  apply wp_bind, wp_gets, wp_bind. by apply wp_ret, wp_ret.
Qed.

(** The decimal part of a number of which the digits have just been read. *)
Lemma ScanNumber_decimal_digits start_pos digits tail s :
  scanner_ok s -> lit s = [] -> lit_one_byte s = true -> chars_left s = digits ++ tail ->
  forallb (within "0"%uc "9"%uc) digits = true -> ends_at number_end tail ->
  wp (ScanNumber_decimal start_pos DECIMAL true)
    (fun r s' => scanner_ok s' /\ chars_left s' = tail /\ lit s' = digits /\
       if (Z.of_nat (length digits) <=? 10) && (decimal_value digits <=? kSmiMaxValue)
       then r = inr Token.SMI /\ smi_value_ (next s') = decimal_value digits
       else r = inl false) s.
Proof.
  intros Hok Hl0 Ho0 Hl Hd Ht. unfold ScanNumber_decimal. cbn [is_leading_zero kind_index negb].
  change (negb (4 =? 5)) with true. apply wp_bind, wp_bind.
  eapply wp_mono; [by apply (ScanDecimalAsSmi_digits digits tail)|].
  intros v s1 (-> & Hok1 & Hf1 & Hcl1 & Hl1 & Ho1). apply wp_bind, wp_gets, wp_bind, wp_gets.
  destruct (number_end_c0 s1 tail Hok1 Hcl1 Ht) as (E1 & E2 & E3 & E4 & _).
  rewrite one_byte_units by exact Ho1. fold (lit s1). rewrite Hl1, E3, E4. cbn [negb].
  rewrite !andb_true_r.
  assert (Hval : Z.of_nat (length digits) <= 10 -> uint64 (decimal_value digits) = decimal_value digits
                 /\ 0 <= decimal_value digits < 2 ^ 64).
  { intros Hlen. assert (Hr : 0 <= decimal_value digits < 10 ^ Z.of_nat (length digits)).
    { apply decimal_value_range, Forall_forall. intros c Hc. apply digit_range.
      rewrite forallb_forall in Hd. auto. }
    assert (10 ^ Z.of_nat (length digits) <= 10 ^ 10) by (apply Z.pow_le_mono_r; lia).
    split; [|lia]. apply wrap_small. lia. }
  destruct (Z.leb_spec (Z.of_nat (length digits)) 10) as [Hlen|Hlen]; cbn [andb].
  1: destruct (Hval Hlen) as [-> Hr]; destruct (Z.leb_spec (decimal_value digits) kSmiMaxValue).
  - apply wp_bind, wp_modify, wp_bind, wp_gets, wp_bind, wp_ret, wp_ret, wp_ret.
    assert (Hsmi : kSmiMaxValue < 2 ^ 32) by (unfold kSmiMaxValue; by destruct SmiValuesAre31Bits).
    split_and!; [apply update_next_collected; [done|by intros ? []|done]|done| |done|].
    + unfold lit. by rewrite next_update_next.
    + rewrite next_update_next. cbn. apply uint32_small. lia.
  - apply wp_ret, wp_bind. eapply wp_mono; [by apply ScanDecimalDigits_none|].
    intros ok ? [-> ->]. cbn [negb]. apply wp_bind, wp_gets. rewrite E3. by apply wp_ret.
  - apply wp_ret, wp_bind. eapply wp_mono; [by apply ScanDecimalDigits_none|].
    intros ok ? [-> ->]. cbn [negb]. apply wp_bind, wp_gets. rewrite E3. by apply wp_ret.
Qed.

(** C37: a decimal integer is read exactly: digits that do not start with a zero,
    up to a character that ends a number, scan to [SMI] with their value when
    they are at most ten and the value is a small integer, and to [NUMBER]
    otherwise, with the digits as the literal in both cases; the 64-bit
    accumulator may wrap around on longer literals but its value is then not
    used. *)
Theorem ScanNumber_decimal_integer digits tail s :
  scanner_ok s -> chars_left s = digits ++ tail ->
  forallb (within "0"%uc "9"%uc) digits = true -> hd "0"%uc digits <> "0"%uc ->
  ends_at number_end tail ->
  exists t s', ScanNumber false s = Ok (t, s') /\ scanner_ok s' /\ lit s' = digits /\
    chars_left s' = tail /\
    if (Z.of_nat (length digits) <=? 10) && (decimal_value digits <=? kSmiMaxValue)
    then t = Token.SMI /\ smi_value_ (next s') = decimal_value digits
    else t = Token.NUMBER.
Proof.
  intros Hok Hl Hd Hz Ht.
  assert (H : wp (ScanNumber false) (fun t s' => scanner_ok s' /\ lit s' = digits /\
    chars_left s' = tail /\
    if (Z.of_nat (length digits) <=? 10) && (decimal_value digits <=? kSmiMaxValue)
    then t = Token.SMI /\ smi_value_ (next s') = decimal_value digits
    else t = Token.NUMBER) s).
  2: { destruct (wp_ok _ _ _ H) as (t & s' & E & H'). by exists t, s'. }
  unfold ScanNumber. apply wp_bind. eapply wp_mono; [by apply StartLiteral_spec|].
  intros [] s1 (Hcol1 & Hl1 & Ho1 & _). pose proof (chars_left_input _ _ (co_input _ _ Hcol1)) as Hcl1.
  rewrite Hl in Hcl1. apply wp_bind, wp_gets, wp_bind, wp_gets. cbn [negb].
  assert (Hc1 : (c0_ s1 =? "0"%uc) = false).
  { destruct digits as [|c r]; [done|]. destruct (chars_left_cons _ _ _ Hcl1) as (-> & _).
    by apply Z.eqb_neq. }
  rewrite Hc1. apply wp_bind, wp_ret. change (IsDecimalNumberKind DECIMAL) with true. cbv iota.
  apply wp_bind. eapply wp_mono.
  { apply (ScanNumber_decimal_digits _ digits tail); [apply Hcol1|done..]. }
  intros r s2 (Hok2 & Hcl2 & Hl2 & Hr). destruct (_ && _).
  - destruct Hr as [-> Hv]. by apply wp_ret.
  - subst r. eapply wp_mono; [by apply (ScanNumber_suffix_none _ _ tail)|]. by intros t ? [-> ->].
Qed.
End Lexical.

(** ** Whole sources *)

(** The first token of a source. *)
Definition first_token {U : UnicodeData} {C : BuildConfig} (chars : list Z) (d : SourceDialect) :
    option Token.Value :=
  match Initialize (Scanner_new (sample_stream chars) (sample_flags d)) with
  | Ok (_, s) => Some (token (next s))
  | _ => None
  end.

#[local] Existing Instance Latin1Data.
#[local] Existing Instance Latin1DataOK.
#[local] Existing Instance DefaultConfig.

(** A scanner in front of [chars], before its first token. *)
Lemma sample_start chars d :
  forallb (fun c => (0 <=? c) && (c <? 2 ^ 16)) chars = true ->
  exists s : SampleScanner, scanner_ok s /\ chars_left s = chars /\ source_dialect_ s = d.
Proof.
  intros H. destruct (sample_stream_spec chars H) as [Hst Hr].
  destruct (wp_ok _ _ _ (Init_spec (sample_stream chars) (sample_flags d) Hst (Z.le_refl 0) eq_refl))
    as ([] & s & _ & Hs).
  exists s. split; [apply (st_ok _ _ _ Hs)|]. split; [|apply (st_dialect _ _ _ Hs)].
  unfold chars_left. rewrite (st_c0 _ _ _ Hs), (st_ahead _ _ _ Hs), Hr.
  destruct chars as [|c r]; [done|]. cbn. cbn in H. bool_to_prop.
  by destruct (Z.eqb_spec c kEndOfInput) as [->|].
Qed.

Lemma ScanIdentifierOrKeyword_token_witness :
  exists (s : SampleScanner) s', ScanIdentifierOrKeyword s = Ok (Token.WHILE, s').
Proof.
  destruct (sample_start (bytes_of "mientras (x)") kJsSpa eq_refl) as (s & Hok & Hl & Hd).
  assert (Hw : word_ahead (bytes_of "mientras") (bytes_of " (x)")) by (split; reflexivity).
  assert (Hne : bytes_of "mientras" <> []) by discriminate.
  assert (Hlen : Z.of_nat (length (bytes_of "mientras")) < 2 ^ 31) by (vm_compute; reflexivity).
  destruct (ScanIdentifierOrKeyword_token (bytes_of "mientras") (bytes_of " (x)") s Hok Hl Hne Hw Hlen)
    as (s' & E & _).
  rewrite Hd in E. exists s, s'. exact E.
Defined.

Lemma ScanString_literal_witness :
  exists (s : SampleScanner) s', ScanString s = Ok (Token.STRING, s') /\ lit s' = bytes_of "it's".
Proof.
  destruct (sample_start (34 :: bytes_of "it's" ++ 34 :: bytes_of " + x") kJsEng eq_refl)
    as (s & Hok & Hl & _).
  destruct (ScanString_literal 34 (bytes_of "it's") (bytes_of " + x") s Hok eq_refl eq_refl Hl)
    as (s' & E & _ & Hlit & _).
  exists s, s'. split; [exact E|exact Hlit].
Defined.

Lemma ScanNumber_decimal_integer_witness :
  exists (s : SampleScanner) s', ScanNumber false s = Ok (Token.SMI, s') /\ smi_value_ (next s') = 1984.
Proof.
  destruct (sample_start (bytes_of "1984;") kJsEng eq_refl) as (s & Hok & Hl & _).
  assert (Hz : hd "0"%uc (bytes_of "1984") <> "0"%uc) by discriminate.
  destruct (ScanNumber_decimal_integer (bytes_of "1984") (bytes_of ";") s Hok Hl eq_refl Hz eq_refl)
    as (t & s' & E & _ & _ & _ & Hr).
  destruct Hr as [Ht Hv]. subst t. exists s, s'. split; [exact E|exact Hv].
Defined.




#[local] Opaque first_token.



#[local] Transparent first_token.

(** [-->] ends the line as a comment on every line but the first: at the
    beginning of the source it is scanned as [--] followed by [>], because
    [Scan] clears the line-terminator flag that [Initialize] has set. *)
Theorem html_close_comment_at_start d :
  first_token (bytes_of "--> x") d = Some Token.DEC /\
  first_token (0x0A :: bytes_of "--> x") d = Some Token.EOS.
Proof. destruct d; vm_compute; done. Qed.

(** Latin-1 and the letters of Latin Extended-A. *)
Definition LatinExtendedData : UnicodeData := {|
  u_is_ID_START c := u_is_ID_START (UnicodeData:=Latin1Data) c || within 0x100 0x17f c;
  u_is_ID_CONTINUE c := u_is_ID_CONTINUE (UnicodeData:=Latin1Data) c || within 0x100 0x17f c;
  u_is_SPACE_SEPARATOR c := u_is_SPACE_SEPARATOR (UnicodeData:=Latin1Data) c
|}.

(** The flags scanned behind the pattern [/a/]. *)
Definition regexp_flags (flags : list Z) : option (option Z) :=
  let chars := bytes_of "/a/" ++ flags in
  match Initialize (U:=LatinExtendedData)
          (Scanner_new (sample_stream chars) (sample_flags kJsEng)) with
  | Ok (_, s) =>
      match (ScanRegExpPattern ;;; ScanRegExpFlags (U:=LatinExtendedData)) s with
      | Ok (f, _) => Some f
      | _ => None
      end
  | _ => None
  end.

(** The regular-expression flags are read modulo 256: the character U+0167
    is accepted as the flag [g], because the look-ahead is narrowed to a [char]
    before the flag is looked up; a letter with no flag in its low byte is
    rejected. *)
Theorem regexp_flags_modulo_256 :
  regexp_flags (bytes_of "g") = Some (Some (flag_bit kGlobal)) /\
  regexp_flags [0x167] = Some (Some (flag_bit kGlobal)) /\
  regexp_flags [0x141] = Some None /\ regexp_flags (bytes_of "gg") = Some None.
Proof. vm_compute. done. Qed.
