(* ===== verification/Utf8.v ===== *)
(** * UTF-8

    Models the table-driven decoder of [src/third_party/utf8-decoder/], the class
    [Utf8] of [src/strings/unicode.h], [unicode-inl.h] and [unicode.cc] with its
    incremental decoding and its encoder, and [NonAsciiStart] of
    [src/strings/unicode-decoder.h]. A pointer to bytes is the list of the bytes
    from it on; a byte is an integer below 256. *)

From S2P Require Import Prelude.
From S2P Require Import CharPredicates.
From stdpp Require Import base list numbers.
From Stdlib Require Import ZArith Lia Bool.

Local Open Scope Z_scope.

Definition is_byte (b : Z) : Prop := 0 <= b < 256.

(** ** The decoder's tables *)

Module Utf8DfaDecoder.

Definition kReject : Z := 0.
Definition kAccept : Z := 12.
Definition kTwoByte : Z := 24.
Definition kThreeByte : Z := 36.
Definition kThreeByteLowMid : Z := 48.
Definition kFourByte : Z := 60.
Definition kFourByteLow : Z := 72.
Definition kThreeByteHigh : Z := 84.
Definition kFourByteMidHigh : Z := 96.

Definition transitions : list Z :=
  repeat 0 128 ++ repeat 1 16 ++ repeat 2 16 ++ repeat 3 32 ++
  [9; 9] ++ repeat 4 30 ++
  [10] ++ repeat 5 12 ++ [6; 5; 5] ++
  [11; 7; 7; 7; 8] ++ repeat 9 11.

Definition states : list Z :=
  [ 0;  0;  0;  0;  0;  0;  0;  0;  0;  0; 0;  0;
    12; 0;  0;  0;  24; 36; 48; 60; 72; 0; 84; 96;
    0;  12; 12; 12; 0;  0;  0;  0;  0;  0; 0;  0;
    0;  24; 24; 24; 0;  0;  0;  0;  0;  0; 0;  0;
    0;  24; 24; 0;  0;  0;  0;  0;  0;  0; 0;  0;
    0;  36; 36; 36; 0;  0;  0;  0;  0;  0; 0;  0;
    0;  36; 0;  0;  0;  0;  0;  0;  0;  0; 0;  0;
    0;  0;  0;  24; 0;  0;  0;  0;  0;  0; 0;  0;
    0;  0;  36; 36; 0;  0;  0;  0;  0;  0; 0;  0 ].

(** The new state and buffer. *)
Definition Decode (byte state buffer : Z) : Z * Z :=
  let type := nth (Z.to_nat byte) transitions 0 in
  (nth (Z.to_nat (state + type)) states 0,
   Z.lor (uint32 (Z.shiftl buffer 6)) (Z.land byte (Z.shiftr 0x7F (Z.shiftr type 1)))).

End Utf8DfaDecoder.
Import Utf8DfaDecoder.

(** ** Decoding *)

Definition kBadChar : Z := 0xFFFD.
Definition kBufferEmpty : Z := 0.
Definition kIncomplete : Z := 0xFFFFFFFC.
Definition kMaxOneByteChar : Z := 0x7f.
Definition kMaxTwoByteChar : Z := 0x7ff.
Definition kMaxThreeByteChar : Z := 0xffff.
Definition kSizeOfUnmatchedSurrogate : nat := 3.
Definition kNoPreviousCharacter : Z := -1.

(** The character or [kIncomplete], the cursor, the state and the buffer. *)
Definition ValueOfIncremental (cursor : list Z) (state buffer : Z) : Res (Z * list Z * Z * Z) :=
  match cursor with
  | [] => Undefined
  | next :: cursor' =>
      if (next <=? kMaxOneByteChar) && (state =? kAccept) then
        if buffer =? 0 then Ok (next, cursor', state, buffer) else Undefined
      else
        let '(new_state, new_buffer) := Decode next state buffer in
        if new_state =? kAccept then Ok (new_buffer, cursor', new_state, 0)
        else if new_state =? kReject then
          Ok (kBadChar, if negb (state =? kAccept) then cursor else cursor', kAccept, 0)
        else Ok (kIncomplete, cursor', new_state, new_buffer)
  end.

Definition ValueOfIncrementalFinish (state : Z) : Res (Z * Z) :=
  if state =? kAccept then Ok (kBufferEmpty, state)
  else if kAccept <? state then Ok (kBadChar, kAccept) else Undefined.

(** [do ... while (str < end && t == kIncomplete)] *)
Fixpoint CalculateValue_loop (fuel : nat) (str : list Z) (state buffer : Z) : Res (Z * list Z * Z) :=
  match fuel with
  | O => OutOfFuel
  | S fuel =>
      match ValueOfIncremental str state buffer with
      | Ok (t, str, state, buffer) =>
          if (0 <? length str)%nat && (t =? kIncomplete) then CalculateValue_loop fuel str state buffer
          else Ok (t, str, state)
      | OutOfFuel => OutOfFuel
      | Undefined => Undefined
      end
  end.

(** The character and the number of bytes it takes. *)
Definition CalculateValue (str : list Z) : Res (Z * Z) :=
  match str with
  | [] => Undefined
  | first :: _ =>
      if kMaxOneByteChar <? first then
        match CalculateValue_loop (S (length str)) str kAccept 0 with
        | Ok (t, rest, state) =>
            Ok (if state =? kAccept then t else kBadChar, Z.of_nat (length str) - Z.of_nat (length rest))
        | OutOfFuel => OutOfFuel
        | Undefined => Undefined
        end
      else Undefined
  end.

Definition ValueOf (bytes : list Z) : Res (Z * Z) :=
  match bytes with
  | [] => Ok (kBadChar, 0)
  | first :: _ => if first <=? kMaxOneByteChar then Ok (first, 1) else CalculateValue bytes
  end.

Fixpoint ValidateEncoding_loop (bytes : list Z) (state throw_away : Z) : Z :=
  match bytes with
  | [] => state
  | b :: bytes =>
      if negb (state =? kReject) then
        let '(state, throw_away) := Decode b state throw_away in ValidateEncoding_loop bytes state throw_away
      else state
  end.

Definition ValidateEncoding (bytes : list Z) : bool := ValidateEncoding_loop bytes kAccept 0 =? kAccept.

Definition IsValidCharacter (c : Z) : bool :=
  (c <? 0xD800) || ((0xE000 <=? c) && (c <? 0xFDD0)) ||
  ((0xFDEF <? c) && (c <=? 0x10FFFF) && negb (Z.land c 0xFFFE =? 0xFFFE) && negb (c =? kBadChar)).

(** ** Encoding *)

Definition kMask : Z := Z.lnot (Z.shiftl 1 6).

Definition EncodeOneByte (c : Z) : list Z :=
  if c <=? kMaxOneByteChar then [c]
  else [uint8 (Z.lor 0xC0 (Z.shiftr c 6)); uint8 (Z.lor 0x80 (Z.land c kMask))].

(** The bytes of a code unit or a code point that is not the trail of a pair. *)
Definition encode_single (c : Z) (replace_invalid : bool) : list Z :=
  if c <=? kMaxOneByteChar then [uint8 c]
  else if c <=? kMaxTwoByteChar then [uint8 (Z.lor 0xC0 (Z.shiftr c 6)); uint8 (Z.lor 0x80 (Z.land c kMask))]
  else if c <=? kMaxThreeByteChar then
    let c := if replace_invalid && (IsLeadSurrogate c || IsTrailSurrogate c) then kBadChar else c in
    [uint8 (Z.lor 0xE0 (Z.shiftr c 12)); uint8 (Z.lor 0x80 (Z.land (Z.shiftr c 6) kMask)); uint8 (Z.lor 0x80 (Z.land c kMask))]
  else
    [uint8 (Z.lor 0xF0 (Z.shiftr c 18)); uint8 (Z.lor 0x80 (Z.land (Z.shiftr c 12) kMask));
     uint8 (Z.lor 0x80 (Z.land (Z.shiftr c 6) kMask)); uint8 (Z.lor 0x80 (Z.land c kMask))].

(** [written] is what stands in front of [str]. The trail of a pair overwrites
    the three bytes its lead was given. *)
Definition Encode (written : list Z) (c previous : Z) (replace_invalid : bool) : list Z :=
  if (kMaxTwoByteChar <? c) && (c <=? kMaxThreeByteChar) && (IsLeadSurrogate previous && IsTrailSurrogate c) then
    take (length written - kSizeOfUnmatchedSurrogate) written ++
    encode_single (CombineSurrogatePair previous c) replace_invalid
  else written ++ encode_single c replace_invalid.

Definition Utf8_Length (c previous : Z) : Z :=
  if c <=? kMaxOneByteChar then 1
  else if c <=? kMaxTwoByteChar then 2
  else if c <=? kMaxThreeByteChar then if IsLeadSurrogate previous && IsTrailSurrogate c then 1 else 3
  else 4.

(** ** NonAsciiStart *)

Section NonAsciiStart.
(** The size of a word, and the address of the first byte. *)
Context (kIntptrSize : nat).

(** A word from its bytes in memory. *)
Definition load_word (bytes : list Z) : Z := fold_right (fun b w => b + 256 * w) 0 bytes.

Definition non_one_byte_mask : Z := (2 ^ (8 * Z.of_nat kIntptrSize) - 1) / 0xFF * 0x80.

(** The number of bytes up to the first that is not ASCII. *)
Fixpoint check_bytes (chars : list Z) : nat :=
  match chars with
  | [] => O
  | c :: chars => if kMaxOneByteChar <? c then O else S (check_bytes chars)
  end.

(** The bytes up to the first aligned address, the whole words behind them, and
    the bytes that are left: each part is checked only when all before it is
    ASCII. *)
Fixpoint check_words (fuel : nat) (chars : list Z) : nat :=
  match fuel with
  | O => O
  | S fuel =>
      if (kIntptrSize <=? length chars)%nat then
        if Z.land (load_word (take kIntptrSize chars)) non_one_byte_mask =? 0
        then (kIntptrSize + check_words fuel (drop kIntptrSize chars))%nat
        else O
      else check_bytes chars
  end.

Definition NonAsciiStart (address : Z) (chars : list Z) : nat :=
  if (kIntptrSize <=? length chars)%nat then
    let unaligned := Z.to_nat ((- address) mod Z.of_nat kIntptrSize) in
    let checked := check_bytes (take unaligned chars) in
    if (checked <? unaligned)%nat then checked
    else (unaligned + check_words (S (length chars)) (drop unaligned chars))%nat
  else check_bytes chars.

End NonAsciiStart.

(** ** The tables as conditions *)

Lemma bytes_check (p : Z -> bool) : forallb p (seqZ 0 256) = true -> forall b, is_byte b -> p b = true.
Proof.
  intros H b Hb. rewrite forallb_forall in H. apply H, list_elem_of_In, elem_of_seqZ. unfold is_byte in Hb. lia.
Qed.

Definition next (state b : Z) : Z := fst (Decode b state 0).
Definition payload (b : Z) : Z := snd (Decode b 0 0).

Lemma Decode_eq b state buffer :
  Decode b state buffer = (next state b, Z.lor (uint32 (Z.shiftl buffer 6)) (payload b)).
Proof. reflexivity. Qed.

Definition between (lo hi b : Z) : bool := (lo <=? b) && (b <=? hi).

Lemma next_accept b : is_byte b ->
  next kAccept b =
    if b <=? 0x7F then kAccept
    else if between 0xC2 0xDF b then kTwoByte
    else if b =? 0xE0 then kThreeByteHigh
    else if b =? 0xED then kThreeByteLowMid
    else if between 0xE1 0xEF b then kThreeByte
    else if b =? 0xF0 then kFourByteMidHigh
    else if between 0xF1 0xF3 b then kFourByte
    else if b =? 0xF4 then kFourByteLow
    else kReject.
Proof.
  intros Hb. apply Z.eqb_eq.
  refine (bytes_check (fun b => next kAccept b =? _) _ b Hb). vm_compute. reflexivity.
Qed.

(** A state behind a lead byte: the continuation bytes it takes, and the state
    they lead to. *)
Definition continuation (state : Z) : Z * Z * Z :=
  if state =? kTwoByte then (0x80, 0xBF, kAccept)
  else if state =? kThreeByte then (0x80, 0xBF, kTwoByte)
  else if state =? kThreeByteLowMid then (0x80, 0x9F, kTwoByte)
  else if state =? kThreeByteHigh then (0xA0, 0xBF, kTwoByte)
  else if state =? kFourByte then (0x80, 0xBF, kThreeByte)
  else if state =? kFourByteLow then (0x80, 0x8F, kThreeByte)
  else (0x90, 0xBF, kThreeByte).

Definition pending_states : list Z :=
  [kTwoByte; kThreeByte; kThreeByteLowMid; kThreeByteHigh; kFourByte; kFourByteLow; kFourByteMidHigh].

Lemma next_pending state b : In state pending_states -> is_byte b ->
  next state b = let '(lo, hi, state') := continuation state in if between lo hi b then state' else kReject.
Proof.
  intros Hs Hb. apply Z.eqb_eq. revert b Hb.
  refine (bytes_check (fun b => next state b =? _) _).
  cbn in Hs. repeat destruct Hs as [<-|Hs]; [vm_compute; reflexivity..|done].
Qed.

Lemma next_reject b : is_byte b -> next kReject b = kReject.
Proof.
  intros Hb. apply Z.eqb_eq. refine (bytes_check (fun b => next kReject b =? kReject) _ b Hb). vm_compute. reflexivity.
Qed.

Lemma payload_eq b : is_byte b ->
  payload b =
    if b <=? 0x7F then b
    else if b <=? 0xBF then b - 0x80
    else if b <=? 0xC1 then b - 0xC0
    else if b <=? 0xDF then b - 0xC0
    else if b <=? 0xEF then b - 0xE0
    else if b <=? 0xF4 then b - 0xF0
    else Z.land b 7.
Proof.
  intros Hb. apply Z.eqb_eq. refine (bytes_check (fun b => payload b =? _) _ b Hb). vm_compute. reflexivity.
Qed.

(** Every state the decoder can be in. *)
Lemma next_states state b : In state (kAccept :: pending_states) -> is_byte b ->
  In (next state b) (kReject :: kAccept :: pending_states).
Proof.
  intros Hs Hb. destruct Hs as [<-|Hs].
  - rewrite next_accept by done. repeat case_match; cbn; auto 12.
  - rewrite next_pending by done. cbn in Hs. repeat destruct Hs as [<-|Hs]; [..|done]; cbn; case_match; auto 12.
Qed.

(** Shifting a payload in. *)
Lemma shift_in buffer p : 0 <= buffer < 2 ^ 26 -> 0 <= p < 64 -> Z.lor (uint32 (Z.shiftl buffer 6)) p = buffer * 64 + p.
Proof.
  intros Hb Hp. rewrite Z.shiftl_mul_pow2 by lia. unfold uint32. rewrite wrap_small by lia.
  by rewrite lor_add by lia.
Qed.

(** ** The encoder in numbers *)

Definition is_code_point (c : Z) : Prop := 0 <= c <= 0x10FFFF.
Definition is_scalar (c : Z) : Prop := 0 <= c < 0xD800 \/ 0xE000 <= c <= 0x10FFFF.

Lemma scalar_code_point c : is_scalar c -> is_code_point c.
Proof. unfold is_scalar, is_code_point. lia. Qed.

Lemma tail_byte x : 0 <= x -> uint8 (Z.lor 0x80 (Z.land x kMask)) = 0x80 + x mod 64.
Proof.
  intros Hx. assert (Hr : is_byte (x mod 256)) by (apply Z.mod_pos_bound; lia).
  assert (E1 : x mod 64 = x mod 256 mod 64) by (symmetry; apply Z.mod_mod_divide; by exists 4).
  assert (E2 : uint8 (Z.lor 0x80 (Z.land x kMask)) = uint8 (Z.lor 0x80 (Z.land (x mod 256) kMask))).
  { unfold uint8, wrap. change 256 with (2 ^ 8). rewrite <- !Z.land_ones, !Z.land_lor_distr_l by lia. f_equal.
    rewrite <- !Z.land_assoc, (Z.land_comm kMask), !Z.land_assoc. f_equal. by rewrite <- Z.land_assoc. }
  rewrite E1, E2. apply Z.eqb_eq.
  refine (bytes_check (fun r => uint8 (Z.lor 0x80 (Z.land r kMask)) =? 0x80 + r mod 64) _ _ Hr). vm_compute. reflexivity.
Qed.

Lemma lead_byte a s y : 0 <= a -> 0 <= s -> 0 <= y < 2 ^ s -> (a + 1) * 2 ^ s <= 256 -> uint8 (Z.lor (a * 2 ^ s) y) = a * 2 ^ s + y.
Proof. intros Ha Hs Hy Hl. rewrite lor_add by lia. apply wrap_small. nia. Qed.

Lemma encode_numbers c : 0 <= c <= 0x10FFFF ->
  encode_single c false =
    if c <=? 0x7F then [c]
    else if c <=? 0x7FF then [0xC0 + c / 64; 0x80 + c mod 64]
    else if c <=? 0xFFFF then [0xE0 + c / 4096; 0x80 + c / 64 mod 64; 0x80 + c mod 64]
    else [0xF0 + c / 2 ^ 18; 0x80 + c / 4096 mod 64; 0x80 + c / 64 mod 64; 0x80 + c mod 64].
Proof.
  intros Hc. unfold encode_single, kMaxOneByteChar, kMaxTwoByteChar, kMaxThreeByteChar. cbn [andb].
  rewrite !Z.shiftr_div_pow2 by lia. change (2 ^ 6) with 64. change (2 ^ 12) with 4096.
  rewrite !tail_byte by (try apply Z.div_pos; lia).
  destruct (Z.leb_spec c 0x7F); [unfold uint8; by rewrite wrap_small by lia|].
  destruct (Z.leb_spec c 0x7FF); [f_equal; apply (lead_byte 6 5); div_lia|].
  destruct (Z.leb_spec c 0xFFFF); [f_equal; apply (lead_byte 14 4); div_lia|].
  f_equal. apply (lead_byte 30 3); div_lia.
Qed.

(** ** Validation *)

Definition run (bytes : list Z) (state : Z) : Z := fold_left next bytes state.

Lemma run_cons b bytes state : run (b :: bytes) state = run bytes (next state b).
Proof. done. Qed.

Lemma run_app bs cs state : run (bs ++ cs) state = run cs (run bs state).
Proof. apply fold_left_app. Qed.

Lemma run_reject bytes : Forall is_byte bytes -> run bytes kReject = kReject.
Proof. induction 1 as [|b bytes Hb _ IH]; [done|]. by rewrite run_cons, next_reject. Qed.

Lemma ValidateEncoding_run bytes state buffer :
  Forall is_byte bytes -> ValidateEncoding_loop bytes state buffer = run bytes state.
Proof.
  intros Hb. revert state buffer. induction Hb as [|b bytes Hb Hbs IH]; intros state buffer; [done|].
  cbn [ValidateEncoding_loop]. rewrite run_cons. destruct (Z.eqb_spec state kReject) as [->|Hs]; cbn [negb].
  - by rewrite next_reject, run_reject.
  - rewrite Decode_eq. by rewrite IH.
Qed.

(** A sequence that has begun goes on with a byte its state takes. *)
Lemma run_pending state bytes :
  In state pending_states -> Forall is_byte bytes -> run bytes state = kAccept ->
  exists b bytes', bytes = b :: bytes' /\ Forall is_byte bytes' /\
    let '(lo, hi, state') := continuation state in lo <= b <= hi /\ run bytes' state' = kAccept.
Proof.
  intros Hs Hb Hr. destruct Hb as [|b bytes' Hb Hbs].
  { cbn in Hr. subst state. cbn in Hs. repeat destruct Hs as [E|Hs]; try discriminate E. done. }
  exists b, bytes'. split; [done|]. split; [done|]. rewrite run_cons, next_pending in Hr by done.
  destruct (continuation state) as [[lo hi] state']. unfold between in Hr.
  destruct (Z.leb_spec lo b), (Z.leb_spec b hi); cbn [andb] in Hr; [done|..]; by rewrite run_reject in Hr.
Qed.

(** What a byte does, from numbers. *)
Ltac decide_byte := unfold between; repeat case_match; bool_to_prop; first [reflexivity | exfalso; lia].

(** The lead bytes of a state. *)
Definition lead_range (state : Z) : Z * Z :=
  if state =? kAccept then (0, 0x7F)
  else if state =? kTwoByte then (0xC2, 0xDF)
  else if state =? kThreeByteHigh then (0xE0, 0xE0)
  else if state =? kThreeByteLowMid then (0xED, 0xED)
  else if state =? kThreeByte then (0xE1, 0xEF)
  else if state =? kFourByteMidHigh then (0xF0, 0xF0)
  else if state =? kFourByte then (0xF1, 0xF3)
  else (0xF4, 0xF4).

Lemma next_lead b state :
  In state (kAccept :: pending_states) -> fst (lead_range state) <= b <= snd (lead_range state) ->
  (state = kThreeByte -> b <> 0xED) -> next kAccept b = state.
Proof.
  intros Hs H Hne. assert (Hb : is_byte b).
  { unfold is_byte. cbn in Hs. repeat destruct Hs as [<-|Hs]; [cbn in H; lia..|done]. }
  rewrite next_accept by done. cbn in Hs.
  repeat destruct Hs as [<-|Hs]; [..|done]; cbn in H; try specialize (Hne eq_refl); clear Hb; decide_byte.
Qed.

Lemma next_continue state b :
  In state pending_states -> is_byte b ->
  (let '(lo, hi, _) := continuation state in lo <= b <= hi) ->
  next state b = snd (continuation state).
Proof.
  intros Hs Hb H. rewrite next_pending by done. destruct (continuation state) as [[lo hi] state'].
  unfold between. by rewrite (proj2 (Z.leb_le lo b)), (proj2 (Z.leb_le b hi)) by lia.
Qed.

Lemma encode_is_byte c : 0 <= c <= 0x10FFFF -> Forall is_byte (encode_single c false).
Proof.
  intros Hc. rewrite encode_numbers by done. unfold is_byte.
  repeat case_match; bool_to_prop; repeat (apply List.Forall_cons; [div_lia|]); apply List.Forall_nil.
Qed.

Ltac run_lead state :=
  rewrite run_cons, (next_lead _ state); [|by cbn; auto 12|cbn; div_lia|first [discriminate | intros _; div_lia]].
Ltac run_next state :=
  rewrite run_cons, (next_continue state); [|by cbn; auto 10|unfold is_byte; div_lia|cbn; div_lia];
  cbn [continuation snd Z.eqb Pos.eqb].

Lemma run_encode c : is_scalar c -> run (encode_single c false) kAccept = kAccept.
Proof.
  intros Hc. assert (H : 0 <= c <= 0x10FFFF) by (unfold is_scalar in Hc; lia). rewrite encode_numbers by done.
  unfold is_scalar in Hc.
  destruct (Z.leb_spec c 0x7F) as [H1|H1]; [by run_lead kAccept|].
  destruct (Z.leb_spec c 0x7FF) as [H2|H2]; [run_lead kTwoByte; by run_next kTwoByte|].
  destruct (Z.leb_spec c 0xFFFF) as [H3|H3].
  - destruct (Z.leb_spec c 0xFFF) as [H4|H4]; [run_lead kThreeByteHigh; run_next kThreeByteHigh; by run_next kTwoByte|].
    destruct (Z.eq_dec (c / 4096) 13) as [E|E].
    + run_lead kThreeByteLowMid. run_next kThreeByteLowMid. by run_next kTwoByte.
    + run_lead kThreeByte. run_next kThreeByte. by run_next kTwoByte.
  - destruct (Z.leb_spec c 0x3FFFF) as [H4|H4].
    + run_lead kFourByteMidHigh. run_next kFourByteMidHigh. run_next kThreeByte. by run_next kTwoByte.
    + destruct (Z.leb_spec c 0xFFFFF) as [H5|H5].
      * run_lead kFourByte. run_next kFourByte. run_next kThreeByte. by run_next kTwoByte.
      * run_lead kFourByteLow. run_next kFourByteLow. run_next kThreeByte. by run_next kTwoByte.
Qed.

(** The characters of whole sequences. *)
Lemma encode_two b0 b1 :
  0xC2 <= b0 <= 0xDF -> 0x80 <= b1 <= 0xBF ->
  let c := (b0 - 0xC0) * 64 + (b1 - 0x80) in is_scalar c /\ encode_single c false = [b0; b1].
Proof.
  intros H0 H1 c. subst c. set (c := _ + _). assert (Hc : 0x80 <= c <= 0x7FF) by lia.
  split; [left; lia|]. rewrite encode_numbers by lia.
  rewrite (proj2 (Z.leb_gt c 0x7F)), (proj2 (Z.leb_le c 0x7FF)) by lia.
  f_equal; [|f_equal]; subst c; clear Hc; div_lia.
Qed.

Lemma encode_three b0 b1 b2 :
  0xE0 <= b0 <= 0xEF -> 0x80 <= b1 <= 0xBF -> 0x80 <= b2 <= 0xBF -> (b0 = 0xE0 -> 0xA0 <= b1) -> (b0 = 0xED -> b1 <= 0x9F) ->
  let c := ((b0 - 0xE0) * 64 + (b1 - 0x80)) * 64 + (b2 - 0x80) in is_scalar c /\ encode_single c false = [b0; b1; b2].
Proof.
  intros H0 H1 H2 Hlow Hsur c. subst c. set (c := _ + _).
  assert (Hc : 0x800 <= c <= 0xFFFF) by (destruct (Z.eq_dec b0 0xE0); lia).
  split; [unfold is_scalar; destruct (Z.eq_dec b0 0xED), (Z.leb_spec b0 0xED); lia|].
  rewrite encode_numbers by lia.
  rewrite (proj2 (Z.leb_gt c 0x7F)), (proj2 (Z.leb_gt c 0x7FF)), (proj2 (Z.leb_le c 0xFFFF)) by lia.
  clear Hlow Hsur Hc. f_equal; [|f_equal; [|f_equal]]; subst c; div_lia.
Qed.

Lemma encode_four b0 b1 b2 b3 :
  0xF0 <= b0 <= 0xF4 -> 0x80 <= b1 <= 0xBF -> 0x80 <= b2 <= 0xBF -> 0x80 <= b3 <= 0xBF ->
  (b0 = 0xF0 -> 0x90 <= b1) -> (b0 = 0xF4 -> b1 <= 0x8F) ->
  let c := (((b0 - 0xF0) * 64 + (b1 - 0x80)) * 64 + (b2 - 0x80)) * 64 + (b3 - 0x80) in
  is_scalar c /\ encode_single c false = [b0; b1; b2; b3].
Proof.
  intros H0 H1 H2 H3 Hlow Hhigh c. subst c. set (c := _ + _).
  assert (Hc : 0x10000 <= c <= 0x10FFFF) by (destruct (Z.eq_dec b0 0xF0), (Z.eq_dec b0 0xF4); lia).
  split; [right; lia|]. rewrite encode_numbers by lia.
  rewrite (proj2 (Z.leb_gt c 0x7F)), (proj2 (Z.leb_gt c 0x7FF)), (proj2 (Z.leb_gt c 0xFFFF)) by lia.
  clear Hlow Hhigh Hc. f_equal; [|f_equal; [|f_equal; [|f_equal]]]; subst c; div_lia.
Qed.

(** A valid text that begins with the encoding of a character. *)
Definition begins (bytes : list Z) : Prop :=
  exists c rest, is_scalar c /\ bytes = encode_single c false ++ rest /\ Forall is_byte rest /\ run rest kAccept = kAccept.

Lemma begins_with c bs rest :
  is_scalar c /\ encode_single c false = bs -> Forall is_byte rest -> run rest kAccept = kAccept -> begins (bs ++ rest).
Proof. intros [Hc <-] Hb Hr. by exists c, rest. Qed.

Lemma run_three b0 state bytes :
  Forall is_byte bytes -> 0xE0 <= b0 <= 0xEF -> run bytes state = kAccept ->
  (b0 = 0xE0 /\ state = kThreeByteHigh) \/ (b0 = 0xED /\ state = kThreeByteLowMid) \/ (b0 <> 0xE0 /\ b0 <> 0xED /\ state = kThreeByte) ->
  begins (b0 :: bytes).
Proof.
  intros Hbs H0 Hr Hst. assert (Hin : In state pending_states) by (destruct_or! Hst; destruct_and? Hst; subst; cbn; auto 10).
  destruct (run_pending _ _ Hin Hbs Hr) as (b1 & bs1 & -> & Hbs1 & H1).
  assert (Hlh : (let '(lo, hi, state') := continuation state in 0x80 <= lo /\ hi <= 0xBF /\ state' = kTwoByte /\
    (b0 = 0xE0 -> 0xA0 <= lo) /\ (b0 = 0xED -> hi <= 0x9F))).
  { destruct_or! Hst; destruct_and? Hst; subst; cbn; repeat split; lia. }
  destruct (continuation state) as [[lo hi] state']. destruct H1 as [H1 Hr1]. destruct Hlh as (L1 & L2 & -> & L3 & L4).
  destruct (run_pending kTwoByte bs1 ltac:(cbn; auto) Hbs1 Hr1) as (b2 & bs2 & -> & Hbs2 & H2 & Hr2).
  apply (begins_with _ [b0; b1; b2] bs2 (encode_three b0 b1 b2 H0 ltac:(lia) H2 ltac:(lia) ltac:(lia))); done.
Qed.

Lemma run_four b0 state bytes :
  Forall is_byte bytes -> 0xF0 <= b0 <= 0xF4 -> run bytes state = kAccept ->
  (b0 = 0xF0 /\ state = kFourByteMidHigh) \/ (b0 = 0xF4 /\ state = kFourByteLow) \/ (b0 <> 0xF0 /\ b0 <> 0xF4 /\ state = kFourByte) ->
  begins (b0 :: bytes).
Proof.
  intros Hbs H0 Hr Hst. assert (Hin : In state pending_states) by (destruct_or! Hst; destruct_and? Hst; subst; cbn; auto 10).
  destruct (run_pending _ _ Hin Hbs Hr) as (b1 & bs1 & -> & Hbs1 & H1).
  assert (Hlh : (let '(lo, hi, state') := continuation state in 0x80 <= lo /\ hi <= 0xBF /\ state' = kThreeByte /\
    (b0 = 0xF0 -> 0x90 <= lo) /\ (b0 = 0xF4 -> hi <= 0x8F))).
  { destruct_or! Hst; destruct_and? Hst; subst; cbn; repeat split; lia. }
  destruct (continuation state) as [[lo hi] state']. destruct H1 as [H1 Hr1]. destruct Hlh as (L1 & L2 & -> & L3 & L4).
  destruct (run_pending kThreeByte bs1 ltac:(cbn; auto) Hbs1 Hr1) as (b2 & bs2 & -> & Hbs2 & H2 & Hr2).
  destruct (run_pending kTwoByte bs2 ltac:(cbn; auto) Hbs2 Hr2) as (b3 & bs3 & -> & Hbs3 & H3 & Hr3).
  apply (begins_with _ [b0; b1; b2; b3] bs3 (encode_four b0 b1 b2 b3 H0 ltac:(lia) H2 H3 ltac:(lia) ltac:(lia))); done.
Qed.

Lemma run_accept_inv bytes :
  Forall is_byte bytes -> run bytes kAccept = kAccept -> bytes <> [] -> begins bytes.
Proof.
  intros Hbs Hr Hne. destruct Hbs as [|b0 bytes Hb0 Hbs]; [done|]. clear Hne.
  rewrite run_cons, next_accept in Hr by done. unfold is_byte in Hb0. unfold between in Hr.
  destruct (Z.leb_spec b0 0x7F) as [H1|H1].
  { apply (begins_with b0 [b0] bytes); [|done|done]. split; [left; lia|]. rewrite encode_numbers by lia.
    by rewrite (proj2 (Z.leb_le b0 0x7F)) by lia. }
  destruct ((0xC2 <=? b0) && (b0 <=? 0xDF)) eqn:E2.
  { bool_to_prop. destruct (run_pending kTwoByte bytes ltac:(cbn; auto) Hbs Hr) as (b1 & bs1 & -> & Hbs1 & Hb1 & Hr1).
    apply (begins_with _ [b0; b1] bs1 (encode_two b0 b1 ltac:(lia) Hb1)); done. }
  destruct (Z.eqb_spec b0 0xE0) as [E3|E3]; [eapply run_three; [done|lia|exact Hr|auto]|].
  destruct (Z.eqb_spec b0 0xED) as [E4|E4]; [eapply run_three; [done|lia|exact Hr|auto]|].
  destruct ((0xE1 <=? b0) && (b0 <=? 0xEF)) eqn:E5; [bool_to_prop; eapply run_three; [done|lia|exact Hr|auto]|].
  destruct (Z.eqb_spec b0 0xF0) as [E6|E6]; [eapply run_four; [done|lia|exact Hr|auto]|].
  destruct ((0xF1 <=? b0) && (b0 <=? 0xF3)) eqn:E7; [bool_to_prop; eapply run_four; [done|lia|exact Hr|right; right; split; [lia|split; [lia|done]]]|].
  destruct (Z.eqb_spec b0 0xF4) as [E8|E8]; [eapply run_four; [done|lia|exact Hr|auto]|].
  by rewrite run_reject in Hr.
Qed.

(** The text of a sequence of characters. *)
Definition utf8_bytes (cs : list Z) : list Z := concat (map (fun c => encode_single c false) cs).

Lemma run_utf8_bytes cs : Forall is_scalar cs -> run (utf8_bytes cs) kAccept = kAccept.
Proof.
  induction 1 as [|c cs Hc _ IH]; [done|]. unfold utf8_bytes. cbn [map concat]. by rewrite run_app, run_encode.
Qed.

Lemma run_accept_utf8 bytes :
  Forall is_byte bytes -> run bytes kAccept = kAccept -> exists cs, Forall is_scalar cs /\ bytes = utf8_bytes cs.
Proof.
  remember (length bytes) as n eqn:En. revert bytes En.
  induction n as [n IH] using lt_wf_ind. intros bytes -> Hbs Hr.
  destruct bytes as [|b bytes]; [by exists []|].
  destruct (run_accept_inv (b :: bytes) Hbs Hr) as (c & rest & Hc & E & Hrest & Hrun); [done|].
  assert (Hlt : (length rest < length (b :: bytes))%nat).
  { rewrite E, length_app, encode_numbers by (unfold is_scalar in Hc; lia). repeat case_match; cbn; lia. }
  destruct (IH (length rest) Hlt rest eq_refl Hrest Hrun) as (cs & Hcs & ->).
  exists (c :: cs). split; [by constructor|]. exact E.
Qed.

(** ** Incremental decoding *)

(** The states of the decoder, with the bounds of an unfinished character. *)
Definition decoder_ok (state buffer : Z) : Prop :=
  (state = kAccept /\ buffer = 0) \/ (state = kTwoByte /\ (0 <= buffer < 0x360 \/ 0x380 <= buffer <= 0x43FF)) \/
  (state = kThreeByte /\ (0 <= buffer < 0xD \/ 0xD < buffer <= 0x10F)) \/ (state = kThreeByteLowMid /\ buffer = 0xD) \/
  (state = kThreeByteHigh /\ buffer = 0) \/
  (state = kFourByte /\ 1 <= buffer <= 3) \/ (state = kFourByteLow /\ buffer = 4) \/ (state = kFourByteMidHigh /\ buffer = 0).

Lemma decoder_ok_states state buffer : decoder_ok state buffer -> In state (kAccept :: pending_states).
Proof. intros H. unfold decoder_ok in H. destruct_or! H; destruct H as [-> _]; cbn; auto 12. Qed.

Lemma decoder_ok_buffer state buffer : decoder_ok state buffer -> 0 <= buffer < 2 ^ 26 /\ (state = kAccept -> buffer = 0).
Proof.
  intros H. unfold decoder_ok in H. destruct_or! H; destruct H as [-> H]; (split; [lia|first [discriminate | done]]).
Qed.

Lemma payload_range b : is_byte b -> 0 <= payload b <= 0x7F /\ (0x80 <= b -> payload b < 64).
Proof.
  intros Hb. assert (H : (0 <=? payload b) && (payload b <=? 0x7F) && ((b <=? 0x7F) || (payload b <? 64)) = true).
  { refine (bytes_check (fun b => (0 <=? payload b) && (payload b <=? 0x7F) && ((b <=? 0x7F) || (payload b <? 64))) _ b Hb).
    vm_compute. reflexivity. }
  apply andb_true_iff in H as [H H3]. apply andb_true_iff in H as [H1 H2]. apply Z.leb_le in H1, H2. split; [lia|].
  intros Hge. apply orb_true_iff in H3 as [H3|H3]; [apply Z.leb_le in H3; lia|by apply Z.ltb_lt].
Qed.

(** What a lead byte leaves behind. *)
Lemma lead_step b : is_byte b -> 0x80 <= b ->
  next kAccept b = kReject \/ decoder_ok (next kAccept b) (payload b) /\ next kAccept b <> kAccept.
Proof.
  intros Hb Hge. rewrite next_accept, payload_eq by done. unfold between, decoder_ok. unfold is_byte in Hb.
  repeat case_match; bool_to_prop; try lia; try (by left); right; (split; [|discriminate]);
    repeat first [split; [reflexivity|lia] | left; split; [reflexivity|lia] | right].
Qed.

(** What a continuation byte does to an unfinished character. *)
Lemma continue_step state buffer b :
  decoder_ok state buffer -> state <> kAccept -> is_byte b ->
  next state b = kReject \/
  (next state b = kAccept /\ is_scalar (buffer * 64 + payload b)) \/
  (decoder_ok (next state b) (buffer * 64 + payload b) /\ next state b <> kAccept).
Proof.
  intros Hd Hs Hb. assert (Hin : In state pending_states) by (by destruct (decoder_ok_states _ _ Hd) as [E|?]; [subst|]).
  rewrite next_pending by done. destruct (continuation state) as [[lo hi] state'] eqn:Ec. unfold between.
  destruct (Z.leb_spec lo b), (Z.leb_spec b hi); cbn [andb]; [|by left..]. right.
  assert (Hp : payload b = b - 0x80 /\ 0x80 <= b <= 0xBF).
  { assert (Hr : 0x80 <= lo /\ hi <= 0xBF).
    { cbn in Hin. repeat destruct Hin as [<-|Hin]; [..|done]; cbn in Ec; injection Ec as <- <- <-; lia. }
    rewrite payload_eq by done. rewrite (proj2 (Z.leb_gt b 0x7F)), (proj2 (Z.leb_le b 0xBF)) by lia. lia. }
  destruct Hp as [-> Hr]. unfold decoder_ok in Hd |- *.
  destruct_or! Hd; destruct Hd as [-> Hd]; try done; cbn in Ec; injection Ec as <- <- <-.
  1: left; split; [done|unfold is_scalar; lia].
  all: right; (split; [|discriminate]); repeat first [left; split; [reflexivity|lia] | right].
Qed.

Lemma decoder_ok_not_reject state buffer : decoder_ok state buffer -> (state =? kReject) = false.
Proof. intros H. apply decoder_ok_states in H. cbn in H. by repeat destruct H as [<-|H]. Qed.

(** A byte that continues a character has six bits of it. *)
Lemma continue_payload state b : In state pending_states -> is_byte b -> next state b <> kReject -> payload b < 64.
Proof.
  intros Hin Hb Hn. destruct (Z.leb_spec b 0x7F); [|apply payload_range; [done|lia]]. exfalso. apply Hn.
  rewrite next_pending by done. destruct (continuation state) as [[lo hi] st'] eqn:Ec.
  assert (0x80 <= lo) by (cbn in Hin; repeat destruct Hin as [<-|Hin]; [..|done]; cbn in Ec; injection Ec as <- <- <-; lia).
  unfold between. by rewrite (proj2 (Z.leb_gt lo b)) by lia.
Qed.

(** What a call may end with: a character, or [kIncomplete] with its byte taken. *)
Definition value_result (b : Z) (rest : list Z) (state t : Z) (cursor : list Z) (state' buffer' : Z) : Prop :=
  decoder_ok state' buffer' /\
  ((t = kIncomplete /\ cursor = rest /\ state' <> kAccept) \/
   (is_scalar t /\ state' = kAccept /\ buffer' = 0 /\
    (cursor = rest \/ cursor = b :: rest /\ state <> kAccept))).

Lemma ValueOfIncremental_start b rest : is_byte b ->
  exists t cursor state' buffer', ValueOfIncremental (b :: rest) kAccept 0 = Ok (t, cursor, state', buffer') /\
    value_result b rest kAccept t cursor state' buffer'.
Proof.
  intros Hb. cbn [ValueOfIncremental]. assert (Hok0 : decoder_ok kAccept 0) by (by left). unfold kMaxOneByteChar.
  rewrite Z.eqb_refl, andb_true_r. destruct (Z.leb_spec b 0x7f) as [H1|H1].
  { cbn [Z.eqb]. eexists _, _, _, _. split; [reflexivity|]. split; [done|]. right. unfold is_byte in Hb.
    split; [unfold is_scalar; lia|]. do 2 (split; [done|]). by left. }
  rewrite Decode_eq. pose proof (payload_range b Hb) as [Hp1 Hp2]. specialize (Hp2 ltac:(lia)).
  rewrite shift_in, Z.mul_0_l, Z.add_0_l by lia. destruct (lead_step b Hb ltac:(lia)) as [E|[Hd' Hn]].
  - rewrite E. cbn. eexists _, _, _, _. split; [reflexivity|]. split; [done|]. right.
    split; [unfold kBadChar, is_scalar; lia|]. do 2 (split; [done|]). by left.
  - rewrite (proj2 (Z.eqb_neq _ _) Hn), (decoder_ok_not_reject _ _ Hd').
    eexists _, _, _, _. split; [reflexivity|]. split; [done|]. by left.
Qed.

Lemma ValueOfIncremental_spec b rest state buffer :
  decoder_ok state buffer -> is_byte b ->
  exists t cursor state' buffer', ValueOfIncremental (b :: rest) state buffer = Ok (t, cursor, state', buffer') /\
    value_result b rest state t cursor state' buffer'.
Proof.
  intros Hd Hb. destruct (decoder_ok_buffer _ _ Hd) as [Hbuf Hacc].
  destruct (Z.eq_dec state kAccept) as [Es|Es]; [subst state; rewrite (Hacc eq_refl); by apply ValueOfIncremental_start|].
  assert (Hin : In state pending_states) by (by destruct (decoder_ok_states _ _ Hd) as [?|?]; [subst|]).
  cbn [ValueOfIncremental]. rewrite (proj2 (Z.eqb_neq _ _) Es), andb_false_r, Decode_eq.
  destruct (Z.eq_dec (next state b) kReject) as [E|E].
  { rewrite E. cbn. eexists _, _, _, _. split; [reflexivity|]. split; [by left|]. right.
    split; [unfold kBadChar, is_scalar; lia|]. do 2 (split; [done|]). by right. }
  rewrite shift_in by (pose proof (payload_range b Hb); pose proof (continue_payload state b Hin Hb E); lia).
  destruct (continue_step state buffer b Hd Es Hb) as [E'|[[E' Ht]|[Hd' Hn]]]; [done| |].
  - rewrite E', Z.eqb_refl. eexists _, _, _, _. split; [reflexivity|]. split; [by left|]. right.
    split; [done|]. do 2 (split; [done|]). by left.
  - rewrite (proj2 (Z.eqb_neq _ _) Hn), (decoder_ok_not_reject _ _ Hd').
    eexists _, _, _, _. split; [reflexivity|]. split; [done|]. by left.
Qed.

(** ** The decoded text *)

(** What a byte adds to the text: nothing while a character is unfinished, the
    character it finishes, or the replacement of one it breaks off. *)
Definition feed (d : Z * Z) (b : Z) : list Z * (Z * Z) :=
  let chars t := if t =? kIncomplete then [] else [t] in
  match ValueOfIncremental [b] (fst d) (snd d) with
  | Ok (t, [], state, buffer) => (chars t, (state, buffer))
  | Ok (t, _, state, buffer) =>
      match ValueOfIncremental [b] state buffer with
      | Ok (t', _, state, buffer) => (t :: chars t', (state, buffer))
      | _ => ([t], (state, buffer))
      end
  | _ => ([], d)
  end.

Fixpoint decode (d : Z * Z) (bytes : list Z) : list Z * (Z * Z) :=
  match bytes with
  | [] => ([], d)
  | b :: bytes => let '(cs, d) := feed d b in let '(cs', d) := decode d bytes in (cs ++ cs', d)
  end.

(** The characters of a whole text; an unfinished one is replaced. *)
Definition decode_text (bytes : list Z) : list Z :=
  let '(cs, (state, _)) := decode (kAccept, 0) bytes in cs ++ (if state =? kAccept then [] else [kBadChar]).

(** The tail of the input plays no part in a call. *)
Lemma ValueOfIncremental_tail b rest state buffer :
  ValueOfIncremental (b :: rest) state buffer =
  match ValueOfIncremental [b] state buffer with
  | Ok (t, cursor, state, buffer) => Ok (t, cursor ++ rest, state, buffer)
  | OutOfFuel => OutOfFuel
  | Undefined => Undefined
  end.
Proof.
  cbn [ValueOfIncremental]. destruct (_ && _); [by destruct (buffer =? 0)|]. destruct (Decode b state buffer) as [s' b'].
  destruct (s' =? kAccept); [done|]. destruct (s' =? kReject); [|done]. by destruct (negb _).
Qed.

(** A call that takes its byte, and one that leaves it. *)
Lemma decode_step b rest state buffer t cursor state' buffer' :
  decoder_ok state buffer -> is_byte b ->
  ValueOfIncremental (b :: rest) state buffer = Ok (t, cursor, state', buffer') ->
  decode (state, buffer) (b :: rest) =
    let '(cs, d) := decode (state', buffer') cursor in ((if t =? kIncomplete then [] else [t]) ++ cs, d).
Proof.
  intros Hd Hb E. rewrite ValueOfIncremental_tail in E.
  destruct (ValueOfIncremental_spec b [] state buffer Hd Hb) as (t1 & c1 & s1 & b1 & E1 & Hd1 & Hr).
  rewrite E1 in E. injection E as <- <- <- <-. cbn [decode]. unfold feed. cbn [fst snd]. rewrite E1.
  destruct Hr as [(-> & -> & Hs)|(Ht & -> & -> & [->|[-> Hs]])].
  - cbn. by destruct (decode _ rest).
  - cbn. by destruct (decode _ rest).
  - destruct (ValueOfIncremental_start b [] Hb) as (t2 & c2 & s2 & b2 & E2 & Hd2 & Hr2). rewrite E2.
    cbn [app]. cbn [decode]. unfold feed. cbn [fst snd]. rewrite E2.
    assert (Ec : c2 = []) by (destruct Hr2 as [(_ & ? & _)|(_ & _ & _ & [?|[_ ?]])]; done). rewrite Ec.
    assert (Et : (t1 =? kIncomplete) = false) by (apply Z.eqb_neq; unfold kIncomplete, is_scalar in *; lia). rewrite Et.
    destruct (decode _ rest). done.
Qed.

Lemma decode_app d bs bs' :
  decode d (bs ++ bs') = let '(cs, d) := decode d bs in let '(cs', d) := decode d bs' in (cs ++ cs', d).
Proof.
  revert d. induction bs as [|b bs IH]; intros d; cbn [decode app]; [by destruct (decode d bs')|].
  destruct (feed d b) as [cs d1]. rewrite IH. destruct (decode d1 bs) as [cs1 d2]. destruct (decode d2 bs') as [cs2 d3].
  by rewrite app_assoc.
Qed.

(** ** Decoding what was encoded *)

Lemma feed_lead state b :
  is_byte b -> In state pending_states -> next kAccept b = state -> feed (kAccept, 0) b = ([], (state, payload b)).
Proof.
  intros Hb Hs E. assert (Hge : 0x7F < b).
  { destruct (Z.leb_spec b 0x7F) as [H|H]; [|done]. rewrite next_accept in E by done. rewrite (proj2 (Z.leb_le b 0x7F)) in E by done.
    subst state. cbn in Hs. by repeat destruct Hs as [?|Hs]. }
  unfold feed. cbn [fst snd ValueOfIncremental]. unfold kMaxOneByteChar. rewrite (proj2 (Z.leb_gt b 0x7f)) by done. cbn [andb].
  rewrite Decode_eq, E. rewrite shift_in, Z.mul_0_l, Z.add_0_l by (pose proof (payload_range b Hb); lia).
  cbn in Hs. repeat destruct Hs as [<-|Hs]; [reflexivity..|done].
Qed.

Lemma feed_next state buffer b :
  is_byte b -> In state pending_states -> 0 <= buffer <= 0x43FF ->
  (let '(lo, hi, _) := continuation state in lo <= b <= hi) ->
  feed (state, buffer) b =
    let state' := snd (continuation state) in
    if state' =? kAccept then ([buffer * 64 + (b - 0x80)], (kAccept, 0)) else ([], (state', buffer * 64 + (b - 0x80))).
Proof.
  intros Hb Hs Hbuf Hr. pose proof (next_continue state b Hs Hb Hr) as E.
  assert (Hcont : 0x80 <= b <= 0xBF).
  { clear E. cbn in Hs. repeat destruct Hs as [<-|Hs]; [..|done]; cbn in Hr; lia. }
  assert (Hp : payload b = b - 0x80).
  { rewrite payload_eq by done. by rewrite (proj2 (Z.leb_gt b 0x7F)), (proj2 (Z.leb_le b 0xBF)) by lia. }
  unfold feed. cbn [fst snd ValueOfIncremental]. unfold kMaxOneByteChar. rewrite (proj2 (Z.leb_gt b 0x7f)) by lia. cbn [andb].
  rewrite Decode_eq, E, Hp, shift_in by lia. cbv zeta. clear Hr E.
  assert (Et : (buffer * 64 + (b - 0x80) =? kIncomplete) = false) by (apply Z.eqb_neq; unfold kIncomplete, is_scalar in *; lia).
  cbn in Hs. repeat destruct Hs as [<-|Hs]; [..|done]; cbn [continuation snd Z.eqb Pos.eqb kTwoByte kThreeByte kThreeByteLowMid
    kThreeByteHigh kFourByte kFourByteLow kFourByteMidHigh kAccept kReject]; by rewrite ?Et.
Qed.

(** The steps of a decoder over an encoded character. *)
Ltac feed_one := cbn [decode]; rewrite feed_next; [|unfold is_byte; lia|by cbn; auto 10|lia|cbn; lia]; cbn [continuation snd Z.eqb Pos.eqb
  kTwoByte kThreeByte kThreeByteLowMid kThreeByteHigh kFourByte kFourByteLow kFourByteMidHigh kAccept app].

Ltac feed_first state :=
  cbn [decode]; rewrite (feed_lead state); [|unfold is_byte; lia|by cbn; auto 10|apply next_lead; [by cbn; auto 12|cbn; lia|first [discriminate|intros _; lia]]];
  cbn [app].

Lemma decode_two b0 b1 :
  0xC2 <= b0 <= 0xDF -> 0x80 <= b1 <= 0xBF ->
  decode (kAccept, 0) [b0; b1] = ([(b0 - 0xC0) * 64 + (b1 - 0x80)], (kAccept, 0)).
Proof.
  intros H0 H1. assert (Hp : payload b0 = b0 - 0xC0) by (rewrite payload_eq by (unfold is_byte; lia); decide_byte).
  feed_first kTwoByte. rewrite Hp. by feed_one.
Qed.

Lemma decode_three b0 b1 b2 :
  0xE0 <= b0 <= 0xEF -> 0x80 <= b1 <= 0xBF -> 0x80 <= b2 <= 0xBF -> (b0 = 0xE0 -> 0xA0 <= b1) -> (b0 = 0xED -> b1 <= 0x9F) ->
  decode (kAccept, 0) [b0; b1; b2] = ([((b0 - 0xE0) * 64 + (b1 - 0x80)) * 64 + (b2 - 0x80)], (kAccept, 0)).
Proof.
  intros H0 H1 H2 Hl Hs. assert (Hp : payload b0 = b0 - 0xE0) by (rewrite payload_eq by (unfold is_byte; lia); decide_byte).
  destruct (Z.eq_dec b0 0xE0) as [E|E]; [|destruct (Z.eq_dec b0 0xED) as [E'|E']].
  - feed_first kThreeByteHigh. rewrite Hp. do 2 feed_one. done.
  - feed_first kThreeByteLowMid. rewrite Hp. do 2 feed_one. done.
  - feed_first kThreeByte. rewrite Hp. do 2 feed_one. done.
Qed.

Lemma decode_four b0 b1 b2 b3 :
  0xF0 <= b0 <= 0xF4 -> 0x80 <= b1 <= 0xBF -> 0x80 <= b2 <= 0xBF -> 0x80 <= b3 <= 0xBF ->
  (b0 = 0xF0 -> 0x90 <= b1) -> (b0 = 0xF4 -> b1 <= 0x8F) ->
  decode (kAccept, 0) [b0; b1; b2; b3] =
    ([(((b0 - 0xF0) * 64 + (b1 - 0x80)) * 64 + (b2 - 0x80)) * 64 + (b3 - 0x80)], (kAccept, 0)).
Proof.
  intros H0 H1 H2 H3 Hl Hh. assert (Hp : payload b0 = b0 - 0xF0) by (rewrite payload_eq by (unfold is_byte; lia); decide_byte).
  destruct (Z.eq_dec b0 0xF0) as [E|E]; [|destruct (Z.eq_dec b0 0xF4) as [E'|E']].
  - feed_first kFourByteMidHigh. rewrite Hp. do 3 feed_one. done.
  - feed_first kFourByteLow. rewrite Hp. do 3 feed_one. done.
  - feed_first kFourByte. rewrite Hp. do 3 feed_one. done.
Qed.

Lemma decode_encode c : is_scalar c -> decode (kAccept, 0) (encode_single c false) = ([c], (kAccept, 0)).
Proof.
  intros Hc. assert (H : 0 <= c <= 0x10FFFF) by (unfold is_scalar in Hc; lia). rewrite encode_numbers by done.
  unfold is_scalar in Hc. destruct (Z.leb_spec c 0x7F) as [H1|H1].
  { cbn [decode]. unfold feed. cbn [fst snd ValueOfIncremental]. unfold kMaxOneByteChar. rewrite (proj2 (Z.leb_le c 0x7f)) by done.
    rewrite !Z.eqb_refl. cbn [andb]. by rewrite (proj2 (Z.eqb_neq c kIncomplete)) by (unfold kIncomplete, is_scalar in *; lia). }
  destruct (Z.leb_spec c 0x7FF) as [H2|H2].
  { rewrite decode_two by div_lia. do 2 f_equal. div_lia. }
  destruct (Z.leb_spec c 0xFFFF) as [H3|H3].
  - rewrite decode_three by div_lia. do 2 f_equal. div_lia.
  - rewrite decode_four by div_lia. do 2 f_equal. div_lia.
Qed.

Lemma decode_utf8_bytes cs : Forall is_scalar cs -> decode (kAccept, 0) (utf8_bytes cs) = (cs, (kAccept, 0)).
Proof.
  induction 1 as [|c cs Hc _ IH]; [done|]. unfold utf8_bytes in *. cbn [map concat]. rewrite decode_app, decode_encode by done.
  by rewrite IH.
Qed.

Lemma decode_text_utf8_bytes cs : Forall is_scalar cs -> decode_text (utf8_bytes cs) = cs.
Proof. intros H. unfold decode_text. rewrite decode_utf8_bytes by done. cbn. apply app_nil_r. Qed.

(** ** Encoding UTF-16 *)

(** One code unit after the other, each with the one before it. *)
Definition encode_unit (replace_invalid : bool) (s : list Z * Z) (unit : Z) : list Z * Z :=
  (Encode (fst s) unit (snd s) replace_invalid, unit).

Definition encode_units (replace_invalid : bool) (units : list Z) : list Z :=
  fst (fold_left (encode_unit replace_invalid) units ([], kNoPreviousCharacter)).

Lemma encode_three_length c : 0x7FF < c <= 0xFFFF -> length (encode_single c false) = kSizeOfUnmatchedSurrogate.
Proof.
  intros Hc. rewrite encode_numbers by lia.
  by rewrite (proj2 (Z.leb_gt c 0x7F)), (proj2 (Z.leb_gt c 0x7FF)), (proj2 (Z.leb_le c 0xFFFF)) by lia.
Qed.

(** A character behind something that is not a lead surrogate. *)
Lemma encode_character written previous c :
  is_scalar c -> IsLeadSurrogate previous = false ->
  exists previous', IsLeadSurrogate previous' = false /\
    fold_left (encode_unit false) (utf16_encode c) (written, previous) = (written ++ encode_single c false, previous').
Proof.
  intros Hc Hp. assert (H : 0 <= c <= kMaxCodePoint) by (unfold is_scalar, kMaxCodePoint in *; lia).
  unfold utf16_encode, kMaxNonSurrogateCharCode, encode_unit. destruct (Z.leb_spec c 0xffff) as [Hs|Hs].
  - exists c. split.
    + rewrite IsLeadSurrogate_spec by done. unfold within. unfold is_scalar in Hc.
      destruct (Z.leb_spec 0xd800 c), (Z.leb_spec c 0xdbff); (done || lia).
    + cbn [fold_left fst snd]. unfold Encode. by rewrite Hp, andb_false_r.
  - pose proof (LeadSurrogate_spec c ltac:(lia)) as EL. pose proof (TrailSurrogate_spec c ltac:(lia)) as ET.
    unfold kMaxCodePoint in H. set (l := LeadSurrogate c) in *. set (t := TrailSurrogate c) in *.
    assert (Hl : 0xd800 <= l <= 0xdbff) by (rewrite EL; div_lia). assert (Ht : 0xdc00 <= t <= 0xdfff) by (rewrite ET; div_lia).
    assert (ELt : IsTrailSurrogate l = false).
    { rewrite IsTrailSurrogate_spec by (unfold kMaxCodePoint; lia). unfold within. by rewrite (proj2 (Z.leb_gt 0xdc00 l)) by lia. }
    assert (ELl : IsLeadSurrogate l = true).
    { rewrite IsLeadSurrogate_spec by (unfold kMaxCodePoint; lia). unfold within.
      by rewrite (proj2 (Z.leb_le 0xd800 l)), (proj2 (Z.leb_le l 0xdbff)) by lia. }
    assert (ETt : IsTrailSurrogate t = true).
    { rewrite IsTrailSurrogate_spec by (unfold kMaxCodePoint; lia). unfold within.
      by rewrite (proj2 (Z.leb_le 0xdc00 t)), (proj2 (Z.leb_le t 0xdfff)) by lia. }
    exists t. split.
    + rewrite IsLeadSurrogate_spec by (unfold kMaxCodePoint; lia). unfold within. by rewrite (proj2 (Z.leb_gt t 0xdbff)), andb_false_r by lia.
    + cbn [fold_left fst snd]. unfold Encode. rewrite Hp, andb_false_r, ELl, ETt. cbn [andb].
      unfold kMaxTwoByteChar, kMaxThreeByteChar. rewrite (proj2 (Z.ltb_lt 0x7ff t)), (proj2 (Z.leb_le t 0xffff)) by lia. cbn [andb].
      rewrite length_app, (encode_three_length l) by lia. rewrite take_app_le by lia.
      replace (length written + kSizeOfUnmatchedSurrogate - kSizeOfUnmatchedSurrogate)%nat with (length written) by lia.
      rewrite take_ge by done. do 2 f_equal. rewrite CombineSurrogatePair_spec by done. f_equal.
      rewrite EL, ET. clear - H Hs. div_lia.
Qed.

Lemma encode_units_utf8 cs :
  Forall is_scalar cs -> encode_units false (concat (map utf16_encode cs)) = utf8_bytes cs.
Proof.
  intros Hcs. unfold encode_units.
  assert (H : forall written previous, IsLeadSurrogate previous = false ->
    fst (fold_left (encode_unit false) (concat (map utf16_encode cs)) (written, previous)) = written ++ utf8_bytes cs).
  { induction Hcs as [|c cs Hc _ IH]; intros written previous Hp; [cbn; by rewrite app_nil_r|].
    cbn [map concat]. rewrite fold_left_app.
    destruct (encode_character written previous c Hc Hp) as (previous' & Hp' & ->).
    rewrite IH by done. unfold utf8_bytes. cbn [map concat]. by rewrite app_assoc. }
  by apply (H [] kNoPreviousCharacter).
Qed.

(** ** ASCII *)

Definition is_ascii (b : Z) : Prop := 0 <= b <= 0x7F.

Lemma check_bytes_spec chars :
  Forall is_byte chars -> (check_bytes chars <= length chars)%nat /\ Forall is_ascii (take (check_bytes chars) chars).
Proof.
  induction 1 as [|c chars Hc _ [IH1 IH2]]; [done|]. cbn [check_bytes]. unfold kMaxOneByteChar.
  destruct (Z.ltb_spec 0x7f c); cbn; [split; [lia|done]|]. split; [lia|].
  apply List.Forall_cons; [unfold is_byte in Hc; split; lia|done].
Qed.

Definition mask (n : nat) : Z := (2 ^ (8 * Z.of_nat n) - 1) / 0xFF * 0x80.

Lemma mask_succ n : mask (S n) = 0x80 + 256 * mask n /\ 0 <= mask n.
Proof.
  unfold mask. assert (E : exists q, 2 ^ (8 * Z.of_nat n) - 1 = q * 0xFF /\ 0 <= q).
  { induction n as [|n [q [IH Hq]]]; [by exists 0|]. exists (2 ^ (8 * Z.of_nat n) + q). split.
    - replace (8 * Z.of_nat (S n)) with (8 + 8 * Z.of_nat n) by lia. rewrite Z.pow_add_r by lia. lia.
    - pose proof (Z.pow_pos_nonneg 2 (8 * Z.of_nat n) ltac:(lia) ltac:(lia)). lia. }
  destruct E as (q & E & Hq). replace (8 * Z.of_nat (S n)) with (8 + 8 * Z.of_nat n) by lia. rewrite Z.pow_add_r by lia.
  replace (2 ^ 8 * 2 ^ (8 * Z.of_nat n) - 1) with ((256 * q + 1) * 0xFF) by lia. rewrite E, !Z.div_mul by lia. lia.
Qed.

(** The bytes of two words side by side. *)
Lemma land_bytes a b x y : 0 <= a < 256 -> 0 <= b < 256 -> Z.land (a + 256 * x) (b + 256 * y) = Z.land a b + 256 * Z.land x y.
Proof.
  intros Ha Hb. assert (E : forall r q, 0 <= r < 256 -> r + 256 * q = Z.lor (Z.shiftl q 8) r).
  { intros r q Hr. rewrite Z.shiftl_mul_pow2 by lia. rewrite lor_add by lia. lia. }
  assert (Hab : 0 <= Z.land a b < 256).
  { rewrite <- (Z.mod_small b (2 ^ 8)), <- Z.land_ones, Z.land_assoc, Z.land_ones by lia. by apply Z.mod_pos_bound. }
  rewrite !E by done. apply Z.bits_inj'. intros i Hi. rewrite !Z.land_spec, !Z.lor_spec, !Z.land_spec.
  destruct (Z.ltb_spec i 8) as [H|H].
  - rewrite !Z.shiftl_spec_low by done. done.
  - rewrite !Z.shiftl_spec_high, Z.land_spec by lia.
    assert (Hhigh : forall r, 0 <= r < 256 -> Z.testbit r i = false).
    { intros r Hr. rewrite <- (Z.mod_small r (2 ^ 8)) by lia. by apply Z.mod_pow2_bits_high. }
    rewrite (Hhigh a), (Hhigh b), !orb_false_r by done. done.
Qed.

Lemma word_ascii bytes :
  Forall is_byte bytes -> Z.land (load_word bytes) (mask (length bytes)) = 0 -> Forall is_ascii bytes.
Proof.
  induction 1 as [|b bytes Hb Hbs IH]; [done|]. intros E. cbn [length load_word fold_right] in E. fold (load_word bytes) in E.
  destruct (mask_succ (length bytes)) as [Em Hm]. rewrite Em, land_bytes in E by (unfold is_byte in Hb; lia).
  assert (H0 : 0 <= Z.land b 0x80) by (apply Z.land_nonneg; lia).
  assert (H1 : 0 <= Z.land (load_word bytes) (mask (length bytes))) by (apply Z.land_nonneg; lia).
  apply List.Forall_cons; [|apply IH; lia]. unfold is_byte in Hb. split; [lia|].
  destruct (Z.leb_spec b 0x7F) as [|Hgt]; [done|]. exfalso. assert (E0 : (Z.land b 0x80 =? 0) = false); [|apply Z.eqb_neq in E0; lia].
  assert (Hall : ((b <=? 0x7F) || negb (Z.land b 0x80 =? 0)) = true).
  { refine (bytes_check (fun b => (b <=? 0x7F) || negb (Z.land b 0x80 =? 0)) _ b Hb). vm_compute. reflexivity. }
  apply orb_true_iff in Hall as [Hall|Hall]; [apply Z.leb_le in Hall; lia|by apply negb_true_iff].
Qed.

Section NonAsciiStartSpec.
Context (kIntptrSize : nat) (Hsize : (0 < kIntptrSize)%nat).

Lemma check_words_spec fuel chars :
  Forall is_byte chars ->
  (check_words kIntptrSize fuel chars <= length chars)%nat /\ Forall is_ascii (take (check_words kIntptrSize fuel chars) chars).
Proof.
  revert chars. induction fuel as [|fuel IH]; intros chars Hb; cbn [check_words]; [cbn; split; [lia|done]|].
  destruct (Nat.leb_spec kIntptrSize (length chars)) as [Hl|Hl]; [|by apply check_bytes_spec].
  destruct (Z.eqb_spec (Z.land (load_word (take kIntptrSize chars)) (non_one_byte_mask kIntptrSize)) 0) as [E|E];
    [|cbn; split; [lia|done]].
  destruct (IH (drop kIntptrSize chars)) as [H1 H2]; [by apply Forall_drop|]. rewrite length_drop in H1.
  split; [lia|]. rewrite <- take_take_drop. apply Forall_app. split; [|done]. apply word_ascii; [by apply Forall_take|].
  rewrite length_take, Nat.min_l by done. exact E.
Qed.

(** All it passes over is ASCII, and it does not go beyond the end. *)
Lemma NonAsciiStart_spec address chars :
  Forall is_byte chars ->
  (NonAsciiStart kIntptrSize address chars <= length chars)%nat /\
  Forall is_ascii (take (NonAsciiStart kIntptrSize address chars) chars).
Proof.
  intros Hb. unfold NonAsciiStart. destruct (Nat.leb_spec kIntptrSize (length chars)) as [Hl|Hl]; [|by apply check_bytes_spec].
  pose proof (Z.mod_pos_bound (- address) (Z.of_nat kIntptrSize) ltac:(lia)) as Hm.
  set (u := Z.to_nat ((- address) mod Z.of_nat kIntptrSize)). assert (Hu : (u < kIntptrSize)%nat) by lia.
  destruct (check_bytes_spec (take u chars)) as [H1 H2]; [by apply Forall_take|]. rewrite length_take, Nat.min_l in H1 by lia.
  rewrite take_take in H2. destruct (Nat.ltb_spec (check_bytes (take u chars)) u) as [Hlt|Hge].
  - split; [lia|]. by rewrite Nat.min_l in H2 by lia.
  - replace (check_bytes (take u chars)) with u in H2 by lia. rewrite Nat.min_id in H2.
    destruct (check_words_spec (S (length chars)) (drop u chars)) as [H3 H4]; [by apply Forall_drop|]. rewrite length_drop in H3.
    split; [lia|]. rewrite <- take_take_drop. by apply Forall_app.
Qed.

End NonAsciiStartSpec.

(** ** Code units *)

(** The code units of a sequence of characters. *)
Definition units (cs : list Z) : list Z := concat (map utf16_encode cs).

Lemma units_cons t cs : units (t :: cs) = utf16_encode t ++ units cs.
Proof. done. Qed.

Lemma decode_ascii bs : Forall is_ascii bs -> decode (kAccept, 0) bs = (bs, (kAccept, 0)).
Proof.
  induction 1 as [|b bs Hb _ IH]; [done|]. unfold is_ascii in Hb. cbn [decode]. unfold feed. cbn [fst snd ValueOfIncremental].
  unfold kMaxOneByteChar. rewrite (proj2 (Z.leb_le b 0x7f)), !Z.eqb_refl by lia. cbn [andb].
  rewrite (proj2 (Z.eqb_neq b kIncomplete)) by (unfold kIncomplete, is_scalar in *; lia). by rewrite IH.
Qed.

Lemma units_ascii bs : Forall is_ascii bs -> units bs = bs.
Proof.
  induction 1 as [|b bs Hb _ IH]; [done|]. rewrite units_cons, IH. unfold utf16_encode, kMaxNonSurrogateCharCode.
  unfold is_ascii in Hb. by rewrite (proj2 (Z.leb_le b 0xffff)) by lia.
Qed.

(** Text that is ASCII is passed over as a whole. *)
Lemma check_bytes_ascii chars : Forall is_ascii chars -> check_bytes chars = length chars.
Proof.
  induction 1 as [|c chars Hc _ IH]; [done|]. cbn [check_bytes]. unfold is_ascii in Hc.
  by rewrite (proj2 (Z.ltb_ge kMaxOneByteChar c)), IH by (unfold kMaxOneByteChar; lia).
Qed.

Lemma ascii_word bytes : Forall is_ascii bytes -> Z.land (load_word bytes) (mask (length bytes)) = 0.
Proof.
  induction 1 as [|b bytes Hb _ IH]; [done|]. cbn [length load_word fold_right]. fold (load_word bytes).
  destruct (mask_succ (length bytes)) as [-> _]. rewrite land_bytes, IH by (unfold is_ascii in Hb; lia).
  assert (E : ((0x7F <? b) || (Z.land b 0x80 =? 0)) = true).
  { refine (bytes_check (fun b => (0x7F <? b) || (Z.land b 0x80 =? 0)) _ b _); [vm_compute; reflexivity|].
    unfold is_byte. unfold is_ascii in Hb. lia. }
  apply orb_true_iff in E as [E|E]; [apply Z.ltb_lt in E; unfold is_ascii in Hb; lia|]. apply Z.eqb_eq in E. lia.
Qed.

Lemma NonAsciiStart_ascii kIntptrSize address chars :
  (0 < kIntptrSize)%nat -> Forall is_ascii chars -> NonAsciiStart kIntptrSize address chars = length chars.
Proof.
  intros Hsize Ha. unfold NonAsciiStart. destruct (Nat.leb_spec kIntptrSize (length chars)) as [Hl|Hl]; [|by apply check_bytes_ascii].
  pose proof (Z.mod_pos_bound (- address) (Z.of_nat kIntptrSize) ltac:(lia)) as Hm. set (u := Z.to_nat _).
  assert (Hu : (u < kIntptrSize)%nat) by lia. rewrite check_bytes_ascii, length_take, Nat.min_l by (first [lia | by apply Forall_take]).
  rewrite Nat.ltb_irrefl.
  assert (Hw : forall fuel cs, (length cs < fuel)%nat -> Forall is_ascii cs -> check_words kIntptrSize fuel cs = length cs).
  { induction fuel as [|fuel IH]; intros cs Hf Hcs; [lia|]. cbn [check_words].
    destruct (Nat.leb_spec kIntptrSize (length cs)); [|by apply check_bytes_ascii].
    pose proof (ascii_word (take kIntptrSize cs) ltac:(by apply Forall_take)) as E. rewrite length_take, Nat.min_l in E by done.
    unfold non_one_byte_mask. fold (mask kIntptrSize). rewrite E. cbn [Z.eqb]. rewrite IH, length_drop; [lia|rewrite length_drop; lia|by apply Forall_drop]. }
  rewrite Hw, length_drop; [lia|rewrite length_drop; lia|by apply Forall_drop].
Qed.
