(* ===== verification/Utf16.v ===== *)
(** * Surrogates in UTF-16

    Models [Utf16::HasUnpairedSurrogate] of [src/strings/unicode-inl.h] and
    [Utf16::ReplaceUnpairedSurrogates] of [src/strings/unicode.cc]. *)

From S2P Require Import Prelude.
From S2P Require Import CharPredicates.
From S2P Require Import Utf8.
From stdpp Require Import base list numbers.
From Stdlib Require Import ZArith Lia Bool.

Local Open Scope Z_scope.

Fixpoint HasUnpairedSurrogate (code_units : list Z) : bool :=
  match code_units with
  | [] => false
  | code_unit :: rest =>
      if IsLeadSurrogate code_unit then
        match rest with
        | [] => true
        | trail :: rest => if negb (IsTrailSurrogate trail) then true else HasUnpairedSurrogate rest
        end
      else if IsTrailSurrogate code_unit then true
      else HasUnpairedSurrogate rest
  end.

Definition kReplacement : Z := 0xFFFD.

(** The code units of the destination. *)
Fixpoint ReplaceUnpairedSurrogates (source_code_units : list Z) : list Z :=
  match source_code_units with
  | [] => []
  | unit :: rest =>
      if IsLeadSurrogate unit then
        match rest with
        | [] => [kReplacement]
        | trail :: rest' =>
            if negb (IsTrailSurrogate trail) then kReplacement :: ReplaceUnpairedSurrogates rest
            else unit :: trail :: ReplaceUnpairedSurrogates rest'
        end
      else (if IsTrailSurrogate unit then kReplacement else unit) :: ReplaceUnpairedSurrogates rest
  end.

(** ** Text *)

Definition is_code_unit (u : Z) : Prop := 0 <= u <= 0xFFFF.

Lemma lead_range u : is_code_unit u -> IsLeadSurrogate u = within 0xd800 0xdbff u.
Proof. intros H. apply IsLeadSurrogate_spec. unfold is_code_unit, kMaxCodePoint in *. lia. Qed.

Lemma trail_range u : is_code_unit u -> IsTrailSurrogate u = within 0xdc00 0xdfff u.
Proof. intros H. apply IsTrailSurrogate_spec. unfold is_code_unit, kMaxCodePoint in *. lia. Qed.

(** Induction over text: a pair counts as one. *)
Lemma units_ind (P : list Z -> Prop) :
  P [] -> (forall u, P [u]) -> (forall u v rest, P rest -> P (v :: rest) -> P (u :: v :: rest)) -> forall us, P us.
Proof.
  intros H0 H1 H2 us. assert (H : P us /\ forall u, P (u :: us)); [|by destruct H].
  induction us as [|v us [IH1 IH2]]; [by split|]. split; [apply IH2|]. intros u. apply H2; [done|apply IH2].
Qed.

(** The code units of a character are one that is no surrogate, or a pair. *)
Lemma utf16_encode_cases c : is_scalar c ->
  (utf16_encode c = [c] /\ IsLeadSurrogate c = false /\ IsTrailSurrogate c = false) \/
  (exists l t, utf16_encode c = [l; t] /\ IsLeadSurrogate l = true /\ IsTrailSurrogate t = true).
Proof.
  intros Hc. unfold is_scalar in Hc. unfold utf16_encode, kMaxNonSurrogateCharCode. destruct (Z.leb_spec c 0xffff) as [H|H].
  - left. rewrite lead_range, trail_range by (unfold is_code_unit; lia). unfold within. split; [done|].
    destruct (Z.leb_spec 0xd800 c), (Z.leb_spec c 0xdbff), (Z.leb_spec 0xdc00 c), (Z.leb_spec c 0xdfff); cbn; first [done | lia].
  - right. eexists _, _. split; [reflexivity|]. rewrite LeadSurrogate_spec, TrailSurrogate_spec by (unfold kMaxCodePoint; lia).
    rewrite lead_range, trail_range by (unfold is_code_unit; div_lia). unfold within.
    rewrite (proj2 (Z.leb_le 0xd800 _)), (proj2 (Z.leb_le _ 0xdbff)), (proj2 (Z.leb_le 0xdc00 _)), (proj2 (Z.leb_le _ 0xdfff)) by div_lia. done.
Qed.

Lemma HasUnpairedSurrogate_units cs : Forall is_scalar cs -> HasUnpairedSurrogate (units cs) = false.
Proof.
  induction 1 as [|c cs Hc _ IH]; [done|]. rewrite units_cons.
  destruct (utf16_encode_cases c Hc) as [(-> & Hl & Ht)|(l & t & -> & Hl & Ht)]; cbn [app HasUnpairedSurrogate]; by rewrite Hl, Ht.
Qed.

(** The character of a pair. *)
Lemma utf16_encode_pair l t :
  is_code_unit l -> is_code_unit t -> IsLeadSurrogate l = true -> IsTrailSurrogate t = true ->
  is_scalar (CombineSurrogatePair l t) /\ utf16_encode (CombineSurrogatePair l t) = [l; t].
Proof.
  intros Hl Ht El Et. rewrite lead_range in El by done. rewrite trail_range in Et by done. unfold within in El, Et. bool_to_prop.
  rewrite CombineSurrogatePair_spec by lia. split; [right; lia|]. unfold utf16_encode, kMaxNonSurrogateCharCode.
  rewrite (proj2 (Z.leb_gt _ 0xffff)) by lia. rewrite LeadSurrogate_spec, TrailSurrogate_spec by (unfold kMaxCodePoint; lia).
  f_equal; [|f_equal]; div_lia.
Qed.

Lemma HasUnpairedSurrogate_text us :
  Forall is_code_unit us -> HasUnpairedSurrogate us = false -> exists cs, Forall is_scalar cs /\ us = units cs.
Proof.
  assert (Hplain : forall u, is_code_unit u -> IsLeadSurrogate u = false -> IsTrailSurrogate u = false -> is_scalar u /\ utf16_encode u = [u]).
  { intros u Hu El Et. rewrite lead_range in El by done. rewrite trail_range in Et by done. unfold is_code_unit in Hu.
    split; [|unfold utf16_encode, kMaxNonSurrogateCharCode; by rewrite (proj2 (Z.leb_le u 0xffff)) by lia].
    unfold is_scalar. unfold within in El, Et. apply andb_false_iff in El, Et. rewrite !Z.leb_gt in El, Et. lia. }
  induction us as [|u|u v rest IH1 IH2] using units_ind; intros Hus Hno; [by exists []| |].
  - inversion Hus as [|? ? Hu _]; subst. cbn [HasUnpairedSurrogate] in Hno.
    destruct (IsLeadSurrogate u) eqn:El; [done|]. destruct (IsTrailSurrogate u) eqn:Et; [done|].
    destruct (Hplain u Hu El Et) as [Hs E]. exists [u]. split; [by constructor|]. by rewrite units_cons, E.
  - inversion Hus as [|? ? Hu Hus1]; subst. inversion Hus1 as [|? ? Hv Hus2]; subst. cbn [HasUnpairedSurrogate] in Hno.
    destruct (IsLeadSurrogate u) eqn:El.
    + destruct (IsTrailSurrogate v) eqn:Et; [|done]. destruct (IH1 Hus2 Hno) as (cs & Hcs & ->).
      destruct (utf16_encode_pair u v Hu Hv El Et) as [Hs E]. exists (CombineSurrogatePair u v :: cs).
      split; [by constructor|]. by rewrite units_cons, E.
    + destruct (IsTrailSurrogate u) eqn:Et; [done|]. destruct (IH2 Hus1 Hno) as (cs & Hcs & E2).
      destruct (Hplain u Hu El Et) as [Hs E]. exists (u :: cs). split; [by constructor|]. by rewrite units_cons, E, E2.
Qed.

(** ** Replacement *)

Lemma ReplaceUnpairedSurrogates_spec us :
  length (ReplaceUnpairedSurrogates us) = length us /\
  HasUnpairedSurrogate (ReplaceUnpairedSurrogates us) = false /\
  (HasUnpairedSurrogate us = false -> ReplaceUnpairedSurrogates us = us).
Proof.
  assert (Hl : IsLeadSurrogate kReplacement = false) by reflexivity. assert (Ht : IsTrailSurrogate kReplacement = false) by reflexivity.
  induction us as [|u|u v rest (A1 & A2 & A3) (B1 & B2 & B3)] using units_ind; [done| |].
  - cbn. destruct (IsLeadSurrogate u) eqn:El; [done|]. destruct (IsTrailSurrogate u) eqn:Et; cbn; [done|]. by rewrite El, Et.
  - destruct (IsLeadSurrogate u) eqn:El; [destruct (IsTrailSurrogate v) eqn:Et|].
    + cbn [ReplaceUnpairedSurrogates HasUnpairedSurrogate length]. rewrite El, Et. cbn [negb length HasUnpairedSurrogate]. rewrite El, Et.
      cbn [negb]. split; [by rewrite A1|]. split; [done|]. intros H. by rewrite A3.
    + assert (E : ReplaceUnpairedSurrogates (u :: v :: rest) = kReplacement :: ReplaceUnpairedSurrogates (v :: rest)).
      { cbn [ReplaceUnpairedSurrogates]. by rewrite El, Et. }
      rewrite E. split; [cbn [length]; by rewrite B1|]. split; [by apply B2|]. cbn [HasUnpairedSurrogate]. by rewrite El, Et.
    + set (w := if IsTrailSurrogate u then kReplacement else u).
      assert (E : ReplaceUnpairedSurrogates (u :: v :: rest) = w :: ReplaceUnpairedSurrogates (v :: rest)).
      { cbn [ReplaceUnpairedSurrogates]. by rewrite El. }
      assert (Hw : IsLeadSurrogate w = false /\ IsTrailSurrogate w = false) by (unfold w; by destruct (IsTrailSurrogate u) eqn:Et).
      destruct Hw as [Hw1 Hw2]. rewrite E. split; [cbn [length]; by rewrite B1|].
      split; [remember (ReplaceUnpairedSurrogates (v :: rest)) as r; cbn [HasUnpairedSurrogate]; by rewrite Hw1, Hw2|].
      remember (v :: rest) as r. cbn [HasUnpairedSurrogate]. rewrite El. unfold w. destruct (IsTrailSurrogate u); [done|].
      intros H. by rewrite B3.
Qed.
