(* ===== verification/Utf8Stream.v ===== *)
(** * The UTF-8 stream

    Models [Utf8ExternalStreamingStream] and [BufferedUtf16CharacterStream] of
    [src/parsing/scanner-character-streams.cc]: source data that arrives in
    chunks, cut anywhere, decoded into a buffer of UTF-16 code units. [chunks_]
    holds the chunks in the order of their arrival; [source_] those the embedder
    will still deliver; [buffer_] the code units up to [buffer_end_]. *)

From S2P Require Import Prelude.
From S2P Require Import CharPredicates.
From S2P Require Import Utf8.
From Stdlib Require Import ZArith Lia Bool.
From stdpp Require Import base list numbers.
Import Utf8DfaDecoder.

Local Open Scope Z_scope.
Local Open Scope prog_scope.

Definition kUtf8Bom : Z := 0xFEFF.

Module Utf8ExternalStreamingStream.

Definition kBufferSize : nat := 512.

Record StreamPosition := mkStreamPosition { bytes : Z; chars : Z; incomplete_char : Z; state : Z }.
Record Position := mkPosition { chunk_no : nat; pos : StreamPosition }.
Record Chunk := mkChunk { data : list Z; start : StreamPosition }.

Record Stream := mkStream {
  source_ : list (list Z);
  chunks_ : list Chunk;
  current_ : Position;
  buffer_ : list Z
}.

Definition new (source : list (list Z)) : Stream :=
  mkStream source [] (mkPosition 0 (mkStreamPosition 0 0 0 kAccept)) [].

Section Operations.
(** The size of a machine word and the addresses of the chunks' data: they
    decide where [NonAsciiStart] looks at whole words. *)
Context (kIntptrSize : nat) (address : nat -> Z).
Local Abbreviation SM := (M Stream).

Definition dcheck (b : bool) : SM unit := if b then ret tt else undefined.

Definition from_res {A} (r : Res A) : SM A :=
  fun s => match r with Ok a => Ok (a, s) | OutOfFuel => OutOfFuel | Undefined => Undefined end.

Definition GetChunk (n : nat) : SM Chunk :=
  let* chunks := gets chunks_ in
  match chunks !! n with Some c => ret c | None => undefined end.

Definition set_position (p : Position) : SM unit :=
  modify (fun s => mkStream (source_ s) (chunks_ s) p (buffer_ s)).

Definition set_buffer (b : list Z) : SM unit :=
  modify (fun s => mkStream (source_ s) (chunks_ s) (current_ s) b).

(** ** Decoding a chunk *)

(** Decodes up to the first whole character, if there is one before the end. *)
Fixpoint first_character (fuel : nat) (cursor : list Z) (state incomplete : Z) : Res (option Z * list Z * Z * Z) :=
  match fuel with
  | O => OutOfFuel
  | S fuel =>
      match cursor with
      | [] => Ok (None, [], state, incomplete)
      | _ =>
          match ValueOfIncremental cursor state incomplete with
          | Ok (t, cursor, state, incomplete) =>
              if t =? kIncomplete then first_character fuel cursor state incomplete
              else Ok (Some t, cursor, state, incomplete)
          | OutOfFuel => OutOfFuel
          | Undefined => Undefined
          end
      end
  end.

(** Enough for every byte to be looked at twice. *)
Definition decode_fuel (cursor : list Z) : nat := 2 * length cursor + 2.

(** How many code units a character takes. *)
Definition count_units (t : Z) : Z := if kMaxNonSurrogateCharCode <? t then 2 else 1.

Fixpoint skip_loop (fuel : nat) (cursor : list Z) (state incomplete chars position : Z) : Res (list Z * Z * Z * Z) :=
  match fuel with
  | O => OutOfFuel
  | S fuel =>
      if (0 <? length cursor)%nat && (chars <? position) then
        match ValueOfIncremental cursor state incomplete with
        | Ok (t, cursor, state, incomplete) =>
            skip_loop fuel cursor state incomplete (if t =? kIncomplete then chars else chars + count_units t) position
        | OutOfFuel => OutOfFuel
        | Undefined => Undefined
        end
      else Ok (cursor, state, incomplete, chars)
  end.

Definition SkipToPosition (position : Z) : SM bool :=
  let* current := gets current_ in
  dcheck (chars (pos current) <=? position) ;;;
  if chars (pos current) =? position then ret true
  else
    let* chunk := GetChunk (chunk_no current) in
    dcheck (bytes (start chunk) <=? bytes (pos current)) ;;;
    let it := bytes (pos current) - bytes (start chunk) in
    let cursor := drop (Z.to_nat it) (data chunk) in
    let* (cursor, st, incomplete, n) :=
      (if (bytes (pos current) <? 3) && (chars (pos current) =? 0) then
         let* (t, cursor, st, incomplete) :=
           from_res (first_character (decode_fuel cursor) cursor (state (start chunk)) (incomplete_char (start chunk))) in
         ret (cursor, st, incomplete,
              match t with Some t => if t =? kUtf8Bom then 0 else count_units t | None => 0 end)
       else ret (cursor, state (start chunk), incomplete_char (start chunk), chars (pos current))) in
    let* (cursor, st, incomplete, n) := from_res (skip_loop (decode_fuel cursor) cursor st incomplete n position) in
    set_position (mkPosition (chunk_no current + (if (length cursor =? 0)%nat then 1 else 0))
      (mkStreamPosition (bytes (start chunk) + (Z.of_nat (length (data chunk)) - Z.of_nat (length cursor))) n incomplete st)) ;;;
    ret (n =? position).

(** The code units of a character. *)
Definition output (t : Z) : list Z :=
  if t <=? kMaxNonSurrogateCharCode then [uint16 t] else [LeadSurrogate t; TrailSurrogate t].

(** [addr] is the address of the end of the chunk. *)
Fixpoint fill_loop (fuel : nat) (addr : Z) (cursor out : list Z) (state incomplete : Z) : Res (list Z * list Z * Z * Z) :=
  match fuel with
  | O => OutOfFuel
  | S fuel =>
      if (0 <? length cursor)%nat && (length out + 1 <? kBufferSize)%nat then
        match ValueOfIncremental cursor state incomplete with
        | Ok (t, cursor, state, incomplete) =>
            if t =? kIncomplete then fill_loop fuel addr cursor out state incomplete
            else
              let out := out ++ output t in
              let max_length := Nat.min (length cursor) (kBufferSize - length out) in
              if state =? kAccept then
                let ascii_length := NonAsciiStart kIntptrSize (addr - Z.of_nat (length cursor)) (take max_length cursor) in
                fill_loop fuel addr (drop ascii_length cursor) (out ++ take ascii_length cursor) state incomplete
              else Undefined
        | OutOfFuel => OutOfFuel
        | Undefined => Undefined
        end
      else Ok (cursor, out, state, incomplete)
  end.

(** The last, empty chunk: a character that was begun is replaced. *)
Definition fill_at_end (current : Position) (out : list Z) : SM unit :=
  let* (t, st) := from_res (ValueOfIncrementalFinish (state (pos current))) in
  if negb (t =? kBufferEmpty) then
    dcheck (t =? kBadChar) ;;;
    set_buffer (out ++ [uint16 t]) ;;;
    set_position (mkPosition (chunk_no current) (mkStreamPosition (bytes (pos current)) (chars (pos current) + 1) 0 st))
  else ret tt.

Definition FillBufferFromCurrentChunk : SM unit :=
  let* current := gets current_ in
  let* out := gets buffer_ in
  let* chunk := GetChunk (chunk_no current) in
  dcheck (length out + 1 <? kBufferSize)%nat ;;;
  if (length (data chunk) =? 0)%nat then fill_at_end current out
  else
    let it := bytes (pos current) - bytes (start chunk) in
    let cursor := drop (Z.to_nat it) (data chunk) in
    let addr := address (chunk_no current) + Z.of_nat (length (data chunk)) in
    let* (cursor, new_out, st, incomplete) :=
      (if (bytes (pos current) <? 3) && (chars (pos current) =? 0) then
         let* (t, cursor, st, incomplete) :=
           from_res (first_character (decode_fuel cursor) cursor (state (pos current)) (incomplete_char (pos current))) in
         ret (cursor, out ++ match t with Some t => if t =? kUtf8Bom then [] else output t | None => [] end, st, incomplete)
       else ret (cursor, out, state (pos current), incomplete_char (pos current))) in
    let* (cursor, new_out, st, incomplete) := from_res (fill_loop (decode_fuel cursor) addr cursor new_out st incomplete) in
    set_position (mkPosition (chunk_no current + (if (length cursor =? 0)%nat then 1 else 0))
      (mkStreamPosition (bytes (start chunk) + (Z.of_nat (length (data chunk)) - Z.of_nat (length cursor)))
         (chars (pos current) + (Z.of_nat (length new_out) - Z.of_nat (length out))) incomplete st)) ;;;
    set_buffer new_out.

(** ** Fetching and searching *)

Definition FetchChunk : SM bool :=
  let* s := gets id in
  dcheck (chunk_no (current_ s) =? length (chunks_ s))%nat ;;;
  dcheck (match chunks_ s !! (length (chunks_ s) - 1)%nat with Some c => negb (length (data c) =? 0)%nat | None => true end) ;;;
  let '(chunk, source) := match source_ s with [] => ([], []) | d :: source => (d, source) end in
  modify (fun s => mkStream source (chunks_ s ++ [mkChunk chunk (pos (current_ s))]) (current_ s) (buffer_ s)) ;;;
  ret (0 <? length chunk)%nat.

(** The last chunk that begins at or before [position], or the first one. *)
Fixpoint search_chunk (chunks : list Chunk) (n : nat) (position : Z) : nat :=
  match n with
  | O => O
  | S m =>
      match chunks !! n with
      | Some c => if position <? chars (start c) then search_chunk chunks m position else n
      | None => n
      end
  end.

Fixpoint search_more (fuel : nat) (position : Z) (found : bool) : SM unit :=
  if negb found then
    match fuel with
    | O => fun _ => OutOfFuel
    | S fuel =>
        let* s := gets id in
        dcheck (chunk_no (current_ s) =? length (chunks_ s))%nat ;;;
        let* have_more_data := FetchChunk in
        if have_more_data : bool then
          let* found := SkipToPosition position in search_more fuel position found
        else ret tt
    end
  else ret tt.

Definition SearchPosition (position : Z) : SM unit :=
  let* s := gets id in
  if chars (pos (current_ s)) =? position then ret tt
  else
    (if (length (chunks_ s) =? 0)%nat then let* _ := FetchChunk in ret tt else ret tt) ;;;
    let* chunks := gets chunks_ in
    let n := search_chunk chunks (length chunks - 1) position in
    let* chunk := GetChunk n in
    if (length (data chunk) =? 0)%nat then set_position (mkPosition n (start chunk))
    else if (n + 1 <? length chunks)%nat then
      let* next := GetChunk (n + 1) in
      let ascii_only_chunk :=
        (incomplete_char (start chunk) =? 0) &&
        (bytes (start next) - bytes (start chunk) =? chars (start next) - chars (start chunk)) in
      (if ascii_only_chunk then
         let skip := position - chars (start chunk) in
         set_position (mkPosition n (mkStreamPosition (bytes (start chunk) + skip) (chars (start chunk) + skip) 0 kAccept))
       else set_position (mkPosition n (start chunk)) ;;; let* _ := SkipToPosition position in ret tt) ;;;
      let* s := gets id in dcheck (position =? chars (pos (current_ s)))
    else
      set_position (mkPosition n (start chunk)) ;;;
      let* found := SkipToPosition position in
      search_more (S (S (length (source_ s)))) position found.

(** ** Filling the buffer *)

Fixpoint fill_more (fuel : nat) (out_of_data : bool) : SM unit :=
  match fuel with
  | O => fun _ => OutOfFuel
  | S fuel =>
      let* s := gets id in
      if negb out_of_data && (length (buffer_ s) =? 0)%nat then
        let* out_of_data :=
          (if (chunk_no (current_ s) =? length (chunks_ s))%nat then let* more := FetchChunk in ret (negb more)
           else ret out_of_data) in
        FillBufferFromCurrentChunk ;;;
        fill_more fuel out_of_data
      else ret tt
  end.

Definition FillBuffer (position : Z) : SM nat :=
  set_buffer [] ;;;
  SearchPosition position ;;;
  let* s := gets id in
  let* out_of_data :=
    (if negb (chunk_no (current_ s) =? length (chunks_ s))%nat then
       let* chunk := GetChunk (chunk_no (current_ s)) in
       ret ((length (data chunk) =? 0)%nat && (incomplete_char (pos (current_ s)) =? 0))
     else ret false) in
  if out_of_data : bool then ret 0%nat
  else
    fill_more (S (S (S (length (source_ s))))) false ;;;
    let* s := gets id in
    dcheck (chars (pos (current_ s)) - position =? Z.of_nat (length (buffer_ s))) ;;;
    ret (length (buffer_ s)).

(** [BufferedUtf16CharacterStream::ReadBlock]; the position it loads is the
    buffer's. *)
Definition ReadBlock (position : Z) : SM bool :=
  let* n := FillBuffer position in
  dcheck (n <=? kBufferSize)%nat ;;;
  ret (0 <? n)%nat.

End Operations.
End Utf8ExternalStreamingStream.
