(* ===== verification/Utf8StreamSpec.v ===== *)
(** * Reading the UTF-8 stream from its beginning to its end

    [Utf8Stream.v] decodes what the embedder delivers chunk by chunk, stops
    wherever a chunk or the buffer ends, and goes on from there. The lemmas here
    lead to one statement: the blocks it loads one after the other are the text
    of all the bytes, decoded at once. *)

From S2P Require Import Prelude.
From S2P Require Import CharPredicates.
From S2P Require Import Utf8.
From S2P Require Import Utf8Stream.
From stdpp Require Import base list numbers.
From Stdlib Require Import ZArith Lia Bool.
Import Utf8DfaDecoder.
Import Utf8ExternalStreamingStream.

Local Open Scope Z_scope.
Local Open Scope prog_scope.

(** ** The text of the bytes *)

(** A byte order mark at the beginning is no part of the text. *)
Definition strip_bom (cs : list Z) : list Z :=
  match cs with c :: cs' => if c =? kUtf8Bom then cs' else cs | [] => [] end.

(** The code units that a UTF-8 source stands for. *)
Definition source_text (bytes : list Z) : list Z := units (strip_bom (decode_text bytes)).

(** What the embedder delivers: an empty chunk ends the data. *)
Fixpoint delivered (source : list (list Z)) : list Z :=
  match source with
  | [] => []
  | d :: source => match d with [] => [] | _ => d ++ delivered source end
  end.

(** The characters a decoder in the middle of the text still finds. *)
Definition chars_from (d : Z * Z) (bytes : list Z) : list Z :=
  let '(cs, (state, _)) := decode d bytes in cs ++ (if state =? kAccept then [] else [kBadChar]).

(** The text still to come; [bom] tells whether a byte order mark may be part of
    it. *)
Definition text_from (bom : bool) (d : Z * Z) (bytes : list Z) : list Z :=
  units ((if bom then strip_bom else id) (chars_from d bytes)).

Lemma chars_from_app d bs bs' :
  chars_from d (bs ++ bs') = fst (decode d bs) ++ chars_from (snd (decode d bs)) bs'.
Proof.
  unfold chars_from. rewrite decode_app. destruct (decode d bs) as [cs d1]. cbn [fst snd].
  destruct (decode d1 bs') as [cs' [st inc]]. by rewrite app_assoc.
Qed.

(** One call of the decoder. *)
Lemma chars_from_step b rest more state buffer t cursor state' buffer' :
  decoder_ok state buffer -> is_byte b ->
  ValueOfIncremental (b :: rest) state buffer = Ok (t, cursor, state', buffer') ->
  chars_from (state, buffer) ((b :: rest) ++ more) =
    (if t =? kIncomplete then [] else [t]) ++ chars_from (state', buffer') (cursor ++ more).
Proof.
  intros Hd Hb E. rewrite ValueOfIncremental_tail in E.
  destruct (ValueOfIncremental [b] state buffer) as [[[[t1 c1] s1] b1]| |] eqn:E1; [|done..].
  injection E as <- <- <- <-. unfold chars_from.
  assert (E2 : ValueOfIncremental (b :: rest ++ more) state buffer = Ok (t1, c1 ++ rest ++ more, s1, b1)).
  { by rewrite ValueOfIncremental_tail, E1. }
  cbn [app]. rewrite (decode_step _ _ _ _ _ _ _ _ Hd Hb E2). rewrite <- app_assoc.
  destruct (decode (s1, b1) _) as [cs [st inc]]. by rewrite app_assoc.
Qed.

Lemma text_from_ascii bs rest :
  Forall is_ascii bs -> text_from false (kAccept, 0) (bs ++ rest) = bs ++ text_from false (kAccept, 0) rest.
Proof.
  intros H. unfold text_from. rewrite chars_from_app, decode_ascii by done. cbn [fst snd id]. unfold units, id.
  rewrite map_app, concat_app. f_equal. by apply units_ascii.
Qed.

Lemma output_utf16 t : 0 <= t <= 0x10FFFF -> output t = utf16_encode t.
Proof.
  intros Ht. unfold output, utf16_encode, kMaxNonSurrogateCharCode. destruct (Z.leb_spec t 0xffff); [|done].
  unfold uint16. by rewrite wrap_small by lia.
Qed.

Lemma output_length t : (1 <= length (output t) <= 2)%nat.
Proof. unfold output. case_match; cbn; lia. Qed.

(** ** The first character *)

(** The states of the decoder behind the first [n] bytes of the data when they
    are no character yet. *)
Definition fresh (n : Z) (state buffer : Z) : Prop :=
  (n = 0 /\ state = kAccept /\ buffer = 0) \/
  (n = 1 /\ ((state = kTwoByte /\ 0 <= buffer <= 0x1F) \/
     (state = kThreeByte /\ (0 <= buffer < 0xD \/ 0xD < buffer <= 0xF)) \/
     (state = kThreeByteLowMid /\ buffer = 0xD) \/ (state = kThreeByteHigh /\ buffer = 0) \/
     (state = kFourByte /\ 1 <= buffer <= 3) \/ (state = kFourByteLow /\ buffer = 4) \/ (state = kFourByteMidHigh /\ buffer = 0))) \/
  (n = 2 /\ ((state = kTwoByte /\ (0 <= buffer < 0x360 \/ 0x380 <= buffer <= 0x3FF)) \/ (state = kThreeByte /\ 0x10 <= buffer <= 0x10F))) \/
  (n = 3 /\ state = kTwoByte /\ 0x400 <= buffer <= 0x43FF).

Ltac fresh_cases := repeat first [progress destruct_and? | progress destruct_or?].

Lemma fresh_ok n state buffer : fresh n state buffer -> decoder_ok state buffer /\ 0 <= n <= 3.
Proof.
  intros H. unfold fresh in H. fresh_cases; subst; (split; [|lia]);
    unfold decoder_ok; repeat first [left; split; [reflexivity|lia] | right | split; [reflexivity|lia]].
Qed.

Lemma fresh_lead b : is_byte b -> 0x80 <= b -> next kAccept b <> kReject -> fresh 1 (next kAccept b) (payload b).
Proof.
  intros Hb Hge. rewrite next_accept, payload_eq by done. unfold Utf8.between. unfold is_byte in Hb.
  repeat case_match; bool_to_prop; try lia; intros Hn; try done; unfold fresh; right; left; (split; [done|]);
    repeat first [left; split; [first [reflexivity | by auto]|lia] | right | split; [reflexivity|lia]].
Qed.

(** What a continuation byte does before there is a character. *)
Lemma fresh_continue n state buffer b :
  fresh n state buffer -> state <> kAccept -> is_byte b -> next state b <> kReject ->
  payload b < 64 /\
  (next state b = kAccept -> buffer * 64 + payload b = kUtf8Bom -> n = 2) /\
  (next state b <> kAccept -> fresh (n + 1) (next state b) (buffer * 64 + payload b)).
Proof.
  intros Hf Hs Hb Hn. assert (Hin : In state pending_states).
  { destruct (decoder_ok_states _ _ (proj1 (fresh_ok _ _ _ Hf))) as [?|?]; [by subst|done]. }
  split; [by apply (continue_payload state)|]. rewrite next_pending in Hn |- * by done.
  destruct (continuation state) as [[lo hi] state'] eqn:Ec. unfold Utf8.between in *.
  destruct (Z.leb_spec lo b), (Z.leb_spec b hi); cbn [andb] in *; try done.
  assert (Hlo : 0x80 <= lo /\ hi <= 0xBF) by (cbn in Hin; repeat destruct Hin as [<-|Hin]; [..|done]; cbn in Ec; injection Ec as <- <- <-; lia).
  assert (Hp : payload b = b - 0x80).
  { rewrite payload_eq by done. by rewrite (proj2 (Z.leb_gt b 0x7F)), (proj2 (Z.leb_le b 0xBF)) by lia. }
  rewrite Hp. unfold kUtf8Bom. unfold fresh in Hf.
  fresh_cases; subst; try done; cbn in Ec; injection Ec as <- <- <-;
    (split; [intros E1 E2; first [discriminate E1 | lia]|intros E1; first [done | idtac]]);
    unfold fresh; right; right;
    first [ right; split; [reflexivity|split; [reflexivity|lia]]
          | left; split; [reflexivity|]; first [left; split; [reflexivity|lia] | right; split; [reflexivity|lia]] ].
Qed.

Lemma fresh_step n b rest state buffer t cursor state' buffer' :
  fresh n state buffer -> is_byte b -> ValueOfIncremental (b :: rest) state buffer = Ok (t, cursor, state', buffer') ->
  (t = kIncomplete -> fresh (n + 1) state' buffer') /\ (t = kUtf8Bom -> n = 2 /\ cursor = rest).
Proof.
  intros Hf Hb E. destruct (fresh_ok _ _ _ Hf) as [Hd Hn]. pose proof (payload_range b Hb) as [Hp1 Hp2].
  destruct (decoder_ok_buffer _ _ Hd) as [Hbuf Hacc]. cbn [ValueOfIncremental] in E. unfold kMaxOneByteChar in E. unfold is_byte in Hb.
  destruct (Z.eqb_spec state kAccept) as [Es|Es].
  - specialize (Hacc Es). subst state buffer. rewrite andb_true_r in E. destruct (Z.leb_spec b 0x7f) as [H1|H1]; cbn [andb Z.eqb] in E.
    { injection E as <- <- <- <-. unfold kIncomplete, kUtf8Bom. split; intros; lia. }
    rewrite Decode_eq, shift_in, Z.mul_0_l, Z.add_0_l in E by lia.
    assert (n = 0) as -> by (unfold fresh in Hf; fresh_cases; done).
    destruct (Z.eqb_spec (next kAccept b) kAccept) as [E1|E1].
    { exfalso. rewrite next_accept in E1 by (unfold is_byte; lia). unfold Utf8.between in E1. repeat case_match; bool_to_prop; first [lia|done]. }
    destruct (Z.eqb_spec (next kAccept b) kReject) as [E2|E2]; injection E as <- <- <- <-; [by split|].
    split; [|by intros]. intros _. apply fresh_lead; [done|lia|done].
  - rewrite andb_false_r, Decode_eq in E. destruct (Z.eqb_spec (next state b) kReject) as [E2|E2].
    { rewrite E2 in E. cbn in E. injection E as <- <- <- <-. by split. }
    destruct (fresh_continue n state buffer b Hf Es Hb E2) as (Hp & HB & HI). rewrite shift_in in E by lia.
    destruct (Z.eqb_spec (next state b) kAccept) as [E1|E1]; injection E as <- <- <- <-.
    + split; [|intros Et; split; [by apply HB|done]]. unfold kIncomplete. intros Et. exfalso.
      destruct (continue_step state buffer b Hd Es Hb) as [?|[[_ ?]|[_ ?]]]; [done|unfold is_scalar in *; lia|done].
    + split; [|done]. intros _. by apply HI.
Qed.

(** A character of four bytes is no byte order mark. *)
Lemma text_from_four state buffer bytes :
  fresh 3 state buffer -> Forall is_byte bytes -> text_from true (state, buffer) bytes = text_from false (state, buffer) bytes.
Proof.
  intros Hf Hbs. destruct (fresh_ok _ _ _ Hf) as [Hd _]. unfold text_from. f_equal.
  destruct Hbs as [|b rest Hb _].
  - unfold chars_from. cbn. by case_match.
  - destruct (ValueOfIncremental_spec b rest state buffer Hd Hb) as (t & cursor & s' & b' & E & _ & Hr).
    pose proof (fresh_step 3 _ _ _ _ _ _ _ _ Hf Hb E) as [H1 H2].
    pose proof (chars_from_step b rest [] _ _ _ _ _ _ Hd Hb E) as Hc. rewrite !app_nil_r in Hc. rewrite Hc.
    destruct (Z.eqb_spec t kIncomplete) as [Et|Et].
    + exfalso. specialize (H1 Et). unfold fresh in H1. lia.
    + cbn. destruct (Z.eqb_spec t kUtf8Bom) as [Eb|Eb]; [|done]. exfalso. specialize (H2 Eb). lia.
Qed.

(** What the loop that looks for the first character ends with. *)
Definition first_result (n : Z) (cursor : list Z) (d : Z * Z) (t : option Z) (cursor' : list Z) (state' inc' : Z) : Prop :=
  match t with
  | None => cursor' = [] /\ fresh (n + Z.of_nat (length cursor)) state' inc' /\
      forall more, chars_from d (cursor ++ more) = chars_from (state', inc') more
  | Some t => is_scalar t /\ state' = kAccept /\ inc' = 0 /\
      (t = kUtf8Bom -> 3 <= n + (Z.of_nat (length cursor) - Z.of_nat (length cursor'))) /\
      forall more, chars_from d (cursor ++ more) = t :: chars_from (kAccept, 0) (cursor' ++ more)
  end.

Lemma first_character_spec fuel cursor state inc n :
  fresh n state inc -> Forall is_byte cursor -> (length cursor < fuel)%nat ->
  exists t cursor' state' inc',
    first_character fuel cursor state inc = Ok (t, cursor', state', inc') /\ (exists taken, cursor = taken ++ cursor') /\
    first_result n cursor (state, inc) t cursor' state' inc'.
Proof.
  revert cursor state inc n. induction fuel as [|fuel IH]; intros cursor state inc n Hf Hbs Hl; [lia|].
  destruct Hbs as [|b rest Hb Hbs].
  { exists None, [], state, inc. split; [done|]. split; [by exists []|]. cbn. rewrite Z.add_0_r. by repeat split. }
  destruct (fresh_ok _ _ _ Hf) as [Hd _].
  destruct (ValueOfIncremental_spec b rest state inc Hd Hb) as (t & cursor & s' & i' & E & _ & Hr).
  pose proof (fresh_step _ _ _ _ _ _ _ _ _ Hf Hb E) as [HI HB].
  pose proof (fun more => chars_from_step b rest more _ _ _ _ _ _ Hd Hb E) as Hc.
  cbn [first_character]. rewrite E. cbn [length] in Hl.
  destruct Hr as [(-> & -> & Hs)|(Ht & -> & -> & Hcur)].
  - rewrite Z.eqb_refl in Hc |- *. cbn [app] in Hc.
    destruct (IH rest s' i' (n + 1) (HI eq_refl) Hbs ltac:(lia)) as (t' & c' & s2 & i2 & E2 & [taken Htk] & Hr2).
    exists t', c', s2, i2. split; [done|]. split; [exists (b :: taken); cbn; by rewrite Htk|]. unfold first_result in Hr2 |- *.
    cbn [length]. destruct t' as [t'|].
    + destruct Hr2 as (H1 & H2 & H3 & H4 & H5). do 3 (split; [done|]). split; [intros Eb; specialize (H4 Eb); lia|].
      intros more. cbn [app]. by rewrite Hc, H5.
    + destruct Hr2 as (H1 & H2 & H3). split; [done|].
      replace (n + Z.of_nat (S (length rest))) with (n + 1 + Z.of_nat (length rest)) by lia. split; [done|].
      intros more. cbn [app]. by rewrite Hc, H3.
  - assert (Et : (t =? kIncomplete) = false) by (apply Z.eqb_neq; unfold kIncomplete, is_scalar in *; lia). rewrite Et in Hc |- *.
    exists (Some t), cursor, kAccept, 0. split; [done|].
    split; [destruct Hcur as [->|[-> _]]; [by exists [b]|by exists []]|]. split; [done|]. do 2 (split; [done|]). split; [|done].
    intros Eb. destruct (HB Eb) as [-> ->]. cbn [length]. lia.
Qed.

(** ** Filling the buffer from a chunk *)

Lemma text_from_step b rest state buffer t cursor state' buffer' :
  decoder_ok state buffer -> is_byte b ->
  ValueOfIncremental (b :: rest) state buffer = Ok (t, cursor, state', buffer') ->
  forall more, text_from false (state, buffer) ((b :: rest) ++ more) =
    (if t =? kIncomplete then [] else utf16_encode t) ++ text_from false (state', buffer') (cursor ++ more).
Proof.
  intros Hd Hb E more. unfold text_from, id. rewrite (chars_from_step b rest more _ _ _ _ _ _ Hd Hb E). by case_match.
Qed.

Section FillLoop.
Context (kIntptrSize : nat) (Hsize : (0 < kIntptrSize)%nat) (addr : Z).

(** The fast path behind a character copies text. *)
Lemma ascii_path (cursor out : list Z) :
  Forall is_byte cursor -> (length out <= kBufferSize)%nat ->
  let n := NonAsciiStart kIntptrSize (addr - Z.of_nat (length cursor)) (take (Nat.min (length cursor) (kBufferSize - length out)) cursor) in
  (n <= length cursor)%nat /\ (length out + n <= kBufferSize)%nat /\
  forall more, text_from false (kAccept, 0) (cursor ++ more) = take n cursor ++ text_from false (kAccept, 0) (drop n cursor ++ more).
Proof.
  intros Hbs Hl. cbv zeta. set (m := Nat.min _ _).
  destruct (NonAsciiStart_spec kIntptrSize Hsize (addr - Z.of_nat (length cursor)) (take m cursor)) as [H1 H2]; [by apply Forall_take|].
  set (n := NonAsciiStart _ _ _) in *. rewrite length_take in H1. split; [lia|]. split; [lia|]. intros more.
  rewrite <- text_from_ascii, app_assoc, take_drop by (rewrite take_take, Nat.min_l in H2 by lia; done). done.
Qed.

Definition fill_measure (cursor : list Z) (state : Z) : nat := 2 * length cursor + (if state =? kAccept then 0 else 1).

Lemma fill_loop_spec fuel cursor out state inc :
  decoder_ok state inc -> Forall is_byte cursor -> (length out <= kBufferSize)%nat -> (fill_measure cursor state < fuel)%nat ->
  exists cursor' added state' inc',
    fill_loop kIntptrSize fuel addr cursor out state inc = Ok (cursor', out ++ added, state', inc') /\
    decoder_ok state' inc' /\ (exists taken, cursor = taken ++ cursor') /\ (length (out ++ added) <= kBufferSize)%nat /\
    (cursor' = [] \/ (kBufferSize <= length (out ++ added) + 1)%nat) /\
    forall more, text_from false (state, inc) (cursor ++ more) = added ++ text_from false (state', inc') (cursor' ++ more).
Proof.
  revert cursor out state inc. induction fuel as [|fuel IH]; intros cursor out state inc Hd Hbs Hl Hfuel; [lia|]. cbn [fill_loop].
  destruct Hbs as [|b rest Hb Hbs].
  { cbn. exists [], [], state, inc. rewrite app_nil_r. do 2 (split; [done|]). split; [by exists []|]. by auto. }
  cbn [length]. rewrite (proj2 (Nat.ltb_lt 0 (S (length rest)))) by lia.
  destruct (Nat.ltb_spec (length out + 1) kBufferSize) as [Hroom|Hroom]; cbn [andb].
  2: { exists (b :: rest), [], state, inc. rewrite app_nil_r. do 2 (split; [done|]). split; [by exists []|]. by auto. }
  destruct (ValueOfIncremental_spec b rest state inc Hd Hb) as (t & cursor & s' & i' & E & Hd' & Hr). rewrite E.
  pose proof (text_from_step b rest _ _ _ _ _ _ Hd Hb E) as Ht. unfold fill_measure in Hfuel. cbn [length] in Hfuel.
  destruct Hr as [(-> & -> & Hs)|(Hrange & -> & -> & Hcur)].
  - rewrite Z.eqb_refl in Ht |- *.
    destruct (IH rest out s' i' Hd' Hbs Hl) as (c2 & a2 & s2 & i2 & E2 & Hd2 & [tk Htk] & Hl2 & Hend & Ht2).
    { unfold fill_measure. destruct (state =? kAccept), (s' =? kAccept); lia. }
    exists c2, a2, s2, i2. do 2 (split; [done|]). split; [exists (b :: tk); cbn; by rewrite Htk|]. do 2 (split; [done|]).
    intros more. rewrite Ht. by rewrite Ht2.
  - rewrite (proj2 (Z.eqb_neq t kIncomplete)) in Ht |- * by (unfold kIncomplete, is_scalar in *; lia). rewrite Z.eqb_refl. cbv zeta.
    assert (Hbc : Forall is_byte cursor /\ exists tk, b :: rest = tk ++ cursor).
    { destruct Hcur as [->|[-> _]]; (split; [first [done | by constructor]|]); [by exists [b]|by exists []]. }
    destruct Hbc as [Hbc [tk Htk]]. pose proof (output_length t) as Hol.
    destruct (ascii_path cursor (out ++ output t) Hbc) as (Hn1 & Hn2 & Ha); [rewrite length_app; lia|]. cbv zeta in *.
    set (n := NonAsciiStart _ _ _) in *.
    destruct (IH (drop n cursor) ((out ++ output t) ++ take n cursor) kAccept 0) as (c2 & a2 & s2 & i2 & E2 & Hd2 & [tk2 Htk2] & Hl2 & Hend & Ht2).
    + by left.
    + by apply Forall_drop.
    + rewrite (length_app (out ++ _)), length_take. lia.
    + unfold fill_measure. rewrite length_drop. cbn [Z.eqb]. rewrite Z.eqb_refl.
      destruct Hcur as [->|[-> Hs]]; [lia|]. rewrite (proj2 (Z.eqb_neq _ _) Hs) in Hfuel. cbn [length]. lia.
    + exists c2, (output t ++ take n cursor ++ a2), s2, i2. rewrite !app_assoc. do 2 (split; [done|]).
      split; [exists (tk ++ take n cursor ++ tk2); rewrite Htk, <- !app_assoc, <- Htk2; by rewrite take_drop|].
      do 2 (split; [done|]). intros more. rewrite Ht, Ha, Ht2, <- (output_utf16 t) by (unfold is_scalar in Hrange; lia). by rewrite <- !app_assoc.
Qed.

End FillLoop.

(** ** Positions *)

(** Whether a byte order mark may still come. *)
Definition bom_open (p : StreamPosition) : bool := (bytes p <? 3) && (chars p =? 0).

Definition position_ok (p : StreamPosition) : Prop :=
  decoder_ok (state p) (incomplete_char p) /\ 0 <= bytes p /\ 0 <= chars p /\
  (bom_open p = true -> fresh (bytes p) (state p) (incomplete_char p)).

Definition text_at (p : StreamPosition) (tail : list Z) : list Z :=
  text_from (bom_open p) (state p, incomplete_char p) tail.

Definition advance (p : StreamPosition) (n k : nat) (state inc : Z) : StreamPosition :=
  mkStreamPosition (bytes p + Z.of_nat n) (chars p + Z.of_nat k) inc state.

Lemma advance_closed p n k st inc :
  0 <= bytes p -> 0 <= chars p -> bom_open p = false \/ 3 <= bytes p + Z.of_nat n \/ (0 < k)%nat -> bom_open (advance p n k st inc) = false.
Proof.
  intros H1 H2 H. unfold bom_open, advance in *. cbn. apply andb_false_iff. destruct H as [H|[H|H]].
  - apply andb_false_iff in H as [H|H]; [left; apply Z.ltb_ge in H; apply Z.ltb_ge; lia|].
    right. apply Z.eqb_neq in H. apply Z.eqb_neq. lia.
  - left. apply Z.ltb_ge. lia.
  - right. apply Z.eqb_neq. lia.
Qed.

(** The text behind a position, and behind one the decoder reaches from it. *)
Definition reads (p : StreamPosition) (cursor : list Z) (p' : StreamPosition) (cursor' added : list Z) : Prop :=
  position_ok p' /\ forall more, Forall is_byte more -> text_at p (cursor ++ more) = added ++ text_at p' (cursor' ++ more).

Lemma reads_closed p cursor cursor' added n st inc :
  position_ok p -> decoder_ok st inc -> bom_open (advance p n (length added) st inc) = false ->
  (forall more, text_at p (cursor ++ more) = added ++ text_from false (st, inc) (cursor' ++ more)) ->
  reads p cursor (advance p n (length added) st inc) cursor' added.
Proof.
  intros (_ & Hb & Hc & _) Hd Hbom Ht. split.
  - split; [done|]. cbn. do 2 (split; [lia|]). by rewrite Hbom.
  - intros more _. rewrite Ht. unfold text_at. by rewrite Hbom.
Qed.

(** Nothing but the beginning of the first character. *)
Lemma reads_open p cursor st inc :
  position_ok p -> bom_open p = true -> fresh (bytes p + Z.of_nat (length cursor)) st inc ->
  (forall more, chars_from (state p, incomplete_char p) (cursor ++ more) = chars_from (st, inc) more) ->
  reads p cursor (advance p (length cursor) 0 st inc) [] [].
Proof.
  intros (_ & Hb & Hc & _) Hbom Hf Ht. destruct (fresh_ok _ _ _ Hf) as [Hd Hn].
  assert (Ec : chars p = 0) by (unfold bom_open in Hbom; apply andb_true_iff in Hbom as [_ H]; by apply Z.eqb_eq).
  split.
  - split; [done|]. cbn. do 2 (split; [lia|]). by intros _.
  - intros more Hm. cbn [app]. unfold text_at. rewrite Hbom. cbn [advance state incomplete_char].
    replace (text_from true _ (cursor ++ more)) with (text_from true (st, inc) more) by (unfold text_from; by rewrite Ht).
    destruct (bom_open (advance p (length cursor) 0 st inc)) eqn:E; [done|]. apply text_from_four; [|done].
    unfold bom_open in E. cbn in E. rewrite Ec in E. cbn in E. rewrite andb_true_r in E. apply Z.ltb_ge in E.
    by replace 3 with (bytes p + Z.of_nat (length cursor)) by lia.
Qed.

(** ** A chunk *)

Section Chunk.
Context (kIntptrSize : nat) (Hsize : (0 < kIntptrSize)%nat) (address : nat -> Z).

Lemma wp_dcheck b (Q : unit -> Stream -> Prop) s : b = true -> Q tt s -> wp (dcheck b) Q s.
Proof. by intros ->. Qed.

Lemma wp_from_res {A} (r : Res A) a (Q : A -> Stream -> Prop) s : r = Ok a -> Q a s -> wp (from_res r) Q s.
Proof. by intros ->. Qed.

Lemma wp_GetChunk n c (Q : Chunk -> Stream -> Prop) s : chunks_ s !! n = Some c -> Q c s -> wp (GetChunk n) Q s.
Proof. intros H HQ. unfold GetChunk. apply wp_bind, wp_gets. by rewrite H. Qed.

(** The part of a call that looks for the first character. *)
Definition fill_first (current : Position) (cursor out : list Z) : M Stream (list Z * list Z * Z * Z) :=
  if (bytes (pos current) <? 3) && (chars (pos current) =? 0) then
    let* (t, cursor, st, incomplete) :=
      from_res (first_character (decode_fuel cursor) cursor (state (pos current)) (incomplete_char (pos current))) in
    ret (cursor, out ++ match t with Some t => if t =? kUtf8Bom then [] else output t | None => [] end, st, incomplete)
  else ret (cursor, out, state (pos current), incomplete_char (pos current)).

(** Both parts together take the position on. *)
Lemma fill_cursor current cursor addr s :
  position_ok (pos current) -> Forall is_byte cursor ->
  wp (let* (cursor, out, st, inc) := fill_first current cursor [] in
      from_res (fill_loop kIntptrSize (decode_fuel cursor) addr cursor out st inc))
    (fun r s' => s' = s /\ let '(cursor', out, st, inc) := r in
       exists taken, cursor = taken ++ cursor' /\ (length out <= kBufferSize)%nat /\ (out = [] -> cursor' = []) /\
         reads (pos current) cursor (advance (pos current) (length taken) (length out) st inc) cursor' out) s.
Proof.
  intros Hp Hbs. pose proof Hp as (Hd & Hb & Hc & Hf). set (p := pos current) in *. unfold fill_first. fold p (bom_open p).
  apply wp_bind. destruct (bom_open p) eqn:Ebom.
  - specialize (Hf eq_refl).
    destruct (first_character_spec (decode_fuel cursor) cursor (state p) (incomplete_char p) (bytes p) Hf Hbs)
      as (t & c1 & s1 & i1 & E1 & [tk Htk] & Hr); [unfold decode_fuel; lia|].
    apply wp_bind. eapply wp_from_res; [exact E1|]. apply wp_ret. destruct t as [t|]; cbn [first_result app] in Hr |- *.
    + destruct Hr as (Ht & -> & -> & HB & Hch).
      assert (Hbs1 : Forall is_byte c1) by (rewrite Htk in Hbs; apply List.Forall_app in Hbs as [_ Hbs]; exact Hbs).
      set (out1 := if t =? kUtf8Bom then [] else output t).
      assert (Hl1 : (length out1 <= 2)%nat) by (unfold out1; case_match; [cbn; lia|apply output_length]).
      destruct (fill_loop_spec kIntptrSize Hsize addr (decode_fuel c1) c1 out1 kAccept 0) as (c2 & a2 & s2 & i2 & E2 & Hd2 & [tk2 Htk2] & Hl2 & Hend & Ht2);
        [by left|done|unfold kBufferSize; lia|unfold fill_measure, decode_fuel; cbn; lia|].
      eapply wp_from_res; [exact E2|]. split; [done|]. exists (tk ++ tk2). split; [by rewrite Htk, Htk2, app_assoc|]. split; [done|].
      split; [intros Eo; destruct Hend as [?|He]; [done|rewrite Eo in He; unfold kBufferSize in He; cbn in He; lia]|].
      apply reads_closed; [done|done| |].
      * apply advance_closed; [done|done|]. right. unfold out1. rewrite Htk, !length_app in *.
        destruct (Z.eqb_spec t kUtf8Bom) as [Eb|Eb]; [left; specialize (HB Eb); lia|right; pose proof (output_length t); lia].
      * intros more. unfold text_at, text_from at 1. rewrite Ebom, Hch. cbn [strip_bom]. rewrite <- app_assoc, <- Ht2.
        unfold out1. destruct (Z.eqb_spec t kUtf8Bom); [done|]. by rewrite units_cons, output_utf16 by (unfold is_scalar in Ht; lia).
    + destruct Hr as (-> & Hf1 & Hch). eapply wp_from_res; [reflexivity|]. split; [done|]. exists cursor.
      rewrite app_nil_r. split; [done|]. split; [cbn; unfold kBufferSize; lia|]. split; [done|].
      by apply reads_open.
  - destruct (fill_loop_spec kIntptrSize Hsize addr (decode_fuel cursor) cursor [] (state p) (incomplete_char p))
      as (c2 & a2 & s2 & i2 & E2 & Hd2 & [tk2 Htk2] & Hl2 & Hend & Ht2);
      [done|done|cbn; unfold kBufferSize; lia|unfold fill_measure, decode_fuel; case_match; lia|].
    apply wp_ret. eapply wp_from_res; [exact E2|]. split; [done|]. exists tk2. split; [done|]. split; [done|].
    split; [intros Eo; destruct Hend as [?|He]; [done|rewrite Eo in He; unfold kBufferSize in He; cbn in He; lia]|].
    apply reads_closed; [done|done|by apply advance_closed; auto|]. intros more. unfold text_at. by rewrite Ebom, Ht2.
Qed.

(** The cursor of the current chunk. *)
Definition unread (c : Chunk) (p : StreamPosition) : list Z := drop (Z.to_nat (bytes p - bytes (start c))) (data c).

Definition inside_chunk (c : Chunk) (p : StreamPosition) : Prop :=
  data c <> [] /\ Forall is_byte (data c) /\ bytes (start c) <= bytes p <= bytes (start c) + Z.of_nat (length (data c)).

Lemma FillBufferFromCurrentChunk_spec source chunks n p c :
  chunks !! n = Some c -> inside_chunk c p -> position_ok p ->
  wp (FillBufferFromCurrentChunk kIntptrSize address)
    (fun _ s' => exists taken cursor' p',
       unread c p = taken ++ cursor' /\ unread c p' = cursor' /\ inside_chunk c p' /\
       current_ s' = mkPosition (n + (if (length cursor' =? 0)%nat then 1 else 0)) p' /\
       source_ s' = source /\ chunks_ s' = chunks /\ chars p' = chars p + Z.of_nat (length (buffer_ s')) /\
       (length (buffer_ s') <= kBufferSize)%nat /\ (buffer_ s' = [] -> cursor' = []) /\
       reads p (unread c p) p' cursor' (buffer_ s')) (mkStream source chunks (mkPosition n p) []).
Proof.
  intros Hc (Hne & Hbs & Hb1 & Hb2) Hp. unfold FillBufferFromCurrentChunk.
  apply wp_bind, wp_gets. apply wp_bind, wp_gets. cbn [chunk_no current_ buffer_ pos].
  apply wp_bind. eapply wp_GetChunk; [exact Hc|]. apply wp_bind, wp_dcheck; [done|].
  rewrite (proj2 (Nat.eqb_neq (length (data c)) 0)) by (by destruct (data c)). cbv zeta. fold (unread c p).
  set (addr := address n + Z.of_nat (length (data c))). set (s := mkStream source chunks (mkPosition n p) []).
  pose proof (fill_cursor (mkPosition n p) (unread c p) addr s Hp ltac:(by apply Forall_drop)) as H. apply wp_bind_inv in H.
  apply wp_bind. eapply wp_mono; [exact H|]. clear H. intros [[[c1 o1] s1] i1] s0 H. apply wp_bind. eapply wp_mono; [exact H|].
  clear H. intros [[[c2 o2] s2] i2] s3 (Es & taken & Htk & Hl & He & Hr). subst s3. cbn [pos] in Hr.
  apply wp_bind, wp_modify, wp_modify. cbn.
  pose proof (f_equal length Htk) as Hlen. unfold unread in Hlen. rewrite length_drop, length_app in Hlen.
  set (p' := mkStreamPosition _ _ _ _). assert (Ep : p' = advance p (length taken) (length o2) s2 i2).
  { unfold p', advance. f_equal; lia. }
  exists taken, c2, p'. split; [done|].
  assert (Hbytes : bytes p' = bytes (start c) + (Z.of_nat (length (data c)) - Z.of_nat (length c2))) by done.
  split.
  { apply (f_equal (drop (length taken))) in Htk. rewrite drop_app_length in Htk. rewrite <- Htk. unfold unread. rewrite drop_drop. f_equal. lia. }
  split; [split; [done|split; [done|lia]]|]. rewrite Ep in *. do 3 (split; [done|]). split; [cbn; lia|]. do 2 (split; [done|]). done.
Qed.

End Chunk.

(** ** The stream *)

Section Streaming.
Context (kIntptrSize : nat) (Hsize : (0 < kIntptrSize)%nat) (address : nat -> Z).

(** [tail]: the bytes that are still to be read. *)
Inductive position_in (s : Stream) (tail : list Z) : Prop :=
  | at_end_of_chunk :
      chunk_no (current_ s) = length (chunks_ s) ->
      match chunks_ s !! (length (chunks_ s) - 1)%nat with Some c => data c <> [] | None => True end ->
      tail = delivered (source_ s) -> position_in s tail
  | in_chunk c :
      S (chunk_no (current_ s)) = length (chunks_ s) -> chunks_ s !! chunk_no (current_ s) = Some c ->
      inside_chunk c (pos (current_ s)) -> tail = unread c (pos (current_ s)) ++ delivered (source_ s) -> position_in s tail
  | at_end_of_data c :
      S (chunk_no (current_ s)) = length (chunks_ s) -> chunks_ s !! chunk_no (current_ s) = Some c ->
      data c = [] -> state (pos (current_ s)) = kAccept -> tail = [] -> position_in s tail.

(** What is left of the text. *)
Definition left_over (s : Stream) (text : list Z) : Prop :=
  Forall (Forall is_byte) (source_ s) /\ position_ok (pos (current_ s)) /\
  exists tail, position_in s tail /\ text = text_at (pos (current_ s)) tail.

Lemma delivered_bytes source : Forall (Forall is_byte) source -> Forall is_byte (delivered source).
Proof. induction 1 as [|d source Hd _ IH]; [done|]. cbn. destruct d; [done|]. by apply List.Forall_app. Qed.

(** Filling from a chunk that has data, current or just fetched. *)
Lemma fill_in_chunk source chunks n p c :
  Forall (Forall is_byte) source -> S n = length chunks -> chunks !! n = Some c -> inside_chunk c p -> position_ok p ->
  wp (FillBufferFromCurrentChunk kIntptrSize address)
    (fun _ s' => exists rest, left_over s' rest /\ source_ s' = source /\
       text_at p (unread c p ++ delivered source) = buffer_ s' ++ rest /\
       chars (pos (current_ s')) = chars p + Z.of_nat (length (buffer_ s')) /\ (length (buffer_ s') <= kBufferSize)%nat /\
       (buffer_ s' = [] -> chunk_no (current_ s') = length (chunks_ s'))) (mkStream source chunks (mkPosition n p) []).
Proof.
  intros Hsrc Hn Hc Hin Hp. eapply wp_mono; [by eapply FillBufferFromCurrentChunk_spec|].
  intros _ s' (taken & cursor' & p' & Htk & Hun & Hin' & Ecur & Esrc & Ech & Hch & Hl & He & Hp' & Ht). cbn beta.
  exists (text_at p' (cursor' ++ delivered source)). rewrite Ecur, Esrc, Ech. cbn [pos chunk_no].
  assert (Hlast : chunks !! (length chunks - 1)%nat = Some c) by (rewrite <- Hn; cbn; by rewrite Nat.sub_0_r).
  split; [|split; [done|split; [apply Ht; by apply delivered_bytes|split; [done|split; [done|]]]]].
  - split; [by rewrite Esrc|]. rewrite Ecur. cbn [pos]. split; [done|]. eexists. split; [|reflexivity].
    destruct (Nat.eqb_spec (length cursor') 0) as [E|E].
    + apply at_end_of_chunk; rewrite ?Ecur, ?Esrc, ?Ech; cbn [chunk_no]; [lia|by rewrite Hlast; destruct Hin|].
      by destruct cursor'.
    + apply (in_chunk s' _ c); rewrite ?Ecur, ?Esrc, ?Ech; cbn [chunk_no pos]; [lia|by rewrite Nat.add_0_r|done|by rewrite Hun].
  - intros Eb. rewrite (He Eb). cbn. lia.
Qed.

(** The last, empty chunk. *)
Lemma fill_last_chunk source chunks n p c :
  Forall (Forall is_byte) source -> S n = length chunks -> chunks !! n = Some c -> data c = [] -> position_ok p ->
  wp (FillBufferFromCurrentChunk kIntptrSize address)
    (fun _ s' => left_over s' [] /\ text_at p [] = buffer_ s' /\
       chars (pos (current_ s')) = chars p + Z.of_nat (length (buffer_ s')) /\ (length (buffer_ s') <= kBufferSize)%nat)
    (mkStream source chunks (mkPosition n p) []).
Proof.
  intros Hsrc Hn Hc Hd Hp. pose proof Hp as (Hdec & Hb & Hch & Hf). unfold FillBufferFromCurrentChunk.
  apply wp_bind, wp_gets. apply wp_bind, wp_gets. cbn [chunk_no current_ buffer_ pos].
  apply wp_bind. eapply wp_GetChunk; [exact Hc|]. apply wp_bind, wp_dcheck; [done|]. rewrite Hd. cbn [length Nat.eqb].
  assert (Et : text_at p [] = if state p =? kAccept then [] else [kBadChar]).
  { unfold text_at, text_from, chars_from. cbn. destruct (state p =? kAccept), (bom_open p); done. }
  unfold fill_at_end, ValueOfIncrementalFinish. cbn [pos]. rewrite Et. destruct (Z.eqb_spec (state p) kAccept) as [Es|Es].
  - apply wp_bind. eapply wp_from_res; [reflexivity|]. cbn. split; [|split; [done|split; [lia|unfold kBufferSize; lia]]].
    split; [done|]. split; [done|]. exists []. split; [by apply (at_end_of_data _ _ c)|]. cbn [current_ pos]. by rewrite Et.
  - assert (Hgt : (kAccept <? state p) = true).
    { apply decoder_ok_states in Hdec. cbn in Hdec. repeat destruct Hdec as [E|Hdec]; try (by rewrite <- E); done. }
    rewrite Hgt. apply wp_bind. eapply wp_from_res; [reflexivity|]. cbn.
    split; [|split; [done|split; [lia|unfold kBufferSize; lia]]]. split; [done|].
    assert (Hcl : bom_open (mkStreamPosition (bytes p) (chars p + 1) 0 kAccept) = false).
    { unfold bom_open. cbn. rewrite (proj2 (Z.eqb_neq (chars p + 1) 0)) by lia. apply andb_false_r. }
    split; [split; [by left|split; [done|split; [cbn; lia|cbn [current_ pos]; by rewrite Hcl]]]|]. exists [].
    split; [by apply (at_end_of_data _ _ c)|]. unfold text_at. cbn [current_ pos]; by rewrite Hcl.
Qed.

Lemma fetch_chunk_spec s (Q : bool -> Stream -> Prop) :
  chunk_no (current_ s) = length (chunks_ s) ->
  match chunks_ s !! (length (chunks_ s) - 1)%nat with Some c => data c <> [] | None => True end ->
  let d := hd [] (source_ s) in
  Q (0 <? length d)%nat (mkStream (tl (source_ s)) (chunks_ s ++ [mkChunk d (pos (current_ s))]) (current_ s) (buffer_ s)) ->
  wp FetchChunk Q s.
Proof.
  intros Hn Hl d HQ. unfold FetchChunk. apply wp_bind, wp_gets. cbn [id].
  apply wp_bind, wp_dcheck; [by apply Nat.eqb_eq|]. apply wp_bind, wp_dcheck.
  { destruct (chunks_ s !! _) as [c|]; [|done]. by destruct (data c). }
  destruct (source_ s); exact HQ.
Qed.

(** What a round of the loop in [FillBuffer] leaves, given the text before it. *)
Definition loaded (p : StreamPosition) (text : list Z) (s' : Stream) : Prop :=
  exists rest, left_over s' rest /\ text = buffer_ s' ++ rest /\
    chars (pos (current_ s')) = chars p + Z.of_nat (length (buffer_ s')) /\ (length (buffer_ s') <= kBufferSize)%nat.

Definition at_end (s : Stream) : bool :=
  match chunks_ s !! chunk_no (current_ s) with Some c => (length (data c) =? 0)%nat | None => false end.

Lemma loaded_rebase p p' text s' : chars p' = chars p -> loaded p' text s' -> loaded p text s'.
Proof. intros E (rest & H1 & H2 & H3 & H4). exists rest. by rewrite <- E. Qed.

(** The rounds that are left: the chunks to be fetched, the current one, the
    empty one and the test that ends the loop. *)
Definition rounds (s : Stream) : nat := length (source_ s) + (if (chunk_no (current_ s) =? length (chunks_ s))%nat then 2 else 3).

Lemma fill_more_done fuel b s : (0 < fuel)%nat -> b = true \/ buffer_ s <> [] -> fill_more kIntptrSize address fuel b s = Ok (tt, s).
Proof.
  intros Hf H. destruct fuel as [|fuel]; [lia|]. cbn [fill_more]. unfold bind at 1. cbn.
  assert (E : negb b && (length (buffer_ s) =? 0)%nat = false); [|by rewrite E].
  destruct H as [->|H]; [done|]. destruct (buffer_ s); [done|]. by rewrite andb_false_r.
Qed.

(** Behind a chunk with data the loop ends or goes on. *)
Lemma fill_and_go_on fuel src ch m q c :
  (forall s text, left_over s text -> at_end s = false -> buffer_ s = [] -> (rounds s <= fuel)%nat ->
     wp (fill_more kIntptrSize address fuel false)
       (fun _ s' => loaded (pos (current_ s)) text s' /\ (buffer_ s' = [] -> text = [])) s) ->
  Forall (Forall is_byte) src -> S m = length ch -> ch !! m = Some c -> inside_chunk c q -> position_ok q -> (length src + 2 <= fuel)%nat ->
  let text := text_at q (unread c q ++ delivered src) in
  wp (FillBufferFromCurrentChunk kIntptrSize address ;;; fill_more kIntptrSize address fuel false)
    (fun _ s' => loaded q text s' /\ (buffer_ s' = [] -> text = [])) (mkStream src ch (mkPosition m q) []).
Proof.
  intros IH Hs Hm Hc Hi Hq Hf text. apply wp_bind. eapply wp_mono; [by eapply fill_in_chunk|].
  intros _ s' (rest & Hl & Es & Et & Hch & Hlen & Hend). fold text in Et. destruct (buffer_ s') as [|u us] eqn:Eb.
  - cbn [app] in Et. rewrite Et. specialize (Hend eq_refl). eapply wp_mono; [apply IH; [exact Hl| |done|]|].
    + unfold at_end. rewrite Hend. by rewrite lookup_ge_None_2 by lia.
    + unfold rounds. rewrite Hend, Nat.eqb_refl, Es. lia.
    + intros _ s2 [H1 H2]. split; [|done]. eapply loaded_rebase; [|exact H1]. cbn in Hch. lia.
  - unfold wp. rewrite fill_more_done by (first [lia | by right; rewrite Eb]). rewrite Eb. split; [|done].
    exists rest. rewrite Eb. split; [done|]. split; [done|]. split; [lia|done].
Qed.

Lemma fill_more_spec fuel s text :
  left_over s text -> at_end s = false -> buffer_ s = [] -> (rounds s <= fuel)%nat ->
  wp (fill_more kIntptrSize address fuel false)
    (fun _ s' => loaded (pos (current_ s)) text s' /\ (buffer_ s' = [] -> text = [])) s.
Proof.
  revert s text. induction fuel as [|fuel IH]; intros s text Hleft He Hbuf Hfuel.
  { unfold rounds in Hfuel. case_match; lia. }
  cbn [fill_more]. apply wp_bind, wp_gets. cbn [id]. rewrite Hbuf. cbn [negb andb length Nat.eqb].
  destruct Hleft as (Hsrc & Hp & tail & Hat & ->). destruct s as [source chunks [n p] buf]. cbn in *. subst buf.
  unfold rounds in Hfuel. cbn in Hfuel. destruct Hat as [Hn Hlast ->|c Hn Hc Hin ->|c Hn Hc Hd]; cbn in *.
  - (* a chunk is fetched *)
    rewrite Hn, Nat.eqb_refl in *. apply wp_bind, wp_bind. apply fetch_chunk_spec; [done|done|]. cbn [source_ chunks_ current_ buffer_ pos].
    apply wp_ret.
    assert (Hlk : (chunks ++ [mkChunk (hd [] source) p]) !! length chunks = Some (mkChunk (hd [] source) p)) by (by apply list_lookup_middle).
    assert (Hlen : S (length chunks) = length (chunks ++ [mkChunk (hd [] source) p])) by (rewrite length_app; cbn; lia).
    destruct source as [|[|b d] src].
    1, 2: apply wp_bind; (eapply wp_mono; [eapply fill_last_chunk; [|exact Hlen|exact Hlk|done|done]; first [done | by inversion Hsrc]|]);
      intros _ s' (Hl & Et & Hch & Hlb); unfold wp; rewrite fill_more_done by (first [lia | by left]); cbn [delivered];
      (split; [|intros Eb; by rewrite Et]); exists []; rewrite app_nil_r; done.
    inversion Hsrc as [|? ? Hd Hsrc']; subst. cbn [hd tl length] in *.
    change (negb (0 <? S (length d))%nat) with false. cbv iota.
    set (c := mkChunk (b :: d) p) in *. assert (Eu : unread c p = b :: d) by (unfold unread; cbn; by rewrite Z.sub_diag).
    pose proof (fun H => fill_and_go_on fuel src _ _ p c IH Hsrc' Hlen Hlk H Hp ltac:(lia)) as Hgo. rewrite Eu in Hgo.
    cbn [delivered]. apply Hgo. split; [done|]. split; [done|]. cbn. lia.
  - rewrite (proj2 (Nat.eqb_neq n (length chunks))) in * by lia. apply wp_bind, wp_ret. apply fill_and_go_on; (done || lia).
  - exfalso. unfold at_end in He. cbn in He. rewrite Hc in He. by rewrite Hd in He.
Qed.

(** ** Reading block by block *)

Lemma read_block_spec s text :
  left_over s text ->
  wp (ReadBlock kIntptrSize address (chars (pos (current_ s))))
    (fun success s' => loaded (pos (current_ s)) text s' /\ success = (0 <? length (buffer_ s'))%nat /\ (success = false -> text = [])) s.
Proof.
  intros Hleft. set (p := pos (current_ s)). unfold ReadBlock, FillBuffer. apply wp_bind, wp_bind, wp_modify.
  set (s0 := mkStream (source_ s) (chunks_ s) (current_ s) []). assert (H0 : left_over s0 text).
  { destruct Hleft as (H1 & H2 & tail & Hat & E). split; [done|]. split; [done|]. exists tail. split; [|done].
    destruct Hat; [by apply at_end_of_chunk|by eapply in_chunk|by eapply at_end_of_data]. }
  apply wp_bind. unfold SearchPosition. apply wp_bind, wp_gets. cbn [id]. change (pos (current_ s0)) with p. rewrite Z.eqb_refl. apply wp_ret.
  apply wp_bind, wp_gets. cbn [id].
  set (out_of_data := if negb _ then _ else _).
  assert (Hout : wp out_of_data (fun b s' => s' = s0 /\ b = at_end s0) s0).
  { unfold out_of_data, at_end. destruct H0 as (_ & (Hd & _) & tail & Hat & _).
    destruct Hat as [Hn _ _|c Hn Hc Hin _|c Hn Hc Hdata Hst _].
    - rewrite Hn, Nat.eqb_refl. cbn [negb]. apply wp_ret. by rewrite lookup_ge_None_2.
    - rewrite (proj2 (Nat.eqb_neq _ _)) by lia. cbn [negb]. apply wp_bind. eapply wp_GetChunk; [exact Hc|]. apply wp_ret. rewrite Hc.
      destruct Hin as [Hne _]. by destruct (data c).
    - rewrite (proj2 (Nat.eqb_neq _ _)) by lia. cbn [negb]. apply wp_bind. eapply wp_GetChunk; [exact Hc|]. apply wp_ret. rewrite Hc, Hdata.
      split; [done|]. by rewrite (proj2 (decoder_ok_buffer _ _ Hd) Hst). }
  apply wp_bind. eapply wp_mono; [exact Hout|]. intros b s1 [-> ->]. cbn beta. destruct (at_end s0) eqn:He.
  - apply wp_ret, wp_bind, wp_dcheck; [done|]. apply wp_ret. assert (Et : text = []).
    { destruct H0 as (_ & _ & tail & Hat & ->). unfold at_end in He.
      destruct Hat as [Hn _ _|c Hn Hc Hin _|c Hn Hc Hdata Hst ->].
      - by rewrite lookup_ge_None_2 in He by (rewrite Hn; lia).
      - rewrite Hc in He. destruct Hin as [Hne _]. by destruct (data c).
      - unfold text_at, text_from, chars_from. cbn [decode]. rewrite Hst. by destruct (bom_open _). }
    split; [|done]. exists text. split; [done|]. split; [done|]. cbn. split; [unfold p; lia|lia].
  - apply wp_bind. eapply wp_mono; [apply (fill_more_spec _ s0 text H0 He eq_refl)|].
    { unfold rounds. cbn. case_match; lia. }
    intros _ s' [Hl Hnil]. pose proof Hl as (rest & _ & _ & Hch & Hlen). change (pos (current_ s0)) with p in Hl, Hch.
    apply wp_bind, wp_gets. cbn [id]. apply wp_bind, wp_dcheck; [apply Z.eqb_eq; lia|]. apply wp_ret.
    apply wp_bind, wp_dcheck; [by apply Nat.leb_le|]. apply wp_ret. split; [done|]. split; [done|].
    intros E. apply Hnil. by destruct (buffer_ s').
Qed.

(** Reads as long as there is a block. *)
Fixpoint read_blocks (fuel : nat) : M Stream (list Z) :=
  match fuel with
  | O => fun _ => OutOfFuel
  | S fuel =>
      let* p := gets (fun s => chars (pos (current_ s))) in
      let* success := ReadBlock kIntptrSize address p in
      if success : bool then
        let* block := gets buffer_ in
        let* blocks := read_blocks fuel in
        ret (block ++ blocks)
      else ret []
  end.

Lemma read_blocks_spec fuel s text :
  left_over s text -> (length text < fuel)%nat -> wp (read_blocks fuel) (fun r _ => r = text) s.
Proof.
  revert s text. induction fuel as [|fuel IH]; intros s text Hleft Hf; [lia|]. cbn [read_blocks].
  apply wp_bind, wp_gets, wp_bind. eapply wp_mono; [apply read_block_spec; exact Hleft|].
  intros success s' ((rest & Hl & -> & _ & _) & -> & Hfalse). destruct (Nat.ltb_spec 0 (length (buffer_ s'))) as [Hpos|Hpos].
  - apply wp_bind, wp_gets, wp_bind. rewrite length_app in Hf. eapply wp_mono; [apply IH; [exact Hl|lia]|].
    intros r s2 ->. by apply wp_ret.
  - apply wp_ret. symmetry. by apply Hfalse.
Qed.

End Streaming.

Lemma new_left_over source :
  Forall (Forall is_byte) source -> left_over (new source) (source_text (delivered source)).
Proof.
  intros H. split; [done|]. split.
  - split; [by left|]. cbn. do 2 (split; [lia|]). intros _. by left.
  - exists (delivered source). split; [by apply at_end_of_chunk|done].
Qed.
