(* ===== verification/Utf8Decoder.v ===== *)
(** * Decoding a whole string

    Models [Utf8DecoderBase] of [src/strings/unicode-decoder.h] and
    [unicode-decoder.cc], the decoder behind strings made from UTF-8: a first
    pass measures the string and finds the narrowest encoding for it, a second
    one writes it. The traits of its three instances (lenient, WTF-8 and strict)
    are a record; the table of the WTF-8 decoder is that of
    [generalized-utf8-decoder.h]. *)

From S2P Require Import Prelude.
From S2P Require Import CharPredicates.
From S2P Require Import Utf8.
From stdpp Require Import base list numbers.
From Stdlib Require Import ZArith Lia Bool.

Local Open Scope Z_scope.

Module GeneralizedUtf8DfaDecoder.

Definition kReject : Z := 0.
Definition kAccept : Z := 11.

Definition transitions : list Z :=
  repeat 0 128 ++ repeat 1 16 ++ repeat 2 16 ++ repeat 3 32 ++
  [8; 8] ++ repeat 4 30 ++
  [9] ++ repeat 5 15 ++
  [10; 6; 6; 6; 7] ++ repeat 8 11.

Definition states : list Z :=
  [ 0;  0;  0;  0;  0;  0;  0;  0;  0; 0;  0;
    11; 0;  0;  0;  22; 33; 44; 55; 0; 66; 77;
    0;  11; 11; 11; 0;  0;  0;  0;  0; 0;  0;
    0;  22; 22; 22; 0;  0;  0;  0;  0; 0;  0;
    0;  33; 33; 33; 0;  0;  0;  0;  0; 0;  0;
    0;  33; 0;  0;  0;  0;  0;  0;  0; 0;  0;
    0;  0;  0;  22; 0;  0;  0;  0;  0; 0;  0;
    0;  0;  33; 33; 0;  0;  0;  0;  0; 0;  0 ].

Definition Decode (byte state buffer : Z) : Z * Z :=
  let type := nth (Z.to_nat byte) transitions 0 in
  (nth (Z.to_nat (state + type)) states 0,
   Z.lor (uint32 (Z.shiftl buffer 6)) (Z.land byte (Z.shiftr 0x7F (Z.shiftr type 1)))).

End GeneralizedUtf8DfaDecoder.

(** ** The decoders *)

Record DecoderTraits := mkTraits {
  IsInvalidSurrogatePair : Z -> Z -> Res bool;
  kAllowIncompleteSequences : bool;
  dfa_Decode : Z -> Z -> Z -> Z * Z;
  dfa_kAccept : Z;
  dfa_kReject : Z
}.

(** The decoder never decodes a surrogate. *)
Definition never_invalid (lead trail : Z) : Res bool :=
  if IsLeadSurrogate trail || IsTrailSurrogate trail then Undefined else Ok false.

Definition Utf8Decoder : DecoderTraits :=
  mkTraits never_invalid true Utf8DfaDecoder.Decode Utf8DfaDecoder.kAccept Utf8DfaDecoder.kReject.

Definition Wtf8Decoder : DecoderTraits :=
  mkTraits (fun lead trail => Ok (IsLeadSurrogate lead && IsTrailSurrogate trail)) false
    GeneralizedUtf8DfaDecoder.Decode GeneralizedUtf8DfaDecoder.kAccept GeneralizedUtf8DfaDecoder.kReject.

Definition StrictUtf8Decoder : DecoderTraits :=
  mkTraits never_invalid false Utf8DfaDecoder.Decode Utf8DfaDecoder.kAccept Utf8DfaDecoder.kReject.

Inductive Encoding := kAscii | kLatin1 | kUtf16 | kInvalid.

Record Utf8DecoderBase := mkDecoder { encoding_ : Encoding; non_ascii_start_ : nat; utf16_length_ : Z }.

Definition is_ascii_decoder (d : Utf8DecoderBase) : bool := match encoding_ d with kAscii => true | _ => false end.
Definition is_one_byte_decoder (d : Utf8DecoderBase) : bool := match encoding_ d with kAscii | kLatin1 => true | _ => false end.
Definition is_invalid (d : Utf8DecoderBase) : bool := match encoding_ d with kInvalid => true | _ => false end.

Definition kMaxLatin1 : Z := 0xff.

Section Decoder.
Context (kIntptrSize : nat) (address : Z) (traits : DecoderTraits).

(** The loop of the constructor: [None] when it returns with [kInvalid], else the
    state, whether all is one-byte, and the length. *)
Fixpoint measure_loop (fuel : nat) (cursor : list Z) (state current previous : Z) (is_one_byte : bool) (utf16_length : Z)
    : Res (option (Z * bool) * Z) :=
  match fuel with
  | O => OutOfFuel
  | S fuel =>
      match cursor with
      | [] => Ok (Some (state, is_one_byte), utf16_length)
      | byte :: rest =>
          if (byte <=? kMaxOneByteChar) && (state =? dfa_kAccept traits) then
            match current, IsInvalidSurrogatePair traits previous byte with
            | 0, Ok false => measure_loop fuel rest state current byte is_one_byte (utf16_length + 1)
            | _, _ => Undefined
            end
          else
            let '(state', current') := dfa_Decode traits byte state current in
            if state' <? dfa_kAccept traits then
              if state' =? dfa_kReject traits then
                if kAllowIncompleteSequences traits then
                  measure_loop fuel (if negb (state =? dfa_kAccept traits) then cursor else rest)
                    (dfa_kAccept traits) 0 kBadChar false (utf16_length + 1)
                else Ok (None, utf16_length)
              else Undefined
            else if state' =? dfa_kAccept traits then
              match IsInvalidSurrogatePair traits previous current' with
              | Ok true => Ok (None, utf16_length)
              | Ok false =>
                  measure_loop fuel rest state' 0 current' (is_one_byte && (current' <=? kMaxLatin1))
                    (if kMaxNonSurrogateCharCode <? current' then utf16_length + 1 + 1 else utf16_length + 1)
              | OutOfFuel => OutOfFuel
              | Undefined => Undefined
              end
            else measure_loop fuel rest state' current' previous is_one_byte utf16_length
      end
  end.

Definition decoder_fuel (cursor : list Z) : nat := 2 * length cursor + 2.

(** The constructor. *)
Definition new_decoder (data : list Z) : Res Utf8DecoderBase :=
  let start := NonAsciiStart kIntptrSize address data in
  if (start =? length data)%nat then Ok (mkDecoder kAscii start (Z.of_nat start))
  else
    let cursor := drop start data in
    match measure_loop (decoder_fuel cursor) cursor (dfa_kAccept traits) 0 0 true (Z.of_nat start) with
    | Ok (Some (state, one_byte), n) =>
        Ok (if state =? dfa_kAccept traits then mkDecoder (if one_byte then kLatin1 else kUtf16) start n
            else if kAllowIncompleteSequences traits then mkDecoder kUtf16 start (n + 1)
            else mkDecoder kInvalid start n)
    | Ok (None, n) => Ok (mkDecoder kInvalid start n)
    | OutOfFuel => OutOfFuel
    | Undefined => Undefined
    end.

(** [static_cast<Char>]; [wide] tells whether [Char] has two bytes. *)
Definition cast_char (wide : bool) (c : Z) : Z := if wide then uint16 c else uint8 c.

Fixpoint write_loop (wide : bool) (fuel : nat) (cursor : list Z) (state current : Z) (out : list Z) : Res (Z * list Z) :=
  match fuel with
  | O => OutOfFuel
  | S fuel =>
      match cursor with
      | [] => Ok (state, out)
      | byte :: rest =>
          if (byte <=? kMaxOneByteChar) && (state =? dfa_kAccept traits) then
            if current =? 0 then write_loop wide fuel rest state current (out ++ [cast_char wide byte]) else Undefined
          else
            let '(state', current') := dfa_Decode traits byte state current in
            if kAllowIncompleteSequences traits && (state' <? dfa_kAccept traits) then
              write_loop wide fuel (if negb (state =? dfa_kAccept traits) then cursor else rest)
                (dfa_kAccept traits) 0 (out ++ [cast_char wide kBadChar])
            else if state' =? dfa_kAccept traits then
              write_loop wide fuel rest state' 0
                (out ++ if negb wide || (current' <=? kMaxNonSurrogateCharCode) then [cast_char wide current']
                        else [LeadSurrogate current'; TrailSurrogate current'])
            else write_loop wide fuel rest state' current' out
      end
  end.

(** [Decode]: the characters it writes to [out]. *)
Definition decode_data (wide : bool) (d : Utf8DecoderBase) (data : list Z) : Res (list Z) :=
  if is_invalid d then Undefined
  else
    let cursor := drop (non_ascii_start_ d) data in
    match write_loop wide (decoder_fuel cursor) cursor (dfa_kAccept traits) 0 (map (cast_char wide) (take (non_ascii_start_ d) data)) with
    | Ok (state, out) =>
        if kAllowIncompleteSequences traits && negb (state =? dfa_kAccept traits) then Ok (out ++ [cast_char wide kBadChar])
        else if state =? dfa_kAccept traits then Ok out
        else Undefined
    | OutOfFuel => OutOfFuel
    | Undefined => Undefined
    end.

End Decoder.

(** ** WTF-8 *)

Fixpoint Wtf8_ValidateEncoding_loop (bytes : list Z) (state current previous : Z) : bool :=
  match bytes with
  | [] => state =? GeneralizedUtf8DfaDecoder.kAccept
  | byte :: bytes =>
      let '(state, current) := GeneralizedUtf8DfaDecoder.Decode byte state current in
      if state =? GeneralizedUtf8DfaDecoder.kReject then false
      else if state =? GeneralizedUtf8DfaDecoder.kAccept then
        if IsTrailSurrogate current && IsLeadSurrogate previous then false
        else Wtf8_ValidateEncoding_loop bytes state 0 current
      else Wtf8_ValidateEncoding_loop bytes state current previous
  end.

Definition Wtf8_ValidateEncoding (bytes : list Z) : bool :=
  Wtf8_ValidateEncoding_loop bytes GeneralizedUtf8DfaDecoder.kAccept 0 0.

Definition kWtf8SurrogateFirstByte : Z := 0xED.
Definition kWtf8SurrogateSecondByteHighBit : Z := 0x20.

(** [i] is the offset of the first byte. A byte beyond the end is not read. *)
Fixpoint ScanForSurrogates (i : Z) (wtf8 : list Z) : Res (list Z) :=
  match wtf8 with
  | [] => Ok []
  | byte :: rest =>
      if byte =? kWtf8SurrogateFirstByte then
        match rest with
        | [] => Undefined
        | second :: _ =>
            match ScanForSurrogates (i + 1) rest with
            | Ok offsets => Ok (if negb (Z.land second kWtf8SurrogateSecondByteHighBit =? 0) then i :: offsets else offsets)
            | r => r
            end
        end
      else ScanForSurrogates (i + 1) rest
  end.

(** ** The steps of the loops

    Both loops are the decoder of [Utf8.ValueOfIncremental] written out. *)

Import Utf8DfaDecoder.

Lemma next_cases state b :
  In state (kAccept :: pending_states) -> is_byte b ->
  next state b = kReject \/ next state b = kAccept \/ (kAccept < next state b /\ next state b <> kReject).
Proof.
  intros Hs Hb. pose proof (next_states state b Hs Hb) as H. revert H. generalize (next state b). intros s H. cbn in H.
  repeat destruct H as [<-|H]; auto; try done; right; right; (split; [reflexivity|discriminate]).
Qed.

Lemma never_invalid_scalar lead t : is_scalar t -> never_invalid lead t = Ok false.
Proof.
  intros Ht. unfold never_invalid. rewrite IsLeadSurrogate_spec, IsTrailSurrogate_spec by (unfold is_scalar, kMaxCodePoint in *; lia).
  unfold within. unfold is_scalar in Ht. destruct (Z.leb_spec 0xd800 t), (Z.leb_spec t 0xdbff), (Z.leb_spec 0xdc00 t), (Z.leb_spec t 0xdfff);
    cbn; first [done | lia].
Qed.

(** The length of a character in UTF-16. *)
Definition unit_count (t : Z) : Z := if kMaxNonSurrogateCharCode <? t then 2 else 1.

(** What the second pass writes for a character. *)
Definition written (wide : bool) (t : Z) : list Z :=
  if negb wide || (t <=? kMaxNonSurrogateCharCode) then [cast_char wide t] else [LeadSurrogate t; TrailSurrogate t].

(** The traits of the two decoders of plain UTF-8. *)
Definition plain_utf8 (traits : DecoderTraits) : Prop :=
  IsInvalidSurrogatePair traits = never_invalid /\ dfa_Decode traits = Decode /\
  dfa_kAccept traits = kAccept /\ dfa_kReject traits = kReject.

Section Steps.
Context (traits : DecoderTraits) (Htraits : plain_utf8 traits).
Context (b : Z) (rest : list Z) (state current t : Z) (cursor : list Z) (state' current' : Z).
Context (Hd : decoder_ok state current) (Hb : is_byte b).
Context (E : ValueOfIncremental (b :: rest) state current = Ok (t, cursor, state', current')).
Context (Hallow : kAllowIncompleteSequences traits = true \/ next state b <> kReject).

Lemma measure_step fuel previous one n :
  measure_loop traits (S fuel) (b :: rest) state current previous one n =
  if t =? kIncomplete then measure_loop traits fuel cursor state' current' previous one n
  else measure_loop traits fuel cursor state' current' t (one && (t <=? kMaxLatin1)) (n + unit_count t).
Proof.
  pose proof E as Ev. destruct (ValueOfIncremental_spec b rest state current Hd Hb) as (t0 & c0 & s0 & b0 & E0 & _ & Hr).
  rewrite E0 in Ev. injection Ev as -> -> -> ->. clear E0.
  destruct Htraits as (HI & HD & HA & HR). cbn [measure_loop]. rewrite HI, HD, HA, HR.
  cbn [ValueOfIncremental] in E. unfold kMaxOneByteChar, unit_count, kMaxNonSurrogateCharCode, kMaxLatin1 in *. unfold is_byte in Hb.
  destruct (Z.eqb_spec t kIncomplete) as [Et|Et].
  - destruct (_ && _); [destruct (current =? 0); [injection E; intros; unfold kIncomplete in *; lia|done]|].
    rewrite Decode_eq in E |- *.
    destruct (next_cases state b (decoder_ok_states _ _ Hd) Hb) as [En|[En|[En1 En2]]].
    + rewrite En in E. cbn in E. injection E; intros; subst. done.
    + rewrite En, Z.eqb_refl in E. injection E; intros. subst. destruct Hr as [(_ & _ & ?)|(Ht & _)]; [done|].
      unfold is_scalar, kIncomplete in *. lia.
    + rewrite (proj2 (Z.eqb_neq _ kAccept)), (proj2 (Z.eqb_neq _ kReject) En2) in E by lia. injection E; intros. subst.
      by rewrite (proj2 (Z.ltb_ge _ kAccept)), (proj2 (Z.eqb_neq _ kAccept)) by lia.
  - destruct Hr as [(? & _)|(Ht & -> & -> & _)]; [done|].
    destruct (Z.leb_spec b 0x7f) as [H7|H7], (Z.eqb_spec state kAccept) as [Es|Es]; cbn [andb] in E |- *.
    { destruct (Z.eqb_spec current 0) as [->|]; [|done]. injection E; intros; subst.
      rewrite never_invalid_scalar, (proj2 (Z.ltb_ge 0xffff t)), (proj2 (Z.leb_le t 0xff)), andb_true_r by (first [done|lia]). done. }
    all: rewrite Decode_eq in E |- *.
    all: destruct (next_cases state b (decoder_ok_states _ _ Hd) Hb) as [En|[En|[En1 En2]]].
    all: try (rewrite (proj2 (Z.eqb_neq _ kAccept)), (proj2 (Z.eqb_neq _ kReject) En2) in E by lia; injection E; intros; by subst).
    all: try (destruct Hallow as [HW|HW]; [rewrite HW|done]).
    all: rewrite En in E |- *; cbn in E; injection E; intros; subst; cbn; try rewrite never_invalid_scalar by done; try rewrite ?andb_false_r.
    all: try (destruct (0xffff <? _); by rewrite <- ?Z.add_assoc).
    all: done.
Qed.

Lemma write_step wide fuel out :
  write_loop traits wide (S fuel) (b :: rest) state current out =
  if t =? kIncomplete then write_loop traits wide fuel cursor state' current' out
  else write_loop traits wide fuel cursor state' current' (out ++ written wide t).
Proof.
  pose proof E as Ev. destruct (ValueOfIncremental_spec b rest state current Hd Hb) as (t0 & c0 & s0 & b0 & E0 & _ & Hr).
  rewrite E0 in Ev. injection Ev as -> -> -> ->. clear E0.
  destruct Htraits as (HI & HD & HA & HR). cbn [write_loop]. rewrite HD, HA.
  cbn [ValueOfIncremental] in E. unfold kMaxOneByteChar in *. unfold is_byte in Hb.
  destruct (Z.leb_spec b 0x7f) as [H7|H7], (Z.eqb_spec state kAccept) as [Es|Es]; cbn [andb] in E |- *.
  { destruct (Z.eqb_spec current 0) as [->|]; [|done]. injection E; intros; subst.
    rewrite (proj2 (Z.eqb_neq t kIncomplete)) by (unfold kIncomplete; lia). unfold written, kMaxNonSurrogateCharCode.
    by rewrite (proj2 (Z.leb_le t 0xffff)), orb_true_r by lia. }
  all: rewrite Decode_eq in E |- *; remember (payload b) as p eqn:Ep; clear Ep.
  all: destruct (next_cases state b (decoder_ok_states _ _ Hd) Hb) as [En|[En|[En1 En2]]].
  all: try (rewrite (proj2 (Z.eqb_neq _ kAccept)), (proj2 (Z.eqb_neq _ kReject) En2) in E by lia; injection E; intros; subst;
    by rewrite (proj2 (Z.ltb_ge _ kAccept)), andb_false_r, (proj2 (Z.eqb_neq _ kAccept)) by lia).
  all: try (destruct Hallow as [HW|HW]; [rewrite HW|done]).
  all: rewrite En in E |- *; cbn in E; injection E; intros; subst; cbn; rewrite ?andb_false_r; try done.
  all: try (unfold written; by rewrite orb_true_r).
  all: try (destruct (Z.eqb_spec (Z.lor (uint32 (Z.shiftl current 6)) p) kIncomplete) as [Ei|Ei];
    [destruct Hr as [(_ & _ & ?)|(Ht & _)]; [done|unfold is_scalar, kIncomplete in *; lia]|]; done).
Qed.
End Steps.

(** ** The two passes *)

Lemma lenient : plain_utf8 Utf8Decoder.
Proof. done. Qed.

Lemma strict : plain_utf8 StrictUtf8Decoder.
Proof. done. Qed.

Definition pass_measure (cursor : list Z) (state : Z) : nat := 2 * length cursor + (if state =? kAccept then 0 else 1).

(** Induction along the calls of the decoder. *)
Lemma decode_ind (P : list Z -> Z -> Z -> Prop) :
  (forall state current, decoder_ok state current -> P [] state current) ->
  (forall b rest state current t cursor state' current',
     decoder_ok state current -> is_byte b -> ValueOfIncremental (b :: rest) state current = Ok (t, cursor, state', current') ->
     value_result b rest state t cursor state' current' ->
     (pass_measure cursor state' < pass_measure (b :: rest) state)%nat -> P cursor state' current' -> P (b :: rest) state current) ->
  forall cursor state current, Forall is_byte cursor -> decoder_ok state current -> P cursor state current.
Proof.
  intros H0 HS cursor state current Hbs Hd. remember (pass_measure cursor state) as m eqn:Em.
  revert cursor state current Hbs Hd Em. induction m as [m IH] using lt_wf_ind. intros cursor state current Hbs Hd ->.
  destruct Hbs as [|b rest Hb Hbs]; [by apply H0|].
  destruct (ValueOfIncremental_spec b rest state current Hd Hb) as (t & c & s' & b' & E & Hr). pose proof Hr as [Hd' Hc].
  assert (Hlt : (pass_measure c s' < pass_measure (b :: rest) state)%nat).
  { unfold pass_measure. cbn [length]. destruct Hc as [(_ & -> & _)|(_ & -> & _ & [->|[-> Hs]])].
    - destruct (s' =? kAccept), (state =? kAccept); lia.
    - rewrite Z.eqb_refl. lia.
    - rewrite Z.eqb_refl, (proj2 (Z.eqb_neq _ _) Hs). cbn [length]. lia. }
  eapply HS; [done|done|exact E|done|done|]. eapply IH; [exact Hlt| |done|done].
  destruct Hc as [(_ & -> & _)|(_ & _ & _ & [->|[-> _]])]; [done|done|by constructor].
Qed.

(** The text of a decoder is made of characters. *)
Lemma decode_scalars cursor state current :
  Forall is_byte cursor -> decoder_ok state current -> Forall is_scalar (fst (decode (state, current) cursor)).
Proof.
  revert cursor state current. apply (decode_ind (fun cursor state current => Forall is_scalar (fst (decode (state, current) cursor)))); [done|].
  intros b rest state current t cursor state' current' Hd Hb E [_ Hr] _ IH. rewrite (decode_step _ _ _ _ _ _ _ _ Hd Hb E).
  destruct (decode (state', current') cursor) as [cs d]. cbn [fst] in *.
  destruct Hr as [(-> & _)|(Ht & _)]; [done|]. rewrite (proj2 (Z.eqb_neq t kIncomplete)) by (unfold is_scalar, kIncomplete in *; lia).
  by constructor.
Qed.

Definition all_latin1 (cs : list Z) : bool := forallb (fun c => c <=? kMaxLatin1) cs.

Lemma utf16_length t : Z.of_nat (length (utf16_encode t)) = unit_count t.
Proof. unfold utf16_encode, unit_count. rewrite Z.ltb_antisym. by destruct (t <=? kMaxNonSurrogateCharCode). Qed.

Lemma measure_spec cursor state current :
  Forall is_byte cursor -> decoder_ok state current ->
  forall fuel previous one n, (pass_measure cursor state < fuel)%nat ->
  measure_loop Utf8Decoder fuel cursor state current previous one n =
    let '(cs, (state', _)) := decode (state, current) cursor in
    Ok (Some (state', one && all_latin1 cs), n + Z.of_nat (length (units cs))).
Proof.
  revert cursor state current. apply (decode_ind (fun cursor state current =>
    forall fuel previous one n, (pass_measure cursor state < fuel)%nat -> measure_loop Utf8Decoder fuel cursor state current previous one n =
      let '(cs, (state', _)) := decode (state, current) cursor in
      Ok (Some (state', one && all_latin1 cs), n + Z.of_nat (length (units cs))))).
  - intros state current _ [|fuel] previous one n Hf; [lia|]. cbn. by rewrite andb_true_r, Z.add_0_r.
  - intros b rest state current t cursor state' current' Hd Hb E Hr Hlt IH [|fuel] previous one n Hf; [lia|].
    rewrite (measure_step Utf8Decoder lenient b rest _ _ _ _ _ _ Hd Hb E ltac:(by left)), (decode_step _ _ _ _ _ _ _ _ Hd Hb E).
    destruct (Z.eqb_spec t kIncomplete) as [Et|Et]; rewrite IH by lia; destruct (decode (state', current') cursor) as [cs [s2 i2]]; [done|].
    cbn [app]. rewrite units_cons, length_app, Nat2Z.inj_add, utf16_length, <- andb_assoc, <- Z.add_assoc. done.
Qed.

Lemma write_spec wide cursor state current :
  Forall is_byte cursor -> decoder_ok state current ->
  forall fuel out, (pass_measure cursor state < fuel)%nat ->
  write_loop Utf8Decoder wide fuel cursor state current out =
    let '(cs, (state', _)) := decode (state, current) cursor in Ok (state', out ++ concat (map (written wide) cs)).
Proof.
  revert cursor state current. apply (decode_ind (fun cursor state current =>
    forall fuel out, (pass_measure cursor state < fuel)%nat -> write_loop Utf8Decoder wide fuel cursor state current out =
      let '(cs, (state', _)) := decode (state, current) cursor in Ok (state', out ++ concat (map (written wide) cs)))).
  - intros state current _ [|fuel] out Hf; [lia|]. cbn. by rewrite app_nil_r.
  - intros b rest state current t cursor state' current' Hd Hb E Hr Hlt IH [|fuel] out Hf; [lia|].
    rewrite (write_step Utf8Decoder lenient b rest _ _ _ _ _ _ Hd Hb E ltac:(by left)), (decode_step _ _ _ _ _ _ _ _ Hd Hb E).
    destruct (Z.eqb_spec t kIncomplete) as [Et|Et]; rewrite IH by lia; destruct (decode (state', current') cursor) as [cs [s2 i2]]; [done|].
    cbn [app map concat]. by rewrite app_assoc.
Qed.

(** ** The decoder *)

Lemma decode_text_app_ascii a bs : Forall is_ascii a -> decode_text (a ++ bs) = a ++ decode_text bs.
Proof.
  intros Ha. unfold decode_text. rewrite decode_app, decode_ascii by done.
  destruct (decode (kAccept, 0) bs) as [cs [s i]]. by rewrite app_assoc.
Qed.

Lemma to_char_ascii wide a : Forall is_ascii a -> map (cast_char wide) a = a.
Proof.
  induction 1 as [|c a Hc _ IH]; [done|]. cbn [map]. rewrite IH. f_equal. unfold is_ascii in Hc.
  unfold cast_char, uint16, uint8. destruct wide; by rewrite wrap_small by lia.
Qed.

Lemma written_units wide cs :
  Forall is_code_point cs -> wide = true \/ all_latin1 cs = true -> concat (map (written wide) cs) = units cs.
Proof.
  induction 1 as [|c cs Hc _ IH]; intros Hw; [done|]. cbn [map concat all_latin1 forallb] in *. rewrite units_cons.
  rewrite IH by (destruct Hw as [->|Hw]; [by left|right; by apply andb_true_iff in Hw as [_ ?]]). f_equal.
  unfold written, utf16_encode, kMaxNonSurrogateCharCode, cast_char, uint16, uint8. unfold is_code_point in Hc.
  destruct Hw as [->|Hw]; cbn [negb orb].
  - destruct (Z.leb_spec c 0xffff); [|done]. by rewrite wrap_small by lia.
  - apply andb_true_iff in Hw as [Hw _]. apply Z.leb_le in Hw. unfold kMaxLatin1 in Hw.
    rewrite (proj2 (Z.leb_le c 0xffff)), orb_true_r by lia. destruct wide; by rewrite wrap_small by lia.
Qed.

Lemma all_latin1_app xs ys : all_latin1 (xs ++ ys) = all_latin1 xs && all_latin1 ys.
Proof. apply forallb_app. Qed.

Lemma all_latin1_ascii a : Forall is_ascii a -> all_latin1 a = true.
Proof.
  induction 1 as [|c a Hc _ IH]; [done|]. cbn. unfold is_ascii in Hc. rewrite (proj2 (Z.leb_le c kMaxLatin1)) by (unfold kMaxLatin1; lia). done.
Qed.

Lemma units_app xs ys : units (xs ++ ys) = units xs ++ units ys.
Proof. unfold units. by rewrite map_app, concat_app. Qed.

(** What a decoder has to be for its data. *)
Definition decoder_for (traits : DecoderTraits) (data : list Z) (d : Utf8DecoderBase) : Prop :=
  let cs := decode_text data in
  is_invalid d = false /\ utf16_length_ d = Z.of_nat (length (units cs)) /\
  (is_ascii_decoder d = true <-> Forall is_ascii data) /\ is_one_byte_decoder d = all_latin1 cs /\
  forall wide, wide = true \/ is_one_byte_decoder d = true -> decode_data traits wide d data = Ok (units cs).

Section DecoderSpec.
Context (kIntptrSize : nat) (Hsize : (0 < kIntptrSize)%nat) (address : Z) (data : list Z) (Hdata : Forall is_byte data).
Let n := NonAsciiStart kIntptrSize address data.

(** The second pass, behind the first one. *)
Lemma decode_data_spec wide d :
  is_invalid d = false -> non_ascii_start_ d = n -> wide = true \/ all_latin1 (decode_text data) = true ->
  decode_data Utf8Decoder wide d data = Ok (units (decode_text data)).
Proof.
  intros Hi Hn Hw. destruct (NonAsciiStart_spec kIntptrSize Hsize address data Hdata) as [Hle Hasc]. fold n in Hle, Hasc.
  unfold decode_data. rewrite Hi, Hn. rewrite to_char_ascii by done.
  rewrite write_spec; [|by apply Forall_drop|by left|unfold pass_measure, decoder_fuel; cbn; lia].
  pose proof (decode_text_app_ascii (take n data) (drop n data) Hasc) as Ht. rewrite take_drop in Ht. rewrite Ht in Hw |- *.
  pose proof (decode_scalars (drop n data) kAccept 0 ltac:(by apply Forall_drop) ltac:(by left)) as Hsc. unfold decode_text in *.
  cbn [dfa_kAccept Utf8Decoder kAllowIncompleteSequences] in *. destruct (decode (kAccept, 0) (drop n data)) as [cs [s i]]. cbn [fst] in Hsc.
  rewrite all_latin1_app in Hw. rewrite units_app, (units_ascii (take n data)) by done.
  assert (Hcs : concat (map (written wide) cs) = units cs).
  { apply written_units; [eapply List.Forall_impl; [apply scalar_code_point|exact Hsc]|]. destruct Hw as [?|Hw]; [by left|right]. apply andb_true_iff in Hw as [_ Hw].
    rewrite all_latin1_app in Hw. by apply andb_true_iff in Hw as [? _]. }
  rewrite Hcs. cbn [andb]. destruct (s =? kAccept); cbn [negb]; [by rewrite app_nil_r|].
  rewrite units_app, <- !app_assoc. do 3 f_equal. destruct Hw as [->|Hw]; [done|].
  rewrite all_latin1_app in Hw. cbn in Hw. rewrite !andb_false_r in Hw. done.
Qed.

Lemma new_decoder_spec : exists d, new_decoder kIntptrSize address Utf8Decoder data = Ok d /\ decoder_for Utf8Decoder data d.
Proof.
  destruct (NonAsciiStart_spec kIntptrSize Hsize address data Hdata) as [Hle Hasc]. fold n in Hle, Hasc.
  unfold new_decoder. fold n. pose proof (decode_text_app_ascii (take n data) (drop n data) Hasc) as Ht. rewrite take_drop in Ht.
  destruct (Nat.eqb_spec n (length data)) as [En|En].
  - eexists. split; [reflexivity|]. rewrite drop_ge, take_ge in * by lia. change (decode_text []) with (@nil Z) in Ht.
    rewrite app_nil_r in Ht. unfold decoder_for. cbn [is_invalid encoding_ utf16_length_ is_ascii_decoder is_one_byte_decoder]. rewrite Ht.
    split; [done|]. split; [rewrite units_ascii by done; lia|]. split; [done|]. split; [by rewrite all_latin1_ascii|].
    intros wide _. rewrite <- Ht at 2. apply decode_data_spec; [done|done|]. right. by rewrite Ht, all_latin1_ascii.
  - assert (Hna : ~ Forall is_ascii data) by (intros Ha; apply En; by apply NonAsciiStart_ascii).
    rewrite measure_spec; [|by apply Forall_drop|by left|unfold pass_measure, decoder_fuel; cbn; lia].
    unfold decode_text in Ht at 2. destruct (decode (dfa_kAccept Utf8Decoder, 0) (drop n data)) as [cs [s i]] eqn:Ed.
    cbn [dfa_kAccept Utf8Decoder kAllowIncompleteSequences] in *. rewrite Ed in Ht. eexists. split; [reflexivity|].
    assert (Hl : Z.of_nat n = Z.of_nat (length (units (take n data)))) by (rewrite units_ascii, length_take by done; lia).
    assert (Hone : all_latin1 (decode_text data) = all_latin1 cs && (s =? kAccept)).
    { rewrite Ht, !all_latin1_app, all_latin1_ascii by done. by destruct (s =? kAccept). }
    destruct (s =? kAccept); [rewrite andb_true_r in Hone|rewrite andb_false_r in Hone]; unfold decoder_for.
    + split; [by destruct (all_latin1 cs)|]. rewrite Ht at 1. rewrite app_nil_r, units_app, length_app. split; [cbn; lia|].
      split; [by destruct (all_latin1 cs)|]. rewrite Hone. split; [by destruct (all_latin1 cs)|].
      intros wide Hw. apply decode_data_spec; [by destruct (all_latin1 cs)|done|]. rewrite Hone. destruct Hw as [|Hw]; [by left|right].
      by destruct (all_latin1 cs).
    + split; [done|]. rewrite Ht at 1. rewrite !units_app, !length_app. split; [cbn; lia|]. split; [done|]. rewrite Hone.
      split; [done|]. intros wide [->|Hw]; [|done]. apply decode_data_spec; [done|done|by left].
Qed.
End DecoderSpec.

(** ** The strict decoder

    It goes along with the lenient one as long as the encoding is valid. *)

Lemma value_next b rest state current t cursor state' current' :
  decoder_ok state current -> is_byte b -> ValueOfIncremental (b :: rest) state current = Ok (t, cursor, state', current') ->
  next state b <> kReject -> cursor = rest /\ state' = next state b.
Proof.
  intros Hd Hb E Hn. cbn [ValueOfIncremental] in E. unfold kMaxOneByteChar in E.
  destruct (Z.leb_spec b 0x7f) as [H7|H7], (Z.eqb_spec state kAccept) as [Es|Es]; cbn [andb] in E.
  { destruct (current =? 0); [|done]. injection E; intros; subst. split; [done|]. rewrite next_accept by done.
    by rewrite (proj2 (Z.leb_le t 0x7F)) by lia. }
  all: rewrite Decode_eq, (proj2 (Z.eqb_neq _ kReject) Hn) in E; destruct (_ =? kAccept) eqn:Ea; injection E; intros; subst; done.
Qed.

Lemma run_reject_cons b rest state : Forall is_byte (b :: rest) -> next state b = kReject -> run (b :: rest) state = kReject.
Proof. intros Hbs E. rewrite run_cons, E. apply run_reject. by inversion Hbs. Qed.

Lemma decode_run cursor state current :
  Forall is_byte cursor -> decoder_ok state current -> run cursor state <> kReject ->
  fst (snd (decode (state, current) cursor)) = run cursor state.
Proof.
  intros Hbs Hd. revert Hbs state current Hd. induction 1 as [|b rest Hb Hbs IH]; intros state current Hd Hr; [done|].
  assert (Hn : next state b <> kReject) by (intros En; apply Hr, run_reject_cons; [by constructor|done]).
  destruct (ValueOfIncremental_spec b rest state current Hd Hb) as (t & c & s' & b' & E & Hd' & _).
  destruct (value_next _ _ _ _ _ _ _ _ Hd Hb E Hn) as [-> ->]. rewrite (decode_step _ _ _ _ _ _ _ _ Hd Hb E), run_cons in *.
  rewrite <- (IH _ _ Hd' Hr). by destruct (decode (next state b, b') rest).
Qed.

(** The loops of the two decoders on an encoding that is not rejected. *)
Lemma strict_loops cursor :
  Forall is_byte cursor -> forall state current fuel, decoder_ok state current -> run cursor state <> kReject ->
  (forall previous one n, measure_loop StrictUtf8Decoder fuel cursor state current previous one n =
     measure_loop Utf8Decoder fuel cursor state current previous one n) /\
  (forall wide out, write_loop StrictUtf8Decoder wide fuel cursor state current out =
     write_loop Utf8Decoder wide fuel cursor state current out).
Proof.
  induction 1 as [|b rest Hb Hbs IH]; intros state current [|fuel] Hd Hr; try done.
  assert (Hn : next state b <> kReject) by (intros En; apply Hr, run_reject_cons; [by constructor|done]).
  destruct (ValueOfIncremental_spec b rest state current Hd Hb) as (t & c & s' & b' & E & Hd' & _).
  destruct (value_next _ _ _ _ _ _ _ _ Hd Hb E Hn) as [-> ->]. destruct (IH _ _ fuel Hd' Hr) as [IH1 IH2].
  split; intros.
  - rewrite (measure_step _ strict b rest _ _ _ _ _ _ Hd Hb E), (measure_step _ lenient b rest _ _ _ _ _ _ Hd Hb E) by (by right).
    by rewrite !IH1.
  - rewrite (write_step _ strict b rest _ _ _ _ _ _ Hd Hb E), (write_step _ lenient b rest _ _ _ _ _ _ Hd Hb E) by (by right).
    by rewrite !IH2.
Qed.

Lemma strict_rejects cursor :
  Forall is_byte cursor -> forall state current fuel previous one n, decoder_ok state current -> (length cursor < fuel)%nat ->
  run cursor state = kReject -> exists m, measure_loop StrictUtf8Decoder fuel cursor state current previous one n = Ok (None, m).
Proof.
  induction 1 as [|b rest Hb Hbs IH]; intros state current [|fuel] previous one n Hd Hf Hr; [lia| |lia|].
  { cbn in Hr. pose proof (decoder_ok_not_reject _ _ Hd) as E. apply Z.eqb_neq in E. done. }
  destruct (ValueOfIncremental_spec b rest state current Hd Hb) as (t & c & s' & b' & E & Hd' & _). cbn [length] in Hf.
  destruct (Z.eq_dec (next state b) kReject) as [En|En].
  - cbn [measure_loop StrictUtf8Decoder dfa_kAccept dfa_kReject dfa_Decode IsInvalidSurrogatePair kAllowIncompleteSequences].
    rewrite Decode_eq, En. exists n. assert (Ea : (b <=? kMaxOneByteChar) && (state =? kAccept) = false); [|by rewrite Ea].
    apply andb_false_iff. destruct (Z.eqb_spec state kAccept) as [->|]; [left|by right].
    rewrite next_accept in En by done. unfold kMaxOneByteChar. by destruct (b <=? 0x7F).
  - destruct (value_next _ _ _ _ _ _ _ _ Hd Hb E En) as [-> ->].
    rewrite (measure_step _ strict b rest _ _ _ _ _ _ Hd Hb E) by (by right).
    destruct (t =? kIncomplete); (apply IH; [done|lia|done]).
Qed.

Lemma run_ascii a bs : Forall is_ascii a -> run (a ++ bs) kAccept = run bs kAccept.
Proof.
  induction 1 as [|c a Hc _ IH]; [done|]. cbn [app]. unfold is_ascii in Hc. rewrite run_cons, next_accept by (unfold is_byte; lia).
  by rewrite (proj2 (Z.leb_le c 0x7F)) by lia.
Qed.

Lemma new_decoder_start kIntptrSize address traits data d :
  new_decoder kIntptrSize address traits data = Ok d -> non_ascii_start_ d = NonAsciiStart kIntptrSize address data.
Proof. unfold new_decoder. intros H. repeat case_match; try done; injection H as <-; done. Qed.

(** On a valid encoding the strict decoder is the lenient one. *)
Lemma strict_accepts kIntptrSize address data :
  (0 < kIntptrSize)%nat -> Forall is_byte data -> run data kAccept = kAccept ->
  new_decoder kIntptrSize address StrictUtf8Decoder data = new_decoder kIntptrSize address Utf8Decoder data /\
  forall wide d, non_ascii_start_ d = NonAsciiStart kIntptrSize address data ->
    decode_data StrictUtf8Decoder wide d data = decode_data Utf8Decoder wide d data.
Proof.
  intros Hsize Hdata Er. destruct (NonAsciiStart_spec kIntptrSize Hsize address data Hdata) as [_ Hasc].
  unfold new_decoder, decode_data. set (n := NonAsciiStart kIntptrSize address data) in *. rewrite <- (take_drop n data), run_ascii in Er by done.
  assert (Hdrop : Forall is_byte (drop n data)) by (by apply Forall_drop). assert (Hd0 : decoder_ok kAccept 0) by (by left).
  pose proof (decode_run _ _ _ Hdrop Hd0 ltac:(by rewrite Er)) as Es. rewrite Er in Es.
  destruct (strict_loops _ Hdrop kAccept 0 (decoder_fuel (drop n data)) Hd0 ltac:(by rewrite Er)) as [Em Ew].
  cbn [dfa_kAccept StrictUtf8Decoder Utf8Decoder kAllowIncompleteSequences]. split.
  - rewrite Em, measure_spec; [|done|done|unfold pass_measure, decoder_fuel; cbn; lia].
    destruct (decode (kAccept, 0) (drop n data)) as [cs [s i]]. cbn in Es. subst s. by rewrite Z.eqb_refl.
  - intros wide d ->. rewrite Ew, write_spec; [|done|done|unfold pass_measure, decoder_fuel; cbn; lia].
    destruct (decode (kAccept, 0) (drop n data)) as [cs [s i]]. cbn in Es. subst s. by rewrite Z.eqb_refl.
Qed.

Lemma strict_decoder_spec kIntptrSize address data :
  (0 < kIntptrSize)%nat -> Forall is_byte data ->
  exists d, new_decoder kIntptrSize address StrictUtf8Decoder data = Ok d /\
    is_invalid d = negb (ValidateEncoding data) /\
    (ValidateEncoding data = true -> decoder_for StrictUtf8Decoder data d).
Proof.
  intros Hsize Hdata. destruct (NonAsciiStart_spec kIntptrSize Hsize address data Hdata) as [Hle Hasc].
  set (n := NonAsciiStart kIntptrSize address data) in *.
  unfold ValidateEncoding. rewrite ValidateEncoding_run by done.
  assert (Erun : run data kAccept = run (drop n data) kAccept) by (rewrite <- (take_drop n data) at 1; by apply run_ascii).
  assert (Hdrop : Forall is_byte (drop n data)) by (by apply Forall_drop). assert (Hd0 : decoder_ok kAccept 0) by (by left).
  destruct (Z.eq_dec (run data kAccept) kReject) as [Er|Er].
  - rewrite Er. cbn [Z.eqb negb]. unfold new_decoder. fold n.
    destruct (Nat.eqb_spec n (length data)) as [En|En]; [rewrite Erun, drop_ge in Er by lia; done|].
    destruct (strict_rejects (drop n data) Hdrop kAccept 0 (decoder_fuel (drop n data)) 0 true (Z.of_nat n) Hd0) as [m Em];
      [unfold decoder_fuel; lia|by rewrite <- Erun|].
    cbn [dfa_kAccept StrictUtf8Decoder]. rewrite Em. eexists. split; [reflexivity|]. done.
  - destruct (Z.eqb_spec (run data kAccept) kAccept) as [Ea|Ea]; cbn [negb].
    + destruct (strict_accepts kIntptrSize address data Hsize Hdata Ea) as [-> Hsame].
      destruct (new_decoder_spec kIntptrSize Hsize address data Hdata) as (d & Ed & Hfor). exists d. split; [done|].
      destruct Hfor as (H1 & H2 & H3 & H4 & H5). split; [done|]. intros _. do 4 (split; [done|]).
      intros wide Hw. rewrite Hsame by (by eapply new_decoder_start). by apply H5.
    + unfold new_decoder. fold n. destruct (Nat.eqb_spec n (length data)) as [En|En]; [rewrite Erun, drop_ge in Ea by lia; done|].
      rewrite Erun in Er, Ea. cbn [dfa_kAccept StrictUtf8Decoder kAllowIncompleteSequences].
      destruct (strict_loops _ Hdrop kAccept 0 (decoder_fuel (drop n data)) Hd0 Er) as [-> _].
      rewrite measure_spec; [|done|done|unfold pass_measure, decoder_fuel; cbn; lia].
      pose proof (decode_run _ _ _ Hdrop Hd0 Er) as Es. destruct (decode (kAccept, 0) (drop n data)) as [cs [s i]]. cbn in Es. subst s.
      rewrite (proj2 (Z.eqb_neq _ _) Ea). eexists. split; [reflexivity|]. done.
Qed.
