(* ===== verification/Wtf8DecoderSpec.v ===== *)
(** * The WTF-8 decoder

    WTF-8 is UTF-8 in which a surrogate may stand for itself unless it is half
    of a pair. The lemmas here are about [Utf8Decoder.new_decoder] and
    [decode_data] with the traits of [Wtf8Decoder]. *)

From S2P Require Import Prelude.
From S2P Require Import CharPredicates.
From S2P Require Import Utf8.
From S2P Require Import Utf8Decoder.
From stdpp Require Import base list numbers.
From Stdlib Require Import ZArith Lia Bool.
Import GeneralizedUtf8DfaDecoder.

Local Open Scope Z_scope.

(** ** The table *)

Definition gnext (state b : Z) : Z := fst (Decode b state 0).
Definition gpayload (b : Z) : Z := snd (Decode b 0 0).

Lemma gDecode_eq b state buffer : Decode b state buffer = (gnext state b, Z.lor (uint32 (Z.shiftl buffer 6)) (gpayload b)).
Proof. reflexivity. Qed.

Lemma gnext_lead b : is_byte b -> 0xC2 <= b <= 0xF4 ->
  gnext kAccept b = (if b <=? 0xDF then 22 else if b =? 0xE0 then 66 else if b <=? 0xEF then 33
                     else if b =? 0xF0 then 77 else if b <=? 0xF3 then 44 else 55) /\
  gpayload b = (if b <=? 0xDF then b - 0xC0 else if b <=? 0xEF then b - 0xE0 else b - 0xF0).
Proof.
  intros Hb Hr. assert (H : negb (Utf8.between 0xC2 0xF4 b) ||
    ((gnext kAccept b =? (if b <=? 0xDF then 22 else if b =? 0xE0 then 66 else if b <=? 0xEF then 33
        else if b =? 0xF0 then 77 else if b <=? 0xF3 then 44 else 55)) &&
     (gpayload b =? (if b <=? 0xDF then b - 0xC0 else if b <=? 0xEF then b - 0xE0 else b - 0xF0))) = true).
  { refine (bytes_check (fun b => negb (Utf8.between 0xC2 0xF4 b) || ((gnext kAccept b =? _) && (gpayload b =? _))) _ b Hb).
    vm_compute. reflexivity. }
  unfold Utf8.between in H. rewrite (proj2 (Z.leb_le 0xC2 b)), (proj2 (Z.leb_le b 0xF4)) in H by lia. cbn [andb negb orb] in H.
  apply andb_true_iff in H as [H1 H2]. by apply Z.eqb_eq in H1, H2.
Qed.

(** The bytes a state takes, and where they lead. *)
Definition gcontinuation (state : Z) : Z * Z * Z :=
  if state =? 22 then (0x80, 0xBF, kAccept)
  else if state =? 33 then (0x80, 0xBF, 22)
  else if state =? 66 then (0xA0, 0xBF, 22)
  else if state =? 44 then (0x80, 0xBF, 33)
  else if state =? 55 then (0x80, 0x8F, 33)
  else (0x90, 0xBF, 33).

Lemma gnext_continue state b :
  In state [22; 33; 44; 55; 66; 77] -> is_byte b -> (let '(lo, hi, _) := gcontinuation state in lo <= b <= hi) ->
  gnext state b = snd (gcontinuation state) /\ gpayload b = b - 0x80.
Proof.
  intros Hs Hb Hr.
  assert (H : negb (Utf8.between (fst (fst (gcontinuation state))) (snd (fst (gcontinuation state))) b) ||
    ((gnext state b =? snd (gcontinuation state)) && (gpayload b =? b - 0x80)) = true).
  { revert b Hb Hr. intros b Hb _. refine (bytes_check (fun b => negb (Utf8.between _ _ b) || ((gnext state b =? _) && (gpayload b =? b - 0x80))) _ b Hb).
    cbn in Hs. repeat destruct Hs as [<-|Hs]; [vm_compute; reflexivity..|done]. }
  destruct (gcontinuation state) as [[lo hi] s']. cbn [fst snd] in *. unfold Utf8.between in H.
  rewrite (proj2 (Z.leb_le lo b)), (proj2 (Z.leb_le b hi)) in H by lia. cbn [andb negb orb] in H.
  apply andb_true_iff in H as [H1 H2]. by apply Z.eqb_eq in H1, H2.
Qed.

(** ** The path of a character *)

(** The character that the bytes are, when their last byte and none before it
    leads to the accepting state. *)
Fixpoint path (bytes : list Z) (state current : Z) : option Z :=
  match bytes with
  | [] => None
  | b :: bytes =>
      let '(state', current') := Decode b state current in
      if state' =? kAccept then match bytes with [] => Some current' | _ => None end
      else if state' <? kAccept then None else path bytes state' current'
  end.

Lemma path_lead b bytes : is_byte b -> 0xC2 <= b <= 0xF4 -> path (b :: bytes) kAccept 0 = path bytes (gnext kAccept b) (gpayload b).
Proof.
  intros Hb Hr. destruct (gnext_lead b Hb Hr) as [E1 E2]. cbn [path]. rewrite gDecode_eq, E1, E2.
  rewrite shift_in, Z.mul_0_l, Z.add_0_l by (repeat case_match; bool_to_prop; lia). by repeat case_match.
Qed.

Lemma path_continue b bytes state current :
  In state [22; 33; 44; 55; 66; 77] -> is_byte b -> 0 <= current < 2 ^ 20 ->
  (let '(lo, hi, _) := gcontinuation state in lo <= b <= hi) ->
  path (b :: bytes) state current =
    if snd (gcontinuation state) =? kAccept then match bytes with [] => Some (current * 64 + (b - 0x80)) | _ => None end
    else path bytes (snd (gcontinuation state)) (current * 64 + (b - 0x80)).
Proof.
  intros Hs Hb Hc Hr. destruct (gnext_continue state b Hs Hb Hr) as [E1 E2]. cbn [path]. rewrite gDecode_eq, E1, E2.
  assert (Hrange : 0x80 <= b <= 0xBF) by (clear E1; cbn in Hs; repeat destruct Hs as [<-|Hs]; [..|done]; cbn in Hr; lia).
  rewrite shift_in by lia. cbn in Hs. repeat destruct Hs as [<-|Hs]; [reflexivity..|done].
Qed.

Ltac path_next := rewrite path_continue; [|by cbn; auto 10|unfold is_byte; div_lia|div_lia|cbn; div_lia]; cbn [gcontinuation snd Z.eqb Pos.eqb kAccept].

Lemma path_encode c : is_code_point c -> 0x7F < c -> path (encode_single c false) kAccept 0 = Some c.
Proof.
  intros Hc H1. unfold is_code_point in Hc. rewrite encode_numbers by done. rewrite (proj2 (Z.leb_gt c 0x7F)) by done.
  destruct (Z.leb_spec c 0x7FF) as [H2|H2]; [|destruct (Z.leb_spec c 0xFFFF) as [H3|H3]].
  - rewrite path_lead by (unfold is_byte; div_lia). destruct (gnext_lead (0xC0 + c / 64)) as [-> ->]; [unfold is_byte; div_lia|div_lia|].
    rewrite (proj2 (Z.leb_le (0xC0 + c / 64) 0xDF)) by div_lia. path_next. f_equal. div_lia.
  - rewrite path_lead by (unfold is_byte; div_lia). destruct (gnext_lead (0xE0 + c / 4096)) as [-> ->]; [unfold is_byte; div_lia|div_lia|].
    rewrite (proj2 (Z.leb_gt (0xE0 + c / 4096) 0xDF)), (proj2 (Z.leb_le (0xE0 + c / 4096) 0xEF)) by div_lia.
    destruct (Z.eqb_spec (0xE0 + c / 4096) 0xE0) as [E|E]; do 2 path_next; f_equal; div_lia.
  - rewrite path_lead by (unfold is_byte; div_lia). destruct (gnext_lead (0xF0 + c / 2 ^ 18)) as [-> ->]; [unfold is_byte; div_lia|div_lia|].
    rewrite (proj2 (Z.leb_gt (0xF0 + c / 2 ^ 18) 0xDF)), (proj2 (Z.leb_gt (0xF0 + c / 2 ^ 18) 0xEF)) by div_lia.
    rewrite (proj2 (Z.eqb_neq (0xF0 + c / 2 ^ 18) 0xE0)) by div_lia.
    destruct (Z.eqb_spec (0xF0 + c / 2 ^ 18) 0xF0) as [E|E]; [do 3 path_next; f_equal; div_lia|].
    destruct (Z.leb_spec (0xF0 + c / 2 ^ 18) 0xF3) as [E'|E']; do 3 path_next; f_equal; div_lia.
Qed.

(** ** The passes over a character *)

Definition pair (previous c : Z) : bool := IsLeadSurrogate previous && IsTrailSurrogate c.

(** What stands for the loops behind a character. *)
Lemma measure_path bytes rest :
  forall state current c fuel previous one n, path bytes state current = Some c ->
  (state = kAccept -> match bytes with b :: _ => kMaxOneByteChar < b | [] => True end) ->
  measure_loop Wtf8Decoder (length bytes + fuel) (bytes ++ rest) state current previous one n =
  if pair previous c then Ok (None, n)
  else measure_loop Wtf8Decoder fuel rest kAccept 0 c (one && (c <=? kMaxLatin1)) (n + unit_count c).
Proof.
  induction bytes as [|b bytes IH]; intros state current c fuel previous one n Hp Hb; [done|].
  cbn [length app Nat.add measure_loop Wtf8Decoder dfa_kAccept dfa_kReject dfa_Decode IsInvalidSurrogatePair kAllowIncompleteSequences].
  assert (Ea : (b <=? kMaxOneByteChar) && (state =? kAccept) = false).
  { destruct (Z.eqb_spec state kAccept) as [Es|]; [|by rewrite andb_false_r]. specialize (Hb Es). by rewrite (proj2 (Z.leb_gt b _)) by done. }
  rewrite Ea. cbn [path] in Hp. destruct (Decode b state current) as [s' c']. destruct (Z.eqb_spec s' kAccept) as [Es|Es].
  - destruct bytes; [|done]. injection Hp as ->. subst s'. rewrite Z.ltb_irrefl. fold (pair previous c). cbn [length Nat.add app].
    destruct (pair previous c); [done|]. unfold unit_count. destruct (_ <? c); [|done]. by rewrite <- Z.add_assoc.
  - destruct (s' <? kAccept); [done|]. apply IH; [done|]. intros; done.
Qed.

Lemma write_path wide bytes rest :
  forall state current c fuel out, path bytes state current = Some c ->
  (state = kAccept -> match bytes with b :: _ => kMaxOneByteChar < b | [] => True end) ->
  write_loop Wtf8Decoder wide (length bytes + fuel) (bytes ++ rest) state current out =
  write_loop Wtf8Decoder wide fuel rest kAccept 0 (out ++ written wide c).
Proof.
  induction bytes as [|b bytes IH]; intros state current c fuel out Hp Hb; [done|].
  cbn [length app Nat.add write_loop Wtf8Decoder dfa_kAccept dfa_kReject dfa_Decode kAllowIncompleteSequences andb].
  assert (Ea : (b <=? kMaxOneByteChar) && (state =? kAccept) = false).
  { destruct (Z.eqb_spec state kAccept) as [Es|]; [|by rewrite andb_false_r]. specialize (Hb Es). by rewrite (proj2 (Z.leb_gt b _)) by done. }
  rewrite Ea. cbn [path] in Hp. destruct (Decode b state current) as [s' c']. destruct (Z.eqb_spec s' kAccept) as [Es|Es].
  - destruct bytes; [|done]. injection Hp as ->. by subst s'.
  - destruct (s' <? kAccept); [done|]. apply IH; [done|]. intros; done.
Qed.

Lemma encode_first c : is_code_point c -> 0x7F < c -> match encode_single c false with b :: _ => kMaxOneByteChar < b | [] => True end.
Proof.
  intros Hc H. unfold is_code_point in Hc. rewrite encode_numbers by done. unfold kMaxOneByteChar.
  rewrite (proj2 (Z.leb_gt c 0x7F)) by done. destruct (c <=? 0x7FF); [div_lia|]. destruct (c <=? 0xFFFF); div_lia.
Qed.

Lemma measure_character c rest fuel previous one n :
  is_code_point c -> measure_loop Wtf8Decoder (length (encode_single c false) + fuel) (encode_single c false ++ rest) kAccept 0 previous one n =
  if pair previous c then Ok (None, n)
  else measure_loop Wtf8Decoder fuel rest kAccept 0 c (one && (c <=? kMaxLatin1)) (n + unit_count c).
Proof.
  intros Hc. destruct (Z.leb_spec c 0x7F) as [H|H]; [|apply measure_path; [by apply path_encode|intros _; by apply encode_first]].
  unfold is_code_point in Hc. rewrite encode_numbers, (proj2 (Z.leb_le c 0x7F)) by done. cbn [length app Nat.add measure_loop].
  change (dfa_kAccept Wtf8Decoder) with kAccept. rewrite (proj2 (Z.leb_le c kMaxOneByteChar)) by (unfold kMaxOneByteChar; lia).
  rewrite Z.eqb_refl. cbn [andb IsInvalidSurrogatePair Wtf8Decoder]. fold (pair previous c).
  assert (Ep : pair previous c = false).
  { unfold pair. rewrite (IsTrailSurrogate_spec c) by (unfold kMaxCodePoint; lia). unfold within. by rewrite (proj2 (Z.leb_gt 0xdc00 c)), andb_false_r by lia. }
  rewrite Ep. unfold kMaxLatin1, unit_count, kMaxNonSurrogateCharCode.
  by rewrite (proj2 (Z.leb_le c 0xff)), andb_true_r, (proj2 (Z.ltb_ge 0xffff c)) by lia.
Qed.

Lemma write_character wide c rest fuel out :
  is_code_point c -> write_loop Wtf8Decoder wide (length (encode_single c false) + fuel) (encode_single c false ++ rest) kAccept 0 out =
  write_loop Wtf8Decoder wide fuel rest kAccept 0 (out ++ written wide c).
Proof.
  intros Hc. destruct (Z.leb_spec c 0x7F) as [H|H]; [|apply write_path; [by apply path_encode|intros _; by apply encode_first]].
  unfold is_code_point in Hc. rewrite encode_numbers, (proj2 (Z.leb_le c 0x7F)) by done. cbn [length app Nat.add write_loop].
  change (dfa_kAccept Wtf8Decoder) with kAccept. rewrite (proj2 (Z.leb_le c kMaxOneByteChar)) by (unfold kMaxOneByteChar; lia).
  rewrite !Z.eqb_refl. cbn [andb]. unfold written, kMaxNonSurrogateCharCode. by rewrite (proj2 (Z.leb_le c 0xffff)), orb_true_r by lia.
Qed.

(** ** The whole string *)

Lemma utf8_bytes_cons c cs : utf8_bytes (c :: cs) = encode_single c false ++ utf8_bytes cs.
Proof. done. Qed.

Lemma encode_bytes c replace : Forall is_byte (encode_single c replace).
Proof.
  assert (H : forall x, is_byte (uint8 x)) by (intros x; apply Z.mod_pos_bound; lia).
  unfold encode_single. repeat case_match; auto 10.
Qed.

Lemma utf8_bytes_bytes cs : Forall is_byte (utf8_bytes cs).
Proof. induction cs as [|c cs IH]; [done|]. rewrite utf8_bytes_cons. apply List.Forall_app. split; [apply encode_bytes|done]. Qed.

(** No lead surrogate with a trail surrogate behind it. *)
Fixpoint unpaired (previous : Z) (cs : list Z) : bool :=
  match cs with [] => true | c :: cs => negb (pair previous c) && unpaired c cs end.

Lemma measure_characters cs :
  Forall is_code_point cs -> forall fuel previous one n, (length (utf8_bytes cs) < fuel)%nat ->
  exists m, measure_loop Wtf8Decoder fuel (utf8_bytes cs) kAccept 0 previous one n =
    Ok (if unpaired previous cs then (Some (kAccept, one && all_latin1 cs), n + Z.of_nat (length (units cs))) else (None, m)).
Proof.
  induction 1 as [|c cs Hc _ IH]; intros fuel previous one n Hf.
  - destruct fuel; [cbn in Hf; lia|]. exists 0. cbn. by rewrite andb_true_r, Z.add_0_r.
  - rewrite utf8_bytes_cons in *. rewrite length_app in Hf.
    replace fuel with (length (encode_single c false) + (fuel - length (encode_single c false)))%nat by lia.
    rewrite measure_character by done. cbn [unpaired]. destruct (pair previous c); [by exists n|]. cbn [negb andb].
    destruct (IH (fuel - length (encode_single c false))%nat c (one && (c <=? kMaxLatin1)) (n + unit_count c)) as [m ->]; [lia|].
    exists m. rewrite units_cons, length_app, Nat2Z.inj_add, utf16_length, <- andb_assoc, <- Z.add_assoc. done.
Qed.

Lemma write_characters wide cs :
  Forall is_code_point cs -> forall fuel out, (length (utf8_bytes cs) < fuel)%nat ->
  write_loop Wtf8Decoder wide fuel (utf8_bytes cs) kAccept 0 out = Ok (kAccept, out ++ concat (map (written wide) cs)).
Proof.
  induction 1 as [|c cs Hc _ IH]; intros fuel out Hf.
  - destruct fuel; [cbn in Hf; lia|]. cbn. by rewrite app_nil_r.
  - rewrite utf8_bytes_cons in *. rewrite length_app in Hf.
    replace fuel with (length (encode_single c false) + (fuel - length (encode_single c false)))%nat by lia.
    rewrite write_character, IH by (first [done|lia]). cbn [map concat]. by rewrite app_assoc.
Qed.

Lemma ascii_prefix n cs :
  Forall is_code_point cs -> (n <= length (utf8_bytes cs))%nat -> Forall is_ascii (take n (utf8_bytes cs)) ->
  exists cs', cs = take n (utf8_bytes cs) ++ cs' /\ drop n (utf8_bytes cs) = utf8_bytes cs' /\ Forall is_code_point cs'.
Proof.
  intros Hcs. revert n. induction Hcs as [|c cs Hc Hcs IH]; intros n Hn Ha; [exists []; cbn in *; by replace n with O by lia|].
  destruct n as [|n]; [exists (c :: cs); split; [done|]; split; [done|by constructor]|]. rewrite utf8_bytes_cons in *.
  destruct (Z.leb_spec c 0x7F) as [H|H].
  - rewrite encode_numbers, (proj2 (Z.leb_le c 0x7F)) in * by (unfold is_code_point in Hc; lia). cbn in Hn, Ha |- *.
    inversion Ha as [|? ? _ Ha']; subst. destruct (IH n ltac:(lia) Ha') as (cs' & E & E' & H'). exists cs'.
    split; [by rewrite <- E|]. done.
  - exfalso. pose proof (encode_first c Hc H) as Hb. destruct (encode_single c false) as [|b bs] eqn:Ee.
    + unfold is_code_point in Hc. rewrite encode_numbers, (proj2 (Z.leb_gt c 0x7F)) in Ee by done. by repeat case_match.
    + cbn in Ha. inversion Ha as [|? ? Hasc _]; subst. unfold is_ascii, kMaxOneByteChar in *. lia.
Qed.

Lemma unpaired_start previous previous' cs :
  IsLeadSurrogate previous = false -> IsLeadSurrogate previous' = false -> unpaired previous cs = unpaired previous' cs.
Proof. intros H H'. destruct cs; [done|]. cbn. unfold pair. by rewrite H, H'. Qed.

Lemma unpaired_ascii a cs : Forall is_ascii a -> unpaired 0 (a ++ cs) = unpaired 0 cs.
Proof.
  induction 1 as [|c a Hc _ IH]; [done|]. unfold is_ascii in Hc. cbn [app unpaired]. unfold pair at 1.
  change (IsLeadSurrogate 0) with false. cbn [andb negb]. rewrite <- IH. apply unpaired_start; [|done].
  rewrite IsLeadSurrogate_spec by (unfold kMaxCodePoint; lia). unfold within. by rewrite (proj2 (Z.leb_gt 0xd800 c)) by lia.
Qed.

Lemma wtf8_decoder_spec kIntptrSize address cs :
  (0 < kIntptrSize)%nat -> Forall is_code_point cs ->
  exists d, new_decoder kIntptrSize address Wtf8Decoder (utf8_bytes cs) = Ok d /\
    is_invalid d = negb (unpaired 0 cs) /\
    (unpaired 0 cs = true -> utf16_length_ d = Z.of_nat (length (units cs)) /\ is_one_byte_decoder d = all_latin1 cs /\
       forall wide, wide = true \/ is_one_byte_decoder d = true -> decode_data Wtf8Decoder wide d (utf8_bytes cs) = Ok (units cs)).
Proof.
  intros Hsize Hcs. pose proof (utf8_bytes_bytes cs) as Hbytes. destruct (NonAsciiStart_spec kIntptrSize Hsize address (utf8_bytes cs) Hbytes) as [Hle Hasc].
  unfold new_decoder. set (n := NonAsciiStart kIntptrSize address (utf8_bytes cs)) in *.
  destruct (ascii_prefix n cs Hcs Hle Hasc) as (cs' & Ecs & Edrop & Hcs').
  assert (Hlen : length (take n (utf8_bytes cs)) = n) by (rewrite length_take; lia).
  set (a := take n (utf8_bytes cs)) in *.
  assert (Hun : unpaired 0 cs = unpaired 0 cs') by (rewrite Ecs; by apply unpaired_ascii).
  assert (Hlat : all_latin1 cs = all_latin1 cs') by (rewrite Ecs, all_latin1_app, all_latin1_ascii by done; done).
  assert (Hunits : units cs = a ++ units cs') by (rewrite Ecs, units_app, units_ascii by done; done).
  assert (Hdec : forall wide d, is_invalid d = false -> non_ascii_start_ d = n -> wide = true \/ all_latin1 cs = true ->
    decode_data Wtf8Decoder wide d (utf8_bytes cs) = Ok (units cs)).
  { intros wide d Hi Hd Hw. unfold decode_data. rewrite Hi, Hd, Edrop. fold a. rewrite to_char_ascii by done.
    change (dfa_kAccept Wtf8Decoder) with kAccept. rewrite write_characters by (first [done | unfold decoder_fuel; lia]). cbn [andb kAllowIncompleteSequences Wtf8Decoder].
    rewrite Z.eqb_refl, Hunits. do 2 f_equal. apply written_units; [done|]. by rewrite <- Hlat. }
  change (dfa_kAccept Wtf8Decoder) with kAccept. rewrite Edrop. destruct (Nat.eqb_spec n (length (utf8_bytes cs))) as [En|En].
  - assert (cs' = []) as -> by (rewrite drop_ge in Edrop by lia; destruct cs' as [|c cs']; [done|]; rewrite utf8_bytes_cons in Edrop;
      inversion Hcs' as [|? ? Hc _]; rewrite encode_numbers in Edrop by exact Hc; by repeat case_match).
    eexists. split; [reflexivity|]. rewrite Hun. split; [done|]. intros _. cbn [utf16_length_ is_one_byte_decoder encoding_].
    split; [rewrite Hunits, app_nil_r; lia|]. split; [by rewrite Hlat|]. intros wide _. apply Hdec; [done|done|right; by rewrite Hlat].
  - destruct (measure_characters cs' Hcs' (decoder_fuel (utf8_bytes cs')) 0 true (Z.of_nat n)) as [m ->]; [unfold decoder_fuel; lia|].
    rewrite Hun. destruct (unpaired 0 cs'); [|eexists; by split]. rewrite Z.eqb_refl. cbn [andb]. eexists. split; [reflexivity|].
    split; [by destruct (all_latin1 cs')|]. intros _. cbn [utf16_length_]. split; [rewrite Hunits, length_app; lia|].
    rewrite Hlat. split; [by destruct (all_latin1 cs')|]. intros wide Hw. apply Hdec; [by destruct (all_latin1 cs')|done|].
    rewrite Hlat. by destruct (all_latin1 cs').
Qed.

(** ** Validation

    The validator and the decoder agree on all bytes. *)

Definition gstates : list Z := [kAccept; 22; 33; 44; 55; 66; 77].

Lemma gnext_cases state b : In state gstates -> is_byte b ->
  gnext state b = kReject \/ (In (gnext state b) gstates /\ kAccept <= gnext state b).
Proof.
  intros Hs Hb. assert (H : (gnext state b =? kReject) || (existsb (Z.eqb (gnext state b)) gstates && (kAccept <=? gnext state b)) = true).
  { revert b Hb. refine (bytes_check (fun b => (gnext state b =? kReject) || (existsb (Z.eqb (gnext state b)) gstates && (kAccept <=? gnext state b))) _).
    unfold gstates in Hs. cbn [In] in Hs. repeat destruct Hs as [<-|Hs]; [vm_compute; reflexivity..|done]. }
  apply orb_true_iff in H as [H|H]; [left; by apply Z.eqb_eq|right]. apply andb_true_iff in H as [H1 H2]. apply Z.leb_le in H2.
  split; [|done]. apply existsb_exists in H1 as (x & Hx & E). apply Z.eqb_eq in E. by rewrite E.
Qed.

Lemma gdecode_ascii b : is_ascii b -> Decode b kAccept 0 = (kAccept, b).
Proof.
  intros Hb. unfold is_ascii in Hb.
  assert (H : ((0x7F <? b) || ((gnext kAccept b =? kAccept) && (gpayload b =? b))) = true).
  { refine (bytes_check (fun b => (0x7F <? b) || ((gnext kAccept b =? kAccept) && (gpayload b =? b))) _ b _); [vm_compute; reflexivity|].
    unfold is_byte. lia. }
  rewrite (proj2 (Z.ltb_ge 0x7F b)) in H by lia. apply andb_true_iff in H as [H1 H2]. apply Z.eqb_eq in H1, H2.
  rewrite gDecode_eq, H1, H2. done.
Qed.

Lemma validate_measure bytes :
  Forall is_byte bytes -> forall state current fuel previous one n,
  In state gstates -> (state = kAccept -> current = 0) -> (length bytes < fuel)%nat ->
  exists r m, measure_loop Wtf8Decoder fuel bytes state current previous one n = Ok (r, m) /\
    Wtf8_ValidateEncoding_loop bytes state current previous = match r with Some (s, _) => s =? kAccept | None => false end.
Proof.
  induction 1 as [|b rest Hb Hbs IH]; intros state current [|fuel] previous one n Hs Hc Hf; [cbn in Hf; lia| |cbn in Hf; lia|].
  { eexists _, _. split; [reflexivity|]. done. }
  cbn [length] in Hf.
  cbn [measure_loop Wtf8_ValidateEncoding_loop Wtf8Decoder dfa_kAccept dfa_kReject dfa_Decode IsInvalidSurrogatePair kAllowIncompleteSequences].
  unfold kMaxOneByteChar. destruct (Z.leb_spec b 0x7f) as [H7|H7], (Z.eqb_spec state kAccept) as [Es|Es]; cbn [andb].
  { rewrite Es, (Hc Es), gdecode_ascii by (unfold is_ascii, is_byte in *; lia). cbn [Z.eqb kAccept kReject Pos.eqb].
    assert (Et : IsTrailSurrogate b = false).
    { unfold is_byte in Hb. rewrite IsTrailSurrogate_spec by (unfold kMaxCodePoint; lia). unfold within. by rewrite (proj2 (Z.leb_gt 0xdc00 b)) by lia. }
    rewrite Et, andb_false_r. cbn [andb]. apply IH; [left; done|done|lia]. }
  all: rewrite gDecode_eq; destruct (gnext_cases state b Hs Hb) as [En|[Hin Hge]].
  1, 3, 5: rewrite En; eexists _, _; split; [reflexivity|done].
  all: rewrite (proj2 (Z.ltb_ge _ kAccept)), (proj2 (Z.eqb_neq _ kReject)) by (first [done | unfold kReject, kAccept in *; lia]).
  all: rewrite (andb_comm (IsTrailSurrogate _)); destruct (Z.eqb_spec (gnext state b) kAccept) as [Ea|Ea].
  1, 3, 5: rewrite Ea; destruct (_ && _); [eexists _, _; split; [reflexivity|done]|apply IH; [by left|done|lia]].
  all: apply IH; [done|done|lia].
Qed.

Lemma validate_ascii a rest : Forall is_ascii a -> Wtf8_ValidateEncoding (a ++ rest) = Wtf8_ValidateEncoding rest.
Proof.
  intros Ha. unfold Wtf8_ValidateEncoding.
  assert (Hprev : forall p p', IsLeadSurrogate p = false -> IsLeadSurrogate p' = false ->
    forall bs state current, Wtf8_ValidateEncoding_loop bs state current p = Wtf8_ValidateEncoding_loop bs state current p').
  { intros p p' Hp Hp'. induction bs as [|b bs IH]; intros state current; [done|]. cbn [Wtf8_ValidateEncoding_loop].
    destruct (Decode b state current) as [s c]. by rewrite Hp, Hp', !andb_false_r, IH. }
  assert (H : forall p, IsLeadSurrogate p = false -> Wtf8_ValidateEncoding_loop (a ++ rest) kAccept 0 p = Wtf8_ValidateEncoding_loop rest kAccept 0 p);
    [|by apply H].
  induction Ha as [|c a Hc _ IH]; intros p Hp; [done|]. cbn [app Wtf8_ValidateEncoding_loop]. rewrite gdecode_ascii by done.
  cbn [Z.eqb kAccept kReject Pos.eqb]. rewrite Hp, andb_false_r.
  assert (Hl : IsLeadSurrogate c = false).
  { unfold is_ascii in Hc. rewrite IsLeadSurrogate_spec by (unfold kMaxCodePoint; lia). unfold within. by rewrite (proj2 (Z.leb_gt 0xd800 c)) by lia. }
  rewrite IH by done. by apply Hprev.
Qed.

Lemma wtf8_validation kIntptrSize address data :
  (0 < kIntptrSize)%nat -> Forall is_byte data ->
  exists d, new_decoder kIntptrSize address Wtf8Decoder data = Ok d /\ is_invalid d = negb (Wtf8_ValidateEncoding data).
Proof.
  intros Hsize Hdata. destruct (NonAsciiStart_spec kIntptrSize Hsize address data Hdata) as [Hle Hasc].
  unfold new_decoder. set (n := NonAsciiStart kIntptrSize address data) in *.
  assert (Ev : Wtf8_ValidateEncoding data = Wtf8_ValidateEncoding (drop n data)) by (rewrite <- (take_drop n data) at 1; by apply validate_ascii).
  rewrite Ev. destruct (Nat.eqb_spec n (length data)) as [En|En]; [rewrite drop_ge by lia; eexists; by split|].
  destruct (validate_measure (drop n data) ltac:(by apply Forall_drop) kAccept 0 (decoder_fuel (drop n data)) 0 true (Z.of_nat n))
    as (r & m & Em & Ew); [by left|done|unfold decoder_fuel; lia|].
  change (dfa_kAccept Wtf8Decoder) with kAccept. rewrite Em. unfold Wtf8_ValidateEncoding. rewrite Ew.
  destruct r as [[s o]|]; [|eexists; by split]. eexists. split; [reflexivity|]. cbn [kAllowIncompleteSequences Wtf8Decoder].
  destruct (s =? kAccept); [by destruct o|done].
Qed.

(** ** The offsets of surrogates *)

Fixpoint surrogate_offsets (i : Z) (cs : list Z) : list Z :=
  match cs with
  | [] => []
  | c :: cs => (if within 0xd800 0xdfff c then [i] else []) ++ surrogate_offsets (i + Z.of_nat (length (encode_single c false))) cs
  end.

Lemma scan_other b i rest : b <> 0xED -> ScanForSurrogates i (b :: rest) = ScanForSurrogates (i + 1) rest.
Proof. intros H. cbn [ScanForSurrogates]. unfold kWtf8SurrogateFirstByte. by rewrite (proj2 (Z.eqb_neq b 0xED)) by done. Qed.

Lemma high_bit b : 0x80 <= b <= 0xBF -> negb (Z.land b kWtf8SurrogateSecondByteHighBit =? 0) = (0xA0 <=? b).
Proof.
  intros Hb. assert (H : (b <=? 0x7F) || (0xC0 <=? b) || Bool.eqb (negb (Z.land b kWtf8SurrogateSecondByteHighBit =? 0)) (0xA0 <=? b) = true).
  { refine (bytes_check (fun b => (b <=? 0x7F) || (0xC0 <=? b) || Bool.eqb (negb (Z.land b kWtf8SurrogateSecondByteHighBit =? 0)) (0xA0 <=? b)) _ b _);
      [vm_compute; reflexivity|unfold is_byte; lia]. }
  rewrite (proj2 (Z.leb_gt b 0x7F)), (proj2 (Z.leb_gt 0xC0 b)) in H by lia. by apply eqb_prop.
Qed.

Lemma scan_character c i rest offsets :
  is_code_point c -> ScanForSurrogates (i + Z.of_nat (length (encode_single c false))) rest = Ok offsets ->
  ScanForSurrogates i (encode_single c false ++ rest) = Ok ((if within 0xd800 0xdfff c then [i] else []) ++ offsets).
Proof.
  intros Hc. unfold is_code_point in Hc. rewrite encode_numbers by done. unfold within.
  destruct (Z.leb_spec c 0x7F); [|destruct (Z.leb_spec c 0x7FF); [|destruct (Z.leb_spec c 0xFFFF)]]; cbn [length app]; intros E.
  - rewrite (proj2 (Z.leb_gt 0xd800 c)), scan_other by lia. exact E.
  - rewrite (proj2 (Z.leb_gt 0xd800 c)), !scan_other by div_lia. by rewrite <- Z.add_assoc.
  - assert (E2 : ScanForSurrogates (i + 1) (0x80 + c / 64 mod 64 :: 0x80 + c mod 64 :: rest) = Ok offsets).
    { rewrite !scan_other by div_lia. by rewrite <- !Z.add_assoc. }
    destruct (Z.eq_dec (0xE0 + c / 4096) 0xED) as [E0|E0].
    + cbn [ScanForSurrogates] in E2 |- *. unfold kWtf8SurrogateFirstByte in *. rewrite E0. cbn [Z.eqb Pos.eqb]. rewrite E2, high_bit by div_lia.
      f_equal. assert (Eb : (0xd800 <=? c) && (c <=? 0xdfff) = (0xA0 <=? 0x80 + c / 64 mod 64)); [|rewrite Eb; by destruct (0xA0 <=? _)].
      rewrite (proj2 (Z.leb_le c 0xdfff)), andb_true_r by div_lia.
      destruct (Z.leb_spec 0xd800 c), (Z.leb_spec 0xA0 (0x80 + c / 64 mod 64)); (done || div_lia).
    + rewrite scan_other by done. assert (Eb : (0xd800 <=? c) && (c <=? 0xdfff) = false); [|by rewrite Eb].
      apply andb_false_iff. rewrite !Z.leb_gt. div_lia.
  - rewrite (proj2 (Z.leb_gt c 0xdfff)), andb_false_r, !scan_other by div_lia. by rewrite <- !Z.add_assoc.
Qed.

Lemma ScanForSurrogates_spec cs i : Forall is_code_point cs -> ScanForSurrogates i (utf8_bytes cs) = Ok (surrogate_offsets i cs).
Proof.
  intros Hcs. revert i. induction Hcs as [|c cs Hc _ IH]; intros i; [done|]. rewrite utf8_bytes_cons. cbn [surrogate_offsets].
  by apply scan_character.
Qed.
