(* ===== verification/Utf8Properties.v ===== *)
(** * Properties of UTF-8 sources

    The theorems about [Utf8.v], [Utf8Stream.v] and [Utf8Decoder.v]. *)

From S2P Require Import Prelude.
From S2P Require Import CharPredicates.
From S2P Require Import Utf8.
From S2P Require Import Utf16.
From S2P Require Import Utf8Stream.
From S2P Require Import Utf8StreamSpec.
From S2P Require Import Utf8Decoder.
From S2P Require Import Wtf8DecoderSpec.
From stdpp Require Import base list numbers decidable.
From Stdlib Require Import ZArith Lia Bool.
Import Utf8ExternalStreamingStream.

Local Open Scope Z_scope.

(** ** The stream *)



(** The replacement of a character that the end of the data breaks off is lost
    when the stream goes back to it behind a lead byte whose bits are all zero:
    [FillBuffer] takes [incomplete_char] for the state of the decoder. *)
Definition reread (source : list (list Z)) : Res (list Z) :=
  match read_blocks 8 (fun _ => 0) 9 (new source) with
  | Ok (text, s) =>
      match ReadBlock 8 (fun _ => 0) (Z.of_nat (length text) - 1) s with Ok (_, s) => Ok (buffer_ s) | _ => Undefined end
  | _ => Undefined
  end.

Example reread_unfinished :
  reread [[0x41; 0xE2]] = Ok [0xFFFD] /\ reread [[0x41; 0xE0]] = Ok [].
Proof. split; vm_compute; reflexivity. Qed.

(** ** Encoding and validation *)

(** C13: UTF-8 and UTF-16 have the same texts. A sequence of bytes is valid UTF-8
    for [ValidateEncoding] exactly when it is what [Encode] makes, unit by unit,
    of the UTF-16 text of a sequence of characters, and these are then what the
    incremental decoder finds. Code units have no unpaired surrogate for
    [HasUnpairedSurrogate] exactly when they are such a text;
    [ReplaceUnpairedSurrogates] makes every sequence of code units one of the
    same length and changes none that is one. *)
Theorem utf8_validation bytes us :
  Forall is_byte bytes -> Forall is_code_unit us ->
  (ValidateEncoding bytes = true <->
   exists cs, Forall is_scalar cs /\ bytes = encode_units false (units cs) /\ decode_text bytes = cs) /\
  (HasUnpairedSurrogate us = false <-> exists cs, Forall is_scalar cs /\ us = units cs) /\
  (length (ReplaceUnpairedSurrogates us) = length us /\ HasUnpairedSurrogate (ReplaceUnpairedSurrogates us) = false /\
   (HasUnpairedSurrogate us = false -> ReplaceUnpairedSurrogates us = us)).
Proof.
  intros Hb Hu. split; [|split; [|apply ReplaceUnpairedSurrogates_spec]].
  - unfold ValidateEncoding. rewrite ValidateEncoding_run, Z.eqb_eq by done. split.
    + intros Hr. destruct (run_accept_utf8 bytes Hb Hr) as (cs & Hcs & ->). exists cs. split; [done|].
      split; [symmetry; by apply encode_units_utf8|by apply decode_text_utf8_bytes].
    + intros (cs & Hcs & -> & _). unfold units. rewrite encode_units_utf8 by done. by apply run_utf8_bytes.
  - split; [by apply HasUnpairedSurrogate_text|]. intros (cs & Hcs & ->). by apply HasUnpairedSurrogate_units.
Qed.

Lemma utf8_validation_witness :
  ValidateEncoding [0x41; 0xF0; 0x9F; 0x98; 0x80] = true /\ ReplaceUnpairedSurrogates [0xD83D; 0xDE00] = [0xD83D; 0xDE00].
Proof.
  destruct (utf8_validation [0x41; 0xF0; 0x9F; 0x98; 0x80] [0xD83D; 0xDE00]) as (H & _ & _ & _ & H').
  - repeat constructor; discriminate.
  - repeat constructor; discriminate.
  - split; [|apply H'; reflexivity]. apply H.
    exists [0x41; 0x1F600]. split; [apply List.Forall_cons; [left; lia|apply List.Forall_cons; [right; lia|done]]|].
    split; vm_compute; reflexivity.
Defined.

(** ** Whole strings *)

(** C14: the decoders of whole strings. The lenient one finds the length, the
    narrowest encoding (ASCII, Latin-1 or UTF-16) and then the text that the
    incremental decoder finds, in characters of two bytes or, when the encoding
    allows it, of one; it has no invalid input. The strict one rejects exactly
    what [ValidateEncoding] rejects and agrees with the lenient one on the
    rest. *)
Theorem utf8_string_decoders kIntptrSize address data :
  (0 < kIntptrSize)%nat -> Forall is_byte data ->
  (exists d, new_decoder kIntptrSize address Utf8Decoder data = Ok d /\ decoder_for Utf8Decoder data d) /\
  (exists d, new_decoder kIntptrSize address StrictUtf8Decoder data = Ok d /\ is_invalid d = negb (ValidateEncoding data) /\
     (ValidateEncoding data = true -> decoder_for StrictUtf8Decoder data d)).
Proof. intros Hsize Hdata. split; [by apply new_decoder_spec|by apply strict_decoder_spec]. Qed.

Lemma utf8_string_decoders_witness :
  (exists d, new_decoder 8 0 Utf8Decoder [0x41; 0xC3; 0xBF] = Ok d /\ decoder_for Utf8Decoder [0x41; 0xC3; 0xBF] d) /\
  (exists d, new_decoder 8 0 StrictUtf8Decoder [0x41; 0xC3; 0xBF] = Ok d /\ is_invalid d = false).
Proof.
  destruct (utf8_string_decoders 8 0 [0x41; 0xC3; 0xBF]) as (H1 & (d2 & E2 & I2 & _)).
  - lia.
  - repeat constructor; discriminate.
  - split; [exact H1|]. exists d2. by split.
Defined.

(** C15: WTF-8. The decoder rejects exactly the bytes that the validator of WTF-8
    rejects. It takes the encoding of every sequence of code points in which no
    surrogates make a pair, unpaired ones included, gives its length, its text
    and the offsets of its surrogates, and rejects the encoding of a pair. *)
Theorem wtf8_string_decoder kIntptrSize address data cs :
  (0 < kIntptrSize)%nat -> Forall is_byte data -> Forall is_code_point cs ->
  (exists d, new_decoder kIntptrSize address Wtf8Decoder data = Ok d /\ is_invalid d = negb (Wtf8_ValidateEncoding data)) /\
  (exists d, new_decoder kIntptrSize address Wtf8Decoder (utf8_bytes cs) = Ok d /\ is_invalid d = negb (unpaired 0 cs) /\
     (unpaired 0 cs = true -> utf16_length_ d = Z.of_nat (length (units cs)) /\ is_one_byte_decoder d = all_latin1 cs /\
        forall wide, wide = true \/ is_one_byte_decoder d = true -> decode_data Wtf8Decoder wide d (utf8_bytes cs) = Ok (units cs))) /\
  ScanForSurrogates 0 (utf8_bytes cs) = Ok (surrogate_offsets 0 cs).
Proof.
  intros Hsize Hdata Hcs. split; [by apply wtf8_validation|]. split; [by apply wtf8_decoder_spec|by apply ScanForSurrogates_spec].
Qed.

Lemma wtf8_string_decoder_witness :
  (exists d, new_decoder 8 0 Wtf8Decoder [0xED; 0xA0; 0x80] = Ok d /\ is_invalid d = false) /\
  (exists d, new_decoder 8 0 Wtf8Decoder (utf8_bytes [0xD800; 0xDC00]) = Ok d /\ is_invalid d = true) /\
  ScanForSurrogates 0 (utf8_bytes [0xD800; 0xDC00]) = Ok [0; 3].
Proof.
  destruct (wtf8_string_decoder 8 0 [0xED; 0xA0; 0x80] [0xD800; 0xDC00]) as ((d1 & E1 & I1) & (d2 & E2 & I2 & _) & H3).
  - lia.
  - repeat constructor; discriminate.
  - repeat constructor; discriminate.
  - split; [exists d1; by split|]. split; [exists d2; by split|exact H3].
Defined.
