(* ===== verification/BigIntDigits.v ===== *)
(** * BigInt digits

    The functions on single digits of [src/bigint/digit-arithmetic.h], in every
    variant the preprocessor can select, and the bit-counting helpers of
    [src/bigint/util.h]. A digit is a non-negative integer below
    [2 ^ kDigitBits]; every intermediate result is reduced to the width of its
    C++ type. An out-parameter is a second component of the result. *)

From stdpp Require Import base list numbers.
From Stdlib Require Import ZArith Lia Bool.
From S2P Require Import Prelude.

Local Open Scope Z_scope.

(** ** The build target

    [kLog2DigitBits] is 5 on a 32-bit and 6 on a 64-bit target.
    [HAVE_TWODIGIT_T] tells whether the compiler has an integer type of two
    digits, [HAVE_DIV_INSTRUCTION] whether [digit_div] is the processor's
    divide instruction. *)

Class DigitTarget := {
  kLog2DigitBits : Z;
  HAVE_TWODIGIT_T : bool;
  HAVE_DIV_INSTRUCTION : bool
}.

Class DigitTargetOK (T : DigitTarget) : Prop :=
  target_width : kLog2DigitBits = 5 \/ kLog2DigitBits = 6.

Section Digits.
Context {T : DigitTarget}.

Definition kDigitBits : Z := Z.shiftl 1 kLog2DigitBits.

(** Conversion of an integer to [digit_t] and to [twodigit_t]. *)
Definition digit_t (z : Z) : Z := wrap kDigitBits z.
Definition twodigit_t (z : Z) : Z := wrap (2 * kDigitBits) z.

Definition kHalfDigitBits : Z := kDigitBits / 2.
Definition kHalfDigitBase : Z := digit_t (Z.shiftl 1 kHalfDigitBits).
Definition kHalfDigitMask : Z := digit_t (kHalfDigitBase - 1).

Definition digit_ismax (x : Z) : bool := digit_t (Z.lnot x) =? 0.

Definition digit_add2 (a b : Z) : Z * Z :=
  if HAVE_TWODIGIT_T then
    let result := twodigit_t (a + b) in
    (digit_t result, digit_t (Z.shiftr result kDigitBits))
  else
    let result := digit_t (a + b) in
    (result, if result <? a then 1 else 0).

Definition digit_add3 (a b c : Z) : Z * Z :=
  if HAVE_TWODIGIT_T then
    let result := twodigit_t (twodigit_t (a + b) + c) in
    (digit_t result, digit_t (Z.shiftr result kDigitBits))
  else
    let result := digit_t (a + b) in
    let carry := if result <? a then 1 else 0 in
    let result := digit_t (result + c) in
    (result, if result <? c then digit_t (carry + 1) else carry).

Definition digit_sub (a b : Z) : Z * Z :=
  if HAVE_TWODIGIT_T then
    let result := twodigit_t (a - b) in
    (digit_t result, digit_t (Z.land (Z.shiftr result kDigitBits) 1))
  else
    let result := digit_t (a - b) in
    (result, if a <? result then 1 else 0).

Definition digit_sub2 (a b borrow_in : Z) : Z * Z :=
  if HAVE_TWODIGIT_T then
    let subtrahend := twodigit_t (b + borrow_in) in
    let result := twodigit_t (a - subtrahend) in
    (digit_t result, digit_t (Z.land (Z.shiftr result kDigitBits) 1))
  else
    let result := digit_t (a - b) in
    let borrow_out := if a <? result then 1 else 0 in
    let borrow_out := if result <? borrow_in then digit_t (borrow_out + 1) else borrow_out in
    (digit_t (result - borrow_in), borrow_out).

(** The low half of the product, and its high half. *)
Definition digit_mul (a b : Z) : Z * Z :=
  if HAVE_TWODIGIT_T then
    let result := twodigit_t (a * b) in
    (digit_t result, digit_t (Z.shiftr result kDigitBits))
  else
    let a_low := Z.land a kHalfDigitMask in
    let a_high := Z.shiftr a kHalfDigitBits in
    let b_low := Z.land b kHalfDigitMask in
    let b_high := Z.shiftr b kHalfDigitBits in
    let r_low := digit_t (a_low * b_low) in
    let r_mid1 := digit_t (a_low * b_high) in
    let r_mid2 := digit_t (a_high * b_low) in
    let r_high := digit_t (a_high * b_high) in
    let '(low, carry) :=
      digit_add3 r_low (digit_t (Z.shiftl r_mid1 kHalfDigitBits))
        (digit_t (Z.shiftl r_mid2 kHalfDigitBits)) in
    (low,
     digit_t
       (digit_t
          (digit_t (Z.shiftr r_mid1 kHalfDigitBits + Z.shiftr r_mid2 kHalfDigitBits) + r_high)
        + carry)).

Definition CountLeadingZeros (value : Z) : Z :=
  if value =? 0 then kDigitBits else kDigitBits - 1 - Z.log2 value.

(** The loop that lowers an estimated half digit of the quotient. It is left
    after at most two rounds, so a bound of three is never reached. *)
Fixpoint digit_div_adjust (fuel : nat) (vn1 vn0 un : Z) (q rhat : Z) : option (Z * Z) :=
  match fuel with
  | O => None
  | S n =>
      if (kHalfDigitBase <=? q)
         || (digit_t (digit_t (rhat * kHalfDigitBase) + un) <? digit_t (q * vn0)) then
        let q := digit_t (q - 1) in
        let rhat := digit_t (rhat + vn1) in
        if kHalfDigitBase <=? rhat then Some (q, rhat)
        else digit_div_adjust n vn1 vn0 un q rhat
      else Some (q, rhat)
  end.

Definition kAdjustRounds : nat := 3.

(** The two half digits of the quotient of [un32 un10] by a divisor with its
    top bit set, and the remainder. *)
Definition digit_div_halves (un32 un10 divisor : Z) : option (Z * Z) :=
  let vn1 := Z.shiftr divisor kHalfDigitBits in
  let vn0 := Z.land divisor kHalfDigitMask in
  let un1 := Z.shiftr un10 kHalfDigitBits in
  let un0 := Z.land un10 kHalfDigitMask in
  let q1 := un32 / vn1 in
  let rhat := digit_t (un32 - digit_t (q1 * vn1)) in
  match digit_div_adjust kAdjustRounds vn1 vn0 un1 q1 rhat with
  | None => None
  | Some (q1, _) =>
      let un21 :=
        digit_t (digit_t (digit_t (un32 * kHalfDigitBase) + un1) - digit_t (q1 * divisor)) in
      let q0 := un21 / vn1 in
      let rhat := digit_t (un21 - digit_t (q0 * vn1)) in
      match digit_div_adjust kAdjustRounds vn1 vn0 un0 q0 rhat with
      | None => None
      | Some (q0, _) =>
          Some
            (digit_t (digit_t (q1 * kHalfDigitBase) + q0),
             digit_t (digit_t (digit_t (un21 * kHalfDigitBase) + un0) - digit_t (q0 * divisor)))
      end
  end.

(** Division without a divide instruction for two digits. *)
Definition digit_div_generic (high low divisor : Z) : option (Z * Z) :=
  let s := CountLeadingZeros divisor in
  if s =? kDigitBits then None
  else
    let divisor := digit_t (Z.shiftl divisor s) in
    let kShiftMask := kDigitBits - 1 in
    let s_zero_mask := digit_t (Z.shiftr (- s) (kDigitBits - 1)) in
    let un32 :=
      Z.lor (digit_t (Z.shiftl high s))
        (Z.land (Z.shiftr low (Z.land (kDigitBits - s) kShiftMask)) s_zero_mask) in
    let un10 := digit_t (Z.shiftl low s) in
    match digit_div_halves un32 un10 divisor with
    | None => None
    | Some (quotient, remainder) => Some (quotient, Z.shiftr remainder s)
    end.

(** The quotient and the remainder. The divide instruction faults when the
    quotient does not fit a digit. *)
Definition digit_div (high low divisor : Z) : option (Z * Z) :=
  if negb ((high <? divisor) && negb (divisor =? 0)) then None
  else if HAVE_DIV_INSTRUCTION then
    let dividend := high * 2 ^ kDigitBits + low in
    Some (dividend / divisor, dividend mod divisor)
  else digit_div_generic high low divisor.

(** ** Widths *)

Definition kBase : Z := 2 ^ kDigitBits.
Definition is_digit (x : Z) : Prop := 0 <= x < kBase.

Context {TOK : DigitTargetOK T}.

Lemma kDigitBits_pos : 32 <= kDigitBits.
Proof. unfold kDigitBits. destruct TOK as [-> | ->]; vm_compute; discriminate. Qed.

Lemma kHalfDigitBits_pos : 16 <= kHalfDigitBits.
Proof. unfold kHalfDigitBits, kDigitBits. destruct TOK as [-> | ->]; vm_compute; discriminate. Qed.

Lemma kDigitBits_half : kDigitBits = kHalfDigitBits + kHalfDigitBits.
Proof. unfold kHalfDigitBits, kDigitBits. destruct TOK as [-> | ->]; reflexivity. Qed.

Lemma kBase_pos : 2 ^ 32 <= kBase.
Proof. apply Z.pow_le_mono_r; [lia|apply kDigitBits_pos]. Qed.

Lemma kHalfDigitBase_eq : kHalfDigitBase = 2 ^ kHalfDigitBits.
Proof.
  unfold kHalfDigitBase, digit_t. pose proof kHalfDigitBits_pos. rewrite Z.shiftl_1_l.
  pose proof kDigitBits_half.
  apply wrap_small. split; [lia|]. apply Z.pow_lt_mono_r; lia.
Qed.

Lemma kBase_half : kBase = kHalfDigitBase * kHalfDigitBase.
Proof.
  rewrite kHalfDigitBase_eq. unfold kBase. pose proof kHalfDigitBits_pos.
  rewrite kDigitBits_half, Z.pow_add_r by lia. done.
Qed.

Lemma kHalfDigitBase_pos : 2 ^ 16 <= kHalfDigitBase.
Proof.
  rewrite kHalfDigitBase_eq. apply Z.pow_le_mono_r; [lia|apply kHalfDigitBits_pos].
Qed.

Lemma kHalfDigitBase_even : exists k, kHalfDigitBase = 2 * k.
Proof.
  exists (2 ^ (kHalfDigitBits - 1)). rewrite kHalfDigitBase_eq. pose proof kHalfDigitBits_pos.
  rewrite <- Z.pow_succ_r by lia. f_equal. lia.
Qed.

(** [digit_t z] when it is known how often the base fits into [z]. *)
Lemma digit_t_eq k z : k * kBase <= z < (k + 1) * kBase -> digit_t z = z - k * kBase.
Proof.
  intros H. unfold digit_t, wrap. fold kBase.
  symmetry. apply (Z.mod_unique z kBase k); [left|]; lia.
Qed.

Lemma digit_t_small z : is_digit z -> digit_t z = z.
Proof. apply wrap_small. Qed.

Lemma digit_t_range z : is_digit (digit_t z).
Proof. apply wrap_range. pose proof kDigitBits_pos. lia. Qed.

Lemma digit_t_mod z : digit_t z = z mod kBase.
Proof. done. Qed.

Lemma twodigit_t_eq k z :
  k * (kBase * kBase) <= z < (k + 1) * (kBase * kBase) ->
  twodigit_t z = z - k * (kBase * kBase).
Proof.
  intros H. unfold twodigit_t, wrap. pose proof kDigitBits_pos.
  replace (2 ^ (2 * kDigitBits)) with (kBase * kBase)
    by (unfold kBase; rewrite <- Z.pow_add_r by lia; f_equal; lia).
  symmetry. apply (Z.mod_unique z (kBase * kBase) k); [left|]; lia.
Qed.

Lemma shiftr_digit z : Z.shiftr z kDigitBits = z / kBase.
Proof. apply Z.shiftr_div_pow2. pose proof kDigitBits_pos. lia. Qed.

Lemma shiftr_half z : Z.shiftr z kHalfDigitBits = z / kHalfDigitBase.
Proof. rewrite kHalfDigitBase_eq. apply Z.shiftr_div_pow2. pose proof kHalfDigitBits_pos. lia. Qed.

Lemma shiftl_half z : Z.shiftl z kHalfDigitBits = z * kHalfDigitBase.
Proof. rewrite kHalfDigitBase_eq. apply Z.shiftl_mul_pow2. pose proof kHalfDigitBits_pos. lia. Qed.

Lemma land_half z : Z.land z kHalfDigitMask = z mod kHalfDigitBase.
Proof.
  unfold kHalfDigitMask. pose proof kHalfDigitBase_pos. pose proof kBase_half.
  rewrite digit_t_small by (unfold is_digit; nia).
  rewrite kHalfDigitBase_eq. replace (2 ^ kHalfDigitBits - 1) with (Z.ones kHalfDigitBits)
    by (rewrite Z.ones_equiv; lia).
  apply Z.land_ones. pose proof kHalfDigitBits_pos. lia.
Qed.

(** The carry of a sum of digits, as a double digit. *)
Lemma twodigit_split z k r :
  z = k * kBase + r -> 0 <= k < kBase -> is_digit r ->
  digit_t (twodigit_t z) = r /\ digit_t (Z.shiftr (twodigit_t z) kDigitBits) = k.
Proof.
  intros -> Hk Hr. unfold is_digit in *. pose proof kBase_pos.
  rewrite (twodigit_t_eq 0) by nia. rewrite Z.mul_0_l, Z.sub_0_r. split.
  - rewrite (digit_t_eq k) by nia. lia.
  - rewrite shiftr_digit, Z.div_add_l, (Z.div_small r) by (unfold is_digit in *; lia).
    rewrite digit_t_small; [lia|]. unfold is_digit. lia.
Qed.

(** ** Sums and differences *)

Lemma digit_add2_spec a b :
  is_digit a -> is_digit b ->
  exists r c, digit_add2 a b = (r, c) /\ a + b = c * kBase + r /\ is_digit r /\ 0 <= c <= 1.
Proof.
  intros Ha Hb. unfold is_digit in *. pose proof kBase_pos.
  set (c := if a + b <? kBase then 0 else 1). exists (a + b - c * kBase), c.
  assert (0 <= a + b - c * kBase < kBase /\ 0 <= c <= 1)
    by (subst c; case_ltb).
  split; [|lia]. unfold digit_add2. destruct HAVE_TWODIGIT_T.
  - destruct (twodigit_split (a + b) c (a + b - c * kBase)) as [-> ->]; [lia|lia|unfold is_digit; lia|done].
  - rewrite (digit_t_eq c) by lia. f_equal. subst c.
    case_ltb.
Qed.

Lemma digit_add3_spec a b c :
  is_digit a -> is_digit b -> is_digit c ->
  exists r k, digit_add3 a b c = (r, k) /\ a + b + c = k * kBase + r /\ is_digit r /\ 0 <= k <= 2.
Proof.
  intros Ha Hb Hc. unfold is_digit in *. pose proof kBase_pos.
  set (k1 := if a + b <? kBase then 0 else 1).
  set (r1 := a + b - k1 * kBase).
  set (k2 := if r1 + c <? kBase then 0 else 1).
  assert (Er1 : r1 = a + b - k1 * kBase) by done.
  assert (Hr1 : 0 <= r1 < kBase /\ 0 <= k1 <= 1)
    by (subst r1 k1; case_ltb).
  assert (Hr2 : 0 <= r1 + c - k2 * kBase < kBase /\ 0 <= k2 <= 1)
    by (subst k2; case_ltb).
  exists (r1 + c - k2 * kBase), (k1 + k2). split; [|lia].
  unfold digit_add3. destruct HAVE_TWODIGIT_T.
  - rewrite (twodigit_t_eq 0 (a + b)) by nia.
    replace (a + b - 0 * (kBase * kBase) + c) with (a + b + c) by lia.
    destruct (twodigit_split (a + b + c) (k1 + k2) (r1 + c - k2 * kBase)) as [-> ->];
      unfold is_digit; lia || done.
  - rewrite (digit_t_eq k1 (a + b)) by lia. fold r1. rewrite (digit_t_eq k2 (r1 + c)) by lia.
    f_equal.
    replace (if r1 <? a then 1 else 0) with k1
      by (subst r1 k1; case_ltb).
    rewrite digit_t_small by (unfold is_digit; lia).
    subst k2. case_ltb.
Qed.

(** The borrow of a difference, from the sign of the double digit. *)
Lemma twodigit_borrow z w r :
  z = r - w * kBase -> 0 <= w <= 1 -> is_digit r ->
  digit_t (twodigit_t z) = r /\ digit_t (Z.land (Z.shiftr (twodigit_t z) kDigitBits) 1) = w.
Proof.
  intros -> Hw Hr. unfold is_digit in *. pose proof kBase_pos.
  assert (Hd0 : is_digit 0) by (unfold is_digit; lia). assert (Hd1 : is_digit 1) by (unfold is_digit; lia).
  assert (w = 0 \/ w = 1) as [-> | ->] by lia.
  - rewrite (twodigit_t_eq 0) by nia. rewrite !Z.mul_0_l, !Z.sub_0_r, shiftr_digit, Z.div_small by lia.
    split; [by apply digit_t_small|]. rewrite Z.land_0_l. by apply digit_t_small.
  - rewrite (twodigit_t_eq (-1)) by nia.
    replace (r - 1 * kBase - -1 * (kBase * kBase)) with ((kBase - 1) * kBase + r) by lia.
    split; [rewrite (digit_t_eq (kBase - 1)) by nia; lia|].
    rewrite shiftr_digit, Z.div_add_l, (Z.div_small r), Z.add_0_r by lia.
    change 1 with (Z.ones 1) at 2. rewrite Z.land_ones by lia.
    replace ((kBase - 1) mod 2 ^ 1) with 1; [by apply digit_t_small|].
    unfold kBase. pose proof kDigitBits_pos.
    replace kDigitBits with (Z.succ (kDigitBits - 1)) by lia. rewrite Z.pow_succ_r by lia.
    apply (Z.mod_unique _ _ (2 ^ (kDigitBits - 1) - 1)); lia.
Qed.

Lemma digit_sub_spec a b :
  is_digit a -> is_digit b ->
  exists r w, digit_sub a b = (r, w) /\ a - b = r - w * kBase /\ is_digit r /\ 0 <= w <= 1.
Proof.
  intros Ha Hb. unfold is_digit in *. pose proof kBase_pos.
  set (w := if a <? b then 1 else 0). exists (a - b + w * kBase), w.
  assert (0 <= a - b + w * kBase < kBase /\ 0 <= w <= 1)
    by (subst w; case_ltb).
  split; [|lia]. unfold digit_sub. destruct HAVE_TWODIGIT_T.
  - destruct (twodigit_borrow (a - b) w (a - b + w * kBase)) as [-> ->]; [lia|lia|unfold is_digit; lia|done].
  - rewrite (digit_t_eq (- w)) by lia. f_equal; [lia|]. subst w.
    case_ltb.
Qed.

Lemma digit_sub2_spec a b c :
  is_digit a -> is_digit b -> 0 <= c <= 1 ->
  exists r w, digit_sub2 a b c = (r, w) /\ a - b - c = r - w * kBase /\ is_digit r /\ 0 <= w <= 1.
Proof.
  intros Ha Hb Hc. unfold is_digit in *. pose proof kBase_pos.
  set (w := if a <? b + c then 1 else 0). exists (a - b - c + w * kBase), w.
  assert (0 <= a - b - c + w * kBase < kBase /\ 0 <= w <= 1)
    by (subst w; case_ltb).
  split; [|lia]. unfold digit_sub2. destruct HAVE_TWODIGIT_T.
  - rewrite (twodigit_t_eq 0 (b + c)) by nia.
    destruct (twodigit_borrow (a - (b + c - 0 * (kBase * kBase))) w (a - b - c + w * kBase))
      as [-> ->]; [lia|lia|unfold is_digit; lia|done].
  - set (w1 := if a <? b then 1 else 0).
    assert (Hw1 : 0 <= a - b + w1 * kBase < kBase /\ 0 <= w1 <= 1)
      by (subst w1; case_ltb).
    rewrite (digit_t_eq (- w1) (a - b)) by lia.
    replace (if a <? a - b - - w1 * kBase then 1 else 0) with w1
      by (subst w1; case_ltb).
    rewrite (digit_t_small (w1 + 1)) by (unfold is_digit; lia).
    rewrite (digit_t_eq (w1 - w)) by (subst w w1; case_ltb).
    f_equal; [lia|]. subst w w1.
    case_ltb.
Qed.

(** ** Products *)

Lemma digit_t_mul_half z : digit_t (z * kHalfDigitBase) = z mod kHalfDigitBase * kHalfDigitBase.
Proof.
  rewrite digit_t_mod, kBase_half. pose proof kHalfDigitBase_pos.
  rewrite Z.mul_mod_distr_r by lia. done.
Qed.

Lemma half_split z :
  z = z / kHalfDigitBase * kHalfDigitBase + z mod kHalfDigitBase /\
  0 <= z mod kHalfDigitBase < kHalfDigitBase.
Proof.
  pose proof kHalfDigitBase_pos. split; [|apply Z.mod_pos_bound; lia].
  rewrite (Z.div_mod z kHalfDigitBase) at 1 by lia. lia.
Qed.

Lemma half_range z : is_digit z -> 0 <= z / kHalfDigitBase < kHalfDigitBase.
Proof.
  unfold is_digit. rewrite kBase_half. intros. pose proof kHalfDigitBase_pos.
  split; [apply Z.div_pos; lia|apply Z.div_lt_upper_bound; lia].
Qed.

Lemma quotient_range z k r :
  z = k * kBase + r -> is_digit r -> 0 <= z < kBase * kBase -> is_digit k.
Proof. unfold is_digit. intros -> Hr Hz. pose proof kBase_pos. nia. Qed.

Lemma digit_mul_spec a b :
  is_digit a -> is_digit b ->
  exists low high,
    digit_mul a b = (low, high) /\ a * b = high * kBase + low /\ is_digit low /\ is_digit high.
Proof.
  intros Ha Hb. pose proof kBase_pos.
  assert (Hab : 0 <= a * b < kBase * kBase) by (unfold is_digit in *; nia).
  unfold digit_mul. destruct HAVE_TWODIGIT_T.
  - exists ((a * b) mod kBase), (a * b / kBase).
    assert (Hlow : is_digit ((a * b) mod kBase)) by (apply Z.mod_pos_bound; lia).
    assert (Hhigh : is_digit (a * b / kBase)).
    { split; [apply Z.div_pos; lia|apply Z.div_lt_upper_bound; nia]. }
    assert (E : a * b = a * b / kBase * kBase + (a * b) mod kBase).
    { rewrite (Z.div_mod (a * b) kBase) at 1 by lia. lia. }
    destruct (twodigit_split _ _ _ E Hhigh Hlow) as [-> ->]. done.
  - rewrite !shiftr_half, !land_half, !shiftl_half.
    destruct (half_split a) as [Ea Hal], (half_split b) as [Eb Hbl].
    pose proof (half_range a Ha) as Hah. pose proof (half_range b Hb) as Hbh.
    set (ah := a / kHalfDigitBase) in *. set (al := a mod kHalfDigitBase) in *.
    set (bh := b / kHalfDigitBase) in *. set (bl := b mod kHalfDigitBase) in *.
    assert (Hp : forall x y, 0 <= x < kHalfDigitBase -> 0 <= y < kHalfDigitBase -> is_digit (x * y))
      by (intros; unfold is_digit; rewrite kBase_half; nia).
    rewrite !digit_t_mul_half, (digit_t_small (al * bl)), (digit_t_small (al * bh)),
      (digit_t_small (ah * bl)), (digit_t_small (ah * bh)) by auto.
    destruct (half_split (al * bh)) as [E1 H1], (half_split (ah * bl)) as [E2 H2].
    pose proof (half_range _ (Hp _ _ Hal Hbh)) as G1. pose proof (half_range _ (Hp _ _ Hah Hbl)) as G2.
    set (m1h := al * bh / kHalfDigitBase) in *. set (m1l := (al * bh) mod kHalfDigitBase) in *.
    set (m2h := ah * bl / kHalfDigitBase) in *. set (m2l := (ah * bl) mod kHalfDigitBase) in *.
    pose proof kHalfDigitBase_pos.
    destruct (digit_add3_spec (al * bl) (m1l * kHalfDigitBase) (m2l * kHalfDigitBase))
      as (low & carry & -> & Es & Hlow & Hc); [auto|unfold is_digit; rewrite kBase_half; nia..|].
    assert (E : a * b = (m1h + m2h + ah * bh + carry) * kBase + low).
    { rewrite kBase_half in *. nia. }
    assert (Hhigh : is_digit (m1h + m2h + ah * bh + carry)) by eauto using quotient_range.
    assert (Hhh : 0 <= ah * bh) by nia.
    exists low, (m1h + m2h + ah * bh + carry). split; [|done]. f_equal.
    rewrite (digit_t_small (m1h + m2h)) by (clear - Hhigh Hhh G1 G2 Hc; unfold is_digit in *; lia).
    rewrite (digit_t_small (_ + ah * bh)) by (clear - Hhigh Hhh G1 G2 Hc; unfold is_digit in *; lia).
    by apply digit_t_small.
Qed.

(** ** Quotients *)

Section Adjust.
Variables vn1 vn0 un u : Z.
Hypothesis Hvn1 : kHalfDigitBase <= 2 * vn1 /\ vn1 < kHalfDigitBase.
Hypothesis Hvn0 : 0 <= vn0 < kHalfDigitBase.
Hypothesis Hun : 0 <= un < kHalfDigitBase.
Hypothesis Hu : 0 <= u < vn1 * kHalfDigitBase + vn0.

Local Abbreviation divisor := (vn1 * kHalfDigitBase + vn0).
Local Abbreviation quotient := ((u * kHalfDigitBase + un) / divisor).

Lemma quotient_unique q :
  q * divisor <= u * kHalfDigitBase + un < (q + 1) * divisor -> q = quotient.
Proof.
  intros H. pose proof kHalfDigitBase_pos.
  apply (Z.div_unique _ _ q (u * kHalfDigitBase + un - q * divisor)); [left|]; nia.
Qed.

Lemma quotient_half : 0 <= quotient < kHalfDigitBase.
Proof.
  pose proof kHalfDigitBase_pos.
  split; [apply Z.div_pos; nia|apply Z.div_lt_upper_bound; nia].
Qed.

(** An estimate from above whose error the loop can see. *)
Lemma estimate_too_big q :
  0 <= q -> u * kHalfDigitBase + un < q * divisor -> quotient <= q - 1.
Proof.
  intros Hq H. pose proof kHalfDigitBase_pos.
  assert (quotient < q) by (apply Z.div_lt_upper_bound; nia). lia.
Qed.

Lemma estimate_fits q rhat :
  u = q * vn1 + rhat -> q * vn0 <= rhat * kHalfDigitBase + un -> quotient <= q -> q = quotient.
Proof.
  intros Hq H Hle. pose proof kHalfDigitBase_pos. apply quotient_unique. split; [nia|].
  pose proof (Z.mul_succ_div_gt (u * kHalfDigitBase + un) divisor). nia.
Qed.

Lemma digit_div_adjust_spec n q rhat :
  u = q * vn1 + rhat -> 0 <= rhat < kHalfDigitBase -> kHalfDigitBase <= rhat + Z.of_nat n * vn1 ->
  quotient <= q <= kHalfDigitBase + 1 ->
  exists r, digit_div_adjust n vn1 vn0 un q rhat = Some (quotient, r).
Proof.
  pose proof kHalfDigitBase_pos as HB. pose proof kBase_half as HBB. pose proof quotient_half as HQ.
  revert q rhat. induction n as [|n IH]; intros q rhat Eu Hr Hn Hq; [lia|].
  cbn [digit_div_adjust].
  rewrite (digit_t_small (rhat * _)), (digit_t_small (_ + un)) by (unfold is_digit; nia).
  set (too_big := (_ <=? q) || (_ <? _)).
  assert (Hcase : (too_big = true /\ quotient <= q - 1) \/ (too_big = false /\ q = quotient)).
  { subst too_big. destruct (Z.leb_spec kHalfDigitBase q); cbn [orb]; [left; lia|].
    rewrite (digit_t_small (q * vn0)) by (unfold is_digit; nia).
    destruct (Z.ltb_spec (rhat * kHalfDigitBase + un) (q * vn0)); [left|right].
    - split; [done|]. apply estimate_too_big; nia.
    - split; [done|]. apply (estimate_fits q rhat); lia. }
  destruct Hcase as [[-> Hle]|[-> ->]]; [|eauto].
  rewrite (digit_t_small (q - 1)), (digit_t_small (rhat + vn1)) by (unfold is_digit; nia).
  destruct (Z.leb_spec kHalfDigitBase (rhat + vn1)).
  - exists (rhat + vn1). do 2 f_equal. apply (estimate_fits (q - 1) (rhat + vn1)); [lia| |lia].
    assert ((q - 1) * vn0 <= kHalfDigitBase * (kHalfDigitBase - 1)) by nia. nia.
  - apply IH; lia.
Qed.
End Adjust.

(** The first estimate, from the leading half digit of the divisor. *)
Lemma digit_div_step vn1 vn0 un u :
  kHalfDigitBase <= 2 * vn1 -> vn1 < kHalfDigitBase -> 0 <= vn0 < kHalfDigitBase ->
  0 <= un < kHalfDigitBase -> 0 <= u < vn1 * kHalfDigitBase + vn0 ->
  exists r,
    digit_div_adjust kAdjustRounds vn1 vn0 un (u / vn1) (digit_t (u - digit_t (u / vn1 * vn1))) =
      Some ((u * kHalfDigitBase + un) / (vn1 * kHalfDigitBase + vn0), r).
Proof.
  intros H1 H2 H3 H4 H5. pose proof kHalfDigitBase_pos as HB. pose proof kBase_half as HBB.
  pose proof (Z.div_mod u vn1 ltac:(lia)) as E.
  pose proof (Z.mod_pos_bound u vn1 ltac:(lia)) as Hm.
  set (q := u / vn1) in *.
  assert (0 <= q) by (apply Z.div_pos; lia).
  assert (Hq : q <= kHalfDigitBase + 1) by nia.
  rewrite (digit_t_small (q * vn1)) by (unfold is_digit; nia).
  replace (u - q * vn1) with (u mod vn1) by lia.
  rewrite digit_t_small by (unfold is_digit; nia).
  apply (digit_div_adjust_spec vn1 vn0 un u); [done..|lia|lia|unfold kAdjustRounds; lia|].
  split; [|done].
  assert ((u * kHalfDigitBase + un) / (vn1 * kHalfDigitBase + vn0) < q + 1); [|lia].
  apply Z.div_lt_upper_bound; nia.
Qed.

(** ** Shifts by less than a digit *)

Lemma CountLeadingZeros_spec v :
  0 < v -> is_digit v ->
  0 <= CountLeadingZeros v < kDigitBits /\
  kBase <= 2 * (v * 2 ^ CountLeadingZeros v) /\ v * 2 ^ CountLeadingZeros v < kBase.
Proof.
  intros Hv Hd. unfold CountLeadingZeros. destruct (Z.eqb_spec v 0); [lia|].
  pose proof kDigitBits_pos. destruct (Z.log2_spec v Hv) as [Hlo Hhi].
  pose proof (Z.log2_nonneg v) as Hn.
  assert (Hl : Z.log2 v < kDigitBits) by (apply Z.log2_lt_pow2; [lia|apply Hd]).
  set (l := Z.log2 v) in *. set (s := kDigitBits - 1 - l).
  assert (Hs : 0 <= s) by lia. pose proof (Z.pow_pos_nonneg 2 s ltac:(lia) Hs).
  assert (E : kBase = 2 ^ Z.succ l * 2 ^ s)
    by (unfold kBase; rewrite <- Z.pow_add_r by lia; f_equal; lia).
  rewrite Z.pow_succ_r in * by lia. split; [lia|]. split; nia.
Qed.

Lemma pow_digit_split s : 0 <= s <= kDigitBits -> kBase = 2 ^ (kDigitBits - s) * 2 ^ s.
Proof. intros. unfold kBase. rewrite <- Z.pow_add_r by lia. f_equal. lia. Qed.

Lemma mod_split_mul a b : 0 < b -> a = a / b * b + a mod b /\ 0 <= a mod b < b.
Proof.
  intros. split; [|by apply Z.mod_pos_bound].
  rewrite (Z.div_mod a b) at 1 by lia. lia.
Qed.

Lemma land_kShiftMask z : Z.land z (kDigitBits - 1) = z mod kDigitBits.
Proof.
  unfold kDigitBits. destruct TOK as [-> | ->];
    [apply (Z.land_ones z 5)|apply (Z.land_ones z 6)]; lia.
Qed.

(** The two digits of a dividend shifted left by [s]. *)
Lemma dividend_shifted high low s :
  is_digit high -> is_digit low -> 0 <= s < kDigitBits -> high * 2 ^ s < kBase ->
  exists un32 un10,
    Z.lor (digit_t (Z.shiftl high s))
      (Z.land (Z.shiftr low (Z.land (kDigitBits - s) (kDigitBits - 1)))
         (digit_t (Z.shiftr (- s) (kDigitBits - 1)))) = un32 /\
    digit_t (Z.shiftl low s) = un10 /\
    (high * kBase + low) * 2 ^ s = un32 * kBase + un10 /\ is_digit un10.
Proof.
  intros Hh Hl Hs Hsh. pose proof kDigitBits_pos as HD. pose proof kBase_pos.
  unfold is_digit in *. rewrite !Z.shiftl_mul_pow2 by lia.
  pose proof (Z.pow_pos_nonneg 2 s ltac:(lia) ltac:(lia)) as Hp.
  rewrite (digit_t_small (high * _)) by (unfold is_digit; nia).
  eexists _, _. split; [reflexivity|]. split; [reflexivity|].
  split; [|apply digit_t_range].
  assert (Hlow : low * 2 ^ s = low / 2 ^ (kDigitBits - s) * kBase + digit_t (low * 2 ^ s)).
  { rewrite digit_t_mod, (pow_digit_split s) by lia.
    rewrite Z.mul_mod_distr_r by lia.
    destruct (mod_split_mul low (2 ^ (kDigitBits - s))) as [E _]; [apply Z.pow_pos_nonneg; lia|].
    rewrite E at 1. lia. }
  destruct (Z.eq_dec s 0) as [-> | Hs0].
  - replace (Z.shiftr (- 0) (kDigitBits - 1)) with 0 by (rewrite Z.shiftr_0_l; done).
    rewrite (digit_t_small 0), Z.land_0_r, Z.lor_0_r by (unfold is_digit; lia).
    rewrite Z.sub_0_r, Z.pow_0_r, !Z.mul_1_r in *. fold kBase in Hlow.
    rewrite (Z.div_small low kBase) in Hlow by lia. lia.
  - replace (Z.land (kDigitBits - s) (kDigitBits - 1)) with (kDigitBits - s).
    2: { rewrite land_kShiftMask, Z.mod_small; lia. }
    replace (Z.shiftr (- s) (kDigitBits - 1)) with (-1).
    2: { rewrite Z.shiftr_div_pow2 by lia. apply (Z.div_unique _ _ _ (2 ^ (kDigitBits - 1) - s)); [|lia].
         left. split; [|lia]. pose proof (Z.pow_gt_lin_r 2 (kDigitBits - 1)). lia. }
    rewrite (digit_t_eq (-1)) by lia.
    replace (-1 - -1 * kBase) with (Z.ones kDigitBits) by (rewrite Z.ones_equiv; fold kBase; lia).
    rewrite Z.shiftr_div_pow2, Z.land_ones by lia. fold kBase.
    assert (0 <= low / 2 ^ (kDigitBits - s) < 2 ^ s).
    { split; [apply Z.div_pos; [lia|apply Z.pow_pos_nonneg; lia]|].
      apply Z.div_lt_upper_bound; [apply Z.pow_pos_nonneg; lia|].
      rewrite <- pow_digit_split; lia. }
    pose proof (Z.pow_lt_mono_r 2 s kDigitBits ltac:(lia) ltac:(lia) ltac:(lia)) as Hlt.
    fold kBase in Hlt. rewrite Z.mod_small by lia. rewrite lor_add by lia. lia.
Qed.

(** One half digit of the quotient and what is left of the dividend. *)
Lemma digit_div_rest u un q d :
  is_digit d -> 0 < d -> q = (u * kHalfDigitBase + un) / d ->
  digit_t (digit_t (digit_t (u * kHalfDigitBase) + un) - digit_t (q * d)) =
    (u * kHalfDigitBase + un) mod d.
Proof.
  intros Hd Hp ->. rewrite !digit_t_mod.
  rewrite Zplus_mod_idemp_l, <- Zminus_mod.
  replace (u * kHalfDigitBase + un - (u * kHalfDigitBase + un) / d * d)
    with ((u * kHalfDigitBase + un) mod d) by (rewrite Z.mod_eq; lia).
  apply Z.mod_small. pose proof (Z.mod_pos_bound (u * kHalfDigitBase + un) d Hp).
  unfold is_digit in *. lia.
Qed.

Lemma digit_div_halves_spec un32 un10 v :
  is_digit v -> kBase <= 2 * v -> 0 <= un32 < v -> is_digit un10 ->
  digit_div_halves un32 un10 v =
    Some ((un32 * kBase + un10) / v, (un32 * kBase + un10) mod v).
Proof.
  intros Hv Hn Hun32 Hun10. pose proof kHalfDigitBase_pos as HB. pose proof kBase_half as HBB.
  unfold digit_div_halves. rewrite !shiftr_half, !land_half.
  destruct (half_split v) as [Ev Hv0], (half_split un10) as [Eun Hun0].
  pose proof (half_range un10 Hun10) as Hun1. pose proof (half_range v Hv) as Hv1.
  set (vn1 := v / kHalfDigitBase) in *. set (vn0 := v mod kHalfDigitBase) in *.
  set (un1 := un10 / kHalfDigitBase) in *. set (un0 := un10 mod kHalfDigitBase) in *.
  assert (Hvn1 : kHalfDigitBase <= 2 * vn1).
  { destruct kHalfDigitBase_even as [k Hk]. clear - Hn Ev Hv0 HBB HB Hk.
    assert (kHalfDigitBase < 2 * vn1 + 2) by nia. lia. }
  destruct (digit_div_step vn1 vn0 un1 un32) as [r1 ->]; [lia..|]. rewrite <- Ev.
  assert (0 < v) by lia.
  rewrite digit_div_rest by done.
  set (un21 := (un32 * kHalfDigitBase + un1) mod v).
  assert (Hun21 : 0 <= un21 < v) by (apply Z.mod_pos_bound; lia).
  destruct (digit_div_step vn1 vn0 un0 un21) as [r0 ->]; [lia..|]. rewrite <- Ev.
  rewrite digit_div_rest by done.
  destruct (mod_split_mul (un32 * kHalfDigitBase + un1) v) as [E1 _]; [lia|]. fold un21 in E1.
  destruct (mod_split_mul (un21 * kHalfDigitBase + un0) v) as [E0 Hr]; [lia|].
  set (q1 := (un32 * kHalfDigitBase + un1) / v) in *.
  set (q0 := (un21 * kHalfDigitBase + un0) / v) in *.
  set (r := (un21 * kHalfDigitBase + un0) mod v) in *.
  assert (E : un32 * kBase + un10 = (q1 * kHalfDigitBase + q0) * v + r).
  { rewrite HBB, Eun. clear - E1 E0. clearbody q0 q1 un21 r un1 un0.
    replace (un32 * (kHalfDigitBase * kHalfDigitBase) + (un1 * kHalfDigitBase + un0))
      with ((un32 * kHalfDigitBase + un1) * kHalfDigitBase + un0) by ring.
    rewrite E1. replace ((q1 * v + un21) * kHalfDigitBase + un0)
      with (q1 * v * kHalfDigitBase + (un21 * kHalfDigitBase + un0)) by ring.
    rewrite E0. ring. }
  assert (Eq : q1 * kHalfDigitBase + q0 = (un32 * kBase + un10) / v)
    by (apply (Z.div_unique _ _ _ r); lia).
  assert (Er : r = (un32 * kBase + un10) mod v)
    by (apply (Z.mod_unique _ _ (q1 * kHalfDigitBase + q0)); lia).
  do 2 f_equal; [|done]. rewrite !digit_t_mod, Zplus_mod_idemp_l, Eq. apply Z.mod_small.
  clear - Hun32 Hun10 Hv. unfold is_digit in *.
  split; [apply Z.div_pos; nia|]. apply Z.div_lt_upper_bound; nia.
Qed.

(** Scaling dividend and divisor by the same power of two. *)
Lemma dividend_bound high low d p :
  0 <= high < d -> is_digit low -> 0 < p -> (high * kBase + low) * p < d * p * kBase.
Proof.
  intros Hh Hl Hp. unfold is_digit in *.
  replace (d * p * kBase) with (d * kBase * p) by ring. apply Z.mul_lt_mono_pos_r; nia.
Qed.

Lemma digit_div_generic_spec high low d :
  0 <= high < d -> is_digit low -> is_digit d ->
  digit_div_generic high low d =
    Some ((high * kBase + low) / d, (high * kBase + low) mod d).
Proof.
  intros Hh Hl Hd. pose proof kBase_pos.
  destruct (CountLeadingZeros_spec d ltac:(lia) Hd) as (Hs & Hn1 & Hn2).
  unfold digit_div_generic. set (s := CountLeadingZeros d) in *.
  destruct (Z.eqb_spec s kDigitBits); [lia|].
  pose proof (Z.pow_pos_nonneg 2 s ltac:(lia) ltac:(lia)) as Hp.
  destruct (dividend_shifted high low s) as (un32 & un10 & -> & -> & E & Hun10);
    [unfold is_digit in *; lia|done|done|clear - Hh Hn2 Hp; nia|].
  pose proof (dividend_bound high low d (2 ^ s) Hh Hl Hp) as Hb.
  assert (0 < d * 2 ^ s) by (apply Z.mul_pos_pos; lia).
  rewrite (Z.shiftl_mul_pow2 d), (digit_t_small (d * 2 ^ s)) by (unfold is_digit; lia).
  rewrite digit_div_halves_spec; [|unfold is_digit; lia|lia| |done].
  - rewrite <- E, Z.div_mul_cancel_r, Z.mul_mod_distr_r, Z.shiftr_div_pow2, Z.div_mul by lia. done.
  - assert (0 <= (high * kBase + low) * 2 ^ s) by (apply Z.mul_nonneg_nonneg; unfold is_digit in *; nia).
    unfold is_digit in Hun10. clearbody s.
    split; [|apply (Z.mul_lt_mono_pos_r kBase); lia].
    destruct (Z_lt_le_dec un32 0); [|done]. exfalso.
    assert (un32 * kBase <= - kBase) by (clear - l H; nia). lia.
Qed.

Lemma digit_div_spec high low d :
  0 <= high < d -> is_digit low -> is_digit d ->
  digit_div high low d = Some ((high * kBase + low) / d, (high * kBase + low) mod d).
Proof.
  intros Hh Hl Hd. unfold digit_div.
  destruct (Z.ltb_spec high d), (Z.eqb_spec d 0); [lia| |lia|lia]. cbn [andb negb].
  destruct HAVE_DIV_INSTRUCTION; [done|]. by apply digit_div_generic_spec.
Qed.

End Digits.
