(* ===== verification/BigIntVectors.v ===== *)
(** * BigInt digit vectors

    The [Digits] and [RWDigits] views of [src/bigint/bigint.h] and the vector
    operations of [src/bigint/vector-arithmetic.h] and [vector-arithmetic.cc].
    A view is an address and a length into one shared memory, so that operands
    may overlap the way callers let them; [Z_] is the result vector the sources
    call [Z]. A failed [DCHECK] and an access
    outside a view are [Undefined]; the specifications exclude both. *)

From stdpp Require Import base list numbers.
From Stdlib Require Import ZArith Lia Bool.
From S2P Require Import Prelude.
From S2P Require Import BigIntDigits.

Local Open Scope Z_scope.
Local Open Scope prog_scope.

(** ** Memory and views

    [cell] gives the digit at every address; addresses from [free] on are not
    allocated and hold anything. [proc] holds the members of the processor the
    slow operations run on, and [queries] counts its calls to
    [InterruptRequested]. *)

Inductive Status := kOk | kInterrupted.

Record ProcessorImpl := mkProcessor {
  work_estimate_ : Z;
  status_ : Status;
  queries : nat
}.

Record Heap := mkHeap { cell : Z -> Z; free : Z; proc : ProcessorImpl }.

(** The largest [int], the type of lengths and indices. *)
Definition kMaxInt : Z := 2 ^ 31 - 1.

Record Digits := mkDigits { digits_ : Z; len_ : Z }.

Definition store (h : Heap) (a v : Z) : Heap :=
  mkHeap (fun x => if x =? a then v else cell h x) (free h) (proc h).

Section Vectors.
Context {T : DigitTarget}.
Local Abbreviation HM := (M Heap).

Definition DCHECK (b : bool) : HM unit := if b then ret tt else undefined.

(** [operator[]] of [Digits], and assignment through the one of [RWDigits]. *)
Definition get (D : Digits) (i : Z) : HM Z :=
  if (0 <=? i) && (i <? len_ D) then gets (fun h => cell h (digits_ D + i)) else undefined.

Definition set (D : Digits) (i v : Z) : HM unit :=
  if (0 <=? i) && (i <? len_ D) then modify (fun h => store h (digits_ D + i) v) else undefined.

Definition msd (D : Digits) : HM Z :=
  DCHECK (0 <? len_ D) ;;; get D (len_ D - 1).

(** The constructor that makes a slice of another view, and [operator+]. *)
Definition slice (src : Digits) (offset len : Z) : HM Digits :=
  DCHECK (0 <=? offset) ;;;
  ret (mkDigits (digits_ src + offset) (Z.max 0 (Z.min (len_ src - offset) len))).

Definition plus (D : Digits) (i : Z) : HM Digits :=
  DCHECK ((0 <=? i) && (i <=? len_ D)) ;;;
  ret (mkDigits (digits_ D + i) (len_ D - i)).

Definition TrimOne (D : Digits) : HM Digits :=
  let* m := msd D in
  DCHECK (m =? 0) ;;; ret (mkDigits (digits_ D) (len_ D - 1)).

Definition Normalize (D : Digits) : HM Digits :=
  loop (S (Z.to_nat (len_ D)))
    (fun len =>
       let D := mkDigits (digits_ D) len in
       if 0 <? len then
         let* m := msd D in
         ret (if m =? 0 then inl (len - 1) else inr D)
       else ret (inr D))
    (len_ D).

Definition Clear (D : Digits) : HM unit :=
  for_up 0 (len_ D) (fun i _ => set D i 0) tt.

(** [memset] over whole digits. *)
Definition memset (D : Digits) (length byte : Z) : HM unit :=
  for_up 0 length (fun i _ => set D i (byte * ((kBase - 1) / 0xFF))) tt.

(** The comparison of digits from index [i] down, up to the first that differs. *)
Definition compare_digits (A B : Digits) (i : Z) : HM Z :=
  loop (S (Z.to_nat (i + 1)))
    (fun i =>
       if 0 <=? i then
         let* a := get A i in
         let* b := get B i in
         ret (if a =? b then inl (i - 1) else inr (if b <? a then 1 else -1))
       else ret (inr 0))
    i.

Definition Compare (A B : Digits) : HM Z :=
  let* A := Normalize A in
  let* B := Normalize B in
  let diff := len_ A - len_ B in
  if negb (diff =? 0) then ret diff else compare_digits A B (len_ A - 1).

Definition GreaterThanOrEqual (A B : Digits) : HM bool :=
  let* c := Compare A B in ret (0 <=? c).

Definition IsDigitNormalized (X : Digits) : HM bool :=
  if len_ X =? 0 then ret true else let* m := msd X in ret (negb (m =? 0)).

Definition IsBitNormalized (X : Digits) : HM bool :=
  let* m := msd X in ret (Z.shiftr m (kDigitBits - 1) =? 1).

Definition BitLength (X : Digits) : HM Z :=
  let* m := msd X in ret (len_ X * kDigitBits - CountLeadingZeros m).

(** ** Vector arithmetic *)

(** [for (; i < n && carry != 0; i++)]: gives back the carry that is left. *)
Definition while_carry (n : Z) (body : Z -> Z -> HM Z) (i carry : Z) : HM (Z * Z) :=
  loop (S (Z.to_nat (n - i)))
    (fun '(i, carry) =>
       if (i <? n) && negb (carry =? 0) then
         let* carry := body i carry in ret (inl (i + 1, carry))
       else ret (inr (i, carry)))
    (i, carry).

(** [Z[i] = digit_add3(X[i], Y[i], carry, &carry)] and its variants. *)
Definition add3_at (Z_ X Y : Digits) (i carry : Z) : HM Z :=
  let* x := get X i in
  let* y := get Y i in
  let '(r, carry) := digit_add3 x y carry in
  set Z_ i r ;;; ret carry.

Definition add2_at (Z_ X : Digits) (i carry : Z) : HM Z :=
  let* x := get X i in
  let '(r, carry) := digit_add2 x carry in
  set Z_ i r ;;; ret carry.

Definition sub2_at (Z_ X Y : Digits) (i borrow : Z) : HM Z :=
  let* x := get X i in
  let* y := get Y i in
  let '(r, borrow) := digit_sub2 x y borrow in
  set Z_ i r ;;; ret borrow.

Definition sub_at (Z_ X : Digits) (i borrow : Z) : HM Z :=
  let* x := get X i in
  let '(r, borrow) := digit_sub x borrow in
  set Z_ i r ;;; ret borrow.

(** [Z[i] = X[i]] and [Z[i] = 0]. *)
Definition copy_at (Z_ X : Digits) (i : Z) (_ : unit) : HM unit :=
  let* x := get X i in set Z_ i x.

Definition zero_at (Z_ : Digits) (i : Z) (_ : unit) : HM unit := set Z_ i 0.

(** The loops of the inline [Add] and [Subtract] of a single digit run until
    the carry is gone; an access behind the end of [X] ends them. *)
Definition AddDigit (X : Digits) (y : Z) : HM unit :=
  loop (S (Z.to_nat (len_ X)))
    (fun '(i, carry) =>
       let* carry := add2_at X X i carry in
       ret (if negb (carry =? 0) then inl (i + 1, carry) else inr tt))
    (0, y).

Definition SubtractDigit (X : Digits) (y : Z) : HM unit :=
  loop (S (Z.to_nat (len_ X)))
    (fun '(i, borrow) =>
       let* borrow := sub_at X X i borrow in
       ret (if negb (borrow =? 0) then inl (i + 1, borrow) else inr tt))
    (0, y).

Definition AddAndReturnOverflow (Z_ X : Digits) : HM Z :=
  let* X := Normalize X in
  if len_ X =? 0 then ret 0
  else
    let* carry := for_up 0 (len_ X) (add3_at Z_ Z_ X) 0 in
    let* (_, carry) := while_carry (len_ Z_) (add2_at Z_ Z_) (len_ X) carry in
    ret carry.

Definition SubAndReturnBorrow (Z_ X : Digits) : HM Z :=
  let* X := Normalize X in
  if len_ X =? 0 then ret 0
  else
    let* borrow := for_up 0 (len_ X) (sub2_at Z_ Z_ X) 0 in
    let* (_, borrow) := while_carry (len_ Z_) (sub_at Z_ Z_) (len_ X) borrow in
    ret borrow.

Definition Add_ordered (Z_ X Y : Digits) : HM unit :=
  let* carry := for_up 0 (len_ Y) (add3_at Z_ X Y) 0 in
  let* carry := for_up (len_ Y) (len_ X) (add2_at Z_ X) carry in
  let* _ := for_up (len_ X) (len_ Z_) (fun i carry => set Z_ i carry ;;; ret 0) carry in
  ret tt.

Definition Add (Z_ X Y : Digits) : HM unit :=
  if len_ X <? len_ Y then Add_ordered Z_ Y X else Add_ordered Z_ X Y.

(** The loops of [Subtract], which [KaratsubaSubtractionHelper] has too. *)
Definition subtract_digits (Z_ X Y : Digits) : HM unit :=
  let* borrow := for_up 0 (len_ Y) (sub2_at Z_ X Y) 0 in
  let* borrow := for_up (len_ Y) (len_ X) (sub_at Z_ X) borrow in
  DCHECK (borrow =? 0) ;;;
  for_up (len_ X) (len_ Z_) (zero_at Z_) tt.

Definition Subtract (Z_ X Y : Digits) : HM unit :=
  let* X := Normalize X in
  let* Y := Normalize Y in
  DCHECK (len_ Y <=? len_ X) ;;;
  subtract_digits Z_ X Y.

Definition AddAndReturnCarry (Z_ X Y : Digits) : HM Z :=
  DCHECK ((len_ Y <=? len_ Z_) && (len_ Y <=? len_ X)) ;;;
  for_up 0 (len_ Y) (add3_at Z_ X Y) 0.

Definition SubtractAndReturnBorrow (Z_ X Y : Digits) : HM Z :=
  DCHECK ((len_ Y <=? len_ Z_) && (len_ Y <=? len_ X)) ;;;
  for_up 0 (len_ Y) (sub2_at Z_ X Y) 0.

Definition AddSigned (Z_ X : Digits) (x_negative : bool) (Y : Digits) (y_negative : bool) : HM bool :=
  if Bool.eqb x_negative y_negative then Add Z_ X Y ;;; ret x_negative
  else
    let* ge := GreaterThanOrEqual X Y in
    if ge : bool then Subtract Z_ X Y ;;; ret x_negative
    else Subtract Z_ Y X ;;; ret (negb x_negative).

Definition SubtractSigned (Z_ X : Digits) (x_negative : bool) (Y : Digits) (y_negative : bool) : HM bool :=
  if negb (Bool.eqb x_negative y_negative) then Add Z_ X Y ;;; ret x_negative
  else
    let* ge := GreaterThanOrEqual X Y in
    if ge : bool then Subtract Z_ X Y ;;; ret x_negative
    else Subtract Z_ Y X ;;; ret (negb x_negative).

Definition AddOne (Z_ X : Digits) : HM unit :=
  let* (i, carry) := while_carry (len_ X) (add2_at Z_ X) 0 1 in
  let* i := (if 0 <? carry then set Z_ i carry ;;; ret (i + 1) else ret i) in
  for_up i (len_ X) (copy_at Z_ X) tt ;;;
  for_up (Z.max i (len_ X)) (len_ Z_) (zero_at Z_) tt.

(** [for (; borrow > 0; i++)] has no bound of its own: an access behind the
    end of [X] ends it. *)
Definition SubtractOne (Z_ X : Digits) : HM unit :=
  let* i :=
    loop (S (Z.to_nat (len_ X)))
      (fun '(i, borrow) =>
         if 0 <? borrow then
           let* borrow := sub_at Z_ X i borrow in ret (inl (i + 1, borrow))
         else ret (inr i))
      (0, 1) in
  for_up i (len_ X) (copy_at Z_ X) tt ;;;
  for_up (Z.max i (len_ X)) (len_ Z_) (zero_at Z_) tt.

(** ** Result lengths *)

Definition AddResultLength (x_length y_length : Z) : Z := Z.max x_length y_length + 1.

Definition AddSignedResultLength (x_length y_length : Z) (same_sign : bool) : Z :=
  if same_sign then AddResultLength x_length y_length else Z.max x_length y_length.

Definition SubtractResultLength (x_length y_length : Z) : Z := x_length.

Definition SubtractSignedResultLength (x_length y_length : Z) (same_sign : bool) : Z :=
  if same_sign then Z.max x_length y_length else AddResultLength x_length y_length.

Definition MultiplyResultLength (X Y : Digits) : Z := len_ X + len_ Y.

End Vectors.
