(* ===== verification/BigIntMemory.v ===== *)
(** * Values of digit vectors and writes to memory

    The number a view denotes, what a partly finished loop over a result vector
    has written, and the rules that run the accesses of the vector operations. *)

From stdpp Require Import base list numbers.
From Stdlib Require Import ZArith Lia Bool.
From S2P Require Import Prelude.
From S2P Require Import BigIntDigits.
From S2P Require Import BigIntVectors.

Local Open Scope Z_scope.
Local Open Scope prog_scope.

Section Memory.
Context {T : DigitTarget}.

(** ** Sums of digits *)

(** [f p + f (p + 1) * kBase + ...], [n] terms. *)
Fixpoint sum_digits (f : Z -> Z) (p : Z) (n : nat) : Z :=
  match n with
  | O => 0
  | S n => sum_digits f p n + f (p + Z.of_nat n) * kBase ^ Z.of_nat n
  end.

Definition sum (f : Z -> Z) (p n : Z) : Z := sum_digits f p (Z.to_nat n).

(** The number a view denotes. *)
Definition value (h : Heap) (D : Digits) : Z := sum (cell h) (digits_ D) (len_ D).

(** A magnitude with a sign. *)
Definition signed (negative : bool) (magnitude : Z) : Z :=
  if negative then - magnitude else magnitude.

Definition heap_ok (h : Heap) : Prop := forall a, is_digit (cell h a).

Context {TOK : DigitTargetOK T}.

Lemma kBase_pow_pos n : 0 <= n -> 0 < kBase ^ n.
Proof. intros. apply Z.pow_pos_nonneg; [pose proof kBase_pos; lia|done]. Qed.

Lemma kBase_pow_mono m n : m <= n -> kBase ^ m <= kBase ^ n.
Proof. intros. apply Z.pow_le_mono_r; [pose proof kBase_pos; lia|done]. Qed.

Lemma kBase_pow_succ n : 0 <= n -> kBase ^ (n + 1) = kBase ^ n * kBase.
Proof. intros. rewrite Z.pow_add_r, Z.pow_1_r by lia. done. Qed.

Lemma sum_0 f p : sum f p 0 = 0.
Proof. done. Qed.

Lemma sum_nonpos f p n : n <= 0 -> sum f p n = 0.
Proof. intros. unfold sum. by replace (Z.to_nat n) with 0%nat by lia. Qed.

Lemma sum_succ f p n : 0 <= n -> sum f p (n + 1) = sum f p n + f (p + n) * kBase ^ n.
Proof.
  intros. unfold sum. replace (Z.to_nat (n + 1)) with (S (Z.to_nat n)) by lia.
  cbn [sum_digits]. by rewrite Z2Nat.id by done.
Qed.

Lemma sum_pred f p n : 0 < n -> sum f p n = sum f p (n - 1) + f (p + (n - 1)) * kBase ^ (n - 1).
Proof. intros. rewrite <- sum_succ by lia. f_equal. lia. Qed.

Lemma sum_ind (P : Z -> Prop) :
  P 0 -> (forall n, 0 <= n -> P n -> P (n + 1)) -> forall n, 0 <= n -> P n.
Proof.
  intros H0 HS. apply natlike_ind; [done|]. intros. rewrite <- Z.add_1_r. auto.
Qed.

Lemma sum_ext f g p q n :
  (forall i, 0 <= i < n -> f (p + i) = g (q + i)) -> sum f p n = sum g q n.
Proof.
  intros H. destruct (Z_lt_le_dec n 0); [by rewrite !sum_nonpos by lia|].
  revert n l H. refine (sum_ind _ _ _); [done|].
  intros n Hn IH H. rewrite !sum_succ by done. rewrite H, IH; [done|intros; apply H; lia|lia].
Qed.

Lemma sum_range f p n : (forall a, is_digit (f a)) -> 0 <= n -> 0 <= sum f p n < kBase ^ n.
Proof.
  intros Hf. revert n. refine (sum_ind _ _ _); [rewrite sum_0, Z.pow_0_r; lia|].
  intros n Hn IH. rewrite sum_succ, kBase_pow_succ by done.
  pose proof (Hf (p + n)) as Hd. pose proof (kBase_pow_pos n Hn). unfold is_digit in Hd. nia.
Qed.

Lemma sum_split f p m n :
  0 <= m -> 0 <= n -> sum f p (m + n) = sum f p m + kBase ^ m * sum f (p + m) n.
Proof.
  intros Hm. revert n. refine (sum_ind _ _ _); [rewrite sum_0, Z.add_0_r; lia|].
  intros n Hn IH. rewrite Z.add_assoc, !sum_succ, IH by lia.
  rewrite Z.pow_add_r, Z.add_assoc by lia. ring.
Qed.

Lemma sum_cons f p n : 0 < n -> sum f p n = f p + kBase * sum f (p + 1) (n - 1).
Proof.
  intros. replace n with (1 + (n - 1)) at 1 by lia. rewrite sum_split by lia.
  change 1 with (0 + 1) at 1. rewrite sum_succ, sum_0, Z.pow_0_r, Z.pow_1_r, Z.add_0_r by lia. lia.
Qed.

Lemma sum_zeros f p n : (forall i, 0 <= i < n -> f (p + i) = 0) -> sum f p n = 0.
Proof.
  intros H. rewrite (sum_ext f (fun _ => 0) p p n H). destruct (Z_lt_le_dec n 0); [by apply sum_nonpos; lia|].
  revert n l H. refine (sum_ind _ _ _); [done|].
  intros n Hn IH H. rewrite sum_succ, IH by (lia || (intros; apply H; lia)). lia.
Qed.

(** A vector of digits is zero only when every digit is. *)
Lemma sum_eq_0 f p n i :
  (forall a, is_digit (f a)) -> sum f p n = 0 -> 0 <= i < n -> f (p + i) = 0.
Proof.
  intros Hf H Hi. replace n with (i + 1 + (n - i - 1)) in H by lia.
  rewrite sum_split, sum_succ in H by lia.
  pose proof (sum_range f p i Hf ltac:(lia)) as H1.
  pose proof (sum_range f (p + (i + 1)) (n - i - 1) Hf ltac:(lia)) as H2.
  pose proof (kBase_pow_pos i ltac:(lia)). pose proof (kBase_pow_pos (i + 1) ltac:(lia)).
  pose proof (Hf (p + i)) as Hd. unfold is_digit in Hd. nia.
Qed.

(** Digits are determined by the number they make up. *)
Lemma sum_inj f p q n :
  (forall a, is_digit (f a)) -> sum f p n = sum f q n -> forall i, 0 <= i < n -> f (p + i) = f (q + i).
Proof.
  intros Hf. destruct (Z_lt_le_dec n 0); [lia|]. revert n l. refine (sum_ind _ _ _); [lia|].
  intros n Hn IH E i Hi. rewrite !sum_succ in E by done.
  pose proof (sum_range f p n Hf Hn). pose proof (sum_range f q n Hf Hn).
  pose proof (kBase_pow_pos n Hn). assert (f (p + n) = f (q + n)) by nia.
  destruct (Z.eq_dec i n) as [->|]; [done|]. apply IH; [nia|lia].
Qed.

(** ** Unweighted sums and products of vectors *)

Fixpoint total_nat (f : Z -> Z) (n : nat) : Z :=
  match n with
  | O => 0
  | S n => total_nat f n + f (Z.of_nat n)
  end.

Definition total (f : Z -> Z) (n : Z) : Z := total_nat f (Z.to_nat n).

Lemma total_0 f : total f 0 = 0.
Proof. done. Qed.

Lemma total_succ f n : 0 <= n -> total f (n + 1) = total f n + f n.
Proof.
  intros. unfold total. replace (Z.to_nat (n + 1)) with (S (Z.to_nat n)) by lia.
  cbn [total_nat]. by rewrite Z2Nat.id by done.
Qed.

Lemma total_ext f g n : 0 <= n -> (forall i, 0 <= i < n -> f i = g i) -> total f n = total g n.
Proof.
  revert n. refine (sum_ind _ _ _); [done|]. intros n Hn IH H.
  rewrite !total_succ by done. rewrite IH, H; [done|lia|intros; apply H; lia].
Qed.

Lemma total_zeros f m n :
  0 <= m <= n -> (forall i, m <= i < n -> f i = 0) -> total f n = total f m.
Proof.
  intros Hm. replace n with (m + (n - m)) by lia. assert (Hk : 0 <= n - m) by lia.
  revert Hk. generalize (n - m). refine (sum_ind _ _ _); [by rewrite Z.add_0_r|].
  intros k Hk IH H. rewrite Z.add_assoc, total_succ, H, IH by (lia || (intros; apply H; lia)). lia.
Qed.

Lemma total_combine f g a n : 0 <= n -> total (fun i => f i + a * g i) n = total f n + a * total g n.
Proof.
  revert n. refine (sum_ind _ _ _); [rewrite !total_0; lia|].
  intros n Hn IH. rewrite !total_succ, IH by done. lia.
Qed.

(** Digit [j] of a vector of [n] digits at [p], zero outside. *)
Definition digit_or_0 (f : Z -> Z) (p n j : Z) : Z :=
  if (0 <=? j) && (j <? n) then f (p + j) else 0.

(** Column [c] of the product of [n] digits at [p] and [m] digits at [q]. *)
Definition column (f : Z -> Z) (p n q m c : Z) : Z :=
  total (fun j => f (p + j) * digit_or_0 f q m (c - j)) n.

Definition columns (f : Z -> Z) (p n q m k : Z) : Z :=
  total (fun c => column f p n q m c * kBase ^ c) k.

Lemma shifted_digits f q m n k :
  0 <= n -> 0 <= m -> 0 <= k ->
  total (fun c => digit_or_0 f q m (c - n) * kBase ^ c) k =
    kBase ^ n * sum f q (Z.max 0 (Z.min (k - n) m)).
Proof.
  intros Hn Hm. revert k. refine (sum_ind _ _ _).
  - rewrite sum_nonpos, total_0 by lia. lia.
  - intros k Hk IH. rewrite total_succ, IH by done. unfold digit_or_0.
    destruct (Z.leb_spec 0 (k - n)), (Z.ltb_spec (k - n) m); cbn [andb].
    + replace (Z.max 0 (Z.min (k + 1 - n) m)) with (k - n + 1) by lia.
      replace (Z.max 0 (Z.min (k - n) m)) with (k - n) by lia. rewrite sum_succ by lia.
      replace (kBase ^ k) with (kBase ^ n * kBase ^ (k - n))
        by (rewrite <- Z.pow_add_r by lia; f_equal; lia). ring.
    + replace (Z.max 0 (Z.min (k + 1 - n) m)) with (Z.max 0 (Z.min (k - n) m)) by lia. lia.
    + replace (Z.max 0 (Z.min (k + 1 - n) m)) with (Z.max 0 (Z.min (k - n) m)) by lia. lia.
    + replace (Z.max 0 (Z.min (k + 1 - n) m)) with (Z.max 0 (Z.min (k - n) m)) by lia. lia.
Qed.

(** All columns together are the product. *)
Lemma columns_product f p n q m k :
  0 <= n -> 0 <= m -> n + m - 1 <= k -> 0 <= k -> columns f p n q m k = sum f p n * sum f q m.
Proof.
  intros Hn Hm Hk Hk0. revert n Hn Hk. refine (sum_ind (fun n => n + m - 1 <= k -> _) _ _).
  - intros _. rewrite sum_0. unfold columns.
    rewrite (total_zeros _ 0 k); [by rewrite total_0|lia|]. intros. unfold column. rewrite total_0. lia.
  - intros n Hn IH Hk. rewrite sum_succ, Z.mul_add_distr_r, <- IH by lia. unfold columns.
    rewrite (total_ext _ (fun c => column f p n q m c * kBase ^ c +
      f (p + n) * (digit_or_0 f q m (c - n) * kBase ^ c)) k) by
      (done || (intros c Hc; unfold column; rewrite total_succ by done; ring)).
    rewrite total_combine, shifted_digits by done.
    replace (Z.max 0 (Z.min (k - n) m)) with m by lia. ring.
Qed.

(** ** Finished parts of a result *)

(** [h'] differs from [h] only in the first [n] digits of [D]. *)
Record wrote (h h' : Heap) (D : Digits) (n : Z) : Prop := {
  wrote_ok : heap_ok h';
  wrote_free : free h' = free h;
  wrote_frame : forall a, a < digits_ D \/ digits_ D + n <= a -> cell h' a = cell h a
}.

(** The first [n] digits of [D] and the carry into the next one make up [V]. *)
Record accumulated (h h' : Heap) (D : Digits) (n V carry : Z) : Prop := {
  acc_wrote : wrote h h' D n;
  acc_value : sum (cell h') (digits_ D) n + carry * kBase ^ n = V
}.

(** A loop that writes [Z_] upwards does not reach the digits of [X] it still
    has to read. *)
Definition in_order (Z_ X : Digits) : Prop :=
  digits_ Z_ <= digits_ X \/ digits_ X + len_ X <= digits_ Z_.

(** Views that share no digit. *)
Definition disjoint (X Y : Digits) : Prop :=
  digits_ X + len_ X <= digits_ Y \/ digits_ Y + len_ Y <= digits_ X.

Lemma wrote_refl h D : heap_ok h -> wrote h h D 0.
Proof. by constructor. Qed.

Lemma wrote_mono h h' D m n : m <= n -> wrote h h' D m -> wrote h h' D n.
Proof. intros Hmn []. constructor; [done|done|]. intros a Ha. apply wrote_frame0. lia. Qed.

Lemma wrote_trans h h1 h2 D n : wrote h h1 D n -> wrote h1 h2 D n -> wrote h h2 D n.
Proof.
  intros [] []. constructor; [done|congruence|].
  intros a Ha. rewrite wrote_frame1, wrote_frame0; done.
Qed.

Lemma wrote_read h h' D n X i :
  wrote h h' D n -> in_order D X -> n <= i < len_ X ->
  cell h' (digits_ X + i) = cell h (digits_ X + i).
Proof. intros [] [H|H] Hi; apply wrote_frame0; lia. Qed.

Lemma wrote_store h h' D n v :
  wrote h h' D n -> 0 <= n -> is_digit v -> wrote h (store h' (digits_ D + n) v) D (n + 1).
Proof.
  intros [Hok Hf Hr] Hn Hv. constructor; [|done|].
  - intros a. cbn. destruct (a =? digits_ D + n); [done|apply Hok].
  - intros a Ha. cbn. destruct (Z.eqb_spec a (digits_ D + n)); [lia|]. apply Hr. lia.
Qed.

Lemma value_wrote h h' D n X :
  wrote h h' D n -> digits_ D + n <= digits_ X \/ digits_ X + len_ X <= digits_ D ->
  value h' X = value h X.
Proof. intros [] H. apply sum_ext. intros i Hi. apply wrote_frame0. lia. Qed.

Lemma sum_store_high f p n a v : p + n <= a -> sum (fun x => if x =? a then v else f x) p n = sum f p n.
Proof.
  intros H. apply sum_ext. intros i Hi. destruct (Z.eqb_spec (p + i) a); [lia|done].
Qed.

Lemma accumulated_start h D : heap_ok h -> accumulated h h D 0 0 0.
Proof. intros. split; [by apply wrote_refl|]. rewrite sum_0. lia. Qed.

Lemma accumulated_eq h h' D n V V' c : accumulated h h' D n V c -> V = V' -> accumulated h h' D n V' c.
Proof. by intros ? <-. Qed.

Lemma accumulated_step h h' D n V V' c t r c' :
  accumulated h h' D n V c -> 0 <= n -> is_digit r ->
  t + c = c' * kBase + r -> V' = V + t * kBase ^ n ->
  accumulated h (store h' (digits_ D + n) r) D (n + 1) V' c'.
Proof.
  intros [Hw Hv] Hn Hr E ->. split; [by apply wrote_store|].
  rewrite sum_succ by done. cbn [cell store]. rewrite sum_store_high by lia.
  rewrite Z.eqb_refl, kBase_pow_succ by done. nia.
Qed.

(** Heaps with the same digits. *)
Definition same_cells (h h' : Heap) : Prop := cell h' = cell h /\ free h' = free h.

Lemma accumulated_same h h1 h2 D n V c :
  accumulated h h1 D n V c -> same_cells h1 h2 -> accumulated h h2 D n V c.
Proof.
  intros [[Hok Hf Hr] Hv] [Ec Ef]. split; [|by rewrite Ec].
  constructor; [intros a; rewrite Ec; apply Hok|congruence|intros; rewrite Ec; auto].
Qed.

(** ** Results written downwards *)

(** Digits [i] to [n] of [D] are written and denote [V]. *)
Record written_down (h h' : Heap) (D : Digits) (i n V : Z) : Prop := {
  down_ok : heap_ok h';
  down_free : free h' = free h;
  down_frame : forall a, a < digits_ D + i \/ digits_ D + n <= a -> cell h' a = cell h a;
  down_value : sum (cell h') (digits_ D + i) (n - i) = V
}.

(** A loop that writes [Q] downwards does not reach the digits of [A] it still
    has to read. *)
Definition down_order (Q A : Digits) : Prop :=
  digits_ A <= digits_ Q \/ digits_ Q + len_ Q <= digits_ A.

Lemma written_down_start h D n : heap_ok h -> written_down h h D n n 0.
Proof. intros. constructor; [done|done|done|]. by rewrite Z.sub_diag. Qed.

Lemma written_down_step h h' D i n V q :
  written_down h h' D i n V -> 0 < i <= n -> is_digit q ->
  written_down h (store h' (digits_ D + (i - 1)) q) D (i - 1) n (q + kBase * V).
Proof.
  intros [Hok Hf Hr Hv] Hi Hq. constructor; [|done| |].
  - intros a. cbn. destruct (a =? _); [done|apply Hok].
  - intros a Ha. cbn. destruct (Z.eqb_spec a (digits_ D + (i - 1))); [lia|]. apply Hr. lia.
  - rewrite sum_cons by lia. cbn [cell store]. rewrite Z.eqb_refl, <- Hv. do 2 f_equal.
    replace (n - (i - 1) - 1) with (n - i) by lia. apply sum_ext. intros j Hj.
    destruct (Z.eqb_spec (digits_ D + (i - 1) + 1 + j) (digits_ D + (i - 1))); [lia|]. f_equal. lia.
Qed.

Lemma written_down_read h h' D i n V X j :
  written_down h h' D i n V -> down_order D X -> n <= len_ D -> j < i -> 0 <= j ->
  cell h' (digits_ X + j) = cell h (digits_ X + j).
Proof. intros [] [H|H] Hn Hj Hj0; apply down_frame0; lia. Qed.

Lemma written_down_accumulated h h' D n V : written_down h h' D 0 n V -> accumulated h h' D n V 0.
Proof.
  intros [Hok Hf Hr Hv]. rewrite Z.sub_0_r, Z.add_0_r in *. split; [|lia].
  constructor; [done|done|]. intros a Ha. apply Hr. lia.
Qed.

(** ** Accesses *)

Lemma wp_get D i Q h :
  0 <= i < len_ D -> Q (cell h (digits_ D + i)) h -> wp (get D i) Q h.
Proof.
  intros H HQ. unfold get. destruct (Z.leb_spec 0 i), (Z.ltb_spec i (len_ D)); [|lia..].
  by apply wp_gets.
Qed.

Lemma wp_set D i v (Q : unit -> Heap -> Prop) h :
  0 <= i < len_ D -> Q tt (store h (digits_ D + i) v) -> wp (set D i v) Q h.
Proof.
  intros H HQ. unfold set. destruct (Z.leb_spec 0 i), (Z.ltb_spec i (len_ D)); [|lia..].
  by apply wp_modify.
Qed.

Lemma wp_DCHECK b (Q : unit -> Heap -> Prop) h : b = true -> Q tt h -> wp (DCHECK b) Q h.
Proof. by intros ->. Qed.

Lemma wp_msd D Q h :
  0 < len_ D -> Q (cell h (digits_ D + (len_ D - 1))) h -> wp (msd D) Q h.
Proof.
  intros H HQ. apply wp_bind, wp_DCHECK; [by apply Z.ltb_lt|]. apply wp_get; [lia|done].
Qed.

Lemma wp_plus D i (Q : Digits -> Heap -> Prop) h :
  0 <= i <= len_ D -> Q (mkDigits (digits_ D + i) (len_ D - i)) h -> wp (plus D i) Q h.
Proof.
  intros H HQ. apply wp_bind, wp_DCHECK; [|done]. rewrite andb_true_iff, !Z.leb_le. lia.
Qed.

(** A view without leading zero digits that denotes the same number. *)
Record normalized (h : Heap) (D D' : Digits) : Prop := {
  norm_digits : digits_ D' = digits_ D;
  norm_len : 0 <= len_ D' <= len_ D;
  norm_value : value h D' = value h D;
  norm_msd : 0 < len_ D' -> 0 < cell h (digits_ D' + (len_ D' - 1))
}.

Lemma Normalize_spec D h :
  heap_ok h -> 0 <= len_ D -> wp (Normalize D) (fun D' h' => h' = h /\ normalized h D D') h.
Proof.
  intros Hok Hl. unfold Normalize.
  eapply (wp_loop
    (fun len h' => h' = h /\ 0 <= len <= len_ D /\ value h (mkDigits (digits_ D) len) = value h D)
    (fun len _ => Z.to_nat len)); [|by destruct D|lia].
  intros len h' (-> & Hlen & Hv).
  destruct (Z.ltb_spec 0 len) as [H|H].
  - apply wp_bind, wp_msd; [done|]. apply wp_ret. cbn [digits_ len_].
    pose proof (Hok (digits_ D + (len - 1))) as Hd. unfold is_digit in Hd.
    destruct (Z.eqb_spec (cell h (digits_ D + (len - 1))) 0) as [E|E].
    + split; [|lia]. split; [done|]. split; [lia|]. rewrite <- Hv. unfold value. cbn.
      rewrite (sum_pred _ _ len), E by lia. lia.
    + split; [done|]. constructor; cbn; [done|lia|done|lia].
  - apply wp_ret. split; [done|]. constructor; cbn; [done|lia|done|lia].
Qed.

Lemma value_range h D : heap_ok h -> 0 <= len_ D -> 0 <= value h D < kBase ^ len_ D.
Proof. intros. by apply sum_range. Qed.

Lemma value_empty h D : len_ D <= 0 -> value h D = 0.
Proof. apply sum_nonpos. Qed.

(** The leading digit bounds a normalised number from below. *)
Lemma normalized_lower h D D' :
  heap_ok h -> normalized h D D' -> 0 < len_ D' -> kBase ^ (len_ D' - 1) <= value h D.
Proof.
  intros Hok [Hd Hl Hv Hm] H. rewrite <- Hv. unfold value. rewrite sum_pred by done.
  pose proof (sum_range (cell h) (digits_ D') (len_ D' - 1) Hok ltac:(lia)).
  pose proof (kBase_pow_pos (len_ D' - 1) ltac:(lia)). specialize (Hm H). nia.
Qed.

Lemma normalized_upper h D D' :
  heap_ok h -> normalized h D D' -> 0 <= value h D < kBase ^ len_ D'.
Proof. intros Hok [Hd Hl Hv Hm]. rewrite <- Hv. apply value_range; [done|lia]. Qed.

Lemma in_order_normalized h Z_ D D' : normalized h D D' -> in_order Z_ D -> in_order Z_ D'.
Proof. intros [] [H|H]; unfold in_order; lia. Qed.

Lemma in_order_self D : in_order D D.
Proof. by left. Qed.

Lemma disjoint_in_order X Y : disjoint X Y -> 0 <= len_ X -> in_order X Y.
Proof. unfold disjoint, in_order. lia. Qed.

Lemma disjoint_sym X Y : disjoint X Y -> disjoint Y X.
Proof. unfold disjoint. tauto. Qed.

End Memory.

(** Runs one access or assignment of a vector operation. *)
Ltac digit_step :=
  lazymatch goal with
  | |- wp (bind _ _) _ _ => apply wp_bind
  | |- wp (get _ _) _ _ => apply wp_get; [cbn [digits_ len_] in *; lia|]
  | |- wp (set _ _ _) _ _ => apply wp_set; [cbn [digits_ len_] in *; lia|]
  | |- wp (plus _ _) _ _ => apply wp_plus; [cbn [digits_ len_] in *; lia|]
  | |- wp (msd _) _ _ => apply wp_msd; [cbn [digits_ len_] in *; lia|]
  | |- wp (ret _) _ _ => apply wp_ret
  | |- wp (DCHECK _) _ _ =>
      apply wp_DCHECK; [rewrite ?andb_true_iff, ?Z.leb_le, ?Z.ltb_lt, ?Z.eqb_eq; lia|]
  end.
