(* ===== verification/BigIntArithmetic.v ===== *)
(** * Specifications of the vector operations

    Each operation of [BigIntVectors] computes the sum, the difference or the
    comparison of the numbers its operands denote, when the result vector is
    long enough and the operands overlap it only where the loops allow it. *)

From stdpp Require Import base list numbers.
From Stdlib Require Import ZArith Lia Bool.
From S2P Require Import Prelude.
From S2P Require Import BigIntDigits.
From S2P Require Import BigIntVectors.
From S2P Require Import BigIntMemory.

Local Open Scope Z_scope.
Local Open Scope prog_scope.

Section Arithmetic.
Context {T : DigitTarget} {TOK : DigitTargetOK T}.

Lemma bit_is_digit c : 0 <= c <= 1 -> is_digit c.
Proof. unfold is_digit. pose proof kBase_pos. lia. Qed.

Lemma zero_is_digit : is_digit 0.
Proof. apply bit_is_digit. lia. Qed.

(** ** One round of a loop *)

Section Round.
Variables (h h' : Heap) (Z_ X Y : Digits) (i V : Z).
Hypothesis Hok : heap_ok h.
Hypothesis HX : in_order Z_ X.
Hypothesis HY : in_order Z_ Y.
Hypothesis Hi : 0 <= i < len_ Z_.
Hypothesis HiX : i < len_ X.

Local Abbreviation x := (cell h (digits_ X + i)).
Local Abbreviation y := (cell h (digits_ Y + i)).

Lemma add3_at_spec c :
  accumulated h h' Z_ i V c -> i < len_ Y -> 0 <= c <= 1 ->
  wp (add3_at Z_ X Y i c)
    (fun c' h'' => 0 <= c' <= 1 /\ accumulated h h'' Z_ (i + 1) (V + (x + y) * kBase ^ i) c') h'.
Proof.
  intros Ha HiY Hc. pose proof (acc_wrote _ _ _ _ _ _ Ha) as Hw. unfold add3_at.
  do 2 (digit_step; digit_step). rewrite !(wrote_read h h' Z_ i) by (done || lia).
  destruct (digit_add3_spec x y c) as (r & k & -> & E & Hr & Hk); [apply Hok..|by apply bit_is_digit|].
  do 2 digit_step. digit_step. split; [|eapply accumulated_step; [done|lia|done| |reflexivity]; lia].
  pose proof (Hok (digits_ X + i)). pose proof (Hok (digits_ Y + i)). unfold is_digit in *. nia.
Qed.

Lemma add2_at_spec c :
  accumulated h h' Z_ i V c -> is_digit c ->
  wp (add2_at Z_ X i c)
    (fun c' h'' => 0 <= c' <= 1 /\ accumulated h h'' Z_ (i + 1) (V + x * kBase ^ i) c') h'.
Proof.
  intros Ha Hc. pose proof (acc_wrote _ _ _ _ _ _ Ha) as Hw. unfold add2_at.
  do 2 digit_step. rewrite (wrote_read h h' Z_ i) by (done || lia).
  destruct (digit_add2_spec x c) as (r & k & -> & E & Hr & Hk); [apply Hok|done|].
  do 2 digit_step. digit_step. split; [done|]. eapply accumulated_step; [done|lia|done| |reflexivity]; lia.
Qed.

Lemma sub2_at_spec c :
  accumulated h h' Z_ i V (- c) -> i < len_ Y -> 0 <= c <= 1 ->
  wp (sub2_at Z_ X Y i c)
    (fun c' h'' => 0 <= c' <= 1 /\ accumulated h h'' Z_ (i + 1) (V + (x - y) * kBase ^ i) (- c')) h'.
Proof.
  intros Ha HiY Hc. pose proof (acc_wrote _ _ _ _ _ _ Ha) as Hw. unfold sub2_at.
  do 2 (digit_step; digit_step). rewrite !(wrote_read h h' Z_ i) by (done || lia).
  destruct (digit_sub2_spec x y c) as (r & k & -> & E & Hr & Hk); [apply Hok..|done|].
  do 2 digit_step. digit_step. split; [done|]. eapply accumulated_step; [done|lia|done| |reflexivity]; lia.
Qed.

Lemma sub_at_spec c :
  accumulated h h' Z_ i V (- c) -> is_digit c ->
  wp (sub_at Z_ X i c)
    (fun c' h'' => 0 <= c' <= 1 /\ accumulated h h'' Z_ (i + 1) (V + x * kBase ^ i) (- c')) h'.
Proof.
  intros Ha Hc. pose proof (acc_wrote _ _ _ _ _ _ Ha) as Hw. unfold sub_at.
  do 2 digit_step. rewrite (wrote_read h h' Z_ i) by (done || lia).
  destruct (digit_sub_spec x c) as (r & k & -> & E & Hr & Hk); [apply Hok|done|].
  do 2 digit_step. digit_step. split; [done|]. eapply accumulated_step; [done|lia|done| |reflexivity]; lia.
Qed.

Lemma copy_at_spec u :
  accumulated h h' Z_ i V 0 ->
  wp (copy_at Z_ X i u) (fun _ h'' => accumulated h h'' Z_ (i + 1) (V + x * kBase ^ i) 0) h'.
Proof.
  intros Ha. pose proof (acc_wrote _ _ _ _ _ _ Ha) as Hw. unfold copy_at.
  do 2 digit_step. rewrite (wrote_read h h' Z_ i) by (done || lia).
  digit_step. eapply accumulated_step; [done|lia|apply Hok| |reflexivity]; lia.
Qed.
End Round.

Lemma set_carry_spec h h' Z_ i V c :
  accumulated h h' Z_ i V c -> 0 <= i < len_ Z_ -> is_digit c ->
  wp (set Z_ i c) (fun _ h'' => accumulated h h'' Z_ (i + 1) V 0) h'.
Proof.
  intros Ha Hi Hc. digit_step. eapply (accumulated_step _ _ _ _ _ _ _ 0); [done|lia|done|lia|lia].
Qed.

(** ** The tails of the operations *)

Lemma copy_tail_spec h h' Z_ X lo hi V :
  heap_ok h -> in_order Z_ X -> 0 <= lo <= hi -> hi <= len_ X -> hi <= len_ Z_ ->
  accumulated h h' Z_ lo (V + sum (cell h) (digits_ X) lo) 0 ->
  wp (for_up lo hi (copy_at Z_ X) tt)
    (fun _ h'' => accumulated h h'' Z_ hi (V + sum (cell h) (digits_ X) hi) 0) h'.
Proof.
  intros Hok HX Hlo H1 H2 Ha.
  apply (wp_for_up (fun i _ h'' => accumulated h h'' Z_ i (V + sum (cell h) (digits_ X) i) 0));
    [lia|done| |done].
  intros i u h1 Hi Ha1. eapply wp_mono; [eapply copy_at_spec; [done|done|lia|lia|done]|].
  intros [] h2 Ha2. apply (accumulated_eq _ _ _ _ _ _ _ Ha2). rewrite sum_succ by lia. lia.
Qed.

Lemma zero_range_spec h h' Z_ lo hi V :
  0 <= lo <= hi -> hi <= len_ Z_ -> accumulated h h' Z_ lo V 0 ->
  wp (for_up lo hi (zero_at Z_) tt) (fun _ h'' => accumulated h h'' Z_ hi V 0) h'.
Proof.
  intros Hlo Hhi Ha.
  apply (wp_for_up (fun i _ h'' => accumulated h h'' Z_ i V 0)); [lia|done| |done].
  intros i u h1 Hi Ha1. apply (set_carry_spec h h1); [done|lia|apply zero_is_digit].
Qed.

Lemma zero_tail_spec h h' Z_ lo V :
  0 <= lo <= len_ Z_ -> accumulated h h' Z_ lo V 0 ->
  wp (for_up lo (len_ Z_) (zero_at Z_) tt) (fun _ h'' => accumulated h h'' Z_ (len_ Z_) V 0) h'.
Proof. intros Hlo. by apply zero_range_spec. Qed.

Lemma accumulated_done h h' Z_ V :
  accumulated h h' Z_ (len_ Z_) V 0 -> wrote h h' Z_ (len_ Z_) /\ value h' Z_ = V.
Proof. intros [Hw Hv]. split; [done|]. unfold value. lia. Qed.

Lemma Clear_spec h Z_ :
  heap_ok h -> 0 <= len_ Z_ ->
  wp (Clear Z_) (fun _ h' => wrote h h' Z_ (len_ Z_) /\ value h' Z_ = 0) h.
Proof.
  intros Hok Hl. eapply wp_mono; [apply (zero_tail_spec h h Z_ 0 0)|].
  - lia.
  - by apply accumulated_start.
  - intros [] h'. apply accumulated_done.
Qed.

(** ** Sums *)

Lemma AddAndReturnCarry_spec h Z_ X Y :
  heap_ok h -> in_order Z_ X -> in_order Z_ Y -> 0 <= len_ Y -> len_ Y <= len_ Z_ -> len_ Y <= len_ X ->
  wp (AddAndReturnCarry Z_ X Y)
    (fun c h' => 0 <= c <= 1 /\
       accumulated h h' Z_ (len_ Y) (sum (cell h) (digits_ X) (len_ Y) + value h Y) c) h.
Proof.
  intros Hok HX HY H0 H1 H2. unfold AddAndReturnCarry. do 2 digit_step.
  apply (wp_for_up (fun i c h' => 0 <= c <= 1 /\
    accumulated h h' Z_ i (sum (cell h) (digits_ X) i + sum (cell h) (digits_ Y) i) c)).
  - lia.
  - split; [lia|]. rewrite !sum_0. by apply accumulated_start.
  - intros i c h1 Hi [Hc Ha].
    eapply wp_mono; [eapply add3_at_spec; [done|done|done|lia|lia|done|lia|done]|].
    intros c' h2 [Hc' Ha']. split; [done|]. apply (accumulated_eq _ _ _ _ _ _ _ Ha').
    rewrite !(sum_succ (cell h)) by lia. lia.
  - done.
Qed.

Lemma SubtractAndReturnBorrow_spec h Z_ X Y :
  heap_ok h -> in_order Z_ X -> in_order Z_ Y -> 0 <= len_ Y -> len_ Y <= len_ Z_ -> len_ Y <= len_ X ->
  wp (SubtractAndReturnBorrow Z_ X Y)
    (fun c h' => 0 <= c <= 1 /\
       accumulated h h' Z_ (len_ Y) (sum (cell h) (digits_ X) (len_ Y) - value h Y) (- c)) h.
Proof.
  intros Hok HX HY H0 H1 H2. unfold SubtractAndReturnBorrow. do 2 digit_step.
  apply (wp_for_up (fun i c h' => 0 <= c <= 1 /\
    accumulated h h' Z_ i (sum (cell h) (digits_ X) i - sum (cell h) (digits_ Y) i) (- c))).
  - lia.
  - split; [lia|]. rewrite !sum_0. by apply accumulated_start.
  - intros i c h1 Hi [Hc Ha].
    eapply wp_mono; [eapply sub2_at_spec; [done|done|done|lia|lia|done|lia|done]|].
    intros c' h2 [Hc' Ha']. split; [done|]. apply (accumulated_eq _ _ _ _ _ _ _ Ha').
    rewrite !(sum_succ (cell h)) by lia. lia.
  - done.
Qed.

(** The digits a finished carry has not reached keep their values. *)
Lemma accumulated_rest h h' Z_ i V :
  accumulated h h' Z_ i (sum (cell h) (digits_ Z_) i + V) 0 -> 0 <= i <= len_ Z_ ->
  wrote h h' Z_ (len_ Z_) /\ value h' Z_ = value h Z_ + V.
Proof.
  intros [Hw Hv] Hi. split; [apply (wrote_mono _ _ _ i); [lia|done]|].
  unfold value. replace (len_ Z_) with (i + (len_ Z_ - i)) by lia.
  rewrite !sum_split by lia.
  rewrite (sum_ext (cell h') (cell h) (digits_ Z_ + i) (digits_ Z_ + i)); [lia|].
  intros j Hj. apply (wrote_frame _ _ _ _ Hw). lia.
Qed.

Lemma wp_while_carry (I : Z -> Z -> Heap -> Prop) n body i c (Q : Z * Z -> Heap -> Prop) h :
  i <= n -> I i c h ->
  (forall i c h, i < n -> c <> 0 -> I i c h -> wp (body i c) (I (i + 1)) h) ->
  (forall i c h, i <= n -> I i c h -> i = n \/ c = 0 -> Q (i, c) h) ->
  wp (while_carry n body i c) Q h.
Proof.
  intros Hi HI Hb HQ. unfold while_carry.
  apply (wp_loop (fun '(i, c) h => i <= n /\ I i c h) (fun '(i, c) _ => Z.to_nat (n - i)));
    [|done|lia].
  clear i c h Hi HI. intros [i c] h [Hi HI].
  destruct (Z.ltb_spec i n), (Z.eqb_spec c 0); cbn [andb negb];
    try (apply wp_ret, HQ; [done|done|lia]).
  digit_step. eapply wp_mono; [by apply Hb|]. intros c' h' HI'. digit_step.
  split; [|lia]. split; [lia|done].
Qed.

(** The length of a normalised number is the least one it fits. *)
Lemma normalized_len_le h X X' n :
  heap_ok h -> normalized h X X' -> 0 <= n -> value h X < kBase ^ n -> len_ X' <= n.
Proof.
  intros Hok HN Hn Hv. destruct (Z_lt_le_dec n (len_ X')); [|done]. exfalso.
  pose proof (normalized_lower _ _ _ Hok HN ltac:(lia)).
  pose proof (kBase_pow_mono n (len_ X' - 1) ltac:(lia)). lia.
Qed.

Lemma AddAndReturnOverflow_spec h Z_ X :
  heap_ok h -> in_order Z_ X -> 0 <= len_ X -> 0 <= len_ Z_ -> value h X < kBase ^ len_ Z_ ->
  wp (AddAndReturnOverflow Z_ X)
    (fun c h' => 0 <= c <= 1 /\ wrote h h' Z_ (len_ Z_) /\
       value h' Z_ + c * kBase ^ len_ Z_ = value h Z_ + value h X) h.
Proof.
  intros Hok HX HlX HlZ Hfit. unfold AddAndReturnOverflow. digit_step.
  eapply wp_mono; [apply Normalize_spec; [done|lia]|]. intros X' h0 [-> HN].
  pose proof (normalized_len_le _ _ _ _ Hok HN HlZ Hfit) as Hl.
  pose proof (in_order_normalized _ _ _ _ HN HX) as HX'. destruct HN as [_ Hl' Hv _].
  rewrite <- Hv. destruct (Z.eqb_spec (len_ X') 0) as [E|E].
  { digit_step. split; [lia|]. split; [apply (wrote_mono _ _ _ 0); [lia|by apply wrote_refl]|].
    rewrite (value_empty h X') by lia. lia. }
  digit_step.
  apply (wp_for_up (fun i c h' => 0 <= c <= 1 /\
    accumulated h h' Z_ i (sum (cell h) (digits_ Z_) i + sum (cell h) (digits_ X') i) c)).
  - lia.
  - split; [lia|]. rewrite !sum_0. by apply accumulated_start.
  - intros i c h1 Hi [Hc Ha].
    eapply wp_mono; [eapply add3_at_spec; [done|apply in_order_self|done|lia|lia|done|lia|done]|].
    intros c' h2 [Hc' Ha']. split; [done|]. apply (accumulated_eq _ _ _ _ _ _ _ Ha').
    rewrite !(sum_succ (cell h)) by lia. lia.
  - intros c h1 [Hc Ha]. fold (value h X') in Ha. digit_step.
    apply (wp_while_carry (fun i c h' => len_ X' <= i /\ 0 <= c <= 1 /\
      accumulated h h' Z_ i (sum (cell h) (digits_ Z_) i + value h X') c)); [lia|done| |].
    + intros i c1 h2 Hi Hc1 (Hxi & Hc2 & Ha2).
      eapply wp_mono; [eapply add2_at_spec; [done|apply in_order_self|lia|lia|done|by apply bit_is_digit]|].
      intros c' h3 [Hc' Ha']. split; [lia|]. split; [done|].
      apply (accumulated_eq _ _ _ _ _ _ _ Ha'). rewrite (sum_succ (cell h)) by lia. lia.
    + intros i c1 h2 Hi (Hxi & Hc1 & Ha2) Hend. digit_step. split; [done|].
      destruct Hend as [-> | ->].
      * destruct Ha2 as [Hw Hv2]. split; [done|]. unfold value in *. lia.
      * destruct (accumulated_rest _ _ _ _ _ Ha2) as [Hw Hv2]; [lia|]. split; [done|lia].
Qed.

Lemma SubAndReturnBorrow_spec h Z_ X :
  heap_ok h -> in_order Z_ X -> 0 <= len_ X -> 0 <= len_ Z_ -> value h X < kBase ^ len_ Z_ ->
  wp (SubAndReturnBorrow Z_ X)
    (fun c h' => 0 <= c <= 1 /\ wrote h h' Z_ (len_ Z_) /\
       value h' Z_ - c * kBase ^ len_ Z_ = value h Z_ - value h X) h.
Proof.
  intros Hok HX HlX HlZ Hfit. unfold SubAndReturnBorrow. digit_step.
  eapply wp_mono; [apply Normalize_spec; [done|lia]|]. intros X' h0 [-> HN].
  pose proof (normalized_len_le _ _ _ _ Hok HN HlZ Hfit) as Hl.
  pose proof (in_order_normalized _ _ _ _ HN HX) as HX'. destruct HN as [_ Hl' Hv _].
  rewrite <- Hv. destruct (Z.eqb_spec (len_ X') 0) as [E|E].
  { digit_step. split; [lia|]. split; [apply (wrote_mono _ _ _ 0); [lia|by apply wrote_refl]|].
    rewrite (value_empty h X') by lia. lia. }
  digit_step.
  apply (wp_for_up (fun i c h' => 0 <= c <= 1 /\
    accumulated h h' Z_ i (sum (cell h) (digits_ Z_) i - sum (cell h) (digits_ X') i) (- c))).
  - lia.
  - split; [lia|]. rewrite !sum_0. by apply accumulated_start.
  - intros i c h1 Hi [Hc Ha].
    eapply wp_mono; [eapply sub2_at_spec; [done|apply in_order_self|done|lia|lia|done|lia|done]|].
    intros c' h2 [Hc' Ha']. split; [done|]. apply (accumulated_eq _ _ _ _ _ _ _ Ha').
    rewrite !(sum_succ (cell h)) by lia. lia.
  - intros c h1 [Hc Ha]. fold (value h X') in Ha. digit_step.
    apply (wp_while_carry (fun i c h' => len_ X' <= i /\ 0 <= c <= 1 /\
      accumulated h h' Z_ i (sum (cell h) (digits_ Z_) i + - value h X') (- c))); [lia|done| |].
    + intros i c1 h2 Hi Hc1 (Hxi & Hc2 & Ha2).
      eapply wp_mono; [eapply sub_at_spec; [done|apply in_order_self|lia|lia|done|by apply bit_is_digit]|].
      intros c' h3 [Hc' Ha']. split; [lia|]. split; [done|].
      apply (accumulated_eq _ _ _ _ _ _ _ Ha'). rewrite (sum_succ (cell h)) by lia. lia.
    + intros i c1 h2 Hi (Hxi & Hc1 & Ha2) Hend. digit_step. split; [done|].
      destruct Hend as [-> | ->].
      * destruct Ha2 as [Hw Hv2]. split; [done|]. unfold value in *. lia.
      * destruct (accumulated_rest _ _ _ _ _ Ha2) as [Hw Hv2]; [lia|]. split; [done|lia].
Qed.

Lemma Add_ordered_spec h Z_ X Y :
  heap_ok h -> in_order Z_ X -> in_order Z_ Y -> 0 <= len_ Y <= len_ X -> len_ X <= len_ Z_ ->
  wp (Add_ordered Z_ X Y)
    (fun _ h' => wrote h h' Z_ (len_ Z_) /\
       value h' Z_ = (value h X + value h Y) mod kBase ^ len_ Z_) h.
Proof.
  intros Hok HX HY H0 H1. unfold Add_ordered. digit_step.
  apply (wp_for_up (fun i c h' => 0 <= c <= 1 /\
    accumulated h h' Z_ i (sum (cell h) (digits_ X) i + sum (cell h) (digits_ Y) i) c)); [lia| | |].
  { split; [lia|]. rewrite !sum_0. by apply accumulated_start. }
  { intros i c h1 Hi [Hc Ha].
    eapply wp_mono; [eapply add3_at_spec; [done|done|done|lia|lia|done|lia|done]|].
    intros c' h2 [Hc' Ha']. split; [done|]. apply (accumulated_eq _ _ _ _ _ _ _ Ha').
    rewrite !(sum_succ (cell h)) by lia. lia. }
  intros c h1 [Hc Ha]. fold (value h Y) in Ha. digit_step.
  apply (wp_for_up (fun i c h' => 0 <= c <= 1 /\
    accumulated h h' Z_ i (sum (cell h) (digits_ X) i + value h Y) c)); [lia|done| |].
  { intros i c1 h2 Hi [Hc1 Ha1].
    eapply wp_mono; [eapply add2_at_spec; [done|done|lia|lia|done|by apply bit_is_digit]|].
    intros c' h3 [Hc' Ha']. split; [done|]. apply (accumulated_eq _ _ _ _ _ _ _ Ha').
    rewrite !(sum_succ (cell h)) by lia. lia. }
  intros c1 h2 [Hc1 Ha1]. fold (value h X) in Ha1. digit_step.
  apply (wp_for_up (fun i c h' => 0 <= c <= 1 /\
    accumulated h h' Z_ i (value h X + value h Y) c)); [lia|done| |].
  { intros i c2 h3 Hi [Hc2 Ha2]. digit_step.
    eapply wp_mono; [apply (set_carry_spec _ _ _ _ _ _ Ha2); [lia|by apply bit_is_digit]|].
    intros [] h4 Ha4. digit_step. split; [lia|done]. }
  intros c2 h3 [Hc2 [Hw Hv]]. digit_step. split; [done|].
  apply (Z.mod_unique _ _ c2); [left; apply value_range; [apply Hw|lia]|].
  unfold value at 3. lia.
Qed.

Lemma Add_spec h Z_ X Y :
  heap_ok h -> in_order Z_ X -> in_order Z_ Y -> 0 <= len_ X <= len_ Z_ -> 0 <= len_ Y <= len_ Z_ ->
  wp (Add Z_ X Y)
    (fun _ h' => wrote h h' Z_ (len_ Z_) /\
       value h' Z_ = (value h X + value h Y) mod kBase ^ len_ Z_) h.
Proof.
  intros Hok HX HY H0 H1. unfold Add. destruct (Z.ltb_spec (len_ X) (len_ Y)).
  - rewrite Z.add_comm. apply Add_ordered_spec; done || lia.
  - apply Add_ordered_spec; done || lia.
Qed.

Lemma AddDigit_spec h X y :
  heap_ok h -> 0 <= len_ X -> is_digit y -> 0 < len_ X -> value h X + y < kBase ^ len_ X ->
  wp (AddDigit X y) (fun _ h' => wrote h h' X (len_ X) /\ value h' X = value h X + y) h.
Proof.
  intros Hok Hl Hy H0 Hb. unfold AddDigit.
  apply (wp_loop
    (fun '(i, c) h' => 0 <= i < len_ X /\ is_digit c /\
       accumulated h h' X i (sum (cell h) (digits_ X) i + y) c)
    (fun '(i, c) _ => Z.to_nat (len_ X - i))); [| |lia].
  2: { split; [lia|]. split; [done|]. rewrite sum_0. split; [by apply wrote_refl|].
       rewrite sum_0, Z.pow_0_r. lia. }
  intros [i c] h1 (Hi & Hc & Ha). digit_step.
  eapply wp_mono; [eapply add2_at_spec; [done|apply in_order_self|lia|lia|done|done]|].
  intros c' h2 [Hc' Ha']. digit_step.
  apply (accumulated_eq _ _ _ _ _ (sum (cell h) (digits_ X) (i + 1) + y)) in Ha';
    [|rewrite (sum_succ (cell h)) by lia; lia].
  destruct (Z.eqb_spec c' 0) as [-> |]; cbn [negb].
  - apply (accumulated_rest _ _ _ _ _ Ha'). lia.
  - split; [|lia]. split; [|by split; [apply bit_is_digit|]].
    split; [lia|]. destruct (Z.eq_dec (i + 1) (len_ X)) as [E|]; [exfalso|lia].
    destruct Ha' as [Hw Hv]. rewrite E in Hv. fold (value h2 X) (value h X) in Hv.
    pose proof (value_range h2 X (wrote_ok _ _ _ _ Hw) Hl). nia.
Qed.

(** ** Differences *)

Lemma SubtractDigit_spec h X y :
  heap_ok h -> 0 <= len_ X -> is_digit y -> 0 < len_ X -> y <= value h X ->
  wp (SubtractDigit X y) (fun _ h' => wrote h h' X (len_ X) /\ value h' X = value h X - y) h.
Proof.
  intros Hok Hl Hy H0 Hb. unfold SubtractDigit.
  apply (wp_loop
    (fun '(i, c) h' => 0 <= i < len_ X /\ is_digit c /\
       accumulated h h' X i (sum (cell h) (digits_ X) i + - y) (- c))
    (fun '(i, c) _ => Z.to_nat (len_ X - i))); [| |lia].
  2: { split; [lia|]. split; [done|]. rewrite sum_0. split; [by apply wrote_refl|].
       rewrite sum_0, Z.pow_0_r. lia. }
  intros [i c] h1 (Hi & Hc & Ha). digit_step.
  eapply wp_mono; [eapply sub_at_spec; [done|apply in_order_self|lia|lia|done|done]|].
  intros c' h2 [Hc' Ha']. digit_step.
  apply (accumulated_eq _ _ _ _ _ (sum (cell h) (digits_ X) (i + 1) + - y)) in Ha';
    [|rewrite (sum_succ (cell h)) by lia; lia].
  destruct (Z.eqb_spec c' 0) as [-> |]; cbn [negb].
  - apply (accumulated_rest _ _ _ _ _ Ha'). lia.
  - split; [|lia]. split; [|by split; [apply bit_is_digit|]].
    split; [lia|]. destruct (Z.eq_dec (i + 1) (len_ X)) as [E|]; [exfalso|lia].
    destruct Ha' as [Hw Hv]. rewrite E in Hv. fold (value h2 X) (value h X) in Hv.
    pose proof (value_range h2 X (wrote_ok _ _ _ _ Hw) Hl). nia.
Qed.

Lemma subtract_digits_spec h Z_ X' Y' :
  heap_ok h -> in_order Z_ X' -> in_order Z_ Y' -> 0 <= len_ Y' <= len_ X' -> len_ X' <= len_ Z_ ->
  value h Y' <= value h X' ->
  wp (subtract_digits Z_ X' Y')
    (fun _ h' => wrote h h' Z_ (len_ Z_) /\ value h' Z_ = value h X' - value h Y') h.
Proof.
  intros Hok HX' HY' HYX HXZ Hle. pose proof (value_range h X' Hok ltac:(lia)) as HuX.
  unfold subtract_digits. digit_step.
  apply (wp_for_up (fun i c h' => 0 <= c <= 1 /\
    accumulated h h' Z_ i (sum (cell h) (digits_ X') i - sum (cell h) (digits_ Y') i) (- c))); [lia| | |].
  { split; [lia|]. rewrite !sum_0. by apply accumulated_start. }
  { intros i c h1 Hi [Hc Ha].
    eapply wp_mono; [eapply sub2_at_spec; [done|done|done|lia|lia|done|lia|done]|].
    intros c' h2 [Hc' Ha']. split; [done|]. apply (accumulated_eq _ _ _ _ _ _ _ Ha').
    rewrite !(sum_succ (cell h)) by lia. lia. }
  intros c h1 [Hc Ha]. fold (value h Y') in Ha. digit_step.
  apply (wp_for_up (fun i c h' => 0 <= c <= 1 /\
    accumulated h h' Z_ i (sum (cell h) (digits_ X') i - value h Y') (- c))); [lia|done| |].
  { intros i c1 h2 Hi [Hc1 Ha1].
    eapply wp_mono; [eapply sub_at_spec; [done|done|lia|lia|done|by apply bit_is_digit]|].
    intros c' h3 [Hc' Ha']. split; [done|]. apply (accumulated_eq _ _ _ _ _ _ _ Ha').
    rewrite !(sum_succ (cell h)) by lia. lia. }
  intros c1 h2 [Hc1 Ha1]. fold (value h X') in Ha1.
  assert (c1 = 0) as ->.
  { destruct Ha1 as [Hw Hv]. pose proof (sum_range (cell h2) (digits_ Z_) (len_ X') (wrote_ok _ _ _ _ Hw)).
    pose proof (kBase_pow_pos (len_ X')). nia. }
  do 2 digit_step. eapply wp_mono; [apply (zero_tail_spec h h2); [lia|done]|].
  intros [] h3. apply accumulated_done.
Qed.

Lemma Subtract_spec h Z_ X Y :
  heap_ok h -> in_order Z_ X -> in_order Z_ Y -> 0 <= len_ X -> 0 <= len_ Y -> 0 <= len_ Z_ ->
  value h X < kBase ^ len_ Z_ -> value h Y <= value h X ->
  wp (Subtract Z_ X Y)
    (fun _ h' => wrote h h' Z_ (len_ Z_) /\ value h' Z_ = value h X - value h Y) h.
Proof.
  intros Hok HX HY HlX HlY HlZ Hfit Hle. unfold Subtract.
  digit_step. eapply wp_mono; [by apply Normalize_spec|]. intros X' h0 [-> HNX].
  digit_step. eapply wp_mono; [by apply Normalize_spec|]. intros Y' h0 [-> HNY].
  pose proof (normalized_len_le _ _ _ _ Hok HNX HlZ Hfit) as HXZ.
  assert (HYX : len_ Y' <= len_ X').
  { apply (normalized_len_le h Y); [done|done|apply HNX|]. pose proof (normalized_upper _ _ _ Hok HNX). lia. }
  pose proof (in_order_normalized _ _ _ _ HNX HX) as HX'.
  pose proof (in_order_normalized _ _ _ _ HNY HY) as HY'.
  destruct HNX as [_ Hl1 Hv1 _], HNY as [_ Hl2 Hv2 _]. rewrite <- Hv1, <- Hv2 in *.
  do 2 digit_step. apply subtract_digits_spec; (done || lia).
Qed.

Lemma AddOne_spec h Z_ X :
  heap_ok h -> in_order Z_ X -> 0 <= len_ X <= len_ Z_ -> value h X + 1 < kBase ^ len_ Z_ ->
  wp (AddOne Z_ X) (fun _ h' => wrote h h' Z_ (len_ Z_) /\ value h' Z_ = value h X + 1) h.
Proof.
  intros Hok HX Hl Hfit. unfold AddOne. digit_step.
  apply (wp_while_carry (fun i c h' => 0 <= i /\ 0 <= c <= 1 /\
    accumulated h h' Z_ i (1 + sum (cell h) (digits_ X) i) c)); [lia| | |].
  { split; [lia|]. split; [lia|]. split; [by apply wrote_refl|]. rewrite !sum_0, Z.pow_0_r. lia. }
  { intros i c h1 Hi Hc0 (Hi0 & Hc & Ha).
    eapply wp_mono; [eapply add2_at_spec; [done|done|lia|lia|done|by apply bit_is_digit]|].
    intros c' h2 [Hc' Ha']. split; [lia|]. split; [done|].
    apply (accumulated_eq _ _ _ _ _ _ _ Ha'). rewrite (sum_succ (cell h)) by lia. lia. }
  intros i c h1 Hi (Hi0 & Hc & Ha) Hend. digit_step.
  destruct (Z.ltb_spec 0 c).
  - destruct Hend as [-> | ->]; [|lia]. replace c with 1 in * by lia.
    fold (value h X) in Ha. rewrite (Z.add_comm 1) in Ha.
    assert (len_ X < len_ Z_).
    { destruct Ha as [Hw Hv]. pose proof (sum_range (cell h1) (digits_ Z_) (len_ X) (wrote_ok _ _ _ _ Hw)).
      apply (Z.pow_lt_mono_r_iff kBase); [pose proof kBase_pos; lia|lia|lia]. }
    digit_step. eapply wp_mono; [apply (set_carry_spec _ _ _ _ _ _ Ha); [lia|by apply bit_is_digit]|].
    intros [] h2 Ha2. do 2 digit_step. apply wp_for_up_none; [lia|].
    rewrite Z.max_l by lia.
    eapply wp_mono; [apply (zero_tail_spec h h2); [lia|done]|]. intros [] h3. apply accumulated_done.
  - replace c with 0 in * by lia. do 2 digit_step.
    eapply wp_mono; [apply (copy_tail_spec h h1 Z_ X i); done || lia|]. intros [] h2 Ha2.
    rewrite Z.max_r by lia. fold (value h X) in Ha2. rewrite (Z.add_comm 1) in Ha2.
    eapply wp_mono; [apply (zero_tail_spec h h2); [lia|done]|]. intros [] h3. apply accumulated_done.
Qed.

Lemma SubtractOne_spec h Z_ X :
  heap_ok h -> in_order Z_ X -> 0 <= len_ X <= len_ Z_ -> 0 < value h X ->
  wp (SubtractOne Z_ X) (fun _ h' => wrote h h' Z_ (len_ Z_) /\ value h' Z_ = value h X - 1) h.
Proof.
  intros Hok HX Hl Hpos. unfold SubtractOne. digit_step.
  apply (wp_loop
    (fun '(i, c) h' => 0 <= i <= len_ X /\ 0 <= c <= 1 /\
       accumulated h h' Z_ i (-1 + sum (cell h) (digits_ X) i) (- c))
    (fun '(i, c) _ => Z.to_nat (len_ X - i))); [| |lia].
  2: { split; [lia|]. split; [lia|]. split; [by apply wrote_refl|]. rewrite !sum_0, Z.pow_0_r. lia. }
  intros [i c] h1 (Hi & Hc & Ha). destruct (Z.ltb_spec 0 c).
  - assert (i < len_ X).
    { destruct (Z.eq_dec i (len_ X)) as [-> |]; [exfalso|lia]. destruct Ha as [Hw Hv].
      pose proof (sum_range (cell h1) (digits_ Z_) (len_ X) (wrote_ok _ _ _ _ Hw)).
      fold (value h X) in Hv. pose proof (kBase_pow_pos (len_ X)). nia. }
    digit_step. eapply wp_mono; [eapply sub_at_spec; [done|done|lia|lia|done|by apply bit_is_digit]|].
    intros c' h2 [Hc' Ha']. digit_step. split; [|lia]. split; [lia|]. split; [done|].
    apply (accumulated_eq _ _ _ _ _ _ _ Ha'). rewrite (sum_succ (cell h)) by lia. lia.
  - replace c with 0 in * by lia. digit_step. digit_step.
    eapply wp_mono; [apply (copy_tail_spec h h1 Z_ X i); done || lia|]. intros [] h2 Ha2.
    rewrite Z.max_r by lia. fold (value h X) in Ha2. rewrite Z.add_comm in Ha2.
    eapply wp_mono; [apply (zero_tail_spec h h2); [lia|done]|]. intros [] h3. apply accumulated_done.
Qed.

(** ** Comparison and signed operations *)

(** The most significant digit that differs decides. *)
Lemma leading_digit_sgn p la lb a b :
  0 <= la < p -> 0 <= lb < p -> a <> b -> Z.sgn (la + a * p - (lb + b * p)) = Z.sgn (a - b).
Proof. intros. destruct (Z.lt_total a b) as [|[]]; [|done|]; [rewrite !Z.sgn_neg|rewrite !Z.sgn_pos]; nia. Qed.

Lemma compare_digits_spec h A B n :
  heap_ok h -> 0 <= n <= len_ A -> n <= len_ B ->
  wp (compare_digits A B (n - 1))
    (fun r h' => h' = h /\ Z.sgn r = Z.sgn (sum (cell h) (digits_ A) n - sum (cell h) (digits_ B) n)) h.
Proof.
  intros Hok HnA HnB. unfold compare_digits. apply (wp_loop
    (fun i h' => h' = h /\ -1 <= i < n /\
       sum (cell h) (digits_ A) n - sum (cell h) (digits_ B) n =
         sum (cell h) (digits_ A) (i + 1) - sum (cell h) (digits_ B) (i + 1))
    (fun i _ => Z.to_nat (i + 1))); [| |lia].
  - intros i h' (-> & Hi & Hv). destruct (Z.leb_spec 0 i).
    + do 4 digit_step. rewrite (sum_succ _ _ i), (sum_succ _ (digits_ B) i) in Hv by lia.
      destruct (Z.eqb_spec (cell h (digits_ A + i)) (cell h (digits_ B + i))) as [Ed|Ed].
      * split; [|lia]. split; [done|]. split; [lia|]. rewrite Z.sub_add. rewrite Ed in Hv. lia.
      * split; [done|]. rewrite Hv, leading_digit_sgn; [|by apply sum_range..|done].
        destruct (Z.ltb_spec (cell h (digits_ B + i)) (cell h (digits_ A + i)));
          [rewrite (Z.sgn_pos (_ - _))|rewrite (Z.sgn_neg (_ - _))]; done || lia.
    + digit_step. split; [done|]. rewrite Hv. replace i with (-1) by lia. by rewrite !sum_0.
  - split; [done|]. split; [lia|]. by rewrite Z.sub_add.
Qed.

Lemma Compare_spec h A B :
  heap_ok h -> 0 <= len_ A -> 0 <= len_ B ->
  wp (Compare A B) (fun r h' => h' = h /\ Z.sgn r = Z.sgn (value h A - value h B)) h.
Proof.
  intros Hok HlA HlB. unfold Compare.
  digit_step. eapply wp_mono; [by apply Normalize_spec|]. intros A' h0 [-> HA].
  digit_step. eapply wp_mono; [by apply Normalize_spec|]. intros B' h0 [-> HB].
  pose proof (normalized_upper _ _ _ Hok HA) as HuA. pose proof (normalized_upper _ _ _ Hok HB) as HuB.
  pose proof (norm_len _ _ _ HA). pose proof (norm_len _ _ _ HB).
  destruct (Z.eqb_spec (len_ A' - len_ B') 0) as [E|E]; cbn [negb].
  - eapply wp_mono; [apply compare_digits_spec; [done|lia|lia]|]. intros r h' [-> Hr]. split; [done|].
    rewrite Hr, <- (norm_value _ _ _ HA), <- (norm_value _ _ _ HB). unfold value. by replace (len_ B') with (len_ A') by lia.
  - digit_step. split; [done|]. destruct (Z.lt_total (len_ A') (len_ B')) as [?|[|?]]; [|lia|].
    + pose proof (normalized_lower _ _ _ Hok HB). pose proof (kBase_pow_mono (len_ A') (len_ B' - 1)).
      rewrite !Z.sgn_neg by lia. done.
    + pose proof (normalized_lower _ _ _ Hok HA). pose proof (kBase_pow_mono (len_ B') (len_ A' - 1)).
      rewrite !Z.sgn_pos by lia. done.
Qed.

Lemma GreaterThanOrEqual_spec h A B :
  heap_ok h -> 0 <= len_ A -> 0 <= len_ B ->
  wp (GreaterThanOrEqual A B) (fun r h' => h' = h /\ r = (value h B <=? value h A)) h.
Proof.
  intros. unfold GreaterThanOrEqual. digit_step. eapply wp_mono; [by apply Compare_spec|].
  intros r h' [-> Hr]. digit_step. split; [done|]. bool_lia.
Qed.

(** Sums and differences of signed numbers need the room that
    [AddSignedResultLength] and [SubtractSignedResultLength] give, or any
    other vector the result fits into. *)
Lemma AddSigned_spec h Z_ X Y xn yn :
  heap_ok h -> in_order Z_ X -> in_order Z_ Y -> 0 <= len_ X <= len_ Z_ -> 0 <= len_ Y <= len_ Z_ ->
  (xn = yn -> value h X + value h Y < kBase ^ len_ Z_) ->
  wp (AddSigned Z_ X xn Y yn)
    (fun zn h' => wrote h h' Z_ (len_ Z_) /\
       signed zn (value h' Z_) = signed xn (value h X) + signed yn (value h Y)) h.
Proof.
  intros Hok HX HY HlX HlY Hfit. unfold AddSigned.
  pose proof (value_range h X Hok ltac:(lia)) as HvX. pose proof (value_range h Y Hok ltac:(lia)) as HvY.
  pose proof (kBase_pow_mono (len_ X) (len_ Z_)). pose proof (kBase_pow_mono (len_ Y) (len_ Z_)).
  destruct (Bool.eqb_spec xn yn) as [-> |Hne].
  - digit_step. eapply wp_mono; [by apply Add_spec|]. intros [] h' [Hw Hv]. digit_step. split; [done|].
    rewrite Hv, Z.mod_small by (specialize (Hfit eq_refl); lia). destruct yn; cbn; lia.
  - digit_step. eapply wp_mono; [apply GreaterThanOrEqual_spec; done || lia|]. intros r h0 [-> ->].
    destruct (Z.leb_spec (value h Y) (value h X)); digit_step;
      (eapply wp_mono; [apply Subtract_spec; done || lia|]); intros [] h' [Hw Hv]; digit_step;
      (split; [done|]); rewrite Hv; destruct xn, yn; cbn; try done; lia.
Qed.

Lemma SubtractSigned_spec h Z_ X Y xn yn :
  heap_ok h -> in_order Z_ X -> in_order Z_ Y -> 0 <= len_ X <= len_ Z_ -> 0 <= len_ Y <= len_ Z_ ->
  (xn <> yn -> value h X + value h Y < kBase ^ len_ Z_) ->
  wp (SubtractSigned Z_ X xn Y yn)
    (fun zn h' => wrote h h' Z_ (len_ Z_) /\
       signed zn (value h' Z_) = signed xn (value h X) - signed yn (value h Y)) h.
Proof.
  intros Hok HX HY HlX HlY Hfit. unfold SubtractSigned.
  pose proof (value_range h X Hok ltac:(lia)) as HvX. pose proof (value_range h Y Hok ltac:(lia)) as HvY.
  pose proof (kBase_pow_mono (len_ X) (len_ Z_)). pose proof (kBase_pow_mono (len_ Y) (len_ Z_)).
  destruct (Bool.eqb_spec xn yn) as [-> |Hne]; cbn [negb].
  - digit_step. eapply wp_mono; [apply GreaterThanOrEqual_spec; done || lia|]. intros r h0 [-> ->].
    destruct (Z.leb_spec (value h Y) (value h X)); digit_step;
      (eapply wp_mono; [apply Subtract_spec; done || lia|]); intros [] h' [Hw Hv]; digit_step;
      (split; [done|]); rewrite Hv; destruct yn; cbn; try done; lia.
  - digit_step. eapply wp_mono; [by apply Add_spec|]. intros [] h' [Hw Hv]. digit_step. split; [done|].
    rewrite Hv, Z.mod_small by (specialize (Hfit Hne); lia). destruct xn, yn; cbn; done || lia.
Qed.

(** A sum fits one digit more than the longer operand has. *)
Lemma sum_fits h X Y n :
  heap_ok h -> 0 <= len_ X -> 0 <= len_ Y -> AddResultLength (len_ X) (len_ Y) <= n ->
  value h X + value h Y < kBase ^ n.
Proof.
  intros Hok HX HY Hn. unfold AddResultLength in Hn.
  pose proof (value_range h X Hok HX). pose proof (value_range h Y Hok HY).
  pose proof (kBase_pow_mono (len_ X) (n - 1) ltac:(lia)).
  pose proof (kBase_pow_mono (len_ Y) (n - 1) ltac:(lia)).
  replace n with (n - 1 + 1) by lia. rewrite kBase_pow_succ by lia.
  pose proof kBase_pos. pose proof (kBase_pow_pos (n - 1) ltac:(lia)). nia.
Qed.

End Arithmetic.
