(* ===== verification/BigIntMul.v ===== *)
(** * Schoolbook multiplication

    [src/bigint/mul-schoolbook.cc] and the work estimate of the processor in
    [src/bigint/bigint-internal.h]. *)

From stdpp Require Import base list numbers.
From Stdlib Require Import ZArith Lia Bool.
From S2P Require Import Prelude.
From S2P Require Import BigIntDigits.
From S2P Require Import BigIntVectors.
From S2P Require Import BigIntMemory.
From S2P Require Import BigIntArithmetic.

Local Open Scope Z_scope.
Local Open Scope prog_scope.

(** The embedder's [Platform]: the answer to each call of
    [InterruptRequested]. *)
Class Platform := InterruptRequested : nat -> bool.

Section Multiplication.
Context {T : DigitTarget} {P : Platform}.
Local Abbreviation HM := (M Heap).

(** ** The processor *)

Definition kWorkEstimateThreshold : Z := 5000000.

Definition AddWorkEstimate (estimate : Z) : HM unit :=
  modify (fun h =>
    let p := proc h in
    let work := digit_t (work_estimate_ p + digit_t estimate) in
    mkHeap (cell h) (free h)
      (if kWorkEstimateThreshold <=? work then
         mkProcessor 0 (if InterruptRequested (queries p) then kInterrupted else status_ p)
           (S (queries p))
       else mkProcessor work (status_ p) (queries p))).

(** ** Multiplication *)

Definition MultiplySingle (Z_ X : Digits) (y : Z) : HM unit :=
  DCHECK (negb (y =? 0)) ;;;
  let* (carry, high) :=
    for_up 0 (len_ X)
      (fun i '(carry, high) =>
         let* x := get X i in
         let '(low, new_high) := digit_mul x y in
         let '(r, carry) := digit_add3 low high carry in
         set Z_ i r ;;; ret (carry, new_high))
      (0, 0) in
  AddWorkEstimate (len_ X) ;;;
  set Z_ (len_ X) (digit_t (carry + high)) ;;;
  for_up (len_ X + 1) (len_ Z_) (zero_at Z_) tt.

(** The macro [BODY] for column [i]: the locals are [zi], [next], [carry] and
    [next_carry]. *)
Definition column_product (X Y : Digits) (i j : Z) (locals : Z * Z * Z * Z) : HM (Z * Z * Z * Z) :=
  let '(zi, next, carry, next_carry) := locals in
  let* x := get X j in
  let* y := get Y (i - j) in
  let '(low, high) := digit_mul x y in
  let '(zi, carrybit) := digit_add2 zi low in
  let carry := digit_t (carry + carrybit) in
  let '(next, carrybit) := digit_add2 next high in
  let next_carry := digit_t (next_carry + carrybit) in
  ret (zi, next, carry, next_carry).

Definition BODY (Z_ X Y : Digits) (i min max : Z) (locals : Z * Z * Z * Z) : HM (Z * Z * Z) :=
  let* (zi, next, carry, next_carry) := for_up min (max + 1) (column_product X Y i) locals in
  set Z_ i zi ;;; ret (next, carry, next_carry).

(** The start of a column from what the previous ones carry into it. *)
Definition start_column (next carry next_carry : Z) : Z * Z * Z * Z :=
  let '(zi, carry) := digit_add2 next carry in
  (zi, digit_t (next_carry + carry), 0, 0).

Definition MultiplySchoolbook (Z_ X Y : Digits) : HM unit :=
  let* nx := IsDigitNormalized X in
  DCHECK nx ;;;
  let* ny := IsDigitNormalized Y in
  DCHECK ny ;;;
  DCHECK (len_ Y <=? len_ X) ;;;
  DCHECK (len_ X + len_ Y <=? len_ Z_) ;;;
  if (len_ X =? 0) || (len_ Y =? 0) then Clear Z_
  else
    let* x0 := get X 0 in
    let* y0 := get Y 0 in
    let '(z0, next) := digit_mul x0 y0 in
    set Z_ 0 z0 ;;;
    let* (i, next, carry, next_carry) :=
      (if 1 <? len_ Y then
         let* (next, carry, next_carry) := BODY Z_ X Y 1 0 1 (next, 0, 0, 0) in
         ret (2, next, carry, next_carry)
       else ret (1, next, 0, 0)) in
    let* (next, carry, next_carry) :=
      for_up i (len_ Y)
        (fun i '(next, carry, next_carry) =>
           let* r := BODY Z_ X Y i 0 i (start_column next carry next_carry) in
           AddWorkEstimate i ;;; ret r)
        (next, carry, next_carry) in
    let i := Z.max i (len_ Y) in
    let loop_end := len_ X + len_ Y - 2 in
    let* (next, carry, next_carry) :=
      for_up i (loop_end + 1)
        (fun i '(next, carry, next_carry) =>
           let max_x_index := Z.min i (len_ X - 1) in
           let max_y_index := len_ Y - 1 in
           let min_x_index := i - max_y_index in
           let* r := BODY Z_ X Y i min_x_index max_x_index (start_column next carry next_carry) in
           AddWorkEstimate (max_x_index - min_x_index) ;;; ret r)
        (next, carry, next_carry) in
    let i := Z.max i (loop_end + 1) in
    let '(zi, carry) := digit_add2 next carry in
    set Z_ i zi ;;;
    DCHECK (carry =? 0) ;;;
    for_up (i + 1) (len_ Z_) (zero_at Z_) tt.

(** ** Specifications *)

Context {TOK : DigitTargetOK T}.

Lemma wp_AddWorkEstimate n (Q : unit -> Heap -> Prop) h :
  (forall h', same_cells h h' -> Q tt h') -> wp (AddWorkEstimate n) Q h.
Proof. intros HQ. apply wp_modify, HQ. by split. Qed.

(** A carry into digit [n] of a product stays below the factor. *)
Lemma carry_bound h D n V c y :
  heap_ok h -> 0 <= n -> sum (cell h) (digits_ D) n + c * kBase ^ n = V -> 0 <= V < y * kBase ^ n ->
  c < y.
Proof.
  intros Hok Hn E HV. pose proof (sum_range (cell h) (digits_ D) n Hok Hn).
  pose proof (kBase_pow_pos n Hn). nia.
Qed.

Lemma MultiplySingle_spec h Z_ X y :
  heap_ok h -> in_order Z_ X -> 0 <= len_ X < len_ Z_ -> is_digit y -> y <> 0 ->
  wp (MultiplySingle Z_ X y)
    (fun _ h' => wrote h h' Z_ (len_ Z_) /\ value h' Z_ = value h X * y) h.
Proof.
  intros Hok HX Hl Hy Hy0. unfold MultiplySingle. digit_step.
  apply wp_DCHECK; [by apply negb_true_iff, Z.eqb_neq|]. digit_step.
  apply (wp_for_up (fun i '(c, hi) h' => 0 <= c <= 2 /\ is_digit hi /\
    accumulated h h' Z_ i (sum (cell h) (digits_ X) i * y) (hi + c))); [lia| | |].
  - split; [lia|]. split; [apply zero_is_digit|]. rewrite sum_0. by apply accumulated_start.
  - intros i [c hi] h1 Hi (Hc & Hhi & Ha). pose proof (acc_wrote _ _ _ _ _ _ Ha) as Hw.
    digit_step. digit_step. rewrite (wrote_read h h1 Z_ i) by (done || lia).
    destruct (digit_mul_spec (cell h (digits_ X + i)) y) as (lo & nh & -> & E1 & Hlo & Hnh); [apply Hok|done|].
    destruct (digit_add3_spec lo hi c) as (r & k & -> & E2 & Hr & Hk);
      [done|done|unfold is_digit; pose proof kBase_pos; lia|].
    digit_step. digit_step. digit_step. split; [done|]. split; [done|].
    eapply (accumulated_step _ _ _ _ _ _ _ (cell h (digits_ X + i) * y)); [done|lia|done|lia|].
    rewrite (sum_succ (cell h)) by lia. ring.
  - intros [c hi] h1 (Hc & Hhi & Ha). fold (value h X) in Ha. digit_step.
    apply wp_AddWorkEstimate. intros h2 Hs. apply (accumulated_same _ _ _ _ _ _ _ Ha) in Hs as Ha2.
    destruct Ha2 as [Hw2 Hv2] eqn:E2. clear E2.
    pose proof (value_range h X Hok ltac:(lia)) as HvX.
    assert (Hch : hi + c < y).
    { apply (carry_bound h2 Z_ (len_ X) _ (hi + c) y (wrote_ok _ _ _ _ Hw2) ltac:(lia) Hv2).
      unfold is_digit in *. nia. }
    rewrite digit_t_small by (unfold is_digit in *; lia). digit_step.
    rewrite (Z.add_comm c).
    eapply wp_mono; [apply (set_carry_spec _ _ _ _ _ _ Ha2); [lia|unfold is_digit in *; lia]|].
    intros [] h3 Ha3. eapply wp_mono; [apply (zero_tail_spec h h3); [lia|done]|].
    intros [] h4. apply accumulated_done.
Qed.

(** *** Columns of the schoolbook method

    Lengths are values of type [int], so that the carry counters of a column
    cannot overflow. *)

Section Columns.
Variables (h : Heap) (Z_ X Y : Digits).
Hypothesis Hok : heap_ok h.
Hypothesis HZX : disjoint Z_ X.
Hypothesis HZY : disjoint Z_ Y.
Hypothesis HlX : 0 < len_ X <= kMaxInt.
Hypothesis HlY : 0 < len_ Y <= len_ X.
Hypothesis HlZ : len_ X + len_ Y <= len_ Z_.

Local Abbreviation col := (column (cell h) (digits_ X) (len_ X) (digits_ Y) (len_ Y)).
Local Abbreviation cols := (columns (cell h) (digits_ X) (len_ X) (digits_ Y) (len_ Y)).
Local Abbreviation term i :=
  (fun j => cell h (digits_ X + j) * digit_or_0 (cell h) (digits_ Y) (len_ Y) (i - j)).

Lemma read_disjoint h' n D j :
  wrote h h' Z_ n -> disjoint Z_ D -> n <= len_ Z_ -> 0 <= j < len_ D ->
  cell h' (digits_ D + j) = cell h (digits_ D + j).
Proof. intros [] Hd Hn Hj. apply wrote_frame. unfold disjoint in Hd. lia. Qed.

(** What the locals of a column add up to. *)
Definition locals_ok (count : Z) (locals : Z * Z * Z * Z) (V : Z) : Prop :=
  let '(zi, next, carry, next_carry) := locals in
  is_digit zi /\ is_digit next /\ 0 <= carry <= count /\ 0 <= next_carry <= count /\
  zi + (next + carry + next_carry * kBase) * kBase = V.

Lemma column_product_spec h' i j locals count V :
  wrote h h' Z_ i -> i <= len_ Z_ -> 0 <= j < len_ X -> 0 <= i - j < len_ Y ->
  0 <= count < kMaxInt -> locals_ok count locals V ->
  wp (column_product X Y i j locals)
    (fun locals' h'' => h'' = h' /\ locals_ok (count + 1) locals' (V + term i j)) h'.
Proof.
  intros Hw Hi Hj Hij Hcount Hlocals. destruct locals as [[[zi next] carry] nc].
  destruct Hlocals as (Hz & Hn & Hc & Hnc & E). unfold column_product.
  do 4 digit_step. rewrite (read_disjoint h' i X j), (read_disjoint h' i Y (i - j)) by done.
  unfold digit_or_0. destruct (Z.leb_spec 0 (i - j)), (Z.ltb_spec (i - j) (len_ Y)); [|lia..].
  cbn [andb]. set (x := cell h (digits_ X + j)). set (y := cell h (digits_ Y + (i - j))).
  destruct (digit_mul_spec x y) as (lo & hi & -> & Em & Hlo & Hhi); [apply Hok..|].
  destruct (digit_add2_spec zi lo) as (zi' & c1 & -> & E1 & Hz' & Hc1); [done..|].
  destruct (digit_add2_spec next hi) as (next' & c2 & -> & E2 & Hn' & Hc2); [done..|].
  pose proof kBase_pos. assert (HM : kMaxInt + 1 < kBase) by (unfold kMaxInt; lia).
  rewrite !digit_t_small by (unfold is_digit; lia).
  digit_step. split; [done|]. repeat split; [apply Hz'|apply Hz'|apply Hn'|apply Hn'|lia..|]. nia.
Qed.

(** A whole column: [lo] to [hi] are all the indices with a non-zero term. *)
Lemma BODY_spec h' i lo hi zi next V :
  accumulated h h' Z_ i V (zi + next * kBase) -> 0 <= i < len_ Z_ -> is_digit zi -> is_digit next ->
  0 <= lo <= hi -> hi < len_ X -> hi <= i -> i - lo < len_ Y ->
  (i - lo = len_ Y - 1 \/ lo = 0) -> (hi = len_ X - 1 \/ hi = i) ->
  wp (BODY Z_ X Y i lo hi (zi, next, 0, 0))
    (fun '(next, carry, next_carry) h'' =>
       is_digit next /\ 0 <= carry <= len_ X /\ 0 <= next_carry <= len_ X /\
       accumulated h h'' Z_ (i + 1) (V + col i * kBase ^ i) (next + carry + next_carry * kBase)) h'.
Proof.
  intros Ha Hi Hz Hn Hlo HhX Hhi HiY Hlow Hhigh. unfold BODY. digit_step.
  apply (wp_for_up (fun j locals h'' => h'' = h' /\
    locals_ok (j - lo) locals (zi + next * kBase + (total (term i) j - total (term i) lo)))).
  - lia.
  - split; [done|]. repeat split; [apply Hz|apply Hz|apply Hn|apply Hn|lia..].
  - intros j locals h1 Hj [-> Hl].
    eapply wp_mono;
      [eapply (column_product_spec _ _ _ _ (j - lo)); [apply (acc_wrote _ _ _ _ _ _ Ha)|lia|lia|lia|lia|done]|].
    intros locals' h2 [-> Hl']. split; [done|]. replace (j + 1 - lo) with (j - lo + 1) by lia.
    rewrite total_succ by lia.
    replace (zi + next * kBase + (total (term i) j + term i j - total (term i) lo))
      with (zi + next * kBase + (total (term i) j - total (term i) lo) + term i j) by lia. done.
  - intros [[[zi' next'] c] nc] h1 [-> (Hz' & Hn' & Hc & Hnc & E)].
    assert (Ecol : total (term i) (hi + 1) - total (term i) lo = col i).
    { unfold column. rewrite (total_zeros (term i) (hi + 1) (len_ X)), (total_zeros (term i) 0 lo).
      - rewrite total_0. lia.
      - lia.
      - intros j Hj. unfold digit_or_0. destruct (Z.leb_spec 0 (i - j)), (Z.ltb_spec (i - j) (len_ Y)); cbn; lia.
      - lia.
      - intros j Hj. unfold digit_or_0. destruct (Z.leb_spec 0 (i - j)), (Z.ltb_spec (i - j) (len_ Y)); cbn; lia. }
    rewrite Ecol in E. do 3 digit_step. split; [done|]. split; [lia|]. split; [lia|].
    eapply (accumulated_step _ _ _ _ _ _ _ (col i)); [done|lia|done|lia|done].
Qed.

(** What holds between two columns. *)
Definition between_columns (i : Z) (locals : Z * Z * Z) (h' : Heap) : Prop :=
  let '(next, carry, next_carry) := locals in
  is_digit next /\ 0 <= carry <= len_ X /\ 0 <= next_carry <= len_ X /\
  accumulated h h' Z_ i (cols i) (next + carry + next_carry * kBase).

Lemma cols_succ i : 0 <= i -> cols (i + 1) = cols i + col i * kBase ^ i.
Proof. intros. unfold columns. by rewrite total_succ. Qed.

Lemma column_round h' i lo hi locals work :
  between_columns i locals h' -> 0 <= i < len_ Z_ ->
  0 <= lo <= hi -> hi < len_ X -> hi <= i -> i - lo < len_ Y ->
  (i - lo = len_ Y - 1 \/ lo = 0) -> (hi = len_ X - 1 \/ hi = i) ->
  wp (let '(next, carry, next_carry) := locals in
      let* r := BODY Z_ X Y i lo hi (start_column next carry next_carry) in
      AddWorkEstimate work ;;; ret r)
    (between_columns (i + 1)) h'.
Proof.
  destruct locals as [[next carry] nc]. intros (Hn & Hc & Hnc & Ha) Hi Hlo HhX Hhi HiY Hlow Hhigh.
  unfold start_column. pose proof kBase_pos. assert (HM : kMaxInt + 1 < kBase) by (unfold kMaxInt; lia).
  destruct (digit_add2_spec next carry) as (zi & c & -> & E & Hz & Hc1); [done|unfold is_digit; lia|].
  rewrite digit_t_small by (unfold is_digit; lia). digit_step.
  eapply wp_mono; [apply (BODY_spec h' i lo hi zi (nc + c) (cols i)); try done|].
  - replace (zi + (nc + c) * kBase) with (next + carry + nc * kBase) by lia. done.
  - unfold is_digit. lia.
  - intros [[next' c'] nc'] h1 (Hn' & Hc' & Hnc' & Ha'). digit_step. apply wp_AddWorkEstimate.
    intros h2 Hs. digit_step. rewrite <- cols_succ in Ha' by lia.
    split; [done|]. split; [done|]. split; [done|]. apply (accumulated_same _ _ _ _ _ _ _ Ha' Hs).
Qed.

(** The first column has one term. *)
Lemma first_column : col 0 = cell h (digits_ X) * cell h (digits_ Y).
Proof.
  unfold column. rewrite (total_zeros _ 1 (len_ X)); [|lia|].
  - change 1 with (0 + 1). rewrite total_succ, total_0 by lia. unfold digit_or_0.
    destruct (Z.ltb_spec (0 - 0) (len_ Y)); [|lia]. cbn. by rewrite !Z.add_0_r.
  - intros j Hj. unfold digit_or_0. destruct (Z.leb_spec 0 (0 - j)); [lia|]. cbn. lia.
Qed.

Lemma start_columns h' next :
  accumulated h h' Z_ 1 (cols 1) next -> is_digit next -> between_columns 1 (next, 0, 0) h'.
Proof.
  intros Ha Hn. split; [done|]. split; [lia|]. split; [lia|].
  by replace (next + 0 + 0 * kBase) with next by lia.
Qed.

(** The second column, which the code unrolls. *)
Lemma second_column h' next :
  accumulated h h' Z_ 1 (cols 1) next -> is_digit next ->
  wp (if 1 <? len_ Y then
        let* (next, carry, next_carry) := BODY Z_ X Y 1 0 1 (next, 0, 0, 0) in
        ret (2, next, carry, next_carry)
      else ret (1, next, 0, 0))
    (fun '(i, next, carry, next_carry) h'' =>
       1 <= i <= len_ X + len_ Y - 1 /\ (i <= len_ Y) /\
       between_columns i (next, carry, next_carry) h'') h'.
Proof.
  intros Ha Hn. destruct (Z.ltb_spec 1 (len_ Y)).
  - digit_step. eapply wp_mono; [apply (BODY_spec h' 1 0 1 next 0 (cols 1)); try (done || lia)|].
    + by replace (next + 0 * kBase) with next by lia.
    + apply zero_is_digit.
    + intros [[next' c] nc] h1 (Hn' & Hc & Hnc & Ha'). digit_step. split; [lia|]. split; [lia|].
      rewrite <- cols_succ in Ha' by lia. done.
  - digit_step. split; [lia|]. split; [lia|]. by apply start_columns.
Qed.

Lemma last_digit h' next carry nc :
  between_columns (len_ X + len_ Y - 1) (next, carry, nc) h' ->
  exists zi, digit_add2 next carry = (zi, 0) /\ is_digit zi /\
    accumulated h h' Z_ (len_ X + len_ Y - 1) (value h X * value h Y) zi.
Proof.
  intros (Hn & Hc & Hnc & [Hw Hv]). pose proof kBase_pos.
  assert (HM : kMaxInt + 1 < kBase) by (unfold kMaxInt; lia).
  rewrite columns_product in Hv by lia.
  fold (value h X) (value h Y) in Hv.
  pose proof (value_range h X Hok ltac:(lia)) as HvX. pose proof (value_range h Y Hok ltac:(lia)) as HvY.
  assert (HV : value h X * value h Y < kBase * kBase ^ (len_ X + len_ Y - 1)).
  { replace (kBase * kBase ^ (len_ X + len_ Y - 1)) with (kBase ^ len_ X * kBase ^ len_ Y)
      by (rewrite <- Z.pow_add_r, (Z.mul_comm kBase), <- kBase_pow_succ by lia; f_equal; lia).
    apply Z.mul_lt_mono_nonneg; lia. }
  assert (Hb : next + carry + nc * kBase < kBase)
    by (eapply (carry_bound h' Z_ (len_ X + len_ Y - 1)); [apply Hw|lia|exact Hv|nia]).
  unfold is_digit in Hn. assert (nc = 0) as -> by nia.
  destruct (digit_add2_spec next carry) as (zi & c & -> & E & Hz & Hc1); [done|unfold is_digit; lia|].
  unfold is_digit in Hz. assert (c = 0) as -> by nia. exists zi. split; [done|]. split; [done|].
  split; [done|]. rewrite <- Hv. lia.
Qed.
End Columns.

Lemma wp_IsDigitNormalized h D (Q : bool -> Heap -> Prop) :
  0 <= len_ D -> (0 < len_ D -> cell h (digits_ D + (len_ D - 1)) <> 0) -> Q true h ->
  wp (IsDigitNormalized D) Q h.
Proof.
  intros Hl Hm HQ. unfold IsDigitNormalized. destruct (Z.eqb_spec (len_ D) 0); [by digit_step|].
  do 2 digit_step. digit_step. destruct (Z.eqb_spec (cell h (digits_ D + (len_ D - 1))) 0); [|done].
  exfalso. by apply Hm; [lia|].
Qed.

(** A view without leading zeros, as the slow operations require it. *)
Definition is_normalized (h : Heap) (D : Digits) : Prop :=
  0 <= len_ D /\ (0 < len_ D -> cell h (digits_ D + (len_ D - 1)) <> 0).

Lemma normal_lower h X i :
  heap_ok h -> is_normalized h X -> 0 <= i < len_ X -> kBase ^ i <= value h X.
Proof.
  intros Hok [_ Hn] Hi. unfold value. rewrite sum_pred by lia.
  pose proof (sum_range (cell h) (digits_ X) (len_ X - 1) Hok ltac:(lia)).
  pose proof (kBase_pow_pos (len_ X - 1) ltac:(lia)). pose proof (kBase_pow_mono i (len_ X - 1) ltac:(lia)).
  specialize (Hn ltac:(lia)). pose proof (Hok (digits_ X + (len_ X - 1))) as Hd. unfold is_digit in Hd. nia.
Qed.

(** Equal numbers without leading zeros have equally many digits. *)
Lemma normal_length h X Y :
  heap_ok h -> is_normalized h X -> is_normalized h Y -> value h X = value h Y -> len_ X = len_ Y.
Proof.
  intros Hok HX HY E. pose proof (value_range h X Hok (proj1 HX)). pose proof (value_range h Y Hok (proj1 HY)).
  pose proof (proj1 HX). pose proof (proj1 HY).
  destruct (Z.lt_trichotomy (len_ X) (len_ Y)) as [Hl|[Hl|Hl]]; [|done|].
  - pose proof (normal_lower h Y (len_ X) Hok HY ltac:(lia)). lia.
  - pose proof (normal_lower h X (len_ Y) Hok HX ltac:(lia)). lia.
Qed.


Lemma MultiplySchoolbook_spec h Z_ X Y :
  heap_ok h -> disjoint Z_ X -> disjoint Z_ Y -> is_normalized h X -> is_normalized h Y ->
  len_ Y <= len_ X <= kMaxInt -> len_ X + len_ Y <= len_ Z_ ->
  wp (MultiplySchoolbook Z_ X Y)
    (fun _ h' => wrote h h' Z_ (len_ Z_) /\ value h' Z_ = value h X * value h Y) h.
Proof.
  intros Hok HZX HZY [HX0 HX] [HY0 HY] Hlen HlZ. unfold MultiplySchoolbook.
  digit_step. apply wp_IsDigitNormalized; [done|done|]. do 2 digit_step.
  digit_step. apply wp_IsDigitNormalized; [done|done|]. do 6 digit_step.
  destruct ((len_ X =? 0) || (len_ Y =? 0)) eqn:E0.
  { eapply wp_mono; [apply Clear_spec; [done|lia]|]. intros [] h' [Hw ->]. split; [done|].
    apply orb_true_iff in E0 as [E0|E0]; apply Z.eqb_eq in E0.
    - rewrite (value_empty h X) by lia. lia.
    - rewrite (value_empty h Y) by lia. lia. }
  bool_to_prop. do 4 digit_step. rewrite !Z.add_0_r.
  destruct (digit_mul_spec (cell h (digits_ X)) (cell h (digits_ Y))) as (z0 & nx & -> & Em & Hz0 & Hnx);
    [apply Hok..|].
  do 2 digit_step.
  assert (Ha : accumulated h (store h (digits_ Z_ + 0) z0) Z_ 1
                 (columns (cell h) (digits_ X) (len_ X) (digits_ Y) (len_ Y) 1) nx).
  { eapply (accumulated_step _ _ _ 0 0 _ 0 (cell h (digits_ X) * cell h (digits_ Y)));
      [by apply accumulated_start|lia|done|lia|].
    change 1 with (0 + 1). unfold columns. rewrite total_succ, total_0, first_column by lia. done. }
  digit_step. eapply wp_mono; [apply (second_column h Z_ X Y); done || lia|].
  intros [[[i next] carry] nc] h1 (Hi & HiY & Hb). digit_step.
  apply (wp_for_up (between_columns h Z_ X Y)); [lia|done| |].
  { intros k locals h2 Hk Hb2. destruct locals as [[n2 c2] nc2].
    apply (column_round h Z_ X Y) with (locals := (n2, c2, nc2)); done || lia. }
  intros [[n3 c3] nc3] h3 Hb3. rewrite Z.max_r by lia. digit_step.
  apply (wp_for_up (between_columns h Z_ X Y)); [lia|done| |].
  { intros k locals h2 Hk Hb2. destruct locals as [[n2 c2] nc2].
    apply (column_round h Z_ X Y) with (locals := (n2, c2, nc2)); done || lia. }
  intros [[n4 c4] nc4] h4 Hb4. replace (len_ X + len_ Y - 2 + 1) with (len_ X + len_ Y - 1) in * by lia.
  rewrite Z.max_r by lia.
  destruct (last_digit h Z_ X Y) with (h' := h4) (next := n4) (carry := c4) (nc := nc4)
    as (zi & -> & Hzi & Ha5); [done || lia..|].
  digit_step. eapply wp_mono; [apply (set_carry_spec _ _ _ _ _ _ Ha5); [lia|done]|].
  intros [] h5 Ha6. do 2 digit_step.
  eapply wp_mono; [apply (zero_tail_spec h h5); [lia|done]|]. intros [] h6. apply accumulated_done.
Qed.

End Multiplication.
