(* ===== verification/BigIntShift.v ===== *)
(** * Shifts of digit vectors

    [Copy], [LeftShift] and [RightShift] of [src/bigint/div-helpers.cc], which
    shift by less than a digit, and [LeftShift], [RightShift_ResultLength] and
    [RightShift] of [src/bigint/bitwise.cc], which shift by any distance. *)

From stdpp Require Import base list numbers.
From Stdlib Require Import ZArith Lia Bool.
From S2P Require Import Prelude.
From S2P Require Import BigIntDigits.
From S2P Require Import BigIntVectors.
From S2P Require Import BigIntMemory.
From S2P Require Import BigIntArithmetic.

Local Open Scope Z_scope.
Local Open Scope prog_scope.

Section Shifts.
Context {T : DigitTarget}.
Local Abbreviation HM := (M Heap).

(** ** Shifts by less than a digit *)

Definition Copy (Z_ X : Digits) : HM unit :=
  if (digits_ Z_ =? digits_ X) && (len_ Z_ =? len_ X) then ret tt
  else
    for_up 0 (len_ X) (copy_at Z_ X) tt ;;;
    for_up (Z.max 0 (len_ X)) (len_ Z_) (zero_at Z_) tt.

(** [Z[i] = (d << shift) | carry; carry = d >> (kDigitBits - shift)] for the
    digit [d] at [X[j]]. *)
Definition shl_at (Z_ X : Digits) (shift i j carry : Z) : HM Z :=
  let* d := get X j in
  set Z_ i (Z.lor (digit_t (Z.shiftl d shift)) carry) ;;;
  ret (Z.shiftr d (kDigitBits - shift)).

(** [Z[i] = (d << (kDigitBits - shift)) | carry; carry = d >> shift] for the
    digit [d] at [X[j]]. *)
Definition shr_at (Z_ X : Digits) (shift i j carry : Z) : HM Z :=
  let* d := get X j in
  set Z_ i (Z.lor (digit_t (Z.shiftl d (kDigitBits - shift))) carry) ;;;
  ret (Z.shiftr d shift).

Definition LeftShiftBits (Z_ X : Digits) (shift : Z) : HM unit :=
  DCHECK (0 <=? shift) ;;;
  DCHECK (shift <? kDigitBits) ;;;
  DCHECK (len_ X <=? len_ Z_) ;;;
  if shift =? 0 then Copy Z_ X
  else
    let* carry := for_up 0 (len_ X) (fun i carry => shl_at Z_ X shift i i carry) 0 in
    let* i :=
      (if len_ X <? len_ Z_ then set Z_ (len_ X) carry ;;; ret (len_ X + 1)
       else DCHECK (carry =? 0) ;;; ret (len_ X)) in
    for_up i (len_ Z_) (zero_at Z_) tt.

Definition RightShiftBits (Z_ X : Digits) (shift : Z) : HM unit :=
  DCHECK (0 <=? shift) ;;;
  DCHECK (shift <? kDigitBits) ;;;
  let* X := Normalize X in
  DCHECK (len_ X <=? len_ Z_) ;;;
  if shift =? 0 then Copy Z_ X
  else
    let* i :=
      (if 0 <? len_ X then
         let* x0 := get X 0 in
         let last := len_ X - 1 in
         let* carry := for_up 0 last (fun i carry => shr_at Z_ X shift i (i + 1) carry) (Z.shiftr x0 shift) in
         set Z_ last carry ;;; ret (last + 1)
       else ret 0) in
    for_up i (len_ Z_) (zero_at Z_) tt.

(** ** Shifts by any distance *)

Definition LeftShift_ResultLength (x_length x_most_significant_digit shift : Z) : Z :=
  let digit_shift := int32 (shift / kDigitBits) in
  let bits_shift := shift mod kDigitBits in
  let grow :=
    negb (bits_shift =? 0)
    && negb (Z.shiftr x_most_significant_digit (kDigitBits - bits_shift) =? 0) in
  x_length + digit_shift + (if grow then 1 else 0).

Definition LeftShift (Z_ X : Digits) (shift : Z) : HM unit :=
  let digit_shift := int32 (shift / kDigitBits) in
  let bits_shift := shift mod kDigitBits in
  for_up 0 digit_shift (zero_at Z_) tt ;;;
  if bits_shift =? 0 then
    for_up digit_shift (len_ X + digit_shift)
      (fun i _ => let* x := get X (i - digit_shift) in set Z_ i x) tt ;;;
    for_up (len_ X + digit_shift) (len_ Z_) (zero_at Z_) tt
  else
    let* carry :=
      for_up digit_shift (len_ X + digit_shift)
        (fun i carry => shl_at Z_ X bits_shift i (i - digit_shift) carry) 0 in
    let i := len_ X + digit_shift in
    let* i := (if negb (carry =? 0) then set Z_ i carry ;;; ret (i + 1) else ret i) in
    for_up i (len_ Z_) (zero_at Z_) tt.

(** The search for a digit that is not zero, with its [break]. *)
Definition any_digit (X : Digits) (n : Z) : HM bool :=
  loop (S (Z.to_nat n))
    (fun i =>
       if i <? n then
         let* x := get X i in ret (if negb (x =? 0) then inr true else inl (i + 1))
       else ret (inr false))
    0.

(** The result length and the [must_round_down] of the state; the state keeps
    its initial [false] on the early return. *)
Definition RightShift_ResultLength (X : Digits) (x_sign : bool) (shift : Z) : HM (Z * bool) :=
  let digit_shift := int32 (shift / kDigitBits) in
  let bits_shift := shift mod kDigitBits in
  let result_length := len_ X - digit_shift in
  if result_length <=? 0 then ret (0, false)
  else
    let* must_round_down :=
      (if x_sign then
         let mask := digit_t (digit_t (Z.shiftl 1 bits_shift) - 1) in
         let* x := get X digit_shift in
         if negb (Z.land x mask =? 0) then ret true else any_digit X digit_shift
       else ret false) in
    let* result_length :=
      (if must_round_down && (bits_shift =? 0) then
         let* m := msd X in
         ret (if digit_ismax m then result_length + 1 else result_length)
       else ret result_length) in
    DCHECK (negb must_round_down || x_sign) ;;;
    ret (result_length, must_round_down).

Definition RightShift (Z_ X : Digits) (shift : Z) (must_round_down : bool) : HM unit :=
  let digit_shift := int32 (shift / kDigitBits) in
  let bits_shift := shift mod kDigitBits in
  let* i :=
    (if bits_shift =? 0 then
       for_up 0 (len_ X - digit_shift)
         (fun i _ => let* x := get X (i + digit_shift) in set Z_ i x) tt ;;;
       ret (Z.max 0 (len_ X - digit_shift))
     else
       let* x := get X digit_shift in
       let last := len_ X - digit_shift - 1 in
       let* carry :=
         for_up 0 last (fun i carry => shr_at Z_ X bits_shift i (i + digit_shift + 1) carry)
           (Z.shiftr x bits_shift) in
       let i := Z.max 0 last in
       set Z_ i carry ;;; ret (i + 1)) in
  for_up i (len_ Z_) (zero_at Z_) tt ;;;
  if must_round_down then AddDigit Z_ 1 else ret tt.

(** ** Digits *)

Context {TOK : DigitTargetOK T}.

Lemma pow2_pos s : 0 <= s -> 0 < 2 ^ s.
Proof. intros. apply Z.pow_pos_nonneg; lia. Qed.

(** A digit moved left: what leaves it and what stays. *)
Lemma shl_digit d s :
  is_digit d -> 0 <= s <= kDigitBits ->
  d * 2 ^ s = d / 2 ^ (kDigitBits - s) * kBase + digit_t (d * 2 ^ s) /\
  digit_t (d * 2 ^ s) = d mod 2 ^ (kDigitBits - s) * 2 ^ s /\
  0 <= d / 2 ^ (kDigitBits - s) < 2 ^ s.
Proof.
  intros Hd Hs. pose proof (pow2_pos s ltac:(lia)). assert (0 < 2 ^ (kDigitBits - s)) by (apply pow2_pos; lia).
  assert (E : digit_t (d * 2 ^ s) = d mod 2 ^ (kDigitBits - s) * 2 ^ s)
    by (rewrite digit_t_mod, (pow_digit_split s), Z.mul_mod_distr_r by lia; done).
  rewrite E. split; [|split; [done|]].
  - destruct (mod_split_mul d (2 ^ (kDigitBits - s))) as [Ed _]; [done|].
    rewrite Ed at 1. rewrite (pow_digit_split s) by lia. ring.
  - split; [apply Z.div_pos; [apply Hd|done]|]. apply Z.div_lt_upper_bound; [done|].
    rewrite <- pow_digit_split by lia. apply Hd.
Qed.

(** One digit of a left shift. *)
Lemma shl_combine d c s :
  is_digit d -> 0 <= s < kDigitBits -> 0 <= c < 2 ^ s ->
  exists r c', Z.lor (digit_t (Z.shiftl d s)) c = r /\ Z.shiftr d (kDigitBits - s) = c' /\
    d * 2 ^ s + c = c' * kBase + r /\ is_digit r /\ 0 <= c' < 2 ^ s.
Proof.
  intros Hd Hs Hc. destruct (shl_digit d s Hd ltac:(lia)) as (E & Em & Hh).
  exists (digit_t (d * 2 ^ s) + c), (d / 2 ^ (kDigitBits - s)).
  rewrite Z.shiftl_mul_pow2, Z.shiftr_div_pow2 by lia. rewrite Em.
  split; [by apply lor_add; lia|]. split; [done|]. rewrite <- Em. split; [lia|]. split; [|done].
  rewrite Em. assert (0 < 2 ^ (kDigitBits - s)) by (apply pow2_pos; lia).
  pose proof (Z.mod_pos_bound d (2 ^ (kDigitBits - s))).
  unfold is_digit. rewrite (pow_digit_split s) by lia. nia.
Qed.

(** One digit of a right shift: [c] is the top of the digit below. *)
Lemma shr_combine d c s :
  is_digit d -> 0 < s < kDigitBits -> 0 <= c < 2 ^ (kDigitBits - s) ->
  exists r c', Z.lor (digit_t (Z.shiftl d (kDigitBits - s))) c = r /\ Z.shiftr d s = c' /\
    r = d mod 2 ^ s * 2 ^ (kDigitBits - s) + c /\ d = c' * 2 ^ s + d mod 2 ^ s /\
    is_digit r /\ 0 <= c' < 2 ^ (kDigitBits - s).
Proof.
  intros Hd Hs Hc. destruct (shl_digit d (kDigitBits - s)) as (E & Em & Hh); [done|lia|].
  replace (kDigitBits - (kDigitBits - s)) with s in * by lia.
  destruct (mod_split_mul d (2 ^ s)) as [Ed Hm]; [apply pow2_pos; lia|].
  exists (d mod 2 ^ s * 2 ^ (kDigitBits - s) + c), (d / 2 ^ s).
  rewrite Z.shiftl_mul_pow2, Z.shiftr_div_pow2, Em by lia.
  split; [by apply lor_add; lia|]. repeat (split; [done|]). split; [|done].
  unfold is_digit. rewrite (pow_digit_split (kDigitBits - s)) by lia.
  replace (kDigitBits - (kDigitBits - s)) with s by lia. nia.
Qed.

(** ** Rounds *)

Lemma shl_at_spec h h' Z_ X s i j V c :
  heap_ok h -> accumulated h h' Z_ i V c -> 0 <= i < len_ Z_ -> 0 <= j < len_ X ->
  cell h' (digits_ X + j) = cell h (digits_ X + j) -> 0 <= s < kDigitBits -> 0 <= c < 2 ^ s ->
  wp (shl_at Z_ X s i j c)
    (fun c' h'' => 0 <= c' < 2 ^ s /\
       accumulated h h'' Z_ (i + 1) (V + cell h (digits_ X + j) * 2 ^ s * kBase ^ i) c') h'.
Proof.
  intros Hok Ha Hi Hj Hr Hs Hc. unfold shl_at. do 2 digit_step. rewrite Hr.
  destruct (shl_combine (cell h (digits_ X + j)) c s) as (r & c' & -> & -> & E & Hd & Hc');
    [apply Hok|done|done|].
  do 2 digit_step. digit_step. split; [done|].
  eapply accumulated_step; [done|lia|done|exact E|done].
Qed.

(** [2 ^ s] times what is written, and the bits [rem] that fell out, make up
    the digits read so far. *)
Definition shifted_down (h h' : Heap) (Z_ : Digits) (i s rem V c : Z) : Prop :=
  0 <= c < 2 ^ (kDigitBits - s) /\ exists W, accumulated h h' Z_ i W c /\ W * 2 ^ s + rem = V.

Lemma shr_at_spec h h' Z_ X s i j rem V c :
  heap_ok h -> shifted_down h h' Z_ i s rem V c -> 0 <= i < len_ Z_ -> 0 <= j < len_ X ->
  cell h' (digits_ X + j) = cell h (digits_ X + j) -> 0 < s < kDigitBits ->
  wp (shr_at Z_ X s i j c)
    (fun c' h'' => shifted_down h h'' Z_ (i + 1) s rem (V + cell h (digits_ X + j) * kBase ^ (i + 1)) c') h'.
Proof.
  intros Hok (Hc & W & Ha & HV) Hi Hj Hr Hs. unfold shr_at. do 2 digit_step. rewrite Hr.
  set (d := cell h (digits_ X + j)).
  destruct (shr_combine d c s) as (r & c' & -> & -> & Er & Ed & Hd & Hc'); [apply Hok|done|done|].
  do 2 digit_step. digit_step. split; [done|].
  exists (W + (r - c + c' * kBase) * kBase ^ i). split.
  - eapply accumulated_step; [done|lia|done| |reflexivity]. lia.
  - assert (E : (r - c + c' * kBase) * 2 ^ s = d * kBase).
    { rewrite (pow_digit_split s) by lia. revert Er Ed. generalize (d mod 2 ^ s). clear.
      clearbody d. intros m -> ->. ring. }
    rewrite kBase_pow_succ by lia. rewrite <- HV.
    replace ((W + (r - c + c' * kBase) * kBase ^ i) * 2 ^ s)
      with (W * 2 ^ s + (r - c + c' * kBase) * 2 ^ s * kBase ^ i) by ring.
    rewrite E. ring.
Qed.

Lemma shifted_down_start h Z_ x s :
  heap_ok h -> is_digit x -> 0 < s < kDigitBits ->
  shifted_down h h Z_ 0 s (x mod 2 ^ s) x (Z.shiftr x s).
Proof.
  intros Hok Hx Hs. rewrite Z.shiftr_div_pow2 by lia.
  destruct (mod_split_mul x (2 ^ s)) as [E _]; [apply pow2_pos; lia|].
  split.
  - split; [apply Z.div_pos; [apply Hx|apply pow2_pos; lia]|].
    apply Z.div_lt_upper_bound; [apply pow2_pos; lia|].
    rewrite Z.mul_comm, <- pow_digit_split by lia. apply Hx.
  - exists (x / 2 ^ s). split; [|lia]. split; [by apply wrote_refl|]. rewrite sum_0, Z.pow_0_r. lia.
Qed.

Lemma shifted_down_finish h h' Z_ i s rem V c :
  shifted_down h h' Z_ i s rem V c -> 0 <= i < len_ Z_ -> 0 < s < kDigitBits -> 0 <= rem < 2 ^ s ->
  wp (set Z_ i c) (fun _ h'' => accumulated h h'' Z_ (i + 1) (V / 2 ^ s) 0) h'.
Proof.
  intros (Hc & W & Ha & HV) Hi Hs Hrem.
  assert (Hd : is_digit c).
  { unfold is_digit. rewrite (pow_digit_split s) by lia. pose proof (pow2_pos s ltac:(lia)). nia. }
  eapply wp_mono; [by apply (set_carry_spec _ _ _ _ _ _ Ha)|]. intros [] h1 Ha1.
  apply (accumulated_eq _ _ _ _ _ _ _ Ha1). rewrite <- HV.
  symmetry. rewrite Z.div_add_l, Z.div_small by lia. lia.
Qed.

(** ** Shifts by less than a digit *)

Lemma Copy_spec h Z_ X :
  heap_ok h -> in_order Z_ X -> 0 <= len_ X <= len_ Z_ ->
  wp (Copy Z_ X) (fun _ h' => wrote h h' Z_ (len_ Z_) /\ value h' Z_ = value h X) h.
Proof.
  intros Hok HX Hl. unfold Copy.
  destruct (Z.eqb_spec (digits_ Z_) (digits_ X)), (Z.eqb_spec (len_ Z_) (len_ X)); cbn [andb];
    [digit_step; split; [apply (wrote_mono _ _ _ 0); [lia|by apply wrote_refl]|unfold value; congruence]|..];
    digit_step;
    (eapply wp_mono; [apply (copy_tail_spec h h Z_ X 0 (len_ X) 0); try done; try lia;
       rewrite sum_0; by apply accumulated_start|]);
    intros [] h1 Ha; rewrite Z.max_r by lia;
    (eapply wp_mono; [apply (zero_tail_spec h h1); [lia|done]|]); intros [] h2; apply accumulated_done.
Qed.

Lemma LeftShiftBits_spec h Z_ X s :
  heap_ok h -> in_order Z_ X -> 0 <= len_ X <= len_ Z_ -> 0 <= s < kDigitBits ->
  value h X * 2 ^ s < kBase ^ len_ Z_ ->
  wp (LeftShiftBits Z_ X s)
    (fun _ h' => wrote h h' Z_ (len_ Z_) /\ value h' Z_ = value h X * 2 ^ s) h.
Proof.
  intros Hok HX Hl Hs Hfit. unfold LeftShiftBits. do 6 digit_step.
  destruct (Z.eqb_spec s 0) as [-> |Hs0].
  { eapply wp_mono; [by apply Copy_spec|]. intros [] h' [Hw ->]. split; [done|]. lia. }
  digit_step.
  apply (wp_for_up (fun i c h' => 0 <= c < 2 ^ s /\
    accumulated h h' Z_ i (sum (cell h) (digits_ X) i * 2 ^ s) c)); [lia| | |].
  - split; [pose proof (pow2_pos s); lia|]. rewrite sum_0. by apply accumulated_start.
  - intros i c h1 Hi [Hc Ha].
    eapply wp_mono; [eapply shl_at_spec; [done|done|lia|lia| |lia|done]|].
    + eapply wrote_read; [apply (acc_wrote _ _ _ _ _ _ Ha)|done|lia].
    + intros c' h2 [Hc' Ha']. split; [done|]. apply (accumulated_eq _ _ _ _ _ _ _ Ha').
      rewrite (sum_succ (cell h)) by lia. lia.
  - intros c h1 [Hc Ha]. fold (value h X) in Ha.
    assert (Hd : is_digit c).
    { pose proof (Z.pow_lt_mono_r 2 s kDigitBits). unfold is_digit, kBase. lia. }
    digit_step. destruct (Z.ltb_spec (len_ X) (len_ Z_)).
    + digit_step. eapply wp_mono; [apply (set_carry_spec _ _ _ _ _ _ Ha); [lia|done]|]. intros [] h2 Ha2. digit_step.
      eapply wp_mono; [apply (zero_tail_spec h h2); [lia|done]|]. intros [] h3. apply accumulated_done.
    + assert (c = 0) as ->.
      { destruct Ha as [Hw Hv]. replace (len_ Z_) with (len_ X) in Hfit by lia.
        pose proof (sum_range (cell h1) (digits_ Z_) (len_ X) (wrote_ok _ _ _ _ Hw)).
        pose proof (kBase_pow_pos (len_ X)). nia. }
      do 2 digit_step. digit_step.
      eapply wp_mono; [apply (zero_tail_spec h h1); [lia|done]|]. intros [] h3. apply accumulated_done.
Qed.

Lemma RightShiftBits_spec h Z_ X s :
  heap_ok h -> in_order Z_ X -> 0 <= len_ X -> 0 <= len_ Z_ -> 0 <= s < kDigitBits ->
  value h X < kBase ^ len_ Z_ ->
  wp (RightShiftBits Z_ X s)
    (fun _ h' => wrote h h' Z_ (len_ Z_) /\ value h' Z_ = value h X / 2 ^ s) h.
Proof.
  intros Hok HX HlX HlZ Hs Hfit. unfold RightShiftBits. do 4 digit_step.
  digit_step. eapply wp_mono; [by apply Normalize_spec|]. intros X' h0 [-> HN].
  pose proof (normalized_len_le _ _ _ _ Hok HN HlZ Hfit) as HXZ.
  pose proof (in_order_normalized _ _ _ _ HN HX) as HX'. destruct HN as [_ Hl Hv _]. rewrite <- Hv.
  do 2 digit_step. destruct (Z.eqb_spec s 0) as [-> |Hs0].
  { eapply wp_mono; [apply Copy_spec; done || lia|]. intros [] h' [Hw ->].
    split; [done|]. by rewrite Z.pow_0_r, Z.div_1_r. }
  digit_step. destruct (Z.ltb_spec 0 (len_ X')).
  - do 3 digit_step. rewrite Z.add_0_r. set (x0 := cell h (digits_ X')).
    apply (wp_for_up (fun i c h' =>
      shifted_down h h' Z_ i s (x0 mod 2 ^ s) (sum (cell h) (digits_ X') (i + 1)) c)); [lia| | |].
    + replace (sum (cell h) (digits_ X') (0 + 1)) with x0
        by (rewrite sum_succ, sum_0, Z.add_0_r, Z.pow_0_r by lia; unfold x0; lia).
      apply shifted_down_start; [done|apply Hok|lia].
    + intros i c h1 Hi Hd. rewrite (sum_succ _ _ (i + 1)) by lia.
      apply shr_at_spec; [done|done|lia|lia| |lia].
      destruct Hd as (_ & W & Ha & _). eapply wrote_read; [apply (acc_wrote _ _ _ _ _ _ Ha)|done|lia].
    + intros c h1 Hd. rewrite Z.sub_add in Hd. fold (value h X') in Hd. digit_step.
      eapply wp_mono; [eapply shifted_down_finish; [exact Hd|lia|lia|apply Z.mod_pos_bound, pow2_pos; lia]|].
      intros [] h2 Ha. digit_step.
      eapply wp_mono; [apply (zero_tail_spec h h2); [lia|done]|]. intros [] h3. apply accumulated_done.
  - digit_step. eapply wp_mono; [apply (zero_tail_spec h h _ 0 0); [lia|by apply accumulated_start]|].
    intros [] h3 Ha. rewrite (value_empty h X'), Z.div_0_l by (lia || pose proof (pow2_pos s); lia).
    by apply accumulated_done.
Qed.

(** ** Shifts by any distance *)

Lemma shift_split shift :
  0 <= shift -> shift / kDigitBits <= kMaxInt ->
  int32 (shift / kDigitBits) = shift / kDigitBits /\ 0 <= shift / kDigitBits /\
  0 <= shift mod kDigitBits < kDigitBits /\
  2 ^ shift = kBase ^ (shift / kDigitBits) * 2 ^ (shift mod kDigitBits).
Proof.
  intros H0 H1. pose proof kDigitBits_pos. unfold kMaxInt in H1.
  assert (0 <= shift / kDigitBits) by (apply Z.div_pos; lia).
  assert (0 <= shift mod kDigitBits < kDigitBits) by (apply Z.mod_pos_bound; lia).
  split; [apply int32_small; lia|]. split; [done|]. split; [done|].
  unfold kBase. rewrite <- Z.pow_mul_r, <- Z.pow_add_r, <- Z.div_mod by lia. done.
Qed.

Lemma LeftShift_spec h Z_ X shift :
  heap_ok h -> disjoint Z_ X -> 0 <= len_ X -> 0 <= shift -> shift / kDigitBits <= kMaxInt ->
  len_ X + shift / kDigitBits <= len_ Z_ -> value h X * 2 ^ shift < kBase ^ len_ Z_ ->
  wp (LeftShift Z_ X shift)
    (fun _ h' => wrote h h' Z_ (len_ Z_) /\ value h' Z_ = value h X * 2 ^ shift) h.
Proof.
  intros Hok HD HlX Hs0 Hs1 Hl Hfit. unfold LeftShift.
  destruct (shift_split shift Hs0 Hs1) as (-> & Hds & Hbs & Ep). rewrite Ep, Z.mul_assoc in *.
  set (ds := shift / kDigitBits) in *. set (bs := shift mod kDigitBits) in *.
  assert (Hread : forall h1 i V c j, accumulated h h1 Z_ i V c -> 0 <= i <= len_ Z_ -> 0 <= j < len_ X ->
    cell h1 (digits_ X + j) = cell h (digits_ X + j)).
  { intros h1 i V c j [Hw _] Hi Hj. apply (wrote_frame _ _ _ _ Hw). unfold disjoint in HD. lia. }
  digit_step. apply (wp_for_up (fun i _ h' => accumulated h h' Z_ i 0 0)); [lia|by apply accumulated_start| |].
  { intros i u h1 Hi Ha. apply (set_carry_spec _ _ _ _ _ _ Ha); [lia|apply zero_is_digit]. }
  intros [] h1 Ha.
  assert (Hstep : forall i, ds <= i -> sum (cell h) (digits_ X) (i - ds) * kBase ^ ds +
    cell h (digits_ X + (i - ds)) * kBase ^ i = sum (cell h) (digits_ X) (i + 1 - ds) * kBase ^ ds).
  { intros i Hi. replace (i + 1 - ds) with (i - ds + 1) by lia. rewrite sum_succ by lia.
    replace (kBase ^ i) with (kBase ^ (i - ds) * kBase ^ ds)
      by (rewrite <- Z.pow_add_r by lia; f_equal; lia). ring. }
  destruct (Z.eqb_spec bs 0) as [E|E].
  - digit_step. apply (wp_for_up (fun i _ h' =>
      accumulated h h' Z_ i (sum (cell h) (digits_ X) (i - ds) * kBase ^ ds) 0)); [lia| | |].
    + by rewrite Z.sub_diag, sum_0.
    + intros i u h2 Hi Ha2. do 3 digit_step. rewrite (Hread _ _ _ _ _ Ha2) by lia.
      eapply (accumulated_step _ _ _ _ _ _ _ (cell h (digits_ X + (i - ds))));
        [done|lia|apply Hok|lia|by rewrite Hstep by lia].
    + intros [] h2 Ha2. rewrite Z.add_simpl_r in Ha2. fold (value h X) in Ha2.
      eapply wp_mono; [apply (zero_tail_spec h h2); [lia|done]|]. intros [] h3 Ha3.
      apply accumulated_done in Ha3. by rewrite E, Z.pow_0_r, Z.mul_1_r.
  - digit_step. apply (wp_for_up (fun i c h' => 0 <= c < 2 ^ bs /\
      accumulated h h' Z_ i (sum (cell h) (digits_ X) (i - ds) * kBase ^ ds * 2 ^ bs) c)); [lia| | |].
    + rewrite Z.sub_diag, sum_0. split; [pose proof (pow2_pos bs); lia|done].
    + intros i c h2 Hi [Hc Ha2].
      eapply wp_mono; [eapply shl_at_spec; [done|done|lia|lia|apply (Hread _ _ _ _ _ Ha2); lia|lia|done]|].
      intros c' h3 [Hc' Ha3]. split; [done|]. apply (accumulated_eq _ _ _ _ _ _ _ Ha3).
      rewrite <- Hstep by lia. ring.
    + intros c h2 [Hc Ha2]. rewrite Z.add_simpl_r in Ha2. fold (value h X) in Ha2.
      assert (Hd : is_digit c).
      { pose proof (Z.pow_lt_mono_r 2 bs kDigitBits). unfold is_digit, kBase. lia. }
      digit_step. destruct (Z.eqb_spec c 0) as [-> |Hc0]; cbn [negb].
      * digit_step. eapply wp_mono; [apply (zero_tail_spec h h2); [lia|done]|].
        intros [] h3. apply accumulated_done.
      * assert (len_ X + ds < len_ Z_).
        { destruct (Z.eq_dec (len_ X + ds) (len_ Z_)) as [El|]; [exfalso|lia]. destruct Ha2 as [Hw Hv].
          rewrite El in Hv. rewrite <- Hv in Hfit.
          pose proof (sum_range (cell h2) (digits_ Z_) (len_ Z_) (wrote_ok _ _ _ _ Hw)).
          pose proof (kBase_pow_pos (len_ Z_)). nia. }
        digit_step. eapply wp_mono; [apply (set_carry_spec _ _ _ _ _ _ Ha2); [lia|done]|].
        intros [] h3 Ha3. digit_step.
        eapply wp_mono; [apply (zero_tail_spec h h3); [lia|done]|]. intros [] h4. apply accumulated_done.
Qed.

(** The digits from [n] on denote the quotient by [kBase ^ n]. *)
Lemma sum_split_div f p m n :
  (forall a, is_digit (f a)) -> 0 <= m <= n ->
  sum f p n / kBase ^ m = sum f (p + m) (n - m) /\ sum f p n mod kBase ^ m = sum f p m.
Proof.
  intros Hf Hm. replace n with (m + (n - m)) at 1 3 by lia. rewrite sum_split by lia.
  pose proof (sum_range f p m Hf ltac:(lia)). pose proof (kBase_pow_pos m ltac:(lia)).
  rewrite Z.add_comm, Z.mul_comm. split.
  - rewrite Z.div_add_l, Z.div_small by lia. lia.
  - rewrite Z.add_comm, Z_mod_plus_full, Z.mod_small by lia. done.
Qed.

Lemma value_shiftr h X ds bs :
  heap_ok h -> 0 <= ds <= len_ X -> 0 <= bs ->
  value h X / (kBase ^ ds * 2 ^ bs) = value h (mkDigits (digits_ X + ds) (len_ X - ds)) / 2 ^ bs.
Proof.
  intros Hok Hds Hbs. unfold value. cbn [digits_ len_].
  pose proof (kBase_pow_pos ds ltac:(lia)). pose proof (pow2_pos bs Hbs).
  rewrite <- Z.div_div by lia. by rewrite (proj1 (sum_split_div _ _ ds _ Hok Hds)).
Qed.

Lemma RightShift_spec h Z_ X shift mrd :
  heap_ok h -> in_order Z_ X -> 0 <= shift -> 0 <= shift / kDigitBits < len_ X ->
  shift / kDigitBits <= kMaxInt -> len_ X - shift / kDigitBits <= len_ Z_ ->
  (mrd = true -> value h X / 2 ^ shift + 1 < kBase ^ len_ Z_) ->
  wp (RightShift Z_ X shift mrd)
    (fun _ h' => wrote h h' Z_ (len_ Z_) /\
       value h' Z_ = value h X / 2 ^ shift + (if mrd then 1 else 0)) h.
Proof.
  intros Hok HX Hs0 Hds Hs1 Hl Hround. unfold RightShift.
  destruct (shift_split shift Hs0 Hs1) as (-> & _ & Hbs & Ep). rewrite Ep in *.
  set (ds := shift / kDigitBits) in *. set (bs := shift mod kDigitBits) in *.
  rewrite value_shiftr in * by (done || lia).
  set (U := mkDigits (digits_ X + ds) (len_ X - ds)) in *. digit_step.
  assert (Hread : forall h1 i V c j, accumulated h h1 Z_ i V c -> i <= j -> ds + j < len_ X ->
    cell h1 (digits_ U + j) = cell h (digits_ U + j)).
  { intros h1 i V c j [Hw _] Hi Hj. apply (wrote_frame _ _ _ _ Hw). cbn. unfold in_order in HX. lia. }
  apply (wp_mono _ (fun i h1 => i = len_ U /\ accumulated h h1 Z_ i (value h U / 2 ^ bs) 0)).
  - destruct (Z.eqb_spec bs 0) as [E|E].
    + digit_step. apply (wp_for_up (fun i _ h' => accumulated h h' Z_ i (sum (cell h) (digits_ U) i) 0)).
      * lia.
      * by apply accumulated_start.
      * intros i u h1 Hi Ha. do 3 digit_step.
        replace (digits_ X + (i + ds)) with (digits_ U + i) by (cbn; lia).
        rewrite (Hread _ _ _ _ _ Ha) by lia.
        eapply (accumulated_step _ _ _ _ _ _ _ (cell h (digits_ U + i)));
          [done|lia|apply Hok|lia|by rewrite sum_succ by lia].
      * intros [] h1 Ha. digit_step. rewrite Z.max_r by lia. split; [done|].
        by rewrite E, Z.pow_0_r, Z.div_1_r.
    + do 3 digit_step. apply (wp_for_up (fun i c h' =>
        shifted_down h h' Z_ i bs (cell h (digits_ U) mod 2 ^ bs) (sum (cell h) (digits_ U) (i + 1)) c)).
      * lia.
      * replace (sum (cell h) (digits_ U) (0 + 1)) with (cell h (digits_ U))
          by (rewrite sum_succ, sum_0, Z.add_0_r, Z.pow_0_r by lia; lia).
        apply shifted_down_start; [done|apply Hok|lia].
      * intros i c h1 Hi Hd. rewrite (sum_succ _ _ (i + 1)) by lia.
        replace (digits_ U + (i + 1)) with (digits_ X + (i + ds + 1)) by (cbn; lia).
        apply shr_at_spec; [done|done|lia|lia| |lia]. destruct Hd as (_ & W & Ha & _).
        replace (digits_ X + (i + ds + 1)) with (digits_ U + (i + 1)) by (cbn; lia).
        apply (Hread _ _ _ _ _ Ha); lia.
      * intros c h1 Hd. rewrite Z.sub_add in Hd. fold (len_ U) (value h U) in Hd.
        rewrite Z.max_r by lia. digit_step.
        eapply wp_mono; [eapply shifted_down_finish; [exact Hd|lia|lia|apply Z.mod_pos_bound, pow2_pos; lia]|].
        intros [] h2 Ha. digit_step. rewrite Z.sub_add in *. done.
  - intros i h1 [-> Ha]. digit_step.
    eapply wp_mono; [apply (zero_tail_spec h h1); [cbn; lia|done]|]. intros [] h2 Ha2.
    apply accumulated_done in Ha2 as [Hw Hv]. destruct mrd; [|digit_step; split; [done|lia]].
    eapply wp_mono; [apply (AddDigit_spec h2 Z_ 1); [apply Hw|lia|by apply bit_is_digit|lia|]|].
    + rewrite Hv. by apply Hround.
    + intros [] h3 [Hw3 Hv3]. split; [by apply (wrote_trans _ h2)|]. by rewrite Hv3, Hv.
Qed.

(** ** Rounding *)

Lemma any_digit_spec h X n :
  heap_ok h -> 0 <= n <= len_ X ->
  wp (any_digit X n) (fun b h' => h' = h /\ b = negb (sum (cell h) (digits_ X) n =? 0)) h.
Proof.
  intros Hok Hn. unfold any_digit.
  apply (wp_loop (fun i h' => h' = h /\ 0 <= i <= n /\ sum (cell h) (digits_ X) i = 0)
    (fun i _ => Z.to_nat (n - i))); [|split; [done|split; [lia|done]]|lia].
  intros i h' (-> & Hi & Hs). destruct (Z.ltb_spec i n).
  - do 3 digit_step. destruct (Z.eqb_spec (cell h (digits_ X + i)) 0) as [E|E]; cbn [negb].
    + split; [|lia]. split; [done|]. split; [lia|]. rewrite sum_succ, E by lia. lia.
    + split; [done|]. symmetry. apply negb_true_iff, Z.eqb_neq. intros E0.
      apply E, (sum_eq_0 _ _ n); [done|done|lia].
  - digit_step. split; [done|]. replace n with i by lia. by rewrite Hs.
Qed.

Lemma mask_land x bs :
  0 <= bs < kDigitBits -> Z.land x (digit_t (digit_t (Z.shiftl 1 bs) - 1)) = x mod 2 ^ bs.
Proof.
  intros Hbs. assert (Hlt : 2 ^ bs < kBase) by (apply Z.pow_lt_mono_r; lia).
  pose proof (pow2_pos bs ltac:(lia)). rewrite Z.shiftl_1_l.
  rewrite (digit_t_small (2 ^ bs)), digit_t_small by (unfold is_digit; lia).
  rewrite <- Z.land_ones by lia. f_equal. rewrite Z.ones_equiv. lia.
Qed.

(** The bits that are shifted out: those of the lower digits and of one more. *)
Lemma value_mod h X ds bs :
  heap_ok h -> 0 <= ds < len_ X -> 0 <= bs < kDigitBits ->
  value h X mod (kBase ^ ds * 2 ^ bs) =
    sum (cell h) (digits_ X) ds + kBase ^ ds * (cell h (digits_ X + ds) mod 2 ^ bs).
Proof.
  intros Hok Hds Hbs. pose proof (kBase_pow_pos ds ltac:(lia)). pose proof (pow2_pos bs ltac:(lia)).
  unfold value. rewrite Z.rem_mul_r by lia.
  destruct (sum_split_div (cell h) (digits_ X) ds (len_ X) Hok ltac:(lia)) as [-> ->].
  do 2 f_equal. replace (len_ X - ds) with (1 + (len_ X - ds - 1)) by lia.
  rewrite sum_split, Z.pow_1_r by lia. change 1 with (0 + 1) at 1. rewrite sum_succ, sum_0 by lia.
  rewrite Z.add_0_r, Z.pow_0_r, Z.mul_1_r, Z.add_0_l, (pow_digit_split bs) by lia.
  rewrite (Z.mul_comm (2 ^ (kDigitBits - bs))), <- Z.mul_assoc, (Z.mul_comm (2 ^ bs)).
  apply Z_mod_plus_full.
Qed.

Lemma quotient_bound v n s : 0 <= v < kBase ^ n -> 0 <= n -> 0 <= s -> 2 ^ s * (v / 2 ^ s) < kBase ^ n.
Proof. intros. pose proof (Z.mul_div_le v (2 ^ s)). pose proof (pow2_pos s). lia. Qed.

Lemma digit_ismax_spec x : is_digit x -> digit_ismax x = (x =? kBase - 1).
Proof.
  intros Hx. unfold digit_ismax, is_digit in *.
  replace (Z.lnot x) with (- x - 1) by (unfold Z.lnot; lia).
  rewrite (digit_t_eq (-1)) by lia. bool_lia.
Qed.

(** Rounding up fits the length that [RightShift_ResultLength] computes. *)
Lemma rounding_fits h X ds bs :
  heap_ok h -> 0 <= ds < len_ X -> 0 <= bs < kDigitBits ->
  (bs = 0 -> cell h (digits_ X + (len_ X - 1)) <> kBase - 1) ->
  value h X / (kBase ^ ds * 2 ^ bs) + 1 < kBase ^ (len_ X - ds).
Proof.
  intros Hok Hds Hbs Hm. rewrite value_shiftr by (done || lia).
  set (U := mkDigits (digits_ X + ds) (len_ X - ds)).
  assert (HU : 0 <= value h U < kBase ^ len_ U) by (apply value_range; [done|cbn; lia]).
  pose proof kBase_pos. pose proof (kBase_pow_pos (len_ X - ds) ltac:(lia)).
  replace (kBase ^ (len_ X - ds)) with (kBase ^ len_ U) by done.
  destruct (Z.eq_dec bs 0) as [-> |Hb].
  - rewrite Z.pow_0_r, Z.div_1_r. unfold value in *. rewrite sum_pred in * by (cbn; lia).
    pose proof (sum_range (cell h) (digits_ U) (len_ U - 1) Hok ltac:(cbn; lia)).
    assert (Hp : kBase ^ len_ U = kBase ^ (len_ U - 1) * kBase)
      by (rewrite <- kBase_pow_succ by (cbn; lia); f_equal; lia).
    specialize (Hm eq_refl). replace (digits_ X + (len_ X - 1)) with (digits_ U + (len_ U - 1)) in Hm by (cbn; lia).
    pose proof (Hok (digits_ U + (len_ U - 1))) as Hd. unfold is_digit in Hd.
    pose proof (kBase_pow_pos (len_ U - 1) ltac:(cbn; lia)). rewrite Hp. nia.
  - pose proof (quotient_bound (value h U) (len_ U) bs HU ltac:(cbn; lia) ltac:(lia)).
    pose proof (Z.pow_le_mono_r 2 1 bs ltac:(lia) ltac:(lia)).
    assert (kBase <= kBase ^ len_ U).
    { rewrite <- (Z.pow_1_r kBase) at 1. apply kBase_pow_mono. cbn. lia. }
    assert (0 <= value h U / 2 ^ bs) by (apply Z.div_pos; [lia|apply pow2_pos; lia]). nia.
Qed.

(** [LeftShift_ResultLength] is the number of digits of the result. *)
Lemma LeftShift_ResultLength_spec h X shift r :
  heap_ok h -> 0 < len_ X -> cell h (digits_ X + (len_ X - 1)) <> 0 ->
  0 <= shift -> shift / kDigitBits <= kMaxInt ->
  r = LeftShift_ResultLength (len_ X) (cell h (digits_ X + (len_ X - 1))) shift ->
  len_ X + shift / kDigitBits <= r /\ kBase ^ (r - 1) <= value h X * 2 ^ shift < kBase ^ r.
Proof.
  intros Hok Hl Ht Hs0 Hs1 ->. unfold LeftShift_ResultLength.
  destruct (shift_split shift Hs0 Hs1) as (-> & Hds & Hbs & ->).
  set (ds := shift / kDigitBits) in *. set (bs := shift mod kDigitBits) in *.
  unfold value. rewrite sum_pred by done. pose proof (Hok (digits_ X + (len_ X - 1))) as Hd. unfold is_digit in Hd.
  pose proof (sum_range (cell h) (digits_ X) (len_ X - 1) Hok ltac:(lia)) as Hlo.
  set (t := cell h _) in *. set (lo := sum _ _ _) in *.
  pose proof (kBase_pow_pos (len_ X - 1) ltac:(lia)) as HP. pose proof (kBase_pow_pos ds Hds) as HD.
  assert (Ep : kBase ^ (len_ X + ds) = kBase ^ (len_ X - 1) * kBase * kBase ^ ds)
    by (rewrite <- kBase_pow_succ, <- Z.pow_add_r by lia; f_equal; lia).
  assert (Ep' : kBase ^ (len_ X + ds - 1) = kBase ^ (len_ X - 1) * kBase ^ ds)
    by (rewrite <- Z.pow_add_r by lia; f_equal; lia).
  set (P := kBase ^ (len_ X - 1)) in *. set (D := kBase ^ ds) in *. pose proof kBase_pos.
  assert (Hv : P <= lo + t * P < P * kBase) by nia. set (V := lo + t * P) in *.
  destruct (Z.eqb_spec bs 0) as [->|Hb]; cbn [negb andb].
  { rewrite Z.add_0_r, Z.pow_0_r, Ep, Ep'. split; [lia|]. split; nia. }
  assert (E2 : kBase = 2 ^ (kDigitBits - bs) * 2 ^ bs)
    by (unfold kBase; rewrite <- Z.pow_add_r by lia; f_equal; lia).
  rewrite Z.shiftr_div_pow2 by lia. pose proof (pow2_pos bs ltac:(lia)) as H2.
  assert (H3 : 0 < 2 ^ (kDigitBits - bs)) by (apply pow2_pos; lia).
  set (Q := 2 ^ (kDigitBits - bs)) in *. set (S_ := 2 ^ bs) in *.
  destruct (Z.eqb_spec (t / Q) 0) as [E|E]; cbn [negb].
  - rewrite Z.add_0_r, Ep, Ep'. split; [lia|].
    assert (t < Q) by (apply Z.div_small_iff in E; lia).
    assert (P <= V * S_) by nia. assert (V * S_ < P * kBase) by (subst V; nia).
    replace (V * (D * S_)) with (V * S_ * D) by ring. split; nia.
  - replace (len_ X + ds + 1 - 1) with (len_ X + ds) by lia. rewrite kBase_pow_succ, Ep by lia. split; [lia|].
    assert (Q <= t).
    { destruct (Z_lt_le_dec t Q); [|done]. rewrite Z.div_small in E by lia. done. }
    assert (Q * S_ <= t * S_) by nia. assert (S_ <= kBase) by nia.
    assert (P * kBase <= V * S_) by (subst V; nia).
    assert (V * S_ < P * kBase * kBase).
    { apply (Z.lt_le_trans _ (P * kBase * S_)); [apply Z.mul_lt_mono_pos_r; [done|apply Hv]|].
      apply Z.mul_le_mono_nonneg_l; [|done]. apply Z.mul_nonneg_nonneg; lia. }
    replace (V * (D * S_)) with (V * S_ * D) by ring.
    replace (P * kBase * D * kBase) with (P * kBase * kBase * D) by ring.
    split; [apply Z.mul_le_mono_nonneg_r; lia|by apply Z.mul_lt_mono_pos_r].
Qed.

Lemma RightShift_ResultLength_none h X sign shift :
  0 <= shift -> shift / kDigitBits <= kMaxInt -> len_ X <= shift / kDigitBits ->
  wp (RightShift_ResultLength X sign shift) (fun r h' => h' = h /\ r = (0, false)) h.
Proof.
  intros Hs0 Hs1 Hl. unfold RightShift_ResultLength. destruct (shift_split shift Hs0 Hs1) as (-> & _).
  destruct (Z.leb_spec (len_ X - shift / kDigitBits) 0); [by digit_step|lia].
Qed.

Lemma RightShift_ResultLength_spec h X sign shift :
  heap_ok h -> 0 <= shift -> shift / kDigitBits <= kMaxInt -> shift / kDigitBits < len_ X ->
  wp (RightShift_ResultLength X sign shift)
    (fun '(len, mrd) h' => h' = h /\
       mrd = sign && negb (value h X mod 2 ^ shift =? 0) /\
       len_ X - shift / kDigitBits <= len <= len_ X /\
       (mrd = true -> value h X / 2 ^ shift + 1 < kBase ^ len)) h.
Proof.
  intros Hok Hs0 Hs1 Hl. unfold RightShift_ResultLength.
  destruct (shift_split shift Hs0 Hs1) as (-> & Hds & Hbs & Ep). rewrite Ep.
  set (ds := shift / kDigitBits) in *. set (bs := shift mod kDigitBits) in *.
  destruct (Z.leb_spec (len_ X - ds) 0); [lia|]. digit_step.
  apply (wp_mono _ (fun mrd h' => h' = h /\
    mrd = sign && negb (value h X mod (kBase ^ ds * 2 ^ bs) =? 0))).
  - destruct sign; [|by digit_step]. do 2 digit_step. rewrite mask_land, value_mod by (done || lia).
    pose proof (sum_range (cell h) (digits_ X) ds Hok Hds). pose proof (kBase_pow_pos ds Hds).
    pose proof (Z.mod_pos_bound (cell h (digits_ X + ds)) (2 ^ bs) (pow2_pos bs ltac:(lia))).
    destruct (Z.eqb_spec (cell h (digits_ X + ds) mod 2 ^ bs) 0) as [E|E]; cbn [negb andb].
    + eapply wp_mono; [apply any_digit_spec; [done|lia]|]. intros b h' [-> ->]. split; [done|].
      by rewrite E, Z.mul_0_r, Z.add_0_r.
    + digit_step. split; [done|]. symmetry. apply negb_true_iff, Z.eqb_neq. nia.
  - intros mrd h' [-> Hmrd]. digit_step.
    apply (wp_mono _ (fun len h' => h' = h /\ len_ X - ds <= len <= len_ X /\
      (mrd = true -> value h X / (kBase ^ ds * 2 ^ bs) + 1 < kBase ^ len))).
    + destruct mrd; cbn [andb]; [|digit_step; split; [done|]; split; [lia|done]].
      destruct (Z.eqb_spec bs 0) as [E|E].
      * do 2 digit_step. digit_step. split; [done|]. rewrite digit_ismax_spec by apply Hok.
        destruct (Z.eqb_spec (cell h (digits_ X + (len_ X - 1))) (kBase - 1)).
        -- assert (ds <> 0).
           { intros ->. rewrite E, Z.pow_0_r, Z.mod_1_r, andb_false_r in Hmrd. done. }
           split; [lia|]. intros _. rewrite kBase_pow_succ, value_shiftr by (done || lia).
           pose proof (value_range h (mkDigits (digits_ X + ds) (len_ X - ds)) Hok ltac:(cbn; lia)) as Hr.
           cbn [len_] in Hr. rewrite E, Z.pow_0_r, Z.div_1_r. pose proof kBase_pos. nia.
        -- split; [lia|]. intros _. by apply rounding_fits; (done || lia).
      * digit_step. split; [done|]. split; [lia|]. intros _. apply rounding_fits; (done || lia).
    + intros len h' (-> & Hlen & Hfit). digit_step.
      apply wp_DCHECK; [rewrite Hmrd; by destruct sign, (_ =? _)|]. digit_step. done.
Qed.

End Shifts.
