(* ===== verification/BigIntDiv.v ===== *)
(** * Schoolbook division

    [src/bigint/div-schoolbook.cc], with the scratch memory of
    [src/bigint/bigint-internal.h] and the shifted copy of the divisor of
    [src/bigint/div-helpers.h]. *)

From stdpp Require Import base list numbers.
From Stdlib Require Import ZArith Lia Bool.
From S2P Require Import Prelude.
From S2P Require Import BigIntDigits.
From S2P Require Import BigIntVectors.
From S2P Require Import BigIntMemory.
From S2P Require Import BigIntArithmetic.
From S2P Require Import BigIntMul.
From S2P Require Import BigIntShift.

Local Open Scope Z_scope.
Local Open Scope prog_scope.

Section Division.
Context {T : DigitTarget} {P : Platform}.
Local Abbreviation HM := (M Heap).

(** ** Division by one digit *)

Definition digit_divM (high low divisor : Z) : HM (Z * Z) :=
  match digit_div high low divisor with
  | Some r => ret r
  | None => undefined
  end.

(** One quotient digit, with the remainder carried down. *)
Definition divide_at (Q A : Digits) (b i remainder : Z) : HM Z :=
  let* a := get A i in
  let* (q, remainder) := digit_divM remainder a b in
  set Q i q ;;; ret remainder.

(** Gives back the remainder. *)
Definition DivideSingle (Q A : Digits) (b : Z) : HM Z :=
  DCHECK (negb (b =? 0)) ;;;
  DCHECK (0 <? len_ A) ;;;
  let length := len_ A in
  if negb (len_ Q =? 0) then
    let* top := get A (length - 1) in
    if b <=? top then
      DCHECK (len_ A <=? len_ Q) ;;;
      let* remainder := for_down (length - 1) 0 (divide_at Q A b) 0 in
      for_up length (len_ Q) (zero_at Q) tt ;;; ret remainder
    else
      DCHECK (len_ A - 1 <=? len_ Q) ;;;
      let* remainder := for_down (length - 2) 0 (divide_at Q A b) top in
      for_up (length - 1) (len_ Q) (zero_at Q) tt ;;; ret remainder
  else
    for_down (length - 1) 0
      (fun i remainder =>
         let* a := get A i in
         let* (_, remainder) := digit_divM remainder a b in ret remainder)
      0.

(** ** Scratch memory *)

(** Memory that is released at the end of its scope. *)
Definition with_scratch {A} (n : Z) (body : Digits -> HM A) : HM A :=
  let* base := gets free in
  modify (fun h => mkHeap (cell h) (base + n) (proc h)) ;;;
  let* r := body (mkDigits base n) in
  modify (fun h => mkHeap (cell h) base (proc h)) ;;;
  ret r.

(** [ShiftedDigits] with the default arguments: [original] itself when its top
    bit is set, a shifted copy of it otherwise. *)
Definition with_shifted {A} (original : Digits) (body : Digits -> Z -> HM A) : HM A :=
  let* m := msd original in
  let shift := CountLeadingZeros m in
  if shift =? 0 then body original shift
  else
    with_scratch (len_ original) (fun rw_view =>
      LeftShiftBits rw_view original shift ;;; body rw_view shift).

(** ** Division by several digits *)

Definition InplaceAdd (Z_ X : Digits) : HM Z := AddAndReturnCarry Z_ Z_ X.
Definition InplaceSub (Z_ X : Digits) : HM Z := SubtractAndReturnBorrow Z_ Z_ X.

Definition ProductGreaterThan (factor1 factor2 high low : Z) : bool :=
  let '(result_low, result_high) := digit_mul factor1 factor2 in
  (high <? result_high) || ((result_high =? high) && (low <? result_low)).

Definition QLengthOK (Q A B : Digits) : HM bool :=
  let* top := slice A (len_ A - len_ B) (len_ B) in
  let* ge := GreaterThanOrEqual top B in
  ret (if ge : bool then len_ A - len_ B + 1 <=? len_ Q else len_ A - len_ B <=? len_ Q).

(** Lowers the estimate while it is seen to be too big. The divisor has its
    top bit set, so the loop is left after at most two rounds. *)
Fixpoint refine_qhat (fuel : nat) (vn1 vn2 ujn2 qhat rhat : Z) : option Z :=
  match fuel with
  | O => None
  | S n =>
      if ProductGreaterThan qhat vn2 rhat ujn2 then
        let qhat := digit_t (qhat - 1) in
        let prev_rhat := rhat in
        let rhat := digit_t (rhat + vn1) in
        if rhat <? prev_rhat then Some qhat else refine_qhat n vn1 vn2 ujn2 qhat rhat
      else Some qhat
  end.

Definition kRefineRounds : nat := 3.

(** Step D3: the estimated quotient digit for index [j]. *)
Definition estimate_qhat (U B : Digits) (n j vn1 : Z) : HM Z :=
  let* ujn := get U (j + n) in
  if negb (ujn =? vn1) then
    let* u1 := get U (j + n - 1) in
    let* (qhat, rhat) := digit_divM ujn u1 vn1 in
    let* vn2 := get B (n - 2) in
    let* ujn2 := get U (j + n - 2) in
    match refine_qhat kRefineRounds vn1 vn2 ujn2 qhat rhat with
    | Some qhat => ret qhat
    | None => fun _ => OutOfFuel
    end
  else ret (digit_t (-1)).

(** Step D4: subtracts the multiple of the divisor, and gives back the
    quotient digit, corrected by one when there was a borrow. *)
Definition subtract_multiple (U B qhatv : Digits) (n j qhat : Z) : HM Z :=
  (if qhat =? 0 then Clear qhatv else MultiplySingle qhatv B qhat) ;;;
  let* Uj := plus U j in
  let* c := InplaceSub Uj qhatv in
  if negb (c =? 0) then
    let* Uj := plus U j in
    let* c := InplaceAdd Uj B in
    let* u := get U (j + n) in
    set U (j + n) (digit_t (u + c)) ;;;
    ret (digit_t (qhat - 1))
  else ret qhat.

Definition quotient_digit (Q U B qhatv : Digits) (n vn1 j : Z) (_ : unit) : HM unit :=
  let* qhat := estimate_qhat U B n j vn1 in
  let* qhat := subtract_multiple U B qhatv n j qhat in
  if negb (len_ Q =? 0) then
    if len_ Q <=? j then DCHECK (qhat =? 0) else set Q j qhat
  else ret tt.

Definition DivideSchoolbook (Q R A B : Digits) : HM unit :=
  DCHECK (2 <=? len_ B) ;;;
  DCHECK (len_ B <=? len_ A) ;;;
  let* q_ok := (if len_ Q =? 0 then ret true else QLengthOK Q A B) in
  DCHECK q_ok ;;;
  DCHECK ((len_ R =? 0) || (len_ B <=? len_ R)) ;;;
  let n := len_ B in
  let m := len_ A - n in
  with_scratch (n + 1) (fun qhatv =>
    with_shifted B (fun B shift =>
      with_scratch (len_ A + 1) (fun U =>
        LeftShiftBits U A shift ;;;
        let* vn1 := get B (n - 1) in
        for_down m 0 (quotient_digit Q U B qhatv n vn1) tt ;;;
        (if negb (len_ R =? 0) then RightShiftBits R U shift else ret tt) ;;;
        for_up (m + 1) (len_ Q) (zero_at Q) tt))).

(** ** Specification of the division by one digit *)

Context {TOK : DigitTargetOK T}.

Lemma wp_digit_divM high low d (Q : Z * Z -> Heap -> Prop) h :
  0 <= high < d -> is_digit low -> is_digit d ->
  (forall q r, high * kBase + low = q * d + r -> 0 <= r < d -> is_digit q -> Q (q, r) h) ->
  wp (digit_divM high low d) Q h.
Proof.
  intros Hh Hl Hd HQ. unfold digit_divM. rewrite digit_div_spec by done. apply wp_ret, HQ.
  - apply mod_split_mul. lia.
  - apply Z.mod_pos_bound. lia.
  - unfold is_digit in *. split; [apply Z.div_pos; nia|apply Z.div_lt_upper_bound; nia].
Qed.

(** Above index [i] the quotient digits written so far and the remainder make
    up the digits of [A]. *)
Definition divided_down (h : Heap) (Q A : Digits) (b nq i r : Z) (h' : Heap) : Prop :=
  0 <= r < b /\ exists W, written_down h h' Q (i + 1) nq W /\
    W * b + r = sum (cell h) (digits_ A + (i + 1)) (len_ A - (i + 1)).

Lemma divide_at_spec h Q A b nq i r h' :
  heap_ok h -> down_order Q A -> is_digit b -> 0 <= i < nq -> nq <= len_ Q -> nq <= len_ A ->
  divided_down h Q A b nq i r h' ->
  wp (divide_at Q A b i r) (divided_down h Q A b nq (i - 1)) h'.
Proof.
  intros Hok HQA Hb Hi HnQ HnA (Hr & W & Hw & HW). unfold divide_at. do 2 digit_step.
  rewrite (written_down_read _ _ _ _ _ _ _ _ Hw HQA) by lia. digit_step.
  apply wp_digit_divM; [done|apply Hok|done|]. intros q r' E Hr' Hq. do 2 digit_step. digit_step.
  split; [done|]. exists (q + kBase * W). rewrite Z.sub_add. split.
  - pose proof (written_down_step _ _ _ _ _ _ q Hw ltac:(lia) Hq) as H. by rewrite Z.add_simpl_r in H.
  - rewrite (sum_cons _ (digits_ A + i)) by lia.
    replace (digits_ A + i + 1) with (digits_ A + (i + 1)) by lia.
    replace (len_ A - i - 1) with (len_ A - (i + 1)) by lia. rewrite <- HW. lia.
Qed.

Lemma divided_down_result h Q A b nq r h' :
  divided_down h Q A b nq (-1) r h' -> 0 < b ->
  accumulated h h' Q nq (value h A / b) 0 /\ r = value h A mod b.
Proof.
  intros (Hr & W & Hw & HW) Hb. change (-1 + 1) with 0 in *.
  rewrite Z.add_0_r, Z.sub_0_r in HW. fold (value h A) in HW.
  rewrite <- (Z.div_unique (value h A) b W r), <- (Z.mod_unique (value h A) b W r) by lia.
  split; [by apply written_down_accumulated|done].
Qed.

Lemma DivideSingle_spec h Q A b :
  heap_ok h -> down_order Q A -> is_digit b -> b <> 0 -> 0 < len_ A -> 0 <= len_ Q ->
  (len_ Q <> 0 -> value h A / b < kBase ^ (len_ A - 1) /\ len_ A - 1 <= len_ Q \/ len_ A <= len_ Q) ->
  wp (DivideSingle Q A b)
    (fun r h' => r = value h A mod b /\ wrote h h' Q (len_ Q) /\
       (len_ Q <> 0 -> value h' Q = value h A / b)) h.
Proof.
  intros Hok HQA Hb Hb0 HlA HlQ Hfit. unfold DivideSingle. assert (Hbp : 0 < b) by (unfold is_digit in Hb; lia).
  digit_step. apply wp_DCHECK; [by apply negb_true_iff, Z.eqb_neq|]. do 2 digit_step.
  destruct (Z.eqb_spec (len_ Q) 0) as [E|E]; cbn [negb].
  { apply (wp_for_down (fun i r h' => h' = h /\ 0 <= r < b /\ exists W,
      W * b + r = sum (cell h) (digits_ A + (i + 1)) (len_ A - (i + 1)))).
    - lia.
    - split; [done|]. split; [lia|]. exists 0. rewrite Z.sub_add, Z.sub_diag, sum_0. lia.
    - intros i r h' Hi (-> & Hr & W & HW). do 2 digit_step. digit_step.
      apply wp_digit_divM; [done|apply Hok|done|]. intros q r' Eq Hr' _. digit_step.
      split; [done|]. split; [done|]. exists (q + kBase * W). rewrite Z.sub_add.
      rewrite (sum_cons _ (digits_ A + i)) by lia.
      replace (digits_ A + i + 1) with (digits_ A + (i + 1)) by lia.
      replace (len_ A - i - 1) with (len_ A - (i + 1)) by lia. rewrite <- HW. lia.
    - intros r h' (-> & Hr & W & HW). rewrite Z.sub_add, Z.add_0_r, Z.sub_0_r in HW.
      fold (value h A) in HW. split; [apply (Z.mod_unique _ _ W); lia|]. rewrite E.
      split; [by apply wrote_refl|done]. }
  specialize (Hfit E). do 2 digit_step.
  assert (Htail : forall nq r h', divided_down h Q A b nq (-1) r h' -> 0 <= nq <= len_ Q ->
    wp (for_up nq (len_ Q) (zero_at Q) tt ;;; ret r)
      (fun r h' => r = value h A mod b /\ wrote h h' Q (len_ Q) /\
         (len_ Q <> 0 -> value h' Q = value h A / b)) h').
  { intros nq r h' Hd Hnq. destruct (divided_down_result _ _ _ _ _ _ _ Hd Hbp) as [Ha Hr]. digit_step.
    eapply wp_mono; [by apply (zero_tail_spec h h')|]. intros [] h1 Ha1. digit_step.
    apply accumulated_done in Ha1 as [Hw Hv]. done. }
  destruct (Z.leb_spec b (cell h (digits_ A + (len_ A - 1)))) as [Htop|Htop].
  - assert (len_ A <= len_ Q).
    { destruct Hfit as [[Hlt _]|]; [exfalso|done]. apply (Z.lt_irrefl (kBase ^ (len_ A - 1))).
      eapply Z.le_lt_trans; [|exact Hlt]. apply Z.div_le_lower_bound; [done|].
      unfold value. rewrite sum_pred by done.
      pose proof (sum_range (cell h) (digits_ A) (len_ A - 1) Hok ltac:(lia)).
      pose proof (kBase_pow_pos (len_ A - 1) ltac:(lia)). nia. }
    do 2 digit_step. digit_step. apply (wp_for_down (divided_down h Q A b (len_ A))); [lia| | |].
    + split; [lia|]. exists 0. rewrite Z.sub_add, Z.sub_diag, sum_0.
      split; [by apply written_down_start|lia].
    + intros i r h' Hi Hd. apply divide_at_spec; done || lia.
    + intros r h' Hd. apply Htail; [done|lia].
  - do 2 digit_step. digit_step. apply (wp_for_down (divided_down h Q A b (len_ A - 1))); [lia| | |].
    + split; [pose proof (Hok (digits_ A + (len_ A - 1))) as Hd; unfold is_digit in Hd; lia|].
      exists 0. replace (len_ A - 2 + 1) with (len_ A - 1) by lia.
      split; [by apply written_down_start|]. replace (len_ A - (len_ A - 1)) with (0 + 1) by lia.
      rewrite sum_succ, sum_0, Z.add_0_r, Z.pow_0_r by lia. lia.
    + intros i r h' Hi Hd. apply divide_at_spec; done || lia.
    + intros r h' Hd. apply Htail; [done|lia].
Qed.

End Division.
