(* ===== verification/BigIntDivSpec.v ===== *)
(** * Correctness of the schoolbook division

    Knuth's algorithm D as [DivideSchoolbook] runs it: the estimate of a
    quotient digit is at most one too big, a round subtracts the right multiple
    of the divisor, and the loop leaves quotient and remainder. *)

From stdpp Require Import base list numbers.
From Stdlib Require Import ZArith Lia Bool.
From S2P Require Import Prelude.
From S2P Require Import BigIntDigits.
From S2P Require Import BigIntVectors.
From S2P Require Import BigIntMemory.
From S2P Require Import BigIntArithmetic.
From S2P Require Import BigIntMul.
From S2P Require Import BigIntShift.
From S2P Require Import BigIntDiv.

Local Open Scope Z_scope.
Local Open Scope prog_scope.

Section Division.
Context {T : DigitTarget} {P : Platform} {TOK : DigitTargetOK T}.
Local Abbreviation HM := (M Heap).

(** ** The estimated quotient digit *)

Lemma ProductGreaterThan_spec a b high low :
  is_digit a -> is_digit b -> is_digit high -> is_digit low ->
  ProductGreaterThan a b high low = (high * kBase + low <? a * b).
Proof.
  intros Ha Hb Hh Hl. unfold ProductGreaterThan.
  destruct (digit_mul_spec a b) as (lo & hi & -> & E & Hlo & Hhi); [done..|]. rewrite E.
  apply eq_true_iff_eq. rewrite orb_true_iff, andb_true_iff, !Z.ltb_lt, Z.eqb_eq.
  unfold is_digit in *. split; [intros [?|[-> ?]]; nia|]. intros H.
  destruct (Z.lt_total high hi) as [|[]]; [by left|right|exfalso; nia]. split; [lia|]. nia.
Qed.

(** The dividend [w] has the leading digits [u0 u1 u2], the divisor [v] the
    leading digits [vn1 vn2] with its top bit set. *)
Section Estimate.
Variables vn1 vn2 u0 u1 u2 p vlow wlow : Z.
Local Abbreviation v := ((vn1 * kBase + vn2) * p + vlow).
Local Abbreviation w := (((u0 * kBase + u1) * kBase + u2) * p + wlow).
Hypothesis Hvn1 : is_digit vn1.
Hypothesis Htop : kBase <= 2 * vn1.
Hypothesis Hvn2 : is_digit vn2.
Hypothesis Hu0 : is_digit u0.
Hypothesis Hu1 : is_digit u1.
Hypothesis Hu2 : is_digit u2.
Hypothesis Hp : 0 < p.
Hypothesis Hvlow : 0 <= vlow < p.
Hypothesis Hwlow : 0 <= wlow < p.
Hypothesis Hw : w < v * kBase.

Lemma v_pos : vn1 * kBase * p <= v /\ v < (vn1 + 1) * kBase * p /\ 0 < v.
Proof. unfold is_digit in *. pose proof kBase_pos. nia. Qed.

Lemma w_range : (u0 * kBase + u1) * kBase * p <= w /\ w < (u0 * kBase + u1 + 1) * kBase * p /\ 0 <= w.
Proof. unfold is_digit in *. pose proof kBase_pos. nia. Qed.

Lemma quotient_le q : w < (q + 1) * v -> w / v <= q.
Proof.
  intros H. destruct v_pos as (_ & _ & Hv). assert (w / v < q + 1); [|lia].
  apply Z.div_lt_upper_bound; [done|]. lia.
Qed.

Lemma u0_le_vn1 : u0 <= vn1.
Proof.
  destruct v_pos as (_ & Hv & _), w_range as (Hwl & _ & _). pose proof kBase_pos. unfold is_digit in *.
  destruct (Z_lt_le_dec vn1 u0); [exfalso|done].
  assert ((vn1 + 1) * kBase * kBase * p <= (u0 * kBase + u1) * kBase * p)
    by (apply Z.mul_le_mono_nonneg_r; [lia|]; nia).
  assert (v * kBase < (vn1 + 1) * kBase * p * kBase) by (apply Z.mul_lt_mono_pos_r; lia). lia.
Qed.

(** An estimate that the two-digit test accepts is at most one too big. *)
Lemma accepted_close q :
  0 <= q < kBase -> q * (vn1 * kBase + vn2) <= (u0 * kBase + u1) * kBase + u2 -> q <= w / v + 1.
Proof.
  intros Hq H. destruct v_pos as (Hvl & _ & Hv). unfold is_digit in *. pose proof kBase_pos.
  assert (Hqv : q * v <= w + q * p).
  { assert (q * (vn1 * kBase + vn2) * p <= ((u0 * kBase + u1) * kBase + u2) * p)
      by (apply Z.mul_le_mono_nonneg_r; lia).
    assert (q * vlow <= q * p) by (apply Z.mul_le_mono_nonneg_l; lia). lia. }
  assert (q * p < kBase * p) by (apply Z.mul_lt_mono_pos_r; lia).
  assert (1 * (kBase * p) <= vn1 * (kBase * p)) by (apply Z.mul_le_mono_nonneg_r; [apply Z.mul_nonneg_nonneg|]; lia).
  assert (q - 1 <= w / v); [|lia]. apply Z.div_le_lower_bound; [done|]. lia.
Qed.

(** One that the test rejects is too big. *)
Lemma rejected_too_big q :
  0 <= q -> (u0 * kBase + u1) * kBase + u2 < q * (vn1 * kBase + vn2) -> w / v <= q - 1.
Proof.
  intros Hq H. apply quotient_le. rewrite Z.sub_add.
  assert (((u0 * kBase + u1) * kBase + u2 + 1) * p <= q * (vn1 * kBase + vn2) * p)
    by (apply Z.mul_le_mono_nonneg_r; lia). nia.
Qed.

Lemma refine_qhat_spec n q rhat :
  u0 * kBase + u1 = q * vn1 + rhat -> is_digit rhat -> kBase <= rhat + Z.of_nat n * vn1 ->
  w / v <= q < kBase ->
  exists q', refine_qhat n vn1 vn2 u2 q rhat = Some q' /\ w / v <= q' <= w / v + 1 /\ q' < kBase.
Proof.
  revert q rhat. induction n as [|n IH]; intros q rhat E Hr Hn Hq; [unfold is_digit in Hr; lia|].
  destruct v_pos as (_ & _ & Hv), w_range as (_ & _ & Hw0).
  assert (0 <= w / v) by (by apply Z.div_pos).
  assert (Hqd : is_digit q) by (unfold is_digit; lia).
  cbn [refine_qhat]. rewrite ProductGreaterThan_spec by done.
  destruct (Z.ltb_spec (rhat * kBase + u2) (q * vn2)) as [Hgt|Hle].
  - assert (Hbig : w / v <= q - 1) by (apply rejected_too_big; [lia|]; rewrite E; nia).
    rewrite (digit_t_small (q - 1)) by (unfold is_digit in *; lia).
    unfold is_digit in Hr, Hvn1. destruct (Z_lt_le_dec (rhat + vn1) kBase).
    + rewrite (digit_t_small (rhat + vn1)) by (unfold is_digit; lia).
      destruct (Z.ltb_spec (rhat + vn1) rhat); [lia|]. apply IH; [lia|unfold is_digit; lia|lia|lia].
    + rewrite (digit_t_eq 1 (rhat + vn1)) by lia.
      destruct (Z.ltb_spec (rhat + vn1 - 1 * kBase) rhat); [|lia]. exists (q - 1). split; [done|].
      split; [|lia]. split; [done|]. apply accepted_close; [lia|].
      rewrite E. unfold is_digit in *. nia.
  - exists q. split; [done|]. split; [|lia]. split; [lia|].
    apply accepted_close; [unfold is_digit in Hqd; lia|]. rewrite E. nia.
Qed.

(** With equal leading digits the largest digit is the estimate. *)
Lemma equal_top_estimate : u0 = vn1 -> w / v <= kBase - 1 <= w / v + 1.
Proof.
  intros Eu. destruct v_pos as (_ & Hvu & Hv), w_range as (Hwl & _ & _). pose proof kBase_pos.
  split; [apply quotient_le; lia|]. assert (kBase - 2 <= w / v); [|lia].
  apply Z.div_le_lower_bound; [done|]. unfold is_digit in *.
  assert (v * (kBase - 2) <= (vn1 + 1) * kBase * p * (kBase - 2)) by (apply Z.mul_le_mono_nonneg_r; lia).
  assert ((vn1 + 1) * (kBase - 2) <= vn1 * kBase) by nia.
  assert ((vn1 + 1) * (kBase - 2) * (kBase * p) <= vn1 * kBase * (kBase * p))
    by (apply Z.mul_le_mono_nonneg_r; [apply Z.mul_nonneg_nonneg|]; lia).
  assert (0 <= u1 * (kBase * p)) by (apply Z.mul_nonneg_nonneg; [|apply Z.mul_nonneg_nonneg]; lia).
  assert (Eq : u0 * kBase * (kBase * p) = vn1 * kBase * (kBase * p)) by (by rewrite Eu). lia.
Qed.

Lemma division_estimate q r :
  u0 * kBase + u1 = q * vn1 + r -> 0 <= r < vn1 -> w / v <= q.
Proof.
  intros E Hr. apply quotient_le. destruct v_pos as (Hvl & _ & _), w_range as (_ & Hwu & _).
  pose proof kBase_pos. unfold is_digit in *.
  assert (0 <= q) by nia.
  assert ((u0 * kBase + u1 + 1) * (kBase * p) <= (q + 1) * vn1 * (kBase * p))
    by (apply Z.mul_le_mono_nonneg_r; [apply Z.mul_nonneg_nonneg|]; lia).
  assert ((q + 1) * (vn1 * kBase * p) <= (q + 1) * v) by (apply Z.mul_le_mono_nonneg_l; lia). lia.
Qed.
End Estimate.

(** ** One round of the long division *)

(** The dividend [U] loses [q] times the divisor at index [j]; only these
    digits of [U], and scratch memory, change. *)
Record subtracted (h h' : Heap) (U qhatv : Digits) (n j w' : Z) : Prop := {
  sub_ok : heap_ok h';
  sub_free : free h' = free h;
  sub_frame : forall a,
    (a < digits_ U + j \/ digits_ U + j + (n + 1) <= a) ->
    (a < digits_ qhatv \/ digits_ qhatv + len_ qhatv <= a) -> cell h' a = cell h a;
  sub_value : sum (cell h') (digits_ U + j) (n + 1) = w'
}.

Section Round.
Variables (h : Heap) (U B qhatv : Digits) (n j qhat : Z).
Hypothesis Hok : heap_ok h.
Hypothesis HUB : disjoint U B.
Hypothesis HUq : disjoint U qhatv.
Hypothesis HqB : disjoint qhatv B.
Hypothesis Hn : len_ B = n /\ 0 < n.
Hypothesis Hq : len_ qhatv = n + 1.
Hypothesis Hj : 0 <= j /\ j + n < len_ U.
Hypothesis Hqhat : is_digit qhat.

Local Abbreviation v := (value h B).
Local Abbreviation w := (sum (cell h) (digits_ U + j) (n + 1)).
Hypothesis Hv : 0 < v.
Hypothesis Hest : w / v <= qhat <= w / v + 1.

(** The product that is subtracted. *)
Lemma multiple_spec :
  wp (if qhat =? 0 then Clear qhatv else MultiplySingle qhatv B qhat)
    (fun _ h1 => wrote h h1 qhatv (len_ qhatv) /\ value h1 qhatv = v * qhat) h.
Proof.
  destruct (Z.eqb_spec qhat 0) as [E|E].
  - eapply wp_mono; [apply Clear_spec; [done|lia]|]. intros [] h1 [Hw Hv1].
    split; [done|]. rewrite Hv1. lia.
  - apply MultiplySingle_spec; [done|apply disjoint_in_order; [done|lia]|lia|done|done].
Qed.

Lemma divisor_range : v < kBase ^ n.
Proof. destruct Hn as [<- Hn0]. apply value_range; [done|lia]. Qed.

Lemma quotient_nonneg : 0 <= w / v.
Proof. apply Z.div_pos; [apply sum_range; [done|lia]|done]. Qed.

(** After a borrow: adding the divisor back gives the remainder. *)
Lemma add_back_spec h1 h2 :
  wrote h h1 qhatv (len_ qhatv) ->
  accumulated h1 h2 (mkDigits (digits_ U + j) (len_ U - j)) (n + 1) (w - v * qhat) (-1) ->
  qhat = w / v + 1 ->
  wp (let* Uj := plus U j in
      let* c := InplaceAdd Uj B in
      let* u := get U (j + n) in
      set U (j + n) (digit_t (u + c)) ;;;
      ret (digit_t (qhat - 1)))
    (fun q h' => q = w / v /\ subtracted h h' U qhatv n j (w - v * q)) h2.
Proof.
  intros Hw1 [Hw2 Hv2] Eq. pose proof kBase_pos. cbn [digits_ len_] in *.
  assert (Hok2 : heap_ok h2) by apply Hw2.
  pose proof (value_wrote h h1 qhatv _ B Hw1 ltac:(unfold disjoint in *; lia)) as E1.
  pose proof (value_wrote h1 h2 _ _ B Hw2 ltac:(unfold disjoint in *; cbn; lia)) as E2.
  do 3 digit_step. unfold InplaceAdd.
  eapply wp_mono; [apply AddAndReturnCarry_spec; cbn;
    [done|apply in_order_self|unfold in_order, disjoint in *; cbn; lia|lia|lia|lia]|].
  intros c h3 [Hc [Hw3 Hv3]]. cbn [digits_ len_] in *. rewrite E2, E1, (proj1 Hn) in Hv3.
  do 2 digit_step.
  rewrite (wrote_frame _ _ _ _ Hw3 (digits_ U + (j + n))) by (cbn; lia).
  set (u := cell h2 (digits_ U + (j + n))). do 2 digit_step. digit_step.
  assert (Hu : is_digit u) by apply Hok2.
  set (e := if u + c <? kBase then 0 else 1).
  assert (He : digit_t (u + c) = u + c - e * kBase /\ 0 <= e <= 1).
  { unfold is_digit in Hu. subst e. destruct (Z.ltb_spec (u + c) kBase).
    - rewrite (digit_t_eq 0) by lia. lia.
    - rewrite (digit_t_eq 1) by lia. lia. }
  assert (Hd : is_digit (digit_t (u + c))) by apply digit_t_range.
  set (h4 := store h3 (digits_ U + (j + n)) (digit_t (u + c))).
  assert (Hok4 : heap_ok h4).
  { intros a. cbn. destruct (a =? _); [done|apply Hw3]. }
  assert (Hs4 : sum (cell h4) (digits_ U + j) (n + 1) =
    sum (cell h3) (digits_ U + j) n + digit_t (u + c) * kBase ^ n).
  { rewrite sum_succ by lia. cbn [cell h4 store]. rewrite sum_store_high by lia.
    replace (digits_ U + j + n =? digits_ U + (j + n)) with true by (symmetry; apply Z.eqb_eq; lia). done. }
  rewrite sum_succ in Hv2 by lia.
  replace (digits_ U + j + n) with (digits_ U + (j + n)) in Hv2 by lia. fold u in Hv2.
  rewrite kBase_pow_succ in Hv2 by lia.
  pose proof (sum_range (cell h4) (digits_ U + j) (n + 1) Hok4 ltac:(lia)) as Hr4.
  rewrite kBase_pow_succ in Hr4 by lia.
  pose proof (Z.mod_pos_bound w v Hv) as Hm. rewrite Z.mod_eq in Hm by lia.
  pose proof divisor_range as Hvr. pose proof (kBase_pow_pos n ltac:(lia)).
  assert (Etot : sum (cell h4) (digits_ U + j) (n + 1) + e * (kBase ^ n * kBase) =
    w - v * (w / v) + kBase ^ n * kBase) by (rewrite Hs4, (proj1 He); nia).
  pose proof quotient_nonneg. rewrite (digit_t_small (qhat - 1)) by (unfold is_digit in *; lia). split; [lia|].
  constructor; [done|cbn; rewrite (wrote_free _ _ _ _ Hw3), (wrote_free _ _ _ _ Hw2); apply Hw1| |].
  - intros a Ha1 Ha2. cbn. destruct (Z.eqb_spec a (digits_ U + (j + n))); [lia|].
    rewrite (wrote_frame _ _ _ _ Hw3), (wrote_frame _ _ _ _ Hw2), (wrote_frame _ _ _ _ Hw1); cbn; done || lia.
  - replace (qhat - 1) with (w / v) by lia.
    assert (Ee : e = 0 \/ e = 1) by lia. destruct Ee as [Ee|Ee]; rewrite Ee in Etot; lia.
Qed.

Lemma subtract_multiple_spec :
  wp (subtract_multiple U B qhatv n j qhat)
    (fun q h' => q = w / v /\ subtracted h h' U qhatv n j (w - v * q)) h.
Proof.
  unfold subtract_multiple. digit_step. eapply wp_mono; [apply multiple_spec|].
  intros [] h1 [Hw1 Hv1]. do 3 digit_step. unfold InplaceSub.
  set (Uj := mkDigits (digits_ U + j) (len_ U - j)).
  assert (Ew : sum (cell h1) (digits_ U + j) (n + 1) = w).
  { apply sum_ext. intros i Hi. apply (wrote_frame _ _ _ _ Hw1). unfold disjoint in *. lia. }
  eapply wp_mono; [apply SubtractAndReturnBorrow_spec; cbn;
    [apply Hw1|apply in_order_self|unfold in_order, disjoint in *; cbn; lia|lia|lia|lia]|].
  intros c h2 [Hc Ha]. rewrite Hq, Hv1 in Ha. cbn [digits_ Uj] in Ha. rewrite Ew in Ha.
  pose proof (Z.mod_pos_bound w v Hv) as Hm. rewrite Z.mod_eq in Hm by lia.
  pose proof (sum_range (cell h2) (digits_ U + j) (n + 1) (wrote_ok _ _ _ _ (acc_wrote _ _ _ _ _ _ Ha)) ltac:(lia)).
  pose proof (acc_value _ _ _ _ _ _ Ha) as Hva. change (digits_ Uj) with (digits_ U + j) in Hva.
  pose proof (kBase_pow_pos (n + 1) ltac:(lia)).
  assert (Hcase : qhat = w / v \/ qhat = w / v + 1) by lia.
  destruct (Z.eqb_spec c 0) as [-> |Hc0]; cbn [negb].
  - digit_step. assert (Eq : qhat = w / v).
    { destruct Hcase as [|Eq]; [done|exfalso]. rewrite Eq in Hva. lia. }
    split; [done|].
    constructor; [apply Ha|rewrite (wrote_free _ _ _ _ (acc_wrote _ _ _ _ _ _ Ha)); apply Hw1| |lia].
    intros a Ha1 Ha2. rewrite (wrote_frame _ _ _ _ (acc_wrote _ _ _ _ _ _ Ha)), (wrote_frame _ _ _ _ Hw1);
      cbn; done || lia.
  - replace c with 1 in * by lia. apply (add_back_spec h1 h2 Hw1 Ha).
    destruct Hcase as [Eq|]; [exfalso|done]. rewrite Eq in Hva. lia.
Qed.
End Round.

(** ** The loop over the quotient digits *)

Definition outside (D : Digits) (a : Z) : Prop := a < digits_ D \/ digits_ D + len_ D <= a.

Lemma disjoint_outside X Y i : disjoint X Y -> 0 <= i < len_ Y -> outside X (digits_ Y + i).
Proof. unfold disjoint, outside. lia. Qed.

Lemma sum_top2 f p n :
  2 <= n -> sum f p n = (f (p + (n - 1)) * kBase + f (p + (n - 2))) * kBase ^ (n - 2) + sum f p (n - 2).
Proof.
  intros. rewrite (sum_pred f p n), (sum_pred f p (n - 1)) by lia.
  replace (n - 1 - 1) with (n - 2) by lia.
  replace (kBase ^ (n - 1)) with (kBase ^ (n - 2) * kBase)
    by (rewrite <- kBase_pow_succ by lia; f_equal; lia). ring.
Qed.

Lemma sum_top3 f p n :
  2 <= n ->
  sum f p (n + 1) =
    ((f (p + n) * kBase + f (p + (n - 1))) * kBase + f (p + (n - 2))) * kBase ^ (n - 2) + sum f p (n - 2).
Proof.
  intros. rewrite sum_succ, sum_top2 by lia.
  replace (kBase ^ n) with (kBase ^ (n - 2) * kBase * kBase)
    by (rewrite <- !kBase_pow_succ by lia; f_equal; lia). ring.
Qed.

Lemma estimate_qhat_spec h U B n j :
  heap_ok h -> len_ B = n -> 2 <= n -> 0 <= j -> j + n < len_ U ->
  kBase <= 2 * cell h (digits_ B + (n - 1)) ->
  sum (cell h) (digits_ U + (j + 1)) n < value h B ->
  wp (estimate_qhat U B n j (cell h (digits_ B + (n - 1))))
    (fun q h' => h' = h /\ is_digit q /\
       sum (cell h) (digits_ U + j) (n + 1) / value h B <= q <=
         sum (cell h) (digits_ U + j) (n + 1) / value h B + 1) h.
Proof.
  intros Hok HlB Hn Hj HjU Htop Hlt. unfold estimate_qhat. do 2 digit_step.
  assert (Hw : sum (cell h) (digits_ U + j) (n + 1) < value h B * kBase).
  { rewrite sum_cons, Z.add_simpl_r by lia. replace (digits_ U + j + 1) with (digits_ U + (j + 1)) by lia.
    pose proof (Hok (digits_ U + j)) as Hd. unfold is_digit in Hd. nia. }
  assert (Ev : value h B = sum (cell h) (digits_ B) n) by (unfold value; by rewrite HlB).
  rewrite Ev in *. clear Ev Hlt. rewrite sum_top3, (sum_top2 _ (digits_ B) n) in * by lia.
  pose proof (sum_range (cell h) (digits_ B) (n - 2) Hok ltac:(lia)) as Hvl.
  pose proof (sum_range (cell h) (digits_ U + j) (n - 2) Hok ltac:(lia)) as Hwl.
  pose proof (kBase_pow_pos (n - 2) ltac:(lia)) as Hp.
  replace (digits_ U + (j + n)) with (digits_ U + j + n) by lia.
  destruct (Z.eqb_spec (cell h (digits_ U + j + n)) (cell h (digits_ B + (n - 1)))) as [E|E]; cbn [negb].
  - digit_step. split; [done|]. split; [apply digit_t_range|].
    rewrite (digit_t_eq (-1)) by (pose proof kBase_pos; lia).
    replace (-1 - -1 * kBase) with (kBase - 1) by lia. apply equal_top_estimate; done || apply Hok.
  - assert (Hle : cell h (digits_ U + j + n) <= cell h (digits_ B + (n - 1)))
      by (eapply u0_le_vn1; [..|exact Hw]; done || apply Hok).
    do 2 digit_step. replace (digits_ U + (j + n - 1)) with (digits_ U + j + (n - 1)) by lia. digit_step.
    apply wp_digit_divM; [pose proof (Hok (digits_ U + j + n)) as H0; unfold is_digit in H0; lia|apply Hok..|].
    intros q r Eq Hr Hq. do 4 digit_step.
    replace (digits_ U + (j + n - 2)) with (digits_ U + j + (n - 2)) by lia.
    match goal with |- context [?w / ?v] =>
      assert (Href : exists q', refine_qhat kRefineRounds (cell h (digits_ B + (n - 1)))
        (cell h (digits_ B + (n - 2))) (cell h (digits_ U + j + (n - 2))) q r = Some q' /\
        w / v <= q' <= w / v + 1 /\ q' < kBase) end.
    { eapply refine_qhat_spec; [apply Hok|done|apply Hok..|done|done|done|done|exact Eq| | |].
      - pose proof (Hok (digits_ B + (n - 1))) as H1. unfold is_digit in *. lia.
      - unfold kRefineRounds. lia.
      - split; [|apply Hq]. eapply division_estimate; [..|exact Eq|exact Hr]; done || apply Hok. }
    destruct Href as (q' & -> & Hq' & Hb').
    digit_step. split; [done|]. split; [|done].
    assert (0 <= q'); [|by split]. etransitivity; [|apply Hq'].
    pose proof kBase_pos. pose proof (Hok (digits_ B + (n - 1))). pose proof (Hok (digits_ B + (n - 2))).
    pose proof (Hok (digits_ U + j + n)). pose proof (Hok (digits_ U + j + (n - 1))).
    pose proof (Hok (digits_ U + j + (n - 2))). unfold is_digit in *.
    apply Z.div_pos; [apply Z.add_nonneg_nonneg; [apply Z.mul_nonneg_nonneg|]
                     |apply Z.add_pos_nonneg; [apply Z.mul_pos_pos|]]; lia || nia.
Qed.

(** The quotient of [a] by [b] has at most [q] digits. *)
Definition fits (a b q : Z) : Prop := a < kBase ^ q * b.

Section Loop.
Variables (h : Heap) (Q U B qhatv : Digits) (n m N : Z).
Hypothesis HUB : disjoint U B.
Hypothesis HUq : disjoint U qhatv.
Hypothesis HqB : disjoint qhatv B.
Hypothesis HQU : disjoint Q U.
Hypothesis HQq : disjoint Q qhatv.
Hypothesis HQB : disjoint Q B.
Hypothesis HlB : len_ B = n.
Hypothesis Hn : 2 <= n.
Hypothesis Hm : 0 <= m.
Hypothesis Hlq : len_ qhatv = n + 1.
Hypothesis HlU : len_ U = m + n + 1.
Local Abbreviation v := (value h B).
(** The quotient is absent, or it fits. *)
Hypothesis HlQ : len_ Q = 0 \/ m <= len_ Q.
Hypothesis HNQ : len_ Q <> 0 -> fits N v (len_ Q).
Hypothesis Hv : 0 < v.
Hypothesis Htop : kBase <= 2 * cell h (digits_ B + (n - 1)).

(** Before round [j]: [N] is the quotient digits found so far times the
    divisor, plus what is left in [U]; the part of [U] above [j] is smaller
    than the divisor. *)
Record dividing (j : Z) (h' : Heap) : Prop := {
  div_ok : heap_ok h';
  div_free : free h' = free h;
  div_frame : forall a, outside U a -> outside qhatv a -> outside Q a -> cell h' a = cell h a;
  div_top : sum (cell h') (digits_ U + (j + 1)) (m + n - j) < v;
  div_quotient : exists K, N = K * kBase ^ (j + 1) * v + value h' U /\
    0 <= K /\ (len_ Q <> 0 -> sum (cell h') (digits_ Q + (j + 1)) (Z.min (m + 1) (len_ Q) - (j + 1)) = K)
}.

Lemma frame_value h' D :
  (forall a, outside U a -> outside qhatv a -> outside Q a -> cell h' a = cell h a) ->
  disjoint U D -> disjoint qhatv D -> disjoint Q D -> value h' D = value h D.
Proof.
  intros Hf H1 H2 H3. apply sum_ext. intros i Hi. apply Hf; by apply disjoint_outside.
Qed.

(** The digits of [U] above the ones a round works on are zero. *)
Lemma high_digits_zero j h' :
  dividing j h' -> heap_ok h -> 0 <= j <= m ->
  sum (cell h') (digits_ U + (j + 1)) n < v /\ sum (cell h') (digits_ U + j + (n + 1)) (m - j) = 0.
Proof.
  intros [Hok _ _ Ht _] Hokh Hj.
  replace (m + n - j) with (n + (m - j)) in Ht by lia. rewrite sum_split in Ht by lia.
  replace (digits_ U + (j + 1) + n) with (digits_ U + j + (n + 1)) in Ht by lia.
  pose proof (sum_range (cell h') (digits_ U + (j + 1)) n Hok ltac:(lia)).
  pose proof (sum_range (cell h') (digits_ U + j + (n + 1)) (m - j) Hok ltac:(lia)).
  pose proof (value_range h B Hokh ltac:(lia)) as Hvr. rewrite HlB in Hvr.
  pose proof (kBase_pow_pos n ltac:(lia)).
  assert (sum (cell h') (digits_ U + j + (n + 1)) (m - j) = 0) as E by nia.
  rewrite E in *. split; [lia|done].
Qed.

(** What a round does to [U]. *)
Lemma round_dividend j h' h'' q :
  dividing j h' -> heap_ok h -> 0 <= j <= m ->
  q = sum (cell h') (digits_ U + j) (n + 1) / v ->
  subtracted h' h'' U qhatv n j (sum (cell h') (digits_ U + j) (n + 1) - v * q) ->
  sum (cell h'') (digits_ U + j) (m + n + 1 - j) < v /\
  value h'' U = value h' U - q * kBase ^ j * v.
Proof.
  intros Hd Hokh Hj Hq [Hok2 Hf2 Hr2 Hv2].
  destruct (high_digits_zero j h' Hd Hokh Hj) as [_ Hz].
  assert (Hz2 : sum (cell h'') (digits_ U + j + (n + 1)) (m - j) = 0).
  { rewrite <- Hz. apply sum_ext. intros i Hi. apply Hr2; [lia|]. unfold disjoint in HUq. lia. }
  assert (Hlow : sum (cell h'') (digits_ U) j = sum (cell h') (digits_ U) j).
  { apply sum_ext. intros i Hi. apply Hr2; [lia|]. unfold disjoint in HUq. lia. }
  pose proof (Z.mod_pos_bound (sum (cell h') (digits_ U + j) (n + 1)) v Hv) as Hmod.
  rewrite Z.mod_eq, <- Hq in Hmod by lia.
  assert (Hsum : forall hh, sum (cell hh) (digits_ U + j + (n + 1)) (m - j) = 0 ->
    sum (cell hh) (digits_ U + j) (m + n + 1 - j) = sum (cell hh) (digits_ U + j) (n + 1)).
  { intros hh H0. replace (m + n + 1 - j) with (n + 1 + (m - j)) by lia.
    rewrite sum_split, H0 by lia. lia. }
  split; [rewrite Hsum, Hv2 by done; lia|].
  unfold value. rewrite HlU. replace (m + n + 1) with (j + (m + n + 1 - j)) by lia.
  rewrite !(sum_split _ _ j), !Hsum, Hlow, Hv2 by (done || lia). fold v. ring.
Qed.

Lemma quotient_digit_spec j h' u :
  heap_ok h -> 0 <= j <= m -> dividing j h' ->
  wp (quotient_digit Q U B qhatv n (cell h (digits_ B + (n - 1))) j u) (fun _ => dividing (j - 1)) h'.
Proof.
  intros Hokh Hj Hd. destruct (high_digits_zero j h' Hd Hokh Hj) as [Hlt _].
  pose proof Hd as [Hok Hf Hr _ (K & HK & HK0 & HQK)].
  pose proof (frame_value h' B Hr HUB HqB HQB) as EB.
  assert (Et : cell h' (digits_ B + (n - 1)) = cell h (digits_ B + (n - 1)))
    by (apply Hr; apply disjoint_outside; done || lia).
  unfold quotient_digit. digit_step. rewrite <- Et.
  eapply wp_mono; [apply estimate_qhat_spec; rewrite ?EB, ?Et; done || lia|].
  intros qhat h1 (-> & Hqd & Hest). rewrite EB in Hest. digit_step.
  eapply wp_mono; [apply (subtract_multiple_spec h' U B qhatv n j qhat); rewrite ?EB; done || lia|].
  intros q h2 [Eq Hs]. rewrite EB in *.
  destruct (round_dividend j h' h2 q Hd Hokh Hj Eq Hs) as [Htop2 HU2].
  assert (Hq0 : 0 <= q < kBase).
  { unfold is_digit in Hqd. split; [|lia]. rewrite Eq. apply Z.div_pos; [|done]. apply sum_range; [done|lia]. }
  assert (HK2 : N = (K * kBase + q) * kBase ^ (j - 1 + 1) * v + value h2 U).
  { rewrite HU2, HK, Z.sub_add, kBase_pow_succ by lia. ring. }
  assert (HK' : 0 <= K * kBase + q) by (pose proof kBase_pos as Hkb; clear - HK0 Hq0 Hkb; nia).
  destruct Hs as [Hok2 Hf2 Hr2 _].
  assert (Hfr : forall a, outside U a -> outside qhatv a -> cell h2 a = cell h' a).
  { intros a Ha1 Ha2. apply Hr2; unfold outside in *; [clear - Ha1 Hj HlU Hn|clear - Ha2 Hlq]; lia. }
  destruct (Z.eqb_spec (len_ Q) 0) as [E|E]; cbn [negb].
  - digit_step. constructor; [done|congruence| | |].
    + intros a H1 H2 H3. rewrite Hfr by done. by apply Hr.
    + replace (m + n - (j - 1)) with (m + n + 1 - j) by lia. by rewrite Z.sub_add.
    + exists (K * kBase + q). by repeat split.
  - destruct (Z.leb_spec (len_ Q) j) as [Hshort|Hlong].
    { assert (EQ : j = m /\ len_ Q = m) by (clear - Hj HlQ E Hshort; lia). destruct EQ as [-> EQ].
      assert (q = 0) as ->.
      { pose proof (HNQ E) as HN. unfold fits in HN. rewrite EQ in HN. pose proof (kBase_pow_pos m Hm). pose proof (value_range h2 U Hok2 ltac:(clear - HlU Hn Hm; lia)) as [HU0 _].
        rewrite HK2, Z.sub_add, <- Z.mul_assoc in HN. destruct (Z.eq_dec q 0) as [|Hne]; [done|].
        assert (Hp : 0 < kBase ^ m * v) by (by apply Z.mul_pos_pos).
        assert (H1 : 1 <= K * kBase + q) by (pose proof kBase_pos as Hkb; clear - HK0 Hq0 Hne Hkb; nia).
        pose proof (Z.mul_le_mono_nonneg_r _ _ _ (Z.lt_le_incl _ _ Hp) H1) as Hle. clear - Hle HN HU0. lia. }
      apply wp_DCHECK; [done|]. constructor; [done|congruence| | |].
      - intros a H1 H2 H3. rewrite Hfr by done. by apply Hr.
      - replace (m + n - (m - 1)) with (m + n + 1 - m) by lia. by rewrite Z.sub_add.
      - exists (K * kBase + 0). split; [done|]. split; [done|]. intros _.
        specialize (HQK E). rewrite sum_nonpos in HQK by lia. rewrite sum_nonpos by lia. lia. }
    digit_step.
    assert (Hfs : forall a, outside Q a -> cell (store h2 (digits_ Q + j) q) a = cell h2 a).
    { intros a Ha. cbn. destruct (Z.eqb_spec a (digits_ Q + j)); [unfold outside in Ha; clear HQK HK HK2; lia|done]. }
    constructor.
    + intros a. cbn. destruct (a =? digits_ Q + j); [done|apply Hok2].
    + cbn. congruence.
    + intros a H1 H2 H3. rewrite Hfs, Hfr by done. by apply Hr.
    + replace (m + n - (j - 1)) with (m + n + 1 - j) by lia. rewrite Z.sub_add.
      rewrite (sum_ext _ (cell h2) _ (digits_ U + j)); [done|].
      intros i Hi. apply Hfs. rewrite <- Z.add_assoc. apply disjoint_outside; [done|lia].
    + exists (K * kBase + q). split.
      * rewrite HK2. f_equal. symmetry. apply sum_ext. intros i Hi. apply Hfs. by apply disjoint_outside.
      * split; [done|]. intros _. rewrite Z.sub_add. rewrite sum_cons by lia. cbn [cell store]. rewrite Z.eqb_refl.
        rewrite <- (HQK E). rewrite (sum_ext _ (cell h') _ (digits_ Q + (j + 1))).
        -- replace (Z.min (m + 1) (len_ Q) - j - 1) with (Z.min (m + 1) (len_ Q) - (j + 1)) by lia. lia.
        -- intros i Hi. destruct (Z.eqb_spec (digits_ Q + j + 1 + i) (digits_ Q + j)); [lia|].
           replace (digits_ Q + j + 1 + i) with (digits_ Q + (j + 1 + i)) by lia.
           rewrite Hfr; [f_equal; lia|apply disjoint_outside; [by apply disjoint_sym|lia]..].
Qed.
End Loop.

(** ** Scratch memory and the shifted divisor *)

Lemma wp_with_scratch {A} n (body : Digits -> HM A) (Q : A -> Heap -> Prop) h :
  wp (body (mkDigits (free h) n))
    (fun r h2 => Q r (mkHeap (cell h2) (free h) (proc h2)))
    (mkHeap (cell h) (free h + n) (proc h)) ->
  wp (with_scratch n body) Q h.
Proof.
  intros H. unfold with_scratch. apply wp_bind, wp_gets, wp_bind, wp_modify, wp_bind.
  eapply wp_mono; [exact H|]. intros r h2 HQ. by apply wp_bind, wp_modify, wp_ret.
Qed.

Definition below (D : Digits) (a : Z) : Prop := 0 <= len_ D /\ digits_ D + len_ D <= a.

(** The divisor with its top bit set, and the heap it lives in. *)
Record shifted_divisor (h h1 : Heap) (B B' : Digits) (s : Z) : Prop := {
  sd_len : len_ B' = len_ B;
  sd_shift : 0 <= s < kDigitBits;
  sd_value : value h1 B' = value h B * 2 ^ s;
  sd_top : kBase <= 2 * cell h1 (digits_ B' + (len_ B - 1));
  sd_ok : heap_ok h1;
  sd_cells : forall a, a < free h -> cell h1 a = cell h a;
  sd_free : free h <= free h1;
  sd_below : below B' (free h1);
  sd_where : digits_ B' = digits_ B \/ free h <= digits_ B'
}.

Lemma shifted_top_range n msd s low :
  0 < n -> is_digit msd -> 0 <= s <= kDigitBits -> msd * 2 ^ s < kBase -> 0 <= low < kBase ^ (n - 1) ->
  (low + msd * kBase ^ (n - 1)) * 2 ^ s < kBase ^ n.
Proof.
  intros Hn Hm Hs Hlt Hlow. pose proof (pow2_pos s ltac:(lia)).
  replace n with (n - 1 + 1) at 2 by lia. rewrite kBase_pow_succ by lia.
  assert (H1 : msd + 1 <= 2 ^ (kDigitBits - s)).
  { rewrite (pow_digit_split s) in Hlt by lia. apply Z.mul_lt_mono_pos_r in Hlt; lia. }
  assert ((low + msd * kBase ^ (n - 1)) * 2 ^ s < (msd + 1) * kBase ^ (n - 1) * 2 ^ s)
    by (apply Z.mul_lt_mono_pos_r; lia).
  assert ((msd + 1) * 2 ^ s <= kBase).
  { rewrite (pow_digit_split s) by lia. apply Z.mul_le_mono_nonneg_r; lia. }
  assert ((msd + 1) * 2 ^ s * kBase ^ (n - 1) <= kBase * kBase ^ (n - 1))
    by (apply Z.mul_le_mono_nonneg_r; [apply Z.lt_le_incl, kBase_pow_pos; lia|done]). lia.
Qed.

Lemma shifted_top_bit n msd s low msd' low' :
  0 < n -> 0 <= low -> 0 <= low' < kBase ^ (n - 1) -> 0 <= s ->
  kBase <= 2 * (msd * 2 ^ s) ->
  low' + msd' * kBase ^ (n - 1) = (low + msd * kBase ^ (n - 1)) * 2 ^ s -> kBase <= 2 * msd'.
Proof.
  intros Hn Hlow Hlow' Hs Htop E. pose proof (pow2_pos s Hs). pose proof (kBase_pow_pos (n - 1) ltac:(lia)).
  assert (msd * 2 ^ s * kBase ^ (n - 1) < (msd' + 1) * kBase ^ (n - 1)) by nia.
  assert (msd * 2 ^ s < msd' + 1) by (apply (Z.mul_lt_mono_pos_r (kBase ^ (n - 1))); lia). lia.
Qed.

Lemma wp_with_shifted {A} B (body : Digits -> Z -> HM A) (Q : A -> Heap -> Prop) h :
  heap_ok h -> 0 < len_ B -> below B (free h) -> cell h (digits_ B + (len_ B - 1)) <> 0 ->
  (forall h1 B' s, shifted_divisor h h1 B B' s ->
     wp (body B' s) (fun r h2 => free h2 = free h1 /\ forall p, Q r (mkHeap (cell h2) (free h) p)) h1) ->
  wp (with_shifted B body) Q h.
Proof.
  intros Hok Hl Hb Hm Hbody. unfold with_shifted. do 2 digit_step.
  set (msd := cell h (digits_ B + (len_ B - 1))) in *.
  assert (Hmd : is_digit msd) by apply Hok.
  destruct (CountLeadingZeros_spec msd) as (Hs & Hlo & Hhi); [unfold is_digit in Hmd; lia|done|].
  set (s := CountLeadingZeros msd) in *.
  destruct (Z.eqb_spec s 0) as [E|E].
  - eapply wp_mono; [apply (Hbody h B s)|].
    + rewrite E in *. rewrite Z.pow_0_r, Z.mul_1_r in Hlo.
      constructor; try done; [by rewrite Z.pow_0_r, Z.mul_1_r|by left].
    + intros r h2 [Ef HQ]. specialize (HQ (proc h2)). rewrite <- Ef in HQ. by destruct h2.
  - apply wp_with_scratch. set (rw := mkDigits (free h) (len_ B)).
    set (h1 := mkHeap (cell h) (free h + len_ B) (proc h)). digit_step.
    pose proof (sum_range (cell h) (digits_ B) (len_ B - 1) Hok ltac:(lia)) as Hlow.
    assert (Ev : value h1 B = sum (cell h) (digits_ B) (len_ B - 1) + msd * kBase ^ (len_ B - 1))
      by (unfold value; by rewrite sum_pred by done).
    unfold below in Hb.
    eapply wp_mono; [apply (LeftShiftBits_spec h1 rw B s); [done|right; cbn; lia|cbn; lia|done|]|].
    { rewrite Ev. change (len_ rw) with (len_ B). apply shifted_top_range; done || lia. }
    intros [] h2 [Hw Hv]. eapply wp_mono; [apply (Hbody h2 rw s)|].
    + constructor; try done.
      * unfold value in Hv at 1. cbn [rw digits_ len_] in Hv. rewrite sum_pred in Hv by done.
        rewrite Ev in Hv. eapply shifted_top_bit; [exact Hl|apply Hlow| |apply Hs|exact Hlo|exact Hv].
        apply sum_range; [apply Hw|lia].
      * apply Hw.
      * intros a Ha. rewrite (wrote_frame _ _ _ _ Hw); [done|]. cbn. lia.
      * rewrite (wrote_free _ _ _ _ Hw). cbn. lia.
      * unfold below. rewrite (wrote_free _ _ _ _ Hw). cbn. lia.
      * right. cbn. lia.
    + intros r h3 [Ef HQ]. apply HQ.
Qed.

(** ** The whole division *)

Lemma QLengthOK_spec h Q A B :
  heap_ok h -> 0 <= len_ B <= len_ A -> len_ A - len_ B <= len_ Q -> fits (value h A) (value h B) (len_ Q) ->
  wp (QLengthOK Q A B) (fun b h' => h' = h /\ b = true) h.
Proof.
  intros Hok Hl HQ Hfit. unfold QLengthOK, slice, fits in *. do 2 digit_step. digit_step. digit_step. digit_step.
  eapply wp_mono; [apply GreaterThanOrEqual_spec; [done|cbn; lia|lia]|].
  intros b h' [-> Hge]. digit_step. split; [done|]. destruct b; apply Z.leb_le; [|done].
  symmetry in Hge. apply Z.leb_le in Hge. unfold value in Hge, Hfit. cbn [digits_ len_] in Hge.
  replace (Z.max _ _) with (len_ B) in Hge by lia. replace (len_ A) with (len_ A - len_ B + len_ B) in Hfit by lia.
  rewrite sum_split in Hfit by lia. pose proof (sum_range (cell h) (digits_ A) (len_ A - len_ B) Hok ltac:(lia)).
  apply Znot_gt_le. intros Hgt. assert (len_ Q = len_ A - len_ B) as E by lia. rewrite E in Hfit.
  pose proof (kBase_pow_pos (len_ A - len_ B) ltac:(lia)). nia.
Qed.

(** The result of a division: the quotient in [Q] and the remainder in [R],
    each if present, and no other allocated digit touched. *)
Record quotient_remainder (h h' : Heap) (Q R : Digits) (a b : Z) : Prop := {
  qr_ok : heap_ok h';
  qr_free : free h' = free h;
  qr_frame : forall x, x < free h -> outside Q x -> outside R x -> cell h' x = cell h x;
  qr_quotient : len_ Q <> 0 -> value h' Q = a / b;
  qr_remainder : len_ R <> 0 -> value h' R = a mod b
}.

(** The numbers at the end of the loop. *)
Lemma scaled_division a b s K u :
  0 < b -> 0 <= s -> a * 2 ^ s = K * (b * 2 ^ s) + u -> 0 <= u < b * 2 ^ s ->
  K = a / b /\ u = a mod b * 2 ^ s.
Proof.
  intros Hb Hs E Hu. pose proof (pow2_pos s Hs). split.
  - rewrite <- (Z.div_mul_cancel_r a b (2 ^ s)) by lia. apply (Z.div_unique _ _ _ u); lia.
  - rewrite <- Z.mul_mod_distr_r by lia. apply (Z.mod_unique _ _ K); lia.
Qed.

(** Writing the remainder and clearing the rest of the quotient. *)
Lemma finish_division h Q R U m s K u :
  heap_ok h -> disjoint Q R -> 0 <= len_ Q -> 0 <= len_ R -> 0 <= len_ U ->
  digits_ R + len_ R <= digits_ U -> 0 <= s < kDigitBits ->
  value h U = u * 2 ^ s -> (len_ R <> 0 -> value h U < kBase ^ len_ R) ->
  0 <= m -> (len_ Q = 0 \/ m <= len_ Q) -> (len_ Q <> 0 -> sum (cell h) (digits_ Q) (Z.min (m + 1) (len_ Q)) = K) ->
  wp ((if negb (len_ R =? 0) then RightShiftBits R U s else ret tt) ;;;
      for_up (m + 1) (len_ Q) (zero_at Q) tt)
    (fun _ h' => heap_ok h' /\ free h' = free h /\
       (forall x, outside Q x -> outside R x -> cell h' x = cell h x) /\
       (len_ Q <> 0 -> value h' Q = K) /\ (len_ R <> 0 -> value h' R = u)) h.
Proof.
  intros Hok HQR HlQ HlR HlU HRU Hs HvU Hfit Hm HQ HK. digit_step. pose proof (pow2_pos s ltac:(lia)).
  apply (wp_mono _ (fun _ h1 => wrote h h1 R (len_ R) /\ (len_ R <> 0 -> value h1 R = u))).
  { destruct (Z.eqb_spec (len_ R) 0) as [E|E]; cbn [negb].
    - digit_step. split; [|done]. apply (wrote_mono _ _ _ 0); [lia|by apply wrote_refl].
    - eapply wp_mono; [apply (RightShiftBits_spec h R U s); [done|left; lia|lia|lia|done|by apply Hfit]|].
      intros [] h1 [Hw Hv]. split; [done|]. intros _. rewrite Hv, HvU, Z.div_mul by lia. done. }
  intros [] h1 [Hw Hv].
  assert (HQ1 : forall i, 0 <= i < len_ Q -> cell h1 (digits_ Q + i) = cell h (digits_ Q + i)).
  { intros i Hi. apply (wrote_frame _ _ _ _ Hw). unfold disjoint in HQR. lia. }
  apply (wp_mono _ (fun _ h2 => wrote h1 h2 Q (len_ Q) /\ (len_ Q <> 0 -> value h2 Q = K))).
  { destruct (Z_le_gt_dec (len_ Q) m) as [E|E].
    - apply wp_for_up_none; [lia|]. split; [apply (wrote_mono _ _ _ 0); [lia|]; apply wrote_refl, Hw|].
      intros E0. rewrite <- HK, Z.min_r by lia. apply sum_ext. intros. by apply HQ1.
    - eapply wp_mono; [apply (zero_tail_spec h1 h1 Q (m + 1) K); [lia|]|].
      + split; [apply (wrote_mono _ _ _ 0); [lia|apply wrote_refl, Hw]|].
        rewrite <- HK, Z.min_l by lia. rewrite (sum_ext _ (cell h) _ (digits_ Q)); [lia|]. intros. apply HQ1. lia.
      + intros [] h2 Ha. apply accumulated_done in Ha as [Hw2 Hv2]. done. }
  intros [] h2 [Hw2 Hv2]. split; [apply Hw2|].
  split; [by rewrite (wrote_free _ _ _ _ Hw2), (wrote_free _ _ _ _ Hw)|]. split; [|split; [done|]].
  - intros x H1 H2. rewrite (wrote_frame _ _ _ _ Hw2), (wrote_frame _ _ _ _ Hw); done.
  - intros E. rewrite (value_wrote h1 h2 Q (len_ Q) R Hw2); [by apply Hv|]. unfold disjoint in HQR. lia.
Qed.

(** The part of the shifted dividend above the last quotient digit is smaller
    than the shifted divisor. *)
Lemma dividend_top_small a v m n s :
  0 <= a < kBase ^ (m + n) -> 0 < n -> 0 <= m -> 0 <= s < kDigitBits -> kBase ^ n <= 2 * v ->
  a * 2 ^ s / kBase ^ (m + 1) < v.
Proof.
  intros Ha Hn Hm Hs Hv. pose proof (kBase_pow_pos (m + 1) ltac:(lia)) as Hp1.
  pose proof (pow2_pos s ltac:(lia)). apply Z.div_lt_upper_bound; [done|].
  assert (H2 : 2 * 2 ^ s <= kBase).
  { rewrite <- Z.pow_succ_r by lia. apply Z.pow_le_mono_r; lia. }
  assert (Ep : kBase ^ (m + 1) * kBase ^ n = kBase ^ (m + n) * kBase).
  { rewrite <- Z.pow_add_r, <- kBase_pow_succ by lia. f_equal. lia. }
  assert (a * 2 ^ s < kBase ^ (m + n) * 2 ^ s) by (apply Z.mul_lt_mono_pos_r; lia).
  assert (kBase ^ (m + n) * (2 * 2 ^ s) <= kBase ^ (m + n) * kBase)
    by (apply Z.mul_le_mono_nonneg_l; [apply Z.lt_le_incl, kBase_pow_pos; lia|done]).
  assert (kBase ^ (m + 1) * kBase ^ n <= kBase ^ (m + 1) * (2 * v))
    by (apply Z.mul_le_mono_nonneg_l; lia). lia.
Qed.

(** What the caller provides: a divisor of at least two digits without a
    leading zero, and vectors for quotient and remainder, each long enough or
    absent. Only the quotient must not overlap the divisor. *)
Record division_ready (h : Heap) (Q R A B : Digits) : Prop := {
  ready_ok : heap_ok h;
  ready_divisor : 2 <= len_ B <= len_ A;
  ready_msd : cell h (digits_ B + (len_ B - 1)) <> 0;
  ready_Q : len_ Q = 0 \/ len_ A - len_ B <= len_ Q /\ fits (value h A) (value h B) (len_ Q);
  ready_R : len_ R = 0 \/ len_ B <= len_ R;
  ready_below : below A (free h) /\ below B (free h) /\ below Q (free h) /\ below R (free h);
  ready_QB : disjoint Q B;
  ready_QR : disjoint Q R
}.

Lemma divisor_pos h B : heap_ok h -> 0 < len_ B -> cell h (digits_ B + (len_ B - 1)) <> 0 -> 0 < value h B.
Proof.
  intros Hok Hl Hm. unfold value. rewrite sum_pred by done.
  pose proof (sum_range (cell h) (digits_ B) (len_ B - 1) Hok ltac:(lia)).
  pose proof (kBase_pow_pos (len_ B - 1) ltac:(lia)).
  pose proof (Hok (digits_ B + (len_ B - 1))) as Hd. unfold is_digit in Hd. nia.
Qed.

(** A quotient of the usual length fits. *)
Lemma fits_length h A B q :
  heap_ok h -> 0 < len_ B <= len_ A -> cell h (digits_ B + (len_ B - 1)) <> 0 -> len_ A - len_ B + 1 <= q ->
  fits (value h A) (value h B) q.
Proof.
  intros Hok Hl Hm Hq. unfold fits. pose proof (value_range h A Hok ltac:(lia)) as HA.
  assert (HB : kBase ^ (len_ B - 1) <= value h B).
  { unfold value. rewrite sum_pred by lia. pose proof (sum_range (cell h) (digits_ B) (len_ B - 1) Hok ltac:(lia)).
    pose proof (kBase_pow_pos (len_ B - 1) ltac:(lia)).
    pose proof (Hok (digits_ B + (len_ B - 1))) as [Hd _]. clear - H H0 Hm Hd. nia. }
  eapply Z.lt_le_trans; [apply HA|]. transitivity (kBase ^ q * kBase ^ (len_ B - 1)).
  - rewrite <- Z.pow_add_r by lia. apply kBase_pow_mono. lia.
  - apply Z.mul_le_mono_nonneg_l; [|done]. apply Z.lt_le_incl, kBase_pow_pos. lia.
Qed.

Section Core.
Variables (h h2 : Heap) (Q R A B B' : Digits) (s : Z).
Hypothesis Hr : division_ready h Q R A B.
Local Abbreviation n := (len_ B).
Local Abbreviation m := (len_ A - len_ B).
Local Abbreviation qhatv := (mkDigits (free h) (n + 1)).
Hypothesis Hsd : shifted_divisor (mkHeap (cell h) (free h + (n + 1)) (proc h)) h2 B B' s.
Local Abbreviation U := (mkDigits (free h2) (len_ A + 1)).

Lemma core_start h4 :
  wrote (mkHeap (cell h2) (free h2 + (len_ A + 1)) (proc h2)) h4 U (len_ U) ->
  value h4 U = value h A * 2 ^ s ->
  value h4 B' = value h B * 2 ^ s /\ kBase <= 2 * cell h4 (digits_ B' + (n - 1)) /\
  dividing h4 Q U B' qhatv n m (value h A * 2 ^ s) m h4.
Proof.
  intros Hw HvU. destruct Hr as [Hok HlB Hm HQ HR (HbA & HbB & HbQ & HbR) HQB HQR].
  destruct Hsd as [Hlen Hs Hv Ht Hok2 Hc Hf Hb Hwh]. cbn [free cell] in *. unfold below in *.
  assert (Hread : forall a, a < free h2 -> cell h4 a = cell h2 a)
    by (intros a Ha; apply (wrote_frame _ _ _ _ Hw); cbn; lia).
  assert (HvB : value h4 B' = value h B * 2 ^ s).
  { transitivity (value h2 B'); [|exact Hv]. apply sum_ext. intros i Hi. apply Hread. lia. }
  assert (Ht4 : kBase <= 2 * cell h4 (digits_ B' + (n - 1))) by (rewrite Hread by lia; done).
  split; [done|]. split; [done|]. pose proof (wrote_ok _ _ _ _ Hw) as Hok4.
  constructor; [done|done|done| |].
  - destruct (sum_split_div (cell h4) (digits_ U) (m + 1) (len_ U) Hok4 ltac:(cbn; lia)) as [E _].
    replace (m + n - m) with (len_ U - (m + 1)) by (cbn; lia). rewrite <- E.
    fold (value h4 U). rewrite HvU. apply (dividend_top_small _ _ _ n); [|lia|lia|done|].
    + replace (m + n) with (len_ A) by lia. apply value_range; [done|lia].
    + unfold value. rewrite Hlen, sum_pred by lia. rewrite <- (Z.sub_add 1 n) at 1.
      rewrite kBase_pow_succ by lia. pose proof (sum_range (cell h4) (digits_ B') (n - 1) Hok4 ltac:(lia)).
      pose proof (kBase_pow_pos (n - 1) ltac:(lia)). clear - Hok4 Ht4 H H0. nia.
  - exists 0. split; [lia|]. split; [done|]. intros _. by rewrite sum_nonpos by lia.
Qed.

Lemma division_core :
  wp (with_scratch (len_ A + 1) (fun U =>
        LeftShiftBits U A s ;;;
        let* vn1 := get B' (n - 1) in
        for_down m 0 (quotient_digit Q U B' qhatv n vn1) tt ;;;
        (if negb (len_ R =? 0) then RightShiftBits R U s else ret tt) ;;;
        for_up (m + 1) (len_ Q) (zero_at Q) tt))
    (fun _ h3 => free h3 = free h2 /\
       forall p, quotient_remainder h (mkHeap (cell h3) (free h) p) Q R (value h A) (value h B)) h2.
Proof.
  pose proof Hr as [Hok HlB Hm HQ HR (HbA & HbB & HbQ & HbR) HQB HQR].
  pose proof Hsd as [Hlen Hs Hv Ht Hok2 Hc Hf Hb Hwh]. cbn [free cell] in *. unfold below in *.
  change (value h2 B' = value h B * 2 ^ s) in Hv.
  pose proof (divisor_pos h B Hok ltac:(lia) Hm) as HBpos.
  pose proof (value_range h A Hok ltac:(lia)) as HvA. pose proof (pow2_pos s ltac:(lia)) as Hp2.
  apply wp_with_scratch. set (h3 := mkHeap (cell h2) (free h2 + (len_ A + 1)) (proc h2)).
  assert (EA : value h3 A = value h A).
  { apply sum_ext. intros i Hi. apply Hc. lia. }
  digit_step. eapply wp_mono; [apply (LeftShiftBits_spec h3 U A s); [done|right; cbn; lia|cbn; lia|done|]|].
  { rewrite EA. cbn [len_]. rewrite kBase_pow_succ by lia.
    assert (2 ^ s < kBase) by (apply Z.pow_lt_mono_r; lia).
    apply Z.mul_lt_mono_nonneg; lia. }
  intros [] h4 [Hw HvU]. rewrite EA in HvU. destruct (core_start h4 Hw HvU) as (HvB & Ht4 & Hd).
  assert (HU : forall D, digits_ D + len_ D <= free h2 -> disjoint U D) by (intros; right; cbn; lia).
  assert (HUB : disjoint U B') by (apply HU; lia).
  assert (HUq : disjoint U qhatv) by (apply HU; cbn; lia).
  assert (HqB : disjoint qhatv B') by (unfold disjoint; cbn; lia).
  assert (HQU : disjoint Q U) by (apply disjoint_sym, HU; lia).
  assert (HQq : disjoint Q qhatv) by (left; cbn; lia).
  assert (HQB' : disjoint Q B') by (unfold disjoint in *; clear - HQB HbQ Hwh Hlen HlB; lia).
  assert (HQm : len_ Q = 0 \/ m <= len_ Q) by (destruct HQ as [|[]]; auto).
  assert (HfitQ : len_ Q <> 0 -> fits (value h A * 2 ^ s) (value h4 B') (len_ Q)).
  { intros H0. destruct HQ as [|[_ H2]]; [done|]. unfold fits. rewrite HvB, Z.mul_assoc.
    by apply Z.mul_lt_mono_pos_r. }
  clear HQ. do 3 digit_step.
  apply (wp_for_down (fun j _ => dividing h4 Q U B' qhatv n m (value h A * 2 ^ s) j)); [lia|done| |].
  { intros j u h5 Hj Hd5. apply quotient_digit_spec with (N := value h A * 2 ^ s); try done; try lia.
    all: [> cbn; lia | apply Hw]. }
  clear HfitQ.
  intros [] h5 [Hok5 Hf5 Hr5 Ht5 (K & HK & HK0 & HQK)].
  change (0 - 1 + 1) with 0 in *. rewrite Z.pow_0_r, Z.mul_1_r, HvB in HK.
  replace (m + n - (0 - 1)) with (len_ U) in Ht5 by (cbn; lia). rewrite Z.add_0_r, ?Z.sub_0_r in *.
  fold (value h5 U) in Ht5. rewrite HvB in Ht5.
  destruct (scaled_division (value h A) (value h B) s K (value h5 U)) as [EK Eu];
    [lia|lia|done|split; [apply value_range; [done|cbn; lia]|done]|].
  eapply wp_mono; [apply (finish_division h5 Q R U m s K (value h A mod value h B)); try done; try (cbn; lia)|].
  - intros HR0. pose proof (value_range h2 B' Hok2 ltac:(lia)) as HvB2. rewrite Hv, Hlen in HvB2.
    pose proof (kBase_pow_mono n (len_ R) ltac:(lia)). lia.
  - intros [] h6 (Hok6 & Hf6 & Hr6 & HvQ & HvR). cbn [free cell]. split; [done|]. intros p.
    constructor; [done|done| |intros; rewrite <- EK; by apply HvQ|by apply HvR].
    intros x Hx HxQ HxR. cbn [cell]. rewrite Hr6, Hr5 by (done || (unfold outside; cbn; lia)).
    rewrite (wrote_frame _ _ _ _ Hw) by (cbn; lia). apply Hc. lia.
Qed.
End Core.

Lemma DivideSchoolbook_spec h Q R A B :
  division_ready h Q R A B ->
  wp (DivideSchoolbook Q R A B)
    (fun _ h' => quotient_remainder h h' Q R (value h A) (value h B)) h.
Proof.
  intros Hr. pose proof Hr as [Hok HlB Hm HQ HR (HbA & HbB & HbQ & HbR) HQB HQR].
  unfold DivideSchoolbook. do 4 digit_step. digit_step.
  apply (wp_mono _ (fun b h' => h' = h /\ b = true)).
  { destruct (Z.eqb_spec (len_ Q) 0); [by digit_step|]. apply QLengthOK_spec; [done|lia|lia|]. by destruct HQ as [|[_ ?]]. }
  intros b h0 [-> ->]. do 2 digit_step. digit_step.
  apply wp_DCHECK; [apply orb_true_iff; rewrite Z.eqb_eq, Z.leb_le; lia|].
  apply wp_with_scratch, wp_with_shifted; [done|lia|unfold below in *; cbn; lia|done|].
  intros h2 B' s Hsd. eapply wp_mono; [by apply (division_core h h2 Q R A B B' s)|].
  intros [] h3 [Ef Hq]. split; [done|]. intros p. apply Hq.
Qed.

End Division.
