(* ===== verification/BigIntBitwise.v ===== *)
(** * Bitwise operations

    The bitwise operations on sign and magnitude of [src/bigint/bitwise.cc] and
    the truncations to a number of bits, with the result lengths of
    [src/bigint/bigint.h]. *)

From stdpp Require Import base list numbers.
From Stdlib Require Import ZArith Lia Bool.
From S2P Require Import Prelude.
From S2P Require Import BigIntDigits.
From S2P Require Import BigIntVectors.
From S2P Require Import BigIntMemory.
From S2P Require Import BigIntArithmetic.
From S2P Require Import BigIntShift.

Local Open Scope Z_scope.
Local Open Scope prog_scope.

Section Bitwise.
Context {T : DigitTarget}.
Local Abbreviation HM := (M Heap).

(** [digit_sub(X[i], borrow, &borrow)]. *)
Definition sub_borrow (X : Digits) (i borrow : Z) : HM (Z * Z) :=
  let* x := get X i in ret (digit_sub x borrow).

(** [~x] of a digit. *)
Definition digit_not (x : Z) : Z := digit_t (Z.lnot x).

(** ** And *)

Definition BitwiseAnd_PosPos_ResultLength (x_length y_length : Z) : Z := Z.min x_length y_length.
Definition BitwiseAnd_NegNeg_ResultLength (x_length y_length : Z) : Z := Z.max x_length y_length + 1.
Definition BitwiseAnd_PosNeg_ResultLength (x_length : Z) : Z := x_length.

Definition BitwiseAnd_PosPos (Z_ X Y : Digits) : HM unit :=
  let pairs := Z.min (len_ X) (len_ Y) in
  DCHECK (pairs <=? len_ Z_) ;;;
  for_up 0 pairs
    (fun i _ =>
       let* x := get X i in
       let* y := get Y i in
       set Z_ i (Z.land x y)) tt ;;;
  for_up pairs (len_ Z_) (zero_at Z_) tt.

Definition BitwiseAnd_NegNeg (Z_ X Y : Digits) : HM unit :=
  let pairs := Z.min (len_ X) (len_ Y) in
  let* (x_borrow, y_borrow) :=
    for_up 0 pairs
      (fun i '(x_borrow, y_borrow) =>
         let* (x, x_borrow) := sub_borrow X i x_borrow in
         let* (y, y_borrow) := sub_borrow Y i y_borrow in
         set Z_ i (Z.lor x y) ;;; ret (x_borrow, y_borrow))
      (1, 1) in
  let* x_borrow := for_up pairs (len_ X) (sub_at Z_ X) x_borrow in
  let i := Z.max pairs (len_ X) in
  let* y_borrow := for_up i (len_ Y) (sub_at Z_ Y) y_borrow in
  DCHECK (x_borrow =? 0) ;;;
  DCHECK (y_borrow =? 0) ;;;
  for_up (Z.max i (len_ Y)) (len_ Z_) (zero_at Z_) tt ;;;
  AddDigit Z_ 1.

Definition BitwiseAnd_PosNeg (Z_ X Y : Digits) : HM unit :=
  let pairs := Z.min (len_ X) (len_ Y) in
  let* _ :=
    for_up 0 pairs
      (fun i borrow =>
         let* x := get X i in
         let* (y, borrow) := sub_borrow Y i borrow in
         set Z_ i (Z.land x (digit_not y)) ;;; ret borrow)
      1 in
  for_up pairs (len_ X) (copy_at Z_ X) tt ;;;
  for_up (Z.max pairs (len_ X)) (len_ Z_) (zero_at Z_) tt.

(** ** Or *)

Definition BitwiseOrResultLength (x_length y_length : Z) : Z := Z.max x_length y_length.

Definition BitwiseOr_PosPos (Z_ X Y : Digits) : HM unit :=
  let pairs := Z.min (len_ X) (len_ Y) in
  for_up 0 pairs
    (fun i _ =>
       let* x := get X i in
       let* y := get Y i in
       set Z_ i (Z.lor x y)) tt ;;;
  for_up pairs (len_ X) (copy_at Z_ X) tt ;;;
  let i := Z.max pairs (len_ X) in
  for_up i (len_ Y) (copy_at Z_ Y) tt ;;;
  for_up (Z.max i (len_ Y)) (len_ Z_) (zero_at Z_) tt.

Definition BitwiseOr_NegNeg (Z_ X Y : Digits) : HM unit :=
  let pairs := Z.min (len_ X) (len_ Y) in
  let* _ :=
    for_up 0 pairs
      (fun i '(x_borrow, y_borrow) =>
         let* (x, x_borrow) := sub_borrow X i x_borrow in
         let* (y, y_borrow) := sub_borrow Y i y_borrow in
         set Z_ i (Z.land x y) ;;; ret (x_borrow, y_borrow))
      (1, 1) in
  for_up pairs (len_ Z_) (zero_at Z_) tt ;;;
  AddDigit Z_ 1.

Definition BitwiseOr_PosNeg (Z_ X Y : Digits) : HM unit :=
  let pairs := Z.min (len_ X) (len_ Y) in
  let* borrow :=
    for_up 0 pairs
      (fun i borrow =>
         let* (y, borrow) := sub_borrow Y i borrow in
         let* x := get X i in
         set Z_ i (Z.land y (digit_not x)) ;;; ret borrow)
      1 in
  let* borrow := for_up pairs (len_ Y) (sub_at Z_ Y) borrow in
  DCHECK (borrow =? 0) ;;;
  for_up (Z.max pairs (len_ Y)) (len_ Z_) (zero_at Z_) tt ;;;
  AddDigit Z_ 1.

(** ** Exclusive or *)

Definition BitwiseXor_PosPos_ResultLength (x_length y_length : Z) : Z := Z.max x_length y_length.
Definition BitwiseXor_NegNeg_ResultLength (x_length y_length : Z) : Z := Z.max x_length y_length.
Definition BitwiseXor_PosNeg_ResultLength (x_length y_length : Z) : Z := Z.max x_length y_length + 1.

(** The shorter operand is the first one after the swap. *)
Definition xor_ordered (Z_ X Y : Digits) : HM unit :=
  let pairs := len_ X in
  DCHECK (len_ X <=? len_ Y) ;;;
  for_up 0 pairs
    (fun i _ =>
       let* x := get X i in
       let* y := get Y i in
       set Z_ i (Z.lxor x y)) tt ;;;
  for_up pairs (len_ Y) (copy_at Z_ Y) tt ;;;
  for_up (Z.max pairs (len_ Y)) (len_ Z_) (zero_at Z_) tt.

Definition BitwiseXor_PosPos (Z_ X Y : Digits) : HM unit :=
  if len_ Y <? len_ X then xor_ordered Z_ Y X else xor_ordered Z_ X Y.

Definition BitwiseXor_NegNeg (Z_ X Y : Digits) : HM unit :=
  let pairs := Z.min (len_ X) (len_ Y) in
  let* (x_borrow, y_borrow) :=
    for_up 0 pairs
      (fun i '(x_borrow, y_borrow) =>
         let* (x, x_borrow) := sub_borrow X i x_borrow in
         let* (y, y_borrow) := sub_borrow Y i y_borrow in
         set Z_ i (Z.lxor x y) ;;; ret (x_borrow, y_borrow))
      (1, 1) in
  let* x_borrow := for_up pairs (len_ X) (sub_at Z_ X) x_borrow in
  let i := Z.max pairs (len_ X) in
  let* y_borrow := for_up i (len_ Y) (sub_at Z_ Y) y_borrow in
  DCHECK (x_borrow =? 0) ;;;
  DCHECK (y_borrow =? 0) ;;;
  for_up (Z.max i (len_ Y)) (len_ Z_) (zero_at Z_) tt.

Definition BitwiseXor_PosNeg (Z_ X Y : Digits) : HM unit :=
  let pairs := Z.min (len_ X) (len_ Y) in
  let* borrow :=
    for_up 0 pairs
      (fun i borrow =>
         let* x := get X i in
         let* (y, borrow) := sub_borrow Y i borrow in
         set Z_ i (Z.lxor x y) ;;; ret borrow)
      1 in
  for_up pairs (len_ X) (copy_at Z_ X) tt ;;;
  let i := Z.max pairs (len_ X) in
  let* borrow := for_up i (len_ Y) (sub_at Z_ Y) borrow in
  DCHECK (borrow =? 0) ;;;
  for_up (Z.max i (len_ Y)) (len_ Z_) (zero_at Z_) tt ;;;
  AddDigit Z_ 1.

(** ** Truncation to a number of bits *)

Definition DIV_CEIL (x y : Z) : Z := Z.quot (x - 1) y + 1.

(** [(msd << drop) >> drop]. *)
Definition drop_high_bits (msd drop : Z) : Z := Z.shiftr (digit_t (Z.shiftl msd drop)) drop.

Definition TruncateToNBits (Z_ X : Digits) (n : Z) : HM unit :=
  let digits := DIV_CEIL n kDigitBits in
  let bits := Z.rem n kDigitBits in
  let last := digits - 1 in
  for_up 0 last (copy_at Z_ X) tt ;;;
  let* msd := get X last in
  let msd := (if negb (bits =? 0) then drop_high_bits msd (kDigitBits - bits) else msd) in
  set Z_ last msd.

Definition TruncateAndSubFromPowerOfTwo (Z_ X : Digits) (n : Z) : HM unit :=
  let digits := DIV_CEIL n kDigitBits in
  let bits := Z.rem n kDigitBits in
  let last := digits - 1 in
  let have_x := Z.min last (len_ X) in
  let* borrow :=
    for_up 0 have_x
      (fun i borrow =>
         let* x := get X i in
         let '(r, borrow) := digit_sub2 0 x borrow in
         set Z_ i r ;;; ret borrow)
      0 in
  let* borrow :=
    for_up (Z.max 0 have_x) last
      (fun i borrow =>
         let '(r, borrow) := digit_sub 0 borrow in
         set Z_ i r ;;; ret borrow)
      borrow in
  let* msd := (if last <? len_ X then get X last else ret 0) in
  if bits =? 0 then
    let '(r, _) := digit_sub2 0 msd borrow in set Z_ last r
  else
    let drop := kDigitBits - bits in
    let msd := drop_high_bits msd drop in
    let minuend_msd := digit_t (Z.shiftl 1 bits) in
    let '(result_msd, borrow) := digit_sub2 minuend_msd msd borrow in
    DCHECK (borrow =? 0) ;;;
    set Z_ last (Z.land result_msd (digit_t (minuend_msd - 1))).

(** [for (int i = n; i >= 0; i--) if (X[i] != 0) ...]. *)
Definition any_digit_down (X : Digits) (n : Z) : HM bool :=
  loop (S (Z.to_nat (n + 1)))
    (fun i =>
       if 0 <=? i then
         let* x := get X i in ret (if negb (x =? 0) then inr true else inl (i - 1))
       else ret (inr false))
    n.

Definition AsIntNResultLength (X : Digits) (x_negative : bool) (n : Z) : HM Z :=
  let needed_digits := DIV_CEIL n kDigitBits in
  if len_ X <? needed_digits then ret (-1)
  else if needed_digits <? len_ X then ret needed_digits
  else
    let* top_digit := get X (needed_digits - 1) in
    let compare_digit := digit_t (Z.shiftl 1 (Z.rem (n - 1) kDigitBits)) in
    if top_digit <? compare_digit then ret (-1)
    else if compare_digit <? top_digit then ret needed_digits
    else if negb x_negative then ret needed_digits
    else
      let* any := any_digit_down X (needed_digits - 2) in
      ret (if any : bool then needed_digits else -1).

Definition AsIntN (Z_ X : Digits) (x_negative : bool) (n : Z) : HM bool :=
  DCHECK (0 <? len_ X) ;;;
  DCHECK (0 <? n) ;;;
  let* result_length := AsIntNResultLength X x_negative n in
  DCHECK (0 <? result_length) ;;;
  let needed_digits := DIV_CEIL n kDigitBits in
  let* top_digit := get X (needed_digits - 1) in
  let compare_digit := digit_t (Z.shiftl 1 (Z.rem (n - 1) kDigitBits)) in
  let has_bit := Z.land top_digit compare_digit =? compare_digit in
  if negb has_bit then TruncateToNBits Z_ X n ;;; ret x_negative
  else
    TruncateAndSubFromPowerOfTwo Z_ X n ;;;
    if negb x_negative then ret true
    else if negb (Z.land top_digit (digit_t (compare_digit - 1)) =? 0) then ret false
    else
      let* any := any_digit_down X (needed_digits - 2) in
      ret (negb any).

Definition AsUintN_Pos_ResultLength (X : Digits) (n : Z) : HM Z :=
  let needed_digits := DIV_CEIL n kDigitBits in
  if len_ X <? needed_digits then ret (-1)
  else if needed_digits <? len_ X then ret needed_digits
  else
    let bits_in_top_digit := Z.rem n kDigitBits in
    if bits_in_top_digit =? 0 then ret (-1)
    else
      let* top_digit := get X (needed_digits - 1) in
      ret (if Z.shiftr top_digit bits_in_top_digit =? 0 then -1 else needed_digits).

Definition AsUintN_Pos (Z_ X : Digits) (n : Z) : HM unit :=
  let* result_length := AsUintN_Pos_ResultLength X n in
  DCHECK (0 <? result_length) ;;;
  TruncateToNBits Z_ X n.

Definition AsUintN_Neg_ResultLength (n : Z) : Z := Z.quot (n - 1) kDigitBits + 1.

Definition AsUintN_Neg (Z_ X : Digits) (n : Z) : HM unit :=
  TruncateAndSubFromPowerOfTwo Z_ X n.

End Bitwise.
