(* ===== verification/BigIntBitwiseSpec.v ===== *)
(** * Correctness of the bitwise operations

    Each operation on sign and magnitude is the operation on two's complement
    integers of unbounded width, [Z.land], [Z.lor] or [Z.lxor]. *)

From stdpp Require Import base list numbers.
From Stdlib Require Import ZArith Lia Bool.
From S2P Require Import Prelude.
From S2P Require Import BigIntDigits.
From S2P Require Import BigIntVectors.
From S2P Require Import BigIntMemory.
From S2P Require Import BigIntArithmetic.
From S2P Require Import BigIntShift.
From S2P Require Import BigIntBitwise.

Local Open Scope Z_scope.
Local Open Scope prog_scope.

(** ** Operations that work bit by bit *)

Class BitOp (op : Z -> Z -> Z) := {
  bit_of : bool -> bool -> bool;
  bit_of_zero : bit_of false false = false;
  bit_of_spec : forall a b i, 0 <= i -> Z.testbit (op a b) i = bit_of (Z.testbit a i) (Z.testbit b i);
  bit_of_nonneg : forall a b, 0 <= a -> 0 <= b -> 0 <= op a b
}.

#[export] Program Instance land_BitOp : BitOp Z.land := { bit_of := andb }.
Next Obligation. done. Qed.
Next Obligation. intros. apply Z.land_spec. Qed.
Next Obligation. intros. apply Z.land_nonneg. by left. Qed.

#[export] Program Instance lor_BitOp : BitOp Z.lor := { bit_of := orb }.
Next Obligation. done. Qed.
Next Obligation. intros. apply Z.lor_spec. Qed.
Next Obligation. intros. by apply Z.lor_nonneg. Qed.

#[export] Program Instance lxor_BitOp : BitOp Z.lxor := { bit_of := xorb }.
Next Obligation. done. Qed.
Next Obligation. intros. apply Z.lxor_spec. Qed.
Next Obligation. intros. apply Z.lxor_nonneg. tauto. Qed.

#[export] Program Instance ldiff_BitOp : BitOp Z.ldiff := { bit_of a b := a && negb b }.
Next Obligation. done. Qed.
Next Obligation. intros. apply Z.ldiff_spec. Qed.
Next Obligation. intros. apply Z.ldiff_nonneg. tauto. Qed.

Lemma testbit_high a k i : 0 <= a < 2 ^ k -> 0 <= k <= i -> Z.testbit a i = false.
Proof. intros Ha Hi. rewrite <- (Z.mod_small a (2 ^ k)) by done. apply Z.mod_pow2_bits_high. lia. Qed.

Lemma testbit_concat a x k i :
  0 <= a < 2 ^ k -> 0 <= k -> 0 <= i ->
  Z.testbit (a + x * 2 ^ k) i = if i <? k then Z.testbit a i else Z.testbit x (i - k).
Proof.
  intros Ha Hk Hi. rewrite Z.add_comm, <- lor_add, Z.lor_spec by done.
  destruct (Z.ltb_spec i k).
  - rewrite Z.mul_pow2_bits_low by done. done.
  - rewrite Z.mul_pow2_bits, (testbit_high a k) by (done || lia). apply orb_false_r.
Qed.

Lemma bitop_range (op : Z -> Z -> Z) `{BitOp op} a b k :
  0 <= a < 2 ^ k -> 0 <= b < 2 ^ k -> 0 <= k -> 0 <= op a b < 2 ^ k.
Proof.
  intros Ha Hb Hk. pose proof (bit_of_nonneg a b ltac:(lia) ltac:(lia)) as H0. split; [done|].
  destruct (Z_lt_le_dec (op a b) (2 ^ k)) as [|Hge]; [done|exfalso].
  pose proof (Z.pow_pos_nonneg 2 k ltac:(lia) Hk).
  assert (Hl : k <= Z.log2 (op a b)) by (apply Z.log2_le_pow2; lia).
  pose proof (Z.bit_log2 (op a b) ltac:(lia)) as Hbit.
  rewrite bit_of_spec, !(testbit_high _ k), bit_of_zero in Hbit by lia. done.
Qed.

(** An operation on two numbers, digit by digit. *)
Lemma bitop_concat (op : Z -> Z -> Z) `{BitOp op} a b x y k :
  0 <= a < 2 ^ k -> 0 <= b < 2 ^ k -> 0 <= k ->
  op (a + x * 2 ^ k) (b + y * 2 ^ k) = op a b + op x y * 2 ^ k.
Proof.
  intros Ha Hb Hk. apply Z.bits_inj'. intros i Hi.
  rewrite bit_of_spec, !testbit_concat by (done || by apply bitop_range).
  destruct (Z.ltb_spec i k); by rewrite bit_of_spec by lia.
Qed.

Section BitwiseSpec.
Context {T : DigitTarget} {TOK : DigitTargetOK T}.

Lemma kBase_pow2 i : 0 <= i -> kBase ^ i = 2 ^ (kDigitBits * i).
Proof. intros. unfold kBase. rewrite <- Z.pow_mul_r; [done|pose proof kDigitBits_pos; lia|done]. Qed.

Lemma bitop_digit (op : Z -> Z -> Z) `{BitOp op} a b x y i :
  0 <= a < kBase ^ i -> 0 <= b < kBase ^ i -> 0 <= i ->
  op (a + x * kBase ^ i) (b + y * kBase ^ i) = op a b + op x y * kBase ^ i.
Proof.
  intros Ha Hb Hi. rewrite kBase_pow2 in * by done.
  pose proof kDigitBits_pos. apply bitop_concat; (done || lia).
Qed.

Lemma bitop_is_digit (op : Z -> Z -> Z) `{BitOp op} x y : is_digit x -> is_digit y -> is_digit (op x y).
Proof. intros. pose proof kDigitBits_pos. apply bitop_range; (done || lia). Qed.

Lemma bitop_bound (op : Z -> Z -> Z) `{BitOp op} a b n :
  0 <= n -> 0 <= a < kBase ^ n -> 0 <= b < kBase ^ n -> 0 <= op a b < kBase ^ n.
Proof.
  intros Hn. rewrite kBase_pow2 by done. intros Ha Hb. pose proof kDigitBits_pos.
  apply bitop_range; (done || lia).
Qed.

Lemma land_digit_not x y : is_digit x -> Z.land x (digit_not y) = Z.ldiff x y.
Proof.
  intros Hx. unfold digit_not. pose proof kDigitBits_pos. apply Z.bits_inj'. intros i Hi.
  rewrite Z.land_spec, Z.ldiff_spec. destruct (Z_lt_le_dec i kDigitBits).
  - unfold digit_t, wrap. rewrite Z.mod_pow2_bits_low, Z.lnot_spec by done. done.
  - rewrite (testbit_high x kDigitBits) by (done || lia). done.
Qed.

(** ** Operands *)

(** The first [i] digits of an operand make up [V]: of a positive operand its
    magnitude, of a negative one its magnitude less one, with the borrow that
    is still due. *)
Definition taken (h : Heap) (negative : bool) (X : Digits) (i borrow V : Z) : Prop :=
  0 <= V < kBase ^ i /\
  if negative return Prop then 0 <= borrow <= 1 /\ V = sum (cell h) (digits_ X) i - 1 + borrow * kBase ^ i
  else V = sum (cell h) (digits_ X) i.

Lemma taken_start h negative X b : (negative = true -> b = 1) -> taken h negative X 0 b 0.
Proof.
  intros Hb. split; [rewrite Z.pow_0_r; lia|]. rewrite sum_0, Z.pow_0_r. destruct negative; [specialize (Hb eq_refl); lia|done].
Qed.

Lemma taken_pos h X i b V x :
  heap_ok h -> taken h false X i b V -> 0 <= i -> x = cell h (digits_ X + i) ->
  taken h false X (i + 1) b (V + x * kBase ^ i).
Proof.
  intros Hok [Hr ->] Hi ->. rewrite <- sum_succ by done. split; [|done]. apply sum_range; [done|lia].
Qed.

Lemma taken_neg h X i b V :
  heap_ok h -> taken h true X i b V -> 0 <= i ->
  exists r b', digit_sub (cell h (digits_ X + i)) b = (r, b') /\ is_digit r /\
    taken h true X (i + 1) b' (V + r * kBase ^ i).
Proof.
  intros Hok (Hr & Hb & HV) Hi.
  destruct (digit_sub_spec (cell h (digits_ X + i)) b) as (r & b' & -> & E & Hd & Hb');
    [apply Hok|by apply bit_is_digit|].
  exists r, b'. split; [done|]. split; [done|]. unfold is_digit in Hd.
  split; [|split; [done|]].
  - rewrite kBase_pow_succ by done. nia.
  - rewrite sum_succ, kBase_pow_succ, HV by done. nia.
Qed.

(** A negative operand that is used up is its magnitude less one. *)
Lemma taken_neg_all h X b V :
  heap_ok h -> 0 <= len_ X -> 0 < value h X -> taken h true X (len_ X) b V ->
  b = 0 /\ V = value h X - 1.
Proof.
  intros Hok Hl Hp (Hr & Hb & HV). fold (value h X) in HV.
  pose proof (value_range h X Hok Hl). assert (b = 0 \/ b = 1) as [-> | ->] by lia; lia.
Qed.

Lemma taken_pos_all h X b V : taken h false X (len_ X) b V -> V = value h X.
Proof. by intros [_ ->]. Qed.

Lemma wp_sub_borrow h h' Z_ X i b V n W c (Q : Z * Z -> Heap -> Prop) :
  heap_ok h -> accumulated h h' Z_ n W c -> in_order Z_ X -> n <= i -> 0 <= i < len_ X ->
  taken h true X i b V ->
  (forall r b', is_digit r -> taken h true X (i + 1) b' (V + r * kBase ^ i) -> Q (r, b') h') ->
  wp (sub_borrow X i b) Q h'.
Proof.
  intros Hok Ha HX Hn Hi Ht HQ. unfold sub_borrow. do 3 digit_step.
  rewrite (wrote_read h h' Z_ n X i) by (apply Ha || done || lia).
  destruct (taken_neg h X i b V Hok Ht) as (r & b' & -> & Hr & Ht'); [lia|]. by apply HQ.
Qed.

(** A result digit that is the operation on the two operand digits. *)
Lemma accumulated_bitop (op : Z -> Z -> Z) `{BitOp op} h h' Z_ i A B x y :
  accumulated h h' Z_ i (op A B) 0 -> 0 <= A < kBase ^ i -> 0 <= B < kBase ^ i -> 0 <= i ->
  is_digit x -> is_digit y ->
  accumulated h (store h' (digits_ Z_ + i) (op x y)) Z_ (i + 1)
    (op (A + x * kBase ^ i) (B + y * kBase ^ i)) 0.
Proof.
  intros Ha HA HB Hi Hx Hy. eapply (accumulated_step _ _ _ _ _ _ _ (op x y)); [done|done| |lia|].
  - by apply bitop_is_digit.
  - by apply bitop_digit.
Qed.

(** ** Tails *)

(** From digit [lo] on, digits added to the argument go through unchanged. *)
Definition linear_from (lo : Z) (F : Z -> Z) : Prop :=
  forall i A x, lo <= i -> 0 <= A < kBase ^ i -> is_digit x ->
    F (A + x * kBase ^ i) = F A + x * kBase ^ i.

Lemma linear_left (op : Z -> Z -> Z) `{BitOp op} lo B :
  (forall x, op x 0 = x) -> 0 <= lo -> 0 <= B < kBase ^ lo -> linear_from lo (fun a => op a B).
Proof.
  intros Hu Hlo HB i A x Hi HA Hx. pose proof (kBase_pow_mono lo i Hi).
  cbn beta. replace B with (B + 0 * kBase ^ i) at 1 by lia. rewrite bitop_digit, Hu by (done || lia). done.
Qed.

Lemma linear_right (op : Z -> Z -> Z) `{BitOp op} lo A :
  (forall x, op 0 x = x) -> 0 <= lo -> 0 <= A < kBase ^ lo -> linear_from lo (op A).
Proof.
  intros Hu Hlo HA i B x Hi HB Hx. pose proof (kBase_pow_mono lo i Hi).
  replace A with (A + 0 * kBase ^ i) at 1 by lia. rewrite bitop_digit, Hu by (done || lia). done.
Qed.

Lemma copy_rest_spec h h' Z_ X lo b A F :
  heap_ok h -> in_order Z_ X -> 0 <= lo <= len_ X -> len_ X <= len_ Z_ -> linear_from lo F ->
  taken h false X lo b A -> accumulated h h' Z_ lo (F A) 0 ->
  wp (for_up lo (len_ X) (copy_at Z_ X) tt)
    (fun _ h'' => accumulated h h'' Z_ (len_ X) (F (value h X)) 0) h'.
Proof.
  intros Hok HX Hlo Hl HF [HA ->] Ha.
  apply (wp_for_up (fun i _ h'' => accumulated h h'' Z_ i (F (sum (cell h) (digits_ X) i)) 0));
    [lia|done| |done].
  intros i u h1 Hi Ha1. rewrite sum_succ, HF by (lia || apply Hok || (apply sum_range; [done|lia])).
  apply copy_at_spec; (done || lia).
Qed.

Lemma sub_rest_spec h h' Z_ X lo b A F :
  heap_ok h -> in_order Z_ X -> 0 <= lo <= len_ X -> len_ X <= len_ Z_ -> linear_from lo F ->
  0 < value h X -> taken h true X lo b A -> accumulated h h' Z_ lo (F A) 0 ->
  wp (for_up lo (len_ X) (sub_at Z_ X) b)
    (fun b' h'' => b' = 0 /\ accumulated h h'' Z_ (len_ X) (F (value h X - 1)) 0) h'.
Proof.
  intros Hok HX Hlo Hl HF Hp Ht Ha.
  apply (wp_for_up (fun i b h'' => exists A, taken h true X i b A /\ accumulated h h'' Z_ i (F A) 0)).
  - lia.
  - by exists A.
  - intros i b1 h1 Hi (A1 & Ht1 & Ha1). unfold sub_at. do 2 digit_step.
    rewrite (wrote_read h h1 Z_ i) by (apply Ha1 || done || lia).
    destruct (taken_neg h X i b1 A1 Hok Ht1) as (r & b' & -> & Hr & Ht'); [lia|].
    do 3 digit_step. exists (A1 + r * kBase ^ i). split; [done|].
    eapply accumulated_step; [done|lia|done| |apply HF; [lia|apply Ht1|done]]. lia.
  - intros b1 h1 (A1 & Ht1 & Ha1). destruct (taken_neg_all h X b1 A1) as [-> ->]; (done || lia).
Qed.

(** The part of an operand that the other one does not reach. *)
Lemma taken_cut h negative X i b V :
  heap_ok h -> 0 <= i <= len_ X -> (negative = true -> 0 < value h X) -> taken h negative X i b V ->
  exists k, 0 <= k /\ V + k * kBase ^ i = if negative then value h X - 1 else value h X.
Proof.
  intros Hok Hi Hp [Hr Ht]. assert (E : value h X = sum (cell h) (digits_ X) i +
    kBase ^ i * sum (cell h) (digits_ X + i) (len_ X - i)).
  { unfold value. rewrite <- sum_split by lia. f_equal. lia. }
  assert (Hk := sum_range (cell h) (digits_ X + i) (len_ X - i) Hok ltac:(lia)).
  destruct negative.
  - destruct Ht as [Hb HV]. specialize (Hp eq_refl).
    exists (sum (cell h) (digits_ X + i) (len_ X - i) - b). split; nia.
  - eexists. split; [apply Hk|]. lia.
Qed.

Lemma bitop_cut (op : Z -> Z -> Z) `{BitOp op} A B k i :
  (forall x, op 0 x = 0) -> 0 <= i -> 0 <= A < kBase ^ i -> 0 <= B < kBase ^ i ->
  op A (B + k * kBase ^ i) = op A B.
Proof.
  intros Hu Hi HA HB. replace A with (A + 0 * kBase ^ i) at 1 by lia. rewrite bitop_digit, Hu by (done || lia). lia.
Qed.

Lemma bitop_cut_l (op : Z -> Z -> Z) `{BitOp op} A B k i :
  (forall x, op x 0 = 0) -> 0 <= i -> 0 <= A < kBase ^ i -> 0 <= B < kBase ^ i ->
  op (A + k * kBase ^ i) B = op A B.
Proof.
  intros Hu Hi HA HB. replace B with (B + 0 * kBase ^ i) at 1 by lia. rewrite bitop_digit, Hu by (done || lia). lia.
Qed.

(** ** Rounds of the loops over both operands *)

(** The result digits so far are the operation on the digits taken so far. *)
Definition paired (op : Z -> Z -> Z) (h : Heap) (Z_ X : Digits) (nx : bool) (Y : Digits) (ny : bool)
    (i bx by_ : Z) (h' : Heap) : Prop :=
  exists A B, taken h nx X i bx A /\ taken h ny Y i by_ B /\ accumulated h h' Z_ i (op A B) 0.

Lemma paired_start (op : Z -> Z -> Z) h Z_ X nx Y ny bx by_ :
  op 0 0 = 0 -> heap_ok h -> (nx = true -> bx = 1) -> (ny = true -> by_ = 1) ->
  paired op h Z_ X nx Y ny 0 bx by_ h.
Proof.
  intros H0 Hok Hx Hy. exists 0, 0. rewrite H0.
  split; [by apply taken_start|]. split; [by apply taken_start|]. by apply accumulated_start.
Qed.

Section Rounds.
Context (op f : Z -> Z -> Z) {OP : BitOp op} (h h' : Heap) (Z_ X Y : Digits) (i : Z).
Hypotheses (Hf : forall x y, is_digit x -> is_digit y -> f x y = op x y)
  (Hok : heap_ok h) (HX : in_order Z_ X) (HY : in_order Z_ Y)
  (Hi : 0 <= i < Z.min (len_ X) (len_ Y)) (HZ : i < len_ Z_).

Local Ltac round_start :=
  intros (A & B & HA & HB & Ha); pose proof (acc_wrote _ _ _ _ _ _ Ha) as Hw;
  pose proof (proj1 HA) as HrA; pose proof (proj1 HB) as HrB.

Lemma pos_pos_round bx by_ :
  paired op h Z_ X false Y false i bx by_ h' ->
  wp (let* x := get X i in let* y := get Y i in set Z_ i (f x y))
    (fun _ => paired op h Z_ X false Y false (i + 1) bx by_) h'.
Proof.
  round_start. do 4 digit_step. digit_step.
  rewrite !(wrote_read h h' Z_ i) by (done || lia).
  exists (A + cell h (digits_ X + i) * kBase ^ i), (B + cell h (digits_ Y + i) * kBase ^ i).
  split; [by apply taken_pos; [..|lia|]|]. split; [by apply taken_pos; [..|lia|]|].
  rewrite Hf by (done || apply Hok). apply accumulated_bitop; (done || lia || apply Hok).
Qed.

Lemma neg_neg_round bx by_ :
  paired op h Z_ X true Y true i bx by_ h' ->
  wp (let* (x, bx) := sub_borrow X i bx in let* (y, by_) := sub_borrow Y i by_ in
      set Z_ i (f x y) ;;; ret (bx, by_))
    (fun '(bx, by_) => paired op h Z_ X true Y true (i + 1) bx by_) h'.
Proof.
  round_start. digit_step. eapply (wp_sub_borrow h h'); [done|done|done|lia|lia|done|]. intros x bx' Hx HA'.
  cbn beta iota. digit_step. eapply (wp_sub_borrow h h'); [done|done|done|lia|lia|done|]. intros y by' Hy HB'.
  cbn beta iota. do 3 digit_step. eexists _, _. split; [done|]. split; [done|].
  rewrite Hf by (done || apply Hok). apply accumulated_bitop; (done || lia).
Qed.

Lemma pos_neg_round bx by_ :
  paired op h Z_ X false Y true i bx by_ h' ->
  wp (let* x := get X i in let* (y, by_) := sub_borrow Y i by_ in set Z_ i (f x y) ;;; ret by_)
    (fun by_ => paired op h Z_ X false Y true (i + 1) bx by_) h'.
Proof.
  round_start. do 2 digit_step. rewrite (wrote_read h h' Z_ i X) by (done || lia).
  digit_step. eapply (wp_sub_borrow h h'); [done|done|done|lia|lia|done|]. intros y by' Hy HB'.
  cbn beta iota. do 3 digit_step. eexists _, _. split; [by apply taken_pos; [..|lia|]|]. split; [done|].
  rewrite Hf by (done || apply Hok). apply accumulated_bitop; (done || lia || apply Hok).
Qed.

Lemma neg_pos_round bx by_ :
  paired op h Z_ X true Y false i bx by_ h' ->
  wp (let* (x, bx) := sub_borrow X i bx in let* y := get Y i in set Z_ i (f x y) ;;; ret bx)
    (fun bx => paired op h Z_ X true Y false (i + 1) bx by_) h'.
Proof.
  round_start. digit_step. eapply (wp_sub_borrow h h'); [done|done|done|lia|lia|done|]. intros x bx' Hx HA'.
  cbn beta iota. do 2 digit_step. rewrite (wrote_read h h' Z_ i Y) by (done || lia).
  do 3 digit_step. eexists _, _. split; [done|]. split; [by apply taken_pos; [..|lia|]|].
  rewrite Hf by (done || apply Hok). apply accumulated_bitop; (done || lia || apply Hok).
Qed.

End Rounds.

Lemma zero_rest_done h h' Z_ lo V (Q : unit -> Heap -> Prop) :
  0 <= lo <= len_ Z_ -> accumulated h h' Z_ lo V 0 ->
  (forall h'', wrote h h'' Z_ (len_ Z_) -> value h'' Z_ = V -> Q tt h'') ->
  wp (for_up lo (len_ Z_) (zero_at Z_) tt) Q h'.
Proof.
  intros Hlo Ha HQ. eapply wp_mono; [by apply (zero_tail_spec h)|]. intros [] h2 H2.
  apply accumulated_done in H2 as [Hw Hv]. auto.
Qed.

(** The end of the operations whose result is negative: the magnitude is the
    complement plus one. *)
Lemma zero_rest_add_one h h' Z_ lo V (Q : unit -> Heap -> Prop) :
  0 <= lo <= len_ Z_ -> 0 < len_ Z_ -> V + 1 < kBase ^ len_ Z_ -> accumulated h h' Z_ lo V 0 ->
  (forall h'', wrote h h'' Z_ (len_ Z_) -> value h'' Z_ = V + 1 -> Q tt h'') ->
  wp (for_up lo (len_ Z_) (zero_at Z_) tt ;;; AddDigit Z_ 1) Q h'.
Proof.
  intros Hlo Hl Hfit Ha HQ. digit_step. apply (zero_rest_done h h' Z_ lo V); [done|done|].
  intros h1 Hw1 Hv1. eapply wp_mono; [apply AddDigit_spec|].
  - apply Hw1.
  - lia.
  - apply bit_is_digit. lia.
  - done.
  - lia.
  - intros [] h2 [Hw2 Hv2]. apply HQ; [by eapply wrote_trans|lia].
Qed.

(** What follows the pairs when the digits of both operands less one are
    taken, and when those of positive operands are. *)
Lemma sub_sub_rest (op : Z -> Z -> Z) `{BitOp op} h h' Z_ X Y bx by_ k (Q : unit -> Heap -> Prop) :
  (forall x, op x 0 = x) -> (forall x, op 0 x = x) ->
  heap_ok h -> in_order Z_ X -> in_order Z_ Y -> 0 <= len_ X <= len_ Z_ -> 0 <= len_ Y <= len_ Z_ ->
  0 < value h X -> 0 < value h Y ->
  paired op h Z_ X true Y true (Z.min (len_ X) (len_ Y)) bx by_ h' ->
  (forall h'', accumulated h h'' Z_ (Z.max (len_ X) (len_ Y)) (op (value h X - 1) (value h Y - 1)) 0 ->
     wp (k 0 0) Q h'') ->
  wp (let* bx := for_up (Z.min (len_ X) (len_ Y)) (len_ X) (sub_at Z_ X) bx in
      let* by_ := for_up (Z.max (Z.min (len_ X) (len_ Y)) (len_ X)) (len_ Y) (sub_at Z_ Y) by_ in
      k bx by_) Q h'.
Proof.
  intros Hr Hl Hok HX HY HlX HlY HvX HvY (A & B & HA & HB & Ha) HQ. digit_step.
  pose proof (value_range h X Hok ltac:(lia)). pose proof (proj1 HB) as HrB.
  eapply wp_mono; [eapply (sub_rest_spec h h' Z_ X _ bx A (fun a => op a B)); try done; try lia|].
  { apply linear_left; (done || lia). }
  intros bx' h1 [-> H1]. digit_step. destruct (Z_le_gt_dec (len_ Y) (len_ X)).
  - apply wp_for_up_none; [lia|]. rewrite Z.min_r in HB by lia.
    destruct (taken_neg_all h Y by_ B) as [-> ->]; [done|lia|done|done|].
    apply HQ. by rewrite Z.max_l by lia.
  - rewrite Z.min_l, Z.max_id in * by lia.
    eapply wp_mono; [eapply (sub_rest_spec h h1 Z_ Y _ by_ B (op (value h X - 1))); try done; try lia|].
    { apply linear_right; (done || lia). }
    intros by' h2 [-> H2]. apply HQ. by rewrite Z.max_r by lia.
Qed.

(** ** And *)

Lemma ends_max a b : Z.max (Z.max (Z.min a b) a) b = Z.max a b.
Proof. lia. Qed.

Lemma bitop_max (op : Z -> Z -> Z) `{BitOp op} m n a b :
  0 <= m -> 0 <= n -> 0 <= a < kBase ^ m -> 0 <= b < kBase ^ n -> 0 <= op a b < kBase ^ Z.max m n.
Proof.
  intros. apply bitop_bound; [done|lia| |];
    [pose proof (kBase_pow_mono m (Z.max m n))|pose proof (kBase_pow_mono n (Z.max m n))]; lia.
Qed.

Lemma room_for_carry V m n : 0 <= m -> m + 1 <= n -> V < kBase ^ m -> V + 1 < kBase ^ n.
Proof.
  intros Hm Hn HV. pose proof (kBase_pow_mono (m + 1) n Hn). rewrite kBase_pow_succ in * by done.
  pose proof kBase_pos. pose proof (kBase_pow_pos m Hm). nia.
Qed.

Lemma neg_lnot x : - x = Z.lnot (x - 1).
Proof. unfold Z.lnot. lia. Qed.

Lemma signed_true x : signed true x = Z.lnot (x - 1).
Proof. apply neg_lnot. Qed.

Lemma paired_all (op : Z -> Z -> Z) h Z_ X Y nx ny i bx by_ h' :
  heap_ok h -> (nx = true -> 0 < value h X) -> (ny = true -> 0 < value h Y) ->
  0 <= i <= len_ X -> i <= len_ Y -> paired op h Z_ X nx Y ny i bx by_ h' ->
  exists A B j k, 0 <= A < kBase ^ i /\ 0 <= B < kBase ^ i /\ accumulated h h' Z_ i (op A B) 0 /\
    A + j * kBase ^ i = (if nx then value h X - 1 else value h X) /\
    B + k * kBase ^ i = (if ny then value h Y - 1 else value h Y) /\
    (i = len_ X -> j = 0) /\ (i = len_ Y -> k = 0).
Proof.
  intros Hok Hnx Hny HiX HiY (A & B & HA & HB & Ha).
  destruct (taken_cut h nx X i bx A) as (j & Hj & Ej); [done|lia|done|done|].
  destruct (taken_cut h ny Y i by_ B) as (k & Hk & Ek); [done|lia|done|done|].
  exists A, B, j, k. destruct HA as [HA _], HB as [HB _]. do 5 (split; [done|]). split.
  - intros ->. pose proof (value_range h X Hok ltac:(lia)). destruct nx; nia.
  - intros ->. pose proof (value_range h Y Hok ltac:(lia)). destruct ny; nia.
Qed.

Lemma BitwiseAnd_PosPos_spec h Z_ X Y :
  heap_ok h -> in_order Z_ X -> in_order Z_ Y -> 0 <= len_ X -> 0 <= len_ Y ->
  BitwiseAnd_PosPos_ResultLength (len_ X) (len_ Y) <= len_ Z_ ->
  wp (BitwiseAnd_PosPos Z_ X Y)
    (fun _ h' => wrote h h' Z_ (len_ Z_) /\ value h' Z_ = Z.land (value h X) (value h Y)) h.
Proof.
  unfold BitwiseAnd_PosPos_ResultLength. intros Hok HX HY HlX HlY HlZ. unfold BitwiseAnd_PosPos.
  do 3 digit_step.
  apply (wp_for_up (fun i _ => paired Z.land h Z_ X false Y false i 0 0)).
  - lia.
  - by apply paired_start.
  - intros i [] h1 Hi HI. apply (pos_pos_round Z.land Z.land); try done; try lia.
  - intros [] h1 HI. apply (paired_all Z.land) in HI as (A & B & j & k & HA & HB & Ha & EA & EB & Hj & Hk);
      [|done|done|done|lia|lia].
    eapply (zero_rest_done h); [lia|done|]. intros h2 Hw ->. split; [done|]. rewrite <- EA, <- EB.
    destruct (Z_le_gt_dec (len_ X) (len_ Y)).
    + rewrite Hj, Z.mul_0_l, Z.add_0_r, (bitop_cut Z.land) by (done || lia). done.
    + rewrite Hk, Z.mul_0_l, Z.add_0_r, (bitop_cut_l Z.land) by (done || lia || apply Z.land_0_r). done.
Qed.

Lemma ldiff_add_land a b : Z.ldiff a b + Z.land a b = a.
Proof.
  rewrite <- Z.add_lor_land, Z.lor_ldiff_and.
  assert (Z.land (Z.ldiff a b) (Z.land a b) = 0) as E; [|lia].
  apply Z.bits_inj'. intros i Hi. rewrite !Z.land_spec, Z.ldiff_spec, Z.bits_0.
  by destruct (Z.testbit a i), (Z.testbit b i).
Qed.

Lemma land_le a b : 0 <= a -> 0 <= b -> 0 <= Z.land a b <= a /\ 0 <= Z.ldiff a b <= a.
Proof.
  intros Ha Hb. pose proof (ldiff_add_land a b).
  assert (0 <= Z.land a b) by (apply Z.land_nonneg; by left).
  assert (0 <= Z.ldiff a b) by (apply Z.ldiff_nonneg; tauto). lia.
Qed.

Lemma BitwiseAnd_NegNeg_spec h Z_ X Y :
  heap_ok h -> in_order Z_ X -> in_order Z_ Y -> 0 <= len_ X -> 0 <= len_ Y ->
  0 < value h X -> 0 < value h Y -> BitwiseAnd_NegNeg_ResultLength (len_ X) (len_ Y) <= len_ Z_ ->
  wp (BitwiseAnd_NegNeg Z_ X Y)
    (fun _ h' => wrote h h' Z_ (len_ Z_) /\ - value h' Z_ = Z.land (- value h X) (- value h Y)) h.
Proof.
  unfold BitwiseAnd_NegNeg_ResultLength. intros Hok HX HY HlX HlY HvX HvY HlZ. unfold BitwiseAnd_NegNeg.
  digit_step. apply (wp_for_up (fun i '(bx, by_) => paired Z.lor h Z_ X true Y true i bx by_)).
  - lia.
  - by apply paired_start.
  - intros i [bx by_] h1 Hi HI. apply (neg_neg_round Z.lor Z.lor); (done || lia).
  - intros [bx by_] h1 HI.
    apply (sub_sub_rest Z.lor h h1 Z_ X Y bx by_); try (done || lia || apply Z.lor_0_r).
    intros h2 H2. do 4 digit_step. rewrite ends_max.
    pose proof (value_range h X Hok HlX). pose proof (value_range h Y Hok HlY).
    eapply (zero_rest_add_one h h2); [lia|lia| |done|].
    + eapply room_for_carry; [|done|apply (bitop_max Z.lor)]; (done || lia).
    + intros h3 Hw Hv. split; [done|]. rewrite !neg_lnot, <- Z.lnot_lor. f_equal. lia.
Qed.

Lemma BitwiseAnd_PosNeg_spec h Z_ X Y :
  heap_ok h -> in_order Z_ X -> in_order Z_ Y -> 0 <= len_ X -> 0 <= len_ Y ->
  0 < value h Y -> BitwiseAnd_PosNeg_ResultLength (len_ X) <= len_ Z_ ->
  wp (BitwiseAnd_PosNeg Z_ X Y)
    (fun _ h' => wrote h h' Z_ (len_ Z_) /\ value h' Z_ = Z.land (value h X) (- value h Y)) h.
Proof.
  unfold BitwiseAnd_PosNeg_ResultLength. intros Hok HX HY HlX HlY HvY HlZ. unfold BitwiseAnd_PosNeg.
  digit_step. apply (wp_for_up (fun i by_ => paired Z.ldiff h Z_ X false Y true i 0 by_)).
  - lia.
  - by apply paired_start.
  - intros i by_ h1 Hi HI. apply (pos_neg_round Z.ldiff (fun x y => Z.land x (digit_not y)));
      try (done || lia). intros. by apply land_digit_not.
  - intros by_ h1 (A & B & HA & HB & Ha). cbn beta.
    destruct (taken_cut h true Y (Z.min (len_ X) (len_ Y)) by_ B) as (k & Hk & EB); [done|lia|done|done|].
    pose proof (proj1 HB) as HrB. pose proof (value_range h X Hok HlX).
    digit_step. eapply wp_mono.
    { eapply (copy_rest_spec h h1 Z_ X _ 0 A (fun a => Z.ldiff a B)); try (done || lia).
      apply (linear_left Z.ldiff); try (done || lia). apply Z.ldiff_0_r. }
    intros u h2 H2. rewrite Z.max_r by lia. eapply (zero_rest_done h); [lia|exact H2|].
    intros h3 Hw ->. split; [done|]. rewrite neg_lnot, <- Z.ldiff_land, <- EB.
    destruct (Z_le_gt_dec (len_ X) (len_ Y)).
    + rewrite Z.min_l in * by lia. by rewrite (bitop_cut Z.ldiff) by (done || lia).
    + rewrite Z.min_r in HB by lia. destruct (taken_neg_all h Y by_ B) as [_ E]; [done|done|done|done|].
      f_equal. lia.
Qed.

(** ** Or *)

Lemma or_neg_fits h X Z_ V :
  heap_ok h -> 0 <= len_ X <= len_ Z_ -> 0 < value h X -> 0 <= V <= value h X - 1 ->
  0 < len_ Z_ /\ V + 1 < kBase ^ len_ Z_.
Proof.
  intros Hok Hl Hv HV. pose proof (value_range h X Hok). pose proof (value_empty h X).
  pose proof (kBase_pow_mono (len_ X) (len_ Z_)). lia.
Qed.

Lemma BitwiseOr_NegNeg_spec h Z_ X Y :
  heap_ok h -> in_order Z_ X -> in_order Z_ Y -> 0 <= len_ X -> 0 <= len_ Y ->
  0 < value h X -> 0 < value h Y -> BitwiseOrResultLength (len_ X) (len_ Y) <= len_ Z_ ->
  wp (BitwiseOr_NegNeg Z_ X Y)
    (fun _ h' => wrote h h' Z_ (len_ Z_) /\ - value h' Z_ = Z.lor (- value h X) (- value h Y)) h.
Proof.
  unfold BitwiseOrResultLength. intros Hok HX HY HlX HlY HvX HvY HlZ. unfold BitwiseOr_NegNeg.
  digit_step. apply (wp_for_up (fun i '(bx, by_) => paired Z.land h Z_ X true Y true i bx by_)).
  - lia.
  - by apply paired_start.
  - intros i [bx by_] h1 Hi HI. apply (neg_neg_round Z.land Z.land); (done || lia).
  - intros [bx by_] h1 HI.
    apply (paired_all Z.land) in HI as (A & B & j & k & HA & HB & Ha & EA & EB & Hj & Hk);
      [|done|done|done|lia|lia].
    assert (Z.land A B = Z.land (value h X - 1) (value h Y - 1)) as E.
    { rewrite <- EA, <- EB. destruct (Z_le_gt_dec (len_ X) (len_ Y)).
      - by rewrite Hj, Z.mul_0_l, Z.add_0_r, (bitop_cut Z.land) by (done || lia).
      - by rewrite Hk, Z.mul_0_l, Z.add_0_r, (bitop_cut_l Z.land) by (done || lia || apply Z.land_0_r). }
    destruct (or_neg_fits h X Z_ (Z.land A B)) as [H3 H4]; [done|lia|done| |].
    { rewrite E. apply land_le; lia. }
    eapply (zero_rest_add_one h h1); [lia|done|exact H4|done|].
    intros h3 Hw Hv. split; [done|]. rewrite !neg_lnot, <- Z.lnot_land. f_equal. lia.
Qed.

Lemma BitwiseOr_PosPos_spec h Z_ X Y :
  heap_ok h -> in_order Z_ X -> in_order Z_ Y -> 0 <= len_ X -> 0 <= len_ Y ->
  BitwiseOrResultLength (len_ X) (len_ Y) <= len_ Z_ ->
  wp (BitwiseOr_PosPos Z_ X Y)
    (fun _ h' => wrote h h' Z_ (len_ Z_) /\ value h' Z_ = Z.lor (value h X) (value h Y)) h.
Proof.
  unfold BitwiseOrResultLength. intros Hok HX HY HlX HlY HlZ. unfold BitwiseOr_PosPos.
  digit_step. apply (wp_for_up (fun i _ => paired Z.lor h Z_ X false Y false i 0 0)).
  - lia.
  - by apply paired_start.
  - intros i [] h1 Hi HI. apply (pos_pos_round Z.lor Z.lor); (done || lia).
  - intros [] h1 (A & B & HA & HB & Ha). digit_step.
    pose proof (proj1 HB) as HrB. pose proof (value_range h X Hok HlX).
    eapply wp_mono.
    { eapply (copy_rest_spec h h1 Z_ X _ 0 A (fun a => Z.lor a B)); try (done || lia).
      apply (linear_left Z.lor); try (done || lia). apply Z.lor_0_r. }
    intros [] h2 H2. rewrite (Z.max_r (Z.min _ _)) by lia. digit_step.
    eapply (wp_mono _ (fun _ h3 => accumulated h h3 Z_ (Z.max (len_ X) (len_ Y)) (Z.lor (value h X) (value h Y)) 0)).
    2: { intros [] h3 H3. eapply (zero_rest_done h); [lia|exact H3|done]. }
    destruct (Z_le_gt_dec (len_ Y) (len_ X)).
    + apply wp_for_up_none; [lia|]. rewrite Z.min_r in HB by lia. apply taken_pos_all in HB as ->.
      by rewrite Z.max_l by lia.
    + rewrite Z.max_r, Z.min_l in * by lia.
      apply (copy_rest_spec h h2 Z_ Y _ 0 B (Z.lor (value h X))); try (done || lia).
      apply (linear_right Z.lor); (done || lia).
Qed.

Lemma BitwiseOr_PosNeg_spec h Z_ X Y :
  heap_ok h -> in_order Z_ X -> in_order Z_ Y -> 0 <= len_ X -> 0 <= len_ Y ->
  0 < value h Y -> BitwiseOrResultLength (len_ X) (len_ Y) <= len_ Z_ ->
  wp (BitwiseOr_PosNeg Z_ X Y)
    (fun _ h' => wrote h h' Z_ (len_ Z_) /\ - value h' Z_ = Z.lor (value h X) (- value h Y)) h.
Proof.
  unfold BitwiseOrResultLength. intros Hok HX HY HlX HlY HvY HlZ. unfold BitwiseOr_PosNeg.
  digit_step. apply (wp_for_up (fun i by_ => paired Z.ldiff h Z_ Y true X false i by_ 0)).
  - lia.
  - by apply paired_start.
  - intros i by_ h1 Hi HI. apply (neg_pos_round Z.ldiff (fun y x => Z.land y (digit_not x)));
      try (done || lia). intros. by apply land_digit_not.
  - intros by_ h1 (B & A & HB & HA & Ha). digit_step.
    destruct (taken_cut h false X (Z.min (len_ X) (len_ Y)) 0 A) as (k & Hk & EA); [done|lia|done|done|].
    pose proof (proj1 HA) as HrA. pose proof (value_range h Y Hok HlY). pose proof (value_range h X Hok HlX).
    eapply wp_mono.
    { eapply (sub_rest_spec h h1 Z_ Y _ by_ B (fun b => Z.ldiff b A)); try (done || lia).
      apply (linear_left Z.ldiff); try (done || lia). apply Z.ldiff_0_r. }
    intros b' h2 [-> H2]. do 2 digit_step. rewrite (Z.max_r (Z.min _ _)) by lia.
    assert (E : Z.ldiff (value h Y - 1) A = Z.ldiff (value h Y - 1) (value h X)).
    { rewrite <- EA. destruct (Z_le_gt_dec (len_ Y) (len_ X)).
      - rewrite Z.min_r in * by lia. by rewrite (bitop_cut Z.ldiff) by (done || lia).
      - rewrite Z.min_l in HA by lia. apply taken_pos_all in HA as ->. f_equal. lia. }
    rewrite E in H2.
    destruct (or_neg_fits h Y Z_ (Z.ldiff (value h Y - 1) (value h X))) as [H3 H4]; [done|lia|done| |].
    { apply land_le; lia. }
    eapply (zero_rest_add_one h h2); [lia|done|exact H4|done|].
    intros h3 Hw Hv. split; [done|]. rewrite !neg_lnot, Hv, Z.add_simpl_r.
    apply Z.bits_inj'. intros i Hi. rewrite Z.lor_spec, !Z.lnot_spec, Z.ldiff_spec by done.
    by destruct (Z.testbit _ _), (Z.testbit _ _).
Qed.

(** ** Exclusive or *)

Lemma xor_ordered_spec h Z_ X Y :
  heap_ok h -> in_order Z_ X -> in_order Z_ Y -> 0 <= len_ X <= len_ Y -> len_ Y <= len_ Z_ ->
  wp (xor_ordered Z_ X Y)
    (fun _ h' => wrote h h' Z_ (len_ Z_) /\ value h' Z_ = Z.lxor (value h X) (value h Y)) h.
Proof.
  intros Hok HX HY HlX HlZ. unfold xor_ordered. do 3 digit_step.
  apply (wp_for_up (fun i _ => paired Z.lxor h Z_ X false Y false i 0 0)).
  - lia.
  - by apply paired_start.
  - intros i [] h1 Hi HI. apply (pos_pos_round Z.lxor Z.lxor); (done || lia).
  - intros [] h1 (A & B & HA & HB & Ha). digit_step. apply taken_pos_all in HA as ->.
    pose proof (value_range h X Hok ltac:(lia)).
    eapply wp_mono.
    { eapply (copy_rest_spec h h1 Z_ Y _ 0 B (Z.lxor (value h X))); try (done || lia).
      apply (linear_right Z.lxor); (done || lia). }
    intros u h2 H2. rewrite Z.max_r by lia. eapply (zero_rest_done h); [lia|exact H2|done].
Qed.

Lemma BitwiseXor_PosPos_spec h Z_ X Y :
  heap_ok h -> in_order Z_ X -> in_order Z_ Y -> 0 <= len_ X -> 0 <= len_ Y ->
  BitwiseXor_PosPos_ResultLength (len_ X) (len_ Y) <= len_ Z_ ->
  wp (BitwiseXor_PosPos Z_ X Y)
    (fun _ h' => wrote h h' Z_ (len_ Z_) /\ value h' Z_ = Z.lxor (value h X) (value h Y)) h.
Proof.
  unfold BitwiseXor_PosPos_ResultLength. intros Hok HX HY HlX HlY HlZ. unfold BitwiseXor_PosPos.
  destruct (Z.ltb_spec (len_ Y) (len_ X)).
  - rewrite Z.lxor_comm. apply xor_ordered_spec; (done || lia).
  - apply xor_ordered_spec; (done || lia).
Qed.

Lemma lxor_lnot_lnot a b : Z.lxor (Z.lnot a) (Z.lnot b) = Z.lxor a b.
Proof.
  apply Z.bits_inj'. intros i Hi. rewrite !Z.lxor_spec, !Z.lnot_spec by done.
  by destruct (Z.testbit a i), (Z.testbit b i).
Qed.

Lemma BitwiseXor_NegNeg_spec h Z_ X Y :
  heap_ok h -> in_order Z_ X -> in_order Z_ Y -> 0 <= len_ X -> 0 <= len_ Y ->
  0 < value h X -> 0 < value h Y -> BitwiseXor_NegNeg_ResultLength (len_ X) (len_ Y) <= len_ Z_ ->
  wp (BitwiseXor_NegNeg Z_ X Y)
    (fun _ h' => wrote h h' Z_ (len_ Z_) /\ value h' Z_ = Z.lxor (- value h X) (- value h Y)) h.
Proof.
  unfold BitwiseXor_NegNeg_ResultLength. intros Hok HX HY HlX HlY HvX HvY HlZ. unfold BitwiseXor_NegNeg.
  digit_step. apply (wp_for_up (fun i '(bx, by_) => paired Z.lxor h Z_ X true Y true i bx by_)).
  - lia.
  - by apply paired_start.
  - intros i [bx by_] h1 Hi HI. apply (neg_neg_round Z.lxor Z.lxor); (done || lia).
  - intros [bx by_] h1 HI.
    apply (sub_sub_rest Z.lxor h h1 Z_ X Y bx by_); try (done || lia || apply Z.lxor_0_r).
    intros h2 H2. do 4 digit_step. rewrite ends_max.
    eapply (zero_rest_done h); [lia|exact H2|]. intros h3 Hw ->. split; [done|].
    by rewrite !neg_lnot, lxor_lnot_lnot.
Qed.

Lemma BitwiseXor_PosNeg_spec h Z_ X Y :
  heap_ok h -> in_order Z_ X -> in_order Z_ Y -> 0 <= len_ X -> 0 <= len_ Y ->
  0 < value h Y -> BitwiseXor_PosNeg_ResultLength (len_ X) (len_ Y) <= len_ Z_ ->
  wp (BitwiseXor_PosNeg Z_ X Y)
    (fun _ h' => wrote h h' Z_ (len_ Z_) /\ - value h' Z_ = Z.lxor (value h X) (- value h Y)) h.
Proof.
  unfold BitwiseXor_PosNeg_ResultLength. intros Hok HX HY HlX HlY HvY HlZ. unfold BitwiseXor_PosNeg.
  digit_step. apply (wp_for_up (fun i by_ => paired Z.lxor h Z_ X false Y true i 0 by_)).
  - lia.
  - by apply paired_start.
  - intros i by_ h1 Hi HI. apply (pos_neg_round Z.lxor Z.lxor); (done || lia).
  - intros by_ h1 (A & B & HA & HB & Ha). digit_step.
    pose proof (proj1 HB) as HrB. pose proof (value_range h X Hok HlX). pose proof (value_range h Y Hok HlY).
    eapply wp_mono.
    { eapply (copy_rest_spec h h1 Z_ X _ 0 A (fun a => Z.lxor a B)); try (done || lia).
      apply (linear_left Z.lxor); try (done || lia). apply Z.lxor_0_r. }
    intros [] h2 H2. rewrite (Z.max_r (Z.min _ _)) by lia. digit_step.
    eapply (wp_mono _ (fun b h3 => b = 0 /\
      accumulated h h3 Z_ (Z.max (len_ X) (len_ Y)) (Z.lxor (value h X) (value h Y - 1)) 0)).
    2: { intros b h3 [-> H3]. do 2 digit_step. eapply (zero_rest_add_one h); [lia|lia| |exact H3|].
         - eapply room_for_carry; [|done|apply (bitop_max Z.lxor)]; (done || lia).
         - intros h4 Hw Hv. split; [done|]. rewrite !neg_lnot, <- Z.lnot_lxor_r. f_equal. lia. }
    destruct (Z_le_gt_dec (len_ Y) (len_ X)).
    + apply wp_for_up_none; [lia|]. rewrite Z.min_r in HB by lia.
      destruct (taken_neg_all h Y by_ B) as [-> ->]; [done|done|done|done|]. by rewrite Z.max_l by lia.
    + rewrite Z.max_r, Z.min_l in * by lia.
      apply (sub_rest_spec h h2 Z_ Y _ by_ B (Z.lxor (value h X))); try (done || lia).
      apply (linear_right Z.lxor); (done || lia).
Qed.

End BitwiseSpec.
