(* ===== verification/BigIntTruncateSpec.v ===== *)
(** * Correctness of the truncations to a number of bits

    [BigInt.asIntN] and [BigInt.asUintN]: the magnitude and sign written are
    those of the number modulo a power of two, and the result lengths say when
    there is nothing to do. *)

From stdpp Require Import base list numbers.
From Stdlib Require Import ZArith Lia Bool.
From S2P Require Import Prelude.
From S2P Require Import BigIntDigits.
From S2P Require Import BigIntVectors.
From S2P Require Import BigIntMemory.
From S2P Require Import BigIntArithmetic.
From S2P Require Import BigIntMul.
From S2P Require Import BigIntShift.
From S2P Require Import BigIntBitwise.

Local Open Scope Z_scope.
Local Open Scope prog_scope.

(** The number of [n] bits with a sign that is congruent to [v]. *)
Definition wrap_signed (n v : Z) : Z := (v + 2 ^ (n - 1)) mod 2 ^ n - 2 ^ (n - 1).

Section TruncateSpec.
Context {T : DigitTarget} {TOK : DigitTargetOK T}.

(** Digit [last] holds the highest [bits] of [n] bits. *)
Record top_bits (n last bits : Z) : Prop := {
  top_last : 0 <= last;
  top_range : 0 < bits <= kDigitBits;
  top_eq : n = kDigitBits * last + bits
}.

Lemma DIV_CEIL_eq n : 0 < n -> DIV_CEIL n kDigitBits = (n - 1) / kDigitBits + 1.
Proof. intros. unfold DIV_CEIL. pose proof kDigitBits_pos. by rewrite Z.quot_div_nonneg by lia. Qed.

Lemma top_bits_of n :
  0 < n -> exists bits, top_bits n (DIV_CEIL n kDigitBits - 1) bits /\
    Z.rem n kDigitBits = (if bits =? kDigitBits then 0 else bits) /\
    Z.rem (n - 1) kDigitBits = bits - 1.
Proof.
  intros Hn. pose proof kDigitBits_pos as HK. rewrite DIV_CEIL_eq, !Z.rem_mod_nonneg by lia.
  assert (E : n - 1 = kDigitBits * ((n - 1) / kDigitBits) + (n - 1) mod kDigitBits) by (apply Z.div_mod; lia).
  assert (Hm : 0 <= (n - 1) mod kDigitBits < kDigitBits) by (apply Z.mod_pos_bound; lia).
  assert (Hd : 0 <= (n - 1) / kDigitBits) by (apply Z.div_pos; lia).
  exists ((n - 1) mod kDigitBits + 1). split; [constructor; lia|]. split; [|lia].
  destruct (Z.eqb_spec ((n - 1) mod kDigitBits + 1) kDigitBits).
  - symmetry. apply (Z.mod_unique _ _ ((n - 1) / kDigitBits + 1)); lia.
  - symmetry. apply (Z.mod_unique _ _ ((n - 1) / kDigitBits)); lia.
Qed.

Lemma top_pow n last bits : top_bits n last bits -> 2 ^ n = kBase ^ last * 2 ^ bits.
Proof.
  intros [Hl Hb ->]. unfold kBase. pose proof kDigitBits_pos.
  rewrite <- Z.pow_mul_r, <- Z.pow_add_r by lia. done.
Qed.

Lemma pow2_bits_le bits : 0 <= bits <= kDigitBits -> 0 < 2 ^ bits <= kBase.
Proof. intros. unfold kBase. split; [apply Z.pow_pos_nonneg; lia|apply Z.pow_le_mono_r; lia]. Qed.

(** A number modulo [2 ^ n], by its digits. *)
Lemma value_mod_bits h X n last bits :
  heap_ok h -> top_bits n last bits -> last < len_ X ->
  value h X mod 2 ^ n =
    sum (cell h) (digits_ X) last + (cell h (digits_ X + last) mod 2 ^ bits) * kBase ^ last.
Proof.
  intros Hok Ht Hl. rewrite (top_pow n last bits) by done. destruct Ht as [H0 Hb _].
  pose proof (kBase_pow_pos last H0). pose proof (pow2_bits_le bits ltac:(lia)) as Hp.
  pose proof (sum_range (cell h) (digits_ X) last Hok H0) as Hs.
  unfold value. replace (len_ X) with (last + (len_ X - last)) by lia. rewrite sum_split by lia.
  rewrite (sum_cons _ (digits_ X + last)) by lia.
  set (rest := sum _ _ (len_ X - last - 1)). set (x := cell h _). set (lo := sum _ _ last) in *.
  rewrite Z.rem_mul_r by lia.
  rewrite (Z.mul_comm (kBase ^ last) (x + _)), Z.mod_add, Z.div_add, (Z.mod_small lo), (Z.div_small lo) by lia.
  replace (kBase * rest) with (2 ^ (kDigitBits - bits) * rest * 2 ^ bits)
    by (unfold kBase; rewrite <- (Z.sub_add bits kDigitBits) at 2; rewrite Z.pow_add_r by lia; ring).
  rewrite Z.add_0_l, Z.mod_add by lia. lia.
Qed.

Lemma drop_high_bits_spec x bits :
  is_digit x -> 0 < bits < kDigitBits -> drop_high_bits x (kDigitBits - bits) = x mod 2 ^ bits.
Proof.
  intros Hx Hb. unfold drop_high_bits, digit_t, wrap. rewrite Z.shiftl_mul_pow2, Z.shiftr_div_pow2 by lia.
  assert (0 < 2 ^ (kDigitBits - bits)) by (apply Z.pow_pos_nonneg; lia).
  pose proof (Z.pow_pos_nonneg 2 bits ltac:(lia) ltac:(lia)).
  replace (2 ^ kDigitBits) with (2 ^ bits * 2 ^ (kDigitBits - bits))
    by (rewrite <- Z.pow_add_r by lia; f_equal; lia).
  rewrite Z.mul_mod_distr_r, Z.div_mul by lia. done.
Qed.

Lemma TruncateToNBits_spec h Z_ X n :
  heap_ok h -> in_order Z_ X -> 0 < n -> DIV_CEIL n kDigitBits <= len_ X -> DIV_CEIL n kDigitBits <= len_ Z_ ->
  wp (TruncateToNBits Z_ X n)
    (fun _ h' => accumulated h h' Z_ (DIV_CEIL n kDigitBits) (value h X mod 2 ^ n) 0) h.
Proof.
  intros Hok HX Hn HlX HlZ. destruct (top_bits_of n Hn) as (bits & Ht & Er & _).
  unfold TruncateToNBits. rewrite Er. pose proof Ht as [H0 Hb _].
  set (last := DIV_CEIL n kDigitBits - 1) in *. replace (DIV_CEIL n kDigitBits) with (last + 1) by lia.
  digit_step. eapply wp_mono.
  { apply (copy_tail_spec h h Z_ X 0 last 0); [done|done|lia|lia|lia|]. by apply accumulated_start. }
  intros [] h1 H1. do 2 digit_step. rewrite (wrote_read h h1 Z_ last) by (apply H1 || done || lia).
  digit_step. rewrite (value_mod_bits h X n last bits) by (done || lia).
  pose proof (Hok (digits_ X + last)) as Hx. set (x := cell h _) in *.
  assert (E : (if negb ((if bits =? kDigitBits then 0 else bits) =? 0)
    then drop_high_bits x (kDigitBits - (if bits =? kDigitBits then 0 else bits)) else x) = x mod 2 ^ bits).
  { destruct (Z.eqb_spec bits kDigitBits) as [->|]; cbn [Z.eqb negb]; [symmetry; by apply Z.mod_small|].
    destruct (Z.eqb_spec bits 0); [lia|]. apply drop_high_bits_spec; [done|lia]. }
  rewrite E. pose proof (pow2_bits_le bits ltac:(lia)).
  pose proof (Z.mod_pos_bound x (2 ^ bits) ltac:(lia)).
  eapply accumulated_step; [exact H1|done| | |]; [unfold is_digit; lia| |reflexivity]. lia.
Qed.

(** The first [i] digits of a number, which has zeros above its length. *)
Definition low (h : Heap) (X : Digits) (i : Z) : Z := sum (cell h) (digits_ X) (Z.min i (len_ X)).

Definition digit_at (h : Heap) (X : Digits) (i : Z) : Z :=
  if i <? len_ X then cell h (digits_ X + i) else 0.

Lemma low_succ h X i : 0 <= i -> 0 <= len_ X -> low h X (i + 1) = low h X i + digit_at h X i * kBase ^ i.
Proof.
  intros Hi Hl. unfold low, digit_at. destruct (Z.ltb_spec i (len_ X)).
  - rewrite !Z.min_l by lia. by apply sum_succ.
  - rewrite !Z.min_r by lia. lia.
Qed.

Lemma digit_at_ok h X i : heap_ok h -> is_digit (digit_at h X i).
Proof. intros Hok. unfold digit_at. destruct (i <? len_ X); [apply Hok|apply zero_is_digit]. Qed.

Lemma low_mod_bits h X n last bits :
  heap_ok h -> 0 <= len_ X -> top_bits n last bits ->
  value h X mod 2 ^ n = low h X last + (digit_at h X last mod 2 ^ bits) * kBase ^ last.
Proof.
  intros Hok Hl Ht. unfold low, digit_at. destruct (Z.ltb_spec last (len_ X)).
  - rewrite Z.min_l by lia. by apply value_mod_bits.
  - rewrite Z.min_r, Z.mod_0_l, Z.add_0_r by (try apply Z.pow_nonzero; destruct Ht; lia).
    fold (value h X). apply Z.mod_small. pose proof (value_range h X Hok Hl) as Hv.
    rewrite (top_pow n last bits) by done. destruct Ht as [H0 Hb _].
    pose proof (kBase_pow_mono (len_ X) last H). pose proof (pow2_bits_le bits ltac:(lia)). nia.
Qed.

(** The low digits of the result, with the borrow from the highest one. *)
Lemma negate_low_spec h Z_ X last k (Q : unit -> Heap -> Prop) :
  heap_ok h -> in_order Z_ X -> 0 <= len_ X -> 0 <= last < len_ Z_ ->
  (forall c h', 0 <= c <= 1 -> accumulated h h' Z_ last (- low h X last) (- c) -> wp (k c) Q h') ->
  wp (let* borrow :=
        for_up 0 (Z.min last (len_ X))
          (fun i borrow =>
             let* x := get X i in
             let '(r, borrow) := digit_sub2 0 x borrow in
             set Z_ i r ;;; ret borrow) 0 in
      let* borrow :=
        for_up (Z.max 0 (Z.min last (len_ X))) last
          (fun i borrow =>
             let '(r, borrow) := digit_sub 0 borrow in
             set Z_ i r ;;; ret borrow) borrow in
      k borrow) Q h.
Proof.
  intros Hok HX Hl HlZ Hk. digit_step. rewrite Z.max_r by lia.
  set (I := fun i c h' => 0 <= c <= 1 /\ accumulated h h' Z_ i (- low h X i) (- c)).
  apply (wp_for_up I); [lia| | |].
  - split; [lia|]. unfold low. rewrite Z.min_l, sum_0 by lia. by apply accumulated_start.
  - intros i c h1 Hi [Hc Ha]. do 2 digit_step.
    rewrite (wrote_read h h1 Z_ i) by (apply Ha || done || lia).
    destruct (digit_sub2_spec 0 (cell h (digits_ X + i)) c) as (r & w & -> & E & Hr & Hw);
      [apply zero_is_digit|apply Hok|done|].
    do 3 digit_step. split; [done|].
    eapply (accumulated_step _ _ _ _ _ _ _ (- cell h (digits_ X + i))); [exact Ha|lia|done|lia|].
    rewrite low_succ by lia. unfold digit_at. case_ltb; lia.
  - intros c h1 [Hc Ha]. digit_step. apply (wp_for_up I); [lia|done| |intros c2 h2 []; by apply Hk].
    intros i c1 h2 Hi [Hc1 Ha1].
    destruct (digit_sub_spec 0 c1) as (r & w & -> & E & Hr & Hw); [apply zero_is_digit|by apply bit_is_digit|].
    do 3 digit_step. split; [done|].
    eapply (accumulated_step _ _ _ _ _ _ _ 0); [exact Ha1|lia|done|lia|].
    rewrite low_succ by lia. unfold digit_at. case_ltb; lia.
Qed.

Lemma wp_digit_at h h' Z_ X last V c (Q : Z -> Heap -> Prop) :
  accumulated h h' Z_ last V c -> in_order Z_ X -> 0 <= last -> Q (digit_at h X last) h' ->
  wp (if last <? len_ X then get X last else ret 0) Q h'.
Proof.
  intros Ha HX H0 HQ. unfold digit_at in HQ. destruct (Z.ltb_spec last (len_ X)); digit_step.
  - by rewrite (wrote_read h h' Z_ last) by (apply Ha || done || lia).
  - done.
Qed.

Lemma negated_mod V W k m : 0 <= V < m -> V = - W + k * m -> V = (- W) mod m.
Proof. intros H E. apply (Z.mod_unique _ _ (- k)); [by left|lia]. Qed.

(** The highest digit completes the difference. *)
Lemma negate_top_spec h h1 Z_ last bits n L m c v r k :
  accumulated h h1 Z_ last (- L) (- c) -> v mod 2 ^ n = L + m * kBase ^ last ->
  2 ^ n = kBase ^ last * 2 ^ bits -> 0 <= last -> 0 < n ->
  is_digit r -> 0 <= r < 2 ^ bits -> r = - m - c + k * 2 ^ bits ->
  accumulated h (store h1 (digits_ Z_ + last) r) Z_ (last + 1) ((- v) mod 2 ^ n) 0.
Proof.
  intros Ha Em Ep H0 Hn Hr Hb Er. pose proof (kBase_pow_pos last H0).
  eapply (accumulated_step _ _ _ _ _ _ _ (r + c)); [exact Ha|done|done|lia|].
  destruct Ha as [[Hok _ _] Hv]. pose proof (sum_range (cell h1) (digits_ Z_) last Hok H0).
  symmetry. apply (negated_mod _ _ (k + v / 2 ^ n)); [rewrite Ep; nia|].
  pose proof (Z.div_mod v (2 ^ n) ltac:(lia)). rewrite Z.mul_add_distr_r, Ep in *. nia.
Qed.

Lemma low_bits_mask bits r : 0 <= bits < kDigitBits -> 
  Z.land r (digit_t (digit_t (Z.shiftl 1 bits) - 1)) = r mod 2 ^ bits.
Proof.
  intros Hb. rewrite Z.shiftl_1_l. assert (0 < 2 ^ bits) by (apply Z.pow_pos_nonneg; lia).
  assert (2 ^ bits < 2 ^ kDigitBits) by (apply Z.pow_lt_mono_r; lia).
  unfold digit_t, wrap. rewrite (Z.mod_small (2 ^ bits)), Z.mod_small by lia.
  rewrite Z.sub_1_r, <- Z.ones_equiv, Z.land_ones by lia. done.
Qed.

Lemma TruncateAndSubFromPowerOfTwo_spec h Z_ X n :
  heap_ok h -> in_order Z_ X -> 0 <= len_ X -> 0 < n -> DIV_CEIL n kDigitBits <= len_ Z_ ->
  wp (TruncateAndSubFromPowerOfTwo Z_ X n)
    (fun _ h' => accumulated h h' Z_ (DIV_CEIL n kDigitBits) ((- value h X) mod 2 ^ n) 0) h.
Proof.
  intros Hok HX HlX Hn HlZ. destruct (top_bits_of n Hn) as (bits & Ht & Er & _).
  unfold TruncateAndSubFromPowerOfTwo. rewrite Er. pose proof Ht as [H0 Hb _].
  pose proof (low_mod_bits h X n _ bits Hok HlX Ht) as Em. pose proof (top_pow _ _ _ Ht) as Ep.
  set (last := DIV_CEIL n kDigitBits - 1) in *. replace (DIV_CEIL n kDigitBits) with (last + 1) by lia.
  apply negate_low_spec; [done|done|done|lia|]. intros c h1 Hc H1.
  digit_step. eapply wp_digit_at; [exact H1|done|done|].
  pose proof (digit_at_ok h X last Hok) as Hx. set (x := digit_at h X last) in *.
  pose proof (pow2_bits_le bits ltac:(lia)) as Hp. pose proof (kBase_pow_pos last H0) as HB.
  destruct (Z.eqb_spec bits kDigitBits) as [->|Hne]; cbn [Z.eqb].
  - destruct (digit_sub2_spec 0 x c) as (r & w & -> & E & Hr & Hw); [apply zero_is_digit|done|done|].
    digit_step. rewrite (Z.mod_small x) in Em by done.
    apply (negate_top_spec h h1 Z_ last kDigitBits n (low h X last) x c _ r w); try done. fold kBase. lia.
  - destruct (Z.eqb_spec bits 0); [lia|]. rewrite drop_high_bits_spec by (done || lia).
    pose proof (low_bits_mask bits) as Hmask. rewrite Z.shiftl_1_l in *.
    assert (2 ^ bits < 2 ^ kDigitBits) by (apply Z.pow_lt_mono_r; lia).
    pose proof (Z.mod_pos_bound x (2 ^ bits) ltac:(lia)) as Hxm.
    destruct (digit_sub2_spec (digit_t (2 ^ bits)) (x mod 2 ^ bits) c) as (r & w & -> & E & Hr & Hw);
      [apply digit_t_range|unfold is_digit; lia|done|].
    assert (Ed : digit_t (2 ^ bits) = 2 ^ bits) by (apply Z.mod_small; lia).
    rewrite Ed in E. unfold is_digit in Hr.
    assert (w = 0) as -> by nia. do 3 digit_step. rewrite Hmask by lia.
    pose proof (Z.mod_pos_bound r (2 ^ bits) ltac:(lia)).
    apply (negate_top_spec h h1 Z_ last bits n (low h X last) (x mod 2 ^ bits) c _ _ (1 - r / 2 ^ bits));
      try (done || (unfold is_digit; lia)).
    pose proof (Z.div_mod r (2 ^ bits) ltac:(lia)). lia.
Qed.

(** ** Numbers with a sign *)

Definition fits_signed (n v : Z) : bool := (- 2 ^ (n - 1) <=? v) && (v <? 2 ^ (n - 1)).

Lemma pow2_half n : 0 < n -> 0 < 2 ^ (n - 1) /\ 2 ^ n = 2 * 2 ^ (n - 1).
Proof.
  intros Hn. split; [apply Z.pow_pos_nonneg; lia|]. rewrite <- Z.pow_succ_r by lia. f_equal. lia.
Qed.

Lemma wrap_signed_eq n v w k :
  0 < n -> fits_signed n w = true -> v = w + k * 2 ^ n -> wrap_signed n v = w.
Proof.
  unfold fits_signed, wrap_signed. intros Hn Hw ->. destruct (pow2_half n Hn) as [H0 Hp].
  rewrite andb_true_iff, Z.leb_le, Z.ltb_lt in Hw.
  replace (w + k * 2 ^ n + 2 ^ (n - 1)) with (w + 2 ^ (n - 1) + k * 2 ^ n) by lia.
  rewrite Z.mod_add, Z.mod_small by lia. lia.
Qed.

(** The wrapped number is in the signed range and congruent. *)
Lemma wrap_signed_range n v :
  0 < n -> - 2 ^ (n - 1) <= wrap_signed n v < 2 ^ (n - 1) /\ exists k, wrap_signed n v = v + k * 2 ^ n.
Proof.
  intros Hn. unfold wrap_signed. destruct (pow2_half n Hn) as [H0 Hp].
  pose proof (Z.mod_pos_bound (v + 2 ^ (n - 1)) (2 ^ n) ltac:(lia)). split; [lia|].
  exists (- ((v + 2 ^ (n - 1)) / 2 ^ n)). pose proof (Z.div_mod (v + 2 ^ (n - 1)) (2 ^ n) ltac:(lia)). lia.
Qed.

Lemma fits_signed_spec n v : 0 < n -> fits_signed n v = true <-> wrap_signed n v = v.
Proof.
  intros Hn. split; [intros; by apply (wrap_signed_eq n v v 0); [..|lia]|].
  unfold wrap_signed, fits_signed. destruct (pow2_half n Hn) as [H0 Hp].
  pose proof (Z.mod_pos_bound (v + 2 ^ (n - 1)) (2 ^ n) ltac:(lia)). intros E.
  rewrite andb_true_iff, Z.leb_le, Z.ltb_lt. lia.
Qed.

Definition magnitude_fits (negative : bool) (v p : Z) : bool := if negative then v <=? p else v <? p.

Lemma fits_signed_magnitude n xn v :
  0 < n -> 0 <= v -> fits_signed n (signed xn v) = magnitude_fits xn v (2 ^ (n - 1)).
Proof.
  intros Hn Hv. unfold fits_signed, magnitude_fits, signed. destruct (pow2_half n Hn) as [H0 _].
  destruct xn; bool_lia.
Qed.

Lemma magnitude_below xn v p : v < p -> magnitude_fits xn v p = true.
Proof. intros. destruct xn; cbn; [apply Z.leb_le|apply Z.ltb_lt]; lia. Qed.

Lemma magnitude_above xn v p : p < v -> magnitude_fits xn v p = false.
Proof. intros. destruct xn; cbn; [apply Z.leb_gt|apply Z.ltb_ge]; lia. Qed.

Lemma any_digit_down_spec h X n :
  heap_ok h -> -1 <= n < len_ X ->
  wp (any_digit_down X n) (fun r h' => h' = h /\ r = negb (sum (cell h) (digits_ X) (n + 1) =? 0)) h.
Proof.
  intros Hok Hn. unfold any_digit_down.
  eapply (wp_loop
    (fun i h' => h' = h /\ -1 <= i <= n /\
       sum (cell h) (digits_ X) (n + 1) = sum (cell h) (digits_ X) (i + 1))
    (fun i _ => Z.to_nat (i + 1))); [|split; [done|lia]|lia].
  intros i h' (-> & Hi & E). destruct (Z.leb_spec 0 i) as [H|H].
  - do 3 digit_step. rewrite E, sum_succ by done.
    pose proof (sum_range (cell h) (digits_ X) i Hok H). pose proof (kBase_pow_pos i H).
    pose proof (Hok (digits_ X + i)) as Hd. unfold is_digit in Hd.
    destruct (Z.eqb_spec (cell h (digits_ X + i)) 0) as [E0|E0]; cbn [negb].
    + split; [|lia]. split; [done|]. split; [lia|]. replace (i - 1 + 1) with i by lia. rewrite E0. lia.
    + split; [done|]. symmetry. apply negb_true_iff, Z.eqb_neq. nia.
  - digit_step. split; [done|]. rewrite E, sum_nonpos by lia. done.
Qed.

Lemma top_half n last bits : top_bits n last bits -> 2 ^ (n - 1) = kBase ^ last * 2 ^ (bits - 1).
Proof.
  intros [Hl Hb ->]. unfold kBase. pose proof kDigitBits_pos.
  rewrite <- Z.pow_mul_r, <- Z.pow_add_r by lia. f_equal. lia.
Qed.

Lemma top_compare bits : 0 < bits <= kDigitBits ->
  digit_t (Z.shiftl 1 (bits - 1)) = 2 ^ (bits - 1) /\ 0 < 2 ^ (bits - 1) /\ 2 ^ bits = 2 * 2 ^ (bits - 1).
Proof.
  intros Hb. rewrite Z.shiftl_1_l. destruct (pow2_half bits) as [H0 Hp]; [lia|]. split; [|done].
  apply Z.mod_small. split; [lia|]. apply Z.pow_lt_mono_r; lia.
Qed.

(** A number whose highest digit is digit [last]. *)
Lemma value_top h X last :
  heap_ok h -> 0 <= last -> len_ X = last + 1 ->
  value h X = sum (cell h) (digits_ X) last + cell h (digits_ X + last) * kBase ^ last /\
  0 <= sum (cell h) (digits_ X) last < kBase ^ last.
Proof.
  intros Hok H0 Hl. unfold value. rewrite Hl, sum_succ by done. split; [done|]. by apply sum_range.
Qed.

Lemma AsIntNResultLength_spec h X xn n :
  heap_ok h -> is_normalized h X -> 0 < n ->
  wp (AsIntNResultLength X xn n)
    (fun r h' => h' = h /\
       r = if fits_signed n (signed xn (value h X)) then -1 else DIV_CEIL n kDigitBits) h.
Proof.
  intros Hok HX Hn. destruct (top_bits_of n Hn) as (bits & Ht & _ & Er). pose proof Ht as [H0 Hb _].
  pose proof (top_half _ _ _ Ht) as Ep. unfold AsIntNResultLength. rewrite Er.
  destruct (top_compare bits Hb) as (-> & Hc & _). pose proof (value_range h X Hok (proj1 HX)) as Hv.
  set (last := DIV_CEIL n kDigitBits - 1) in *. replace (DIV_CEIL n kDigitBits) with (last + 1) by lia.
  pose proof (kBase_pow_pos last H0) as HB. rewrite fits_signed_magnitude, Ep by lia.
  destruct (Z.ltb_spec (len_ X) (last + 1)) as [Hl|Hl].
  { digit_step. split; [done|]. pose proof (kBase_pow_mono (len_ X) last ltac:(lia)).
    rewrite magnitude_below by nia. done. }
  destruct (Z.ltb_spec (last + 1) (len_ X)) as [Hl'|Hl'].
  { digit_step. split; [done|]. pose proof (normal_lower h X (last + 1) Hok HX ltac:(lia)) as Hv'.
    rewrite kBase_pow_succ in Hv' by done. pose proof (pow2_bits_le (bits - 1) ltac:(lia)).
    pose proof (top_compare bits Hb). pose proof (pow2_bits_le bits ltac:(lia)).
    rewrite magnitude_above by nia. done. }
  assert (len_ X = last + 1) as El by lia. destruct (value_top h X last Hok H0 El) as [Ev Hlow].
  do 2 digit_step. replace (digits_ X + (last + 1 - 1)) with (digits_ X + last) by lia.
  set (x := cell h _) in *. rewrite Ev. set (lo := sum _ _ last) in *.
  destruct (Z.ltb_spec x (2 ^ (bits - 1))); [digit_step; split; [done|]; by rewrite magnitude_below by nia|].
  destruct (Z.ltb_spec (2 ^ (bits - 1)) x); [digit_step; split; [done|]; by rewrite magnitude_above by nia|].
  assert (x = 2 ^ (bits - 1)) as -> by lia. destruct xn; cbn [negb].
  - digit_step. eapply wp_mono; [apply any_digit_down_spec; [done|lia]|]. intros r h' [-> ->].
    digit_step. split; [done|]. replace (last + 1 - 2 + 1) with last by lia. fold lo.
    unfold magnitude_fits.
    destruct (Z.eqb_spec lo 0), (Z.leb_spec (lo + 2 ^ (bits - 1) * kBase ^ last) (kBase ^ last * 2 ^ (bits - 1)));
      cbn [negb]; (done || lia).
  - digit_step. split; [done|]. unfold magnitude_fits. by case_ltb.
Qed.

(** ** [AsIntN] *)

Lemma land_pow2 a k : 0 <= k -> Z.land a (2 ^ k) = if Z.testbit a k then 2 ^ k else 0.
Proof.
  intros Hk. apply Z.bits_inj'. intros i Hi. rewrite Z.land_spec, Z.pow2_bits_eqb by done.
  destruct (Z.eqb_spec k i) as [->|].
  - destruct (Z.testbit a i); [by rewrite Z.pow2_bits_true|by rewrite Z.bits_0].
  - rewrite andb_false_r. destruct (Z.testbit a k); [by rewrite Z.pow2_bits_false|by rewrite Z.bits_0].
Qed.

Lemma top_bit_split x bits :
  0 < bits -> x mod 2 ^ bits = x mod 2 ^ (bits - 1) + Z.b2z (Z.testbit x (bits - 1)) * 2 ^ (bits - 1).
Proof.
  intros Hb. destruct (pow2_half bits Hb) as [H0 ->]. rewrite (Z.mul_comm 2), Z.rem_mul_r by lia.
  rewrite Z.testbit_spec' by lia. lia.
Qed.

(** The bit [AsIntN] looks at tells whether the rest is in the upper half. *)
Lemma AsIntN_parts h X n last bits :
  heap_ok h -> top_bits n last bits -> last < len_ X ->
  let x := cell h (digits_ X + last) in
  let lo := sum (cell h) (digits_ X) last in
  let m := x mod 2 ^ (bits - 1) in
  value h X mod 2 ^ n = lo + m * kBase ^ last + Z.b2z (Z.testbit x (bits - 1)) * 2 ^ (n - 1) /\
  0 <= lo /\ 0 <= m /\ 0 <= lo + m * kBase ^ last < 2 ^ (n - 1) /\ 0 < kBase ^ last.
Proof.
  intros Hok Ht Hl. cbn zeta. pose proof Ht as [H0 Hb _].
  rewrite (value_mod_bits h X n last bits), (top_half n last bits), top_bit_split by (done || lia).
  pose proof (sum_range (cell h) (digits_ X) last Hok H0) as Hs.
  destruct (pow2_half bits ltac:(lia)) as [Hp _]. pose proof (kBase_pow_pos last H0).
  pose proof (Z.mod_pos_bound (cell h (digits_ X + last)) (2 ^ (bits - 1)) Hp) as Hm.
  split; [lia|]. split; [lia|]. split; [lia|]. split; [nia|lia].
Qed.

(** What the sign scan after the subtraction reads. *)
Lemma sum_wrote h h' Z_ X i :
  wrote h h' Z_ (len_ Z_) -> disjoint Z_ X -> i <= len_ X ->
  sum (cell h') (digits_ X) i = sum (cell h) (digits_ X) i.
Proof. intros [_ _ Hf] [H|H] Hi; apply sum_ext; intros j Hj; apply Hf; lia. Qed.

(** The sign of the result when the highest bit is set. *)
Lemma AsIntN_negated n v (xn : bool) t (c : bool) :
  0 < n -> v mod 2 ^ n = t + 2 ^ (n - 1) -> 0 <= t < 2 ^ (n - 1) ->
  c = (if xn then t =? 0 else true) ->
  signed c ((- v) mod 2 ^ n) = wrap_signed n (signed xn v).
Proof.
  intros Hn Ev Ht ->. destruct (pow2_half n Hn) as [H0 Hp]. pose proof (Z.div_mod v (2 ^ n) ltac:(lia)) as Ed.
  rewrite <- (negated_mod (2 ^ (n - 1) - t) v (v / 2 ^ n + 1) (2 ^ n)) by lia.
  symmetry. unfold signed. destruct xn.
  - destruct (Z.eqb_spec t 0) as [->|].
    + apply (wrap_signed_eq _ _ _ (- (v / 2 ^ n))); [done|unfold fits_signed; bool_lia|lia].
    + apply (wrap_signed_eq _ _ _ (- (v / 2 ^ n) - 1)); [done|unfold fits_signed; bool_lia|lia].
  - apply (wrap_signed_eq _ _ _ (v / 2 ^ n + 1)); [done|unfold fits_signed; bool_lia|lia].
Qed.

Lemma AsIntN_kept n v xn t :
  0 < n -> v mod 2 ^ n = t -> 0 <= t < 2 ^ (n - 1) -> signed xn t = wrap_signed n (signed xn v).
Proof.
  intros Hn Ev Ht. destruct (pow2_half n Hn) as [H0 Hp]. pose proof (Z.div_mod v (2 ^ n) ltac:(lia)) as Ed.
  symmetry. unfold signed. destruct xn.
  - apply (wrap_signed_eq _ _ _ (- (v / 2 ^ n))); [done|unfold fits_signed; bool_lia|lia].
  - apply (wrap_signed_eq _ _ _ (v / 2 ^ n)); [done|unfold fits_signed; bool_lia|lia].
Qed.

Lemma AsIntN_spec h Z_ X xn n :
  heap_ok h -> is_normalized h X -> disjoint Z_ X -> 0 < n ->
  fits_signed n (signed xn (value h X)) = false -> len_ Z_ = DIV_CEIL n kDigitBits ->
  wp (AsIntN Z_ X xn n)
    (fun zn h' => wrote h h' Z_ (len_ Z_) /\
       signed zn (value h' Z_) = wrap_signed n (signed xn (value h X))) h.
Proof.
  intros Hok HX Hdis Hn Hfit HlZ. destruct (top_bits_of n Hn) as (bits & Ht & _ & Er).
  pose proof Ht as [H0 Hb _]. pose proof (proj1 HX) as HlX.
  assert (Ho : in_order Z_ X) by (apply disjoint_in_order; [done|lia]).
  assert (Hl : DIV_CEIL n kDigitBits <= len_ X).
  { destruct (Z_le_gt_dec (DIV_CEIL n kDigitBits) (len_ X)); [done|exfalso].
    rewrite fits_signed_magnitude, magnitude_below in Hfit; [done| |done|by apply value_range].
    rewrite (top_half _ _ _ Ht). pose proof (value_range h X Hok HlX).
    assert (kBase ^ len_ X <= kBase ^ (DIV_CEIL n kDigitBits - 1)) by (apply kBase_pow_mono; lia).
    destruct (pow2_half bits) as [? _]; [lia|]. nia. }
  unfold AsIntN. do 4 digit_step. digit_step.
  eapply wp_mono; [by apply AsIntNResultLength_spec|]. intros r h' [-> ->]. rewrite Hfit.
  do 4 digit_step. rewrite Er. destruct (top_compare bits Hb) as (Ec & Hc & _). rewrite Ec.
  destruct (AsIntN_parts h X n _ bits Hok Ht) as (Ev & Hlo & Hm & Hr & HB); [lia|].
  set (last := DIV_CEIL n kDigitBits - 1) in *. set (x := cell h (digits_ X + last)) in *.
  rewrite land_pow2 by lia. destruct (Z.testbit x (bits - 1)) eqn:Eb; cbn [Z.b2z] in Ev.
  - rewrite Z.eqb_refl. cbn [negb]. rewrite Z.mul_1_l in Ev. digit_step.
    eapply wp_mono; [apply TruncateAndSubFromPowerOfTwo_spec; (done || lia)|]. intros [] h1 H1.
    rewrite <- HlZ in H1. apply accumulated_done in H1 as [Hw Hv1].
    assert (Ed : 0 <= DIV_CEIL n kDigitBits - 2 + 1) by lia.
    destruct xn; cbn [negb].
    2: { digit_step. split; [done|]. rewrite Hv1. apply (AsIntN_negated n _ _ _ _ Hn Ev); [lia|done]. }
    rewrite <- Ec, low_bits_mask by lia.
    destruct (Z.eqb_spec (x mod 2 ^ (bits - 1)) 0) as [E0|E0]; cbn [negb].
    + digit_step. eapply wp_mono; [apply any_digit_down_spec; [apply Hw|lia]|]. intros any h2 [-> ->].
      digit_step. split; [done|]. rewrite Hv1. apply (AsIntN_negated n _ _ _ _ Hn Ev); [lia|].
      rewrite negb_involutive, (sum_wrote h h1 Z_) by (done || lia).
      replace (DIV_CEIL n kDigitBits - 2 + 1) with last by lia. rewrite E0. f_equal. lia.
    + digit_step. split; [done|]. rewrite Hv1. apply (AsIntN_negated n _ _ _ _ Hn Ev); [lia|].
      symmetry. apply Z.eqb_neq. nia.
  - destruct (Z.eqb_spec 0 (2 ^ (bits - 1))); [lia|]. cbn [negb]. digit_step.
    eapply wp_mono; [apply TruncateToNBits_spec; (done || lia)|]. intros [] h1 H1. digit_step.
    rewrite <- HlZ in H1. apply accumulated_done in H1 as [Hw ->]. split; [done|].
    rewrite Ev. apply (AsIntN_kept n); [done|done|lia].
Qed.

(** ** [AsUintN] *)

Lemma AsUintN_Pos_ResultLength_spec h X n :
  heap_ok h -> is_normalized h X -> 0 < n ->
  wp (AsUintN_Pos_ResultLength X n)
    (fun r h' => h' = h /\ r = if value h X <? 2 ^ n then -1 else DIV_CEIL n kDigitBits) h.
Proof.
  intros Hok HX Hn. destruct (top_bits_of n Hn) as (bits & Ht & Er & _). pose proof Ht as [H0 Hb _].
  unfold AsUintN_Pos_ResultLength. rewrite Er. pose proof (value_range h X Hok (proj1 HX)) as Hv.
  pose proof (top_pow _ _ _ Ht) as Ep.
  set (last := DIV_CEIL n kDigitBits - 1) in *. replace (DIV_CEIL n kDigitBits) with (last + 1) by lia.
  pose proof (kBase_pow_pos last H0) as HB. pose proof (pow2_bits_le bits ltac:(lia)) as Hp.
  destruct (Z.ltb_spec (len_ X) (last + 1)) as [Hl|Hl].
  { digit_step. split; [done|]. pose proof (kBase_pow_mono (len_ X) last ltac:(lia)).
    destruct (Z.ltb_spec (value h X) (2 ^ n)); [done|nia]. }
  destruct (Z.ltb_spec (last + 1) (len_ X)) as [Hl'|Hl'].
  { digit_step. split; [done|]. pose proof (normal_lower h X (last + 1) Hok HX ltac:(lia)) as Hv'.
    rewrite kBase_pow_succ in Hv' by done. destruct (Z.ltb_spec (value h X) (2 ^ n)); [nia|done]. }
  assert (len_ X = last + 1) as El by lia. destruct (value_top h X last Hok H0 El) as [Ev Hlow].
  destruct (Z.eqb_spec bits kDigitBits) as [->|Hne]; cbn [Z.eqb].
  { digit_step. split; [done|]. rewrite El, kBase_pow_succ in Hv by done. fold kBase in Ep.
    destruct (Z.ltb_spec (value h X) (2 ^ n)); [done|nia]. }
  destruct (Z.eqb_spec bits 0); [lia|]. do 3 digit_step. split; [done|].
  replace (digits_ X + (last + 1 - 1)) with (digits_ X + last) by lia. rewrite Z.shiftr_div_pow2 by lia.
  pose proof (Hok (digits_ X + last)) as Hx. unfold is_digit in Hx. set (x := cell h _) in *.
  pose proof (Z.div_mod x (2 ^ bits) ltac:(lia)). pose proof (Z.mod_pos_bound x (2 ^ bits) ltac:(lia)).
  destruct (Z.eqb_spec (x / 2 ^ bits) 0), (Z.ltb_spec (value h X) (2 ^ n)); (done || nia).
Qed.

Lemma AsUintN_Pos_spec h Z_ X n :
  heap_ok h -> is_normalized h X -> in_order Z_ X -> 0 < n -> 2 ^ n <= value h X -> len_ Z_ = DIV_CEIL n kDigitBits ->
  wp (AsUintN_Pos Z_ X n)
    (fun _ h' => wrote h h' Z_ (len_ Z_) /\ value h' Z_ = value h X mod 2 ^ n) h.
Proof.
  intros Hok HX Ho Hn Hv HlZ. destruct (top_bits_of n Hn) as (bits & Ht & _). pose proof Ht as [H0 Hb _].
  assert (Hl : DIV_CEIL n kDigitBits <= len_ X).
  { destruct (Z_le_gt_dec (DIV_CEIL n kDigitBits) (len_ X)); [done|exfalso].
    rewrite (top_pow _ _ _ Ht) in Hv. pose proof (value_range h X Hok (proj1 HX)).
    assert (kBase ^ len_ X <= kBase ^ (DIV_CEIL n kDigitBits - 1)) by (apply kBase_pow_mono; lia).
    pose proof (pow2_bits_le bits ltac:(lia)). nia. }
  unfold AsUintN_Pos. digit_step. eapply wp_mono; [by apply AsUintN_Pos_ResultLength_spec|].
  intros r h' [-> ->]. rewrite (proj2 (Z.ltb_ge _ _) Hv). do 2 digit_step.
  eapply wp_mono; [apply TruncateToNBits_spec; (done || lia)|]. intros u h1 H1.
  rewrite <- HlZ in H1. by apply accumulated_done.
Qed.

Lemma AsUintN_Neg_spec h Z_ X n :
  heap_ok h -> in_order Z_ X -> 0 <= len_ X -> 0 < n -> len_ Z_ = AsUintN_Neg_ResultLength n ->
  wp (AsUintN_Neg Z_ X n)
    (fun _ h' => wrote h h' Z_ (len_ Z_) /\ value h' Z_ = (- value h X) mod 2 ^ n) h.
Proof.
  intros Hok Ho HlX Hn HlZ. change (AsUintN_Neg_ResultLength n) with (DIV_CEIL n kDigitBits) in HlZ.
  eapply wp_mono; [apply TruncateAndSubFromPowerOfTwo_spec; (done || lia)|]. intros u h1 H1.
  rewrite <- HlZ in H1. by apply accumulated_done.
Qed.

End TruncateSpec.
