(* ===== verification/BigIntInterrupts.v ===== *)
(** * Interrupt queries

    The slow algorithms count their work and now and then ask the embedder
    whether to stop. Whatever a run computes, its processor ends with the status
    that the answers to the queries of the run determine. *)

From stdpp Require Import base list numbers.
From Stdlib Require Import ZArith Lia Bool.
From S2P Require Import Prelude.
From S2P Require Import BigIntDigits.
From S2P Require Import BigIntVectors.
From S2P Require Import BigIntMul.
From S2P Require Import BigIntShift.
From S2P Require Import BigIntDiv.

Local Open Scope Z_scope.
Local Open Scope prog_scope.

Section Interrupts.
Context {T : DigitTarget} {P : Platform}.
Local Abbreviation HM := (M Heap).

(** One of [n] queries from the [q]-th on is answered with yes. *)
Definition interrupted_within (q n : nat) : bool := existsb InterruptRequested (seq q n).

(** What the queries between two states do to the status. *)
Record polled (h h' : Heap) : Prop := {
  polled_count : (queries (proc h) <= queries (proc h'))%nat;
  polled_status : status_ (proc h') =
    if interrupted_within (queries (proc h)) (queries (proc h') - queries (proc h)) then kInterrupted
    else status_ (proc h)
}.

Definition polls {A} (m : HM A) : Prop := forall h a h', m h = Ok (a, h') -> polled h h'.

Lemma polled_same h h' :
  queries (proc h') = queries (proc h) -> status_ (proc h') = status_ (proc h) -> polled h h'.
Proof. intros E1 E2. constructor; [lia|]. by rewrite E1, Nat.sub_diag. Qed.

Lemma polled_trans h1 h2 h3 : polled h1 h2 -> polled h2 h3 -> polled h1 h3.
Proof.
  intros [L1 S1] [L2 S2]. constructor; [lia|]. unfold interrupted_within in *.
  replace (queries (proc h3) - queries (proc h1))%nat
    with ((queries (proc h2) - queries (proc h1)) + (queries (proc h3) - queries (proc h2)))%nat by lia.
  rewrite seq_app, existsb_app.
  replace (queries (proc h1) + (queries (proc h2) - queries (proc h1)))%nat with (queries (proc h2)) by lia.
  rewrite S2, S1. by destruct (existsb _ (seq (queries (proc h1)) _)), (existsb _ (seq (queries (proc h2)) _)).
Qed.

Lemma polls_ret {A} (a : A) : polls (ret a).
Proof. intros h a' h' [= _ ->]. by apply polled_same. Qed.

Lemma polls_bind {A B} (m : HM A) (k : A -> HM B) : polls m -> (forall a, polls (k a)) -> polls (bind m k).
Proof.
  intros Hm Hk h b h' E. unfold bind in E. destruct (m h) as [[a h1]| |] eqn:E1; [|done..].
  eapply polled_trans; [by eapply Hm|by eapply Hk].
Qed.

Lemma polls_gets {A} (f : Heap -> A) : polls (gets f).
Proof. intros h a' h' [= _ ->]. by apply polled_same. Qed.

Lemma polls_modify f : (forall h, polled h (f h)) -> polls (modify f).
Proof. intros Hf h [] h' E. injection E as <-. apply Hf. Qed.

Lemma polls_undefined {A} : polls (@undefined Heap A).
Proof. by intros h a h'. Qed.

Lemma polls_out_of_fuel {A} : polls (fun _ => @OutOfFuel (A * Heap)).
Proof. by intros h a h'. Qed.

Lemma polls_loop {A B} fuel (body : A -> HM (A + B)) a : (forall a, polls (body a)) -> polls (loop fuel body a).
Proof.
  intros Hb. revert a. induction fuel as [|n IH]; intros a; cbn [loop]; [apply polls_out_of_fuel|].
  apply polls_bind; [done|]. intros [a'|b]; [done|apply polls_ret].
Qed.

Lemma polls_for_loop {A} n step i (body : Z -> A -> HM A) a :
  (forall i a, polls (body i a)) -> polls (for_loop n step i body a).
Proof.
  intros Hb. revert i a. induction n as [|n IH]; intros i a; cbn [for_loop]; [apply polls_ret|].
  by apply polls_bind.
Qed.

Lemma polls_for_up {A} lo hi (body : Z -> A -> HM A) a :
  (forall i a, polls (body i a)) -> polls (for_up lo hi body a).
Proof. apply polls_for_loop. Qed.

Lemma polls_for_down {A} hi lo (body : Z -> A -> HM A) a :
  (forall i a, polls (body i a)) -> polls (for_down hi lo body a).
Proof. apply polls_for_loop. Qed.

Lemma polls_AddWorkEstimate e : polls (AddWorkEstimate e).
Proof.
  apply polls_modify. intros h. cbn zeta. destruct (_ <=? _); [|by apply polled_same].
  constructor; cbn; [lia|]. replace (S (queries (proc h)) - queries (proc h))%nat with 1%nat by lia.
  unfold interrupted_within. cbn [seq existsb]. by rewrite orb_false_r.
Qed.

Lemma polls_get D i : polls (get D i).
Proof. unfold get. destruct (_ && _); [apply polls_gets|apply polls_undefined]. Qed.

Lemma polls_set D i v : polls (set D i v).
Proof.
  unfold set. destruct (_ && _); [|apply polls_undefined]. apply polls_modify. intros h. by apply polled_same.
Qed.

Lemma polls_DCHECK b : polls (DCHECK b).
Proof. destruct b; [apply polls_ret|apply polls_undefined]. Qed.

Lemma polls_with_scratch {A} n (body : Digits -> HM A) : (forall D, polls (body D)) -> polls (with_scratch n body).
Proof.
  intros Hb. apply polls_bind; [apply polls_gets|]. intros base.
  repeat (apply polls_bind; [done || (apply polls_modify; intros; by apply polled_same)|]; intros).
  apply polls_ret.
Qed.

End Interrupts.

Create HintDb polls discriminated.
#[export] Hint Resolve polls_ret polls_gets polls_undefined polls_out_of_fuel polls_AddWorkEstimate polls_get
  polls_set polls_DCHECK : polls.

(** Follows the structure of a program, into the operations it calls. *)
Ltac polls_step :=
  lazymatch goal with
  | |- forall _, _ => intro
  | |- polls (bind _ _) => apply polls_bind
  | |- polls (for_up _ _ _ _) => apply polls_for_up
  | |- polls (for_down _ _ _ _) => apply polls_for_down
  | |- polls (loop _ _ _) => apply polls_loop
  | |- polls (with_scratch _ _) => apply polls_with_scratch
  | |- polls (match ?x with _ => _ end) => destruct x
  | |- polls (let '_ := ?x in _) => destruct x
  | |- polls ?m => first [solve [auto with polls] | let f := head_of m in progress unfold f]
  end.
Ltac polls_tac := cbv zeta; repeat (cbv beta; polls_step).

Section Operations.
Context {T : DigitTarget} {P : Platform}.

Lemma polls_slice D o l : polls (slice D o l).
Proof. unfold slice. polls_tac. Qed.

Lemma polls_plus D i : polls (plus D i).
Proof. unfold plus. polls_tac. Qed.

Lemma polls_msd D : polls (msd D).
Proof. unfold msd. polls_tac. Qed.
#[local] Hint Resolve polls_msd : polls.

Lemma polls_Normalize D : polls (Normalize D).
Proof. unfold Normalize. polls_tac. Qed.

Lemma polls_Clear D : polls (Clear D).
Proof. unfold Clear, zero_at. polls_tac. Qed.

Lemma polls_Compare A B : polls (Compare A B).
Proof. unfold Compare, compare_digits, Normalize. polls_tac. Qed.

Lemma polls_GreaterThanOrEqual A B : polls (GreaterThanOrEqual A B).
Proof. unfold GreaterThanOrEqual. pose proof polls_Compare. polls_tac. Qed.

Lemma polls_copy_at Z_ X i u : polls (copy_at Z_ X i u).
Proof. unfold copy_at. polls_tac. Qed.

Lemma polls_zero_at Z_ i u : polls (zero_at Z_ i u).
Proof. unfold zero_at. polls_tac. Qed.

Lemma polls_subtract_digits Z_ X Y : polls (subtract_digits Z_ X Y).
Proof. unfold subtract_digits, sub2_at, sub_at, zero_at. polls_tac. Qed.

Lemma polls_AddAndReturnOverflow Z_ X : polls (AddAndReturnOverflow Z_ X).
Proof. pose proof polls_Normalize. unfold AddAndReturnOverflow, while_carry, add3_at, add2_at. polls_tac. Qed.

Lemma polls_SubAndReturnBorrow Z_ X : polls (SubAndReturnBorrow Z_ X).
Proof. pose proof polls_Normalize. unfold SubAndReturnBorrow, while_carry, sub2_at, sub_at. polls_tac. Qed.

Lemma polls_MultiplySingle Z_ X y : polls (MultiplySingle Z_ X y).
Proof. unfold MultiplySingle, zero_at. polls_tac. Qed.

Lemma polls_BODY Z_ X Y i a b l : polls (BODY Z_ X Y i a b l).
Proof. unfold BODY, column_product. polls_tac. Qed.

Lemma polls_MultiplySchoolbook Z_ X Y : polls (MultiplySchoolbook Z_ X Y).
Proof.
  pose proof polls_BODY. pose proof polls_Clear. unfold MultiplySchoolbook, IsDigitNormalized, zero_at. polls_tac.
Qed.

End Operations.

#[export] Hint Resolve polls_slice polls_plus polls_msd polls_Normalize polls_Clear polls_Compare
  polls_GreaterThanOrEqual polls_copy_at polls_zero_at polls_subtract_digits polls_AddAndReturnOverflow
  polls_SubAndReturnBorrow polls_MultiplySingle polls_MultiplySchoolbook : polls.

(** A run that ends, with the status it ends in. *)
Lemma wp_polls {T : DigitTarget} {P : Platform} {A} (m : M Heap A) (Q : A -> Heap -> Prop) h :
  polls m -> wp m Q h -> wp m (fun a h' => Q a h' /\ polled h h') h.
Proof.
  intros Hp H. unfold wp in *. destruct (m h) as [[a h']| |] eqn:E; [|done..]. split; [done|by eapply Hp].
Qed.
