(* ===== verification/BigIntKaratsuba.v ===== *)
(** * Karatsuba multiplication

    [src/bigint/mul-karatsuba.cc] with the rounding of lengths of
    [src/bigint/util.h]. The recursions carry fuel: a call of [KaratsubaMain]
    halves the length, and a call of [KaratsubaChunk] from [KaratsubaStart] gets
    operands with fewer digits in all. *)

From stdpp Require Import base list numbers.
From Stdlib Require Import ZArith Lia Bool.
From S2P Require Import Prelude.
From S2P Require Import BigIntDigits.
From S2P Require Import BigIntVectors.
From S2P Require Import BigIntMul.
From S2P Require Import BigIntDiv.

Local Open Scope Z_scope.
Local Open Scope prog_scope.

(** Whether the library is built with the algorithms for the longest operands. *)
Class BigIntBuild := V8_ADVANCED_BIGINT_ALGORITHMS : bool.

(** ** Lengths *)

Definition RoundUp (x y : Z) : Z := Z.land (x + y - 1) (- y).

Definition CountLeadingZeros32 (value : Z) : Z := if value =? 0 then 32 else 31 - Z.log2 value.

(** [BitLength(int)] of [util.h]. *)
Definition int_BitLength (n : Z) : Z := 32 - CountLeadingZeros32 (uint32 n).

Definition kKaratsubaThreshold : Z := 34.

Definition RoundUpLen (len : Z) : Z :=
  if len <=? 36 then RoundUp len 2
  else
    let shift := int_BitLength len - 5 in
    let shift := (if 0x18 <=? Z.shiftr len shift then shift + 1 else shift) in
    let additive := Z.shiftl 1 shift - 1 in
    if (2 <=? shift) && (Z.land len additive <? Z.shiftl 1 (shift - 2)) then len
    else Z.shiftl (Z.shiftr (len + additive) shift) shift.

(** The loop of [KaratsubaLength]; an [int] is halved at most 31 times. *)
Fixpoint halve_above_threshold (fuel : nat) (n i : Z) : option Z :=
  match fuel with
  | O => None
  | S fuel =>
      if kKaratsubaThreshold <? n then halve_above_threshold fuel (Z.shiftr n 1) (i + 1)
      else Some (Z.shiftl n i)
  end.

Definition KaratsubaLength (n : Z) : option Z := halve_above_threshold 32 (RoundUpLen n) 0.

Section Karatsuba.
Context {T : DigitTarget} {P : Platform} {BB : BigIntBuild}.
Local Abbreviation HM := (M Heap).

Definition KaratsubaLengthM (n : Z) : HM Z :=
  match KaratsubaLength n with Some k => ret k | None => fun _ => OutOfFuel end.

(** [KaratsubaSubtractionHelper]: gives back the new sign. *)
Definition KaratsubaSubtractionHelper (result X Y : Digits) (sign : Z) : HM Z :=
  let* X := Normalize X in
  let* Y := Normalize Y in
  let* ge := GreaterThanOrEqual X Y in
  let '(sign, X, Y) := (if negb ge then (- sign, Y, X) else (sign, X, Y)) in
  subtract_digits result X Y ;;;
  ret sign.

(** ** Termination requests *)

Definition should_terminate : HM bool :=
  gets (fun h => match status_ (proc h) with kInterrupted => true | kOk => false end).

(** [MAYBE_TERMINATE], followed by the rest of the function. *)
Definition maybe_terminate (rest : HM unit) : HM unit :=
  if V8_ADVANCED_BIGINT_ALGORITHMS then rest
  else let* stop := should_terminate in if stop : bool then ret tt else rest.

(** ** The algorithm *)

(** The end of [KaratsubaMain], from the two outer products in [scratch] on;
    [Main] is the recursive call. *)
Definition combine_products (Main : Digits -> Digits -> Digits -> HM unit)
    (Z_ X0 X1 Y0 Y1 P0 P2 scratch : Digits) (n n2 : Z) : HM unit :=
  let* Z2 := plus Z_ n in
  let end_ := Z.min (len_ Z2) (len_ P2) in
  for_up 0 end_ (copy_at Z2 P2) tt ;;;
  for_up end_ n (fun i _ => let* d := get P2 i in DCHECK (d =? 0)) tt ;;;
  let* Zm := plus Z_ n2 in
  let* overflow := AddAndReturnOverflow Zm P0 in
  let* c := AddAndReturnOverflow Zm P2 in
  let overflow := digit_t (overflow + c) in
  let* X_diff := slice scratch 0 n2 in
  let* Y_diff := slice scratch n2 n2 in
  let* sign := KaratsubaSubtractionHelper X_diff X1 X0 1 in
  let* sign := KaratsubaSubtractionHelper Y_diff Y0 Y1 sign in
  let* P1 := slice scratch n n in
  Main P1 X_diff Y_diff ;;;
  let* overflow :=
    (if 0 <? sign then let* c := AddAndReturnOverflow Zm P1 in ret (digit_t (overflow + c))
     else let* c := SubAndReturnBorrow Zm P1 in ret (digit_t (overflow - c))) in
  DCHECK (overflow =? 0).

Fixpoint KaratsubaMain (fuel : nat) (Z_ X Y scratch : Digits) (n : Z) : HM unit :=
  match fuel with
  | O => fun _ => OutOfFuel
  | S fuel =>
      if n <? kKaratsubaThreshold then
        let* X := Normalize X in
        let* Y := Normalize Y in
        let* Z_low := slice Z_ 0 (2 * n) in
        if len_ Y <=? len_ X then MultiplySchoolbook Z_low X Y else MultiplySchoolbook Z_low Y X
      else
        DCHECK (4 * n <=? len_ scratch) ;;;
        DCHECK (Z.land n 1 =? 0) ;;;
        let n2 := Z.shiftr n 1 in
        let* X0 := slice X 0 n2 in
        let* X1 := slice X n2 n2 in
        let* Y0 := slice Y 0 n2 in
        let* Y1 := slice Y n2 n2 in
        let* scratch_for_recursion := slice scratch (2 * n) (2 * n) in
        let* P0 := slice scratch 0 n in
        KaratsubaMain fuel P0 X0 Y0 scratch_for_recursion n2 ;;;
        maybe_terminate (
          for_up 0 n (copy_at Z_ P0) tt ;;;
          let* P2 := slice scratch n n in
          KaratsubaMain fuel P2 X1 Y1 scratch_for_recursion n2 ;;;
          maybe_terminate (
            combine_products (fun Z_ X Y => KaratsubaMain fuel Z_ X Y scratch_for_recursion n2)
              Z_ X0 X1 Y0 Y1 P0 P2 scratch n n2))
  end.

(** The loop of [KaratsubaStart] over the chunks of [X] behind the first. *)
Fixpoint chunk_loop (fuel : nat) (Chunk : Digits -> Digits -> Digits -> Digits -> HM unit)
    (Z_ X Y0 Y1 scratch T_ : Digits) (k i : Z) : HM unit :=
  match fuel with
  | O => fun _ => OutOfFuel
  | S fuel =>
      if i <? len_ X then
        let* Xi := slice X i k in
        Chunk T_ Xi Y0 scratch ;;;
        maybe_terminate (
          let* Zi := plus Z_ i in
          let* _ := AddAndReturnOverflow Zi T_ in
          if 0 <? len_ Y1 then
            Chunk T_ Xi Y1 scratch ;;;
            maybe_terminate (
              let* Zik := plus Z_ (i + k) in
              let* _ := AddAndReturnOverflow Zik T_ in
              chunk_loop fuel Chunk Z_ X Y0 Y1 scratch T_ k (i + k))
          else chunk_loop fuel Chunk Z_ X Y0 Y1 scratch T_ k (i + k))
      else ret tt
  end.

Definition KaratsubaStart (Chunk : Digits -> Digits -> Digits -> Digits -> HM unit)
    (Z_ X Y scratch : Digits) (k : Z) : HM unit :=
  KaratsubaMain (S (Z.to_nat k)) Z_ X Y scratch k ;;;
  maybe_terminate (
    for_up (2 * k) (len_ Z_) (zero_at Z_) tt ;;;
    if (k <? len_ Y) || negb (len_ X =? len_ Y) then
      with_scratch (2 * k) (fun T_ =>
        let* X0 := slice X 0 k in
        let* Y1 := plus Y (Z.min k (len_ Y)) in
        let rest :=
          (let* Y0 := slice Y 0 k in
           chunk_loop (S (Z.to_nat (len_ X))) Chunk Z_ X Y0 Y1 scratch T_ k k) in
        if 0 <? len_ Y1 then
          Chunk T_ X0 Y1 scratch ;;;
          maybe_terminate (
            let* Zk := plus Z_ k in
            let* _ := AddAndReturnOverflow Zk T_ in
            rest)
        else rest)
    else ret tt).

Fixpoint KaratsubaChunk (fuel : nat) (Z_ X Y scratch : Digits) : HM unit :=
  match fuel with
  | O => fun _ => OutOfFuel
  | S fuel =>
      let* X := Normalize X in
      let* Y := Normalize Y in
      if (len_ X =? 0) || (len_ Y =? 0) then Clear Z_
      else
        let '(X, Y) := (if len_ X <? len_ Y then (Y, X) else (X, Y)) in
        if len_ Y =? 1 then let* y := get Y 0 in MultiplySingle Z_ X y
        else if len_ Y <? kKaratsubaThreshold then MultiplySchoolbook Z_ X Y
        else
          let* k := KaratsubaLengthM (len_ Y) in
          DCHECK (4 * k <=? len_ scratch) ;;;
          KaratsubaStart (KaratsubaChunk fuel) Z_ X Y scratch k
  end.

Definition MultiplyKaratsuba (Z_ X Y : Digits) : HM unit :=
  DCHECK (len_ Y <=? len_ X) ;;;
  DCHECK (kKaratsubaThreshold <=? len_ Y) ;;;
  DCHECK (len_ X + len_ Y <=? len_ Z_) ;;;
  let* k := KaratsubaLengthM (len_ Y) in
  with_scratch (4 * k) (fun scratch =>
    KaratsubaStart (KaratsubaChunk (Z.to_nat (len_ X + len_ Y))) Z_ X Y scratch k).

End Karatsuba.
