(* ===== verification/BigIntKaratsubaSpec.v ===== *)
(** * Correctness of the Karatsuba multiplication

    The rounded length is a small number times a power of two, so that the
    recursion halves it evenly; each level combines three half-size products into
    the product, with carries that may leave the result for a while and come back;
    and the chunks of operands of unequal lengths add up to the whole product. *)

From stdpp Require Import base list numbers.
From Stdlib Require Import ZArith Lia Bool.
From S2P Require Import Prelude.
From S2P Require Import BigIntDigits.
From S2P Require Import BigIntVectors.
From S2P Require Import BigIntMemory.
From S2P Require Import BigIntArithmetic.
From S2P Require Import BigIntMul.
From S2P Require Import BigIntShift.
From S2P Require Import BigIntDiv.
From S2P Require Import BigIntDivSpec.
From S2P Require Import BigIntTruncateSpec.
From S2P Require Import BigIntInterrupts.
From S2P Require Import BigIntKaratsuba.

Local Open Scope Z_scope.
Local Open Scope prog_scope.

(** ** Lengths *)

(** What the rounding of a length achieves: [s] is the number of low bits that
    are cleared. *)
Record rounded (n k s c : Z) : Prop := {
  rd_shift : 1 <= s;
  rd_range : 12 * 2 ^ s <= n < 24 * 2 ^ s;
  rd_length : k = c * 2 ^ s;
  rd_factor : 12 <= c <= 24;
  rd_upper : k < n + 2 ^ s;
  rd_lower : n < k + 2 ^ s;
  rd_small : s = 1 -> n <= k
}.

Lemma RoundUpLen_shift n :
  37 <= n < 2 ^ 31 ->
  let shift := int_BitLength n - 5 in
  let s := if 0x18 <=? Z.shiftr n shift then shift + 1 else shift in
  1 <= s <= 27 /\ 12 * 2 ^ s <= n < 24 * 2 ^ s.
Proof.
  intros Hn shift s. assert (Es : shift = Z.log2 n - 4).
  { unfold shift, int_BitLength, CountLeadingZeros32. rewrite uint32_small by lia.
    destruct (Z.eqb_spec n 0); lia. }
  destruct (Z.log2_spec n ltac:(lia)) as [L1 L2]. assert (Hl : 5 <= Z.log2 n <= 30).
  { split; [apply (Z.log2_le_mono 32 n); lia|]. pose proof (Z.log2_lt_pow2 n 31 ltac:(lia)). lia. }
  subst s. rewrite Es. clear shift Es. rewrite Z.shiftr_div_pow2 by lia.
  replace (Z.succ (Z.log2 n)) with (Z.log2 n - 4 + 5) in L2 by lia.
  replace (Z.log2 n) with (Z.log2 n - 4 + 4) in L1 at 1 by lia. rewrite Z.pow_add_r in L1, L2 by lia.
  set (e := Z.log2 n - 4) in *. pose proof (pow2_pos e ltac:(lia)).
  destruct (Z.leb_spec 24 (n / 2 ^ e)) as [H1|H1].
  - split; [lia|]. rewrite Z.pow_add_r by lia. pose proof (Z.mul_div_le n (2 ^ e) ltac:(lia)). nia.
  - split; [lia|]. pose proof (Z.mul_succ_div_gt n (2 ^ e) ltac:(lia)). nia.
Qed.

Lemma halve_above_threshold_spec R fuel i :
  0 <= R -> 0 <= i -> (1 <= fuel)%nat -> R < 2 ^ (i + Z.of_nat fuel) ->
  exists j, halve_above_threshold fuel (R / 2 ^ i) i = Some (R / 2 ^ j * 2 ^ j) /\
    i <= j /\ R / 2 ^ j <= 34 /\ (j = i \/ 34 < R / 2 ^ (j - 1)).
Proof.
  intros HR. revert i. induction fuel as [|fuel IH]; intros i Hi Hf Hlt; [lia|].
  cbn [halve_above_threshold]. unfold kKaratsubaThreshold. destruct (Z.ltb_spec 34 (R / 2 ^ i)) as [H|H].
  - pose proof (pow2_pos i Hi). pose proof (Z.mul_div_le R (2 ^ i) ltac:(lia)).
    rewrite Z.pow_add_r in Hlt by lia. assert (fuel <> 0%nat).
    { intros ->. change (2 ^ Z.of_nat 1) with 2 in Hlt. nia. }
    destruct (IH (i + 1)) as (j & Ej & Hj & H34 & Hor); [lia|lia| |].
    { replace (i + 1 + Z.of_nat fuel) with (i + Z.of_nat (S fuel)) by lia. by rewrite Z.pow_add_r by lia. }
    exists j. rewrite Z.shiftr_div_pow2, Z.div_div, <- Z.pow_add_r by lia. split; [done|]. split; [lia|].
    split; [done|]. right. destruct Hor as [->|Hor]; [|done]. by replace (i + 1 - 1) with i by lia.
  - exists i. rewrite Z.shiftl_mul_pow2 by done. split; [done|]. split; [lia|]. split; [done|]. by left.
Qed.

(** Halving a rounded length until it is at most the threshold clears no bit of
    a multiple of [2 ^ s], and less than a quarter of [2 ^ s] above one. *)
Lemma halved_length c s r :
  12 <= c <= 24 -> 1 <= s <= 27 -> 0 <= r -> (r = 0 \/ 2 <= s /\ r < 2 ^ (s - 2)) ->
  halve_above_threshold 32 (c * 2 ^ s + r) 0 = Some (c * 2 ^ s).
Proof.
  intros Hc Hs Hr Hsmall. pose proof (pow2_pos s ltac:(lia)) as Hp. set (R := c * 2 ^ s + r).
  assert (Hr4 : r = 0 \/ 2 <= s /\ 4 * r < 2 ^ s).
  { destruct Hsmall as [->|[H2 Hr2]]; [by left|right]. split; [done|].
    replace s with (s - 2 + 2) by lia. rewrite Z.pow_add_r by lia. lia. }
  assert (HR : 0 <= R < 2 ^ 32).
  { pose proof (Z.pow_le_mono_r 2 s 27 ltac:(lia) ltac:(lia)). change (2 ^ 32) with (32 * 2 ^ 27). subst R. nia. }
  destruct (halve_above_threshold_spec R 32 0) as (j & Ej & Hj & H34 & Hor); [lia|lia|lia|apply HR|].
  rewrite Z.pow_0_r, Z.div_1_r in Ej. rewrite Ej. f_equal. clear Ej.
  assert (Hjs : j <= s).
  { destruct Hor as [->|Hor]; [lia|]. destruct (Z_le_gt_dec j s) as [|Hgt]; [done|].
    assert (R / 2 ^ (j - 1) <= R / 2 ^ s) by (apply Z.div_le_compat_l; [lia|split; [done|apply Z.pow_le_mono_r; lia]]).
    assert (R / 2 ^ s = c) by (symmetry; apply (Z.div_unique _ _ _ r); subst R; lia). lia. }
  assert (Es : 2 ^ s = 2 ^ (s - j) * 2 ^ j) by (rewrite <- Z.pow_add_r by lia; f_equal; lia).
  pose proof (pow2_pos j Hj) as Hpj. pose proof (pow2_pos (s - j) ltac:(lia)).
  assert (Hlt : r < 2 ^ j).
  { destruct Hr4 as [->|[H2 Hr4]]; [done|]. assert (s - 1 <= j).
    { destruct (Z_le_gt_dec (s - 1) j); [done|]. exfalso.
      assert (4 <= 2 ^ (s - j)) by (apply (Z.pow_le_mono_r 2 2); lia).
      assert (c * 4 <= R / 2 ^ j) by (apply Z.div_le_lower_bound; [done|]; subst R; nia). lia. }
    assert (2 ^ (s - 1) <= 2 ^ j) by (apply Z.pow_le_mono_r; lia).
    replace s with (s - 1 + 1) in Hr4 by lia. rewrite Z.pow_add_r in Hr4 by lia. lia. }
  rewrite <- (Z.div_unique R (2 ^ j) (c * 2 ^ (s - j)) r) by (subst R; nia). lia.
Qed.

Lemma KaratsubaLength_spec n :
  34 <= n < 2 ^ 31 -> exists k s c, KaratsubaLength n = Some k /\ rounded n k s c.
Proof.
  intros Hn. destruct (Z_le_gt_dec n 36).
  - assert (n = 34 \/ n = 35 \/ n = 36) as [->|[->| ->]] by lia.
    + exists 34, 1, 17. split; [done|]. constructor; cbn; lia.
    + exists 36, 1, 18. split; [done|]. constructor; cbn; lia.
    + exists 36, 1, 18. split; [done|]. constructor; cbn; lia.
  - unfold KaratsubaLength, RoundUpLen. destruct (Z.leb_spec n 36); [lia|]. cbv zeta.
    pose proof (RoundUpLen_shift n ltac:(lia)) as Hs. cbv zeta in Hs.
    set (s := if 24 <=? _ then _ else _) in *. clearbody s. destruct Hs as [Hs Hr].
    pose proof (pow2_pos s ltac:(lia)) as Hp. rewrite !(Z.shiftl_mul_pow2 _ s), !Z.mul_1_l, Z.shiftr_div_pow2 by lia.
    pose proof (Z.div_mod n (2 ^ s) ltac:(lia)) as Ed. pose proof (Z.mod_pos_bound n (2 ^ s) Hp) as Em.
    assert (12 <= n / 2 ^ s < 24) by nia. 
    replace (2 ^ s - 1) with (Z.ones s) by (rewrite Z.ones_equiv; lia). rewrite Z.land_ones by lia.
    assert (Hceil : forall c, (n + Z.ones s) / 2 ^ s = c ->
      exists k s0 c0, halve_above_threshold 32 (c * 2 ^ s) 0 = Some k /\ rounded n k s0 c0).
    { intros c Ec. rewrite Z.ones_equiv in Ec. assert (c * 2 ^ s <= n + Z.pred (2 ^ s) < c * 2 ^ s + 2 ^ s).
      { subst c. pose proof (Z.div_mod (n + Z.pred (2 ^ s)) (2 ^ s) ltac:(lia)).
        pose proof (Z.mod_pos_bound (n + Z.pred (2 ^ s)) (2 ^ s) Hp). lia. }
      exists (c * 2 ^ s), s, c. assert (12 <= c <= 24) by nia. split.
      - rewrite <- (Z.add_0_r (c * 2 ^ s)) at 1. apply halved_length; [done|done|done|by left].
      - constructor; (done || lia). }
    destruct (Z.leb_spec 2 s) as [H2|H2]; cbn [andb]; [|by apply Hceil].
    rewrite Z.shiftl_mul_pow2, Z.mul_1_l by lia.
    destruct (Z.ltb_spec (n mod 2 ^ s) (2 ^ (s - 2))) as [Hf|Hf]; [|by apply Hceil].
    exists (n / 2 ^ s * 2 ^ s), s, (n / 2 ^ s). split.
    + rewrite Ed at 1. rewrite (Z.mul_comm (2 ^ s)). apply halved_length; [lia|lia|lia|by right].
    + constructor; (done || lia).
Qed.

Lemma rounded_small n k s c :
  rounded n k s c -> 34 <= n -> 34 <= k /\ k + k / 2 <= 2 * n.
Proof.
  intros [H1 H2 H3 H4 H5 H6 H7] Hn. pose proof (pow2_pos s ltac:(lia)). split.
  - destruct (Z.eq_dec s 1) as [->|]; [by specialize (H7 eq_refl); lia|].
    assert (2 ^ 2 <= 2 ^ s) by (apply Z.pow_le_mono_r; lia). nia.
  - pose proof (Z.mul_div_le k 2 ltac:(lia)). lia.
Qed.

(** A chunk no longer than a rounded length is not rounded beyond it. *)
Lemma rounded_mono m k' s' c' n k s c :
  rounded m k' s' c' -> rounded n k s c -> m <= k -> k' <= k.
Proof.
  intros [H1 H2 H3 H4 H5 H6 H7] [G1 G2 G3 G4 G5 G6 G7] Hm.
  pose proof (pow2_pos s ltac:(lia)). pose proof (pow2_pos s' ltac:(lia)).
  assert (Hs : s' <= s \/ s' = s + 1).
  { destruct (Z_le_gt_dec s' (s + 1)); [lia|]. exfalso.
    assert (2 ^ (s + 2) <= 2 ^ s') by (apply Z.pow_le_mono_r; lia). rewrite Z.pow_add_r in * by lia. nia. }
  destruct Hs as [Hs| ->].
  - replace s with (s - s' + s') in G3 by lia. rewrite Z.pow_add_r in G3 by lia.
    pose proof (pow2_pos (s - s') ltac:(lia)). set (q := c * 2 ^ (s - s')).
    assert (Ek : k = q * 2 ^ s') by (subst q; lia).
    assert (c' < q + 1) by (apply (Z.mul_lt_mono_pos_r (2 ^ s')); lia).
    rewrite H3, Ek. apply Z.mul_le_mono_nonneg_r; lia.
  - rewrite Z.pow_add_r, Z.pow_1_r in * by lia. set (p := 2 ^ s) in *. assert (c * p <= 24 * p) by nia.
    assert (m = 24 * p /\ k = 24 * p) as [Em Ek] by lia. assert (c' < 13) by nia. nia.
Qed.

Section KaratsubaSpec.
Context {T : DigitTarget} {P : Platform} {BB : BigIntBuild} {TOK : DigitTargetOK T}.
Local Abbreviation HM := (M Heap).

(** ** Runs that are not cut short *)

(** In a build without the advanced algorithms, no termination is requested. *)
Definition going (h : Heap) : Prop :=
  V8_ADVANCED_BIGINT_ALGORITHMS = true \/ status_ (proc h) = kOk /\ forall n, InterruptRequested n = false.

Lemma quiet_within q n : (forall n, InterruptRequested n = false) -> interrupted_within q n = false.
Proof.
  intros H. unfold interrupted_within. generalize (seq q n). intros l. induction l; [done|]. cbn. by rewrite H.
Qed.

Lemma going_polled h h' : polled h h' -> going h -> going h'.
Proof.
  intros [_ Hs] [H|[H Hq]]; [by left|right]. split; [|done]. by rewrite Hs, quiet_within.
Qed.

Lemma wp_maybe_terminate rest (Q : unit -> Heap -> Prop) h :
  going h -> wp rest Q h -> wp (maybe_terminate rest) Q h.
Proof.
  intros [H|[H _]] Hr; unfold maybe_terminate; [by rewrite H|].
  destruct V8_ADVANCED_BIGINT_ALGORITHMS; [done|]. apply wp_bind, wp_gets. by rewrite H.
Qed.

Lemma polls_maybe_terminate rest : polls rest -> polls (maybe_terminate rest).
Proof. intros H. unfold maybe_terminate, should_terminate. polls_tac. Qed.

(** ** What a call may change *)

(** Nothing in use but [Z_] and the scratch memory [S]. *)
Record touched (h h' : Heap) (Z_ S : Digits) : Prop := {
  tch_ok : heap_ok h';
  tch_free : free h' = free h;
  tch_polled : polled h h';
  tch_frame : forall a, a < free h -> outside Z_ a -> outside S a -> cell h' a = cell h a
}.

Lemma touched_refl h Z_ S : heap_ok h -> touched h h Z_ S.
Proof. intros. constructor; [done|done|by apply polled_same|done]. Qed.

Lemma touched_trans h1 h2 h3 Z_ S : touched h1 h2 Z_ S -> touched h2 h3 Z_ S -> touched h1 h3 Z_ S.
Proof.
  intros [? E1 P1 F1] [? E2 P2 F2]. constructor; [done|congruence|by eapply polled_trans|]. intros a Ha H1 H2. rewrite F2, F1; (done || lia).
Qed.

(** [D] is a part of [S]. *)
Definition inside (D S : Digits) : Prop :=
  digits_ S <= digits_ D /\ digits_ D + len_ D <= digits_ S + len_ S.

Lemma touched_inside h h' D D' Z_ S :
  touched h h' D D' -> inside D Z_ \/ inside D S -> inside D' Z_ \/ inside D' S -> touched h h' Z_ S.
Proof.
  intros [? ? ? F] H1 H2. constructor; [done|done|done|]. intros a Ha Ho1 Ho2.
  apply F; [done| |]; unfold outside, inside in *; lia.
Qed.

Lemma wrote_touched h h' D Z_ S :
  wrote h h' D (len_ D) -> polled h h' -> inside D Z_ \/ inside D S -> touched h h' Z_ S.
Proof.
  intros [? ? F] Hp H. constructor; [done|done|done|]. intros a _ Ho1 Ho2. apply F. unfold outside, inside in *. lia.
Qed.

Lemma touched_sum h h' Z_ S p n :
  touched h h' Z_ S -> disjoint Z_ (mkDigits p n) -> disjoint S (mkDigits p n) -> p + n <= free h ->
  sum (cell h') p n = sum (cell h) p n.
Proof.
  intros [_ _ _ F] H1 H2 H3. apply sum_ext. intros i Hi. unfold disjoint in *. cbn in *.
  apply F; unfold outside; lia.
Qed.

Lemma touched_value h h' Z_ S X :
  touched h h' Z_ S -> disjoint Z_ X -> disjoint S X -> below X (free h) -> value h' X = value h X.
Proof. intros Ht H1 H2 [_ H3]. destruct X. by apply (touched_sum h h' Z_ S). Qed.

(** ** Slices *)

Lemma wp_slice D o l (Q : Digits -> Heap -> Prop) h :
  0 <= o -> Q (mkDigits (digits_ D + o) (Z.max 0 (Z.min (len_ D - o) l))) h -> wp (slice D o l) Q h.
Proof. intros Ho HQ. apply wp_bind, wp_DCHECK; [by apply Z.leb_le|]. by apply wp_ret. Qed.

(** A slice that is inside of its vector. *)
Lemma wp_slice_inside D o l (Q : Digits -> Heap -> Prop) h :
  0 <= o -> 0 <= l -> o + l <= len_ D -> Q (mkDigits (digits_ D + o) l) h -> wp (slice D o l) Q h.
Proof. intros Ho Hl Hd HQ. apply wp_slice; [done|]. by replace (Z.max _ _) with l by lia. Qed.

(** The halves of the low part of a vector. *)
Lemma low_halves h X n2 :
  0 <= n2 -> 0 <= len_ X ->
  low h X (n2 + n2) =
    low h X n2 + kBase ^ n2 * sum (cell h) (digits_ X + n2) (Z.max 0 (Z.min (len_ X - n2) n2)).
Proof.
  intros Hn Hl. unfold low. destruct (Z_le_gt_dec (len_ X) n2).
  - rewrite !Z.min_r by lia. replace (Z.max _ _) with 0 by lia. rewrite sum_0. lia.
  - rewrite (Z.min_l n2) by lia. rewrite <- sum_split by lia. f_equal. lia.
Qed.

(** A view that holds an operand: apart from the result and the scratch memory,
    unless it is empty. *)
Record operand_of (h : Heap) (Z_ S X : Digits) (n : Z) : Prop := {
  op_len : 0 <= len_ X <= n;
  op_below : 0 < len_ X -> digits_ X + len_ X <= free h;
  op_result : 0 < len_ X -> disjoint Z_ X;
  op_scratch : 0 < len_ X -> disjoint S X
}.

Lemma operand_value h h' Z_ S X n : touched h h' Z_ S -> operand_of h Z_ S X n -> value h' X = value h X.
Proof.
  intros Ht [[H0 Hn] HB HZ HS]. destruct (Z.eq_dec (len_ X) 0) as [E|E]; [by rewrite !value_empty by lia|].
  apply (touched_value h h' Z_ S); [done|apply HZ; lia|apply HS; lia|split; [done|apply HB; lia]].
Qed.

Lemma operand_low h h' Z_ S X n m :
  touched h h' Z_ S -> operand_of h Z_ S X n -> 0 <= m -> low h' X m = low h X m.
Proof.
  intros Ht [[H0 Hn] HB HZ HS] Hm. unfold low. destruct (Z.eq_dec (len_ X) 0) as [E|E].
  { by rewrite !sum_nonpos by lia. }
  specialize (HB ltac:(lia)). specialize (HZ ltac:(lia)). specialize (HS ltac:(lia)).
  apply (touched_sum h h' Z_ S); [done|unfold disjoint in *; cbn; lia..].
Qed.

Lemma operand_slice h Z_ S X m o n :
  operand_of h Z_ S X m -> 0 <= o -> 0 <= n ->
  operand_of h Z_ S (mkDigits (digits_ X + o) (Z.max 0 (Z.min (len_ X - o) n))) n.
Proof.
  intros [[H0 Hn] HB HZ HS] Ho Hl. constructor; cbn; [lia|..]; intros H;
    specialize (HB ltac:(lia)); specialize (HZ ltac:(lia)); specialize (HS ltac:(lia));
    unfold disjoint in *; cbn; lia.
Qed.

Lemma operand_kept h h' Z_ S X n : operand_of h Z_ S X n -> free h' = free h -> operand_of h' Z_ S X n.
Proof. intros [] Ef. constructor; rewrite ?Ef; done. Qed.

(** The same operand for a result and scratch memory inside of [S]. *)
Lemma operand_inside h h' Z_ S X n D R :
  operand_of h Z_ S X n -> inside D S -> inside R S -> free h' = free h -> operand_of h' D R X n.
Proof.
  intros [H0 HB HZ HS] HD HR Ef. constructor; [done|..]; intros H; specialize (HB H); specialize (HS H);
    unfold inside, disjoint in *; lia.
Qed.

(** ** One level *)

(** What [KaratsubaMain] needs; [n] halves evenly down to the threshold. *)
Record main_ready (h : Heap) (Z_ X Y S : Digits) (n : Z) : Prop := {
  mr_ok : heap_ok h;
  mr_below : below Z_ (free h) /\ below S (free h);
  mr_X : operand_of h Z_ S X (len_ X);
  mr_Y : operand_of h Z_ S Y (len_ Y);
  mr_ZS : disjoint Z_ S;
  mr_scratch : 4 * n <= len_ S;
  mr_halves : exists q i, 0 <= i /\ 0 <= q <= 34 /\ n = q * 2 ^ i;
  mr_small : n < 34 -> 2 * n <= len_ Z_ /\ len_ X <= n /\ len_ Y <= n;
  mr_big : 34 <= n -> n + n / 2 <= len_ Z_ /\ low h X n * low h Y n < kBase ^ len_ Z_
}.

(** The product of the low [n] digits, in front of what [Z_] held behind. *)
Definition main_value (h : Heap) (Z_ X Y : Digits) (n : Z) : Z :=
  low h X n * low h Y n + kBase ^ (2 * n) * sum (cell h) (digits_ Z_ + 2 * n) (len_ Z_ - 2 * n).

Definition main_done (h : Heap) (Z_ X Y S : Digits) (n : Z) (h' : Heap) : Prop :=
  touched h h' Z_ S /\ value h' Z_ = main_value h Z_ X Y n.

(** A length at or above the threshold is even and its half halves evenly. *)
Lemma halves_half n :
  (exists q i, 0 <= i /\ 0 <= q <= 34 /\ n = q * 2 ^ i) -> 34 <= n ->
  exists n2, n = n2 + n2 /\ 17 <= n2 /\ exists q i, 0 <= i /\ 0 <= q <= 34 /\ n2 = q * 2 ^ i.
Proof.
  intros (q & i & Hi & Hq & ->) Hn. destruct (Z.eq_dec i 0) as [->|Hne].
  - exists 17. rewrite Z.pow_0_r in *. split; [lia|]. split; [lia|]. by exists 17, 0.
  - exists (q * 2 ^ (i - 1)). replace i with (i - 1 + 1) in Hn |- * at 1 by lia.
    rewrite Z.pow_add_r, Z.pow_1_r in Hn |- * by lia. split; [lia|]. split; [lia|].
    exists q, (i - 1). split; [lia|]. done.
Qed.

Lemma normalized_is h X X' : normalized h X X' -> is_normalized h X'.
Proof. intros [_ Hl _ Hm]. split; [lia|]. intros H. specialize (Hm H). lia. Qed.

Lemma low_all h X n : len_ X <= n -> low h X n = value h X.
Proof. intros. unfold low, value. by rewrite Z.min_r by done. Qed.

Lemma schoolbook_call h Z_ X Y X' Y' :
  heap_ok h -> (0 < len_ X -> disjoint Z_ X) -> (0 < len_ Y -> disjoint Z_ Y) ->
  normalized h X X' -> normalized h Y Y' ->
  len_ Y' <= len_ X' <= kMaxInt -> len_ X' + len_ Y' <= len_ Z_ ->
  wp (MultiplySchoolbook Z_ X' Y')
    (fun _ h' => (wrote h h' Z_ (len_ Z_) /\ value h' Z_ = value h X * value h Y) /\ polled h h') h.
Proof.
  intros Hok HX HY NX NY Hl HZ. apply wp_polls; [auto with polls|].
  pose proof (normalized_is _ _ _ NX) as MX. pose proof (normalized_is _ _ _ NY) as MY.
  destruct NX as [EX LX <- _], NY as [EY LY <- _]. destruct (Z.eq_dec (len_ Y') 0) as [E|E].
  - unfold MultiplySchoolbook. apply wp_bind, wp_IsDigitNormalized; [apply MX..|]. apply wp_bind, wp_DCHECK; [done|].
    apply wp_bind, wp_IsDigitNormalized; [apply MY..|]. apply wp_bind, wp_DCHECK; [done|].
    do 2 (apply wp_bind, wp_DCHECK; [apply Z.leb_le; lia|]). rewrite E, orb_true_r.
    eapply wp_mono; [apply Clear_spec; [done|lia]|]. intros [] h' [Hw ->].
    rewrite (value_empty h Y') by lia. split; [done|lia].
  - specialize (HX ltac:(lia)). specialize (HY ltac:(lia)). unfold disjoint in *.
    apply MultiplySchoolbook_spec; try done; unfold disjoint; lia.
Qed.

Lemma main_small_spec h Z_ X Y S n :
  main_ready h Z_ X Y S n -> n < 34 ->
  wp (let* X := Normalize X in
      let* Y := Normalize Y in
      let* Z_low := slice Z_ 0 (2 * n) in
      if len_ Y <=? len_ X then MultiplySchoolbook Z_low X Y else MultiplySchoolbook Z_low Y X)
    (fun _ => main_done h Z_ X Y S n) h.
Proof.
  intros [Hok (BZ & BS) [[X0 _] _ HZX _] [[Y0 _] _ HZY _] HZS Hs Hh Hsm _] Hn.
  destruct (Hsm Hn) as (LZ & LX & LY). clear Hsm. unfold below in *.
  apply wp_bind. eapply wp_mono; [apply Normalize_spec; [done|lia]|]. intros X' h' [-> NX].
  apply wp_bind. eapply wp_mono; [apply Normalize_spec; [done|lia]|]. intros Y' h' [-> NY].
  apply wp_bind, wp_slice_inside; [done|lia|lia|]. rewrite Z.add_0_r.
  set (Zl := mkDigits (digits_ Z_) (2 * n)).
  assert (Hdone : forall h', wrote h h' Zl (len_ Zl) -> value h' Zl = value h X * value h Y -> polled h h' ->
    main_done h Z_ X Y S n h').
  { intros h' Hw Hv Hp. split.
    - apply (wrote_touched _ _ Zl); [done|done|]. left. unfold inside. cbn. lia.
    - unfold main_value. rewrite !low_all, <- Hv by lia. unfold value at 1.
      replace (len_ Z_) with (2 * n + (len_ Z_ - 2 * n)) at 1 by lia. rewrite sum_split by lia. do 2 f_equal.
      apply sum_ext. intros i Hi. apply (wrote_frame _ _ _ _ Hw). cbn. lia. }
  pose proof (norm_len _ _ _ NX). pose proof (norm_len _ _ _ NY).
  assert (n <= kMaxInt) by (unfold kMaxInt; lia). unfold disjoint in *.
  destruct (Z.leb_spec (len_ Y') (len_ X')).
  - eapply wp_mono; [apply (schoolbook_call h Zl X Y); try done; unfold disjoint; cbn; lia|].
    intros [] h' [[Hw Hv] Hp]. by apply Hdone.
  - eapply wp_mono; [apply (schoolbook_call h Zl Y X); try done; unfold disjoint; cbn; lia|].
    intros [] h' [[Hw Hv] Hp]. apply Hdone; [done|lia|done].
Qed.

(** ** Combining the products *)

(** Closes a goal about the places of vectors from the hypotheses about them
    alone. *)
Ltac geo_from H1 H2 H3 H4 H5 H6 H7 :=
  clear - H1 H2 H3 H4 H5 H6 H7;
  unfold below, disjoint, inside, outside, in_order in *; cbn in *; lia.

Lemma copy_call h Z_ X m :
  heap_ok h -> in_order Z_ X -> 0 <= m -> m <= len_ X -> m <= len_ Z_ ->
  wp (for_up 0 m (copy_at Z_ X) tt)
    (fun _ h' => (wrote h h' Z_ m /\ sum (cell h') (digits_ Z_) m = sum (cell h) (digits_ X) m) /\ polled h h') h.
Proof.
  intros Hok HX Hm H1 H2. apply wp_polls; [polls_tac|].
  eapply wp_mono; [apply (copy_tail_spec h h Z_ X 0 m 0); try done; by apply accumulated_start|].
  intros [] h' [Hw Hv]. split; [done|lia].
Qed.

Lemma subtraction_call h D X Y sign :
  heap_ok h -> (0 < len_ X -> disjoint D X) -> (0 < len_ Y -> disjoint D Y) ->
  0 <= len_ X <= len_ D -> 0 <= len_ Y <= len_ D ->
  wp (KaratsubaSubtractionHelper D X Y sign)
    (fun r h' => (wrote h h' D (len_ D) /\ (r = sign \/ r = - sign) /\
       r * value h' D = sign * (value h X - value h Y)) /\ polled h h') h.
Proof.
  intros Hok HX HY LX LY. apply wp_polls; [unfold KaratsubaSubtractionHelper; polls_tac|].
  unfold KaratsubaSubtractionHelper.
  apply wp_bind. eapply wp_mono; [apply Normalize_spec; [done|lia]|]. intros X' h' [-> NX].
  apply wp_bind. eapply wp_mono; [apply Normalize_spec; [done|lia]|]. intros Y' h' [-> NY].
  pose proof NX as [EX NX1 EX2 _]. pose proof NY as [EY NY1 EY2 _].
  apply wp_bind. eapply wp_mono; [apply GreaterThanOrEqual_spec; [done|lia|lia]|]. intros ge h' [-> ->].
  assert (in_order D X' /\ in_order D Y') as [OX OY] by (unfold disjoint, in_order in *; split; lia).
  rewrite EX2, EY2. destruct (Z.leb_spec (value h Y) (value h X)) as [Hle|Hlt]; cbn [negb].
  - apply wp_bind. assert (len_ Y' <= len_ X').
    { apply (normalized_len_le h Y Y'); [done|done|lia|]. pose proof (value_range h X' Hok ltac:(lia)). lia. }
    eapply wp_mono; [apply (subtract_digits_spec h D X' Y'); (done || lia)|].
    intros [] h' [Hw Hv]. apply wp_ret. split; [done|]. split; [by left|]. rewrite Hv, EX2, EY2. lia.
  - apply wp_bind. assert (len_ X' <= len_ Y').
    { apply (normalized_len_le h X X'); [done|done|lia|]. pose proof (value_range h Y' Hok ltac:(lia)). lia. }
    eapply wp_mono; [apply (subtract_digits_spec h D Y' X'); (done || lia)|].
    intros [] h' [Hw Hv]. apply wp_ret. split; [done|]. split; [by right|]. rewrite Hv, EX2, EY2. lia.
Qed.

(** The call for a product of halves. *)
Lemma half_ready g D X Y R n2 :
  heap_ok g -> below D (free g) -> below R (free g) -> disjoint D R ->
  operand_of g D R X n2 -> operand_of g D R Y n2 ->
  len_ D = n2 + n2 -> 17 <= n2 -> 4 * n2 <= len_ R ->
  (exists q i, 0 <= i /\ 0 <= q <= 34 /\ n2 = q * 2 ^ i) ->
  main_ready g D X Y R n2.
Proof.
  intros Hok BD BR HDR OX OY LD Hn LR Hh. pose proof (op_len _ _ _ _ _ OX) as LX. pose proof (op_len _ _ _ _ _ OY) as LY.
  constructor; try done; [by destruct OX; constructor; [lia|..]|by destruct OY; constructor; [lia|..]|lia|].
  intros H. rewrite LD. assert (n2 / 2 <= n2) by (apply Z.div_le_upper_bound; lia). split; [lia|].
  assert (Hlow : forall E, 0 <= len_ E <= n2 -> 0 <= low g E n2 < kBase ^ n2).
  { intros E [HE HE2]. rewrite low_all by done. pose proof (value_range g E Hok HE).
    pose proof (kBase_pow_mono _ _ HE2). lia. }
  rewrite Z.pow_add_r by lia. apply Z.mul_lt_mono_nonneg; apply Hlow; done.
Qed.

Lemma half_value g D X Y n2 :
  len_ D = n2 + n2 -> len_ X <= n2 -> len_ Y <= n2 -> main_value g D X Y n2 = value g X * value g Y.
Proof.
  intros LD LX LY. unfold main_value. rewrite !low_all by done. rewrite (sum_nonpos _ _ (_ - _)) by lia. lia.
Qed.

(** The carries out of the window that starts in the middle of the result add up
    to none. *)
Lemma window_exact B p q lo w0 w3 V t o :
  0 < p -> 0 < q -> B = p * q -> 0 <= lo < p -> 0 <= w3 < q -> w3 + o * q = w0 + t ->
  lo + p * (w0 + t) = V -> 0 <= V < B -> o = 0 /\ lo + p * w3 = V.
Proof.
  intros Hp Hq -> Hlo Hw3 Ew EV HV.
  assert (0 <= w0 + t < q) by nia. assert (o = 0) as -> by nia. split; [done|]. nia.
Qed.

(** A number of two parts, and one whose upper part must be zero. *)
Lemma two_parts p q a b : 0 <= a < p -> 0 <= b < q -> 0 <= a + p * b < p * q.
Proof. nia. Qed.

Lemma upper_part_zero p a b : 0 < p -> 0 <= a -> 0 <= b -> a + p * b < p -> b = 0.
Proof. nia. Qed.

Section Combine.
Context (h : Heap) (Z_ X0 X1 Y0 Y1 S : Digits) (n n2 : Z) (Main : Digits -> Digits -> Digits -> HM unit).
Let R := mkDigits (digits_ S + 2 * n) (2 * n).
Let P0 := mkDigits (digits_ S) n.
Let P2 := mkDigits (digits_ S + n) n.
Let X_diff := mkDigits (digits_ S) n2.
Let Y_diff := mkDigits (digits_ S + n2) n2.
Let x0 := value h X0.
Let x1 := value h X1.
Let y0 := value h Y0.
Let y1 := value h Y1.
Let rest := sum (cell h) (digits_ Z_ + 2 * n) (len_ Z_ - 2 * n).
Let product := (x0 + kBase ^ n2 * x1) * (y0 + kBase ^ n2 * y1).
Hypotheses (Hok : heap_ok h) (Hgo : going h) (En : n = n2 + n2) (Hn2 : 17 <= n2).
Hypotheses (BZ : below Z_ (free h)) (BS : below S (free h)) (HZS : disjoint Z_ S).
Hypotheses (LS : 4 * n <= len_ S) (LZ : n + n2 <= len_ Z_).
Hypotheses (OX0 : operand_of h Z_ S X0 n2) (OX1 : operand_of h Z_ S X1 n2)
  (OY0 : operand_of h Z_ S Y0 n2) (OY1 : operand_of h Z_ S Y1 n2).
Hypotheses (HP0 : value h P0 = x0 * y0) (HP2 : value h P2 = x1 * y1)
  (HZ : sum (cell h) (digits_ Z_) n = x0 * y0).
Hypothesis Hfit : product < kBase ^ len_ Z_.
Hypothesis HMain : forall g,
  going g -> main_ready g P2 X_diff Y_diff R n2 ->
  wp (Main P2 X_diff Y_diff) (fun _ => main_done g P2 X_diff Y_diff R n2) g.

Ltac geo := geo_from En Hn2 BZ BS HZS LS LZ.

Lemma operands_nonneg : 0 <= x0 /\ 0 <= x1 /\ 0 <= y0 /\ 0 <= y1.
Proof.
  pose proof (op_len _ _ _ _ _ OX0). pose proof (op_len _ _ _ _ _ OX1).
  pose proof (op_len _ _ _ _ _ OY0). pose proof (op_len _ _ _ _ _ OY1).
  repeat split; apply value_range; (done || lia).
Qed.

Lemma operands_bounded : x0 < kBase ^ n2 /\ x1 < kBase ^ n2 /\ y0 < kBase ^ n2 /\ y1 < kBase ^ n2.
Proof.
  assert (Hb : forall X, operand_of h Z_ S X n2 -> value h X < kBase ^ n2).
  { intros X [[H0 Hl] _ _ _]. pose proof (value_range h X Hok H0). pose proof (kBase_pow_mono _ _ Hl). lia. }
  repeat split; by apply Hb.
Qed.

(** The upper outer product fits what [Z_] has left for it. *)
Lemma upper_product_fits : x1 * y1 < kBase ^ (len_ Z_ - n).
Proof.
  destruct operands_nonneg as (H1 & H2 & H3 & H4).
  pose proof (kBase_pow_pos n2 ltac:(lia)). pose proof (kBase_pow_pos (len_ Z_ - n) ltac:(lia)).
  assert (E : kBase ^ len_ Z_ = kBase ^ n2 * kBase ^ n2 * kBase ^ (len_ Z_ - n)).
  { rewrite <- !Z.pow_add_r by lia. f_equal. lia. }
  assert (kBase ^ n2 * kBase ^ n2 * (x1 * y1) <= product) by (subst product; nia).
  apply (Z.mul_lt_mono_pos_l (kBase ^ n2 * kBase ^ n2)); nia.
Qed.

(** The digits of the upper product behind the end of [Z_] are zero. *)
Lemma upper_digits_zero i : len_ Z_ - n <= i < n -> cell h (digits_ P2 + i) = 0.
Proof.
  intros Hi. set (e := len_ Z_ - n) in *. pose proof upper_product_fits as Hf. fold e in Hf.
  unfold value in HP2. cbn [P2 len_ digits_] in *. rewrite <- HP2 in Hf.
  replace n with (e + (n - e)) in Hf at 2 by lia. rewrite sum_split in Hf by lia.
  pose proof (sum_range (cell h) (digits_ S + n) e Hok ltac:(lia)).
  pose proof (sum_range (cell h) (digits_ S + n + e) (n - e) Hok ltac:(lia)).
  pose proof (kBase_pow_pos e ltac:(lia)).
  replace (digits_ S + n + i) with (digits_ S + n + e + (i - e)) by lia.
  apply (sum_eq_0 _ _ (n - e)); [done| |lia]. eapply upper_part_zero; [| | |exact Hf]; [done|apply sum_range; (done || lia)..].
Qed.
(** Copying the upper product and checking that nothing of it is lost. *)
Lemma copy_upper_spec K (Q : unit -> Heap -> Prop) :
  (forall h1, touched h h1 Z_ S -> (forall a, outside Z_ a -> cell h1 a = cell h a) ->
     value h1 Z_ = x0 * y0 + kBase ^ n * (x1 * y1 + kBase ^ n * rest) -> wp K Q h1) ->
  wp (let* Z2 := plus Z_ n in
      let end_ := Z.min (len_ Z2) (len_ P2) in
      for_up 0 end_ (copy_at Z2 P2) tt ;;;
      for_up end_ n (fun i _ => let* d := get P2 i in DCHECK (d =? 0)) tt ;;;
      K) Q h.
Proof.
  intros HK. apply wp_bind, wp_plus; [geo|]. cbv zeta. cbn [len_].
  set (Z2 := mkDigits (digits_ Z_ + n) (len_ Z_ - n)). set (e := Z.min (len_ Z_ - n) n).
  change (len_ P2) with n. fold e. apply wp_bind.
  eapply wp_mono; [apply (copy_call h Z2 P2 e); [done|geo|geo|geo|geo]|].
  intros [] h1 [[Hw Hv] Hp]. pose proof Hw as [Hok1 Hf1 Hfr]. cbn [digits_ Z2] in Hfr.
  assert (HP2' : forall i, 0 <= i < n -> cell h1 (digits_ P2 + i) = cell h (digits_ P2 + i)).
  { intros i Hi. apply Hfr. revert Hi. geo. }
  apply wp_bind. apply (wp_for_up (fun _ _ h' => h' = h1)); [geo|done| |].
  { intros i u h' Hi ->. apply wp_bind, wp_get; [revert Hi; geo|]. apply wp_DCHECK; [|done].
    apply Z.eqb_eq. rewrite HP2' by (revert Hi; geo). apply upper_digits_zero. revert Hi. geo. }
  intros [] h' ->. apply HK.
  - apply (wrote_touched _ _ Z2); [by apply (wrote_mono _ _ _ e); [geo|]|done|left; geo].
  - intros a Ha. apply Hfr. revert Ha. geo.
  - unfold value. replace (len_ Z_) with (n + (len_ Z_ - n)) by lia. rewrite sum_split by geo. f_equal.
    + rewrite <- HZ. apply sum_ext. intros i Hi. apply Hfr. revert Hi. geo.
    + f_equal. cbn [Z2 P2 digits_] in Hv.
      assert (Ep : sum (cell h) (digits_ S + n) e = x1 * y1).
      { rewrite <- HP2. unfold value. cbn [P2 digits_ len_]. replace n with (e + (n - e)) at 3 by (clear; lia).
        rewrite sum_split by geo. rewrite (sum_zeros _ (digits_ S + n + e)); [lia|]. intros i Hi.
        replace (digits_ S + n + e + i) with (digits_ P2 + (e + i)) by (cbn; clear; lia). apply upper_digits_zero. revert Hi. geo. }
      rewrite Ep in Hv. replace (len_ Z_ - n) with (e + (len_ Z_ - n - e)) by (clear; lia).
      rewrite sum_split, Hv by geo. f_equal. destruct (Z_le_gt_dec (len_ Z_ - n) n).
      * subst rest. rewrite !(sum_nonpos _ _ (_ - _)) by (revert l; geo). clear. lia.
      * assert (Ee : e = n) by (revert g; geo). rewrite Ee. subst rest. f_equal.
        replace (len_ Z_ - n - n) with (len_ Z_ - 2 * n) by (clear; lia). apply sum_ext. intros i Hi.
        rewrite Hfr by (revert Hi g; geo). f_equal. clear. lia.
Qed.

(** The differences of the halves, with the sign of their product. *)
Lemma differences_spec g :
  touched h g Z_ S ->
  forall K (Q : unit -> Heap -> Prop),
  (forall sign g1, touched g g1 X_diff Y_diff -> sign = 1 \/ sign = -1 ->
     sign * (value g1 X_diff * value g1 Y_diff) = (x1 - x0) * (y0 - y1) -> wp (K sign) Q g1) ->
  wp (let* sign := KaratsubaSubtractionHelper X_diff X1 X0 1 in
      let* sign := KaratsubaSubtractionHelper Y_diff Y0 Y1 sign in
      K sign) Q g.
Proof.
  intros Ht K Q HK. pose proof Ht as [Hokg Hfg _ _].
  pose proof (operand_value _ _ _ _ _ _ Ht OX0) as E0. pose proof (operand_value _ _ _ _ _ _ Ht OX1) as E1.
  assert (Hparts : inside X_diff S /\ inside Y_diff S) by geo. destruct Hparts as [IX IY].
  assert (Hlen : forall D, operand_of h Z_ S D n2 -> 0 <= len_ D <= n2) by (intros D []; done).
  assert (Hap : forall D E, operand_of h Z_ S D n2 -> inside E S -> 0 < len_ D -> disjoint E D).
  { intros D E [_ _ _ HD] HE Hl. specialize (HD Hl). clear - HD HE. unfold disjoint, inside in *. lia. }
  apply wp_bind. eapply wp_mono; [apply (subtraction_call g X_diff X1 X0 1); [done|by apply Hap..|by apply Hlen|by apply Hlen]|].
  intros s1 g1 [(Hw1 & Hs1 & Hv1) Hp1].
  assert (Ht1 : touched g g1 X_diff Y_diff).
  { apply (wrote_touched _ _ X_diff); [done|done|left; clear; unfold inside; lia]. }
  assert (Ht1' : touched h g1 Z_ S).
  { apply (touched_trans _ g); [done|]. apply (touched_inside _ _ X_diff Y_diff); [done|by right..]. }
  pose proof (operand_value _ _ _ _ _ _ Ht1' OY0) as E2. pose proof (operand_value _ _ _ _ _ _ Ht1' OY1) as E3.
  apply wp_bind. eapply wp_mono; [apply (subtraction_call g1 Y_diff Y0 Y1 s1); [apply Ht1|by apply Hap..|by apply Hlen|by apply Hlen]|].
  intros s2 g2 [(Hw2 & Hs2 & Hv2) Hp2].
  assert (Ht2 : touched g1 g2 X_diff Y_diff).
  { apply (wrote_touched _ _ Y_diff); [done|done|right; clear; unfold inside; lia]. }
  assert (Ex : value g2 X_diff = value g1 X_diff).
  { apply (value_wrote g1 g2 Y_diff n2); [done|clear; cbn; lia]. }
  apply HK; [by apply (touched_trans _ g1)|clear - Hs1 Hs2; lia|]. rewrite Ex, E0, E1, E2, E3 in *. fold x0 x1 in Hv1. fold y0 y1 in Hv2.
  transitivity (value g1 X_diff * (s2 * value g2 Y_diff)); [ring|]. rewrite Hv2.
  transitivity (s1 * value g1 X_diff * (y0 - y1)); [ring|]. rewrite Hv1. ring.
Qed.
(** The value the result must get, and that it fits. *)
Lemma combined_range : 0 <= product + kBase ^ n * kBase ^ n * rest < kBase ^ len_ Z_.
Proof.
  destruct operands_nonneg as (H1 & H2 & H3 & H4). destruct operands_bounded as (G1 & G2 & G3 & G4).
  assert (En' : kBase ^ n = kBase ^ n2 * kBase ^ n2) by (rewrite <- Z.pow_add_r by geo; by rewrite En).
  assert (Bx : 0 <= x0 + kBase ^ n2 * x1 < kBase ^ n) by (rewrite En'; by apply two_parts).
  assert (By : 0 <= y0 + kBase ^ n2 * y1 < kBase ^ n) by (rewrite En'; by apply two_parts).
  assert (Hp : 0 <= product < kBase ^ n * kBase ^ n).
  { split; [apply Z.mul_nonneg_nonneg; [apply Bx|apply By]|]. apply Z.mul_lt_mono_nonneg; [apply Bx|apply Bx|apply By|apply By]. }
  destruct (Z_le_gt_dec (len_ Z_) (2 * n)) as [l|l].
  - subst rest. rewrite sum_nonpos by (clear - l; lia). rewrite Z.mul_0_r, Z.add_0_r. split; [apply Hp|exact Hfit].
  - assert (Hl : 0 <= len_ Z_ - 2 * n) by (clear - l; lia).
    pose proof (sum_range (cell h) (digits_ Z_ + 2 * n) _ Hok Hl) as Hr. fold rest in Hr.
    assert (E : kBase ^ len_ Z_ = kBase ^ n * kBase ^ n * kBase ^ (len_ Z_ - 2 * n)).
    { rewrite <- !Z.pow_add_r by geo || (clear - l; lia). f_equal. clear. lia. }
    rewrite E. by apply two_parts.
Qed.

Lemma differences_ready g :
  touched h g Z_ S -> (exists q i, 0 <= i /\ 0 <= q <= 34 /\ n2 = q * 2 ^ i) ->
  main_ready g P2 X_diff Y_diff R n2.
Proof.
  intros [Hokg Hfg _ _] Hh. unfold below in *.
  apply half_ready; try done; unfold below, disjoint; rewrite ?Hfg; cbn; try lia;
    constructor; unfold disjoint; cbn; lia.
Qed.

(** The sum of the overflow digits, without wrap-around when it is zero. *)
Lemma overflow_zero c1 c2 c3 : c1 + c2 + c3 = 0 -> digit_t (digit_t (c1 + c2) + c3) = 0.
Proof.
  intros E. rewrite !digit_t_mod, Z.add_mod_idemp_l by (pose proof kBase_pos; lia). by rewrite E, Z.mod_0_l by (pose proof kBase_pos; lia).
Qed.
(** A carry out of the window [Zm] while a product is added to it. *)
Lemma add_call g Zm D :
  heap_ok g -> disjoint Zm D -> 0 <= len_ D -> 0 <= len_ Zm -> value g D < kBase ^ len_ Zm ->
  wp (AddAndReturnOverflow Zm D)
    (fun c g' => (0 <= c <= 1 /\ wrote g g' Zm (len_ Zm) /\
       value g' Zm + c * kBase ^ len_ Zm = value g Zm + value g D) /\ polled g g') g.
Proof.
  intros. apply wp_polls; [auto with polls|]. apply AddAndReturnOverflow_spec; try done. by apply disjoint_in_order.
Qed.

Lemma sub_call g Zm D :
  heap_ok g -> disjoint Zm D -> 0 <= len_ D -> 0 <= len_ Zm -> value g D < kBase ^ len_ Zm ->
  wp (SubAndReturnBorrow Zm D)
    (fun c g' => (0 <= c <= 1 /\ wrote g g' Zm (len_ Zm) /\
       value g' Zm - c * kBase ^ len_ Zm = value g Zm - value g D) /\ polled g g') g.
Proof.
  intros. apply wp_polls; [auto with polls|]. apply SubAndReturnBorrow_spec; try done. by apply disjoint_in_order.
Qed.

Let Zm := mkDigits (digits_ Z_ + n2) (len_ Z_ - n2).

Lemma window_value g : value g Z_ = sum (cell g) (digits_ Z_) n2 + kBase ^ n2 * value g Zm.
Proof.
  unfold value at 1. replace (len_ Z_) with (n2 + (len_ Z_ - n2)) by (clear; lia). by rewrite sum_split by geo.
Qed.

(** The last product is added or subtracted, and the overflow is gone. *)
Lemma last_product_spec g sign w0 c1 c2 p1 :
  touched h g Z_ S -> sign = 1 \/ sign = -1 ->
  value g P2 = p1 -> 0 <= p1 -> sign * p1 = (x1 - x0) * (y0 - y1) ->
  value g Zm + (c1 + c2) * kBase ^ len_ Zm = w0 + x0 * y0 + x1 * y1 ->
  sum (cell g) (digits_ Z_) n2 + kBase ^ n2 * w0 = x0 * y0 + kBase ^ n * (x1 * y1 + kBase ^ n * rest) ->
  wp (let* overflow :=
        (if 0 <? sign then let* c := AddAndReturnOverflow Zm P2 in ret (digit_t (digit_t (c1 + c2) + c))
         else let* c := SubAndReturnBorrow Zm P2 in ret (digit_t (digit_t (c1 + c2) - c))) in
      DCHECK (overflow =? 0))
    (fun _ h' => touched h h' Z_ S /\ value h' Z_ = product + kBase ^ n * kBase ^ n * rest) g.
Proof.
  intros Ht Hs Hp1 Hp10 Es Ew E0. pose proof Ht as [Hokg Hfg _ _].
  assert (Hgeo : 0 <= n2 /\ 0 <= n /\ n <= len_ Z_ - n2 /\ disjoint Zm P2 /\ inside Zm Z_) by geo.
  destruct Hgeo as (G0 & G1 & G2 & G3 & G4). assert (G5 : 0 <= len_ Zm) by (cbn; clear - G1 G2; lia).
  assert (Hfits : value g P2 < kBase ^ len_ Zm).
  { pose proof (value_range g P2 Hokg G1) as [_ H]. eapply Z.lt_le_trans; [exact H|by apply kBase_pow_mono]. }
  assert (Hfin : forall c g', 0 <= c <= 1 \/ -1 <= c <= 0 -> wrote g g' Zm (len_ Zm) -> polled g g' ->
    value g' Zm + c * kBase ^ len_ Zm = value g Zm + sign * p1 ->
    digit_t (digit_t (c1 + c2) + c) = 0 /\ touched h g' Z_ S /\
    value g' Z_ = product + kBase ^ n * kBase ^ n * rest).
  { intros c g' Hc Hw Hp Hv. pose proof (sum_range (cell g') (digits_ Z_) n2 (wrote_ok _ _ _ _ Hw) G0) as Hlo.
    assert (Elo : sum (cell g') (digits_ Z_) n2 = sum (cell g) (digits_ Z_) n2).
    { apply sum_ext. intros i Hi. apply (wrote_frame _ _ _ _ Hw). left. cbn. clear - Hi. lia. }
    pose proof (value_range g' Zm (wrote_ok _ _ _ _ Hw) G5) as Hw3. cbn [len_ Zm] in Hv, Hw3, Ew.
    assert (En' : kBase ^ n = kBase ^ n2 * kBase ^ n2) by (rewrite En; by apply Z.pow_add_r).
    destruct (window_exact (kBase ^ len_ Z_) (kBase ^ n2) (kBase ^ (len_ Z_ - n2)) (sum (cell g') (digits_ Z_) n2)
      w0 (value g' Zm) (product + kBase ^ n * kBase ^ n * rest) (x0 * y0 + x1 * y1 + sign * p1) (c1 + c2 + c))
      as [Eo Ev].
    - by apply kBase_pow_pos.
    - by apply kBase_pow_pos.
    - rewrite <- Z.pow_add_r by done. f_equal. clear. lia.
    - done.
    - done.
    - clear - Hv Ew. lia.
    - rewrite Elo, Es. subst product. rewrite En' in E0 |- *.
      rewrite Z.mul_add_distr_l, Z.add_assoc, E0. ring.
    - apply combined_range.
    - split; [by apply overflow_zero|]. split.
      + apply (touched_trans _ g); [done|]. apply (wrote_touched _ _ Zm); [done|done|by left].
      + rewrite <- Ev. by apply window_value. }
  destruct Hs as [->| ->]; cbn [Z.ltb Z.compare]; do 2 apply wp_bind.
  - eapply wp_mono; [apply (add_call g Zm P2); done|].
    intros c g' [(Hc & Hw & Hv) Hp]. apply wp_ret. destruct (Hfin c g') as (Eo & Hr); [by left|done|done|by rewrite Hv, Hp1, Z.mul_1_l|].
    apply wp_DCHECK; [by apply Z.eqb_eq|done].
  - eapply wp_mono; [apply (sub_call g Zm P2); done|].
    intros c g' [(Hc & Hw & Hv) Hp]. apply wp_ret. destruct (Hfin (- c) g') as (Eo & Hr); [clear - Hc; lia|done|done|clear - Hv Hp1; lia|].
    apply wp_DCHECK; [by apply Z.eqb_eq|done].
Qed.

Lemma scratch_parts : inside X_diff S /\ inside Y_diff S /\ inside P2 S /\ inside R S.
Proof. unfold inside. cbn. lia. Qed.

Lemma window_apart : disjoint S Zm /\ disjoint S (mkDigits (digits_ Z_) n2) /\ inside Zm Z_.
Proof. unfold disjoint, inside in *. cbn. lia. Qed.

Lemma Zm_below : digits_ Zm + len_ Zm <= free h.
Proof. unfold below in *. cbn. lia. Qed.

Lemma lower_below : digits_ Z_ + n2 <= free h.
Proof. unfold below in *. lia. Qed.

(** Digits apart from the scratch memory survive the middle product. *)
Lemma apart_from_scratch g g1 g2 :
  touched g g1 X_diff Y_diff -> touched g1 g2 P2 R ->
  forall p m, disjoint S (mkDigits p m) -> p + m <= free g -> sum (cell g2) p m = sum (cell g) p m.
Proof.
  intros Ht1 Ht2 p m Hd Hb. pose proof (tch_free _ _ _ _ Ht1) as Ef. clear - En Hn2 LS Ht1 Ht2 Hd Hb Ef.
  unfold disjoint in Hd. cbn in Hd. rewrite (touched_sum g1 g2 P2 R); [|done|unfold disjoint; cbn; lia..].
  apply (touched_sum g g1 X_diff Y_diff); [done|unfold disjoint; cbn; lia..].
Qed.

Lemma combine_spec :
  (exists q i, 0 <= i /\ 0 <= q <= 34 /\ n2 = q * 2 ^ i) ->
  wp (combine_products Main Z_ X0 X1 Y0 Y1 P0 P2 S n n2)
    (fun _ h' => touched h h' Z_ S /\ value h' Z_ = product + kBase ^ n * kBase ^ n * rest) h.
Proof.
  intros Hh. unfold combine_products. apply copy_upper_spec. intros h1 Ht1 Hfr1 Hv1.
  pose proof (tch_ok _ _ _ _ Ht1) as Hok1. destruct scratch_parts as (IX & IY & I2 & IR).
  destruct window_apart as (AZ & Alo & Hin).
  assert (Hgeo : 0 <= n /\ 0 <= n2 <= len_ Z_ /\ n <= len_ Z_ - n2 /\ disjoint Zm P0 /\ disjoint Zm P2) by geo.
  destruct Hgeo as (G0 & G1 & G2 & G3 & G4). assert (G5 : 0 <= len_ Zm) by (cbn; clear - G0 G2; lia).
  assert (HB : kBase ^ n <= kBase ^ len_ Zm) by by apply kBase_pow_mono.
  assert (Hsmall : forall g D, heap_ok g -> len_ D = n -> value g D < kBase ^ len_ Zm).
  { intros g D Hg Hl. pose proof (value_range g D Hg) as Hv. rewrite Hl in Hv. specialize (Hv G0).
    eapply Z.lt_le_trans; [apply Hv|done]. }
  assert (EP0 : value h1 P0 = x0 * y0).
  { rewrite <- HP0. apply sum_ext. intros i Hi. apply Hfr1. revert Hi. geo. }
  assert (EP2 : value h1 P2 = x1 * y1).
  { rewrite <- HP2. apply sum_ext. intros i Hi. apply Hfr1. revert Hi. geo. }
  apply wp_bind, wp_plus; [done|]. fold Zm. apply wp_bind.
  eapply wp_mono; [apply (add_call h1 Zm P0); try done; by apply Hsmall|].
  intros c1 h2 [(Hc1 & Hw2 & Hv2) Hp2]. pose proof (wrote_ok _ _ _ _ Hw2) as Hok2.
  assert (EP2' : value h2 P2 = x1 * y1).
  { rewrite <- EP2. apply (value_wrote h1 h2 Zm _ P2 Hw2). exact G4. }
  apply wp_bind. eapply wp_mono; [apply (add_call h2 Zm P2); try done; by apply Hsmall|].
  intros c2 h3 [(Hc2 & Hw3 & Hv3) Hp3]. cbv zeta.
  assert (Ht3 : touched h h3 Z_ S).
  { apply (touched_trans _ h1); [done|]. apply (touched_trans _ h2); apply (wrote_touched _ _ Zm); (done || by left). }
  do 2 (apply wp_bind, wp_slice_inside; [geo|geo|geo|]). rewrite Z.add_0_r. fold X_diff Y_diff.
  apply (differences_spec h3 Ht3). intros sign g1 Ht4 Hs Es.
  assert (Ht4' : touched h g1 Z_ S).
  { apply (touched_trans _ h3); [done|]. apply (touched_inside _ _ X_diff Y_diff); [done|by right..]. }
  apply wp_bind, wp_slice_inside; [geo|geo|geo|]. fold P2. apply wp_bind.
  eapply wp_mono; [apply HMain; [by apply (going_polled h); [apply Ht4'|]|by apply differences_ready]|].
  intros [] g2 [Ht5 Hv5]. rewrite half_value in Hv5 by done.
  pose proof (apart_from_scratch h3 g1 g2 Ht4 Ht5) as Hsame.
  pose proof (tch_free _ _ _ _ Ht3) as Ef3.
  pose proof (value_range g1 X_diff (tch_ok _ _ _ _ Ht4) (proj1 G1)) as [Hxd _].
  pose proof (value_range g1 Y_diff (tch_ok _ _ _ _ Ht4) (proj1 G1)) as [Hyd _].
  apply (last_product_spec g2 sign (value h1 Zm) c1 c2 (value g1 X_diff * value g1 Y_diff)); try done.
  - apply (touched_trans _ g1); [done|]. apply (touched_inside _ _ P2 R); [done|by right..].
  - by apply Z.mul_nonneg_nonneg.
  - replace (value g2 Zm) with (value h3 Zm) by (symmetry; apply Hsame; [done|by rewrite Ef3; apply Zm_below]).
    rewrite EP0 in Hv2. rewrite EP2' in Hv3. clear - Hv2 Hv3. lia.
  - rewrite Hsame by (done || (rewrite Ef3; apply lower_below)). rewrite <- Hv1, window_value. f_equal.
    apply sum_ext. intros i Hi. rewrite (wrote_frame _ _ _ _ Hw3), (wrote_frame _ _ _ _ Hw2); [done|left; cbn; clear - Hi; lia..].
Qed.
End Combine.

(** ** The recursion *)

Lemma polls_combine Main Z_ X0 X1 Y0 Y1 P0 P2 S n n2 :
  (forall A B C, polls (Main A B C)) -> polls (combine_products Main Z_ X0 X1 Y0 Y1 P0 P2 S n n2).
Proof. intros HM. unfold combine_products, KaratsubaSubtractionHelper. polls_tac. Qed.

Lemma polls_KaratsubaMain fuel Z_ X Y S n : polls (KaratsubaMain fuel Z_ X Y S n).
Proof.
  revert Z_ X Y S n. induction fuel as [|fuel IH]; intros; cbn [KaratsubaMain]; [apply polls_out_of_fuel|].
  destruct (_ <? _); [polls_tac|]. pose proof polls_combine. cbv zeta.
  repeat (apply polls_bind; [auto with polls|intros ?]). apply polls_maybe_terminate.
  repeat (apply polls_bind; [polls_tac|intros ?]). apply polls_maybe_terminate. auto.
Qed.

(** Two levels of halves in one product. *)
Lemma product_of_halves h X Y n2 :
  0 <= n2 -> 0 <= len_ X -> 0 <= len_ Y ->
  let upper D := mkDigits (digits_ D + n2) (Z.max 0 (Z.min (len_ D - n2) n2)) in
  low h X (n2 + n2) * low h Y (n2 + n2) =
    (low h X n2 + kBase ^ n2 * value h (upper X)) * (low h Y n2 + kBase ^ n2 * value h (upper Y)).
Proof. intros Hn HX HY upper. by rewrite !low_halves. Qed.

Lemma slice_low h X n :
  0 <= n -> 0 <= len_ X -> value h (mkDigits (digits_ X + 0) (Z.max 0 (Z.min (len_ X - 0) n))) = low h X n.
Proof. intros. unfold low, value. cbn. rewrite Z.add_0_r, Z.sub_0_r. f_equal. lia. Qed.

Lemma KaratsubaMain_spec fuel : forall h Z_ X Y S n,
  going h -> main_ready h Z_ X Y S n -> 0 <= n -> (Z.to_nat n < fuel)%nat ->
  wp (KaratsubaMain fuel Z_ X Y S n) (fun _ => main_done h Z_ X Y S n) h.
Proof.
  induction fuel as [|fuel IH]; intros h Z_ X Y S n Hgo Hr Hn0 Hf; [lia|]. cbn [KaratsubaMain].
  destruct (Z.ltb_spec n kKaratsubaThreshold) as [Hn|Hn]; [by apply main_small_spec|].
  unfold kKaratsubaThreshold in Hn. destruct Hr as [Hok [BZ BS] OX OY HZS LS Hh _ Hbig].
  destruct (Hbig Hn) as [LZ Hfit]. destruct (halves_half n Hh Hn) as (n2 & En & Hn2 & Hh2). clear Hbig Hh.
  pose proof (op_len _ _ _ _ _ OX) as [LX _]. pose proof (op_len _ _ _ _ _ OY) as [LY _].
  apply wp_bind, wp_DCHECK; [by apply Z.leb_le|]. apply wp_bind, wp_DCHECK.
  { apply Z.eqb_eq. rewrite Z.land_ones with (n := 1) by lia. rewrite En, Z.pow_1_r.
    replace (n2 + n2) with (n2 * 2) by lia. apply Z.mod_mul. lia. }
  assert (E2 : n / 2 = n2) by (rewrite En; replace (n2 + n2) with (n2 * 2) by lia; apply Z.div_mul; lia).
  rewrite E2 in LZ. rewrite Z.shiftr_div_pow2, Z.pow_1_r, E2 by lia. clear E2. cbv zeta.
  do 4 (apply wp_bind, wp_slice; [lia|]).
  set (X0 := mkDigits (digits_ X + 0) _). set (X1 := mkDigits (digits_ X + n2) _).
  set (Y0 := mkDigits (digits_ Y + 0) _). set (Y1 := mkDigits (digits_ Y + n2) _).
  do 2 (apply wp_bind, wp_slice_inside; [lia|lia|lia|]). rewrite Z.add_0_r.
  set (R := mkDigits (digits_ S + 2 * n) (2 * n)). set (P0 := mkDigits (digits_ S) n).
  set (P2 := mkDigits (digits_ S + n) n).
  assert (OX0 : operand_of h Z_ S X0 n2) by (apply (operand_slice h Z_ S X (len_ X)); [done|lia|lia]).
  assert (OX1 : operand_of h Z_ S X1 n2) by (apply (operand_slice h Z_ S X (len_ X)); [done|lia|lia]).
  assert (OY0 : operand_of h Z_ S Y0 n2) by (apply (operand_slice h Z_ S Y (len_ Y)); [done|lia|lia]).
  assert (OY1 : operand_of h Z_ S Y1 n2) by (apply (operand_slice h Z_ S Y (len_ Y)); [done|lia|lia]).
  unfold below in BZ, BS. unfold disjoint in HZS.
  assert (I0 : inside P0 S) by (unfold inside; cbn; lia). assert (I2 : inside P2 S) by (unfold inside; cbn; lia).
  assert (IR : inside R S) by (unfold inside; cbn; lia).
  assert (Hcall : forall g D A B, touched h g Z_ S -> D = P0 \/ D = P2 ->
    operand_of h Z_ S A n2 -> operand_of h Z_ S B n2 ->
    wp (KaratsubaMain fuel D A B R n2)
      (fun _ g' => touched g g' D R /\ value g' D = value h A * value h B) g).
  { intros g D A B Ht HD OA OB. pose proof Ht as [Hokg Hfg Hpg _].
    eapply wp_mono; [apply IH|].
    - by apply (going_polled h).
    - apply half_ready; try done.
      + unfold below. rewrite Hfg. destruct HD as [->| ->]; cbn; lia.
      + unfold below. rewrite Hfg. cbn. lia.
      + unfold disjoint. destruct HD as [->| ->]; cbn; lia.
      + apply (operand_inside h g Z_ S); [done|by destruct HD as [->| ->]|done|done].
      + apply (operand_inside h g Z_ S); [done|by destruct HD as [->| ->]|done|done].
      + destruct HD as [->| ->]; cbn; lia.
      + cbn. lia.
    - lia.
    - lia.
    - intros [] g' [Ht' Hv]. split; [done|]. rewrite Hv, half_value.
      + f_equal; by apply (operand_value h g Z_ S _ n2).
      + destruct HD as [->| ->]; cbn; lia.
      + apply OA.
      + apply OB. }
  apply wp_bind. eapply wp_mono; [apply (Hcall h P0 X0 Y0); [by apply touched_refl|by left|done|done]|].
  intros [] h1 [Ht1 Hv1].
  assert (Ht1' : touched h h1 Z_ S) by (apply (touched_inside _ _ P0 R); [done|by right..]).
  apply wp_maybe_terminate; [by apply (going_polled h); [apply Ht1'|]|].
  apply wp_bind. eapply wp_mono; [apply (copy_call h1 Z_ P0 n); [apply Ht1|unfold in_order; cbn; lia|lia|cbn; lia|lia]|].
  intros [] h2 [[Hw2 Hv2] Hp2].
  assert (Ht2 : touched h1 h2 Z_ S).
  { apply (wrote_touched _ _ (mkDigits (digits_ Z_) n)); [by destruct Hw2|done|left; unfold inside; cbn; lia]. }
  pose proof (touched_trans _ _ _ _ _ Ht1' Ht2) as Ht2'.
  apply wp_bind, wp_slice_inside; [lia|lia|lia|]. fold P2.
  apply wp_bind. eapply wp_mono; [apply (Hcall h2 P2 X1 Y1); [done|by right|done|done]|].
  intros [] h3 [Ht3 Hv3].
  assert (Ht3' : touched h h3 Z_ S).
  { apply (touched_trans _ h2); [done|]. apply (touched_inside _ _ P2 R); [done|by right..]. }
  pose proof (tch_free _ _ _ _ Ht2') as Ef2. pose proof (tch_free _ _ _ _ Ht3') as Ef3.
  apply wp_maybe_terminate; [by apply (going_polled h); [apply Ht3'|]|].
  assert (HP0 : value h3 P0 = value h X0 * value h Y0).
  { rewrite <- Hv1, <- (value_wrote h1 h2 Z_ n P0 Hw2) by (cbn; lia).
    apply (touched_value h2 h3 P2 R); [done|unfold disjoint, below; cbn; lia..]. }
  assert (HZ : sum (cell h3) (digits_ Z_) n = value h X0 * value h Y0).
  { rewrite <- Hv1. unfold value. cbn [P0 digits_ len_] in Hv2 |- *. rewrite <- Hv2.
    apply (touched_sum h2 h3 P2 R); [done|unfold disjoint, below; cbn; lia..]. }
  assert (Hrest : sum (cell h3) (digits_ Z_ + 2 * n) (len_ Z_ - 2 * n) =
                  sum (cell h) (digits_ Z_ + 2 * n) (len_ Z_ - 2 * n)).
  { destruct (Z_le_gt_dec (len_ Z_) (2 * n)); [by rewrite !sum_nonpos by lia|].
    rewrite (touched_sum h2 h3 P2 R); [|done|unfold disjoint; cbn; lia..].
    rewrite (sum_ext _ (cell h1) _ (digits_ Z_ + 2 * n)) by (intros i Hi; apply (wrote_frame _ _ _ _ Hw2); lia).
    apply (touched_sum h h1 P0 R); [done|unfold disjoint; cbn; lia..]. }
  pose proof (operand_value _ _ _ _ _ _ Ht3' OX0) as EX0. pose proof (operand_value _ _ _ _ _ _ Ht3' OX1) as EX1.
  pose proof (operand_value _ _ _ _ _ _ Ht3' OY0) as EY0. pose proof (operand_value _ _ _ _ _ _ Ht3' OY1) as EY1.
  assert (Hprod : (value h3 X0 + kBase ^ n2 * value h3 X1) * (value h3 Y0 + kBase ^ n2 * value h3 Y1) =
                  low h X n * low h Y n).
  { rewrite EX0, EX1, EY0, EY1. subst X0 Y0. rewrite !slice_low by lia. rewrite En. symmetry. apply product_of_halves; lia. }
  eapply wp_mono; [apply (combine_spec h3 Z_ X0 X1 Y0 Y1 S n n2)|].
  all: try done.
  - apply Ht3.
  - by apply (going_polled h); [apply Ht3'|].
  - unfold below. rewrite Ef3. lia.
  - unfold below. rewrite Ef3. lia.
  - by apply (operand_kept h).
  - by apply (operand_kept h).
  - by apply (operand_kept h).
  - by apply (operand_kept h).
  - by rewrite EX0, EY0.
  - by rewrite EX1, EY1.
  - by rewrite EX0, EY0.
  - by rewrite Hprod.
  - intros g Hg Hm. apply IH; [done|done|lia|lia].
  - intros [] h4 [Ht4 Hv4]. split; [by apply (touched_trans _ h3)|]. unfold main_value.
    rewrite Hv4, Hrest, Hprod. rewrite <- Z.pow_add_r by (clear - Hn0; lia). by replace (n + n) with (2 * n) by (clear; lia).
Qed.

End KaratsubaSpec.
