(* ===== verification/BigIntKaratsubaChunks.v ===== *)
(** * Karatsuba multiplication of operands of any lengths

    [KaratsubaStart] multiplies the first chunks and adds the products of the
    others; [KaratsubaChunk] and [MultiplyKaratsuba] give the exact product. *)

From stdpp Require Import base list numbers.
From Stdlib Require Import ZArith Lia Bool.
From S2P Require Import Prelude.
From S2P Require Import BigIntDigits.
From S2P Require Import BigIntVectors.
From S2P Require Import BigIntMemory.
From S2P Require Import BigIntArithmetic.
From S2P Require Import BigIntMul.
From S2P Require Import BigIntShift.
From S2P Require Import BigIntDiv.
From S2P Require Import BigIntDivSpec.
From S2P Require Import BigIntTruncateSpec.
From S2P Require Import BigIntInterrupts.
From S2P Require Import BigIntKaratsuba.
From S2P Require Import BigIntKaratsubaSpec.

Local Open Scope Z_scope.
Local Open Scope prog_scope.

Section Chunks.
Context {T : DigitTarget} {P : Platform} {BB : BigIntBuild} {TOK : DigitTargetOK T}.
Local Abbreviation HM := (M Heap).

(** The product in [Z_], and nothing else touched but scratch memory. *)
Definition product_done (h : Heap) (Z_ X Y S : Digits) (h' : Heap) : Prop :=
  touched h h' Z_ S /\ value h' Z_ = value h X * value h Y.

(** What a call for a product of chunks of at most [k] digits needs. *)
Record chunk_ready (h : Heap) (Z_ X Y S : Digits) (k : Z) : Prop := {
  cr_ok : heap_ok h;
  cr_result : below Z_ (free h);
  cr_scratch : below S (free h);
  cr_ZS : disjoint Z_ S;
  cr_X : operand_of h Z_ S X k;
  cr_Y : operand_of h Z_ S Y k;
  cr_room : len_ X + len_ Y <= len_ Z_;
  cr_int : len_ X <= kMaxInt /\ len_ Y <= kMaxInt
}.

(** ** Adding the products of chunks *)

Lemma low_le h X i : heap_ok h -> 0 <= i -> 0 <= len_ X -> 0 <= low h X i <= value h X.
Proof.
  intros Hok Hi Hl. unfold low, value. destruct (Z_le_gt_dec (len_ X) i).
  - rewrite Z.min_r by done. pose proof (sum_range (cell h) (digits_ X) (len_ X) Hok ltac:(lia)). lia.
  - rewrite Z.min_l by lia. replace (len_ X) with (i + (len_ X - i)) by lia. rewrite sum_split by lia.
    pose proof (sum_range (cell h) (digits_ X) i Hok Hi).
    pose proof (sum_range (cell h) (digits_ X + i) (len_ X - i) Hok ltac:(lia)).
    pose proof (kBase_pow_pos i Hi). nia.
Qed.

Section Start.
Context (Chunk : Digits -> Digits -> Digits -> Digits -> HM unit).
Context (h : Heap) (Z_ X Y S T_ : Digits) (k : Z).
Hypotheses (Hk : 34 <= k) (LT : len_ T_ = 2 * k) (LX : 0 <= len_ X <= kMaxInt) (LY : 0 <= len_ Y <= len_ X).
Hypotheses (BZ : digits_ Z_ + len_ Z_ <= digits_ T_) (BS : digits_ S + len_ S <= digits_ T_)
  (LZ : len_ X + len_ Y <= len_ Z_) (LS : 0 <= len_ S) (HZS : disjoint Z_ S) (BT : below T_ (free h)).
Hypotheses (OX : operand_of h Z_ S X (len_ X)) (OY : operand_of h Z_ S Y (len_ Y)).
Hypotheses (BX : 0 < len_ X -> digits_ X + len_ X <= digits_ T_) (BY : 0 < len_ Y -> digits_ Y + len_ Y <= digits_ T_).
Hypothesis Hchunk : forall g A B,
  going g -> chunk_ready g T_ A B S k -> len_ A + len_ B < len_ X + len_ Y ->
  wp (Chunk T_ A B S) (fun _ => product_done g T_ A B S) g.

(** The state between two chunks: the digits from [T_] on are free to use. *)
Record between_chunks (g : Heap) (V : Z) : Prop := {
  bc_ok : heap_ok g;
  bc_free : free g = free h;
  bc_going : going g;
  bc_polled : polled h g;
  bc_frame : forall a, a < digits_ T_ -> outside Z_ a -> outside S a -> cell g a = cell h a;
  bc_value : value g Z_ = V
}.

(** A part of an operand. *)
Record part_of (D A : Digits) : Prop := {
  part_len : 0 <= len_ A <= k;
  part_inside : 0 < len_ A -> digits_ D <= digits_ A /\ digits_ A + len_ A <= digits_ D + len_ D
}.

Lemma part_operand g V D A :
  between_chunks g V -> D = X \/ D = Y -> part_of D A -> operand_of g T_ S A k /\ value g A = value h A /\ len_ A <= kMaxInt.
Proof.
  intros [_ Hf _ _ Hfr _] HD [LA HA].
  assert (HO : operand_of h Z_ S D (len_ D) /\ (0 < len_ D -> digits_ D + len_ D <= digits_ T_) /\ len_ D <= kMaxInt)
    by (destruct HD as [->| ->]; (split; [done|split; [done|lia]])).
  destruct HO as ([HD0 HDB HDZ HDS] & HDT & HDI). clear - LA HA HDZ HDS HDT HDI HD0 Hf BT LT Hk Hfr.
  assert (Hpos : 0 < len_ A -> 0 < len_ D /\ digits_ D <= digits_ A /\ digits_ A + len_ A <= digits_ D + len_ D)
    by (intros H; specialize (HA H); lia).
  split; [|split].
  - unfold below in BT. constructor; [done|..]; intros H; specialize (Hpos H) as (H1 & H2 & H3);
      specialize (HDT H1); specialize (HDS H1); unfold disjoint in *; lia.
  - apply sum_ext. intros i Hi. specialize (Hpos ltac:(lia)) as (H1 & H2 & H3). specialize (HDT H1).
    specialize (HDS H1). specialize (HDZ H1). unfold disjoint, outside in *. apply Hfr; unfold outside; lia.
  - destruct (Z.eq_dec (len_ A) 0); [lia|]. specialize (Hpos ltac:(lia)). lia.
Qed.

(** One product of chunks, added at [off]. *)
Lemma chunk_add_spec g V A B off K (Q : unit -> Heap -> Prop) :
  between_chunks g V -> part_of X A -> part_of Y B -> len_ A + len_ B < len_ X + len_ Y ->
  0 <= off <= len_ Z_ -> V + kBase ^ off * (value h A * value h B) < kBase ^ len_ Z_ ->
  (forall g', between_chunks g' (V + kBase ^ off * (value h A * value h B)) -> wp K Q g') ->
  wp (Chunk T_ A B S ;;;
      maybe_terminate (
        let* Zi := plus Z_ off in
        let* _ := AddAndReturnOverflow Zi T_ in
        K)) Q g.
Proof.
  intros Hg HA HB Hlt Hoff Hfit HK.
  destruct (part_operand g V X A Hg (or_introl eq_refl) HA) as (OA & EA & IA).
  destruct (part_operand g V Y B Hg (or_intror eq_refl) HB) as (OB & EB & IB).
  destruct Hg as [Hok Hf Hgo Hp Hfr Hv]. pose proof (part_len _ _ HA). pose proof (part_len _ _ HB).
  assert (LZ0 : 0 <= len_ Z_) by lia.
  apply wp_bind. eapply wp_mono; [apply Hchunk; [done| |done]|].
  { unfold below in BT. constructor; try done; unfold below, disjoint; rewrite ?Hf; lia. }
  intros [] g1 [Ht Ev]. rewrite EA, EB in Ev. pose proof Ht as [Hok1 Hf1 Hp1 Hfr1].
  apply wp_maybe_terminate; [by apply (going_polled g)|]. apply wp_bind, wp_plus; [done|].
  set (Zi := mkDigits (digits_ Z_ + off) (len_ Z_ - off)).
  assert (EZ : forall p m, digits_ Z_ <= p -> p + m <= digits_ Z_ + len_ Z_ -> sum (cell g1) p m = sum (cell g) p m).
  { intros p m H1 H2. unfold below in BT. apply (touched_sum g g1 T_ S); [done|unfold disjoint in *; cbn; lia..]. }
  pose proof (value_range g Z_ Hok LZ0) as HV. rewrite Hv in HV.
  assert (Esplit : V = sum (cell g1) (digits_ Z_) off + kBase ^ off * value g1 Zi).
  { unfold value. rewrite !EZ by (cbn; lia). rewrite <- Hv. unfold value. cbn [Zi digits_ len_].
    rewrite <- sum_split by lia. f_equal. lia. }
  pose proof (sum_range (cell g1) (digits_ Z_) off Hok1 (proj1 Hoff)) as Hlo.
  assert (L0 : 0 <= len_ Zi) by (cbn; lia). pose proof (value_range g1 Zi Hok1 L0) as HW.
  pose proof (kBase_pow_pos off (proj1 Hoff)) as Hp0.
  assert (EB' : kBase ^ len_ Z_ = kBase ^ off * kBase ^ len_ Zi)
    by (rewrite <- Z.pow_add_r by (done || apply Hoff); f_equal; cbn; lia).
  assert (HT : value g1 T_ < kBase ^ len_ Zi).
  { rewrite Ev. apply (Z.mul_lt_mono_pos_l (kBase ^ off)); [done|]. rewrite <- EB'. clear - Hfit HV. lia. }
  apply wp_bind. eapply wp_mono; [apply (add_call g1 Zi T_); try done; [unfold disjoint; cbn; lia|lia]|].
  intros c g2 [(Hc & Hw & Hv2) Hp2]. pose proof (wrote_ok _ _ _ _ Hw) as Hok2.
  assert (Elo : sum (cell g2) (digits_ Z_) off = sum (cell g1) (digits_ Z_) off).
  { apply sum_ext. intros i Hi. apply (wrote_frame _ _ _ _ Hw). left. cbn. lia. }
  pose proof (value_range g2 Zi Hok2 L0) as HW2.
  destruct (window_exact (kBase ^ len_ Z_) (kBase ^ off) (kBase ^ len_ Zi) (sum (cell g2) (digits_ Z_) off)
    (value g1 Zi) (value g2 Zi) (V + kBase ^ off * (value h A * value h B)) (value h A * value h B) c) as [_ Ev2].
  - done.
  - by apply kBase_pow_pos.
  - done.
  - by rewrite Elo.
  - done.
  - by rewrite <- Ev.
  - rewrite Elo. clear - Esplit. lia.
  - split; [|done]. pose proof (value_range g1 T_ Hok1 ltac:(lia)). rewrite <- Ev. clear - HV H1 Hp0. nia.
  - apply HK. constructor.
    + done.
    + by rewrite (wrote_free _ _ _ _ Hw), Hf1.
    + by apply (going_polled g1); [|apply (going_polled g)].
    + by apply (polled_trans _ g1); [apply (polled_trans _ g)|].
    + intros a Ha HZa HSa. rewrite (wrote_frame _ _ _ _ Hw) by (unfold outside in HZa; cbn; lia).
      unfold below in BT. rewrite Hfr1; [by apply Hfr|rewrite Hf; lia|unfold outside; lia|done].
    + rewrite <- Ev2. unfold value at 1. cbn [Zi digits_ len_]. replace (len_ Z_) with (off + (len_ Z_ - off)) at 1 by lia.
      rewrite sum_split by lia. done.
Qed.

Let Y0 := mkDigits (digits_ Y + 0) (Z.max 0 (Z.min (len_ Y - 0) k)).
Let Y1 := mkDigits (digits_ Y + Z.min k (len_ Y)) (len_ Y - Z.min k (len_ Y)).
Hypothesis LY1 : len_ Y - k <= k.

Lemma lower_part : part_of Y Y0.
Proof. constructor; cbn; lia. Qed.

Lemma upper_part : part_of Y Y1.
Proof. constructor; cbn; lia. Qed.

Lemma slice_part i : 0 <= i -> part_of X (mkDigits (digits_ X + i) (Z.max 0 (Z.min (len_ X - i) k))).
Proof. constructor; cbn; lia. Qed.

(** The two parts of [Y], the second of which may be empty. *)
Lemma parts_value : value h Y = value h Y0 + kBase ^ k * value h Y1.
Proof.
  unfold value. cbn [Y0 Y1 digits_ len_]. rewrite Z.add_0_r. destruct (Z_le_gt_dec (len_ Y) k).
  - rewrite (sum_nonpos _ _ (len_ Y - _)) by lia. rewrite Z.mul_0_r, Z.add_0_r. f_equal. lia.
  - rewrite (Z.min_l k (len_ Y)) by lia. replace (Z.max _ _) with k by lia. rewrite <- sum_split by lia. f_equal. lia.
Qed.

(** One chunk more of [X]. *)
Lemma low_chunk i :
  0 <= i <= len_ X ->
  low h X (i + k) = low h X i + kBase ^ i * value h (mkDigits (digits_ X + i) (Z.max 0 (Z.min (len_ X - i) k))).
Proof.
  intros Hi. unfold low, value. cbn. rewrite (Z.min_l i) by lia. rewrite <- sum_split by lia. f_equal. lia.
Qed.

(** Partial products are below the whole one, which fits. *)
Lemma partial_fits i V : heap_ok h -> 0 <= i -> V <= low h X i * value h Y -> V < kBase ^ len_ Z_.
Proof.
  intros Hok Hi HV. pose proof (low_le h X i Hok Hi ltac:(lia)). pose proof (value_range h X Hok ltac:(lia)).
  pose proof (value_range h Y Hok ltac:(lia)). eapply Z.le_lt_trans; [exact HV|].
  eapply Z.lt_le_trans; [|apply kBase_pow_mono, LZ]. rewrite Z.pow_add_r by lia.
  eapply Z.le_lt_trans; [apply Z.mul_le_mono_nonneg_r; [|apply H]; lia|]. apply Z.mul_lt_mono_nonneg; lia.
Qed.

Lemma chunk_loop_spec fuel : forall i g,
  heap_ok h -> k <= i -> between_chunks g (low h X i * value h Y) -> (Z.to_nat (len_ X - i) < fuel)%nat ->
  wp (chunk_loop fuel Chunk Z_ X Y0 Y1 S T_ k i) (fun _ g' => between_chunks g' (value h X * value h Y)) g.
Proof.
  induction fuel as [|fuel IH]; intros i g Hok Hi Hg Hf; [lia|]. cbn [chunk_loop].
  destruct (Z.ltb_spec i (len_ X)) as [Hlt|Hge].
  2: { apply wp_ret. by rewrite low_all in Hg by done. }
  assert (Hi0 : 0 <= i) by lia. apply wp_bind, wp_slice; [done|].
  set (Xi := mkDigits (digits_ X + i) _). pose proof (low_chunk i ltac:(lia)) as El. fold Xi in El.
  pose proof (part_operand g _ Y Y0 Hg (or_intror eq_refl) lower_part) as (_ & _ & _).
  assert (Hpos : 0 <= value h Xi /\ 0 <= value h Y0 /\ 0 <= value h Y1 /\ 0 < kBase ^ i /\ 0 < kBase ^ k).
  { repeat split; try apply value_range; try done; try apply kBase_pow_pos; cbn; lia. }
  destruct Hpos as (Hx & Hy0 & Hy1 & Hpi & Hpk). pose proof parts_value as Ey.
  assert (Eall : low h X (i + k) * value h Y = low h X i * value h Y +
    kBase ^ i * (value h Xi * value h Y0) + kBase ^ (i + k) * (value h Xi * value h Y1)).
  { rewrite El, Z.pow_add_r by lia. rewrite Ey. ring. }
  assert (Hx1 : 0 <= kBase ^ (i + k) * (value h Xi * value h Y1)).
  { rewrite Z.pow_add_r by lia. apply Z.mul_nonneg_nonneg; [lia|]. by apply Z.mul_nonneg_nonneg. }
  assert (HlXi : len_ Xi + len_ Y0 < len_ X + len_ Y /\ len_ Xi + len_ Y1 < len_ X + len_ Y)
    by (cbn; clear - Hk Hi Hlt LY; lia).
  apply (chunk_add_spec g (low h X i * value h Y)); try done.
  - by apply slice_part.
  - apply lower_part.
  - apply HlXi.
  - lia.
  - apply (partial_fits (i + k)); [done|lia|]. rewrite Eall. lia.
  - intros g1 Hg1. destruct (Z.ltb_spec 0 (len_ Y1)) as [H1|H1].
    + apply (chunk_add_spec g1 (low h X i * value h Y + kBase ^ i * (value h Xi * value h Y0))); try done.
      * by apply slice_part.
      * apply upper_part.
      * apply HlXi.
      * cbn in H1. lia.
      * apply (partial_fits (i + k)); [done|lia|]. by rewrite Eall.
      * intros g2 Hg2. apply IH; [done|lia| |lia]. by rewrite Eall.
    + apply IH; [done|lia| |lia]. rewrite Eall, (value_empty h Y1), !Z.mul_0_r, Z.add_0_r by done. done.
Qed.

(** Everything behind the product of the first chunks. *)
Lemma chunks_spec g :
  heap_ok h -> between_chunks g (low h X k * value h Y0) ->
  wp (let* X0 := slice X 0 k in
      let* Y1 := plus Y (Z.min k (len_ Y)) in
      let rest :=
        (let* Y0 := slice Y 0 k in chunk_loop (Datatypes.S (Z.to_nat (len_ X))) Chunk Z_ X Y0 Y1 S T_ k k) in
      if 0 <? len_ Y1 then
        Chunk T_ X0 Y1 S ;;;
        maybe_terminate (
          let* Zk := plus Z_ k in
          let* _ := AddAndReturnOverflow Zk T_ in
          rest)
      else rest)
    (fun _ g' => between_chunks g' (value h X * value h Y)) g.
Proof.
  intros Hok Hg. apply wp_bind, wp_slice; [done|]. apply wp_bind, wp_plus; [lia|]. fold Y1. cbv zeta.
  set (X0 := mkDigits (digits_ X + 0) _).
  assert (E0 : value h X0 = low h X k) by (apply slice_low; lia).
  assert (Hrest : forall g, between_chunks g (low h X k * value h Y) ->
    wp (let* Y0 := slice Y 0 k in chunk_loop (Datatypes.S (Z.to_nat (len_ X))) Chunk Z_ X Y0 Y1 S T_ k k)
      (fun _ g' => between_chunks g' (value h X * value h Y)) g).
  { intros g' Hg'. apply wp_bind, wp_slice; [done|]. apply chunk_loop_spec; [done|lia|done|lia]. }
  pose proof parts_value as Ey. destruct (Z.ltb_spec 0 (len_ Y1)) as [H1|H1].
  - assert (Esum : low h X k * value h Y = low h X k * value h Y0 + kBase ^ k * (value h X0 * value h Y1)).
    { rewrite E0, Ey. ring. }
    apply (chunk_add_spec g (low h X k * value h Y0)); try done.
    + apply slice_part. lia.
    + apply upper_part.
    + cbn in *. lia.
    + cbn in H1. lia.
    + apply (partial_fits k); [done|lia|]. by rewrite Esum.
    + intros g1 Hg1. apply Hrest. by rewrite Esum.
  - apply Hrest. rewrite Ey, (value_empty h Y1), Z.mul_0_r, Z.add_0_r by done. done.
Qed.

End Start.

(** ** [KaratsubaStart] *)

Record start_ready (h : Heap) (Z_ X Y S : Digits) (k : Z) : Prop := {
  sr_ok : heap_ok h;
  sr_result : below Z_ (free h);
  sr_scratch : below S (free h);
  sr_ZS : disjoint Z_ S;
  sr_X : operand_of h Z_ S X (len_ X);
  sr_Y : operand_of h Z_ S Y (len_ Y);
  sr_lengths : 34 <= len_ Y <= len_ X /\ len_ X <= kMaxInt;
  sr_room : len_ X + len_ Y <= len_ Z_;
  sr_rounded : exists s c, rounded (len_ Y) k s c;
  sr_size : 4 * k <= len_ S
}.

Lemma start_main h Z_ X Y S k : start_ready h Z_ X Y S k -> 34 <= k -> main_ready h Z_ X Y S k.
Proof.
  intros [Hok BZ BS HZS OX OY [[LY LX] LI] LZ (s & c & Hr) LS] Hk.
  destruct (rounded_small _ _ _ _ Hr LY) as [_ Hk2]. destruct Hr as [Hs _ Ek Hc _ _ _].
  constructor; try done.
  - exists c, s. lia.
  - lia.
  - intros _. split; [lia|]. pose proof (low_le h X k Hok ltac:(lia) ltac:(lia)) as Hx. pose proof (low_le h Y k Hok ltac:(lia) ltac:(lia)) as Hy.
    pose proof (value_range h X Hok ltac:(lia)) as Hvx. pose proof (value_range h Y Hok ltac:(lia)) as Hvy.
    eapply Z.lt_le_trans; [|apply kBase_pow_mono, LZ]. rewrite Z.pow_add_r by lia. apply Z.mul_lt_mono_nonneg; lia.
Qed.

Lemma low_parts_equal p a b c d : 0 <= a < p -> 0 <= b < p -> a + p * c = b + p * d -> a = b.
Proof. intros Ha Hb E. destruct (Z.lt_trichotomy c d) as [H|[H|H]]; nia. Qed.

(** Clearing what is behind the first product. *)
Lemma clear_tail_spec h Z_ m V G :
  heap_ok h -> 0 <= m -> 0 <= len_ Z_ -> 0 <= V < kBase ^ m ->
  value h Z_ = V + kBase ^ m * G -> (len_ Z_ <= m -> G = 0) ->
  wp (for_up m (len_ Z_) (zero_at Z_) tt)
    (fun _ h' => (wrote h h' Z_ (len_ Z_) /\ value h' Z_ = V) /\ polled h h') h.
Proof.
  intros Hok Hm Hl HV Hv HG. apply wp_polls; [polls_tac|]. destruct (Z_le_gt_dec (len_ Z_) m) as [H|H].
  - apply wp_for_up_none; [done|]. split; [apply (wrote_mono _ _ _ 0); [done|by apply wrote_refl]|].
    rewrite Hv, HG by done. lia.
  - assert (Elo : sum (cell h) (digits_ Z_) m = V).
    { unfold value in Hv. replace (len_ Z_) with (m + (len_ Z_ - m)) in Hv by lia. rewrite sum_split in Hv by lia.
      pose proof (sum_range (cell h) (digits_ Z_) m Hok Hm). by apply (low_parts_equal (kBase ^ m) _ _ _ _ ltac:(done) HV Hv). }
    eapply wp_mono; [apply (zero_tail_spec h h Z_ m V); [lia|]|].
    + split; [apply (wrote_mono _ _ _ 0); [done|by apply wrote_refl]|lia].
    + intros [] h' Ha. by apply accumulated_done in Ha as [Hw Ev].
Qed.

Section StartSpec.
Context (Chunk : Digits -> Digits -> Digits -> Digits -> HM unit).
Context (h : Heap) (Z_ X Y S : Digits) (k : Z).
Hypotheses (Hr : start_ready h Z_ X Y S k) (Hgo : going h).
Hypothesis Hchunk : forall g T_ A B,
  going g -> chunk_ready g T_ A B S k -> len_ A + len_ B < len_ X + len_ Y ->
  wp (Chunk T_ A B S) (fun _ => product_done g T_ A B S) g.

Lemma KaratsubaStart_spec :
  wp (KaratsubaStart Chunk Z_ X Y S k) (fun _ => product_done h Z_ X Y S) h.
Proof.
  pose proof Hr as [Hok BZ BS HZS OX OY [[LY LX] LI] LZ (s & c & Hrd) LS].
  destruct (rounded_small _ _ _ _ Hrd LY) as [Hk _].
  assert (HY1 : len_ Y - k <= k).
  { destruct Hrd as [H1 _ H3 H4 _ H6 _]. pose proof (pow2_pos s ltac:(lia)). nia. }
  unfold KaratsubaStart. apply wp_bind.
  eapply wp_mono; [apply KaratsubaMain_spec; [done|by apply start_main|lia|lia]|].
  intros [] h1 [Ht1 Hv1]. pose proof Ht1 as [Hok1 Hf1 Hp1 Hfr1].
  apply wp_maybe_terminate; [by apply (going_polled h)|].
  assert (Hlow : forall D, operand_of h Z_ S D (len_ D) -> 0 <= low h D k < kBase ^ k).
  { intros D [[H0 _] _ _ _]. unfold low. pose proof (sum_range (cell h) (digits_ D) (Z.min k (len_ D)) Hok ltac:(lia)).
    pose proof (kBase_pow_mono (Z.min k (len_ D)) k ltac:(lia)). lia. }
  pose proof (Hlow X OX) as BX. pose proof (Hlow Y OY) as BY.
  apply wp_bind. eapply wp_mono; [eapply (clear_tail_spec h1 Z_ (2 * k) (low h X k * low h Y k));
    [done|lia|apply BZ| |exact Hv1|intros; apply sum_nonpos; lia]|].
  { split; [apply Z.mul_nonneg_nonneg; [apply BX|apply BY]|]. replace (2 * k) with (k + k) by lia.
    rewrite Z.pow_add_r by lia. apply Z.mul_lt_mono_nonneg; lia. }
  intros [] h2 [[Hw2 Hv2] Hp2].
  assert (Ht2 : touched h h2 Z_ S).
  { apply (touched_trans _ h1); [done|]. apply (wrote_touched _ _ Z_); [done|done|left; unfold inside; lia]. }
  destruct ((k <? len_ Y) || negb (len_ X =? len_ Y)) eqn:Ec.
  2: { apply wp_ret. apply orb_false_iff in Ec as [E1 E2]. apply Z.ltb_ge in E1.
       apply negb_false_iff, Z.eqb_eq in E2. split; [done|]. by rewrite Hv2, !low_all by lia. }
  apply wp_with_scratch. set (T_ := mkDigits (free h2) (2 * k)).
  set (g0 := mkHeap (cell h2) (free h2 + 2 * k) (proc h2)).
  pose proof Ht2 as [Hok2 Hf2 Hpl2 Hfr2].
  assert (Hval : forall D, operand_of h Z_ S D (len_ D) -> value g0 D = value h D /\ low g0 D k = low h D k).
  { intros D HD. split; [by apply (operand_value h h2 Z_ S D _ Ht2 HD)|].
    apply (operand_low h h2 Z_ S D _ k Ht2 HD). lia. }
  destruct (Hval X OX) as [EX EXl]. destruct (Hval Y OY) as [EY EYl].
  assert (Hpg : polled h2 g0) by by apply polled_same.
  assert (Hop : forall D, operand_of h Z_ S D (len_ D) -> operand_of g0 Z_ S D (len_ D)).
  { intros D []. constructor; try done. cbn. intros. specialize (op_below H). lia. }
  eapply wp_mono.
  - apply (chunks_spec Chunk g0 Z_ X Y S T_ k).
    all: try done; try lia.
    + destruct BZ. cbn. lia.
    + destruct BS. cbn. lia.
    + unfold below. cbn. lia.
    + by apply Hop.
    + by apply Hop.
    + destruct OX. cbn. rewrite Hf2. auto.
    + destruct OY. cbn. rewrite Hf2. auto.
    + intros g A B. apply Hchunk.
    + constructor; try done.
      * by apply (going_polled h2); [|apply (going_polled h)].
      * by apply polled_same.
      * rewrite (slice_low g0 Y) by lia. rewrite EXl, EYl. exact Hv2.
  - intros [] g' Hg. rewrite EX, EY in Hg. destruct Hg as [Gok Gf Ggo Gp Gfr Gv]. split; [|done]. constructor.
    + done.
    + cbn. lia.
    + apply (polled_trans _ h2); [done|]. apply (polled_trans _ g0); [done|]. by apply (polled_trans _ g'); [|apply polled_same].
    + intros a Ha HZa HSa. cbn. rewrite Gfr by (cbn; done || lia). by apply Hfr2.
Qed.
End StartSpec.

(** ** Whole products *)

Lemma swapped_product h Z_ X Y S h' : product_done h Z_ Y X S h' -> product_done h Z_ X Y S h'.
Proof. intros [Ht Hv]. split; [done|]. by rewrite Hv, Z.mul_comm. Qed.

Lemma operand_normalized h Z_ S X X' n : normalized h X X' -> operand_of h Z_ S X n -> operand_of h Z_ S X' n.
Proof.
  intros [E1 E2 _ _] [[H0 H1] HB HZ HS]. unfold disjoint in *. constructor; unfold disjoint; lia.
Qed.

Lemma operand_own h Z_ S X n : operand_of h Z_ S X n -> operand_of h Z_ S X (len_ X).
Proof. intros [[H0 H1] HB HZ HS]. by constructor. Qed.

(** The algorithms a chunk is given to, by the length of the shorter operand. *)
Lemma KaratsubaChunk_ordered fuel h Z_ X Y X' Y' S k s c n :
  (forall g T_ A B k, going g -> chunk_ready g T_ A B S k -> 4 * k <= len_ S ->
     (exists n s c, rounded n k s c) -> (Z.to_nat (len_ A + len_ B) < fuel)%nat ->
     wp (KaratsubaChunk fuel T_ A B S) (fun _ => product_done g T_ A B S) g) ->
  chunk_ready h Z_ X Y S k -> going h -> 4 * k <= len_ S -> rounded n k s c ->
  normalized h X X' -> normalized h Y Y' -> 0 < len_ Y' <= len_ X' ->
  (Z.to_nat (len_ X' + len_ Y') <= fuel)%nat ->
  wp (if len_ Y' =? 1 then let* y := get Y' 0 in MultiplySingle Z_ X' y
      else if len_ Y' <? kKaratsubaThreshold then MultiplySchoolbook Z_ X' Y'
      else
        let* k := KaratsubaLengthM (len_ Y') in
        DCHECK (4 * k <=? len_ S) ;;;
        KaratsubaStart (KaratsubaChunk fuel) Z_ X' Y' S k)
    (fun _ => product_done h Z_ X Y S) h.
Proof.
  intros IH [Hok BZ BS HZS OX OY Hroom [IX IY]] Hgo LS Hrd NX NY Hl Hf.
  pose proof (operand_normalized _ _ _ _ _ _ NX OX) as OX'. pose proof (operand_normalized _ _ _ _ _ _ NY OY) as OY'.
  pose proof (norm_len _ _ _ NX) as LX. pose proof (norm_len _ _ _ NY) as LY.
  assert (Hd : in_order Z_ X' /\ (0 < len_ X -> disjoint Z_ X) /\ (0 < len_ Y -> disjoint Z_ Y)).
  { destruct OX' as [_ _ HZX _], OX, OY. specialize (HZX ltac:(lia)). unfold disjoint, in_order, below in *. split; [lia|done]. }
  destruct Hd as (HO & HDX & HDY).
  assert (Hdone : forall h', (wrote h h' Z_ (len_ Z_) /\ value h' Z_ = value h X * value h Y) /\ polled h h' ->
    product_done h Z_ X Y S h').
  { intros h' [[Hw Hv] Hp]. split; [|done]. apply (wrote_touched _ _ Z_); [done|done|left; unfold inside; lia]. }
  destruct (Z.eqb_spec (len_ Y') 1) as [E1|E1].
  { apply wp_bind, wp_get; [lia|]. rewrite Z.add_0_r.
    assert (Ey : cell h (digits_ Y') = value h Y).
    { rewrite <- (norm_value _ _ _ NY). unfold value. rewrite E1. change 1 with (0 + 1). rewrite sum_succ, sum_0 by lia.
      rewrite Z.add_0_r, Z.pow_0_r. lia. }
    eapply wp_mono; [apply wp_polls; [auto with polls|apply (MultiplySingle_spec h Z_ X')]|].
    - done.
    - done.
    - lia.
    - apply Hok.
    - pose proof (norm_msd _ _ _ NY ltac:(lia)) as Hm. rewrite E1 in Hm. rewrite Z.sub_diag, Z.add_0_r in Hm. lia.
    - intros [] h' [[Hw Hv] Hp]. apply Hdone. split; [|done]. split; [done|].
      by rewrite Hv, Ey, (norm_value _ _ _ NX). }
  unfold kKaratsubaThreshold. destruct (Z.ltb_spec (len_ Y') 34) as [E34|E34].
  { eapply wp_mono; [apply (schoolbook_call h Z_ X Y); (done || lia)|]. intros [] h' H. by apply Hdone. }
  destruct (KaratsubaLength_spec (len_ Y')) as (k' & s' & c' & Ek & Hrd'); [unfold kMaxInt in *; lia|].
  pose proof (op_len _ _ _ _ _ OY'). pose proof (rounded_mono _ _ _ _ _ _ _ _ Hrd' Hrd ltac:(lia)) as Hkk.
  apply wp_bind. unfold KaratsubaLengthM. rewrite Ek. apply wp_ret, wp_bind, wp_DCHECK; [apply Z.leb_le; lia|].
  eapply wp_mono; [apply KaratsubaStart_spec|].
  - constructor; try done; [by apply (operand_own _ _ _ _ k)|by apply (operand_own _ _ _ _ k)|lia|lia|by exists s', c'|lia].
  - done.
  - intros g T_ A B Hg Hc Hlt. apply (IH g T_ A B k'); [done|done|lia|by exists (len_ Y'), s', c'|lia].
  - intros [] h' [Ht Hv]. split; [done|]. by rewrite Hv, (norm_value _ _ _ NX), (norm_value _ _ _ NY).
Qed.

Lemma KaratsubaChunk_spec fuel : forall h Z_ X Y S k,
  going h -> chunk_ready h Z_ X Y S k -> 4 * k <= len_ S -> (exists n s c, rounded n k s c) ->
  (Z.to_nat (len_ X + len_ Y) < fuel)%nat ->
  wp (KaratsubaChunk fuel Z_ X Y S) (fun _ => product_done h Z_ X Y S) h.
Proof.
  induction fuel as [|fuel IH]; intros h Z_ X Y S k Hgo Hc LS (n & s & c & Hrd) Hf; [lia|]. cbn [KaratsubaChunk].
  pose proof Hc as [Hok BZ BS HZS OX OY Hroom [IX IY]].
  pose proof (op_len _ _ _ _ _ OX) as LX. pose proof (op_len _ _ _ _ _ OY) as LY.
  apply wp_bind. eapply wp_mono; [apply Normalize_spec; [done|lia]|]. intros X' h' [-> NX].
  apply wp_bind. eapply wp_mono; [apply Normalize_spec; [done|lia]|]. intros Y' h' [-> NY].
  pose proof (norm_len _ _ _ NX) as LX'. pose proof (norm_len _ _ _ NY) as LY'.
  destruct ((len_ X' =? 0) || (len_ Y' =? 0)) eqn:E0.
  { eapply wp_mono; [apply wp_polls; [auto with polls|apply Clear_spec; [done|apply BZ]]|].
    intros [] h' [[Hw Hv] Hp]. split; [apply (wrote_touched _ _ Z_); [done|done|left; unfold inside; lia]|].
    rewrite Hv, <- (norm_value _ _ _ NX), <- (norm_value _ _ _ NY).
    apply orb_true_iff in E0 as [E0|E0]; apply Z.eqb_eq in E0.
    - rewrite (value_empty h X') by lia. lia.
    - rewrite (value_empty h Y') by lia. lia. }
  apply orb_false_iff in E0 as [EX EY]. apply Z.eqb_neq in EX, EY.
  assert (IH' : forall g T_ A B k, going g -> chunk_ready g T_ A B S k -> 4 * k <= len_ S ->
     (exists n s c, rounded n k s c) -> (Z.to_nat (len_ A + len_ B) < fuel)%nat ->
     wp (KaratsubaChunk fuel T_ A B S) (fun _ => product_done g T_ A B S) g).
  { intros g T_ A B k' Hg Hr Hs Hrr Hff. by apply (IH g T_ A B S k'). }
  destruct (Z.ltb_spec (len_ X') (len_ Y')) as [Hlt|Hge].
  - eapply wp_mono; [apply (KaratsubaChunk_ordered fuel h Z_ Y X Y' X' S k s c n); try done|].
    + by constructor; try done; lia.
    + lia.
    + lia.
    + intros [] h' H. by apply swapped_product.
  - apply (KaratsubaChunk_ordered fuel h Z_ X Y X' Y' S k s c n); (done || lia).
Qed.

(** What a call for a product needs. *)
Record multiply_ready (h : Heap) (Z_ X Y : Digits) : Prop := {
  ml_ok : heap_ok h;
  ml_result : below Z_ (free h);
  ml_X : operand_of h Z_ Z_ X kMaxInt;
  ml_Y : operand_of h Z_ Z_ Y kMaxInt;
  ml_room : len_ X + len_ Y <= len_ Z_
}.

(** An operand stays clear of scratch memory that is allocated behind it. *)
Lemma operand_scratch h Z_ X n S m :
  operand_of h Z_ Z_ X n -> 0 <= m -> digits_ S = free h ->
  operand_of (mkHeap (cell h) (free h + m) (proc h)) Z_ S X (len_ X).
Proof.
  intros [[H0 _] HB HZ _] Hm ES. constructor; cbn; [lia|..]; intros H; specialize (HB H).
  - lia.
  - by apply HZ.
  - right. lia.
Qed.

(** Scratch memory at the end of memory is given back. *)
Lemma touched_with_scratch h g Z_ S m :
  touched (mkHeap (cell h) (free h + m) (proc h)) g Z_ S -> 0 <= m -> digits_ S = free h ->
  touched h (mkHeap (cell g) (free h) (proc g)) Z_ Z_.
Proof.
  intros [Hok Hf Hp Hfr] Hm ES. constructor; [done|done| |].
  - eapply (polled_trans _ (mkHeap (cell h) (free h + m) (proc h))); [by apply polled_same|].
    eapply (polled_trans _ g); [done|by apply polled_same].
  - intros a Ha Ho _. apply Hfr; cbn; [lia|done|left; lia].
Qed.

Lemma MultiplyKaratsuba_spec h Z_ X Y :
  multiply_ready h Z_ X Y -> going h -> 34 <= len_ Y <= len_ X ->
  wp (MultiplyKaratsuba Z_ X Y) (fun _ => product_done h Z_ X Y Z_) h.
Proof.
  intros [Hok BZ OX OY Hroom] Hgo [L34 LXY]. pose proof (op_len _ _ _ _ _ OX) as [_ LI].
  unfold MultiplyKaratsuba, kKaratsubaThreshold.
  apply wp_bind, wp_DCHECK; [by apply Z.leb_le|]. apply wp_bind, wp_DCHECK; [by apply Z.leb_le|].
  apply wp_bind, wp_DCHECK; [by apply Z.leb_le|].
  destruct (KaratsubaLength_spec (len_ Y)) as (k & s & c & Ek & Hrd); [unfold kMaxInt in LI; lia|].
  destruct (rounded_small _ _ _ _ Hrd L34) as [Hk _].
  apply wp_bind. unfold KaratsubaLengthM. rewrite Ek. apply wp_ret, wp_with_scratch.
  set (S := mkDigits (free h) (4 * k)). set (g := mkHeap (cell h) (free h + 4 * k) (proc h)).
  assert (ES : digits_ S = free h) by done. assert (H4 : 0 <= 4 * k) by lia. destruct BZ as [BZ0 BZ1].
  eapply wp_mono; [apply (KaratsubaStart_spec _ g)|].
  - constructor; try done.
    + split; cbn; lia.
    + left. cbn. lia.
    + by apply (operand_scratch h Z_ X kMaxInt).
    + by apply (operand_scratch h Z_ Y kMaxInt).
    + by exists s, c.
  - by apply (going_polled h); [apply polled_same|].
  - intros g' T_ A B Hg Hc Hlt. apply (KaratsubaChunk_spec _ g' T_ A B S k); try done; [by exists (len_ Y), s, c|].
    destruct Hc as [_ _ _ _ [HA _] [HB _] _ _]. lia.
  - intros [] g' [Ht Hv]. split; [|done]. by apply (touched_with_scratch h g' Z_ S (4 * k)).
Qed.

End Chunks.
