(* ===== verification/BigIntProcessor.v ===== *)
(** * The processor's multiplication

    [ProcessorImpl::Multiply] and [Processor::Multiply] of
    [src/bigint/bigint-internal.cc]: the choice of an algorithm by the length of
    the shorter operand, and the status a caller gets back. The algorithms for
    the longest operands, Toom-Cook and FFT multiplication, which a build may
    leave out, are an interface with the contract the other algorithms are proved
    to have. *)

From stdpp Require Import base list numbers.
From Stdlib Require Import ZArith Lia Bool.
From S2P Require Import Prelude.
From S2P Require Import BigIntDigits.
From S2P Require Import BigIntVectors.
From S2P Require Import BigIntMemory.
From S2P Require Import BigIntArithmetic.
From S2P Require Import BigIntMul.
From S2P Require Import BigIntShift.
From S2P Require Import BigIntDiv.
From S2P Require Import BigIntDivSpec.
From S2P Require Import BigIntTruncateSpec.
From S2P Require Import BigIntInterrupts.
From S2P Require Import BigIntKaratsuba.
From S2P Require Import BigIntKaratsubaSpec.
From S2P Require Import BigIntKaratsubaChunks.

Local Open Scope Z_scope.
Local Open Scope prog_scope.

Definition kToomThreshold : Z := 193.
Definition kFftThreshold : Z := 1500.

(** The algorithms of [mul-toom.cc] and [mul-fft.cc]. *)
Class AdvancedMultiplication := {
  MultiplyToomCook : Digits -> Digits -> Digits -> M Heap unit;
  MultiplyFFT : Digits -> Digits -> Digits -> M Heap unit
}.

(** ** Definitions *)

Section Status.
Context {T : DigitTarget}.

Definition get_and_clear_status : M Heap Status :=
  let* result := gets (fun h => status_ (proc h)) in
  modify (fun h => mkHeap (cell h) (free h) (mkProcessor (work_estimate_ (proc h)) kOk (queries (proc h)))) ;;;
  ret result.

End Status.

Module ProcessorImpl.
Section Multiply.
Context {T : DigitTarget} {P : Platform} {BB : BigIntBuild} {AM : AdvancedMultiplication}.
Local Abbreviation HM := (M Heap).

Definition Multiply (Z_ X Y : Digits) : HM unit :=
  let* X := Normalize X in
  let* Y := Normalize Y in
  if (len_ X =? 0) || (len_ Y =? 0) then Clear Z_
  else
    let '(X, Y) := (if len_ X <? len_ Y then (Y, X) else (X, Y)) in
    if len_ Y =? 1 then let* y := get Y 0 in MultiplySingle Z_ X y
    else if len_ Y <? kKaratsubaThreshold then MultiplySchoolbook Z_ X Y
    else if negb V8_ADVANCED_BIGINT_ALGORITHMS then MultiplyKaratsuba Z_ X Y
    else if len_ Y <? kToomThreshold then MultiplyKaratsuba Z_ X Y
    else if len_ Y <? kFftThreshold then MultiplyToomCook Z_ X Y
    else MultiplyFFT Z_ X Y.

End Multiply.
End ProcessorImpl.

Module Processor.
Section Multiply.
Context {T : DigitTarget} {P : Platform} {BB : BigIntBuild} {AM : AdvancedMultiplication}.

Definition Multiply (Z_ X Y : Digits) : M Heap Status :=
  ProcessorImpl.Multiply Z_ X Y ;;; get_and_clear_status.

End Multiply.
End Processor.

Section ProcessorSpec.
Context {T : DigitTarget} {P : Platform} {BB : BigIntBuild} {TOK : DigitTargetOK T}.

(** ** Specification *)

(** The end of a multiplication: the product is there unless the run was
    interrupted, and nothing else in use has changed. *)
Record multiplied (h : Heap) (Z_ X Y : Digits) (h' : Heap) : Prop := {
  mul_touched : touched h h' Z_ Z_;
  mul_value : status_ (proc h') = kOk -> value h' Z_ = value h X * value h Y
}.

(** What an algorithm for operands of at least [least] digits promises. *)
Definition multiplies (least : Z) (algorithm : Digits -> Digits -> Digits -> M Heap unit) : Prop :=
  forall h Z_ X Y,
    multiply_ready h Z_ X Y -> is_normalized h X -> is_normalized h Y -> least <= len_ Y <= len_ X ->
    wp (algorithm Z_ X Y) (fun _ => multiplied h Z_ X Y) h.

(** The contract of the advanced algorithms, in builds that have them. *)
Class AdvancedMultiplicationOK (AM : AdvancedMultiplication) : Prop := {
  toom_multiplies : V8_ADVANCED_BIGINT_ALGORITHMS = true -> multiplies kToomThreshold MultiplyToomCook;
  fft_multiplies : V8_ADVANCED_BIGINT_ALGORITHMS = true -> multiplies kFftThreshold MultiplyFFT
}.

Lemma product_multiplied h Z_ X Y h' : product_done h Z_ X Y Z_ h' -> multiplied h Z_ X Y h'.
Proof. by intros [Ht Hv]. Qed.

Lemma multiplied_swap h Z_ X Y h' : multiplied h Z_ Y X h' -> multiplied h Z_ X Y h'.
Proof. intros [Ht Hv]. constructor; [done|]. intros H. rewrite Hv by done. lia. Qed.

Lemma wrote_product h Z_ X Y h' :
  (wrote h h' Z_ (len_ Z_) /\ value h' Z_ = value h X * value h Y) /\ polled h h' -> multiplied h Z_ X Y h'.
Proof.
  intros [[Hw Hv] Hp]. constructor; [|done]. apply (wrote_touched _ _ Z_); [done|done|left; unfold inside; lia].
Qed.

Lemma ready_normalized h Z_ X Y X' Y' :
  multiply_ready h Z_ X Y -> normalized h X X' -> normalized h Y Y' -> multiply_ready h Z_ X' Y'.
Proof.
  intros [Hok BZ OX OY Hroom] NX NY. constructor; [done|done|by eapply operand_normalized|by eapply operand_normalized|].
  pose proof (norm_len _ _ _ NX). pose proof (norm_len _ _ _ NY). lia.
Qed.

Lemma ready_swap h Z_ X Y : multiply_ready h Z_ X Y -> multiply_ready h Z_ Y X.
Proof. intros [Hok BZ OX OY Hroom]. constructor; try done. lia. Qed.

(** One digit as a vector. *)
Lemma value_single h D : len_ D = 1 -> value h D = cell h (digits_ D).
Proof.
  intros E. unfold value. rewrite E. change 1 with (0 + 1). rewrite sum_succ, sum_0, Z.add_0_r, Z.pow_0_r by lia. lia.
Qed.

Lemma single_call h Z_ X Y :
  multiply_ready h Z_ X Y -> is_normalized h X -> is_normalized h Y -> len_ Y = 1 -> 1 <= len_ X ->
  wp (let* y := get Y 0 in MultiplySingle Z_ X y) (fun _ => multiplied h Z_ X Y) h.
Proof.
  intros [Hok BZ OX OY Hroom] NX [_ NY] E1 LX. apply wp_bind, wp_get; [lia|]. rewrite Z.add_0_r.
  rewrite E1, Z.sub_diag, Z.add_0_r in NY. specialize (NY ltac:(lia)).
  eapply wp_mono; [apply wp_polls; [auto with polls|apply (MultiplySingle_spec h Z_ X)]|].
  - done.
  - pose proof (op_result _ _ _ _ _ OX ltac:(lia)). unfold disjoint, in_order, below in *. lia.
  - lia.
  - apply Hok.
  - done.
  - intros [] h' H. apply wrote_product. by rewrite (value_single h Y).
Qed.

Lemma schoolbook_multiplies h Z_ X Y :
  multiply_ready h Z_ X Y -> is_normalized h X -> is_normalized h Y -> 0 < len_ Y <= len_ X ->
  wp (MultiplySchoolbook Z_ X Y) (fun _ => multiplied h Z_ X Y) h.
Proof.
  intros [Hok BZ OX OY Hroom] NX NY LY. destruct (op_len _ _ _ _ _ OX) as [_ LI].
  eapply wp_mono; [apply wp_polls; [auto with polls|apply (MultiplySchoolbook_spec h Z_ X Y)]|].
  - done.
  - apply (op_result _ _ _ _ _ OX). lia.
  - apply (op_result _ _ _ _ _ OY). lia.
  - done.
  - done.
  - lia.
  - done.
  - intros [] h' H. by apply wrote_product.
Qed.

Context {AM : AdvancedMultiplication} {AMOK : AdvancedMultiplicationOK AM}.

(** Operands in order, without leading zeros. *)
Lemma Multiply_ordered h Z_ X Y :
  multiply_ready h Z_ X Y -> going h -> is_normalized h X -> is_normalized h Y -> 0 < len_ Y <= len_ X ->
  wp (if len_ Y =? 1 then let* y := get Y 0 in MultiplySingle Z_ X y
      else if len_ Y <? kKaratsubaThreshold then MultiplySchoolbook Z_ X Y
      else if negb V8_ADVANCED_BIGINT_ALGORITHMS then MultiplyKaratsuba Z_ X Y
      else if len_ Y <? kToomThreshold then MultiplyKaratsuba Z_ X Y
      else if len_ Y <? kFftThreshold then MultiplyToomCook Z_ X Y
      else MultiplyFFT Z_ X Y)
    (fun _ => multiplied h Z_ X Y) h.
Proof.
  intros Hr Hgo NX NY LY. destruct (Z.eqb_spec (len_ Y) 1) as [E1|E1]; [by apply single_call; (done || lia)|].
  unfold kKaratsubaThreshold. destruct (Z.ltb_spec (len_ Y) 34) as [E34|E34]; [by apply schoolbook_multiplies|].
  assert (Hk : wp (MultiplyKaratsuba Z_ X Y) (fun _ => multiplied h Z_ X Y) h).
  { eapply wp_mono; [apply MultiplyKaratsuba_spec; (done || lia)|]. intros [] h'. apply product_multiplied. }
  destruct V8_ADVANCED_BIGINT_ALGORITHMS eqn:EB; cbn [negb]; [|done].
  destruct (Z.ltb_spec (len_ Y) kToomThreshold) as [ET|ET]; [done|].
  destruct (Z.ltb_spec (len_ Y) kFftThreshold) as [EF|EF].
  - apply (toom_multiplies EB); (done || lia).
  - apply (fft_multiplies EB); (done || lia).
Qed.

Lemma Multiply_spec h Z_ X Y :
  multiply_ready h Z_ X Y -> going h -> wp (ProcessorImpl.Multiply Z_ X Y) (fun _ => multiplied h Z_ X Y) h.
Proof.
  intros Hr Hgo. pose proof Hr as [Hok BZ OX OY Hroom]. unfold ProcessorImpl.Multiply.
  apply wp_bind. eapply wp_mono; [apply Normalize_spec; [done|apply OX]|]. intros X' h' [-> NX].
  apply wp_bind. eapply wp_mono; [apply Normalize_spec; [done|apply OY]|]. intros Y' h' [-> NY].
  pose proof (ready_normalized _ _ _ _ _ _ Hr NX NY) as Hr'.
  pose proof (normalized_is _ _ _ NX) as NX'. pose proof (normalized_is _ _ _ NY) as NY'.
  pose proof (norm_len _ _ _ NX) as LX. pose proof (norm_len _ _ _ NY) as LY.
  apply (wp_mono _ (fun _ => multiplied h Z_ X' Y')).
  2: { intros [] h' [Ht Hv]. rewrite (norm_value _ _ _ NX), (norm_value _ _ _ NY) in Hv. by constructor. }
  destruct ((len_ X' =? 0) || (len_ Y' =? 0)) eqn:E0.
  { eapply wp_mono; [apply wp_polls; [auto with polls|apply Clear_spec; [done|apply BZ]]|].
    intros [] h' [[Hw Hv] Hp]. apply wrote_product. split; [|done]. split; [done|]. rewrite Hv.
    apply orb_true_iff in E0 as [E0|E0]; apply Z.eqb_eq in E0; rewrite (value_empty h _ (Z.eq_le_incl _ _ E0)); lia. }
  apply orb_false_iff in E0 as [EX EY]. apply Z.eqb_neq in EX, EY.
  destruct (Z.ltb_spec (len_ X') (len_ Y')) as [Hlt|Hge].
  - eapply wp_mono; [apply (Multiply_ordered h Z_ Y' X'); try done; [by apply ready_swap|lia]|].
    intros [] h' H. by apply multiplied_swap.
  - by apply Multiply_ordered; (done || lia).
Qed.

(** ** The status for the caller *)

(** The processor between two operations. *)
Definition idle (h : Heap) : Prop := status_ (proc h) = kOk.

Definition interrupted (h h' : Heap) : bool :=
  interrupted_within (queries (proc h)) (queries (proc h') - queries (proc h)).

(** A run of the processor from an idle state: the status tells whether the
    embedder has asked it to stop, and the processor is idle again. *)
Record answered (h : Heap) (s : Status) (h' : Heap) : Prop := {
  ans_status : s = if interrupted h h' then kInterrupted else kOk;
  ans_idle : idle h';
  ans_queries : (queries (proc h) <= queries (proc h'))%nat
}.

Lemma wp_get_and_clear_status h g (Q : Status -> Heap -> Prop) :
  idle h -> polled h g ->
  (forall h', cell h' = cell g -> free h' = free g -> answered h (status_ (proc g)) h' -> Q (status_ (proc g)) h') ->
  wp get_and_clear_status Q g.
Proof.
  intros Hi [Hc Hs] HQ. unfold get_and_clear_status. apply wp_bind, wp_gets, wp_bind, wp_modify, wp_ret.
  apply HQ; [done|done|]. constructor; [|done|done]. rewrite Hs. unfold idle in Hi. rewrite Hi.
  unfold interrupted. cbn [proc queries]. by case_match.
Qed.

(** Of the memory in use, nothing but [Z_] has changed. *)
Record only (h h' : Heap) (Z_ : Digits) : Prop := {
  only_ok : heap_ok h';
  only_free : free h' = free h;
  only_frame : forall a, a < free h -> outside Z_ a -> cell h' a = cell h a
}.

Lemma Processor_Multiply_spec h Z_ X Y :
  multiply_ready h Z_ X Y -> going h -> idle h ->
  wp (Processor.Multiply Z_ X Y)
    (fun s h' => answered h s h' /\ only h h' Z_ /\ (s = kOk -> value h' Z_ = value h X * value h Y)) h.
Proof.
  intros Hr Hgo Hi. apply wp_bind. eapply wp_mono; [by apply Multiply_spec|].
  intros [] g [[Hok Hf Hp Hfr] Hv]. apply (wp_get_and_clear_status h g); [done|done|]. intros h' Ec Ef Ha.
  split; [done|]. split.
  - constructor; [|congruence|].
    + intros a. rewrite Ec. apply Hok.
    + intros a Ha1 Ho. rewrite Ec. by apply Hfr.
  - intros E. rewrite <- Hv by done. unfold value. by rewrite Ec.
Qed.

End ProcessorSpec.
