(* ===== verification/BigIntBurnikel.v ===== *)
(** * Burnikel-Ziegler division

    [src/bigint/div-burnikel.cc] with [PutAt] of [src/bigint/div-helpers.h]. The
    scratch memory that the container object [BZ] holds is an argument. The two
    recursive functions carry fuel: every call of [D2n1n] from [D3n2n] halves the
    length of the divisor. *)

From stdpp Require Import base list numbers.
From Stdlib Require Import ZArith Lia Bool.
From S2P Require Import Prelude.
From S2P Require Import BigIntDigits.
From S2P Require Import BigIntVectors.
From S2P Require Import BigIntMul.
From S2P Require Import BigIntShift.
From S2P Require Import BigIntDiv.
From S2P Require Import BigIntBitwise.
From S2P Require Import BigIntKaratsuba.
From S2P Require Import BigIntProcessor.

Local Open Scope Z_scope.
Local Open Scope prog_scope.

Definition kBurnikelThreshold : Z := 57.

Section Burnikel.
Context {T : DigitTarget} {P : Platform} {BB : BigIntBuild} {AM : AdvancedMultiplication}.
Local Abbreviation HM := (M Heap).

(** ** Helpers *)

Definition PutAt (Z_ A : Digits) (count : Z) : HM unit :=
  let len := Z.min (len_ A) count in
  for_up 0 len (copy_at Z_ A) tt ;;;
  for_up (Z.max 0 len) count (zero_at Z_) tt.

(** Compares [a_high, A] with [B]. *)
Definition SpecialCompare (a_high : Z) (A B : Digits) : HM Z :=
  let* B := Normalize B in
  let* (A, a_len) :=
    (if a_high =? 0 then let* A := Normalize A in ret (A, len_ A) else ret (A, len_ A + 1)) in
  let diff := a_len - len_ B in
  if negb (diff =? 0) then ret diff
  else
    let i := a_len - 1 in
    if negb (a_high =? 0) then
      let* b := get B i in
      if b <? a_high then ret 1 else if a_high <? b then ret (-1) else compare_digits A B (i - 1)
    else compare_digits A B i.

Definition SetOnes (X : Digits) : HM unit := memset X (len_ X) 0xFF.

(** [if (proc_->should_terminate()) return;], followed by the rest. *)
Definition unless_terminated (rest : HM unit) : HM unit :=
  let* stop := should_terminate in if stop : bool then ret tt else rest.

(** ** The recursive functions *)

Definition DivideBasecase (Q R A B : Digits) : HM unit :=
  let* A := Normalize A in
  let* B := Normalize B in
  DCHECK (0 <? len_ B) ;;;
  let* cmp := Compare A B in
  if cmp <=? 0 then
    Clear Q ;;;
    if cmp =? 0 then Clear R ;;; set Q 0 1 else PutAt R A (len_ R)
  else if len_ B =? 1 then
    let* b := get B 0 in
    let* remainder := DivideSingle Q A b in
    set R 0 remainder
  else DivideSchoolbook Q R A B.

(** Step 6 of [D3n2n]: the estimate is at most two too big. *)
Definition kCorrectionRounds : nat := 3.

Definition correct_estimate (Qhat R B D : Digits) (r1_high : Z) : HM Z :=
  loop kCorrectionRounds
    (fun r1_high =>
       let* c := SpecialCompare r1_high R D in
       if c <? 0 then
         let* carry := AddAndReturnCarry R R B in
         SubtractDigit Qhat 1 ;;;
         ret (inl (digit_t (r1_high + carry)))
       else ret (inr r1_high))
    r1_high.

(** From step 4 of [D3n2n] on. *)
Definition finish_D3n2n (scratch Qhat R A3 B B2 : Digits) (n r1_high : Z) : HM unit :=
  let D := mkDigits (digits_ scratch) (2 * n) in
  ProcessorImpl.Multiply D Qhat B2 ;;;
  unless_terminated (
    PutAt R A3 n ;;;
    let* r1_high := correct_estimate Qhat R B D r1_high in
    let* borrow := SubtractAndReturnBorrow R R D in
    DCHECK (borrow =? r1_high) ;;;
    let* c := Compare R B in
    DCHECK (c <? 0)).

(** [D2n1n] is the recursive call. *)
Definition D3n2n (D2n1n : Digits -> Digits -> Digits -> Digits -> HM unit)
    (scratch Q R A1A2 A3 B : Digits) : HM unit :=
  DCHECK (Z.land (len_ B) 1 =? 0) ;;;
  let n := len_ B / 2 in
  DCHECK (len_ A1A2 =? 2 * n) ;;;
  let* c := Compare A1A2 B in
  DCHECK (c <? 0) ;;;
  DCHECK (len_ A3 =? n) ;;;
  DCHECK (len_ Q =? n) ;;;
  DCHECK (len_ R =? 2 * n) ;;;
  let* A1 := slice A1A2 n n in
  let* B1 := slice B n n in
  let* B2 := slice B 0 n in
  let Qhat := Q in
  let* R1 := slice R n n in
  let* c := Compare A1 B1 in
  if c <? 0 then
    D2n1n Qhat R1 A1A2 B1 ;;;
    unless_terminated (finish_D3n2n scratch Qhat R A3 B B2 n 0)
  else
    SetOnes Qhat ;;;
    Subtract R1 A1 B1 ;;;
    let* temp := Normalize R1 in
    DCHECK (len_ temp <=? 1) ;;;
    let* r1_high := (if 0 <? len_ temp then get temp 0 else ret 0) in
    let* A2 := slice A1A2 0 n in
    let* carry := AddAndReturnCarry R1 A2 B1 in
    finish_D3n2n scratch Qhat R A3 B B2 n (digit_t (r1_high + carry)).

Fixpoint D2n1n (fuel : nat) (scratch Q R A B : Digits) : HM unit :=
  match fuel with
  | O => fun _ => OutOfFuel
  | S fuel =>
      let n := len_ B in
      DCHECK (len_ A <=? 2 * n) ;;;
      let* A_high := slice A n n in
      let* c := Compare A_high B in
      DCHECK (c <? 0) ;;;
      DCHECK (len_ Q =? n) ;;;
      DCHECK (len_ R =? n) ;;;
      if (Z.land n 1 =? 1) || (n <? kBurnikelThreshold) then DivideBasecase Q R A B
      else
        let* A1A2 := slice A n n in
        let* A3 := slice A (n / 2) (n / 2) in
        let* A4 := slice A 0 (n / 2) in
        let* Q1 := slice Q (n / 2) (n / 2) in
        with_scratch n (fun R1 =>
          D3n2n (D2n1n fuel scratch) scratch Q1 R1 A1A2 A3 B ;;;
          unless_terminated (
            let* Q2 := slice Q 0 (n / 2) in
            D3n2n (D2n1n fuel scratch) scratch Q2 R R1 A4 B))
  end.

(** ** Operands of any lengths *)

(** Steps 1 and 2: the divisor's length rounded up to [n = j * m]. *)
Definition burnikel_length (s : Z) : Z :=
  let m := Z.shiftl 1 (int_BitLength (s / kBurnikelThreshold)) in
  let j := DIV_CEIL s m in
  j * m.

(** A vector shifted by whole digits and by bits into [X_shifted]. *)
Definition shift_into (X_shifted X : Digits) (digit_shift sigma : Z) : HM unit :=
  let* upper := plus X_shifted digit_shift in
  LeftShiftBits upper X sigma ;;;
  for_up 0 digit_shift (zero_at X_shifted) tt.

(** Step 8 for the blocks behind the first; [i] counts down. *)
Fixpoint block_loop (fuel : nat) (Divide : Digits -> Digits -> Digits -> Digits -> HM unit)
    (Q A B Z_ Ri : Digits) (n i : Z) (rest : HM unit) : HM unit :=
  match fuel with
  | O => fun _ => OutOfFuel
  | S fuel =>
      if 0 <=? i then
        let* Z_high := plus Z_ n in
        PutAt Z_high Ri n ;;;
        let* Ai := plus A (n * i) in
        PutAt Z_ Ai n ;;;
        let* Qi := slice Q (i * n) n in
        Divide Qi Ri Z_ B ;;;
        unless_terminated (block_loop fuel Divide Q A B Z_ Ri n (i - 1) rest)
      else rest
  end.

(** Step 9: checks the low digits of the last remainder and shifts it back. *)
Definition put_remainder (R Ri : Digits) (digit_shift sigma : Z) : HM unit :=
  for_up 0 digit_shift (fun i _ => let* d := get Ri i in DCHECK (d =? 0)) tt ;;;
  if negb (len_ R =? 0) then
    let* Ri_part := slice Ri digit_shift (len_ Ri) in
    let* Ri_part := Normalize Ri_part in
    DCHECK (len_ Ri_part <=? len_ R) ;;;
    RightShiftBits R Ri_part sigma
  else ret tt.

(** Steps 7 to 9. *)
Definition divide_blocks (Q R A B : Digits) (n digit_shift sigma : Z) : HM unit :=
  let r := len_ A in
  let t := Z.max (DIV_CEIL r n) 2 in
  let z_len := n * 2 in
  with_scratch z_len (fun Z_ =>
    let* top := plus A (n * (t - 2)) in
    PutAt Z_ top z_len ;;;
    with_scratch (if kBurnikelThreshold <=? n then n else 0) (fun scratch_mem_ =>
    with_scratch n (fun Ri =>
      let D2n1n := D2n1n (S (Z.to_nat n)) scratch_mem_ in
      with_scratch n (fun Qi =>
        D2n1n Qi Ri Z_ B ;;;
        unless_terminated (
          let* Qi := Normalize Qi in
          let* target := plus Q (n * (t - 2)) in
          DCHECK (len_ Qi <=? len_ target) ;;;
          PutAt target Qi (len_ target))) ;;;
      unless_terminated (
        block_loop (S (Z.to_nat t)) D2n1n Q A B Z_ Ri n (t - 3)
          (put_remainder R Ri digit_shift sigma))))).

Definition DivideBurnikelZiegler (Q R A B : Digits) : HM unit :=
  DCHECK (len_ B <=? len_ A) ;;;
  DCHECK ((len_ R =? 0) || (len_ B <=? len_ R)) ;;;
  DCHECK (len_ A - len_ B <? len_ Q) ;;;
  let r := len_ A in
  let s := len_ B in
  let n := burnikel_length s in
  let* b_top := get B (s - 1) in
  let sigma := CountLeadingZeros b_top in
  let digit_shift := n - s in
  with_scratch n (fun B_shifted =>
    shift_into B_shifted B digit_shift sigma ;;;
    let* a_top := get A (r - 1) in
    let extra_digit := (if CountLeadingZeros a_top <? sigma + 1 then 1 else 0) in
    let r := len_ A + digit_shift + extra_digit in
    with_scratch r (fun A_shifted =>
      shift_into A_shifted A digit_shift sigma ;;;
      divide_blocks Q R A_shifted B_shifted n digit_shift sigma)).

End Burnikel.
