(* ===== verification/BigIntBurnikelSpec.v ===== *)
(** * The recursive functions of Burnikel-Ziegler division

    [D2n1n] and [D3n2n] give the exact quotient and remainder unless the run is
    interrupted. *)

From stdpp Require Import base list numbers.
From Stdlib Require Import ZArith Lia Bool.
From S2P Require Import Prelude.
From S2P Require Import BigIntDigits.
From S2P Require Import BigIntVectors.
From S2P Require Import BigIntMemory.
From S2P Require Import BigIntArithmetic.
From S2P Require Import BigIntMul.
From S2P Require Import BigIntShift.
From S2P Require Import BigIntDiv.
From S2P Require Import BigIntDivSpec.
From S2P Require Import BigIntBitwise.
From S2P Require Import BigIntTruncateSpec.
From S2P Require Import BigIntInterrupts.
From S2P Require Import BigIntKaratsuba.
From S2P Require Import BigIntKaratsubaSpec.
From S2P Require Import BigIntKaratsubaChunks.
From S2P Require Import BigIntProcessor.
From S2P Require Import BigIntBurnikel.

Local Open Scope Z_scope.
Local Open Scope prog_scope.

(** The views of a list, one by one. *)
Ltac each_apart := repeat apply List.Forall_cons; [..|apply List.Forall_nil].

Section BurnikelSpec.
Context {T : DigitTarget} {P : Platform} {BB : BigIntBuild} {TOK : DigitTargetOK T}.
Local Abbreviation HM := (M Heap).

(** ** What a run may change *)

(** Nothing in use but the given views. *)
Record changed (h h' : Heap) (Ds : list Digits) : Prop := {
  ch_ok : heap_ok h';
  ch_free : free h' = free h;
  ch_polled : polled h h';
  ch_frame : forall a, a < free h -> Forall (fun D => outside D a) Ds -> cell h' a = cell h a
}.

Lemma changed_refl h Ds : heap_ok h -> changed h h Ds.
Proof. intros. constructor; [done|done|by apply polled_same|done]. Qed.

Lemma changed_trans h1 h2 h3 Ds : changed h1 h2 Ds -> changed h2 h3 Ds -> changed h1 h3 Ds.
Proof.
  intros [? E1 P1 F1] [? E2 P2 F2]. constructor; [done|congruence|by eapply polled_trans|].
  intros a Ha Ho. rewrite F2, F1; (done || lia).
Qed.

(** Each view is a part of a view of the longer list. *)
Lemma changed_mono h h' Ds Es :
  changed h h' Ds -> Forall (fun D => Exists (inside D) Es) Ds -> changed h h' Es.
Proof.
  intros [? ? ? F] Hin. constructor; [done|done|done|]. intros a Ha Ho. apply F; [done|].
  eapply Forall_impl; [|exact Hin]. intros D HD. cbn in HD. apply Exists_exists in HD as (E & HE & HDE).
  rewrite Forall_forall in Ho. specialize (Ho E HE). unfold inside, outside in *. lia.
Qed.

Lemma wrote_changed h h' D n Ds :
  wrote h h' D n -> polled h h' -> Exists (inside (mkDigits (digits_ D) n)) Ds -> changed h h' Ds.
Proof.
  intros [? ? F] Hp Hin. constructor; [done|done|done|]. intros a Ha Ho. apply F.
  apply Exists_exists in Hin as (E & HE & HDE). rewrite Forall_forall in Ho. specialize (Ho E HE).
  unfold inside, outside in *. cbn in HDE. lia.
Qed.

Lemma touched_changed h h' Z_ S Ds :
  touched h h' Z_ S -> Exists (inside Z_) Ds -> Exists (inside S) Ds -> changed h h' Ds.
Proof.
  intros [Hok Hf Hp Hfr] HZ HS. apply (changed_mono h h' [Z_; S]); [|by each_apart].
  constructor; [done|done|done|]. intros a Ha Ho.
  apply List.Forall_cons_iff in Ho as [H1 Ho]. apply List.Forall_cons_iff in Ho as [H2 _]. by apply Hfr.
Qed.

Lemma changed_sum h h' Ds p n :
  changed h h' Ds -> Forall (fun D => disjoint D (mkDigits p n)) Ds -> p + n <= free h ->
  sum (cell h') p n = sum (cell h) p n.
Proof.
  intros [_ _ _ F] Hd Hb. apply sum_ext. intros i Hi. apply F; [lia|].
  eapply Forall_impl; [|exact Hd]. intros D HD. cbn in HD. unfold disjoint, outside in *. cbn in HD. lia.
Qed.

Lemma changed_value h h' Ds X :
  changed h h' Ds -> Forall (fun D => disjoint D X) Ds -> below X (free h) -> value h' X = value h X.
Proof. intros Hc Hd [_ Hb]. destruct X. by apply (changed_sum h h' Ds). Qed.

(** Scratch memory at the end of memory is given back. *)
Lemma changed_with_scratch h g Ds S m :
  changed (mkHeap (cell h) (free h + m) (proc h)) g (S :: Ds) -> 0 <= m -> digits_ S = free h ->
  changed h (mkHeap (cell g) (free h) (proc g)) Ds.
Proof.
  intros [Hok Hf Hp Hfr] Hm ES. constructor; [done|done| |].
  - eapply (polled_trans _ (mkHeap (cell h) (free h + m) (proc h))); [by apply polled_same|].
    eapply (polled_trans _ g); [done|by apply polled_same].
  - intros a Ha Ho. apply Hfr; cbn; [lia|]. apply List.Forall_cons; [left; lia|done].
Qed.

(** ** Helpers *)

Lemma PutAt_spec h Z_ A count :
  heap_ok h -> in_order Z_ A -> 0 <= len_ A -> 0 <= count <= len_ Z_ ->
  wp (PutAt Z_ A count)
    (fun _ h' => (wrote h h' Z_ count /\ sum (cell h') (digits_ Z_) count = low h A count) /\ polled h h') h.
Proof.
  intros Hok HO HA Hc. apply wp_polls; [polls_tac|]. unfold PutAt. set (len := Z.min (len_ A) count).
  apply wp_bind. eapply wp_mono; [apply (copy_tail_spec h h Z_ A 0 len 0); [done|done|lia..|]|].
  - split; [by apply wrote_refl|]. by rewrite !sum_0.
  - intros [] h1 Ha. rewrite (Z.max_r 0 len) by lia.
    eapply wp_mono; [apply (zero_range_spec h h1 Z_ len count); [lia|lia|exact Ha]|].
    intros [] h2 [Hw Hv]. split; [done|]. unfold low. rewrite Z.min_comm. fold len. lia.
Qed.

Lemma SpecialCompare_spec h a_high A B :
  heap_ok h -> is_digit a_high -> 0 <= len_ A -> 0 <= len_ B ->
  wp (SpecialCompare a_high A B)
    (fun r h' => h' = h /\ Z.sgn r = Z.sgn (a_high * kBase ^ len_ A + value h A - value h B)) h.
Proof.
  intros Hok Ha HlA HlB. unfold SpecialCompare.
  apply wp_bind. eapply wp_mono; [by apply Normalize_spec|]. intros B' h' [-> HB].
  rewrite <- (norm_value _ _ _ HB). pose proof (normalized_upper _ _ _ Hok HB) as HuB.
  pose proof (norm_len _ _ _ HB) as LB. rewrite <- (norm_value _ _ _ HB) in HuB.
  destruct (Z.eqb_spec a_high 0) as [->|Hne]; cbn [negb].
  - apply wp_bind, wp_bind. eapply wp_mono; [by apply Normalize_spec|]. intros A' h' [-> HA]. apply wp_ret.
    rewrite <- (norm_value _ _ _ HA), Z.mul_0_l, Z.add_0_l.
    pose proof (norm_len _ _ _ HA) as LA. pose proof (normalized_upper _ _ _ Hok HA) as HuA.
    rewrite <- (norm_value _ _ _ HA) in HuA.
    destruct (Z.eqb_spec (len_ A' - len_ B') 0) as [E|E]; cbn [negb].
    + eapply wp_mono; [apply compare_digits_spec; [done|lia|lia]|]. intros r h' [-> Hr]. split; [done|].
      rewrite Hr. unfold value. by replace (len_ B') with (len_ A') by lia.
    + apply wp_ret. split; [done|]. destruct (Z.lt_total (len_ A') (len_ B')) as [Hlt|[|Hlt]]; [|lia|].
      * pose proof (normalized_lower _ _ _ Hok HB ltac:(lia)) as Hlow. rewrite <- (norm_value _ _ _ HB) in Hlow.
        pose proof (kBase_pow_mono (len_ A') (len_ B' - 1) ltac:(lia)). rewrite !Z.sgn_neg by lia. done.
      * pose proof (normalized_lower _ _ _ Hok HA ltac:(lia)) as Hlow. rewrite <- (norm_value _ _ _ HA) in Hlow.
        pose proof (kBase_pow_mono (len_ B') (len_ A' - 1) ltac:(lia)). rewrite !Z.sgn_pos by lia. done.
  - apply wp_bind, wp_ret. pose proof (value_range h A Hok HlA) as HvA. pose proof (kBase_pow_pos _ HlA) as Hp.
    assert (Ha0 : kBase ^ len_ A <= a_high * kBase ^ len_ A) by (unfold is_digit in Ha; nia).
    assert (Ha1 : a_high * kBase ^ len_ A + value h A < kBase ^ (len_ A + 1)).
    { rewrite kBase_pow_succ by done. unfold is_digit in Ha. nia. }
    destruct (Z.eqb_spec (len_ A + 1 - len_ B') 0) as [E|E]; cbn [negb].
    + rewrite Z.add_simpl_r. apply wp_bind, wp_get; [lia|].
      assert (Ev : value h B' = sum (cell h) (digits_ B') (len_ A) + cell h (digits_ B' + len_ A) * kBase ^ len_ A).
      { unfold value. rewrite (sum_pred _ _ (len_ B')) by lia. by replace (len_ B' - 1) with (len_ A) by lia. }
      pose proof (sum_range (cell h) (digits_ B') (len_ A) Hok HlA) as HvB. rewrite Ev.
      set (b := cell h (digits_ B' + len_ A)) in *. set (lb := sum _ (digits_ B') _) in *.
      replace (a_high * _ + _) with (value h A + a_high * kBase ^ len_ A) by lia.
      destruct (Z.ltb_spec b a_high) as [H1|H1].
      { apply wp_ret. split; [done|]. rewrite leading_digit_sgn by lia. rewrite (Z.sgn_pos (_ - _)) by lia. done. }
      destruct (Z.ltb_spec a_high b) as [H2|H2].
      { apply wp_ret. split; [done|]. rewrite leading_digit_sgn by lia. rewrite (Z.sgn_neg (_ - _)) by lia. done. }
      eapply wp_mono; [apply (compare_digits_spec h A B' (len_ A)); [done|lia|lia]|].
      intros r h' [-> Hr]. split; [done|]. rewrite Hr. f_equal. fold (value h A) lb.
      replace a_high with b by lia. lia.
    + apply wp_ret. split; [done|]. destruct (Z.lt_total (len_ A + 1) (len_ B')) as [Hlt|[|Hlt]]; [|lia|].
      * pose proof (normalized_lower _ _ _ Hok HB ltac:(lia)) as Hlow. rewrite <- (norm_value _ _ _ HB) in Hlow.
        pose proof (kBase_pow_mono (len_ A + 1) (len_ B' - 1) ltac:(lia)). rewrite !Z.sgn_neg by lia. done.
      * pose proof (kBase_pow_mono (len_ B') (len_ A) ltac:(lia)). rewrite !Z.sgn_pos by lia. done.
Qed.

(** ** Division of two blocks by one *)

Lemma disjoint_inside X Y X' Y' : disjoint X Y -> inside X' X -> inside Y' Y -> disjoint X' Y'.
Proof. unfold disjoint, inside. lia. Qed.

(** A vector with a top digit is normalized. *)
Lemma normalized_same h D D' :
  heap_ok h -> normalized h D D' -> 0 < len_ D -> cell h (digits_ D + (len_ D - 1)) <> 0 -> D' = D.
Proof.
  intros Hok HD Hl Ht. pose proof (normalized_upper _ _ _ Hok HD) as Hu. pose proof (norm_len _ _ _ HD) as HL.
  pose proof (Hok (digits_ D + (len_ D - 1))) as [Ht0 _].
  assert (Hlow : kBase ^ (len_ D - 1) <= value h D).
  { unfold value. rewrite sum_pred by done. pose proof (sum_range (cell h) (digits_ D) (len_ D - 1) Hok ltac:(lia)).
    pose proof (kBase_pow_pos (len_ D - 1) ltac:(lia)). nia. }
  assert (El : len_ D' = len_ D).
  { destruct (Z_lt_le_dec (len_ D') (len_ D)); [|lia]. pose proof (kBase_pow_mono (len_ D') (len_ D - 1) ltac:(lia)). lia. }
  pose proof (norm_digits _ _ _ HD). destruct D, D'. cbn in *. congruence.
Qed.

(** The quotient and the remainder, unless the run was interrupted. *)
Record divided (h : Heap) (Q R : Digits) (Ds : list Digits) (a b : Z) (h' : Heap) : Prop := {
  dv_changed : changed h h' Ds;
  dv_value : status_ (proc h') = kOk -> value h' Q = a / b /\ value h' R = a mod b
}.

(** What a division of [2 * n] digits by [n] needs. *)
Record block_ready (h : Heap) (S Q R A B : Digits) (n : Z) : Prop := {
  br_ok : heap_ok h;
  br_n : 2 <= n;
  br_lens : len_ Q = n /\ len_ R = n /\ len_ A = 2 * n /\ len_ B = n;
  br_scratch : kBurnikelThreshold <= n -> n <= len_ S;
  br_below : below S (free h) /\ below Q (free h) /\ below R (free h) /\ below A (free h) /\ below B (free h);
  br_QR : disjoint Q R;
  br_QA : disjoint Q A;
  br_QB : disjoint Q B;
  br_RA : disjoint R A;
  br_RB : disjoint R B;
  br_S : disjoint S Q /\ disjoint S R /\ disjoint S A /\ disjoint S B;
  br_top : kBase <= 2 * cell h (digits_ B + (n - 1));
  br_small : sum (cell h) (digits_ A + n) n < value h B
}.

(** Numbers: the dividend's upper half is below the divisor. *)
Lemma block_fits h A B n :
  heap_ok h -> 0 <= n -> len_ A = 2 * n -> sum (cell h) (digits_ A + n) n < value h B ->
  fits (value h A) (value h B) n.
Proof.
  intros Hok Hn HA Hs. unfold fits, value at 1. rewrite HA. replace (2 * n) with (n + n) by lia. rewrite sum_split by lia.
  pose proof (sum_range (cell h) (digits_ A) n Hok Hn). pose proof (kBase_pow_pos n Hn). nia.
Qed.

Lemma top_nonzero h B n : 0 < n -> len_ B = n -> kBase <= 2 * cell h (digits_ B + (n - 1)) ->
  cell h (digits_ B + (len_ B - 1)) <> 0.
Proof. intros Hn -> Ht. pose proof kBase_pos. lia. Qed.

(** The lowest digit of a vector of zeros. *)
Lemma store_low h D v :
  heap_ok h -> value h D = 0 -> 0 < len_ D -> is_digit v ->
  heap_ok (store h (digits_ D + 0) v) /\ value (store h (digits_ D + 0) v) D = v.
Proof.
  intros Hok Hv Hl Hd. split.
  - intros a. cbn. destruct (a =? _); [done|apply Hok].
  - unfold value in *. rewrite sum_cons by done. rewrite Z.add_0_r. cbn. rewrite Z.eqb_refl.
    rewrite (sum_zeros (fun x => if x =? digits_ D then v else cell h x)); [lia|].
    intros i Hi. destruct (Z.eqb_spec (digits_ D + 1 + i) (digits_ D)); [lia|].
    rewrite <- Z.add_assoc. apply (sum_eq_0 (cell h) (digits_ D) (len_ D)); [done|done|lia].
Qed.

Lemma store_wrote h D v : heap_ok h -> 0 < len_ D -> is_digit v -> wrote h (store h (digits_ D + 0) v) D (len_ D).
Proof.
  intros Hok Hl Hd. apply (wrote_mono _ _ _ (0 + 1)); [lia|]. apply wrote_store; [by apply wrote_refl|done|done].
Qed.

Lemma exists_self D Ds : Exists (inside D) (D :: Ds).
Proof. apply Exists_cons_hd. unfold inside. lia. Qed.

Lemma exists_next D E Ds : Exists (inside D) Ds -> Exists (inside D) (E :: Ds).
Proof. apply Exists_cons_tl. Qed.

Lemma view_eta D : mkDigits (digits_ D) (len_ D) = D.
Proof. by destruct D. Qed.

Lemma changed_first h h' D Ds : wrote h h' D (len_ D) -> polled h h' -> changed h h' (D :: Ds).
Proof. intros Hw Hp. apply (wrote_changed h h' D (len_ D)); [done|done|]. rewrite view_eta. apply exists_self. Qed.

Lemma changed_second h h' D E Ds : wrote h h' D (len_ D) -> polled h h' -> changed h h' (E :: D :: Ds).
Proof. intros Hw Hp. apply (wrote_changed h h' D (len_ D)); [done|done|]. rewrite view_eta. apply exists_next, exists_self. Qed.

Lemma wrote_other h h' D X : wrote h h' D (len_ D) -> disjoint D X -> value h' X = value h X.
Proof. intros Hw Hd. by apply (value_wrote h h' D (len_ D)). Qed.

Section Basecase.
Context (h : Heap) (S Q R A B A' : Digits) (n : Z).
Hypotheses (Hr : block_ready h S Q R A B n) (NA : normalized h A A').

Lemma basecase_divisor : 0 < value h B < kBase ^ n /\ cell h (digits_ B + (len_ B - 1)) <> 0 /\ kBase ^ (n - 1) <= value h B.
Proof.
  destruct Hr as [Hok Hn (LQ & LR & LA & LB) _ _ _ _ _ _ _ _ Ht _].
  pose proof (top_nonzero h B n ltac:(lia) LB Ht) as Htop. rewrite <- LB.
  split; [split; [by apply divisor_pos; [|lia|]|apply value_range; [done|lia]]|]. split; [done|].
  apply normal_lower; [done| |lia]. split; [lia|done].
Qed.

Lemma basecase_inside : inside A' A /\ below A' (free h) /\ 0 <= len_ A' <= 2 * n /\ disjoint R A' /\ disjoint Q A'.
Proof.
  destruct Hr as [_ Hn (LQ & LR & LA & LB) _ (_ & _ & _ & BA & _) _ QA _ RA _ _ _ _].
  pose proof (norm_len _ _ _ NA) as LA'. pose proof (norm_digits _ _ _ NA) as DA.
  assert (Hin : inside A' A) by (unfold inside; lia). assert (Hself : forall D, inside D D) by (unfold inside; lia).
  split; [done|]. split; [destruct BA; unfold below, inside in *; lia|]. split; [lia|].
  split; [apply (disjoint_inside R A)|apply (disjoint_inside Q A)]; auto.
Qed.

Lemma basecase_equal :
  value h A = value h B ->
  wp (Clear Q ;;; (Clear R ;;; set Q 0 1)) (fun _ => divided h Q R [Q; R] (value h A) (value h B)) h.
Proof.
  intros E. destruct basecase_divisor as [HB _]. destruct Hr as [Hok Hn (LQ & LR & _) _ _ QR _ _ _ _ _ _ _].
  apply wp_bind. eapply wp_mono; [apply wp_polls; [polls_tac|apply Clear_spec; [done|lia]]|].
  intros [] h1 [[Hw1 Hv1] Hp1]. pose proof (wrote_ok _ _ _ _ Hw1) as Hok1.
  apply wp_bind. eapply wp_mono; [apply wp_polls; [polls_tac|apply Clear_spec; [done|lia]]|].
  intros [] h2 [[Hw2 Hv2] Hp2]. pose proof (wrote_ok _ _ _ _ Hw2) as Hok2. apply wp_set; [lia|].
  assert (H1 : is_digit 1) by (unfold is_digit; pose proof kBase_pos; lia).
  assert (EQ : value h2 Q = 0).
  { transitivity (value h1 Q); [|done]. apply (wrote_other _ _ R); [done|by apply disjoint_sym]. }
  destruct (store_low h2 Q 1 Hok2 EQ ltac:(lia) H1) as [Hok3 Hv3].
  pose proof (store_wrote h2 Q 1 Hok2 ltac:(lia) H1) as Hw3. constructor.
  - apply (changed_trans _ h1); [by apply changed_first|]. apply (changed_trans _ h2); [by apply changed_second|].
    apply changed_first; [done|by apply polled_same].
  - intros _. rewrite E, Z.div_same, Z.mod_same by lia. split; [done|].
    transitivity (value h2 R); [|done]. by apply (wrote_other _ _ Q).
Qed.

Lemma basecase_less :
  value h A < value h B ->
  wp (Clear Q ;;; PutAt R A' (len_ R)) (fun _ => divided h Q R [Q; R] (value h A) (value h B)) h.
Proof.
  intros Hlt. destruct basecase_divisor as ([HB HBu] & _). destruct basecase_inside as (_ & BA & LA & RA & QA).
  destruct Hr as [Hok Hn (LQ & LR & _) _ _ QR _ _ _ _ _ _ _].
  pose proof (value_range h A' Hok ltac:(lia)) as [V0 _]. pose proof (norm_value _ _ _ NA) as VA.
  assert (LAn : len_ A' <= n).
  { destruct (Z_le_gt_dec (len_ A') n) as [|Hgt]; [done|].
    pose proof (normalized_lower _ _ _ Hok NA ltac:(lia)). pose proof (kBase_pow_mono n (len_ A' - 1) ltac:(lia)). lia. }
  apply wp_bind. eapply wp_mono; [apply wp_polls; [polls_tac|apply Clear_spec; [done|lia]]|].
  intros [] h1 [[Hw1 Hv1] Hp1].
  eapply wp_mono; [apply (PutAt_spec h1 R A' (len_ R)); [apply Hw1|apply disjoint_in_order; [done|lia]|lia|lia]|].
  intros [] h2 [[Hw2 Hv2] Hp2]. constructor.
  - apply (changed_trans _ h1); [by apply changed_first|by apply changed_second].
  - intros _. rewrite Z.div_small, Z.mod_small by lia. split.
    + transitivity (value h1 Q); [|done]. apply (wrote_other _ _ R); [done|by apply disjoint_sym].
    + unfold value at 1. rewrite Hv2, low_all, <- VA by lia. by apply (wrote_other _ _ Q).
Qed.

Lemma basecase_greater :
  value h B < value h A ->
  wp (DivideSchoolbook Q R A' B) (fun _ => divided h Q R [Q; R] (value h A) (value h B)) h.
Proof.
  intros Hlt. destruct basecase_divisor as (_ & Htop & Hlow). destruct basecase_inside as (_ & BA' & LA' & RA & QA).
  destruct Hr as [Hok Hn (LQ & LR & LA & LB) _ (_ & BQ & BR & _ & BB') QR _ QB _ _ _ _ Hs].
  pose proof (block_fits h A B n Hok ltac:(lia) LA Hs) as Hfit. pose proof (norm_value _ _ _ NA) as VA.
  assert (LAn : n <= len_ A').
  { destruct (Z_lt_le_dec (len_ A') n) as [Hlt'|]; [|done]. pose proof (normalized_upper _ _ _ Hok NA) as Hu.
    pose proof (kBase_pow_mono (len_ A') (n - 1) ltac:(lia)). lia. }
  eapply wp_mono; [apply wp_polls; [polls_tac|apply (DivideSchoolbook_spec h Q R A' B)]|].
  - constructor; try done.
    + lia.
    + right. rewrite VA. split; [lia|]. by rewrite LQ.
    + right. lia.
  - intros [] h' [[Hok' Hf' Hfr' Hq Hrm] Hp]. rewrite VA in Hq, Hrm. constructor.
    + constructor; [done|done|done|]. intros a Ha Ho.
      apply List.Forall_cons_iff in Ho as [H1 Ho]. apply List.Forall_cons_iff in Ho as [H2 _]. by apply Hfr'.
    + intros _. split; [apply Hq|apply Hrm]; lia.
Qed.

End Basecase.

Lemma DivideBasecase_spec h S Q R A B n :
  block_ready h S Q R A B n ->
  wp (DivideBasecase Q R A B) (fun _ => divided h Q R [Q; R] (value h A) (value h B)) h.
Proof.
  intros Hr. destruct (basecase_divisor h S Q R A B n Hr) as (_ & Htop & _).
  pose proof Hr as [Hok Hn (LQ & LR & LA & LB) _ _ _ _ _ _ _ _ _ _]. unfold DivideBasecase.
  apply wp_bind. eapply wp_mono; [apply Normalize_spec; [done|lia]|]. intros A' h' [-> NA].
  apply wp_bind. eapply wp_mono; [apply Normalize_spec; [done|lia]|]. intros B' h' [-> NB].
  rewrite (normalized_same h B B' Hok NB ltac:(lia) Htop). clear B' NB.
  apply wp_bind, wp_DCHECK; [apply Z.ltb_lt; lia|]. pose proof (norm_len _ _ _ NA).
  apply wp_bind. eapply wp_mono; [apply Compare_spec; [done|lia|lia]|]. intros c h' [-> Hc].
  rewrite (norm_value _ _ _ NA) in Hc. destruct (Z.leb_spec c 0) as [Hc0|Hc0].
  - destruct (Z.eqb_spec c 0) as [E0|E0].
    + apply (basecase_equal h S Q R A B n Hr). lia.
    + apply (basecase_less h S Q R A B A' n Hr NA). lia.
  - destruct (Z.eqb_spec (len_ B) 1) as [E1|E1]; [lia|]. apply (basecase_greater h S Q R A B A' n Hr NA). lia.
Qed.

(** ** Three halves by two *)

(** Correcting the estimate: [V] is the tentative remainder plus the product [d]
    that has still to be subtracted. *)
Section Correct.
Context (h : Heap) (Q R B D : Digits) (m q V r1_high : Z).
Hypotheses (Hok : heap_ok h) (Hm : 0 < m) (LR : len_ R = m) (LB : len_ B = m) (LD : len_ D = m) (LQ : 0 < len_ Q).
Hypotheses (QR : disjoint Q R) (QB : disjoint Q B) (QD : disjoint Q D) (RB : disjoint R B) (RD : disjoint R D).
Hypotheses (BB' : below B (free h)) (BD : below D (free h)) (BR : below R (free h)).
Hypotheses (HQ : value h Q = q) (HV : r1_high * kBase ^ m + value h R = V) (Hr1 : 0 <= r1_high <= 1).
Local Abbreviation b := (value h B).
Local Abbreviation d := (value h D).
Hypotheses (Hlow : - 2 * b < V - d) (Hhigh : V - d < b) (Hq : 0 <= V - d + q * b) (Hb : 0 < b).

Record correcting (k r : Z) (h' : Heap) : Prop := {
  co_changed : changed h h' [Q; R];
  co_quotient : value h' Q = q - k;
  co_value : r * kBase ^ m + value h' R = V + k * b;
  co_high : 0 <= r <= 1 + k;
  co_range : V + k * b - d < b
}.

Lemma correcting_round k r h' :
  correcting k r h' -> 0 <= k -> V + k * b - d < 0 ->
  wp (let* carry := AddAndReturnCarry R R B in SubtractDigit Q 1 ;;; ret (inl (digit_t (r + carry)) : Z + Z))
    (fun s h2 => exists r2, s = inl r2 /\ correcting (k + 1) r2 h2 /\ k <= 1) h'.
Proof.
  intros [Hc EQ EV Hr Hrange] Hk Hneg.
  assert (Hk1 : k <= 1) by nia. assert (Hqk : 1 <= q - k) by nia.
  assert (EB : value h' B = b).
  { apply (changed_value h h' [Q; R]); [done|by each_apart|done]. }
  pose proof Hc as [Hok' Hf' _ _]. apply wp_bind.
  eapply wp_mono; [apply wp_polls; [polls_tac|apply (AddAndReturnCarry_spec h' R R B)]|];
    [done|left; lia|apply disjoint_in_order; [done|lia]|lia|lia|lia|].
  intros c h1 [(Hc1 & [Hw1 Hv]) Hp1]. rewrite LB in Hw1, Hv.
  assert (Hv1 : value h1 R + c * kBase ^ m = value h' R + b) by (unfold value at 1 2; by rewrite LR, Hv, EB).
  rewrite <- LR in Hw1. pose proof (wrote_ok _ _ _ _ Hw1) as Hok1.
  assert (EQ1 : value h1 Q = q - k).
  { rewrite <- EQ. apply (wrote_other _ _ R); [done|by apply disjoint_sym]. }
  apply wp_bind. eapply wp_mono; [apply wp_polls; [polls_tac|apply (SubtractDigit_spec h1 Q 1)]|];
    [done|lia|unfold is_digit; pose proof kBase_pos; lia|done|lia|].
  intros [] h2 [[Hw2 Hv2] Hp2]. apply wp_ret. eexists. split; [done|]. split; [|done].
  rewrite digit_t_small by (unfold is_digit; pose proof kBase_pos; lia). constructor.
  - apply (changed_trans _ h'); [done|]. apply (changed_trans _ h1); [by apply changed_second|by apply changed_first].
  - lia.
  - rewrite (wrote_other h1 h2 Q R Hw2 QR). lia.
  - lia.
  - lia.
Qed.

Lemma correct_estimate_spec :
  wp (correct_estimate Q R B D r1_high)
    (fun r h' => exists k, correcting k r h' /\ 0 <= V + k * b - d /\ 0 <= k <= q) h.
Proof.
  unfold correct_estimate.
  apply (wp_loop (fun r h' => exists k, correcting k r h' /\ 0 <= k)
    (fun _ h' => Z.to_nat (2 - (q - value h' Q)))).
  - intros r h' (k & Hco & Hk). pose proof Hco as [Hc EQ EV Hr Hrange]. pose proof Hc as [Hok' Hf' _ _].
    assert (ED : value h' D = d).
    { apply (changed_value h h' [Q; R]); [done|by each_apart|done]. }
    assert (Hr4 : r < kBase) by (pose proof kBase_pos; nia).
    apply wp_bind. eapply wp_mono; [apply SpecialCompare_spec; [done|unfold is_digit; lia|lia|lia]|].
    intros c h0 [-> Hc0]. rewrite LR, EV, ED in Hc0. destruct (Z.ltb_spec c 0) as [Hlt|Hge].
    + eapply wp_mono; [apply (correcting_round k r h'); [done|done|lia]|].
      intros s h2 (r2 & -> & Hco2 & Hk1). split; [by exists (k + 1); split; [|lia]|].
      rewrite EQ, (co_quotient _ _ _ Hco2). lia.
    + apply wp_ret. exists k. split; [done|]. split; [lia|]. split; [done|].
      destruct (Z_lt_le_dec q k) as [Hlt|]; [exfalso|done].
      pose proof (value_range h' Q Hok' ltac:(lia)). lia.
  - exists 0. split; [|done]. constructor; [by apply changed_refl|lia..].
  - rewrite HQ. unfold kCorrectionRounds. lia.
Qed.

End Correct.

Lemma wp_unless_terminated rest (Q : unit -> Heap -> Prop) h :
  (status_ (proc h) = kOk -> wp rest Q h) -> (status_ (proc h) <> kOk -> Q tt h) -> wp (unless_terminated rest) Q h.
Proof.
  intros H1 H2. apply wp_bind, wp_gets. destruct (status_ (proc h)); [auto|]. apply wp_ret. auto.
Qed.

(** What a division of [3 * n] digits by [2 * n] needs. *)
Record three_ready (h : Heap) (S Q R A12 A3 B : Digits) (n : Z) : Prop := {
  tr_ok : heap_ok h;
  tr_going : going h;
  tr_n : 2 <= n /\ 2 * n <= kMaxInt;
  tr_lens : len_ Q = n /\ len_ R = 2 * n /\ len_ A12 = 2 * n /\ len_ A3 = n /\ len_ B = 2 * n;
  tr_scratch : 2 * n <= len_ S;
  tr_below : below S (free h) /\ below Q (free h) /\ below R (free h) /\ below A12 (free h) /\ below A3 (free h) /\
    below B (free h);
  tr_Q : disjoint Q R /\ disjoint Q A12 /\ disjoint Q A3 /\ disjoint Q B;
  tr_R : disjoint R A12 /\ disjoint R A3 /\ disjoint R B;
  tr_S : disjoint S Q /\ disjoint S R /\ disjoint S A12 /\ disjoint S A3 /\ disjoint S B;
  tr_top : kBase <= 2 * cell h (digits_ B + (2 * n - 1));
  tr_small : value h A12 < value h B
}.

(** Numbers: the divisor in halves, and the size of the estimate's error. *)
Lemma split_value h D n : len_ D = 2 * n -> 0 <= n ->
  value h D = value h (mkDigits (digits_ D) n) + kBase ^ n * value h (mkDigits (digits_ D + n) n).
Proof. intros E Hn. unfold value. cbn. rewrite E. replace (2 * n) with (n + n) by lia. by apply sum_split. Qed.

Lemma divisor_top_half h B n :
  heap_ok h -> 0 < n -> kBase <= 2 * cell h (digits_ B + (2 * n - 1)) ->
  kBase ^ n <= 2 * value h (mkDigits (digits_ B + n) n).
Proof.
  intros Hok Hn Ht. unfold value. cbn [digits_ len_]. rewrite sum_pred by done.
  replace (digits_ B + n + (n - 1)) with (digits_ B + (2 * n - 1)) by lia.
  replace n with (n - 1 + 1) at 1 by lia. rewrite kBase_pow_succ by lia.
  pose proof (sum_range (cell h) (digits_ B + n) (n - 1) Hok ltac:(lia)). pose proof (kBase_pow_pos (n - 1) ltac:(lia)).
  nia.
Qed.

Lemma estimate_error p q b1 b2 x a3 r :
  0 < p -> 0 <= q < p -> 0 <= b2 < p -> p <= 2 * b1 -> 0 <= a3 -> 0 <= r -> x = q * b1 + r ->
  let d := q * b2 in let b := b2 + p * b1 in let v := r * p + a3 in
  - 2 * b < v - d /\ v - d = x * p + a3 - q * b.
Proof. intros. subst d b v x. split; [|ring]. assert (q * b2 <= p * (p - 1)) by nia. nia. Qed.

Lemma low_remainder p q b1 b2 x a3 r :
  0 < p -> 0 <= q -> 0 <= b2 -> x = q * b1 + r -> r < b1 -> a3 < p -> x * p + a3 - q * (b2 + p * b1) < b2 + p * b1.
Proof. intros Hp Hq Hb2 -> Hr Ha. assert ((r + 1) * p <= b1 * p) by nia. assert (0 <= q * b2) by nia. lia. Qed.

Lemma full_quotient p x a3 b : 0 < p -> x < b -> a3 < p -> x * p + a3 - (p - 1) * b < b.
Proof. intros. assert ((x + 1) * p <= b * p) by nia. lia. Qed.

Lemma exact_division a b q r : a = q * b + r -> 0 <= r < b -> q = a / b /\ r = a mod b.
Proof. intros -> Hr. split; [apply (Z.div_unique _ _ _ r); lia|apply (Z.mod_unique _ _ q); lia]. Qed.

Context {AM : AdvancedMultiplication} {AMOK : AdvancedMultiplicationOK AM}.

Section Finish.
Context (h : Heap) (S Q R A12 A3 B : Digits) (n q r : Z).
Hypothesis Hr : three_ready h S Q R A12 A3 B n.
Local Abbreviation D := (mkDigits (digits_ S) (2 * n)).
Local Abbreviation B1 := (mkDigits (digits_ B + n) n).
Local Abbreviation B2 := (mkDigits (digits_ B) n).
Local Abbreviation R1 := (mkDigits (digits_ R + n) n).
Local Abbreviation N := (value h A12 * kBase ^ n + value h A3).
Local Abbreviation b := (value h B).
Hypotheses (EQ : value h Q = q) (Hr1 : 0 <= r <= 1).
Hypothesis EX : value h A12 = q * value h B1 + (r * kBase ^ n + value h R1).
Hypothesis Hhigh : N - q * b < b.

Lemma product_apart : disjoint D Q /\ disjoint D R /\ disjoint D A3 /\ disjoint D B /\ below D (free h) /\ inside D S.
Proof.
  destruct Hr as [_ _ Hn _ LS (BS & _) _ _ (SQ & SR & _ & S3 & SB) _ _].
  assert (Hin : inside D S) by (unfold inside; cbn; lia). assert (Hself : forall X, inside X X) by (unfold inside; lia).
  assert (Hd : forall X, disjoint S X -> disjoint D X) by (intros X HX; by apply (disjoint_inside S X)).
  do 4 (split; [by apply Hd|]). split; [|done]. destruct BS. unfold below. cbn. lia.
Qed.

Lemma finish_numbers :
  0 < b /\ 0 <= q < kBase ^ n /\ - 2 * b < (r * kBase ^ n + value h R1) * kBase ^ n + value h A3 - q * value h B2 /\
  (r * kBase ^ n + value h R1) * kBase ^ n + value h A3 - q * value h B2 = N - q * b /\ 0 <= N.
Proof.
  destruct Hr as [Hok _ Hn (LQ & LR & L12 & L3 & LB) _ _ _ _ _ Ht Hs].
  pose proof (kBase_pow_pos n ltac:(lia)) as Hp. pose proof (divisor_top_half h B n Hok ltac:(lia) Ht) as Hhalf.
  pose proof (value_range h Q Hok ltac:(lia)) as VQ. rewrite EQ, LQ in VQ.
  pose proof (value_range h B2 Hok ltac:(cbn; lia)) as VB2. cbn [len_] in VB2.
  pose proof (value_range h R1 Hok ltac:(cbn; lia)) as VR1. pose proof (value_range h A3 Hok ltac:(lia)) as VA3.
  pose proof (value_range h A12 Hok ltac:(lia)) as VA.
  rewrite (split_value h B n LB ltac:(lia)).
  assert (H0 : 0 <= r * kBase ^ n + value h R1) by nia.
  destruct (estimate_error (kBase ^ n) q (value h B1) (value h B2) (value h A12) (value h A3) _ Hp VQ VB2 Hhalf
    (proj1 VA3) H0 EX) as [He1 He2].
  split; [apply Z.add_nonneg_pos; [apply VB2|apply Z.mul_pos_pos; lia]|]. split; [done|]. split; [done|]. split; [done|].
  apply Z.add_nonneg_nonneg; [apply Z.mul_nonneg_nonneg|]; lia.
Qed.

(** The state behind step 5. *)
Lemma finish_ready g :
  changed h g [D] -> value g D = q * value h B2 ->
  wp (PutAt R A3 n)
    (fun _ g' => changed g g' [R] /\ changed h g' [Q; R; S] /\ value g' Q = q /\ value g' B = b /\
       value g' D = q * value h B2 /\
       r * kBase ^ (2 * n) + value g' R = (r * kBase ^ n + value h R1) * kBase ^ n + value h A3) g.
Proof.
  intros Hc ED. destruct product_apart as (DQ & DR & D3 & DB & BD & DS).
  destruct Hr as [Hok _ Hn (LQ & LR & L12 & L3 & LB) _ (_ & BQ & BR & _ & B3 & BB') (QR & _ & Q3 & QB) (_ & R3 & RB) _ _ _].
  pose proof Hc as [Hokg Hfg _ _].
  eapply wp_mono; [apply (PutAt_spec g R A3 n); [done|apply disjoint_in_order; [done|lia]|lia|lia]|].
  intros [] g' [[Hw Hv] Hp]. rewrite low_all in Hv by lia.
  assert (Hcg : changed g g' [R]).
  { apply (wrote_changed g g' R n); [done|done|]. apply Exists_cons_hd. unfold inside. cbn. lia. }
  assert (Hother : forall X, disjoint D X -> disjoint R X -> below X (free h) -> value g' X = value h X).
  { intros X H1 H2 H3. rewrite (changed_value g g' [R] X); [|done|by each_apart|by rewrite Hfg].
    apply (changed_value h g [D]); [done|by each_apart|done]. }
  split; [done|]. split; [|split; [|split; [|split]]].
  - apply (changed_trans _ g).
    + apply (changed_mono h g [D]); [done|]. each_apart. by apply exists_next, exists_next, Exists_cons_hd.
    + apply (changed_mono g g' [R]); [done|]. each_apart. apply exists_next, exists_self.
  - rewrite <- EQ. apply Hother; [done|by apply disjoint_sym|done].
  - by apply Hother.
  - rewrite <- ED. apply (changed_value g g' [R]); [done| |by rewrite Hfg]. each_apart. by apply disjoint_sym.
  - rewrite (split_value g' R n LR ltac:(lia)). unfold value at 1. cbn [digits_ len_]. rewrite Hv.
    rewrite (changed_value h g [D] A3 Hc); [|by each_apart|done].
    assert (ER : value g' R1 = value h R1).
    { transitivity (value g R1).
      - apply (value_wrote g g' R n); [done|]. cbn. lia.
      - apply (changed_value h g [D]); [done| |destruct BR; unfold below; cbn; lia]. each_apart.
        apply (disjoint_inside D R); [done|unfold inside; lia|unfold inside; cbn; lia]. }
    rewrite ER. replace (2 * n) with (n + n) by lia. rewrite Z.pow_add_r by lia. ring.
Qed.

(** Steps 5 and 6, and the checks at the end. *)
Lemma subtract_product g :
  changed h g [D] -> value g D = q * value h B2 -> status_ (proc g) = kOk ->
  wp (PutAt R A3 n ;;;
      let* r1_high := correct_estimate Q R B D r in
      let* borrow := SubtractAndReturnBorrow R R D in
      DCHECK (borrow =? r1_high) ;;;
      let* c := Compare R B in
      DCHECK (c <? 0))
    (fun _ => divided h Q R [Q; R; S] N b) g.
Proof.
  intros Hc ED Hst. destruct product_apart as (DQ & DR & D3 & DB & BD & DS).
  destruct finish_numbers as (Hb & Hq & Hlow & EN & HN). set (V := (r * kBase ^ n + value h R1) * kBase ^ n + value h A3) in *.
  pose proof Hr as [Hok _ Hn (LQ & LR & L12 & L3 & LB) _ (_ & BQ & BR & _ & B3 & BB') (QR & _ & Q3 & QB) (_ & R3 & RB) _ _ _].
  apply wp_bind. eapply wp_mono; [by apply finish_ready|].
  intros [] g1 (_ & Hc1 & EQ1 & EB1 & ED1 & EV1). fold V in EV1. pose proof Hc1 as [Hok1 Hf1 _ _].
  assert (Hf : free g1 = free h) by done.
  apply wp_bind. eapply wp_mono; [apply (correct_estimate_spec g1 Q R B D (2 * n) q V r)|]; rewrite ?EB1, ?ED1, ?Hf;
    try done; try lia; try (cbn; lia); try by apply disjoint_sym.
  intros r' g2 (k & [Hc2 EQ2 EV2 Hr2 Hrange] & Hpos & Hk). rewrite EB1, ED1 in *. pose proof Hc2 as [Hok2 Hf2 _ _].
  assert (ED2 : value g2 D = q * value h B2).
  { rewrite <- ED1. apply (changed_value g1 g2 [Q; R]); [done|each_apart; by apply disjoint_sym|by rewrite Hf]. }
  assert (EB2 : value g2 B = b).
  { rewrite <- EB1. apply (changed_value g1 g2 [Q; R]); [done|by each_apart|by rewrite Hf]. }
  apply wp_bind. eapply wp_mono; [apply wp_polls; [polls_tac|apply (SubtractAndReturnBorrow_spec g2 R R D)]|];
    [done|left; lia|apply disjoint_in_order; [by apply disjoint_sym|lia]|cbn; lia|cbn; lia|cbn; lia|].
  intros c g3 [(Hc3 & [Hw3 Hv3]) Hp3]. cbn [len_] in Hw3, Hv3. rewrite <- LR in Hw3.
  assert (Ev : value g3 R - c * kBase ^ (2 * n) = value g2 R - q * value h B2).
  { unfold value at 1 2. rewrite LR. rewrite ED2 in Hv3. lia. }
  pose proof (wrote_ok _ _ _ _ Hw3) as Hok3. pose proof (value_range g3 R Hok3 ltac:(lia)) as VR3. rewrite LR in VR3.
  assert (HbR : b < kBase ^ (2 * n)) by (rewrite <- LB; apply value_range; [done|lia]).
  assert (Ecr : c = r').
  { assert (Heq : (r' - c) * kBase ^ (2 * n) + value g3 R = V + k * b - q * value h B2) by lia.
    clear - Heq VR3 HbR Hpos Hrange. nia. }
  apply wp_bind, wp_DCHECK; [by apply Z.eqb_eq|]. subst r'.
  assert (ER3 : value g3 R = V + k * b - q * value h B2) by lia.
  assert (EB3 : value g3 B = b) by (rewrite <- EB2; by apply (wrote_other _ _ R)).
  apply wp_bind. eapply wp_mono; [apply Compare_spec; [done|lia|lia]|]. intros s g4 [-> Hs].
  apply wp_DCHECK; [apply Z.ltb_lt; rewrite EB3, ER3 in Hs; lia|].
  assert (EQ3 : value g3 Q = q - k).
  { rewrite <- EQ2. apply (wrote_other _ _ R); [done|by apply disjoint_sym]. }
  destruct (exact_division N b (q - k) (value g3 R)) as [Hdiv Hmod]; [rewrite ER3; lia|rewrite ER3; lia|].
  constructor; [|intros _; by rewrite EQ3].
  apply (changed_trans _ g1); [done|]. apply (changed_trans _ g2).
  - apply (changed_mono g1 g2 [Q; R]); [done|]. each_apart; [apply exists_self|apply exists_next, exists_self].
  - by apply changed_second.
Qed.

Lemma finish_D3n2n_spec :
  wp (finish_D3n2n S Q R A3 B B2 n r) (fun _ => divided h Q R [Q; R; S] N b) h.
Proof.
  destruct product_apart as (DQ & DR & D3 & DB & BD & DS).
  pose proof Hr as [Hok Hgo Hn (LQ & LR & L12 & L3 & LB) _ (_ & BQ & _ & _ & _ & BB') _ _ _ _ _].
  assert (HB2 : inside B2 B) by (unfold inside; cbn; lia). assert (Hself : forall X, inside X X) by (unfold inside; lia).
  assert (DB2 : disjoint D B2) by (by apply (disjoint_inside D B)).
  unfold finish_D3n2n. apply wp_bind. eapply wp_mono; [apply (Multiply_spec h D Q B2)|].
  - constructor; [done|done| | |cbn; lia].
    + destruct BQ. constructor; [lia|done|done|done].
    + destruct BB'. constructor; cbn; [lia|lia|done|done].
  - done.
  - intros [] g [Ht Hv]. apply wp_unless_terminated; intros Hst.
    + apply subtract_product; [|by rewrite Hv, EQ|done].
      apply (touched_changed h g D D); [done|apply exists_self|apply exists_self].
    + constructor; [|done]. apply (touched_changed h g D D); [done|..]; by apply exists_next, exists_next, Exists_cons_hd.
Qed.

End Finish.

(** ** [D3n2n] *)

Lemma divided_trans h g Q R Ds a b h' : changed h g Ds -> divided g Q R Ds a b h' -> divided h Q R Ds a b h'.
Proof. intros Hc [Hc' Hv]. constructor; [by apply (changed_trans _ g)|done]. Qed.

(** A digit of ones. *)
Lemma ones_digit : 0xFF * ((kBase - 1) / 0xFF) = kBase - 1.
Proof. unfold kBase, kDigitBits. by destruct TOK as [-> | ->]. Qed.

Lemma SetOnes_spec h D :
  heap_ok h -> 0 <= len_ D ->
  wp (SetOnes D) (fun _ h' => (wrote h h' D (len_ D) /\ value h' D = kBase ^ len_ D - 1) /\ polled h h') h.
Proof.
  intros Hok Hl. apply wp_polls; [polls_tac|]. unfold SetOnes, memset. rewrite ones_digit.
  apply (wp_for_up (fun i _ h' => wrote h h' D i /\ sum (cell h') (digits_ D) i = kBase ^ i - 1)); [done| | |].
  - split; [by apply wrote_refl|]. by rewrite sum_0, Z.pow_0_r.
  - intros i u h' Hi [Hw Hv]. apply wp_set; [done|].
    assert (Hd : is_digit (kBase - 1)) by (unfold is_digit; pose proof kBase_pos; lia). split.
    + by apply wrote_store; [|lia|].
    + rewrite sum_succ, kBase_pow_succ by lia. cbn. rewrite sum_store_high, Hv, Z.eqb_refl by lia. lia.
  - intros u h' [Hw Hv]. done.
Qed.

Section Three.
Context (D2 : Digits -> Digits -> Digits -> Digits -> HM unit).
Context (h : Heap) (S Q R A12 A3 B : Digits) (n : Z).
Hypothesis Hr : three_ready h S Q R A12 A3 B n.
Hypothesis HD2 : forall g Q R A B,
  going g -> block_ready g S Q R A B n -> wp (D2 Q R A B) (fun _ => divided g Q R [Q; R; S] (value g A) (value g B)) g.
Local Abbreviation B1 := (mkDigits (digits_ B + n) n).
Local Abbreviation B2 := (mkDigits (digits_ B) n).
Local Abbreviation R1 := (mkDigits (digits_ R + n) n).
Local Abbreviation A1 := (mkDigits (digits_ A12 + n) n).
Local Abbreviation A2 := (mkDigits (digits_ A12) n).
Local Abbreviation N := (value h A12 * kBase ^ n + value h A3).
Local Abbreviation b := (value h B).

(** The parts of the operands and of the result. *)
Lemma three_parts : inside B1 B /\ inside B2 B /\ inside R1 R /\ inside A1 A12 /\ inside A2 A12 /\ forall X, inside X X.
Proof. destruct Hr as [_ _ Hn (LQ & LR & L12 & L3 & LB) _ _ _ _ _ _ _]. unfold inside. cbn. repeat split; lia. Qed.

(** The operands after a call that writes the results. *)
Lemma three_kept g :
  changed h g [Q; R; S] ->
  three_ready g S Q R A12 A3 B n /\ value g A12 = value h A12 /\ value g A3 = value h A3 /\ value g B = b /\
  value g B1 = value h B1 /\ value g A2 = value h A2.
Proof.
  intros Hc. destruct three_parts as (I1 & I2 & _ & _ & I5 & Hself). pose proof Hc as [Hokg Hf Hp _].
  destruct Hr as [Hok Hgo Hn (LQ & LR & L12 & L3 & LB) LS (BS & BQ & BR & B12 & B3 & BB') (QR & Q12 & Q3 & QB) (R12 & R3 & RB)
    (SQ & SR & S12 & S3 & SB) Ht Hs].
  assert (Hv : forall X Y, inside Y X -> disjoint Q X -> disjoint R X -> disjoint S X -> below X (free h) -> 0 <= len_ Y ->
    value g Y = value h Y).
  { intros X Y HY HQ HR HS HX LY. apply (changed_value h g [Q; R; S]); [done| |].
    - each_apart; [by apply (disjoint_inside Q X)|by apply (disjoint_inside R X)|by apply (disjoint_inside S X)].
    - destruct HX. unfold below, inside in *. lia. }
  assert (V12 : value g A12 = value h A12) by (by apply (Hv A12); [..|lia]).
  assert (V3 : value g A3 = value h A3) by (by apply (Hv A3); [..|lia]).
  assert (VB : value g B = b) by (by apply (Hv B); [..|lia]).
  split; [|split; [done|split; [done|split; [done|split; [by apply (Hv B); [..|cbn; lia]|by apply (Hv A12); [..|cbn; lia]]]]]].
  constructor; try done.
  - by apply (going_polled h).
  - by rewrite Hf.
  - rewrite (ch_frame _ _ _ Hc); [done|destruct BB'; lia|].
    assert (Ho : forall X, disjoint X B -> outside X (digits_ B + (2 * n - 1))) by (unfold disjoint, outside; lia).
    each_apart; by apply Ho.
  - by rewrite V12, VB.
Qed.

(** Case 3a: the estimate comes from the recursive call. *)
Lemma recursive_estimate :
  value h A1 < value h B1 ->
  wp (D2 Q R1 A12 B1 ;;; unless_terminated (finish_D3n2n S Q R A3 B B2 n 0))
    (fun _ => divided h Q R [Q; R; S] N b) h.
Proof.
  intros Hlt. destruct three_parts as (I1 & I2 & IR & I4 & I5 & Hself).
  pose proof Hr as [Hok Hgo Hn (LQ & LR & L12 & L3 & LB) LS (BS & BQ & BR & B12 & B3 & BB') (QR & Q12 & Q3 & QB) (R12 & R3 & RB)
    (SQ & SR & S12 & S3 & SB) Ht Hs].
  assert (Hblock : block_ready h S Q R1 A12 B1 n).
  { constructor; try done.
    - lia.
    - lia.
    - unfold below in *. cbn. lia.
    - by apply (disjoint_inside Q R).
    - by apply (disjoint_inside Q B).
    - by apply (disjoint_inside R A12).
    - by apply (disjoint_inside R B).
    - repeat split; [done|by apply (disjoint_inside S R)|done|by apply (disjoint_inside S B)].
    - cbn. by replace (digits_ B + n + (n - 1)) with (digits_ B + (2 * n - 1)) by lia. }
  apply wp_bind. eapply wp_mono; [by apply HD2|]. intros [] g [Hc Hv].
  assert (Hc' : changed h g [Q; R; S]).
  { apply (changed_mono h g [Q; R1; S]); [done|]. each_apart; [apply exists_self| |apply exists_next, exists_next, exists_self].
    by apply exists_next, Exists_cons_hd. }
  apply wp_unless_terminated; intros Hst; [|by constructor].
  destruct (Hv Hst) as [EQ ER]. destruct (three_kept g Hc') as (Hrg & E12 & E3 & EB & E1 & _).
  pose proof (divisor_top_half h B n Hok ltac:(lia) Ht) as Hhalf. pose proof (kBase_pow_pos n ltac:(lia)) as Hp.
  pose proof (Z.div_mod (value h A12) (value h B1)) as Hdm. pose proof (Z.mod_pos_bound (value h A12) (value h B1)) as Hmod.
  pose proof (value_range g Q (tr_ok _ _ _ _ _ _ _ _ Hrg) ltac:(lia)) as [VQ _].
  pose proof (value_range h B2 Hok ltac:(cbn; lia)) as [VB2 _].
  pose proof (value_range h A3 Hok ltac:(lia)) as VA3. rewrite L3 in VA3.
  set (q := value g Q) in *.
  eapply wp_mono; [apply (finish_D3n2n_spec g S Q R A12 A3 B n q 0 Hrg)|].
  - done.
  - lia.
  - rewrite E12, E1, ER, EQ. lia.
  - rewrite E12, E3, EB. rewrite (split_value h B n LB) by lia. rewrite <- EQ in Hdm.
    apply (low_remainder _ _ _ _ _ _ (value h A12 mod value h B1)); lia.
  - intros [] h' H. rewrite E12, E3, EB in H. by apply (divided_trans h g).
Qed.

(** Case 3b: the estimate is the largest number of [n] digits. *)
Lemma largest_estimate :
  value h B1 <= value h A1 ->
  wp (SetOnes Q ;;;
      Subtract R1 A1 B1 ;;;
      let* temp := Normalize R1 in
      DCHECK (len_ temp <=? 1) ;;;
      let* r1_high := (if 0 <? len_ temp then get temp 0 else ret 0) in
      let* low12 := slice A12 0 n in
      let* carry := AddAndReturnCarry R1 low12 B1 in
      finish_D3n2n S Q R A3 B B2 n (digit_t (r1_high + carry)))
    (fun _ => divided h Q R [Q; R; S] N b) h.
Proof.
  intros Hge. destruct three_parts as (I1 & I2 & IR & I4 & I5 & Hself).
  pose proof Hr as [Hok Hgo Hn (LQ & LR & L12 & L3 & LB) LS (BS & BQ & BR & B12 & B3 & BB') (QR & Q12 & Q3 & QB) (R12 & R3 & RB)
    (SQ & SR & S12 & S3 & SB) Ht Hs].
  pose proof (kBase_pow_pos n ltac:(lia)) as Hp.
  pose proof (value_range h A2 Hok ltac:(cbn; lia)) as VA2. pose proof (value_range h B2 Hok ltac:(cbn; lia)) as VB2.
  pose proof (value_range h B1 Hok ltac:(cbn; lia)) as VB1. pose proof (value_range h A3 Hok ltac:(lia)) as VA3.
  cbn [len_] in VA2, VB2, VB1. rewrite L3 in VA3.
  pose proof (split_value h A12 n L12 ltac:(lia)) as S12'. pose proof (split_value h B n LB ltac:(lia)) as SB'.
  assert (EA1 : value h A1 = value h B1) by (clear - Hge Hs S12' SB' VA2 VB2 Hp; nia).
  assert (Hw : forall g1 g2 D, wrote g1 g2 D (len_ D) -> polled g1 g2 -> inside D Q \/ inside D R -> changed g1 g2 [Q; R; S]).
  { intros g1 g2 D HwD HpD HD. apply (wrote_changed g1 g2 D (len_ D)); [done|done|]. rewrite view_eta.
    destruct HD; [by apply Exists_cons_hd|by apply exists_next, Exists_cons_hd]. }
  apply wp_bind. eapply wp_mono; [apply SetOnes_spec; [done|lia]|]. intros [] g1 [[Hw1 Hv1] Hp1]. rewrite LQ in Hv1.
  pose proof (Hw h g1 Q Hw1 Hp1 (or_introl (Hself Q))) as Hc1.
  assert (Hval : forall X Y, inside X Y -> disjoint Q Y -> value g1 X = value h X).
  { intros X Y HX HY. apply (wrote_other h g1 Q X Hw1). by apply (disjoint_inside Q Y). }
  apply wp_bind. eapply wp_mono; [apply wp_polls; [polls_tac|apply (Subtract_spec g1 R1 A1 B1)]|].
  { apply Hc1. }
  { apply disjoint_in_order; [by apply (disjoint_inside R A12)|cbn; lia]. }
  { apply disjoint_in_order; [by apply (disjoint_inside R B)|cbn; lia]. }
  1-3: cbn; lia.
  { cbn [len_]. rewrite (Hval A1 A12), EA1 by done. lia. }
  { rewrite (Hval A1 A12), (Hval B1 B), EA1 by done. lia. }
  rewrite (Hval A1 A12), (Hval B1 B), EA1 by done. intros [] g2 [[Hw2 Hv2] Hp2].
  pose proof (Hw g1 g2 R1 Hw2 Hp2 (or_intror IR)) as Hc2. pose proof (ch_ok _ _ _ Hc2) as Hok2.
  apply wp_bind. eapply wp_mono; [apply Normalize_spec; [done|cbn; lia]|]. intros temp g' [-> NT].
  assert (ET : len_ temp = 0).
  { destruct (Z.eq_dec (len_ temp) 0) as [|Hne]; [done|]. pose proof (norm_len _ _ _ NT).
    pose proof (normalized_lower _ _ _ Hok2 NT ltac:(lia)) as Hl. pose proof (kBase_pow_pos (len_ temp - 1) ltac:(lia)). lia. }
  rewrite ET. cbn [Z.leb Z.ltb Z.compare]. apply wp_bind, wp_DCHECK; [done|]. apply wp_bind, wp_ret, wp_bind.
  apply wp_slice_inside; [lia|lia|lia|]. rewrite Z.add_0_r. pose proof (changed_trans _ _ _ _ Hc1 Hc2) as Hc12.
  destruct (three_kept g2 Hc12) as (_ & _ & _ & _ & E1 & E2).
  apply wp_bind. eapply wp_mono; [apply wp_polls; [polls_tac|apply (AddAndReturnCarry_spec g2 R1 A2 B1)]|].
  { done. }
  { apply disjoint_in_order; [by apply (disjoint_inside R A12)|cbn; lia]. }
  { apply disjoint_in_order; [by apply (disjoint_inside R B)|cbn; lia]. }
  1-3: cbn; lia.
  intros c g3 [(Hc3 & [Hw3 Hv3]) Hp3]. cbn [len_ digits_] in Hw3, Hv3. rewrite Z.add_0_l.
  rewrite digit_t_small by (unfold is_digit; pose proof kBase_pos; lia).
  pose proof (Hw g2 g3 R1 Hw3 Hp3 (or_intror IR)) as Hc3'. pose proof (changed_trans _ _ _ _ Hc12 Hc3') as Hc.
  destruct (three_kept g3 Hc) as (Hrg & G12 & G3 & GB & G1 & _).
  assert (ER : value g3 R1 + c * kBase ^ n = value h A2 + value h B1).
  { rewrite <- E1, <- E2. exact Hv3. }
  assert (GQ : value g3 Q = kBase ^ n - 1).
  { rewrite <- Hv1. transitivity (value g2 Q); [apply (wrote_other g2 g3 R1 Q Hw3)|apply (wrote_other g1 g2 R1 Q Hw2)];
      apply (disjoint_inside R Q); try done; by apply disjoint_sym. }
  eapply wp_mono; [apply (finish_D3n2n_spec g3 S Q R A12 A3 B n (kBase ^ n - 1) c Hrg)|].
  - done.
  - done.
  - rewrite G12, G1, S12', EA1. lia.
  - rewrite G12, G3, GB. apply full_quotient; lia.
  - intros [] h' H. rewrite G12, G3, GB in H. by apply (divided_trans h g3).
Qed.

Lemma D3n2n_spec :
  wp (D3n2n D2 S Q R A12 A3 B) (fun _ => divided h Q R [Q; R; S] N b) h.
Proof.
  pose proof Hr as [Hok Hgo Hn (LQ & LR & L12 & L3 & LB) LS _ _ _ _ _ Hs]. unfold D3n2n.
  assert (E2 : len_ B / 2 = n) by (rewrite LB, Z.mul_comm; apply Z.div_mul; lia). rewrite E2.
  apply wp_bind, wp_DCHECK.
  { apply Z.eqb_eq. change 1 with (Z.ones 1). rewrite Z.land_ones, LB, Z.mul_comm by lia. by apply Z.mod_mul. }
  apply wp_bind, wp_DCHECK; [apply Z.eqb_eq; lia|].
  apply wp_bind. eapply wp_mono; [apply Compare_spec; [done|lia|lia]|]. intros c g [-> Hc].
  apply wp_bind, wp_DCHECK; [apply Z.ltb_lt; lia|].
  do 3 (apply wp_bind, wp_DCHECK; [apply Z.eqb_eq; lia|]).
  do 4 (apply wp_bind, wp_slice_inside; [lia|lia|lia|]). rewrite Z.add_0_r. cbv zeta.
  apply wp_bind. eapply wp_mono; [apply Compare_spec; [done|cbn; lia|cbn; lia]|]. intros c' g [-> Hc'].
  destruct (Z.ltb_spec c' 0) as [Hlt|Hge].
  - apply recursive_estimate. lia.
  - apply largest_estimate. lia.
Qed.

End Three.

(** ** [D2n1n] *)

(** Division block by block. *)
Lemma long_division b p n1 a4 :
  0 < b -> let n2 := n1 mod b * p + a4 in
  (n1 * p + a4) / b = n1 / b * p + n2 / b /\ (n1 * p + a4) mod b = n2 mod b.
Proof.
  intros Hb n2. assert (E : n1 * p + a4 = n1 / b * p * b + n2).
  { subst n2. pose proof (Z.div_mod n1 b ltac:(lia)). nia. }
  rewrite E. split; [apply Z.div_add_l; lia|]. rewrite Z.add_comm. apply Z.mod_add. lia.
Qed.

Lemma odd_or_double n : (Z.land n 1 =? 1) = false -> exists k, n = 2 * k.
Proof.
  intros H. apply Z.eqb_neq in H. change (Z.land n 1) with (Z.land n (Z.ones 1)) in H. rewrite Z.land_ones in H by lia.
  change (2 ^ 1) with 2 in H. exists (n / 2). pose proof (Z.div_mod n 2 ltac:(lia)). pose proof (Z.mod_pos_bound n 2 ltac:(lia)). lia.
Qed.

Lemma value_quarters h A k : len_ A = 4 * k -> 0 <= k ->
  value h A = (value h (mkDigits (digits_ A + 2 * k) (2 * k)) * kBase ^ k + value h (mkDigits (digits_ A + k) k)) * kBase ^ k +
    value h (mkDigits (digits_ A) k).
Proof.
  intros LA Hk. unfold value. cbn. rewrite LA. replace (4 * k) with (k + (k + 2 * k)) by lia.
  rewrite !sum_split by lia. replace (digits_ A + k + k) with (digits_ A + 2 * k) by lia. ring.
Qed.

Section Two.
Context (fuel : nat) (h : Heap) (S Q R A B : Digits) (k : Z).
Hypotheses (Hr : block_ready h S Q R A B (2 * k)) (Hgo : going h) (Hk : 28 <= k) (HI : 2 * k <= kMaxInt).
Hypothesis (HS : 2 * k <= len_ S).
Hypothesis HD2 : forall g Q R A B,
  going g -> block_ready g S Q R A B k ->
  wp (D2n1n fuel S Q R A B) (fun _ => divided g Q R [Q; R; S] (value g A) (value g B)) g.
Local Abbreviation A12 := (mkDigits (digits_ A + 2 * k) (2 * k)).
Local Abbreviation A3 := (mkDigits (digits_ A + k) k).
Local Abbreviation A4 := (mkDigits (digits_ A) k).
Local Abbreviation Q1 := (mkDigits (digits_ Q + k) k).
Local Abbreviation Q2 := (mkDigits (digits_ Q) k).
Local Abbreviation R1 := (mkDigits (free h) (2 * k)).
Local Abbreviation h0 := (mkHeap (cell h) (free h + 2 * k) (proc h)).
Local Abbreviation N1 := (value h A12 * kBase ^ k + value h A3).

Lemma two_parts_inside :
  inside A12 A /\ inside A3 A /\ inside A4 A /\ inside Q1 Q /\ inside Q2 Q /\ (forall X, inside X X) /\
  forall X, below X (free h) -> disjoint R1 X /\ below X (free h0).
Proof.
  destruct Hr as [_ Hn (LQ & LR & LA & LB) _ _ _ _ _ _ _ _ _ _]. unfold inside, below, disjoint. cbn.
  repeat split; lia.
Qed.

Lemma first_ready : three_ready h0 S Q1 R1 A12 A3 B k.
Proof.
  destruct two_parts_inside as (I12 & I3 & I4 & J1 & J2 & Hself & Hfresh).
  destruct Hr as [Hok Hn (LQ & LR & LA & LB) _ (BS & BQ & BR & BA & BB') QR QA QB RA RB (SQ & SR & SA & SB) Ht Hs].
  destruct (Hfresh S BS) as [FS GS]. destruct (Hfresh Q BQ) as [FQ GQ]. destruct (Hfresh A BA) as [FA GA].
  destruct (Hfresh B BB') as [FB GB].
  constructor; try done.
  - lia.
  - unfold below in *. cbn in *. lia.
  - split; [apply disjoint_sym, (disjoint_inside R1 Q); done|]. split; [by apply (disjoint_inside Q A)|].
    split; [by apply (disjoint_inside Q A)|by apply (disjoint_inside Q B)].
  - split; [by apply (disjoint_inside R1 A)|]. split; [by apply (disjoint_inside R1 A)|done].
  - split; [by apply (disjoint_inside S Q)|]. split; [by apply disjoint_sym|]. split; [by apply (disjoint_inside S A)|].
    split; [by apply (disjoint_inside S A)|done].
Qed.

Lemma second_ready g :
  divided h0 Q1 R1 [Q1; R1; S] N1 (value h B) g -> status_ (proc g) = kOk ->
  three_ready g S Q2 R R1 A4 B k /\ value g B = value h B /\ value g A4 = value h A4.
Proof.
  intros [Hc Hv] Hst. destruct (Hv Hst) as [EQ ER]. pose proof Hc as [Hokg Hf Hp Hfr]. cbn [free] in Hf.
  destruct two_parts_inside as (I12 & I3 & I4 & J1 & J2 & Hself & Hfresh).
  pose proof first_ready as [_ Hgo0 _ _ _ _ _ _ _ _ _].
  destruct Hr as [Hok Hn (LQ & LR & LA & LB) _ (BS & BQ & BR & BA & BB') QR QA QB RA RB (SQ & SR & SA & SB) Ht Hs].
  destruct (Hfresh S BS) as [FS GS]. destruct (Hfresh R BR) as [FR GR]. destruct (Hfresh A BA) as [FA GA].
  destruct (Hfresh B BB') as [FB GB]. destruct (Hfresh Q BQ) as [FQ GQ].
  assert (Hkeep : forall X Y, inside X Y -> disjoint Q Y -> disjoint R1 Y -> disjoint S Y -> below Y (free h0) -> 0 <= len_ X ->
    value g X = value h X).
  { intros X Y HX H1 H2 H3 H4 H5. apply (changed_value h0 g [Q1; R1; S]); [done| |].
    - each_apart; [by apply (disjoint_inside Q Y)|by apply (disjoint_inside R1 Y)|by apply (disjoint_inside S Y)].
    - destruct H4. unfold below, inside in *. lia. }
  assert (VB : value g B = value h B) by (apply (Hkeep B B); (done || lia)).
  split; [|split; [done|apply (Hkeep A4 A); (done || (cbn; lia))]].
  constructor; try done.
  - by apply (going_polled h0).
  - lia.
  - rewrite Hf. unfold below in *. cbn in *. lia.
  - split; [by apply (disjoint_inside Q R)|]. split; [apply disjoint_sym, (disjoint_inside R1 Q); done|].
    split; [by apply (disjoint_inside Q A)|by apply (disjoint_inside Q B)].
  - split; [by apply disjoint_sym|]. split; [by apply (disjoint_inside R A)|done].
  - split; [by apply (disjoint_inside S Q)|]. split; [done|]. split; [by apply disjoint_sym|].
    split; [by apply (disjoint_inside S A)|done].
  - rewrite Hfr; [done|destruct BB'; cbn; lia|].
    assert (Ho : forall X, disjoint X B -> outside X (digits_ B + (2 * k - 1))) by (unfold disjoint, outside; lia).
    each_apart; apply Ho; [by apply (disjoint_inside Q B)|done|done].
  - rewrite VB, ER. apply Z.mod_pos_bound. eapply Z.le_lt_trans; [|exact Hs].
    apply sum_range; [done|lia].
Qed.

Lemma two_halves_spec :
  wp (with_scratch (2 * k) (fun R1_ =>
        D3n2n (D2n1n fuel S) S Q1 R1_ A12 A3 B ;;;
        unless_terminated (
          let* Q2_ := slice Q 0 k in
          D3n2n (D2n1n fuel S) S Q2_ R R1_ A4 B)))
    (fun _ => divided h Q R [Q; R; S] (value h A) (value h B)) h.
Proof.
  destruct two_parts_inside as (I12 & I3 & I4 & J1 & J2 & Hself & Hfresh).
  pose proof Hr as [Hok Hn (LQ & LR & LA & LB) _ (BS & BQ & BR & BA & BB') QR _ _ _ _ (SQ & SR & _) _ Hs].
  assert (Hin : forall X Y E, inside X Y -> Exists (inside X) [E; Y]) by (intros; by apply exists_next, Exists_cons_hd).
  apply wp_with_scratch, wp_bind.
  eapply wp_mono; [apply (D3n2n_spec _ h0 S Q1 R1 A12 A3 B k first_ready); exact HD2|].
  change (value h0) with (value h). intros [] g Hd. pose proof Hd as [Hc Hv].
  assert (Hback : forall g', changed h0 g' [R1; Q; R; S] -> changed h (mkHeap (cell g') (free h) (proc g')) [Q; R; S]).
  { intros g' Hg'. by apply (changed_with_scratch h g' [Q; R; S] R1 (2 * k)); [|lia|]. }
  assert (Hc' : changed h0 g [R1; Q; R; S]).
  { apply (changed_mono h0 g [Q1; R1; S]); [done|]. each_apart.
    - by apply exists_next, Exists_cons_hd.
    - apply exists_self.
    - apply exists_next, exists_next, exists_next, exists_self. }
  apply wp_unless_terminated; intros Hst; [|by constructor; [apply Hback|]].
  destruct (second_ready g Hd Hst) as (Hr2 & EB & E4). destruct (Hv Hst) as [EQ1 ER1]. pose proof Hc as [Hokg Hf _ _].
  apply wp_bind, wp_slice_inside; [lia|lia|lia|]. rewrite Z.add_0_r.
  eapply wp_mono; [apply (D3n2n_spec _ g S Q2 R R1 A4 B k Hr2); exact HD2|].
  rewrite EB, E4, ER1. intros [] g2 [Hc2 Hv2].
  constructor.
  - apply Hback, (changed_trans _ g); [done|]. apply (changed_mono g g2 [Q2; R; S]); [done|]. each_apart.
    + by apply exists_next, Exists_cons_hd.
    + apply exists_next, exists_next, exists_self.
    + apply exists_next, exists_next, exists_next, exists_self.
  - cbn [proc]. intros Hst2. destruct (Hv2 Hst2) as [EQ2 ER2].
    change (value (mkHeap (cell g2) (free h) (proc g2))) with (value g2).
    assert (EQ1' : value g2 Q1 = value g Q1).
    { apply (changed_value g g2 [Q2; R; S]); [done| |rewrite Hf; destruct BQ; unfold below; cbn; lia]. each_apart.
      - left. cbn. lia.
      - apply (disjoint_inside R Q); [by apply disjoint_sym|done|done].
      - by apply (disjoint_inside S Q). }
    assert (Hb : 0 < value h B) by (eapply Z.le_lt_trans; [|exact Hs]; apply sum_range; [done|lia]).
    rewrite (value_quarters h A k) by lia.
    destruct (long_division (value h B) (kBase ^ k) N1 (value h A4) Hb) as [-> ->].
    rewrite (split_value g2 Q k) by lia. rewrite EQ2, EQ1', EQ1, ER2. split; [ring|done].
Qed.

End Two.

Lemma D2n1n_spec fuel : forall h S Q R A B n,
  going h -> block_ready h S Q R A B n -> n <= kMaxInt -> (Z.to_nat n < fuel)%nat ->
  wp (D2n1n fuel S Q R A B) (fun _ => divided h Q R [Q; R; S] (value h A) (value h B)) h.
Proof.
  induction fuel as [|fuel IH]; intros h S Q R A B n Hgo Hr HI Hf; [lia|].
  pose proof Hr as [Hok Hn (LQ & LR & LA & LB) HS _ _ _ _ _ _ _ _ Hs]. cbn [D2n1n]. rewrite LB.
  apply wp_bind, wp_DCHECK; [apply Z.leb_le; lia|]. apply wp_bind, wp_slice_inside; [lia|lia|lia|].
  apply wp_bind. eapply wp_mono; [apply Compare_spec; [done|cbn; lia|lia]|]. intros c g [-> Hc].
  change (value h (mkDigits (digits_ A + n) n)) with (sum (cell h) (digits_ A + n) n) in Hc.
  apply wp_bind, wp_DCHECK; [apply Z.ltb_lt; lia|].
  apply wp_bind, wp_DCHECK; [by apply Z.eqb_eq|]. apply wp_bind, wp_DCHECK; [by apply Z.eqb_eq|].
  destruct ((Z.land n 1 =? 1) || (n <? kBurnikelThreshold)) eqn:E.
  - eapply wp_mono; [by apply (DivideBasecase_spec h S Q R A B n)|]. intros [] g [Hcg Hv]. constructor; [|done].
    apply (changed_mono h g [Q; R]); [done|]. each_apart; [apply exists_self|apply exists_next, exists_self].
  - apply orb_false_iff in E as [E1 E2]. apply Z.ltb_ge in E2. unfold kBurnikelThreshold in *. specialize (HS E2).
    destruct (odd_or_double n E1) as [k ->]. rewrite (Z.mul_comm 2 k), Z.div_mul, (Z.mul_comm k 2) by lia.
    do 4 (apply wp_bind, wp_slice_inside; [lia|lia|lia|]). rewrite Z.add_0_r.
    apply two_halves_spec; try done; [lia|].
    intros g Q' R' A' B' Hg Hb. apply (IH g S Q' R' A' B' k); [done|done|lia|lia].
Qed.

End BurnikelSpec.
