(* ===== verification/BigIntBurnikelBlocks.v ===== *)
(** * Burnikel-Ziegler division of operands of any lengths

    The operands are shifted so that the divisor fills [n] digits up to the top
    bit; then the dividend is divided block by block. *)

From stdpp Require Import base list numbers.
From Stdlib Require Import ZArith Lia Bool.
From S2P Require Import Prelude.
From S2P Require Import BigIntDigits.
From S2P Require Import BigIntVectors.
From S2P Require Import BigIntMemory.
From S2P Require Import BigIntArithmetic.
From S2P Require Import BigIntMul.
From S2P Require Import BigIntShift.
From S2P Require Import BigIntDiv.
From S2P Require Import BigIntDivSpec.
From S2P Require Import BigIntBitwise.
From S2P Require Import BigIntTruncateSpec.
From S2P Require Import BigIntInterrupts.
From S2P Require Import BigIntKaratsuba.
From S2P Require Import BigIntKaratsubaSpec.
From S2P Require Import BigIntKaratsubaChunks.
From S2P Require Import BigIntProcessor.
From S2P Require Import BigIntBurnikel.
From S2P Require Import BigIntBurnikelSpec.

Local Open Scope Z_scope.
Local Open Scope prog_scope.

(** ** Lengths *)

Lemma div_ceil_bounds x y : 0 < x -> 0 < y -> x <= DIV_CEIL x y * y < x + y.
Proof.
  intros Hx Hy. unfold DIV_CEIL. rewrite Z.quot_div_nonneg by lia.
  pose proof (Z.div_mod (x - 1) y ltac:(lia)). pose proof (Z.mod_pos_bound (x - 1) y Hy). nia.
Qed.

(** The rounded length is hardly longer than the divisor. *)
Lemma burnikel_length_bounds s : kBurnikelThreshold <= s <= kMaxInt -> s <= burnikel_length s <= 2 * s.
Proof.
  unfold kBurnikelThreshold, kMaxInt. intros Hs. unfold burnikel_length, int_BitLength, CountLeadingZeros32, kBurnikelThreshold.
  assert (Hq : 0 < s / 57 <= s) by (split; [apply Z.div_str_pos; lia|apply Z.div_le_upper_bound; lia]).
  rewrite uint32_small by lia. destruct (Z.eqb_spec (s / 57) 0) as [E|E]; [lia|].
  replace (32 - (31 - Z.log2 (s / 57))) with (Z.succ (Z.log2 (s / 57))) by lia. rewrite Z.shiftl_1_l.
  pose proof (Z.log2_spec (s / 57) ltac:(lia)) as [H1 _]. pose proof (Z.log2_nonneg (s / 57)).
  assert (H2 : 2 ^ Z.succ (Z.log2 (s / 57)) <= s).
  { rewrite Z.pow_succ_r by done. pose proof (Z.mul_div_le s 57). lia. }
  pose proof (div_ceil_bounds s (2 ^ Z.succ (Z.log2 (s / 57))) ltac:(lia) ltac:(apply Z.pow_pos_nonneg; lia)). lia.
Qed.

Section Blocks.
Context {T : DigitTarget} {P : Platform} {BB : BigIntBuild} {TOK : DigitTargetOK T}.
Context {AM : AdvancedMultiplication} {AMOK : AdvancedMultiplicationOK AM}.
Local Abbreviation HM := (M Heap).

(** ** Shifted operands *)

Lemma shift_into_spec h D X ds s :
  heap_ok h -> 0 <= ds -> 0 <= len_ X -> ds + len_ X <= len_ D -> disjoint D X -> 0 <= s < kDigitBits ->
  value h X * 2 ^ s < kBase ^ (len_ D - ds) ->
  wp (shift_into D X ds s)
    (fun _ h' => (wrote h h' D (len_ D) /\ value h' D = value h X * 2 ^ s * kBase ^ ds) /\ polled h h') h.
Proof.
  intros Hok Hds HX Hl HD Hs Hfit. apply wp_polls; [polls_tac|]. unfold shift_into.
  apply wp_bind, wp_plus; [lia|]. set (U := mkDigits (digits_ D + ds) (len_ D - ds)).
  apply wp_bind. eapply wp_mono; [apply (LeftShiftBits_spec h U X s)|].
  - done.
  - apply disjoint_in_order; [|cbn; lia]. apply (disjoint_inside D X); [done|unfold inside; cbn; lia|unfold inside; lia].
  - cbn. lia.
  - done.
  - done.
  - intros [] h1 [Hw1 Hv1]. pose proof (wrote_ok _ _ _ _ Hw1) as Hok1.
    eapply wp_mono; [apply (zero_range_spec h1 h1 D 0 ds 0); [lia|lia|]|].
    + split; [by apply wrote_refl|]. by rewrite sum_0.
    + intros [] h2 [Hw2 Hv2]. cbn in Hw1. split.
      * constructor; [apply Hw2|rewrite (wrote_free _ _ _ _ Hw2); apply Hw1|].
        intros a Ha. rewrite (wrote_frame _ _ _ _ Hw2) by lia. apply (wrote_frame _ _ _ _ Hw1). cbn. lia.
      * unfold value at 1. replace (len_ D) with (ds + (len_ D - ds)) by lia. rewrite sum_split by lia.
        assert (EU : sum (cell h2) (digits_ D + ds) (len_ D - ds) = value h1 U).
        { apply sum_ext. intros i Hi. apply (wrote_frame _ _ _ _ Hw2). cbn. lia. }
        rewrite EU, Hv1. lia.
Qed.

(** A number with its top bit set has a top digit with its top bit set. *)
Lemma top_digit h D : heap_ok h -> 0 < len_ D -> kBase ^ len_ D <= 2 * value h D ->
  kBase <= 2 * cell h (digits_ D + (len_ D - 1)).
Proof.
  intros Hok Hl Hv. unfold value in Hv. rewrite sum_pred in Hv by done.
  pose proof (sum_range (cell h) (digits_ D) (len_ D - 1) Hok ltac:(lia)) as Hlow.
  pose proof (kBase_pow_pos (len_ D - 1) ltac:(lia)) as Hp. set (c := cell h _) in *. set (l := sum _ _ _) in *.
  replace (len_ D) with (len_ D - 1 + 1) in Hv at 1 by lia. rewrite kBase_pow_succ in Hv by lia.
  assert (Hlt : kBase < 2 * c + 2) by nia. pose proof kDigitBits_pos.
  assert (Heven : kBase = 2 * 2 ^ (kDigitBits - 1)) by (unfold kBase; rewrite <- Z.pow_succ_r by lia; f_equal; lia). lia.
Qed.

(** The divisor's shift, and what it does to the dividend. *)
Lemma divisor_shift h B :
  heap_ok h -> 0 < len_ B -> cell h (digits_ B + (len_ B - 1)) <> 0 ->
  let sigma := CountLeadingZeros (cell h (digits_ B + (len_ B - 1))) in
  0 <= sigma < kDigitBits /\ kBase ^ len_ B <= 2 * (value h B * 2 ^ sigma) /\ value h B * 2 ^ sigma < kBase ^ len_ B.
Proof.
  intros Hok Hl Hm sigma. pose proof (Hok (digits_ B + (len_ B - 1))) as Hd.
  destruct (CountLeadingZeros_spec (cell h (digits_ B + (len_ B - 1)))) as (Hs & Hlo & Hhi);
    [unfold is_digit in Hd; lia|done|]. fold sigma in Hs, Hlo, Hhi. split; [done|].
  pose proof (sum_range (cell h) (digits_ B) (len_ B - 1) Hok ltac:(lia)) as Hlow.
  unfold value. rewrite sum_pred by done. split.
  - replace (len_ B) with (len_ B - 1 + 1) at 1 by lia. rewrite kBase_pow_succ by lia.
    pose proof (kBase_pow_pos (len_ B - 1) ltac:(lia)). pose proof (pow2_pos sigma ltac:(lia)).
    set (c := cell h _) in *. set (l := sum _ _ _) in *. set (p := kBase ^ _) in *.
    assert (kBase * p <= 2 * (c * 2 ^ sigma) * p) by (apply Z.mul_le_mono_nonneg_r; lia). assert (0 <= l * 2 ^ sigma) by nia. lia.
  - apply shifted_top_range; [done|done|lia|done|done].
Qed.

Lemma dividend_shift h A sigma :
  heap_ok h -> 0 < len_ A -> cell h (digits_ A + (len_ A - 1)) <> 0 -> 0 <= sigma < kDigitBits ->
  let extra := if CountLeadingZeros (cell h (digits_ A + (len_ A - 1))) <? sigma + 1 then 1 else 0 in
  0 <= extra <= 1 /\ 2 * (value h A * 2 ^ sigma) < kBase ^ (len_ A + extra).
Proof.
  intros Hok Hl Hm Hs extra. destruct (divisor_shift h A Hok Hl Hm) as (Hc & _ & Hhi).
  set (c := CountLeadingZeros _) in *. pose proof (value_range h A Hok ltac:(lia)) as HvA. subst extra.
  destruct (Z.ltb_spec c (sigma + 1)) as [H|H]; (split; [lia|]).
  - rewrite kBase_pow_succ by lia. assert (H2 : 2 * 2 ^ sigma <= kBase).
    { rewrite <- Z.pow_succ_r by lia. apply Z.pow_le_mono_r; lia. }
    pose proof (pow2_pos sigma ltac:(lia)). nia.
  - rewrite Z.add_0_r. eapply Z.le_lt_trans; [|exact Hhi].
    replace (2 * (value h A * 2 ^ sigma)) with (value h A * 2 ^ (sigma + 1)) by (rewrite Z.pow_add_r by lia; lia).
    apply Z.mul_le_mono_nonneg_l; [lia|]. apply Z.pow_le_mono_r; lia.
Qed.

(** ** The blocks of the dividend *)

(** What the loop over the blocks needs: [S] is the scratch memory of the
    divisions, [Z_] holds a dividend of [2 * n] digits and [Ri] a remainder. *)
Record blocks_ready (h : Heap) (S Q A B Z_ Ri : Digits) (n : Z) : Prop := {
  bl_ok : heap_ok h;
  bl_going : going h;
  bl_n : 2 <= n <= kMaxInt;
  bl_lens : len_ Z_ = 2 * n /\ len_ Ri = n /\ len_ B = n;
  bl_scratch : kBurnikelThreshold <= n -> n <= len_ S;
  bl_below : below S (free h) /\ below Q (free h) /\ below A (free h) /\ below B (free h) /\
    below Z_ (free h) /\ below Ri (free h);
  bl_Q : disjoint Q A /\ disjoint Q B /\ disjoint Q Z_ /\ disjoint Q Ri;
  bl_Z : disjoint Z_ A /\ disjoint Z_ B;
  bl_R : disjoint Ri A /\ disjoint Ri B /\ disjoint Ri Z_;
  bl_S : disjoint S Q /\ disjoint S A /\ disjoint S B /\ disjoint S Z_ /\ disjoint S Ri;
  bl_top : kBase <= 2 * cell h (digits_ B + (n - 1))
}.

Section Loop.
Context (h : Heap) (S Q A B Z_ Ri : Digits) (n : Z).
Hypothesis Hr : blocks_ready h S Q A B Z_ Ri n.
Local Abbreviation a := (value h A).
Local Abbreviation b := (value h B).

(** The blocks from [p] on have been divided. *)
Record blocks_done (p : Z) (g : Heap) : Prop := {
  bd_changed : changed h g [Q; Z_; Ri; S];
  bd_status : status_ (proc g) = kOk;
  bd_quotient : sum (cell g) (digits_ Q + p) (len_ Q - p) = a / kBase ^ p / b;
  bd_remainder : value g Ri = (a / kBase ^ p) mod b
}.

Lemma blocks_divisor g Ds :
  changed h g Ds -> Forall (fun D => disjoint D B) Ds -> value g B = b /\ cell g (digits_ B + (n - 1)) = cell h (digits_ B + (n - 1)).
Proof.
  intros Hc Hd. destruct Hr as [_ _ Hn (_ & _ & LB) _ (_ & _ & _ & BB' & _) _ _ _ _ _].
  split; [by apply (changed_value h g Ds)|]. apply (ch_frame _ _ _ Hc); [destruct BB'; lia|].
  eapply Forall_impl; [|exact Hd]. cbn. intros D HD. apply disjoint_outside; [done|lia].
Qed.

Lemma blocks_apart X :
  disjoint Q X -> disjoint Z_ X -> disjoint Ri X -> disjoint S X -> Forall (fun D => disjoint D X) [Q; Z_; Ri; S].
Proof. intros. by each_apart. Qed.

Lemma blocks_dividend g : changed h g [Q; Z_; Ri; S] -> forall p m, digits_ A <= p -> p + m <= digits_ A + len_ A ->
  sum (cell g) p m = sum (cell h) p m.
Proof.
  destruct Hr as [_ _ _ _ _ (_ & _ & BA & _) (QA & _) (ZA & _) (RA & _) (_ & SA & _) _].
  intros Hc p m H1 H2. apply (changed_sum h g [Q; Z_; Ri; S]); [done| |destruct BA; lia].
  assert (Hin : inside (mkDigits p m) A) by (unfold inside; cbn; lia).
  assert (Hself : forall X, inside X X) by (unfold inside; lia).
  apply blocks_apart; [by apply (disjoint_inside Q A)|by apply (disjoint_inside Z_ A)|
    by apply (disjoint_inside Ri A)|by apply (disjoint_inside S A)].
Qed.

(** One more block of the dividend. *)
Lemma next_dividend i :
  0 <= i -> n * (i + 1) <= len_ A ->
  a / kBase ^ (n * i) = a / kBase ^ (n * (i + 1)) * kBase ^ n + sum (cell h) (digits_ A + n * i) n.
Proof.
  intros Hi Hl. destruct Hr as [Hok _ Hn _ _ _ _ _ _ _ _]. assert (0 <= n * i) by nia.
  unfold value. rewrite (proj1 (sum_split_div _ (digits_ A) (n * i) (len_ A) Hok ltac:(lia))).
  rewrite (proj1 (sum_split_div _ (digits_ A) (n * (i + 1)) (len_ A) Hok ltac:(lia))).
  replace (len_ A - n * i) with (n + (len_ A - n * (i + 1))) by lia. rewrite sum_split by lia.
  replace (digits_ A + n * (i + 1)) with (digits_ A + n * i + n) by lia. ring.
Qed.

(** The next dividend is put together. *)
Lemma load_block i g rest (Post : unit -> Heap -> Prop) :
  0 <= i -> n * (i + 1) <= len_ A -> blocks_done (n * (i + 1)) g ->
  (forall g', changed h g' [Q; Z_; Ri; S] -> changed g g' [Z_] ->
    value g' Z_ = (a / kBase ^ (n * (i + 1))) mod b * kBase ^ n + sum (cell h) (digits_ A + n * i) n ->
    wp rest Post g') ->
  wp (let* Z_high := plus Z_ n in
      PutAt Z_high Ri n ;;;
      let* Ai := plus A (n * i) in
      PutAt Z_ Ai n ;;; rest) Post g.
Proof.
  intros Hi HlA [Hc Hst EQ ER] Hrest. assert (Hni : 0 <= n * i) by (destruct Hr; nia).
  destruct Hr as [Hok Hgo Hn (LZ & LR & LB) _ (BS & BQ & BA & BB' & BZ & BR) _ (ZA & ZB) (RA & RB & RZ) _ _].
  assert (Hself : forall X, inside X X) by (unfold inside; lia).
  apply wp_bind, wp_plus; [lia|]. set (Zh := mkDigits _ _). set (Zl := mkDigits (digits_ Z_) n).
  assert (IZh : inside Zh Z_) by (unfold inside; cbn; lia).
  apply wp_bind. eapply wp_mono; [apply (PutAt_spec g Zh Ri n); [apply Hc| |lia|cbn; lia]|].
  { apply disjoint_in_order; [|cbn; lia]. by apply (disjoint_inside Z_ Ri); [apply disjoint_sym| |]. }
  intros [] g1 [[Hw1 Hv1] Hp1]. rewrite (low_all _ Ri) in Hv1 by lia.
  assert (Hc1 : changed g g1 [Z_]) by (apply (wrote_changed g g1 Zh n); [done|done|apply Exists_cons_hd; unfold inside; cbn; lia]).
  assert (Hup : forall g', changed g g' [Z_] -> changed h g' [Q; Z_; Ri; S]).
  { intros g' Hg'. apply (changed_trans _ g); [done|]. apply (changed_mono g g' [Z_]); [done|]. each_apart. apply exists_next, exists_self. }
  apply wp_bind, wp_plus; [lia|]. set (Ai := mkDigits _ _).
  apply wp_bind. eapply wp_mono; [apply (PutAt_spec g1 Z_ Ai n); [apply Hc1| |cbn; lia|lia]|].
  { apply disjoint_in_order; [|cbn; lia]. apply (disjoint_inside Z_ A); [done|done|unfold inside; cbn; lia]. }
  intros [] g2 [[Hw2 Hv2] Hp2].
  assert (Hc2 : changed g g2 [Z_]).
  { apply (changed_trans _ g1); [done|]. apply (wrote_changed g1 g2 Z_ n); [done|done|apply Exists_cons_hd; unfold inside; cbn; lia]. }
  apply Hrest; [by apply Hup|done|]. unfold low in Hv2. rewrite Z.min_l in Hv2 by (cbn; lia).
  rewrite (blocks_dividend g1 (Hup g1 Hc1)) in Hv2 by (cbn; lia).
  rewrite (split_value g2 Z_ n) by lia. unfold value at 1. cbn [digits_ len_]. rewrite Hv2.
  unfold value at 1. cbn [digits_ len_]. rewrite (sum_ext (cell g2) (cell g1) _ (digits_ Zh)).
  - rewrite Hv1, ER. unfold Ai. cbn [digits_]. ring.
  - intros j Hj. apply (wrote_frame _ _ _ _ Hw2). cbn. lia.
Qed.

Lemma block_positive : 0 < b.
Proof.
  destruct Hr as [Hok _ Hn (_ & _ & LB) _ _ _ _ _ _ Ht]. pose proof kBase_pos.
  apply divisor_pos; [done|lia|]. rewrite LB. lia.
Qed.

(** A block may be divided when its dividend is in place. *)
Lemma block_ready_at g i :
  0 <= i -> n * (i + 1) <= len_ Q -> changed h g [Q; Z_; Ri; S] ->
  sum (cell g) (digits_ Z_ + n) n < b ->
  going g /\ block_ready g S (mkDigits (digits_ Q + i * n) n) Ri Z_ B n /\ inside (mkDigits (digits_ Q + i * n) n) Q.
Proof.
  intros Hi HlQ Hc Hs. assert (Hni : 0 <= n * i) by (destruct Hr; nia).
  destruct Hr as [Hok Hgo Hn (LZ & LR & LB) HS (BS & BQ & BA & BB' & BZ & BR) (QA & QB & QZ & QR) (ZA & ZB)
    (RA & RB & RZ) (SQ & SA & SB & SZ & SR) Ht].
  pose proof Hc as [Hokg Hf Hp _]. set (Qi := mkDigits _ _).
  assert (IQ : inside Qi Q) by (unfold inside; cbn; lia). assert (Hself : forall X, inside X X) by (unfold inside; lia).
  destruct (blocks_divisor g _ Hc) as [VB Hcell]; [by apply blocks_apart|].
  split; [by apply (going_polled h)|]. split; [|done]. constructor; try done.
  - lia.
  - rewrite Hf. split; [done|]. split; [destruct BQ; unfold below; cbn; lia|done].
  - by apply (disjoint_inside Q Ri).
  - by apply (disjoint_inside Q Z_).
  - by apply (disjoint_inside Q B).
  - split; [by apply (disjoint_inside S Q)|done].
  - by rewrite Hcell.
  - by rewrite VB.
Qed.

(** The quotient's digits from a block on. *)
Lemma quotient_split g i :
  0 <= i -> n * (i + 1) <= len_ Q ->
  sum (cell g) (digits_ Q + n * i) (len_ Q - n * i) =
    value g (mkDigits (digits_ Q + i * n) n) + kBase ^ n * sum (cell g) (digits_ Q + n * (i + 1)) (len_ Q - n * (i + 1)).
Proof.
  intros Hi Hl. destruct Hr as [_ _ Hn _ _ _ _ _ _ _ _]. unfold value. cbn.
  replace (len_ Q - n * i) with (n + (len_ Q - n * (i + 1))) by lia. rewrite sum_split by lia.
  replace (digits_ Q + n * i + n) with (digits_ Q + n * (i + 1)) by lia. by rewrite (Z.mul_comm i n).
Qed.

(** One round of the loop. *)
Lemma divide_block i g g' g2 :
  0 <= i -> n * (i + 1) <= len_ A -> n * (i + 1) <= len_ Q -> blocks_done (n * (i + 1)) g ->
  changed h g' [Q; Z_; Ri; S] -> changed g g' [Z_] ->
  value g' Z_ = (a / kBase ^ (n * (i + 1))) mod b * kBase ^ n + sum (cell h) (digits_ A + n * i) n ->
  divided g' (mkDigits (digits_ Q + i * n) n) Ri [mkDigits (digits_ Q + i * n) n; Ri; S] (value g' Z_) b g2 ->
  changed h g2 [Q; Z_; Ri; S] /\ (status_ (proc g2) = kOk -> blocks_done (n * i) g2).
Proof.
  intros Hi HlA HlQ [Hc Hst EQ ER] Hc1 Hc1' EZ [Hc2 Hv]. assert (Hni : 0 <= n * i) by (destruct Hr; nia).
  pose proof Hr as [Hok Hgo Hn (LZ & LR & LB) HS (BS & BQ & _) (QA & QB & QZ & QR) _ _ (SQ & _) _].
  set (Qi := mkDigits (digits_ Q + i * n) n) in *. assert (IQ : inside Qi Q) by (unfold inside; cbn; lia).
  assert (Hself : forall X, inside X X) by (unfold inside; lia).
  assert (Hc3 : changed h g2 [Q; Z_; Ri; S]).
  { apply (changed_trans _ g'); [done|]. apply (changed_mono g' g2 [Qi; Ri; S]); [done|]. each_apart.
    - by apply Exists_cons_hd.
    - apply exists_next, exists_next, exists_self.
    - apply exists_next, exists_next, exists_next, exists_self. }
  split; [done|]. intros Hst2. destruct (Hv Hst2) as [VQ VR]. pose proof block_positive as Hb.
  destruct (long_division b (kBase ^ n) (a / kBase ^ (n * (i + 1))) (sum (cell h) (digits_ A + n * i) n) Hb) as [E1 E2].
  constructor; [done|done| |].
  - rewrite (quotient_split g2 i) by done. fold Qi. rewrite VQ, EZ, (next_dividend i) by done. rewrite E1.
    set (U := mkDigits (digits_ Q + n * (i + 1)) (len_ Q - n * (i + 1))).
    assert (IU : inside U Q) by (unfold inside; cbn; lia).
    assert (HU : value g2 U = value g U).
    { transitivity (value g' U).
      - apply (changed_value g' g2 [Qi; Ri; S]); [done| |rewrite (ch_free _ _ _ Hc1); destruct BQ; unfold below; cbn; lia].
        each_apart.
        + left. cbn. lia.
        + by apply (disjoint_inside Ri Q); [apply disjoint_sym| |].
        + by apply (disjoint_inside S Q).
      - apply (changed_value g g' [Z_]); [done| |rewrite (ch_free _ _ _ Hc); destruct BQ; unfold below; cbn; lia].
        each_apart. by apply (disjoint_inside Z_ Q); [apply disjoint_sym| |]. }
    unfold value in HU. cbn in HU. rewrite HU, EQ. ring.
  - by rewrite VR, EZ, (next_dividend i), E2 by done.
Qed.

(** All blocks, from block [i] down. *)
Lemma block_loop_spec fuel rest (Post : unit -> Heap -> Prop) :
  (forall g, blocks_done 0 g -> wp rest Post g) ->
  (forall g, changed h g [Q; Z_; Ri; S] -> status_ (proc g) <> kOk -> Post tt g) ->
  forall i g, - 1 <= i -> (Z.to_nat (i + 1) < fuel)%nat -> n * (i + 1) <= len_ A -> n * (i + 1) <= len_ Q ->
  blocks_done (n * (i + 1)) g ->
  wp (block_loop fuel (D2n1n (Datatypes.S (Z.to_nat n)) S) Q A B Z_ Ri n i rest) Post g.
Proof.
  intros Hrest Hstop. induction fuel as [|fuel IH]; intros i g Hi Hf HlA HlQ Hd; [lia|]. cbn [block_loop].
  destruct (Z.leb_spec 0 i) as [Hi0|Hi0].
  2: { apply Hrest. assert (i = -1) as -> by lia. replace (n * (-1 + 1)) with 0 in Hd by lia. done. }
  apply load_block; [done|done|done|]. intros g' Hc1 Hc1' EZ.
  pose proof Hr as [Hok Hgo Hn (LZ & LR & LB) _ _ (QA & QB & QZ & QR) (ZA & ZB) (RA & RB & _) (SQ & SA & SB & _) _].
  assert (Hni : 0 <= n * i) by nia. pose proof block_positive as Hb.
  pose proof (sum_range (cell h) (digits_ A + n * i) n Hok ltac:(lia)) as HAi.
  assert (Hs : sum (cell g') (digits_ Z_ + n) n < b).
  { pose proof (Z.mod_pos_bound (a / kBase ^ (n * (i + 1))) b Hb) as Hm. rewrite (split_value g' Z_ n) in EZ by lia.
    pose proof (sum_range (cell g') (digits_ Z_) n (ch_ok _ _ _ Hc1) ltac:(lia)) as HZl. unfold value in EZ at 1 2. cbn in EZ.
    rewrite <- (low_parts_equal (kBase ^ n) (sum (cell g') (digits_ Z_) n) (sum (cell h) (digits_ A + n * i) n)
      (sum (cell g') (digits_ Z_ + n) n) ((a / kBase ^ (n * (i + 1))) mod b)) in EZ by lia.
    pose proof (kBase_pow_pos n ltac:(lia)). nia. }
  apply wp_bind, wp_slice_inside; [lia|lia|lia|].
  destruct (block_ready_at g' i Hi0 HlQ Hc1 Hs) as (Hgo1 & Hready & IQ).
  apply wp_bind. eapply wp_mono; [apply (D2n1n_spec _ g' S _ Ri Z_ B n Hgo1 Hready); lia|].
  destruct (blocks_divisor g' _ Hc1) as [VB _]; [by apply blocks_apart|]. rewrite VB. intros [] g2 Hdiv.
  destruct (divide_block i g g' g2 Hi0 HlA HlQ Hd Hc1 Hc1' EZ Hdiv) as [Hc2 Hnext].
  apply wp_unless_terminated; intros Hst; [|by apply Hstop].
  apply IH; [lia|lia|nia|nia|]. replace (i - 1 + 1) with i by lia. auto.
Qed.

(** *** The first block *)

Lemma first_block_ready :
  sum (cell h) (digits_ Z_ + n) n < b ->
  block_ready (mkHeap (cell h) (free h + n) (proc h)) S (mkDigits (free h) n) Ri Z_ B n.
Proof.
  intros Hs. destruct Hr as [Hok Hgo Hn (LZ & LR & LB) HS (BS & BQ & BA & BB' & BZ & BR) _ (ZA & ZB)
    (RA & RB & RZ) (SQ & SA & SB & SZ & SR) Ht].
  assert (Hnew : forall X, below X (free h) -> disjoint (mkDigits (free h) n) X) by (unfold below, disjoint; cbn; lia).
  constructor; try done; [lia| |auto|auto|auto|].
  - unfold below in *. cbn. lia.
  - split; [by apply disjoint_sym, Hnew|done].
Qed.

(** The quotient's top digits. *)
Lemma top_quotient p : 0 <= p <= len_ Q -> a / b < kBase ^ len_ Q -> a / kBase ^ p / b < kBase ^ (len_ Q - p).
Proof.
  intros Hp Hq. pose proof block_positive. pose proof (kBase_pow_pos p ltac:(lia)).
  rewrite Z.div_div, Z.mul_comm, <- Z.div_div by lia. apply Z.div_lt_upper_bound; [done|].
  rewrite <- Z.pow_add_r by lia. by replace (p + (len_ Q - p)) with (len_ Q) by lia.
Qed.

Lemma first_block_spec p :
  0 <= p <= len_ Q -> value h Z_ = a / kBase ^ p -> sum (cell h) (digits_ Z_ + n) n < b -> a / b < kBase ^ len_ Q ->
  wp (with_scratch n (fun Qi =>
        D2n1n (Datatypes.S (Z.to_nat n)) S Qi Ri Z_ B ;;;
        unless_terminated (
          let* Qi := Normalize Qi in
          let* target := plus Q p in
          DCHECK (len_ Qi <=? len_ target) ;;;
          PutAt target Qi (len_ target))))
    (fun _ g => changed h g [Q; Z_; Ri; S] /\ (status_ (proc g) = kOk -> blocks_done p g)) h.
Proof.
  intros Hp EZ Hs Hq. pose proof (first_block_ready Hs) as Hready. pose proof (top_quotient p Hp Hq) as Hfit.
  pose proof Hr as [Hok Hgo Hn (LZ & LR & LB) _ (BS & BQ & _ & _ & BZ & BR) (_ & _ & QZ & QR) _ _ _ _].
  apply wp_with_scratch. set (h4 := mkHeap _ _ _) in *. set (Qi := mkDigits (free h) n) in *.
  apply wp_bind. eapply wp_mono; [apply (D2n1n_spec _ h4 S Qi Ri Z_ B n); [exact Hgo|done|lia|lia]|].
  intros [] g [Hc Hv]. change (value h4) with (value h) in Hv. rewrite EZ in Hv.
  assert (Hc' : changed h4 g [Qi; Q; Z_; Ri; S]).
  { apply (changed_mono h4 g [Qi; Ri; S]); [done|]. each_apart; [apply exists_self|..].
    - do 3 apply exists_next. apply exists_self.
    - do 4 apply exists_next. apply exists_self. }
  assert (Hback : forall g', changed h4 g' [Qi; Q; Z_; Ri; S] -> changed h (mkHeap (cell g') (free h) (proc g')) [Q; Z_; Ri; S]).
  { intros g' Hg'. by apply (changed_with_scratch h g' _ Qi n); [|lia|]. }
  apply wp_unless_terminated; intros Hst; [|by split; [apply Hback|]]. destruct (Hv Hst) as [VQ VR].
  pose proof (ch_ok _ _ _ Hc) as Hokg.
  apply wp_bind. eapply wp_mono; [apply Normalize_spec; [done|cbn; lia]|]. intros Qi' g' [-> NQ].
  apply wp_bind, wp_plus; [lia|]. set (target := mkDigits _ _). cbn [len_].
  pose proof (norm_len _ _ _ NQ) as LQ'. cbn [len_ Qi] in LQ'.
  assert (Hl : len_ Qi' <= len_ Q - p) by (apply (normalized_len_le g Qi); [done|done|lia|by rewrite VQ]).
  apply wp_bind, wp_DCHECK; [by apply Z.leb_le|].
  assert (Hin : inside target Q) by (unfold inside; cbn; lia).
  eapply wp_mono; [apply (PutAt_spec g target Qi' (len_ Q - p)); [done| |lia|cbn; lia]|].
  { apply disjoint_in_order; [|cbn; lia]. left. rewrite (norm_digits _ _ _ NQ). destruct BQ. cbn. lia. }
  intros [] g2 [[Hw Ht] Hp2]. rewrite low_all, (norm_value _ _ _ NQ), VQ in Ht by lia.
  assert (Hc2 : changed h4 g2 [Qi; Q; Z_; Ri; S]).
  { apply (changed_trans _ g); [done|]. apply (wrote_changed g g2 target (len_ Q - p)); [done|done|].
    apply exists_next, Exists_cons_hd. done. }
  split; [by apply Hback|]. intros Hst2. constructor; [by apply Hback|done|done|].
  change (value (mkHeap (cell g2) (free h) (proc g2)) Ri) with (value g2 Ri). rewrite <- VR.
  apply (value_wrote g g2 target (len_ Q - p)); [done|].
  assert (HT : disjoint target Ri) by (apply (disjoint_inside Q Ri); [done|done|unfold inside; lia]).
  exact HT.
Qed.

End Loop.

(** ** The remainder *)

Lemma put_remainder_spec h R Ri n ds sigma :
  heap_ok h -> len_ Ri = n -> 0 <= ds <= n -> 0 <= sigma < kDigitBits -> disjoint R Ri ->
  len_ R = 0 \/ n - ds <= len_ R -> (kBase ^ ds | value h Ri) ->
  wp (put_remainder R Ri ds sigma)
    (fun _ h' => changed h h' [R] /\ (len_ R <> 0 -> value h' R = value h Ri / kBase ^ ds / 2 ^ sigma)) h.
Proof.
  intros Hok LRi Hds Hs HD HlR Hdiv. unfold put_remainder.
  destruct (sum_split_div (cell h) (digits_ Ri) ds n Hok Hds) as [Ehi Elo].
  assert (Hlow : sum (cell h) (digits_ Ri) ds = 0).
  { rewrite <- Elo. pose proof (kBase_pow_pos ds ltac:(lia)). apply Z.mod_divide; [lia|]. unfold value in Hdiv. by rewrite LRi in Hdiv. }
  apply wp_bind, (wp_for_up (fun _ _ h' => h' = h)); [lia|done| |].
  { intros i [] h' Hi ->. apply wp_bind, wp_get; [lia|]. apply wp_DCHECK; [|done].
    apply Z.eqb_eq. by apply (sum_eq_0 (cell h) (digits_ Ri) ds). }
  intros [] h' ->. destruct (Z.eqb_spec (len_ R) 0) as [E|E]; cbn [negb]; [apply wp_ret; split; [by apply changed_refl|lia]|].
  apply wp_bind, wp_slice; [lia|]. set (Rp := mkDigits _ _).
  assert (LRp : len_ Rp = n - ds) by (cbn; lia).
  apply wp_bind. eapply wp_mono; [apply Normalize_spec; [done|lia]|]. intros Rp' h' [-> NR].
  pose proof (norm_len _ _ _ NR) as Hl. apply wp_bind, wp_DCHECK; [apply Z.leb_le; lia|].
  assert (EV : value h Rp' = value h Ri / kBase ^ ds).
  { rewrite (norm_value _ _ _ NR). unfold value. by rewrite LRp, LRi, Ehi. }
  pose proof (value_range h Rp' Hok ltac:(lia)) as HV.
  eapply wp_mono; [apply wp_polls; [polls_tac|apply (RightShiftBits_spec h R Rp' sigma)]|].
  - done.
  - apply disjoint_in_order; [|lia]. apply (disjoint_inside R Ri); [done|unfold inside; lia|].
    unfold inside. rewrite (norm_digits _ _ _ NR). cbn. lia.
  - lia.
  - lia.
  - done.
  - eapply Z.lt_le_trans; [apply HV|]. pose proof kBase_pos. apply Z.pow_le_mono_r; lia.
  - intros [] h' [[Hw Hv] Hp]. rewrite EV in Hv. split; [by apply changed_first|done].
Qed.

(** ** Steps 7 to 9 *)

(** What the division of the shifted operands needs; [ds] is the number of
    zero digits below both of them. *)
Record shifted_ready (h : Heap) (Q R A B : Digits) (n ds : Z) : Prop := {
  sr_ok : heap_ok h;
  sr_going : going h;
  sr_n : kBurnikelThreshold <= n <= kMaxInt /\ 0 <= ds <= n;
  sr_lens : len_ B = n /\ n <= len_ A /\ len_ A - n <= len_ Q /\ (len_ R = 0 \/ n - ds <= len_ R);
  sr_below : below Q (free h) /\ below R (free h) /\ below A (free h) /\ below B (free h);
  sr_QR : disjoint Q R;
  sr_Q : disjoint Q A /\ disjoint Q B;
  sr_top : kBase <= 2 * cell h (digits_ B + (n - 1));
  sr_dividend : 2 * value h A < kBase ^ len_ A;
  sr_quotient : value h A / value h B < kBase ^ len_ Q;
  sr_low : (kBase ^ ds | value h A) /\ (kBase ^ ds | value h B)
}.

Section Steps.
Context (h : Heap) (Q R A B : Digits) (n ds sigma : Z).
Hypothesis Hr : shifted_ready h Q R A B n ds.
Hypothesis Hsigma : 0 <= sigma < kDigitBits.
Local Abbreviation t := (Z.max (DIV_CEIL (len_ A) n) 2).
Local Abbreviation p := (n * (t - 2)).
Local Abbreviation Z_ := (mkDigits (free h) (n * 2)).

Lemma block_counts : 0 <= p <= len_ A /\ p <= len_ Q /\ len_ A - p <= 2 * n /\ 2 <= t.
Proof.
  destruct Hr as [_ _ [Hn _] (LB & LA & LQ & _) (BQ & _) _ _ _ _ _ _]. unfold kBurnikelThreshold in Hn.
  pose proof (div_ceil_bounds (len_ A) n ltac:(lia) ltac:(lia)) as Hc. destruct BQ as [BQ _].
  destruct (Z.max_spec (DIV_CEIL (len_ A) n) 2) as [[H ->]|[H ->]]; [nia|].
  destruct (Z.eq_dec (DIV_CEIL (len_ A) n) 2) as [E|E]; [rewrite E in *; lia|nia].
Qed.

(** The first dividend's upper half is below the divisor. *)
Lemma first_dividend g :
  heap_ok g -> value g Z_ = value h A / kBase ^ p -> sum (cell g) (digits_ Z_ + n) n < value h B.
Proof.
  intros Hok EZ. destruct block_counts as (Hp & _ & Hl & _).
  destruct Hr as [Hokh _ [Hn _] (LB & LA & _) _ _ _ Ht Hd _ _]. unfold kBurnikelThreshold in Hn.
  pose proof (kBase_pow_pos n ltac:(lia)) as Hpn. pose proof (kBase_pow_pos p ltac:(lia)) as Hpp. pose proof kBase_pos as Hk.
  assert (HB : kBase ^ n <= 2 * value h B).
  { unfold value. rewrite LB, sum_pred by lia. replace n with (n - 1 + 1) at 1 by lia. rewrite kBase_pow_succ by lia.
    pose proof (sum_range (cell h) (digits_ B) (n - 1) Hokh ltac:(lia)). pose proof (kBase_pow_pos (n - 1) ltac:(lia)).
    clear - H H0 Ht. nia. }
  assert (HZ : 2 * value g Z_ < kBase ^ (2 * n)).
  { rewrite EZ. eapply Z.lt_le_trans; [|apply (Z.pow_le_mono_r kBase (len_ A - p)); lia].
    assert (E : kBase ^ len_ A = kBase ^ p * kBase ^ (len_ A - p)) by (rewrite <- Z.pow_add_r by lia; f_equal; lia).
    rewrite E in Hd. pose proof (Z.mul_div_le (value h A) (kBase ^ p) Hpp). clear - Hd H Hpp. nia. }
  rewrite (split_value g Z_ n) in HZ by (cbn; lia). unfold value at 1 in HZ. cbn [digits_ len_] in *.
  pose proof (sum_range (cell g) (free h) n Hok ltac:(lia)) as Hlow.
  replace (2 * n) with (n + n) in HZ by lia. rewrite Z.pow_add_r in HZ by lia.
  unfold value in HZ. cbn [digits_ len_] in HZ. clear - HZ Hlow Hpn HB. nia.
Qed.

(** The first dividend. *)
Lemma first_dividend_spec rest (Post : unit -> Heap -> Prop) :
  (forall g, changed (mkHeap (cell h) (free h + n * 2) (proc h)) g [Z_] -> value g Z_ = value h A / kBase ^ p ->
    wp rest Post g) ->
  wp (let* top := plus A p in PutAt Z_ top (n * 2) ;;; rest) Post (mkHeap (cell h) (free h + n * 2) (proc h)).
Proof.
  intros Hrest. destruct block_counts as (Hp & _ & Hl & _).
  pose proof Hr as [Hok _ [Hn _] (LB & LA & _) (_ & _ & BA & _) _ _ _ _ _ _]. unfold kBurnikelThreshold in Hn.
  apply wp_bind, wp_plus; [lia|]. set (h1 := mkHeap _ _ _) in *. set (top := mkDigits (digits_ A + p) _).
  apply wp_bind. eapply wp_mono; [apply (PutAt_spec h1 Z_ top (n * 2)); [done| |cbn; lia|cbn; lia]|].
  { right. destruct BA. cbn. lia. }
  intros [] g [[Hw Hv] Hpo]. rewrite low_all in Hv by (cbn; lia). apply Hrest; [by apply changed_first|].
  unfold value at 1. cbn [digits_ len_]. cbn [digits_] in Hv. rewrite Hv.
  unfold value. by rewrite (proj1 (sum_split_div _ (digits_ A) p (len_ A) Hok ltac:(lia))).
Qed.

(** The scratch vectors, in the order of their allocation. *)
Section Scratch.
Context (g : Heap) (m : Z).
Hypothesis (Hg : changed (mkHeap (cell h) (free h + n * 2) (proc h)) g [Z_]) (Hm : n <= m).
Local Abbreviation S := (mkDigits (free g) m).
Local Abbreviation Ri := (mkDigits (free g + m) n).
Local Abbreviation h3 := (mkHeap (cell g) (free g + m + n) (proc g)).

Lemma scratch_values : value h3 A = value h A /\ value h3 B = value h B.
Proof.
  destruct Hr as [_ _ [Hn _] _ (_ & _ & BA & BB') _ _ _ _ _ _]. unfold kBurnikelThreshold in Hn.
  assert (H : forall X, below X (free h) -> value g X = value h X).
  { intros X [HX1 HX2]. apply (changed_value _ g [Z_] X Hg); [each_apart; by right|unfold below; cbn; lia]. }
  split; [by apply (H A)|by apply (H B)].
Qed.

Lemma scratch_ready : blocks_ready h3 S Q A B Z_ Ri n.
Proof.
  pose proof Hg as [Hokg Hf Hp Hfr]. cbn [free] in Hf.
  destruct Hr as [Hok Hgo [Hn _] (LB & LA & _) (BQ & BR & BA & BB') QR (QA & QB) Ht _ _ _]. unfold kBurnikelThreshold in Hn.
  assert (Hz : forall X, below X (free h) -> disjoint Z_ X /\ disjoint Ri X /\ disjoint S X /\ below X (free h3)).
  { unfold below, disjoint. cbn. lia. }
  destruct (Hz Q BQ) as (? & ? & ? & ?). destruct (Hz A BA) as (? & ? & ? & ?). destruct (Hz B BB') as (? & ? & ? & ?).
  constructor; try done.
  - apply (going_polled g); [by apply polled_same|]. by apply (going_polled _ _ Hp).
  - lia.
  - cbn. lia.
  - split; [unfold below; cbn; lia|]. do 3 (split; [done|]). unfold below. cbn. lia.
  - do 2 (split; [done|]). split; by apply disjoint_sym.
  - do 2 (split; [done|]). right. cbn. lia.
  - do 3 (split; [done|]). split; [right|left]; cbn; lia.
  - cbn [cell]. rewrite Hfr; [done|destruct BB'; cbn; lia|]. each_apart. left. destruct BB'. cbn. lia.
Qed.

(** The scratch vectors are given back. *)
Lemma scratch_back g' : changed h3 g' [Q; R; Z_; Ri; S] -> changed h (mkHeap (cell g') (free h) (proc g')) [Q; R].
Proof.
  intros [Hok' Hf' Hp' Hfr']. destruct Hg as [_ Hf Hp Hfr]. cbn [free] in *.
  destruct Hr as [_ _ [Hn _] _ _ _ _ _ _ _ _]. unfold kBurnikelThreshold in Hn. constructor; [done|done| |].
  - apply (polled_trans _ (mkHeap (cell h) (free h + n * 2) (proc h))); [by apply polled_same|].
    apply (polled_trans _ g); [done|]. apply (polled_trans _ h3); [by apply polled_same|].
    apply (polled_trans _ g'); [done|by apply polled_same].
  - intros x Hx Ho. apply List.Forall_cons_iff in Ho as [HQ Ho]. apply List.Forall_cons_iff in Ho as [HR _].
    cbn [cell]. rewrite Hfr'; [|lia|each_apart; (done || (left; cbn; lia))].
    cbn [cell]. rewrite Hfr; [done|lia|]. each_apart. left. cbn. lia.
Qed.

Lemma blocks_mono g' : changed h3 g' [Q; Z_; Ri; S] -> changed h3 g' [Q; R; Z_; Ri; S].
Proof.
  intros Hc. apply (changed_mono h3 g' [Q; Z_; Ri; S]); [done|].
  each_apart; [apply exists_self|do 2 apply exists_next|do 3 apply exists_next|do 4 apply exists_next]; apply exists_self.
Qed.

(** Step 9, when all the blocks are divided. *)
Lemma finish_blocks g2 :
  blocks_done h3 S Q A B Z_ Ri 0 g2 ->
  wp (put_remainder R Ri ds sigma)
    (fun _ g' => changed h3 g' [Q; R; Z_; Ri; S] /\ value g' Q = value h A / value h B /\
      (len_ R <> 0 -> value g' R = (value h A mod value h B) / kBase ^ ds / 2 ^ sigma)) g2.
Proof.
  intros [Hc Hst EQ ER]. destruct scratch_values as [EA EB]. rewrite EA, EB, Z.pow_0_r, Z.div_1_r in EQ, ER.
  pose proof (ch_free _ _ _ Hg) as Hf. cbn [free] in Hf.
  pose proof Hr as [Hok Hgo [Hn Hds] (LB & LA & LQ & LR) (BQ & BR & _) QR _ Ht _ _ [[x Hx] [y Hy]]].
  eapply wp_mono; [apply (put_remainder_spec g2 R Ri n ds sigma); try done|].
  - apply Hc.
  - left. destruct BR. unfold kBurnikelThreshold in Hn. cbn. lia.
  - rewrite ER. assert (Hb : value h B <> 0).
    { rewrite <- EB. pose proof (block_positive h3 S Q A B Z_ Ri n scratch_ready). lia. }
    rewrite Z.mod_eq by done. exists (x - y * (value h A / value h B)). rewrite Hy at 1. rewrite Hx at 1. ring.
  - intros [] g' [Hc' Hv]. rewrite ER in Hv. split; [|split; [|done]].
    + apply (changed_trans _ g2); [by apply blocks_mono|]. apply (changed_mono _ _ _ _ Hc'). each_apart.
      apply exists_next, exists_self.
    + rewrite <- EQ, Z.add_0_r, Z.sub_0_r. apply (changed_value g2 g' [R]); [done|each_apart; by apply disjoint_sym|].
      rewrite (ch_free _ _ _ Hc). unfold below in *. cbn in *. lia.
Qed.

End Scratch.

Lemma divide_blocks_spec :
  wp (divide_blocks Q R A B n ds sigma)
    (fun _ g => changed h g [Q; R] /\ (status_ (proc g) = kOk ->
       value g Q = value h A / value h B /\
       (len_ R <> 0 -> value g R = (value h A mod value h B) / kBase ^ ds / 2 ^ sigma))) h.
Proof.
  destruct block_counts as (Hp & HpQ & Hl & Ht). pose proof Hr as [Hok Hgo [Hn Hds] _ _ _ _ _ _ Hq _].
  unfold divide_blocks. apply wp_with_scratch, first_dividend_spec. intros g Hg EZ.
  rewrite (proj2 (Z.leb_le kBurnikelThreshold n)) by lia. apply wp_with_scratch, wp_with_scratch. cbn [cell free proc].
  pose proof (scratch_ready g n Hg ltac:(lia)) as Hready. destruct (scratch_values g n Hg) as [EA EB].
  set (h3 := mkHeap _ (free g + n + n) _) in *.
  apply wp_bind. eapply wp_mono; [apply (first_block_spec h3 _ Q A B Z_ _ n Hready p)|].
  - lia.
  - by rewrite EA.
  - rewrite EB. apply (first_dividend g); [apply Hg|done].
  - by rewrite EA, EB.
  - intros [] g1 [Hc1 Hd1].
    apply wp_unless_terminated; intros Hst; cbn [proc] in *.
    2: { split; [|done]. exact (scratch_back g n Hg ltac:(lia) g1 (blocks_mono g n g1 Hc1)). }
    apply (block_loop_spec h3 _ Q A B Z_ _ n Hready).
    + intros g2 Hd2. eapply wp_mono; [by apply (finish_blocks g n Hg)|]. intros [] g3 (Hc3 & HQ & HR).
      split; [exact (scratch_back g n Hg ltac:(lia) g3 Hc3)|]. intros _. split; [exact HQ|exact HR].
    + intros g2 Hc2 Hst2. split; [|done]. exact (scratch_back g n Hg ltac:(lia) g2 (blocks_mono g n g2 Hc2)).
    + lia.
    + lia.
    + replace (t - 3 + 1) with (t - 2) by lia. apply Hp.
    + by replace (t - 3 + 1) with (t - 2) by lia.
    + replace (t - 3 + 1) with (t - 2) by lia. auto.
Qed.

End Steps.

(** ** The division *)

(** The outcome of a division with an optional remainder. *)
Record divided_into (h : Heap) (Q R : Digits) (a b : Z) (h' : Heap) : Prop := {
  di_changed : changed h h' [Q; R];
  di_value : status_ (proc h') = kOk -> value h' Q = a / b /\ (len_ R <> 0 -> value h' R = a mod b)
}.

(** What the division needs. The operands are copied first, so that they may
    overlap the results. *)
Record burnikel_ready (h : Heap) (Q R A B : Digits) : Prop := {
  bz_ok : heap_ok h;
  bz_going : going h;
  bz_lens : kBurnikelThreshold <= len_ B <= len_ A /\ 2 * len_ B <= kMaxInt;
  bz_results : len_ A - len_ B < len_ Q /\ (len_ R = 0 \/ len_ B <= len_ R);
  bz_tops : cell h (digits_ A + (len_ A - 1)) <> 0 /\ cell h (digits_ B + (len_ B - 1)) <> 0;
  bz_below : below Q (free h) /\ below R (free h) /\ below A (free h) /\ below B (free h);
  bz_QR : disjoint Q R
}.

(** A common factor of dividend and divisor. *)
Lemma common_factor a b f k : 0 < b -> 0 < f -> 0 < k ->
  (a * f * k) / (b * f * k) = a / b /\ (a * f * k) mod (b * f * k) / k / f = a mod b.
Proof.
  intros Hb Hf Hk. rewrite <- !(Z.mul_assoc _ f k). assert (0 < f * k) by nia. split.
  - by apply Z.div_mul_cancel_r; lia.
  - rewrite Z.mul_mod_distr_r, Z.mul_assoc by lia. by rewrite !Z.div_mul by lia.
Qed.

Section Ziegler.
Context (h : Heap) (Q R A B : Digits).
Hypothesis Hr : burnikel_ready h Q R A B.
Local Abbreviation n := (burnikel_length (len_ B)).
Local Abbreviation ds := (n - len_ B).
Local Abbreviation sigma := (CountLeadingZeros (cell h (digits_ B + (len_ B - 1)))).
Local Abbreviation extra := (if CountLeadingZeros (cell h (digits_ A + (len_ A - 1))) <? sigma + 1 then 1 else 0).
Local Abbreviation r := (len_ A + ds + extra).
Local Abbreviation B_shifted := (mkDigits (free h) n).

Lemma quotient_length : value h A / value h B < kBase ^ len_ Q /\ 0 < value h B.
Proof.
  destruct Hr as [Hok _ [Hl _] [HQ _] [HA HB] _ _]. unfold kBurnikelThreshold in Hl.
  pose proof (value_range h A Hok ltac:(lia)) as [_ Ha].
  assert (Hlow : kBase ^ (len_ B - 1) <= value h B) by (apply normal_lower; [done|split; [lia|done]|lia]).
  pose proof (kBase_pow_pos (len_ B - 1) ltac:(lia)) as Hp. split; [|lia]. pose proof kBase_pos.
  apply Z.div_lt_upper_bound; [lia|]. eapply Z.lt_le_trans; [exact Ha|].
  replace (len_ A) with (len_ B - 1 + (len_ A - len_ B + 1)) by lia. rewrite Z.pow_add_r by lia.
  apply Z.mul_le_mono_nonneg; [lia|done|apply Z.pow_nonneg; lia|]. apply Z.pow_le_mono_r; lia.
Qed.

(** The shifted operands in their scratch vectors. *)
Lemma shifted_operands g :
  heap_ok g -> going g -> free g = free h + n + r ->
  value g (mkDigits (free h + n) r) = value h A * 2 ^ sigma * kBase ^ ds ->
  value g B_shifted = value h B * 2 ^ sigma * kBase ^ ds ->
  shifted_ready g Q R (mkDigits (free h + n) r) B_shifted n ds.
Proof.
  intros Hokg Hgog Hf EA EB. destruct quotient_length as [Hq Hb].
  destruct Hr as [Hok Hgo [Hl Hmax] (HQ & HR) [HA HB] (BQ & BR & BA & BB') QR].
  pose proof (burnikel_length_bounds (len_ B) ltac:(unfold kBurnikelThreshold in *; lia)) as Hn. unfold kBurnikelThreshold in Hl.
  destruct (divisor_shift h B Hok ltac:(lia) HB) as (Hs & Hlo & Hhi).
  destruct (dividend_shift h A sigma Hok ltac:(lia) HA Hs) as [Hx Hd].
  pose proof (kBase_pow_pos ds ltac:(lia)) as Hpd. pose proof (pow2_pos sigma (proj1 Hs)) as Hp2.
  constructor; try done.
  - unfold kBurnikelThreshold. clear - Hl Hn Hmax. lia.
  - cbn [len_]. clear - Hl Hn Hx HQ HR. lia.
  - rewrite Hf. unfold below in *. cbn [digits_ len_]. clear - Hl Hn Hx BQ BR. lia.
  - unfold below, disjoint in *. cbn [digits_ len_]. clear - Hl Hn Hx BQ. lia.
  - apply (top_digit g B_shifted); [done|cbn [len_]; clear - Hl Hn; lia|]. rewrite EB. cbn [len_].
    replace n with (len_ B + ds) at 1 by lia. rewrite Z.pow_add_r by lia.
    pose proof (Z.mul_le_mono_nonneg_r _ _ (kBase ^ ds) (Z.lt_le_incl _ _ Hpd) Hlo) as HM. clear - HM. lia.
  - rewrite EA. cbn [len_]. replace r with (len_ A + extra + ds) by lia. rewrite (Z.pow_add_r _ _ ds) by (clear - Hl Hn Hx; lia).
    pose proof (proj1 (Z.mul_lt_mono_pos_r (kBase ^ ds) _ _ Hpd) Hd) as HM. clear - HM. lia.
  - rewrite EA, EB. by destruct (common_factor (value h A) (value h B) (2 ^ sigma) (kBase ^ ds) Hb Hp2 Hpd) as [-> _].
  - rewrite EA, EB. split; eexists; reflexivity.
Qed.

Lemma DivideBurnikelZiegler_spec :
  wp (DivideBurnikelZiegler Q R A B) (fun _ => divided_into h Q R (value h A) (value h B)) h.
Proof.
  destruct quotient_length as [_ Hb].
  pose proof Hr as [Hok Hgo [Hl Hmax] (HQ & HR) [HA HB] (BQ & BR & BA & BB') QR].
  pose proof (burnikel_length_bounds (len_ B) ltac:(unfold kBurnikelThreshold in *; lia)) as Hn. unfold kBurnikelThreshold in Hl.
  destruct (divisor_shift h B Hok ltac:(lia) HB) as (Hs & Hlo & Hhi).
  destruct (dividend_shift h A sigma Hok ltac:(lia) HA Hs) as [Hx Hd].
  pose proof (kBase_pow_pos ds ltac:(lia)) as Hpd. pose proof (pow2_pos sigma (proj1 Hs)) as Hp2.
  unfold DivideBurnikelZiegler. apply wp_bind, wp_DCHECK; [apply Z.leb_le; lia|].
  apply wp_bind, wp_DCHECK; [apply orb_true_iff; rewrite Z.eqb_eq, Z.leb_le; lia|].
  apply wp_bind, wp_DCHECK; [apply Z.ltb_lt; lia|]. apply wp_bind, wp_get; [lia|].
  apply wp_with_scratch. set (h1 := mkHeap _ _ _).
  assert (Hnew : forall D X, below X (free h) -> free h <= digits_ D -> disjoint D X) by (unfold below, disjoint; lia).
  apply wp_bind. eapply wp_mono; [apply (shift_into_spec h1 B_shifted B ds sigma)|].
  1: done. 1-3: cbn [len_]; lia. 1: apply Hnew; [done|cbn; lia]. 1: done.
  { cbn [len_]. by replace (n - ds) with (len_ B) by lia. }
  change (value h1 B) with (value h B). intros [] g1 [[Hw1 EB] Hp1].
  pose proof (changed_first h1 g1 B_shifted [] Hw1 Hp1) as Hc1. pose proof (ch_free _ _ _ Hc1) as Hf1. cbn [free h1] in Hf1.
  assert (Hkeep : forall X, below X (free h) -> value g1 X = value h X).
  { intros X HX. apply (changed_value h1 g1 [B_shifted]); [done|each_apart; apply Hnew; [done|cbn; lia]|unfold below in *; cbn; lia]. }
  apply wp_bind, wp_get; [lia|].
  assert (Etop : cell g1 (digits_ A + (len_ A - 1)) = cell h (digits_ A + (len_ A - 1))).
  { apply (wrote_frame _ _ _ _ Hw1). left. destruct BA. cbn. lia. }
  rewrite Etop. apply wp_with_scratch. set (h2 := mkHeap _ _ _). rewrite Hf1. set (A_shifted := mkDigits (free h + n) r).
  apply wp_bind. eapply wp_mono; [apply (shift_into_spec h2 A_shifted A ds sigma)|].
  1: exact (ch_ok _ _ _ Hc1). 1-3: cbn [len_ A_shifted]; lia. 1: apply Hnew; [done|cbn; lia]. 1: done.
  { change (value h2 A) with (value g1 A). rewrite (Hkeep A BA). cbn [len_ A_shifted].
    replace (r - ds) with (len_ A + extra) by lia. pose proof (value_range h A Hok ltac:(lia)) as HvA. clear - Hd HvA Hp2. nia. }
  change (value h2 A) with (value g1 A). rewrite (Hkeep A BA). intros [] g2 [[Hw2 EA] Hp2'].
  pose proof (changed_first h2 g2 A_shifted [] Hw2 Hp2') as Hc2. pose proof (ch_free _ _ _ Hc2) as Hf2. cbn [free h2] in Hf2.
  assert (EB2 : value g2 B_shifted = value h B * 2 ^ sigma * kBase ^ ds).
  { rewrite <- EB. apply (wrote_other h2 g2 A_shifted); [done|]. right. cbn. lia. }
  eapply wp_mono; [apply (divide_blocks_spec g2 Q R A_shifted B_shifted n ds sigma)|]; [|done|].
  { apply shifted_operands; [apply Hc2| |lia|done|done].
    apply (going_polled h2); [done|]. apply (going_polled g1); [by apply polled_same|]. by apply (going_polled h1). }
  rewrite EA, EB2. destruct (common_factor (value h A) (value h B) (2 ^ sigma) (kBase ^ ds) Hb Hp2 Hpd) as [-> ->].
  intros [] g3 [Hc3 Hv]. constructor; [|exact Hv]. subst h1 h2.
  apply (changed_with_scratch h (mkHeap (cell g3) (free h + n) (proc g3)) [Q; R] B_shifted n); [|lia|done].
  apply (changed_trans _ g1).
  - apply (changed_mono _ g1 [B_shifted]); [done|]. each_apart. apply exists_self.
  - rewrite <- Hf1. apply (changed_with_scratch g1 g3 _ A_shifted r); [|lia|done].
    apply (changed_trans _ g2).
    + apply (changed_mono _ g2 [A_shifted]); [done|]. each_apart. apply exists_self.
    + apply (changed_mono _ g3 [Q; R]); [done|]. each_apart; [do 2 apply exists_next|do 3 apply exists_next]; apply exists_self.
Qed.

End Ziegler.

End Blocks.
