(* ===== verification/BigIntObjects.v ===== *)
(** * BigInt objects

    The operations of the language on BigInt values, of [src/objects/bigint.cc]:
    allocation, canonical form, and the dispatch on signs and lengths to the
    digit vectors. A handle is a sign and a view of the digits in the shared
    memory; a mutable BigInt is only known to the function that allocates it, so
    setting its sign makes a new handle. *)

From stdpp Require Import base list numbers.
From Stdlib Require Import ZArith Lia Bool.
From S2P Require Import Prelude.
From S2P Require Import BigIntDigits.
From S2P Require Import BigIntVectors.
From S2P Require Import BigIntMul.
From S2P Require Import BigIntShift.
From S2P Require Import BigIntBitwise.

Local Open Scope Z_scope.
Local Open Scope prog_scope.

(** The error a failed operation leaves behind: a [RangeError], a [TypeError],
    or the termination of an interrupted script. *)
Inductive Exception := kBigIntTooBig | kBigIntDivZero | kMustBePositive | kBigIntShr | Terminated.

(** [MaybeHandle<T>]. *)
Definition MaybeHandle (A : Type) : Type := (A + Exception)%type.

Record BigInt := mkBigInt { sign : bool; digits : Digits }.

Inductive ComparisonResult := kLessThan | kEqual | kGreaterThan | kUndefined.

(** A call that may fail, and [ToHandleChecked], which must not. *)
Definition maybe {A B} (m : M Heap (MaybeHandle A)) (k : A -> M Heap (MaybeHandle B)) : M Heap (MaybeHandle B) :=
  let* r := m in
  match r with
  | inl a => k a
  | inr e => ret (inr e)
  end.

Definition ToHandleChecked {A} (m : M Heap (MaybeHandle A)) : M Heap A :=
  let* r := m in
  match r with
  | inl a => ret a
  | inr _ => undefined
  end.

Declare Scope handle_scope.
Delimit Scope handle_scope with handle.
Notation "'let?' x := m 'in' k" := (maybe m (fun x => k))
  (at level 10, x pattern, m at level 100, k at level 200) : handle_scope.

Local Open Scope handle_scope.

Section Objects.
Context {T : DigitTarget}.
Local Abbreviation HM := (M Heap).

Definition kMaxLengthBits : Z := Z.shiftl 1 30.
Definition kMaxLength : Z := kMaxLengthBits / kDigitBits.

Definition length (x : BigInt) : Z := len_ (digits x).
Definition is_zero (x : BigInt) : bool := length x =? 0.
Definition digit (x : BigInt) (n : Z) : HM Z := get (digits x) n.
Definition set_digit (x : BigInt) (n value : Z) : HM unit := set (digits x) n value.
Definition set_sign (x : BigInt) (new_sign : bool) : BigInt := mkBigInt new_sign (digits x).
Definition set_length (x : BigInt) (new_length : Z) : BigInt :=
  mkBigInt (sign x) (mkDigits (digits_ (digits x)) new_length).

Definition ThrowBigIntTooBig {A} : HM (MaybeHandle A) := ret (inr kBigIntTooBig).

(** ** Allocation and canonical form *)

(** [factory()->NewBigInt]: the digits of the new object are not initialised. *)
Definition NewBigInt (len : Z) : HM Digits :=
  let* base := gets free in
  modify (fun h => mkHeap (cell h) (base + len) (proc h)) ;;; ret (mkDigits base len).

Definition New (len : Z) : HM (MaybeHandle BigInt) :=
  if kMaxLength <? len then ThrowBigIntTooBig
  else let* D := NewBigInt len in ret (inl (mkBigInt false D)).

Definition Canonicalize (result : BigInt) : HM BigInt :=
  let old_length := length result in
  let* new_length :=
    loop (S (Z.to_nat old_length))
      (fun new_length =>
         if 0 <? new_length then
           let* d := digit result (new_length - 1) in
           ret (if d =? 0 then inl (new_length - 1) else inr new_length)
         else ret (inr new_length))
      old_length in
  let to_trim := old_length - new_length in
  let result :=
    (if negb (to_trim =? 0) then
       let result := set_length result new_length in
       if new_length =? 0 then set_sign result false else result
     else result) in
  let* _ :=
    (if 0 <? length result then
       let* d := digit result (length result - 1) in DCHECK (negb (d =? 0))
     else ret tt) in
  DCHECK (implb (length result =? 0) (negb (sign result))) ;;;
  ret result.

Definition MakeImmutable (result : BigInt) : HM BigInt := Canonicalize result.

Definition Zero : HM BigInt :=
  let* z := ToHandleChecked (New 0) in MakeImmutable z.

Definition kMinInt : Z := - 2 ^ 31.

Definition NewFromInt (value : Z) : HM BigInt :=
  if value =? 0 then Zero
  else
    let* D := NewBigInt 1 in
    let sign := value <? 0 in
    let result := mkBigInt sign D in
    (if negb sign then set_digit result 0 (digit_t value)
     else if value =? kMinInt then set_digit result 0 (digit_t (digit_t kMaxInt + 1))
     else set_digit result 0 (digit_t (- value))) ;;;
    MakeImmutable result.

(** The digits are copied and the sign is not: it is stored before them. *)
Definition MutableBigInt_Copy (source : BigInt) : HM BigInt :=
  let len := length source in
  let* result := ToHandleChecked (New len) in
  for_up 0 len (copy_at (digits result) (digits source)) tt ;;;
  ret result.

Definition UnaryMinus (x : BigInt) : HM BigInt :=
  if is_zero x then ret x
  else
    let* result := MutableBigInt_Copy x in
    MakeImmutable (set_sign result (negb (sign x))).

End Objects.

(** ** Addition and subtraction *)

Module BigInt.
Section BigInt.
Context {T : DigitTarget}.
Local Abbreviation HM := (M Heap).

Definition Add (x y : BigInt) : HM (MaybeHandle BigInt) :=
  if is_zero x then ret (inl y)
  else if is_zero y then ret (inl x)
  else
    let xsign := sign x in
    let ysign := sign y in
    let result_length := AddSignedResultLength (length x) (length y) (Bool.eqb xsign ysign) in
    let? result := New result_length in
    let* result_sign := AddSigned (digits result) (digits x) xsign (digits y) ysign in
    let* r := MakeImmutable (set_sign result result_sign) in
    ret (inl r).

Definition Subtract (x y : BigInt) : HM (MaybeHandle BigInt) :=
  if is_zero y then ret (inl x)
  else if is_zero x then let* r := UnaryMinus y in ret (inl r)
  else
    let xsign := sign x in
    let ysign := sign y in
    let result_length := SubtractSignedResultLength (length x) (length y) (Bool.eqb xsign ysign) in
    let? result := New result_length in
    let* result_sign := SubtractSigned (digits result) (digits x) xsign (digits y) ysign in
    let* r := MakeImmutable (set_sign result result_sign) in
    ret (inl r).

(** [result_storage] is the object to reuse, if any. *)
Definition AbsoluteAddOne (x : BigInt) (sign : bool) (result_storage : option BigInt)
    : HM (MaybeHandle BigInt) :=
  let input_length := length x in
  let* will_overflow :=
    loop (S (Z.to_nat input_length))
      (fun i =>
         if i <? input_length then
           let* d := digit x i in
           ret (if negb (digit_ismax d) then inr false else inl (i + 1))
         else ret (inr true))
      0 in
  let result_length := input_length + (if will_overflow : bool then 1 else 0) in
  let? result :=
    match result_storage with
    | None => New result_length
    | Some result => DCHECK (length result =? result_length) ;;; ret (inl result)
    end in
  (if input_length =? 0 then set_digit result 0 1
   else if (input_length =? 1) && negb will_overflow then
     let* d := digit x 0 in set_digit result 0 (digit_t (d + 1))
   else AddOne (digits result) (digits x)) ;;;
  ret (inl (set_sign result sign)).

Definition AbsoluteSubOne (x : BigInt) : HM BigInt :=
  DCHECK (negb (is_zero x)) ;;;
  let* result := ToHandleChecked (New (length x)) in
  (if length x =? 1 then
     let* d := digit x 0 in set_digit result 0 (digit_t (d - 1))
   else SubtractOne (digits result) (digits x)) ;;;
  ret result.

(** [MakeImmutable] of a [MaybeHandle]. *)
Definition MakeImmutableMaybe (m : HM (MaybeHandle BigInt)) : HM (MaybeHandle BigInt) :=
  let? result := m in
  let* r := MakeImmutable result in ret (inl r).

Definition BitwiseNot (x : BigInt) : HM (MaybeHandle BigInt) :=
  MakeImmutableMaybe
    (if sign x then let* r := AbsoluteSubOne x in ret (inl r) else AbsoluteAddOne x true None).

Definition Increment (x : BigInt) : HM (MaybeHandle BigInt) :=
  if sign x then
    let* result := AbsoluteSubOne x in
    let* r := MakeImmutable (set_sign result true) in ret (inl r)
  else MakeImmutableMaybe (AbsoluteAddOne x false None).

Definition Decrement (x : BigInt) : HM (MaybeHandle BigInt) :=
  if sign x then MakeImmutableMaybe (AbsoluteAddOne x true None)
  else if is_zero x then let* r := NewFromInt (-1) in ret (inl r)
  else MakeImmutableMaybe (let* r := AbsoluteSubOne x in ret (inl r)).

(** ** Comparison *)

Definition UnequalSign (left_negative : bool) : ComparisonResult :=
  if left_negative then kLessThan else kGreaterThan.
Definition AbsoluteGreater (both_negative : bool) : ComparisonResult :=
  if both_negative then kLessThan else kGreaterThan.
Definition AbsoluteLess (both_negative : bool) : ComparisonResult :=
  if both_negative then kGreaterThan else kLessThan.

Definition CompareToBigInt (x y : BigInt) : HM ComparisonResult :=
  let x_sign := sign x in
  if negb (Bool.eqb x_sign (sign y)) then ret (UnequalSign x_sign)
  else
    let* result := Compare (digits x) (digits y) in
    if 0 <? result then ret (AbsoluteGreater x_sign)
    else if result <? 0 then ret (AbsoluteLess x_sign)
    else ret kEqual.

Definition EqualToBigInt (x y : BigInt) : HM bool :=
  if negb (Bool.eqb (sign x) (sign y)) then ret false
  else if negb (length x =? length y) then ret false
  else
    loop (S (Z.to_nat (length x)))
      (fun i =>
         if i <? length x then
           let* a := digit x i in
           let* b := digit y i in
           ret (if negb (a =? b) then inr false else inl (i + 1))
         else ret (inr true))
      0.

(** ** Bitwise operations *)

Definition BitwiseAnd (x y : BigInt) : HM (MaybeHandle BigInt) :=
  let x_sign := sign x in
  let y_sign := sign y in
  let? result :=
    (if negb x_sign && negb y_sign then
       let result_length := BitwiseAnd_PosPos_ResultLength (length x) (length y) in
       let* result := ToHandleChecked (New result_length) in
       BitwiseAnd_PosPos (digits result) (digits x) (digits y) ;;;
       DCHECK (negb (sign result)) ;;; ret (inl result)
     else if x_sign && y_sign then
       let result_length := BitwiseAnd_NegNeg_ResultLength (length x) (length y) in
       let? result := New result_length in
       BitwiseAnd_NegNeg (digits result) (digits x) (digits y) ;;;
       ret (inl (set_sign result true))
     else
       let '(x, y) := if x_sign then (y, x) else (x, y) in
       let result_length := BitwiseAnd_PosNeg_ResultLength (length x) in
       let* result := ToHandleChecked (New result_length) in
       BitwiseAnd_PosNeg (digits result) (digits x) (digits y) ;;;
       DCHECK (negb (sign result)) ;;; ret (inl result)) in
  let* r := MakeImmutable result in ret (inl r).

Definition BitwiseXor (x y : BigInt) : HM (MaybeHandle BigInt) :=
  let x_sign := sign x in
  let y_sign := sign y in
  let? result :=
    (if negb x_sign && negb y_sign then
       let result_length := BitwiseXor_PosPos_ResultLength (length x) (length y) in
       let* result := ToHandleChecked (New result_length) in
       BitwiseXor_PosPos (digits result) (digits x) (digits y) ;;;
       DCHECK (negb (sign result)) ;;; ret (inl result)
     else if x_sign && y_sign then
       let result_length := BitwiseXor_NegNeg_ResultLength (length x) (length y) in
       let* result := ToHandleChecked (New result_length) in
       BitwiseXor_NegNeg (digits result) (digits x) (digits y) ;;;
       DCHECK (negb (sign result)) ;;; ret (inl result)
     else
       let '(x, y) := if x_sign then (y, x) else (x, y) in
       let result_length := BitwiseXor_PosNeg_ResultLength (length x) (length y) in
       let? result := New result_length in
       BitwiseXor_PosNeg (digits result) (digits x) (digits y) ;;;
       ret (inl (set_sign result true))) in
  let* r := MakeImmutable result in ret (inl r).

Definition BitwiseOr (x y : BigInt) : HM (MaybeHandle BigInt) :=
  let x_sign := sign x in
  let y_sign := sign y in
  let result_length := BitwiseOrResultLength (length x) (length y) in
  let* result := ToHandleChecked (New result_length) in
  let* result :=
    (if negb x_sign && negb y_sign then
       BitwiseOr_PosPos (digits result) (digits x) (digits y) ;;;
       DCHECK (negb (sign result)) ;;; ret result
     else if x_sign && y_sign then
       BitwiseOr_NegNeg (digits result) (digits x) (digits y) ;;;
       ret (set_sign result true)
     else
       let '(x, y) := if x_sign then (y, x) else (x, y) in
       BitwiseOr_PosNeg (digits result) (digits x) (digits y) ;;;
       ret (set_sign result true)) in
  let* r := MakeImmutable result in ret (inl r).

(** ** Shifts *)

Definition ToShiftAmount (x : BigInt) : HM (option Z) :=
  if 1 <? length x then ret None
  else
    let* value := digit x 0 in
    ret (if kMaxLengthBits <? value then None else Some value).

Definition LeftShiftByAbsolute (x y : BigInt) : HM (MaybeHandle BigInt) :=
  let* maybe_shift := ToShiftAmount y in
  match maybe_shift with
  | None => ThrowBigIntTooBig
  | Some shift =>
      let* top := digit x (length x - 1) in
      let result_length := LeftShift_ResultLength (length x) top shift in
      if kMaxLength <? result_length then ThrowBigIntTooBig
      else
        let? result := New result_length in
        LeftShift (digits result) (digits x) shift ;;;
        let* r := MakeImmutable (set_sign result (sign x)) in ret (inl r)
  end.

Definition RightShiftByMaximum (sign : bool) : HM BigInt :=
  if sign then NewFromInt (-1) else Zero.

Definition RightShiftByAbsolute (x y : BigInt) : HM BigInt :=
  let sign := sign x in
  let* maybe_shift := ToShiftAmount y in
  match maybe_shift with
  | None => RightShiftByMaximum sign
  | Some shift =>
      let* (result_length, must_round_down) := RightShift_ResultLength (digits x) sign shift in
      DCHECK (result_length <=? length x) ;;;
      if result_length <=? 0 then RightShiftByMaximum sign
      else
        let* result := ToHandleChecked (New result_length) in
        RightShift (digits result) (digits x) shift must_round_down ;;;
        MakeImmutable (if sign then set_sign result true else result)
  end.

(** [BigInt::LeftShift]. *)
Definition LeftShift (x y : BigInt) : HM (MaybeHandle BigInt) :=
  if is_zero y || is_zero x then ret (inl x)
  else if sign y then let* r := RightShiftByAbsolute x y in ret (inl r)
  else LeftShiftByAbsolute x y.

Definition SignedRightShift (x y : BigInt) : HM (MaybeHandle BigInt) :=
  if is_zero y || is_zero x then ret (inl x)
  else if sign y then LeftShiftByAbsolute x y
  else let* r := RightShiftByAbsolute x y in ret (inl r).

Definition UnsignedRightShift (x y : BigInt) : HM (MaybeHandle BigInt) := ret (inr kBigIntShr).

(** ** Truncation *)

(** [n] is a [uint64_t]; [static_cast<int>(n)] is exact behind the checks. *)
Definition AsIntN (n : Z) (x : BigInt) : HM BigInt :=
  if is_zero x || (kMaxLengthBits <? n) then ret x
  else if n =? 0 then Zero
  else
    let* needed_length := AsIntNResultLength (digits x) (sign x) (int32 n) in
    if needed_length =? -1 then ret x
    else
      let* result := ToHandleChecked (New needed_length) in
      let* negative := AsIntN (digits result) (digits x) (sign x) (int32 n) in
      MakeImmutable (set_sign result negative).

Definition AsUintN (n : Z) (x : BigInt) : HM (MaybeHandle BigInt) :=
  if is_zero x then ret (inl x)
  else if n =? 0 then let* z := Zero in ret (inl z)
  else if sign x then
    if kMaxLengthBits <? n then ThrowBigIntTooBig
    else
      let result_length := AsUintN_Neg_ResultLength (int32 n) in
      let* result := ToHandleChecked (New result_length) in
      AsUintN_Neg (digits result) (digits x) (int32 n) ;;;
      DCHECK (negb (sign result)) ;;;
      let* r := MakeImmutable result in ret (inl r)
  else if kMaxLengthBits <=? n then ret (inl x)
  else
    let* result_length := AsUintN_Pos_ResultLength (digits x) (int32 n) in
    if result_length <? 0 then ret (inl x)
    else
      let* result := ToHandleChecked (New result_length) in
      AsUintN_Pos (digits result) (digits x) (int32 n) ;;;
      DCHECK (negb (sign result)) ;;;
      let* r := MakeImmutable result in ret (inl r).

(** ** Words of 64 bits *)

Definition set_64_bits (x : BigInt) (bits : Z) : HM unit :=
  if kDigitBits =? 64 then set_digit x 0 (digit_t bits)
  else
    set_digit x 0 (digit_t (Z.land bits 0xFFFFFFFF)) ;;;
    set_digit x 1 (digit_t (Z.shiftr bits 32)).

Definition int64 (z : Z) : Z := let w := uint64 z in if w <? 2 ^ 63 then w else w - 2 ^ 64.

Definition FromInt64 (n : Z) : HM BigInt :=
  if n =? 0 then Zero
  else
    let len := 64 / kDigitBits in
    let* D := NewBigInt len in
    let sign := n <? 0 in
    let result := mkBigInt sign D in
    let absolute :=
      (if negb sign then uint64 n
       else if n =? - 2 ^ 63 then uint64 (uint64 (2 ^ 63 - 1) + 1)
       else uint64 (- n)) in
    set_64_bits result absolute ;;;
    MakeImmutable result.

Definition FromUint64 (n : Z) : HM BigInt :=
  if n =? 0 then Zero
  else
    let len := 64 / kDigitBits in
    let* D := NewBigInt len in
    let result := mkBigInt false D in
    set_64_bits result n ;;;
    MakeImmutable result.

Definition word (words : list Z) (i : Z) : HM Z :=
  if i <? 0 then undefined
  else match words !! Z.to_nat i with Some w => ret w | None => undefined end.

Definition FromWords64 (sign_bit : bool) (words64_count : Z) (words : list Z)
    : HM (MaybeHandle BigInt) :=
  if (words64_count <? 0) || (kMaxLength / (64 / kDigitBits) <? words64_count) then ThrowBigIntTooBig
  else if words64_count =? 0 then let* z := Zero in ret (inl z)
  else
    let len := 64 / kDigitBits * words64_count in
    DCHECK (0 <? len) ;;;
    let* drop_last :=
      (if kDigitBits =? 32 then
         let* top := word words (words64_count - 1) in ret (top <=? Z.shiftl 1 32)
       else ret false) in
    let len := (if drop_last : bool then len - 1 else len) in
    let? result := New len in
    let result := set_sign result sign_bit in
    (if kDigitBits =? 64 then
       for_up 0 len (fun i _ => let* w := word words i in set_digit result i (digit_t w)) tt
     else
       loop (S (Z.to_nat len))
         (fun i =>
            if i <? len then
              let* w := word words (i / 2) in
              set_digit result i (digit_t w) ;;;
              (if i + 1 <? len then set_digit result (i + 1) (digit_t (Z.shiftr w 32)) else ret tt) ;;;
              ret (inl (i + 2))
            else ret (inr tt))
         0) ;;;
    let* r := MakeImmutable result in ret (inl r).

Definition Words64Count (x : BigInt) : Z :=
  length x / (64 / kDigitBits) + (if (kDigitBits =? 32) && (length x mod 2 =? 1) then 1 else 0).

(** Gives back the sign bit, the number of words and the array. *)
Definition ToWordsArray64 (x : BigInt) (words64_count : Z) (words : list Z) : HM (bool * Z * list Z) :=
  let available_words := words64_count in
  let words64_count := Words64Count x in
  if available_words =? 0 then ret (sign x, words64_count, words)
  else
    let len := length x in
    let store_word words i w :=
      (if (0 <=? i) && (i <? Z.of_nat (List.length words)) then ret (<[Z.to_nat i := w]> words) else undefined) in
    let* words :=
      (if kDigitBits =? 64 then
         for_up 0 (Z.min len available_words)
           (fun i words => let* d := digit x i in store_word words i d) words
       else
         loop (S (Z.to_nat len))
           (fun '(i, available_words, words) =>
              if (i <? len) && (0 <? available_words) then
                let* lo := digit x i in
                let* hi := (if i + 1 <? len then digit x (i + 1) else ret 0) in
                let* words := store_word words (i / 2) (Z.lor lo (uint64 (Z.shiftl hi 32))) in
                ret (inl (i + 2, available_words - 1, words))
              else ret (inr words))
           (0, available_words, words)) in
    ret (sign x, words64_count, words).

(** The low 64 bits in two's complement, and whether they are all. *)
Definition GetRawBits (x : BigInt) : HM (Z * bool) :=
  if is_zero x then ret (0, true)
  else
    let len := length x in
    let lossless := negb (64 / kDigitBits <? len) in
    let* d0 := digit x 0 in
    let raw := uint64 d0 in
    let* raw :=
      (if (kDigitBits =? 32) && (1 <? len) then
         let* d1 := digit x 1 in ret (Z.lor raw (uint64 (Z.shiftl (uint64 d1) 32)))
       else ret raw) in
    ret (if sign x then uint64 (uint64 (Z.lnot raw) + 1) else raw, lossless).

Definition AsInt64 (x : BigInt) : HM (Z * bool) :=
  let* (raw, lossless) := GetRawBits x in
  let result := int64 raw in
  ret (result, if negb (Bool.eqb (result <? 0) (sign x)) then false else lossless).

Definition AsUint64 (x : BigInt) : HM (Z * bool) :=
  let* (result, lossless) := GetRawBits x in
  ret (result, if sign x then false else lossless).

End BigInt.
End BigInt.
