(* ===== verification/BigIntQuiet.v ===== *)
(** * Operations that ask nothing

    The operations on BigInts other than products, powers, quotients and
    remainders do not run on the processor: they leave its state alone. *)

From stdpp Require Import base list numbers.
From Stdlib Require Import ZArith Lia Bool.
From S2P Require Import Prelude.
From S2P Require Import BigIntDigits.
From S2P Require Import BigIntVectors.
From S2P Require Import BigIntShift.
From S2P Require Import BigIntBitwise.
From S2P Require Import BigIntObjects.

Local Open Scope Z_scope.
Local Open Scope prog_scope.

Section Steps.
Context {T : DigitTarget}.
Local Abbreviation HM := (M Heap).

Definition quiet {A} (m : HM A) : Prop := keeps proc m.

Lemma quiet_undefined {A} : quiet (@undefined Heap A).
Proof. by intros h a h'. Qed.

Lemma quiet_out_of_fuel {A} : quiet (fun _ => @OutOfFuel (A * Heap)).
Proof. by intros h a h'. Qed.

Lemma quiet_get D i : quiet (get D i).
Proof. unfold get. destruct (_ && _); [apply keeps_gets|apply quiet_undefined]. Qed.

Lemma quiet_set D i v : quiet (set D i v).
Proof. unfold set. destruct (_ && _); [by apply keeps_modify|apply quiet_undefined]. Qed.

Lemma quiet_DCHECK b : quiet (DCHECK b).
Proof. destruct b; [apply keeps_ret|apply quiet_undefined]. Qed.

Lemma quiet_NewBigInt len : quiet (NewBigInt len).
Proof.
  apply keeps_bind; [apply keeps_gets|]. intros base. apply keeps_bind; [by apply keeps_modify|].
  intros _. apply keeps_ret.
Qed.

Lemma quiet_bind {A B} (m : HM A) (k : A -> HM B) : quiet m -> (forall a, quiet (k a)) -> quiet (bind m k).
Proof. apply keeps_bind. Qed.

Lemma quiet_for_loop {A} n step i (body : Z -> A -> HM A) a :
  (forall i a, quiet (body i a)) -> quiet (for_loop n step i body a).
Proof.
  intros Hb. revert i a. induction n as [|n IH]; intros i a; cbn [for_loop]; [apply keeps_ret|].
  apply keeps_bind; [apply Hb|intros a1; apply IH].
Qed.

Lemma quiet_loop {A B} fuel (body : A -> HM (A + B)) a : (forall a, quiet (body a)) -> quiet (loop fuel body a).
Proof. apply keeps_loop. Qed.

Lemma quiet_ret {A} (a : A) : quiet (ret a : HM A).
Proof. apply keeps_ret. Qed.

Lemma quiet_gets {A} (f : Heap -> A) : quiet (gets f).
Proof. apply keeps_gets. Qed.

Lemma wp_quiet {A} (m : HM A) Q h : quiet m -> wp m Q h -> wp m (fun a h' => Q a h' /\ proc h' = proc h) h.
Proof. apply wp_keeps. Qed.

End Steps.

Create HintDb quiet discriminated.
#[export] Hint Resolve quiet_undefined quiet_out_of_fuel quiet_get quiet_set quiet_DCHECK quiet_NewBigInt
  quiet_ret quiet_gets : quiet.

(** Follows the structure of a program, into the operations it calls. *)
Ltac quiet_step :=
  lazymatch goal with
  | |- forall _, _ => intro
  | |- quiet (let '_ := ?x in _) => destruct x
  | |- quiet (match ?x with _ => _ end) => destruct x
  | |- quiet (bind _ _) => apply quiet_bind
  | |- quiet (for_loop _ _ _ _ _) => apply quiet_for_loop
  | |- quiet (loop _ _ _) => apply quiet_loop
  | |- quiet ?m => first [solve [auto with quiet] | let f := head_of m in progress unfold f]
  end.
Ltac quiet_tac := repeat (cbv beta zeta; quiet_step).

Section Objects.
Context {T : DigitTarget}.

Lemma quiet_MakeImmutable x : quiet (MakeImmutable x).
Proof. quiet_tac. Qed.
#[local] Hint Resolve quiet_MakeImmutable : quiet.

Lemma quiet_Zero : quiet Zero.
Proof. quiet_tac. Qed.

Lemma quiet_NewFromInt v : quiet (NewFromInt v).
Proof. quiet_tac. Qed.

Lemma quiet_UnaryMinus x : quiet (UnaryMinus x).
Proof. quiet_tac. Qed.
#[local] Hint Resolve quiet_Zero quiet_NewFromInt quiet_UnaryMinus : quiet.

Lemma quiet_FromInt64 n : quiet (BigInt.FromInt64 n).
Proof. quiet_tac. Qed.

Lemma quiet_Add x y : quiet (BigInt.Add x y).
Proof. quiet_tac. Qed.

Lemma quiet_Subtract x y : quiet (BigInt.Subtract x y).
Proof. quiet_tac. Qed.

Lemma quiet_AbsoluteAddOne x s r : quiet (BigInt.AbsoluteAddOne x s r).
Proof. quiet_tac. Qed.

Lemma quiet_AbsoluteSubOne x : quiet (BigInt.AbsoluteSubOne x).
Proof. quiet_tac. Qed.
#[local] Hint Resolve quiet_AbsoluteAddOne quiet_AbsoluteSubOne : quiet.

Lemma quiet_BitwiseNot x : quiet (BigInt.BitwiseNot x).
Proof. quiet_tac. Qed.

Lemma quiet_Increment x : quiet (BigInt.Increment x).
Proof. quiet_tac. Qed.

Lemma quiet_Decrement x : quiet (BigInt.Decrement x).
Proof. quiet_tac. Qed.

Lemma quiet_BitwiseAnd x y : quiet (BigInt.BitwiseAnd x y).
Proof. quiet_tac. Qed.

Lemma quiet_BitwiseOr x y : quiet (BigInt.BitwiseOr x y).
Proof. quiet_tac. Qed.

Lemma quiet_BitwiseXor x y : quiet (BigInt.BitwiseXor x y).
Proof. quiet_tac. Qed.

Lemma quiet_LeftShiftByAbsolute x y : quiet (BigInt.LeftShiftByAbsolute x y).
Proof. quiet_tac. Qed.

Lemma quiet_RightShiftByAbsolute x y : quiet (BigInt.RightShiftByAbsolute x y).
Proof. quiet_tac. Qed.
#[local] Hint Resolve quiet_LeftShiftByAbsolute quiet_RightShiftByAbsolute : quiet.

Lemma quiet_LeftShift x y : quiet (BigInt.LeftShift x y).
Proof. quiet_tac. Qed.

Lemma quiet_SignedRightShift x y : quiet (BigInt.SignedRightShift x y).
Proof. quiet_tac. Qed.

Lemma quiet_AsIntN n x : quiet (BigInt.AsIntN n x).
Proof. quiet_tac. Qed.

Lemma quiet_AsUintN n x : quiet (BigInt.AsUintN n x).
Proof. quiet_tac. Qed.

End Objects.

#[export] Hint Resolve quiet_MakeImmutable quiet_Zero quiet_NewFromInt quiet_UnaryMinus quiet_FromInt64 quiet_Add
  quiet_Subtract quiet_BitwiseNot quiet_Increment quiet_Decrement quiet_BitwiseAnd quiet_BitwiseOr quiet_BitwiseXor
  quiet_LeftShift quiet_SignedRightShift quiet_AsIntN quiet_AsUintN : quiet.
