(* ===== verification/BigIntObjectsSpec.v ===== *)
(** * Correctness of the operations on BigInt objects

    A BigInt denotes an integer. Each operation gives back a canonical BigInt
    that denotes the integer the language asks for, or throws when the result
    might be too long, and leaves every BigInt that existed before as it was. *)

From stdpp Require Import base list numbers.
From Stdlib Require Import ZArith Lia Bool.
From S2P Require Import Prelude.
From S2P Require Import BigIntDigits.
From S2P Require Import BigIntVectors.
From S2P Require Import BigIntMemory.
From S2P Require Import BigIntArithmetic.
From S2P Require Import BigIntMul.
From S2P Require Import BigIntShift.
From S2P Require Import BigIntBitwise.
From S2P Require Import BigIntBitwiseSpec.
From S2P Require Import BigIntTruncateSpec.
From S2P Require Import BigIntObjects.

Local Open Scope Z_scope.
Local Open Scope prog_scope.

Section ObjectsSpec.
Context {T : DigitTarget} {TOK : DigitTargetOK T}.

(** ** BigInts in memory *)

(** The integer a BigInt denotes. *)
Definition number (h : Heap) (x : BigInt) : Z := signed (sign x) (value h (digits x)).

(** Canonical form: no leading zero digit, no negative zero. *)
Record bigint_ok (h : Heap) (x : BigInt) : Prop := {
  bi_normal : is_normalized h (digits x);
  bi_length : length x <= kMaxLength;
  bi_zero : length x = 0 -> sign x = false;
  bi_below : digits_ (digits x) + length x <= free h
}.

(** [h'] is [h] with more BigInts in it. *)
Record extends (h h' : Heap) : Prop := {
  ext_ok : heap_ok h';
  ext_free : free h <= free h';
  ext_cells : forall a, a < free h -> cell h' a = cell h a
}.

(** A run from [h] that ends in [h'] with a BigInt that denotes [V]. *)
Record computed (h h' : Heap) (z : BigInt) (V : Z) : Prop := {
  comp_extends : extends h h';
  comp_ok : bigint_ok h' z;
  comp_number : number h' z = V
}.

(** What an operation that may find its result too long does. *)
Definition outcome (too_big : bool) (V : Z) (h : Heap) (r : MaybeHandle BigInt) (h' : Heap) : Prop :=
  if too_big return Prop then r = inr kBigIntTooBig /\ h' = h
  else exists z, r = inl z /\ computed h h' z V.

Lemma extends_refl h : heap_ok h -> extends h h.
Proof. by constructor. Qed.

Lemma computed_self h x : heap_ok h -> bigint_ok h x -> computed h h x (number h x).
Proof. intros. constructor; [by apply extends_refl|done|done]. Qed.

(** Digits below [free] are read the same in the longer memory. *)
Lemma extends_sum h h' D n :
  extends h h' -> digits_ D + n <= free h -> sum (cell h') (digits_ D) n = sum (cell h) (digits_ D) n.
Proof. intros [] H. apply sum_ext. intros i Hi. apply ext_cells0. lia. Qed.

Lemma extends_bigint h h' x : extends h h' -> bigint_ok h x -> bigint_ok h' x /\ number h' x = number h x.
Proof.
  intros He [Hn Hl Hz Hb]. pose proof He as [Hok Hf Hc]. split.
  - constructor; [|done|done|lia]. destruct Hn as [H0 Hm]. split; [done|]. intros H. rewrite Hc; [auto|].
    unfold length in *. lia.
  - unfold number. f_equal. by apply extends_sum.
Qed.

Lemma zero_number h x : bigint_ok h x -> is_zero x = true -> number h x = 0.
Proof.
  intros [] Hz. apply Z.eqb_eq in Hz. unfold number. rewrite bi_zero0 by done. cbn.
  apply value_empty. unfold length in Hz. lia.
Qed.

Lemma bigint_pos h x : heap_ok h -> bigint_ok h x -> is_zero x = false -> 0 < value h (digits x).
Proof.
  intros Hok [[H0 Hn] _ _ _] Hz. apply Z.eqb_neq in Hz. unfold length in *.
  pose proof (normal_lower h (digits x) 0 Hok (conj H0 Hn)). rewrite Z.pow_0_r in *. lia.
Qed.

Lemma bigint_lengths h x : bigint_ok h x -> 0 <= length x <= kMaxLength.
Proof. intros [[H0 _] H1 _ _]. done. Qed.

Lemma sign_nonzero h x : bigint_ok h x -> sign x = true -> is_zero x = false.
Proof. intros [] Hs. apply Z.eqb_neq. intros E. rewrite bi_zero0 in Hs by done. done. Qed.

(** ** Allocation *)

Definition alloc (h : Heap) (len : Z) : Heap := mkHeap (cell h) (free h + len) (proc h).

Lemma alloc_extends h len : heap_ok h -> 0 <= len -> extends h (alloc h len).
Proof. intros. constructor; [done|cbn; lia|done]. Qed.

Lemma wp_NewBigInt h len (Q : Digits -> Heap -> Prop) :
  Q (mkDigits (free h) len) (alloc h len) -> wp (NewBigInt len) Q h.
Proof. intros. unfold NewBigInt. apply wp_bind, wp_gets, wp_bind, wp_modify, wp_ret. done. Qed.

Lemma wp_New h len (Q : MaybeHandle BigInt -> Heap -> Prop) :
  (len <= kMaxLength -> Q (inl (mkBigInt false (mkDigits (free h) len))) (alloc h len)) ->
  (kMaxLength < len -> Q (inr kBigIntTooBig) h) ->
  wp (New len) Q h.
Proof.
  intros H1 H2. unfold New. destruct (Z.ltb_spec kMaxLength len).
  - apply wp_ret. auto.
  - apply wp_bind, wp_NewBigInt, wp_ret. auto.
Qed.

Lemma wp_New_checked h len (Q : BigInt -> Heap -> Prop) :
  len <= kMaxLength -> Q (mkBigInt false (mkDigits (free h) len)) (alloc h len) ->
  wp (ToHandleChecked (New len)) Q h.
Proof.
  intros H HQ. unfold ToHandleChecked. apply wp_bind, wp_New; [|lia]. intros _. by apply wp_ret.
Qed.

(** New digits share no place with those of an operand. *)
Lemma fresh_disjoint h len x : bigint_ok h x -> disjoint (mkDigits (free h) len) (digits x).
Proof. intros []. right. done. Qed.

Lemma fresh_in_order h len x : bigint_ok h x -> in_order (mkDigits (free h) len) (digits x).
Proof. intros []. right. done. Qed.

(** ** Canonical form *)

Lemma wp_maybe {A B} (m : M Heap (MaybeHandle A)) (k : A -> M Heap (MaybeHandle B)) Q h :
  wp m (fun r h' => match r with inl a => wp (k a) Q h' | inr e => Q (inr e) h' end) h ->
  wp (maybe m k) Q h.
Proof.
  intros H. apply wp_bind. eapply wp_mono; [exact H|]. intros [a|e] h' H'; [done|by apply wp_ret].
Qed.

Lemma MakeImmutable_spec h r :
  heap_ok h -> 0 <= length r <= kMaxLength -> (length r = 0 -> sign r = false) ->
  digits_ (digits r) + length r <= free h ->
  wp (MakeImmutable r) (fun z h' => h' = h /\ bigint_ok h z /\ number h z = number h r) h.
Proof.
  intros Hok Hl Hs Hb. unfold MakeImmutable, Canonicalize, digit. apply wp_bind.
  set (P := digits_ (digits r)) in *.
  eapply wp_mono; [apply (wp_loop
    (fun n h' => h' = h /\ 0 <= n <= length r /\ sum (cell h) P n = value h (digits r))
    (fun n _ => Z.to_nat n)) with (Q := fun n h' => h' = h /\ 0 <= n <= length r /\
       sum (cell h) P n = value h (digits r) /\ (0 < n -> cell h (P + (n - 1)) <> 0))|].
  - intros n h' (-> & Hn & Hv). destruct (Z.ltb_spec 0 n) as [H|H]; [|by apply wp_ret; split; [|lia]].
    apply wp_bind, wp_get; [unfold length in Hn; lia|]. apply wp_ret. fold P.
    destruct (Z.eqb_spec (cell h (P + (n - 1))) 0) as [E|E]; [|done].
    split; [|lia]. split; [done|]. split; [lia|]. rewrite <- Hv, (sum_pred _ _ n), E by lia. lia.
  - by repeat split; lia.
  - lia.
  - intros n h' (-> & Hn & Hv & Hm). cbn beta.
    set (z := if negb (length r - n =? 0) then _ else _).
    assert (Ez : z = mkBigInt (if n =? 0 then false else sign r) (mkDigits P n)).
    { subst z. destruct (Z.eqb_spec (length r - n) 0) as [E|E]; cbn [negb].
      - replace n with (length r) by lia. destruct (Z.eqb_spec (length r) 0).
        + rewrite <- Hs by done. by destruct r as [? []].
        + by destruct r as [? []].
      - by destruct (Z.eqb_spec n 0). }
    clearbody z. subst z. unfold length at 1 2. cbn [digits len_].
    apply wp_bind. eapply (wp_mono _ (fun _ h' => h' = h)).
    { destruct (Z.ltb_spec 0 n); [|by apply wp_ret].
      apply wp_bind, wp_get; [cbn; lia|]. apply wp_DCHECK; [by apply negb_true_iff, Z.eqb_neq, Hm|done]. }
    intros [] h' ->. apply wp_bind, wp_DCHECK.
    { unfold length. cbn. by destruct (n =? 0), (sign r). }
    apply wp_ret. split; [done|]. split.
    + constructor; unfold length in *; cbn.
      * split; [cbn; lia|done].
      * lia.
      * intros ->. done.
      * fold P. lia.
    + unfold number. cbn [sign digits]. unfold value at 1. cbn [digits_ len_]. rewrite Hv.
      destruct (Z.eqb_spec n 0) as [->|]; [|done]. rewrite <- Hv, sum_0. by destruct (sign r).
Qed.

Lemma wrote_extends h h2 len :
  0 <= len -> wrote (alloc h len) h2 (mkDigits (free h) len) len -> extends h h2.
Proof.
  intros Hl [Hok Hf Hr]. cbn in Hf. constructor; [done|lia|]. intros a Ha. rewrite Hr; [done|]. cbn. lia.
Qed.

(** The end of an operation that has written its result into new digits. *)
Lemma finish_spec h h2 len s V :
  0 <= len <= kMaxLength -> wrote (alloc h len) h2 (mkDigits (free h) len) len -> (len = 0 -> s = false) ->
  signed s (value h2 (mkDigits (free h) len)) = V ->
  wp (MakeImmutable (mkBigInt s (mkDigits (free h) len))) (fun z h' => computed h h' z V) h2.
Proof.
  intros Hl Hw Hs HV. pose proof (wrote_extends _ _ _ (proj1 Hl) Hw) as He. destruct Hw as [Hok Hf _]. cbn in Hf.
  eapply wp_mono; [apply MakeImmutable_spec; unfold length; cbn; (done || lia)|].
  intros z h' (-> & Hz & En). constructor; [done|done|]. rewrite En. exact HV.
Qed.

Lemma finish_maybe_spec h h2 len s V :
  0 <= len <= kMaxLength -> wrote (alloc h len) h2 (mkDigits (free h) len) len -> (len = 0 -> s = false) ->
  signed s (value h2 (mkDigits (free h) len)) = V ->
  wp (let* r := MakeImmutable (mkBigInt s (mkDigits (free h) len)) in ret (inl r)) (outcome false V h) h2.
Proof.
  intros. apply wp_bind. eapply wp_mono; [by apply finish_spec|]. intros z h' Hz. apply wp_ret. by exists z.
Qed.

Lemma return_self h x V : heap_ok h -> bigint_ok h x -> V = number h x -> outcome false V h (inl x) h.
Proof. intros Hok Hx ->. exists x. split; [done|]. by apply computed_self. Qed.

Lemma kMaxLength_pos : 1 <= kMaxLength < kMaxInt.
Proof.
  unfold kMaxLength, kMaxLengthBits, kDigitBits. destruct TOK as [-> | ->]; vm_compute; split; congruence.
Qed.

Lemma Zero_spec h : heap_ok h -> wp Zero (fun z h' => computed h h' z 0) h.
Proof.
  intros Hok. pose proof kMaxLength_pos. unfold Zero. apply wp_bind, wp_New_checked; [lia|].
  apply finish_spec; [lia| |done|by rewrite value_empty]. constructor; [done|done|done].
Qed.

(** ** Addition and subtraction *)

Lemma UnaryMinus_spec h x :
  heap_ok h -> bigint_ok h x -> wp (UnaryMinus x) (fun z h' => computed h h' z (- number h x)) h.
Proof.
  intros Hok Hx. unfold UnaryMinus. pose proof (bigint_lengths _ _ Hx).
  destruct (is_zero x) eqn:Zx.
  { apply wp_ret. rewrite (zero_number h x) by done. change (- 0) with 0. rewrite <- (zero_number h x) by done.
    by apply computed_self. }
  apply Z.eqb_neq in Zx. apply wp_bind. unfold MutableBigInt_Copy. apply wp_bind, wp_New_checked; [lia|].
  apply wp_bind. cbn [digits].
  eapply wp_mono; [apply (copy_tail_spec (alloc h (length x)) _ _ _ 0 (length x) 0); unfold length in *; cbn;
    try (done || lia)|].
  - by apply fresh_in_order.
  - intros [] h2 Ha. apply wp_ret. unfold set_sign. cbn [digits]. destruct Ha as [Hw Hv].
    apply finish_spec; [lia|done|lia|]. unfold number, value, length in *. cbn [digits_ len_ cell alloc] in *.
    destruct (sign x); cbn [negb signed]; lia.
Qed.

(** A BigInt of one digit. *)
Lemma store_only h v :
  heap_ok h -> is_digit v ->
  wrote (alloc h 1) (store (alloc h 1) (free h) v) (mkDigits (free h) 1) 1 /\
  value (store (alloc h 1) (free h) v) (mkDigits (free h) 1) = v.
Proof.
  intros Hok Hv. split.
  - constructor; [|done|]; intros a; cbn.
    + destruct (a =? free h); [done|apply Hok].
    + intros Ha. destruct (Z.eqb_spec a (free h)); [lia|done].
  - unfold value. cbn [digits_ len_]. rewrite (sum_pred _ _ 1), sum_0 by lia. cbn.
    rewrite Z.add_0_r, Z.eqb_refl. lia.
Qed.

Lemma wp_set_only h v (Q : unit -> Heap -> Prop) :
  Q tt (store (alloc h 1) (free h) v) -> wp (set (mkDigits (free h) 1) 0 v) Q (alloc h 1).
Proof. intros H. apply wp_set; [cbn; lia|]. cbn. by rewrite Z.add_0_r. Qed.

Lemma NewFromInt_spec h v :
  heap_ok h -> - 2 ^ 31 <= v < 2 ^ 31 -> wp (NewFromInt v) (fun z h' => computed h h' z v) h.
Proof.
  intros Hok Hv. unfold NewFromInt. destruct (Z.eqb_spec v 0) as [->|Hne]; [by apply Zero_spec|].
  pose proof kMaxLength_pos. pose proof kBase_pos. apply wp_bind, wp_NewBigInt, wp_bind. unfold set_digit. cbn [digits].
  apply (wp_mono _ (fun _ h2 => h2 = store (alloc h 1) (free h) (Z.abs v))).
  { assert (E : forall d, d = Z.abs v ->
      wp (set (mkDigits (free h) 1) 0 d) (fun _ h2 => h2 = store (alloc h 1) (free h) (Z.abs v)) (alloc h 1))
      by (intros d ->; by apply wp_set_only).
    destruct (Z.ltb_spec v 0); cbn [negb]; [destruct (Z.eqb_spec v kMinInt)|]; apply E.
    - subst v. rewrite (digit_t_small kMaxInt), digit_t_small by (unfold kMaxInt, is_digit; lia). done.
    - rewrite digit_t_small by (unfold is_digit; lia). lia.
    - rewrite digit_t_small by (unfold is_digit; lia). lia. }
  intros [] h2 ->. destruct (store_only h (Z.abs v) Hok) as [Hw Ev]; [unfold is_digit; lia|].
  apply finish_spec; [lia|done|lia|]. rewrite Ev. destruct (Z.ltb_spec v 0); cbn; lia.
Qed.

Section Binary.
Context (h : Heap) (x y : BigInt).
Hypotheses (Hok : heap_ok h) (Hx : bigint_ok h x) (Hy : bigint_ok h y).

Lemma Add_object_spec :
  wp (BigInt.Add x y)
    (outcome
       (negb (is_zero x) && negb (is_zero y) &&
        (kMaxLength <? AddSignedResultLength (length x) (length y) (Bool.eqb (sign x) (sign y))))
       (number h x + number h y) h) h.
Proof.
  unfold BigInt.Add. pose proof (bigint_lengths _ _ Hx). pose proof (bigint_lengths _ _ Hy).
  destruct (is_zero x) eqn:Zx; cbn [negb andb].
  { apply wp_ret, return_self; [done|done|]. rewrite (zero_number h x); [lia|done|done]. }
  destruct (is_zero y) eqn:Zy; cbn [negb andb].
  { apply wp_ret, return_self; [done|done|]. rewrite (zero_number h y); [lia|done|done]. }
  apply Z.eqb_neq in Zx, Zy. set (len := AddSignedResultLength _ _ _).
  assert (Hlen : Z.max (length x) (length y) <= len /\
    (sign x = sign y -> AddResultLength (length x) (length y) <= len)).
  { subst len. unfold AddSignedResultLength, AddResultLength. destruct (sign x), (sign y); cbn; split; (lia || done). }
  destruct Hlen as [Hmax Hsame]. clearbody len. apply wp_maybe, wp_New; intros Hl.
  - rewrite (proj2 (Z.ltb_ge _ _)) by done. apply wp_bind. cbn [digits].
    eapply wp_mono; [apply (AddSigned_spec (alloc h len)); unfold length in *; cbn; try (done || lia)|].
    + by apply fresh_in_order.
    + by apply fresh_in_order.
    + intros E. apply sum_fits; [done|lia|lia|auto].
    + intros s h2 [Hw Hv]. unfold set_sign. cbn [digits]. apply finish_maybe_spec; (done || lia).
  - rewrite (proj2 (Z.ltb_lt _ _)) by done. done.
Qed.

Lemma Subtract_object_spec :
  wp (BigInt.Subtract x y)
    (outcome
       (negb (is_zero x) && negb (is_zero y) &&
        (kMaxLength <? SubtractSignedResultLength (length x) (length y) (Bool.eqb (sign x) (sign y))))
       (number h x - number h y) h) h.
Proof.
  unfold BigInt.Subtract. pose proof (bigint_lengths _ _ Hx). pose proof (bigint_lengths _ _ Hy).
  destruct (is_zero y) eqn:Zy; cbn [negb]; rewrite ?andb_false_r; cbn [andb].
  { apply wp_ret, return_self; [done|done|]. rewrite (zero_number h y); [lia|done|done]. }
  destruct (is_zero x) eqn:Zx; cbn [negb andb].
  { apply wp_bind. eapply wp_mono; [by apply UnaryMinus_spec|]. intros z h' Hz. apply wp_ret.
    exists z. split; [done|]. by rewrite (zero_number h x), Z.sub_0_l. }
  apply Z.eqb_neq in Zx, Zy. set (len := SubtractSignedResultLength _ _ _).
  assert (Hlen : Z.max (length x) (length y) <= len /\
    (sign x <> sign y -> AddResultLength (length x) (length y) <= len)).
  { subst len. unfold SubtractSignedResultLength, AddResultLength. destruct (sign x), (sign y); cbn; split; (lia || done). }
  destruct Hlen as [Hmax Hsame]. clearbody len. apply wp_maybe, wp_New; intros Hl.
  - rewrite (proj2 (Z.ltb_ge _ _)) by done. apply wp_bind. cbn [digits].
    eapply wp_mono; [apply (SubtractSigned_spec (alloc h len)); unfold length in *; cbn; try (done || lia)|].
    + by apply fresh_in_order.
    + by apply fresh_in_order.
    + intros E. apply sum_fits; [done|lia|lia|auto].
    + intros s h2 [Hw Hv]. unfold set_sign. cbn [digits]. apply finish_maybe_spec; (done || lia).
  - rewrite (proj2 (Z.ltb_lt _ _)) by done. done.
Qed.

End Binary.

(** ** Adding and subtracting one *)

Lemma value_one h D : len_ D = 1 -> value h D = cell h (digits_ D + 0).
Proof. intros E. unfold value. rewrite E, (sum_pred _ _ 1) by lia. change (1 - 1) with 0. rewrite sum_0, Z.pow_0_r. lia. Qed.

Lemma all_max_spec h x :
  heap_ok h -> 0 <= length x ->
  wp (loop (S (Z.to_nat (length x)))
        (fun i =>
           if i <? length x then
             let* d := digit x i in
             ret (if negb (digit_ismax d) then inr false else inl (i + 1))
           else ret (inr true)) 0)
    (fun b h' => h' = h /\ b = (value h (digits x) =? kBase ^ length x - 1)) h.
Proof.
  intros Hok Hl. apply (wp_loop
    (fun i h' => h' = h /\ 0 <= i <= length x /\ sum (cell h) (digits_ (digits x)) i = kBase ^ i - 1)
    (fun i _ => Z.to_nat (length x - i))); [|by repeat split; lia|lia].
  intros i h' (-> & Hi & Hs). unfold length, digit in *. destruct (Z.ltb_spec i (len_ (digits x))) as [H|H].
  - do 2 digit_step. digit_step. rewrite digit_ismax_spec by apply Hok.
    pose proof (kBase_pow_pos i ltac:(lia)). pose proof (Hok (digits_ (digits x) + i)) as Hd. unfold is_digit in Hd.
    assert (E1 : sum (cell h) (digits_ (digits x)) (i + 1) =
      kBase ^ i - 1 + cell h (digits_ (digits x) + i) * kBase ^ i) by (rewrite sum_succ; lia).
    destruct (Z.eqb_spec (cell h (digits_ (digits x) + i)) (kBase - 1)) as [E|E]; cbn [negb].
    + split; [|lia]. split; [done|]. split; [lia|]. rewrite E1, E, kBase_pow_succ by lia. lia.
    + split; [done|]. symmetry. apply Z.eqb_neq. unfold value.
      replace (len_ (digits x)) with (i + 1 + (len_ (digits x) - i - 1)) by lia.
      rewrite sum_split, (Z.pow_add_r kBase (i + 1)), E1, kBase_pow_succ by lia.
      pose proof (sum_range (cell h) (digits_ (digits x) + (i + 1)) (len_ (digits x) - i - 1) Hok ltac:(lia)) as Hr.
      set (rest := sum _ _ (len_ (digits x) - i - 1)) in *. set (d := cell h _) in *.
      set (M := kBase ^ (len_ (digits x) - i - 1)) in *. intros E2.
      assert (1 + d + kBase * rest < kBase * M) by nia. nia.
  - digit_step. split; [done|]. symmetry. apply Z.eqb_eq. unfold value. replace (len_ (digits x)) with i by lia. done.
Qed.

(** A result in new digits that is not canonical yet. *)
Record pending (h h' : Heap) (r : BigInt) (s : bool) (V : Z) : Prop := {
  pend_digits : r = mkBigInt s (mkDigits (free h) (length r));
  pend_length : 1 <= length r <= kMaxLength;
  pend_wrote : wrote (alloc h (length r)) h' (mkDigits (free h) (length r)) (length r);
  pend_value : value h' (mkDigits (free h) (length r)) = V
}.

Lemma finish_pending h h' r s V s' :
  pending h h' r s V -> wp (MakeImmutable (set_sign r s')) (fun z h'' => computed h h'' z (signed s' V)) h'.
Proof.
  intros [E Hl Hw Hv]. revert Hl Hw Hv. rewrite E. unfold set_sign, length. cbn [digits len_]. intros.
  apply finish_spec; [lia|done|lia|by rewrite Hv].
Qed.

Definition too_long (V : Z) : bool := kBase ^ kMaxLength <=? V.

Lemma AbsoluteAddOne_spec h x s :
  heap_ok h -> bigint_ok h x ->
  wp (BigInt.AbsoluteAddOne x s None)
    (fun r h' => if too_long (value h (digits x) + 1) return Prop then r = inr kBigIntTooBig /\ h' = h
       else exists z, r = inl z /\ pending h h' z s (value h (digits x) + 1)) h.
Proof.
  intros Hok Hx. pose proof (bigint_lengths _ _ Hx) as Hl. unfold BigInt.AbsoluteAddOne. apply wp_bind.
  eapply wp_mono; [apply all_max_spec; [done|lia]|]. intros b h' [-> ->].
  set (b := value h (digits x) =? _). set (len := length x + _).
  pose proof (value_range h (digits x) Hok (proj1 Hl)) as Hv. fold (length x) in Hv.
  assert (Hfit : value h (digits x) + 1 < kBase ^ len /\ length x <= len).
  { subst b len. destruct (Z.eqb_spec (value h (digits x)) (kBase ^ length x - 1)); [|rewrite Z.add_0_r; lia].
    rewrite kBase_pow_succ by lia. pose proof kBase_pos. pose proof (kBase_pow_pos (length x)). nia. }
  assert (Hlong : too_long (value h (digits x) + 1) = (kMaxLength <? len)).
  { unfold too_long. pose proof kMaxLength_pos. apply eq_true_iff_eq. rewrite Z.leb_le, Z.ltb_lt. split; intros H'.
    - destruct (Z_lt_le_dec kMaxLength len) as [|Hc]; [done|]. pose proof (kBase_pow_mono len kMaxLength Hc). lia.
    - subst b len. destruct (Z.eqb_spec (value h (digits x)) (kBase ^ length x - 1)) as [->|]; [|lia].
      replace kMaxLength with (length x) by lia. lia. }
  apply wp_maybe, wp_New; intros Hlen; rewrite Hlong.
  2: { by rewrite (proj2 (Z.ltb_lt _ _)). }
  rewrite (proj2 (Z.ltb_ge _ _)) by done. clear Hlong. apply wp_bind. unfold set_digit, digit. cbn [digits].
  set (R := mkDigits (free h) len).
  apply (wp_mono _ (fun _ h2 => 1 <= len /\ wrote (alloc h len) h2 R len /\ value h2 R = value h (digits x) + 1)).
  2: { intros [] h2 (H1 & Hw & Hv2). apply wp_ret. eexists. split; [done|]. by constructor; [..|done]. }
  assert (Hone : forall d, len = 1 -> d = value h (digits x) + 1 -> wp (set R 0 d)
    (fun _ h2 => 1 <= len /\ wrote (alloc h len) h2 R len /\ value h2 R = value h (digits x) + 1) (alloc h len)).
  { intros d El ->. subst R. rewrite El. rewrite El, Z.pow_1_r in Hfit. apply wp_set_only. split; [lia|].
    apply store_only; [done|unfold is_digit; lia]. }
  destruct (Z.eqb_spec (length x) 0) as [E0|E0].
  { assert (value h (digits x) = 0) as Ev by (apply value_empty; unfold length in E0; lia).
    apply Hone; [|by rewrite Ev]. subst b len. by rewrite Ev, E0. }
  assert (Hadd : wp (AddOne R (digits x)) (fun _ h2 => 1 <= len /\ wrote (alloc h len) h2 R len /\
    value h2 R = value h (digits x) + 1) (alloc h len)).
  { eapply wp_mono; [apply (AddOne_spec (alloc h len)); [done|by apply fresh_in_order| |apply Hfit]|].
    - unfold length in *. cbn. lia.
    - intros [] h2 [Hw Hv2]. split; [lia|done]. }
  destruct (Z.eqb_spec (length x) 1) as [E1|E1]; cbn [andb].
  2: { by apply Hadd. }
  destruct b eqn:Eb; cbn [negb]; [by apply Hadd|].
  apply wp_bind, wp_get; [unfold length in E1; lia|].
  subst b len. rewrite Z.add_0_r in *. apply Hone; [done|]. cbn [cell alloc].
  rewrite (value_one h (digits x)) in * by done. rewrite E1, Z.pow_1_r in Hfit.
  apply digit_t_small. pose proof (Hok (digits_ (digits x) + 0)) as Hd. unfold is_digit in *. lia.
Qed.

Lemma AbsoluteSubOne_spec h x :
  heap_ok h -> bigint_ok h x -> is_zero x = false ->
  wp (BigInt.AbsoluteSubOne x) (fun z h' => pending h h' z false (value h (digits x) - 1)) h.
Proof.
  intros Hok Hx Zx. pose proof (bigint_pos h x Hok Hx Zx) as Hp. pose proof (bigint_lengths _ _ Hx) as Hl.
  unfold BigInt.AbsoluteSubOne. apply wp_bind, wp_DCHECK; [by rewrite Zx|].
  apply Z.eqb_neq in Zx. apply wp_bind, wp_New_checked; [lia|]. apply wp_bind. cbn [digits].
  set (R := mkDigits (free h) (length x)).
  apply (wp_mono _ (fun _ h2 => wrote (alloc h (length x)) h2 R (length x) /\ value h2 R = value h (digits x) - 1)).
  2: { intros [] h2 [Hw Hv]. apply wp_ret. constructor; unfold length in *; cbn; (done || lia). }
  destruct (Z.eqb_spec (length x) 1) as [E1|E1].
  - unfold digit, set_digit. cbn [digits]. apply wp_bind, wp_get; [unfold length in E1; lia|].
    rewrite (value_one h (digits x)) in * by done. cbn [cell alloc].
    pose proof (Hok (digits_ (digits x) + 0)) as Hd. unfold is_digit in Hd.
    rewrite digit_t_small by (unfold is_digit; lia). subst R. rewrite E1. apply wp_set_only.
    apply store_only; [done|unfold is_digit; lia].
  - eapply wp_mono; [apply (SubtractOne_spec (alloc h (length x)))|]; [done|by apply fresh_in_order| |done|].
    + unfold length in *. cbn. lia.
    + intros [] h2 [Hw Hv2]. done.
Qed.

Lemma MakeImmutableMaybe_add_one h x s :
  heap_ok h -> bigint_ok h x ->
  wp (BigInt.MakeImmutableMaybe (BigInt.AbsoluteAddOne x s None))
    (outcome (too_long (value h (digits x) + 1)) (signed s (value h (digits x) + 1)) h) h.
Proof.
  intros Hok Hx. apply wp_maybe. eapply wp_mono; [by apply AbsoluteAddOne_spec|]. intros r h' Hr.
  unfold outcome. destruct (too_long _); [by destruct Hr as [-> ->]|]. destruct Hr as (z & -> & Hz).
  apply wp_bind. eapply wp_mono; [|intros z' h'' Hz'; apply wp_ret; exists z'; split; [done|exact Hz']].
  pose proof (finish_pending _ _ _ _ _ s Hz) as Hf. destruct Hz as [E _ _ _].
  unfold set_sign in Hf. rewrite E in Hf |- *. exact Hf.
Qed.

Lemma MakeImmutableMaybe_sub_one h x :
  heap_ok h -> bigint_ok h x -> is_zero x = false ->
  wp (BigInt.MakeImmutableMaybe (let* r := BigInt.AbsoluteSubOne x in ret (inl r)))
    (outcome false (value h (digits x) - 1) h) h.
Proof.
  intros Hok Hx Zx. apply wp_maybe, wp_bind. eapply wp_mono; [by apply AbsoluteSubOne_spec|]. intros r h' Hr.
  apply wp_ret, wp_bind. pose proof (finish_pending _ _ _ _ _ false Hr) as Hf. destruct Hr as [E _ _ _].
  unfold set_sign in Hf. rewrite E in Hf |- *.
  eapply wp_mono; [exact Hf|]. intros z h'' Hz. apply wp_ret. by exists z.
Qed.

Section Unary.
Context (h : Heap) (x : BigInt).
Hypotheses (Hok : heap_ok h) (Hx : bigint_ok h x).

(** The magnitude grows by one, past the longest BigInt at the very end. *)
Definition grows_too_long : bool := too_long (value h (digits x) + 1).

Lemma BitwiseNot_spec :
  wp (BigInt.BitwiseNot x) (outcome (negb (sign x) && grows_too_long) (Z.lnot (number h x)) h) h.
Proof.
  unfold BigInt.BitwiseNot, number. destruct (sign x) eqn:Es; cbn [negb andb signed].
  - replace (Z.lnot _) with (value h (digits x) - 1) by (unfold Z.lnot; lia).
    apply MakeImmutableMaybe_sub_one; [done|done|by apply (sign_nonzero h)].
  - replace (Z.lnot _) with (signed true (value h (digits x) + 1)) by (unfold signed, Z.lnot; lia).
    by apply MakeImmutableMaybe_add_one.
Qed.

Lemma Increment_spec :
  wp (BigInt.Increment x) (outcome (negb (sign x) && grows_too_long) (number h x + 1) h) h.
Proof.
  unfold BigInt.Increment, number. destruct (sign x) eqn:Es; cbn [negb andb signed].
  - apply wp_bind. eapply wp_mono; [apply AbsoluteSubOne_spec; [done|done|by apply (sign_nonzero h)]|].
    intros r h' Hr. apply wp_bind. eapply wp_mono; [exact (finish_pending _ _ _ _ _ true Hr)|]. intros z h'' Hz.
    apply wp_ret. exists z. split; [done|]. replace (- _ + 1) with (signed true (value h (digits x) - 1)); [done|].
    cbn. lia.
  - by apply MakeImmutableMaybe_add_one.
Qed.

Lemma Decrement_spec :
  wp (BigInt.Decrement x) (outcome (sign x && grows_too_long) (number h x - 1) h) h.
Proof.
  unfold BigInt.Decrement. destruct (sign x) eqn:Es; cbn [andb].
  - unfold number. rewrite Es. cbn [signed].
    replace (- _ - 1) with (signed true (value h (digits x) + 1)) by (cbn; lia).
    by apply MakeImmutableMaybe_add_one.
  - destruct (is_zero x) eqn:Zx.
    + apply wp_bind. eapply wp_mono; [apply NewFromInt_spec; [done|lia]|]. intros z h' Hz. apply wp_ret.
      exists z. split; [done|]. by rewrite (zero_number h x).
    + unfold number. rewrite Es. by apply MakeImmutableMaybe_sub_one.
Qed.

End Unary.

(** ** Comparison *)

Definition comparison_result (c : comparison) : ComparisonResult :=
  match c with Lt => kLessThan | Eq => kEqual | Gt => kGreaterThan end.

Lemma bigint_sign h x : heap_ok h -> bigint_ok h x -> if sign x return Prop then number h x < 0 else 0 <= number h x.
Proof.
  intros Hok Hx. unfold number. destruct (sign x) eqn:Es; cbn.
  - pose proof (bigint_pos h x Hok Hx (sign_nonzero h x Hx Es)). lia.
  - apply value_range; [done|]. apply (bigint_lengths h x Hx).
Qed.

Lemma sgn_compare r a b :
  Z.sgn r = Z.sgn (a - b) -> (a ?= b) = if 0 <? r then Gt else if r <? 0 then Lt else Eq.
Proof.
  intros H. destruct (Z.ltb_spec 0 r), (Z.ltb_spec r 0), (Z.compare_spec a b); (done || lia).
Qed.

Lemma compare_signed s a b : (signed s a ?= signed s b) = if s then CompOpp (a ?= b) else (a ?= b).
Proof. destruct s; cbn; [|done]. by rewrite Z.compare_opp, Z.compare_antisym. Qed.

Section Comparison.
Context (h : Heap) (x y : BigInt).
Hypotheses (Hok : heap_ok h) (Hx : bigint_ok h x) (Hy : bigint_ok h y).

Lemma CompareToBigInt_spec :
  wp (BigInt.CompareToBigInt x y)
    (fun r h' => h' = h /\ r = comparison_result (number h x ?= number h y)) h.
Proof.
  pose proof (bigint_sign h x Hok Hx) as Sx. pose proof (bigint_sign h y Hok Hy) as Sy.
  pose proof (bigint_lengths _ _ Hx) as [Lx _]. pose proof (bigint_lengths _ _ Hy) as [Ly _].
  unfold BigInt.CompareToBigInt. destruct (Bool.eqb (sign x) (sign y)) eqn:Es; cbn [negb].
  - apply eqb_prop in Es. apply wp_bind. eapply wp_mono; [by apply Compare_spec|]. intros r h' [-> Hr].
    apply sgn_compare in Hr. unfold number. rewrite <- Es, compare_signed, Hr.
    destruct (0 <? r), (r <? 0), (sign x); by apply wp_ret.
  - apply wp_ret. split; [done|]. unfold BigInt.UnequalSign, comparison_result.
    destruct (sign x), (sign y); try done; destruct (Z.compare_spec (number h x) (number h y)); (done || lia).
Qed.

Lemma EqualToBigInt_spec :
  wp (BigInt.EqualToBigInt x y) (fun r h' => h' = h /\ r = (number h x =? number h y)) h.
Proof.
  pose proof (bigint_sign h x Hok Hx) as Sx. pose proof (bigint_sign h y Hok Hy) as Sy.
  pose proof (bigint_lengths _ _ Hx) as [Lx _]. pose proof (bigint_lengths _ _ Hy) as [Ly _].
  unfold BigInt.EqualToBigInt. destruct (Bool.eqb (sign x) (sign y)) eqn:Es; cbn [negb].
  2: { apply wp_ret. split; [done|]. symmetry. apply Z.eqb_neq. destruct (sign x), (sign y); (done || lia). }
  apply eqb_prop in Es.
  assert (En : (number h x =? number h y) = (value h (digits x) =? value h (digits y))).
  { unfold number. rewrite <- Es. destruct (sign x); cbn; bool_lia. }
  rewrite En. destruct (Z.eqb_spec (length x) (length y)) as [El|El]; cbn [negb].
  2: { apply wp_ret. split; [done|]. symmetry. apply Z.eqb_neq. unfold length in *.
       pose proof (value_range h (digits x) Hok Lx). pose proof (value_range h (digits y) Hok Ly).
       destruct (Z_lt_le_dec (len_ (digits x)) (len_ (digits y))).
       - pose proof (normal_lower h (digits y) (len_ (digits x)) Hok (bi_normal _ _ Hy) ltac:(lia)). lia.
       - pose proof (normal_lower h (digits x) (len_ (digits y)) Hok (bi_normal _ _ Hx) ltac:(lia)). lia. }
  apply (wp_loop
    (fun i h' => h' = h /\ 0 <= i <= length x /\
       sum (cell h) (digits_ (digits x)) i = sum (cell h) (digits_ (digits y)) i)
    (fun i _ => Z.to_nat (length x - i))); [|by repeat split; lia|lia].
  intros i h' (-> & Hi & E). unfold length, digit in *. destruct (Z.ltb_spec i (len_ (digits x))) as [H|H].
  - do 2 digit_step. do 3 digit_step.
    destruct (Z.eqb_spec (cell h (digits_ (digits x) + i)) (cell h (digits_ (digits y) + i))) as [Ed|Ed]; cbn [negb].
    + split; [|lia]. split; [done|]. split; [lia|]. rewrite !sum_succ by lia. by rewrite E, Ed.
    + split; [done|]. symmetry. apply Z.eqb_neq. unfold value. rewrite <- El. intros Ev.
      apply Ed, (sum_inj _ _ _ (len_ (digits x))); (done || lia).
  - digit_step. split; [done|]. symmetry. apply Z.eqb_eq. unfold value. rewrite <- El. by replace (len_ (digits x)) with i by lia.
Qed.

End Comparison.

End ObjectsSpec.
