(* ===== verification/BigIntObjectsBitsSpec.v ===== *)
(** * Correctness of the bitwise operations, shifts and truncations of BigInts

    On the integers that BigInts denote, the bitwise operations are those on
    two's complement, the shifts multiply by a power of two and divide rounding
    down, and [AsIntN] and [AsUintN] wrap around. *)

From stdpp Require Import base list numbers.
From Stdlib Require Import ZArith Lia Bool.
From S2P Require Import Prelude.
From S2P Require Import BigIntDigits.
From S2P Require Import BigIntVectors.
From S2P Require Import BigIntMemory.
From S2P Require Import BigIntArithmetic.
From S2P Require Import BigIntMul.
From S2P Require Import BigIntShift.
From S2P Require Import BigIntBitwise.
From S2P Require Import BigIntBitwiseSpec.
From S2P Require Import BigIntTruncateSpec.
From S2P Require Import BigIntObjects.
From S2P Require Import BigIntObjectsSpec.

Local Open Scope Z_scope.
Local Open Scope prog_scope.
Local Open Scope handle_scope.

Section ObjectsBitsSpec.
Context {T : DigitTarget} {TOK : DigitTargetOK T}.

(** ** Bitwise operations *)

Lemma number_pos h x : sign x = false -> number h x = value h (digits x).
Proof. intros E. unfold number. by rewrite E. Qed.

Lemma number_neg h x : sign x = true -> number h x = - value h (digits x).
Proof. intros E. unfold number. by rewrite E. Qed.

(** What is left to do when the digits of a result are there. *)
Definition then_canonical (b : bool) (V : Z) (h : Heap) (r : MaybeHandle BigInt) (h' : Heap) : Prop :=
  match r with
  | inl z => wp (let* r := MakeImmutable z in ret (inl r)) (outcome b V h) h'
  | inr e => outcome b V h (inr e) h'
  end.

(** A result in digits that are sure to be few enough. *)
Lemma wp_filled h len (op : M Heap unit) s V :
  0 <= len <= kMaxLength -> (len = 0 -> s = false) ->
  wp op (fun _ h' => wrote (alloc h len) h' (mkDigits (free h) len) len /\
    signed s (value h' (mkDigits (free h) len)) = V) (alloc h len) ->
  wp (op ;;; ret (inl (mkBigInt s (mkDigits (free h) len)))) (then_canonical false V h) (alloc h len).
Proof.
  intros Hl Hs Hop. apply wp_bind. eapply wp_mono; [exact Hop|]. intros [] h2 [Hw Hv].
  apply wp_ret. by apply finish_maybe_spec.
Qed.

(** The same with a check that the result is not negative. *)
Lemma wp_filled_checked h len (op : M Heap unit) V :
  0 <= len <= kMaxLength ->
  wp op (fun _ h' => wrote (alloc h len) h' (mkDigits (free h) len) len /\
    value h' (mkDigits (free h) len) = V) (alloc h len) ->
  wp (op ;;; DCHECK (negb (sign (mkBigInt false (mkDigits (free h) len)))) ;;;
      ret (inl (mkBigInt false (mkDigits (free h) len)))) (then_canonical false V h) (alloc h len).
Proof.
  intros Hl Hop. apply wp_bind. eapply wp_mono; [exact Hop|]. intros [] h2 [Hw Hv].
  apply wp_bind, wp_DCHECK; [done|]. apply wp_ret. by apply finish_maybe_spec.
Qed.

Section Bitwise.
Context (h : Heap) (Hok : heap_ok h).

Local Ltac operand x :=
  let H := fresh "Hpos" in
  match goal with
  | Hx : bigint_ok _ x, Sx : sign x = true |- _ =>
      pose proof (bigint_pos h x Hok Hx (sign_nonzero h x Hx Sx)) as H
  end.

Local Tactic Notation "on_vectors" uconstr(spec) :=
  apply (spec (alloc h _)); try (done || by apply fresh_in_order);
  unfold length, BitwiseAnd_NegNeg_ResultLength, BitwiseXor_PosNeg_ResultLength, BitwiseOrResultLength in *; cbn; lia.

Lemma and_mixed x y :
  bigint_ok h x -> bigint_ok h y -> sign x = false -> sign y = true ->
  wp (let* result := ToHandleChecked (New (BitwiseAnd_PosNeg_ResultLength (length x))) in
      BitwiseAnd_PosNeg (digits result) (digits x) (digits y) ;;;
      DCHECK (negb (sign result)) ;;; ret (inl result))
    (then_canonical false (Z.land (number h x) (number h y)) h) h.
Proof.
  intros Hx Hy Sx Sy. operand y. pose proof (bigint_lengths _ _ Hx). pose proof (bigint_lengths _ _ Hy).
  apply wp_bind, wp_New_checked; [unfold BitwiseAnd_PosNeg_ResultLength; lia|]. apply wp_filled_checked; [done|].
  rewrite (number_pos _ x), (number_neg _ y) by done. on_vectors BitwiseAnd_PosNeg_spec.
Qed.

Lemma xor_mixed x y :
  bigint_ok h x -> bigint_ok h y -> sign x = false -> sign y = true ->
  wp (let? result := New (BitwiseXor_PosNeg_ResultLength (length x) (length y)) in
      BitwiseXor_PosNeg (digits result) (digits x) (digits y) ;;;
      ret (inl (set_sign result true)))
    (then_canonical (kMaxLength <? BitwiseXor_PosNeg_ResultLength (length x) (length y))
       (Z.lxor (number h x) (number h y)) h) h.
Proof.
  intros Hx Hy Sx Sy. operand y. pose proof (bigint_lengths _ _ Hx). pose proof (bigint_lengths _ _ Hy).
  apply wp_maybe, wp_New; intros Hl; [|by rewrite (proj2 (Z.ltb_lt _ _))].
  rewrite (proj2 (Z.ltb_ge _ _)) by done. apply wp_filled; [unfold BitwiseXor_PosNeg_ResultLength in *; lia..|].
  rewrite (number_pos _ x), (number_neg _ y) by done. on_vectors BitwiseXor_PosNeg_spec.
Qed.

Lemma or_mixed x y h1 len :
  bigint_ok h x -> bigint_ok h y -> sign x = false -> sign y = true ->
  len = BitwiseOrResultLength (length x) (length y) -> h1 = alloc h len ->
  wp (BitwiseOr_PosNeg (mkDigits (free h) len) (digits x) (digits y) ;;;
      ret (mkBigInt true (mkDigits (free h) len)))
    (fun r h' => wp (let* r := MakeImmutable r in ret (inl r))
       (outcome false (Z.lor (number h x) (number h y)) h) h') h1.
Proof.
  intros Hx Hy Sx Sy -> ->. operand y. pose proof (bigint_lengths _ _ Hx). pose proof (bigint_lengths _ _ Hy).
  apply wp_bind. eapply wp_mono; [on_vectors BitwiseOr_PosNeg_spec|]. intros [] h2 [Hw Hv]. apply wp_ret.
  pose proof (sign_nonzero h y Hy Sy) as Zy. apply Z.eqb_neq in Zy.
  apply finish_maybe_spec; [unfold BitwiseOrResultLength; lia|done|unfold BitwiseOrResultLength; lia|].
  by rewrite (number_pos _ x), (number_neg _ y).
Qed.

Context (x y : BigInt) (Hx : bigint_ok h x) (Hy : bigint_ok h y).

Lemma BitwiseAnd_object_spec :
  wp (BigInt.BitwiseAnd x y)
    (outcome (sign x && sign y && (kMaxLength <? BitwiseAnd_NegNeg_ResultLength (length x) (length y)))
       (Z.land (number h x) (number h y)) h) h.
Proof.
  pose proof (bigint_lengths _ _ Hx) as Lx. pose proof (bigint_lengths _ _ Hy) as Ly.
  unfold BigInt.BitwiseAnd. apply wp_maybe. destruct (sign x) eqn:Sx, (sign y) eqn:Sy; cbn [negb andb].
  - operand x. operand y. apply wp_maybe, wp_New; intros Hl; [|by rewrite (proj2 (Z.ltb_lt _ _))].
    rewrite (proj2 (Z.ltb_ge _ _)) by done. apply wp_filled; [unfold BitwiseAnd_NegNeg_ResultLength in *; lia..|].
    rewrite !number_neg by done. on_vectors BitwiseAnd_NegNeg_spec.
  - rewrite Z.land_comm. by apply and_mixed.
  - by apply and_mixed.
  - assert (Hl : 0 <= BitwiseAnd_PosPos_ResultLength (length x) (length y) <= kMaxLength)
      by (unfold BitwiseAnd_PosPos_ResultLength; lia).
    apply wp_bind, wp_New_checked; [lia|]. apply wp_filled_checked; [done|].
    rewrite !number_pos by done. on_vectors BitwiseAnd_PosPos_spec.
Qed.

Lemma BitwiseXor_object_spec :
  wp (BigInt.BitwiseXor x y)
    (outcome (xorb (sign x) (sign y) && (kMaxLength <? BitwiseXor_PosNeg_ResultLength (length x) (length y)))
       (Z.lxor (number h x) (number h y)) h) h.
Proof.
  pose proof (bigint_lengths _ _ Hx) as Lx. pose proof (bigint_lengths _ _ Hy) as Ly.
  unfold BigInt.BitwiseXor. apply wp_maybe. destruct (sign x) eqn:Sx, (sign y) eqn:Sy; cbn [negb andb xorb].
  - operand x. operand y. apply wp_bind, wp_New_checked; [unfold BitwiseXor_NegNeg_ResultLength; lia|].
    apply wp_filled_checked; [unfold BitwiseXor_NegNeg_ResultLength; lia|].
    rewrite !number_neg by done. on_vectors BitwiseXor_NegNeg_spec.
  - rewrite Z.lxor_comm. replace (BitwiseXor_PosNeg_ResultLength (length x) (length y))
      with (BitwiseXor_PosNeg_ResultLength (length y) (length x))
      by (unfold BitwiseXor_PosNeg_ResultLength; lia). by apply xor_mixed.
  - by apply xor_mixed.
  - apply wp_bind, wp_New_checked; [unfold BitwiseXor_PosPos_ResultLength; lia|].
    apply wp_filled_checked; [unfold BitwiseXor_PosPos_ResultLength; lia|].
    rewrite !number_pos by done. on_vectors BitwiseXor_PosPos_spec.
Qed.

Lemma BitwiseOr_object_spec :
  wp (BigInt.BitwiseOr x y) (outcome false (Z.lor (number h x) (number h y)) h) h.
Proof.
  pose proof (bigint_lengths _ _ Hx) as Lx. pose proof (bigint_lengths _ _ Hy) as Ly.
  unfold BigInt.BitwiseOr. set (len := BitwiseOrResultLength _ _).
  assert (Hl : 0 <= len <= kMaxLength) by (subst len; unfold BitwiseOrResultLength; lia).
  apply wp_bind, wp_New_checked; [lia|]. apply wp_bind.
  destruct (sign x) eqn:Sx, (sign y) eqn:Sy; cbn [negb andb]; unfold set_sign; cbn [digits].
  - operand x. operand y. apply wp_bind. eapply wp_mono; [on_vectors BitwiseOr_NegNeg_spec|].
    intros [] h2 [Hw Hv]. apply wp_ret. pose proof (sign_nonzero h y Hy Sy) as Zy. apply Z.eqb_neq in Zy.
    apply finish_maybe_spec; [done|done|subst len; unfold BitwiseOrResultLength; lia|].
    by rewrite !number_neg.
  - rewrite Z.lor_comm. apply or_mixed; try done. subst len. unfold BitwiseOrResultLength. lia.
  - by apply or_mixed.
  - apply wp_bind. eapply wp_mono; [on_vectors BitwiseOr_PosPos_spec|]. intros [] h2 [Hw Hv].
    apply wp_bind, wp_DCHECK; [done|]. apply wp_ret, finish_maybe_spec; [done|done|done|]. by rewrite !number_pos.
Qed.

End Bitwise.

(** ** Shifts *)

Lemma kMaxLength_bits : kDigitBits * kMaxLength = kMaxLengthBits.
Proof. unfold kMaxLength, kMaxLengthBits, kDigitBits. destruct TOK as [-> | ->]; vm_compute; reflexivity. Qed.

Lemma kMaxLengthBits_eq : kBase ^ kMaxLength = 2 ^ kMaxLengthBits.
Proof.
  pose proof kMaxLength_bits as E. pose proof kDigitBits_pos. pose proof kMaxLength_pos. revert E.
  generalize kMaxLengthBits. intros b <-. unfold kBase. symmetry. apply Z.pow_mul_r; lia.
Qed.

Lemma magnitude_small h x : heap_ok h -> bigint_ok h x -> 0 <= value h (digits x) < 2 ^ kMaxLengthBits.
Proof.
  intros Hok Hx. pose proof (bigint_lengths _ _ Hx) as [L1 L2].
  pose proof (value_range h (digits x) Hok L1). pose proof (kBase_pow_mono _ _ L2).
  rewrite <- kMaxLengthBits_eq. unfold length in *. lia.
Qed.

Lemma ToShiftAmount_spec h y :
  heap_ok h -> bigint_ok h y -> is_zero y = false ->
  wp (BigInt.ToShiftAmount y)
    (fun r h' => h' = h /\
       r = if kMaxLengthBits <? value h (digits y) then None else Some (value h (digits y))) h.
Proof.
  intros Hok Hy Zy. apply Z.eqb_neq in Zy. pose proof (bigint_lengths _ _ Hy) as L.
  unfold BigInt.ToShiftAmount. destruct (Z.ltb_spec 1 (length y)) as [H|H].
  - apply wp_ret. split; [done|].
    pose proof (normal_lower h (digits y) 1 Hok (bi_normal _ _ Hy) ltac:(unfold length in *; lia)) as Hv.
    rewrite Z.pow_1_r in Hv. pose proof kBase_pos. rewrite (proj2 (Z.ltb_lt _ _)); [done|].
    unfold kMaxLengthBits. change (Z.shiftl 1 30) with (2 ^ 30). lia.
  - apply wp_bind. unfold digit, length in *. apply wp_get; [lia|]. apply wp_ret. split; [done|].
    by rewrite value_one by lia.
Qed.

(** Shift amounts that are not too big for a [BigInt] fit an [int]. *)
Lemma shift_digits s : 0 <= s <= kMaxLengthBits -> 0 <= s / kDigitBits <= kMaxLength.
Proof.
  intros Hs. pose proof kDigitBits_pos. split; [apply Z.div_pos; lia|]. apply Z.div_le_mono; lia.
Qed.

Lemma LeftShiftByAbsolute_spec h x y :
  heap_ok h -> bigint_ok h x -> bigint_ok h y -> is_zero x = false -> is_zero y = false ->
  wp (BigInt.LeftShiftByAbsolute x y)
    (outcome (too_long (value h (digits x) * 2 ^ value h (digits y)))
       (number h x * 2 ^ value h (digits y)) h) h.
Proof.
  intros Hok Hx Hy Zx Zy. pose proof (bigint_pos h x Hok Hx Zx) as Px. apply Z.eqb_neq in Zx.
  pose proof (bigint_lengths _ _ Hx) as Lx. pose proof kMaxLength_pos.
  unfold BigInt.LeftShiftByAbsolute. apply wp_bind. eapply wp_mono; [by apply ToShiftAmount_spec|].
  intros r h' [-> ->]. pose proof (value_range h (digits y) Hok (proj1 (bigint_lengths _ _ Hy))) as [Hs0 _].
  set (s := value h (digits y)) in *. destruct (Z.ltb_spec kMaxLengthBits s) as [Hs|Hs].
  { apply wp_ret. unfold outcome, too_long. rewrite (proj2 (Z.leb_le _ _)); [done|]. rewrite kMaxLengthBits_eq.
    pose proof (Z.pow_le_mono_r 2 kMaxLengthBits s ltac:(lia) ltac:(lia)). nia. }
  apply wp_bind. unfold digit, length in *. apply wp_get; [lia|].
  destruct (LeftShift_ResultLength_spec h (digits x) s _ Hok ltac:(lia)
    (proj2 (bi_normal _ _ Hx) ltac:(lia)) Hs0 ltac:(pose proof (shift_digits s); lia) eq_refl) as [Hr1 Hr2].
  set (len := LeftShift_ResultLength _ _ _) in *.
  assert (Hlong : too_long (value h (digits x) * 2 ^ s) = (kMaxLength <? len)).
  { unfold too_long. apply eq_true_iff_eq. rewrite Z.leb_le, Z.ltb_lt. split; intros H'.
    - destruct (Z_lt_le_dec kMaxLength len) as [|Hc]; [done|]. pose proof (kBase_pow_mono len kMaxLength Hc). lia.
    - assert (kBase ^ kMaxLength <= kBase ^ (len - 1)) by (apply kBase_pow_mono; lia). lia. }
  rewrite Hlong. destruct (Z.ltb_spec kMaxLength len); [by apply wp_ret|].
  apply wp_maybe, wp_New; intros Hl; [|lia]. apply wp_bind. cbn [digits].
  pose proof (shift_digits s ltac:(lia)).
  eapply wp_mono; [apply (LeftShift_spec (alloc h len)); [done|by apply fresh_disjoint|lia|lia|lia|done|apply Hr2]|].
  intros [] h2 [Hw Hv]. unfold set_sign. cbn [digits]. apply finish_maybe_spec; [lia|done|lia|].
  rewrite Hv. unfold number. change (value (alloc h len) (digits x)) with (value h (digits x)).
  destruct (sign x); cbn; lia.
Qed.

(** Division of a signed magnitude, rounded down. *)
Lemma signed_div s v m :
  0 < m -> signed s v / m = signed s (v / m + (if s && negb (v mod m =? 0) then 1 else 0)).
Proof.
  intros Hm. destruct s; cbn [signed andb]; [|by rewrite Z.add_0_r].
  destruct (Z.eqb_spec (v mod m) 0) as [E|E]; cbn [negb].
  - rewrite Z.div_opp_l_z by lia. lia.
  - rewrite Z.div_opp_l_nz by lia. lia.
Qed.

Lemma signed_div_small s v m : 0 < v < m -> signed s v / m = if s then -1 else 0.
Proof.
  intros H. rewrite signed_div, Z.div_small, Z.mod_small by lia. destruct (Z.eqb_spec v 0); [lia|]. by destruct s.
Qed.

Lemma RightShiftByMaximum_spec h s :
  heap_ok h -> wp (BigInt.RightShiftByMaximum s) (fun z h' => computed h h' z (if s then -1 else 0)) h.
Proof. intros Hok. destruct s; [apply NewFromInt_spec; [done|lia]|by apply Zero_spec]. Qed.

Lemma RightShiftByAbsolute_spec h x y :
  heap_ok h -> bigint_ok h x -> bigint_ok h y -> is_zero x = false -> is_zero y = false ->
  wp (BigInt.RightShiftByAbsolute x y)
    (fun z h' => computed h h' z (number h x / 2 ^ value h (digits y))) h.
Proof.
  intros Hok Hx Hy Zx Zy. pose proof (bigint_pos h x Hok Hx Zx) as Px. apply Z.eqb_neq in Zx.
  pose proof (bigint_lengths _ _ Hx) as Lx. pose proof kMaxLength_pos.
  pose proof (magnitude_small h x Hok Hx) as Hsm.
  unfold BigInt.RightShiftByAbsolute. apply wp_bind. eapply wp_mono; [by apply ToShiftAmount_spec|].
  intros r h' [-> ->]. pose proof (value_range h (digits y) Hok (proj1 (bigint_lengths _ _ Hy))) as [Hs0 _].
  unfold number. set (s := value h (digits y)) in *.
  destruct (Z.ltb_spec kMaxLengthBits s) as [Hs|Hs].
  { rewrite signed_div_small; [by apply RightShiftByMaximum_spec|].
    pose proof (Z.pow_le_mono_r 2 kMaxLengthBits s ltac:(lia) ltac:(lia)). lia. }
  pose proof (shift_digits s (conj Hs0 Hs)) as Hsd. apply wp_bind. unfold length in *.
  destruct (Z_lt_le_dec (s / kDigitBits) (len_ (digits x))) as [Hd|Hd].
  2: { eapply wp_mono; [apply RightShift_ResultLength_none; lia|]. intros r h' [-> ->].
       apply wp_bind, wp_DCHECK; [apply Z.leb_le; lia|]. cbn.
       rewrite signed_div_small; [by apply RightShiftByMaximum_spec|].
       assert (Hi : s / kDigitBits <= kMaxInt) by lia. destruct (shift_split s Hs0 Hi) as (_ & _ & Hb & ->).
       pose proof (value_range h (digits x) Hok (proj1 Lx)). pose proof (kBase_pow_mono _ _ Hd).
       assert (0 < 2 ^ (s mod kDigitBits)) by (apply pow2_pos; lia). nia. }
  eapply wp_mono; [apply (RightShift_ResultLength_spec h (digits x) (sign x) s); (done || lia)|].
  intros [len mrd] h' (-> & Hm & Hlen & Hfit). apply wp_bind, wp_DCHECK; [apply Z.leb_le; lia|].
  destruct (Z.leb_spec len 0); [lia|]. apply wp_bind, wp_New_checked; [lia|]. apply wp_bind. cbn [digits].
  eapply wp_mono; [apply (RightShift_spec (alloc h len)); [done|by apply fresh_in_order|done|lia|lia|cbn; lia|exact Hfit]|].
  intros [] h2 [Hw Hv]. unfold set_sign. cbn [digits].
  replace (if sign x then _ else _) with (mkBigInt (sign x) (mkDigits (free h) len)) by (by destruct (sign x)).
  apply finish_spec; [lia|done|lia|]. rewrite Hv, Hm. change (value (alloc h len) (digits x)) with (value h (digits x)).
  rewrite signed_div by (apply pow2_pos; lia). done.
Qed.

(** Both shifts of the language, with the amount's sign. *)
Definition shifted (v n : Z) : Z := if 0 <=? n then v * 2 ^ n else v / 2 ^ (- n).

Section Shifts.
Context (h : Heap) (x y : BigInt).
Hypotheses (Hok : heap_ok h) (Hx : bigint_ok h x) (Hy : bigint_ok h y).

Definition shift_too_long (n : Z) : bool :=
  negb (is_zero x) && (0 <=? n) && too_long (value h (digits x) * 2 ^ n).

Lemma shift_zero_cases :
  is_zero y || is_zero x = true ->
  number h y = 0 \/ number h x = 0 /\ is_zero x = true.
Proof.
  intros H. apply orb_true_iff in H as [H|H]; [left|right; split]; try done; by apply zero_number.
Qed.

Lemma too_long_magnitude : too_long (value h (digits x)) = false.
Proof.
  unfold too_long. apply Z.leb_gt. rewrite kMaxLengthBits_eq. apply (magnitude_small h x Hok Hx).
Qed.

Lemma shift_none : is_zero y || is_zero x = true -> forall n, n = number h y \/ n = - number h y ->
  outcome (shift_too_long n) (shifted (number h x) n) h (inl x) h.
Proof.
  intros H n Hn. assert (E : shift_too_long n = false /\ shifted (number h x) n = number h x).
  { unfold shift_too_long, shifted. destruct (shift_zero_cases H) as [E|[E ->]].
    - replace n with 0 by lia. cbn [Z.leb]. rewrite Z.pow_0_r, !Z.mul_1_r, too_long_magnitude.
      split; [by destruct (is_zero x)|done].
    - rewrite E, Z.mul_0_l. split; [done|]. destruct (Z.leb_spec 0 n); [done|]. apply Z.div_0_l, Z.pow_nonzero; lia. }
  destruct E as [-> ->]. by apply return_self.
Qed.

Lemma LeftShift_object_spec :
  wp (BigInt.LeftShift x y)
    (outcome (shift_too_long (number h y)) (shifted (number h x) (number h y)) h) h.
Proof.
  unfold BigInt.LeftShift. destruct (is_zero y || is_zero x) eqn:Z0.
  { apply wp_ret, shift_none; [done|by left]. }
  apply orb_false_iff in Z0 as [Zy Zx]. pose proof (bigint_pos h y Hok Hy Zy).
  unfold shift_too_long, shifted. rewrite Zx. cbn [negb andb]. destruct (sign y) eqn:Sy.
  - rewrite (number_neg _ y), Z.opp_involutive, (proj2 (Z.leb_gt _ _)) by (done || lia). cbn [andb].
    apply wp_bind. eapply wp_mono; [by apply RightShiftByAbsolute_spec|]. intros z h' Hz. apply wp_ret. by exists z.
  - rewrite (number_pos _ y), (proj2 (Z.leb_le _ _)) by (done || lia). cbn [andb]. by apply LeftShiftByAbsolute_spec.
Qed.

Lemma SignedRightShift_object_spec :
  wp (BigInt.SignedRightShift x y)
    (outcome (shift_too_long (- number h y)) (shifted (number h x) (- number h y)) h) h.
Proof.
  unfold BigInt.SignedRightShift. destruct (is_zero y || is_zero x) eqn:Z0.
  { apply wp_ret, shift_none; [done|by right]. }
  apply orb_false_iff in Z0 as [Zy Zx]. pose proof (bigint_pos h y Hok Hy Zy).
  unfold shift_too_long, shifted. rewrite Zx, ?Z.opp_involutive. cbn [negb andb]. destruct (sign y) eqn:Sy.
  - rewrite (number_neg _ y), Z.opp_involutive, (proj2 (Z.leb_le _ _)) by (done || lia). cbn [andb].
    by apply LeftShiftByAbsolute_spec.
  - rewrite (number_pos _ y), (proj2 (Z.leb_gt _ _)) by (done || lia). cbn [andb].
    apply wp_bind. eapply wp_mono; [by apply RightShiftByAbsolute_spec|]. intros z h' Hz. apply wp_ret. by exists z.
Qed.

End Shifts.

(** ** Truncation *)

Lemma int32_bits n : 0 <= n <= kMaxLengthBits -> int32 n = n.
Proof. intros Hn. apply int32_small. unfold kMaxLengthBits in Hn. change (Z.shiftl 1 30) with (2 ^ 30) in Hn. lia. Qed.

Lemma DIV_CEIL_length n : 0 < n <= kMaxLengthBits -> 1 <= DIV_CEIL n kDigitBits <= kMaxLength.
Proof.
  intros Hn. rewrite DIV_CEIL_eq by lia. pose proof kMaxLength_bits. pose proof kDigitBits_pos.
  assert (0 <= (n - 1) / kDigitBits) by (apply Z.div_pos; lia).
  assert ((n - 1) / kDigitBits < kMaxLength) by (apply Z.div_lt_upper_bound; lia). lia.
Qed.

Lemma wide_fits n h x :
  heap_ok h -> bigint_ok h x -> kMaxLengthBits < n -> wrap_signed n (number h x) = number h x.
Proof.
  intros Hok Hx Hn. pose proof (magnitude_small h x Hok Hx) as Hm.
  assert (0 <= kMaxLengthBits) by (vm_compute; congruence).
  pose proof (Z.pow_le_mono_r 2 kMaxLengthBits (n - 1) ltac:(lia) ltac:(lia)).
  apply fits_signed_spec; [lia|]. unfold number. rewrite fits_signed_magnitude, magnitude_below by lia. done.
Qed.

(** [BigInt.asIntN(n, v)]. *)
Definition asIntN (n v : Z) : Z := if n =? 0 then 0 else wrap_signed n v.

Lemma asIntN_zero n : 0 <= n -> asIntN n 0 = 0.
Proof.
  intros Hn. unfold asIntN. destruct (Z.eqb_spec n 0); [done|]. unfold wrap_signed.
  destruct (pow2_half n ltac:(lia)) as [H0 Hp]. rewrite Z.add_0_l, Z.mod_small by lia. lia.
Qed.

Lemma AsIntN_object_spec h x n :
  heap_ok h -> bigint_ok h x -> 0 <= n ->
  wp (BigInt.AsIntN n x) (fun z h' => computed h h' z (asIntN n (number h x))) h.
Proof.
  intros Hok Hx Hn. unfold BigInt.AsIntN. destruct (is_zero x) eqn:Zx; cbn [orb].
  { apply wp_ret. rewrite (zero_number h x), asIntN_zero by done. rewrite <- (zero_number h x) by done.
    by apply computed_self. }
  destruct (Z.ltb_spec kMaxLengthBits n) as [Hb|Hb].
  { apply wp_ret. unfold asIntN. assert (0 <= kMaxLengthBits) by (vm_compute; congruence).
    destruct (Z.eqb_spec n 0); [lia|]. rewrite wide_fits by done. by apply computed_self. }
  unfold asIntN. destruct (Z.eqb_spec n 0) as [->|Hne]; [by apply Zero_spec|].
  rewrite int32_bits by lia. assert (Hn0 : 0 < n) by lia. apply wp_bind.
  eapply wp_mono; [apply AsIntNResultLength_spec; [done|apply Hx|done]|]. intros r h' [-> ->].
  pose proof (DIV_CEIL_length n ltac:(lia)) as Hl. fold (number h x).
  destruct (fits_signed n (number h x)) eqn:Ef.
  { rewrite Z.eqb_refl. apply wp_ret. apply fits_signed_spec in Ef; [|done]. rewrite Ef. by apply computed_self. }
  destruct (Z.eqb_spec (DIV_CEIL n kDigitBits) (-1)); [lia|].
  apply wp_bind, wp_New_checked; [lia|]. apply wp_bind. cbn [digits].
  eapply wp_mono; [apply (AsIntN_spec (alloc h _)); [done|apply Hx|by apply fresh_disjoint|done|exact Ef|done]|].
  intros s h2 [Hw Hv]. unfold set_sign. cbn [digits]. apply finish_spec; [lia|done|lia|exact Hv].
Qed.

Lemma AsUintN_object_spec h x n :
  heap_ok h -> bigint_ok h x -> 0 <= n ->
  wp (BigInt.AsUintN n x)
    (outcome (sign x && (kMaxLengthBits <? n)) (number h x mod 2 ^ n) h) h.
Proof.
  intros Hok Hx Hn. unfold BigInt.AsUintN. assert (H0 : 0 <= kMaxLengthBits) by (vm_compute; congruence).
  destruct (is_zero x) eqn:Zx.
  { apply wp_ret. destruct (sign x) eqn:Sx; [by rewrite (sign_nonzero h x) in Zx|]. cbn [andb].
    apply return_self; [done|done|]. rewrite (zero_number h x) by done. apply Z.mod_0_l, Z.pow_nonzero; lia. }
  destruct (Z.eqb_spec n 0) as [->|Hne].
  { rewrite (proj2 (Z.ltb_ge _ _)), andb_false_r, Z.pow_0_r, Z.mod_1_r by done.
    apply wp_bind. eapply wp_mono; [by apply Zero_spec|]. intros z h' Hz. apply wp_ret. by exists z. }
  assert (Hn0 : 0 < n) by lia. destruct (sign x) eqn:Sx; cbn [andb].
  - destruct (Z.ltb_spec kMaxLengthBits n) as [Hb|Hb]; [by apply wp_ret|]. rewrite int32_bits by lia.
    pose proof (DIV_CEIL_length n ltac:(lia)) as Hl. change (DIV_CEIL n kDigitBits) with (AsUintN_Neg_ResultLength n) in Hl.
    apply wp_bind, wp_New_checked; [lia|]. apply wp_bind. cbn [digits].
    eapply wp_mono; [apply (AsUintN_Neg_spec (alloc h _)); [done|by apply fresh_in_order|apply (bigint_lengths _ _ Hx)|done|done]|].
    intros [] h2 [Hw Hv]. apply wp_bind, wp_DCHECK; [done|].
    apply finish_maybe_spec; [lia|done|lia|]. rewrite number_neg by done. exact Hv.
  - rewrite number_pos by done. pose proof (magnitude_small h x Hok Hx) as Hm.
    destruct (Z.leb_spec kMaxLengthBits n) as [Hb|Hb].
    { apply wp_ret, return_self; [done|done|]. rewrite number_pos by done. apply Z.mod_small.
      pose proof (Z.pow_le_mono_r 2 kMaxLengthBits n ltac:(lia) Hb). lia. }
    rewrite int32_bits by lia. pose proof (DIV_CEIL_length n ltac:(lia)) as Hl. apply wp_bind.
    eapply wp_mono; [apply AsUintN_Pos_ResultLength_spec; [done|apply Hx|done]|]. intros r h' [-> ->].
    destruct (Z.ltb_spec (value h (digits x)) (2 ^ n)) as [Hf|Hf].
    { apply wp_ret, return_self; [done|done|]. rewrite number_pos by done. apply Z.mod_small. lia. }
    destruct (Z.ltb_spec (DIV_CEIL n kDigitBits) 0); [lia|].
    apply wp_bind, wp_New_checked; [lia|]. apply wp_bind. cbn [digits].
    eapply wp_mono; [apply (AsUintN_Pos_spec (alloc h _)); [done|apply Hx|by apply fresh_in_order|done|exact Hf|done]|].
    intros [] h2 [Hw Hv]. apply wp_bind, wp_DCHECK; [done|].
    apply finish_maybe_spec; [lia|done|lia|exact Hv].
Qed.

End ObjectsBitsSpec.
