(* ===== verification/BigIntProducts.v ===== *)
(** * Products and powers of BigInts

    [BigInt::Multiply] and [BigInt::Exponentiate] of [src/objects/bigint.cc], on
    the processor's multiplication. *)

From stdpp Require Import base list numbers.
From Stdlib Require Import ZArith Lia Bool.
From S2P Require Import Prelude.
From S2P Require Import BigIntDigits.
From S2P Require Import BigIntVectors.
From S2P Require Import BigIntMul.
From S2P Require Import BigIntKaratsuba.
From S2P Require Import BigIntProcessor.
From S2P Require Import BigIntObjects.

Local Open Scope Z_scope.
Local Open Scope prog_scope.
Local Open Scope handle_scope.

Section Products.
Context {T : DigitTarget} {P : Platform} {BB : BigIntBuild} {AM : AdvancedMultiplication}.
Local Abbreviation HM := (M Heap).

Definition InitializeDigits (x : BigInt) (length byte : Z) : HM unit := memset (digits x) length byte.

(** The end of an operation on the processor: the script is terminated when the
    run was interrupted. *)
Definition unless_interrupted (status : Status) (rest : HM (MaybeHandle BigInt)) : HM (MaybeHandle BigInt) :=
  match status with
  | kInterrupted => ret (inr Terminated)
  | kOk => rest
  end.

(** [BigInt::Multiply]. *)
Definition BigInt_Multiply (x y : BigInt) : HM (MaybeHandle BigInt) :=
  if is_zero x then ret (inl x)
  else if is_zero y then ret (inl y)
  else
    let result_length := MultiplyResultLength (digits x) (digits y) in
    let? result := New result_length in
    let* status := Processor.Multiply (digits result) (digits x) (digits y) in
    unless_interrupted status
      (let* r := MakeImmutable (set_sign result (negb (Bool.eqb (sign x) (sign y)))) in ret (inl r)).

(** The loop of [BigInt::Exponentiate]; [result] is null before the first factor. *)
Fixpoint exponentiate_loop (fuel : nat) (n : Z) (result : option BigInt) (running_square : BigInt)
    : HM (MaybeHandle BigInt) :=
  match fuel with
  | O => fun _ => OutOfFuel
  | S fuel =>
      if negb (n =? 0) then
        let? running_square := BigInt_Multiply running_square running_square in
        if negb (Z.land n 1 =? 0) then
          match result with
          | None => exponentiate_loop fuel (Z.shiftr n 1) (Some running_square) running_square
          | Some result =>
              let? result := BigInt_Multiply result running_square in
              exponentiate_loop fuel (Z.shiftr n 1) (Some result) running_square
          end
        else exponentiate_loop fuel (Z.shiftr n 1) result running_square
      else match result with Some result => ret (inl result) | None => undefined end
  end.

(** The fast path for a power of 2 or -2. *)
Definition power_of_two (base : BigInt) (n : Z) : HM (MaybeHandle BigInt) :=
  let needed_digits := 1 + n / kDigitBits in
  let? result := New needed_digits in
  InitializeDigits result needed_digits 0 ;;;
  let msd := digit_t (Z.shiftl 1 (n mod kDigitBits)) in
  set_digit result (needed_digits - 1) msd ;;;
  let result := (if sign base then set_sign result (negb (Z.land n 1 =? 0)) else result) in
  let* r := MakeImmutable result in ret (inl r).

(** [n] is below 2^30 in front of the loop, which halves it every time. *)
Definition kExponentRounds : nat := 31.

Definition BigInt_Exponentiate (base exponent : BigInt) : HM (MaybeHandle BigInt) :=
  if sign exponent then ret (inr kMustBePositive)
  else if is_zero exponent then let* r := NewFromInt 1 in ret (inl r)
  else if is_zero base then ret (inl base)
  else
    let* unit_base := (if length base =? 1 then let* d := digit base 0 in ret (d =? 1) else ret false) in
    if unit_base : bool then
      let* even := (if sign base then let* e := digit exponent 0 in ret (Z.land e 1 =? 0) else ret false) in
      if even : bool then let* r := UnaryMinus base in ret (inl r) else ret (inl base)
    else if 1 <? length exponent then ThrowBigIntTooBig
    else
      let* exp_value := digit exponent 0 in
      if exp_value =? 1 then ret (inl base)
      else if kMaxLengthBits <=? exp_value then ThrowBigIntTooBig
      else
        let n := int32 exp_value in
        let* two_base := (if length base =? 1 then let* d := digit base 0 in ret (d =? 2) else ret false) in
        if two_base : bool then power_of_two base n
        else
          exponentiate_loop kExponentRounds (Z.shiftr n 1) (if negb (Z.land n 1 =? 0) then Some base else None) base.

End Products.
