(* ===== verification/BigIntProductsSpec.v ===== *)
(** * Products and powers are exact

    A product or a power is the exact integer in canonical form; it throws only
    when the result has at least as many digits as the longest BigInt, and the
    script is terminated exactly when the embedder asked for it. *)

From stdpp Require Import base list numbers.
From Stdlib Require Import ZArith Lia Bool.
From S2P Require Import Prelude.
From S2P Require Import BigIntDigits.
From S2P Require Import BigIntVectors.
From S2P Require Import BigIntMemory.
From S2P Require Import BigIntArithmetic.
From S2P Require Import BigIntMul.
From S2P Require Import BigIntShift.
From S2P Require Import BigIntDivSpec.
From S2P Require Import BigIntBitwiseSpec.
From S2P Require Import BigIntTruncateSpec.
From S2P Require Import BigIntInterrupts.
From S2P Require Import BigIntKaratsuba.
From S2P Require Import BigIntKaratsubaSpec.
From S2P Require Import BigIntKaratsubaChunks.
From S2P Require Import BigIntProcessor.
From S2P Require Import BigIntObjects.
From S2P Require Import BigIntQuiet.
From S2P Require Import BigIntObjectsSpec.
From S2P Require Import BigIntObjectsBitsSpec.
From S2P Require Import BigIntProducts.

Local Open Scope Z_scope.
Local Open Scope prog_scope.
Local Open Scope handle_scope.

Section ProductsSpec.
Context {T : DigitTarget} {P : Platform} {BB : BigIntBuild} {TOK : DigitTargetOK T}.

(** ** Operations on the processor *)

(** The library never abandons a product half way: it has the advanced
    algorithms, or the embedder does not ask it to stop. *)
Definition patient : Prop := V8_ADVANCED_BIGINT_ALGORITHMS = true \/ forall n, InterruptRequested n = false.

Lemma going_idle h : patient -> idle h -> going h.
Proof. intros [H|H] Hi; [by left|by right]. Qed.

(** The end of an operation that denotes [V]; [long] is when it may find its
    result too long. *)
Definition settled (V : Z) (long : Prop) (h : Heap) (r : MaybeHandle BigInt) (h' : Heap) : Prop :=
  extends h h' /\ idle h' /\ (queries (proc h) <= queries (proc h'))%nat /\
  match r with
  | inl z => interrupted h h' = false /\ bigint_ok h' z /\ number h' z = V
  | inr kBigIntTooBig => interrupted h h' = false /\ long
  | inr Terminated => interrupted h h' = true
  | inr _ => False
  end.

Lemma interrupted_refl h h' : proc h' = proc h -> interrupted h h' = false.
Proof. intros E. unfold interrupted. by rewrite E, Nat.sub_diag. Qed.

Lemma interrupted_trans h1 h2 h3 :
  (queries (proc h1) <= queries (proc h2))%nat -> (queries (proc h2) <= queries (proc h3))%nat ->
  interrupted h1 h3 = interrupted h1 h2 || interrupted h2 h3.
Proof.
  intros H1 H2. unfold interrupted, interrupted_within. rewrite <- existsb_app. f_equal.
  replace (queries (proc h3) - queries (proc h1))%nat
    with ((queries (proc h2) - queries (proc h1)) + (queries (proc h3) - queries (proc h2)))%nat by lia.
  rewrite seq_app. do 2 f_equal. lia.
Qed.

Lemma extends_trans h1 h2 h3 : extends h1 h2 -> extends h2 h3 -> extends h1 h3.
Proof.
  intros [? ? H1] [? ? H2]. constructor; [done|lia|]. intros a Ha. rewrite H2, H1 by lia. done.
Qed.

(** A run without queries. *)
Lemma settled_same V long h h' z : idle h -> proc h' = proc h -> computed h h' z V -> settled V long h (inl z) h'.
Proof.
  intros Hi Ep [He Hz Hn]. split; [done|]. unfold idle. rewrite Ep. split; [done|]. split; [done|].
  split; [by apply interrupted_refl|done].
Qed.

Lemma settled_self V long h x :
  heap_ok h -> idle h -> bigint_ok h x -> number h x = V -> settled V long h (inl x) h.
Proof. intros Hok Hi Hx <-. apply settled_same; [done|done|]. by apply computed_self. Qed.

Lemma settled_long V (long : Prop) h : heap_ok h -> idle h -> long -> settled V long h (inr kBigIntTooBig) h.
Proof.
  intros Hok Hi Hl. split; [by apply extends_refl|]. split; [done|]. split; [done|].
  split; [by apply interrupted_refl|done].
Qed.

(** A second operation behind one that has settled. *)
Lemma settled_trans V long h h1 h2 z W long1 r :
  settled W long1 h (inl z) h1 -> settled V long h1 r h2 -> settled V long h r h2.
Proof.
  intros (He1 & _ & Hq1 & I1 & _) (He2 & Hi2 & Hq2 & Hr). split; [by eapply extends_trans|].
  split; [done|]. split; [lia|]. rewrite (interrupted_trans h h1 h2), I1 by done. done.
Qed.

(** ** Products *)

(** The digits of an operand, for a result in new digits. *)
Lemma fresh_operand h len x :
  0 <= len -> bigint_ok h x -> operand_of (alloc h len) (mkDigits (free h) len) (mkDigits (free h) len) (digits x) kMaxInt.
Proof.
  intros Hl Hx. pose proof kMaxLength_pos. pose proof (bigint_lengths h x Hx). pose proof (bi_below h x Hx).
  unfold length in *. constructor; cbn.
  - lia.
  - lia.
  - intros _. by apply fresh_disjoint.
  - intros _. by apply fresh_disjoint.
Qed.

Lemma only_extends h h2 len : 0 <= len -> only (alloc h len) h2 (mkDigits (free h) len) -> extends h h2.
Proof.
  intros Hl [Hok Hf Hr]. cbn in Hf. constructor; [done|lia|]. intros a Ha. rewrite Hr; [done|cbn; lia|left; done].
Qed.

(** The end of an operation that has written its result into new digits. *)
Lemma finish_only h h2 len s V :
  0 <= len <= kMaxLength -> only (alloc h len) h2 (mkDigits (free h) len) -> (len = 0 -> s = false) ->
  signed s (value h2 (mkDigits (free h) len)) = V ->
  wp (let* r := MakeImmutable (mkBigInt s (mkDigits (free h) len)) in ret (inl r))
    (fun (r : MaybeHandle BigInt) h' => h' = h2 /\ exists z, r = inl z /\ computed h h2 z V) h2.
Proof.
  intros Hl Ho Hs HV. pose proof (only_extends _ _ _ (proj1 Hl) Ho) as He. destruct Ho as [Hok Hf _]. cbn in Hf.
  apply wp_bind. eapply wp_mono; [apply MakeImmutable_spec; unfold length; cbn; (done || lia)|].
  intros z h' (-> & Hz & En). apply wp_ret. split; [done|]. exists z. split; [done|].
  constructor; [done|done|]. rewrite En. exact HV.
Qed.

(** The end of an operation that has run on the processor. *)
Lemma finish_processor h h2 len s V long status :
  0 <= len <= kMaxLength -> answered (alloc h len) status h2 -> only (alloc h len) h2 (mkDigits (free h) len) ->
  (len = 0 -> s = false) -> (status = kOk -> signed s (value h2 (mkDigits (free h) len)) = V) ->
  wp (unless_interrupted status
        (let* r := MakeImmutable (mkBigInt s (mkDigits (free h) len)) in ret (inl r)))
    (settled V long h) h2.
Proof.
  intros Hl [Hst Hi Hq] Ho Hs HV. pose proof (only_extends _ _ _ (proj1 Hl) Ho) as He.
  change (interrupted (alloc h len) h2) with (interrupted h h2) in Hst.
  destruct (interrupted h h2) eqn:Ei; subst status; cbn [unless_interrupted].
  - by apply wp_ret.
  - eapply wp_mono; [apply finish_only; [done|done|done|by apply HV]|].
    intros r h' (-> & z & -> & [_ Hz Hn]). done.
Qed.

Context {AM : AdvancedMultiplication} {AMOK : AdvancedMultiplicationOK AM}.

(** When [BigInt::Multiply] throws. *)
Definition product_too_long (x y : BigInt) : Prop :=
  is_zero x = false /\ is_zero y = false /\ kMaxLength < length x + length y.

Lemma BigInt_Multiply_spec h x y :
  patient -> heap_ok h -> idle h -> bigint_ok h x -> bigint_ok h y ->
  wp (BigInt_Multiply x y)
    (fun r h' => settled (number h x * number h y) (product_too_long x y) h r h' /\
       (product_too_long x y -> r = inr kBigIntTooBig /\ h' = h)) h.
Proof.
  intros Hpat Hok Hi Hx Hy. unfold BigInt_Multiply.
  pose proof (bigint_lengths _ _ Hx) as LX. pose proof (bigint_lengths _ _ Hy) as LY.
  destruct (is_zero x) eqn:Zx.
  { apply wp_ret. split; [|intros [E _]; congruence]. apply settled_self; [done|done|done|]. rewrite (zero_number h x); (done || lia). }
  destruct (is_zero y) eqn:Zy.
  { apply wp_ret. split; [|intros (_ & E & _); congruence]. apply settled_self; [done|done|done|]. rewrite (zero_number h y); (done || lia). }
  apply wp_maybe. change (MultiplyResultLength (digits x) (digits y)) with (length x + length y).
  set (len := length x + length y) in *. apply wp_New; intros Hl.
  2: { split; [|done]. apply settled_long; done. }
  apply wp_bind. cbn [digits]. unfold set_sign. cbn [digits].
  assert (Hr : multiply_ready (alloc h len) (mkDigits (free h) len) (digits x) (digits y)).
  { constructor.
    - done.
    - split; cbn; lia.
    - apply fresh_operand; [lia|done].
    - apply fresh_operand; [lia|done].
    - done. }
  eapply wp_mono; [apply (Processor_Multiply_spec (alloc h len)); [done|by apply going_idle|done]|].
  intros s h2 (Ha & Ho & Hv). eapply wp_mono; [apply (finish_processor h h2 len _ (number h x * number h y) (product_too_long x y) s)|].
  - lia.
  - done.
  - done.
  - intros E. apply Z.eqb_neq in Zx. lia.
  - intros Es. rewrite Hv by done. unfold number. change (value (alloc h len)) with (value h).
    destruct (sign x), (sign y); cbn; lia.
  - intros r h' H. split; [exact H|]. intros (_ & _ & ?). lia.
Qed.

(** ** Long results *)

(** A magnitude with at least as many digits as the longest BigInt. *)
Definition large (V : Z) : Prop := kBase ^ (kMaxLength - 1) <= Z.abs V.

Lemma magnitude_number h x : heap_ok h -> bigint_ok h x -> Z.abs (number h x) = value h (digits x).
Proof.
  intros Hok Hx. pose proof (value_range h (digits x) Hok (proj1 (bigint_lengths _ _ Hx))).
  unfold number, signed. destruct (sign x); lia.
Qed.

Lemma magnitude_lower h x :
  heap_ok h -> bigint_ok h x -> is_zero x = false -> kBase ^ (length x - 1) <= Z.abs (number h x).
Proof.
  intros Hok Hx Zx. rewrite magnitude_number by done. apply Z.eqb_neq in Zx. destruct Hx as [Hn _ _ _].
  pose proof (proj1 Hn) as H0. unfold length in *. apply (normal_lower h (digits x) (len_ (digits x) - 1)); [done|done|lia].
Qed.

Lemma product_large h x y :
  heap_ok h -> bigint_ok h x -> bigint_ok h y -> product_too_long x y -> large (number h x * number h y).
Proof.
  intros Hok Hx Hy (Zx & Zy & Hl). pose proof (magnitude_lower h x Hok Hx Zx) as Mx.
  pose proof (magnitude_lower h y Hok Hy Zy) as My. apply Z.eqb_neq in Zx, Zy.
  pose proof (bigint_lengths h x Hx). pose proof (bigint_lengths h y Hy). unfold large. rewrite Z.abs_mul.
  transitivity (kBase ^ (length x - 1) * kBase ^ (length y - 1)).
  - rewrite <- Z.pow_add_r by lia. apply kBase_pow_mono. lia.
  - apply Z.mul_le_mono_nonneg; [|done| |done]; apply Z.lt_le_incl, kBase_pow_pos; lia.
Qed.

Lemma large_mono V W : Z.abs V <= Z.abs W -> large V -> large W.
Proof. unfold large. lia. Qed.

(** ** Powers *)

(** An operation behind another. *)
Lemma wp_settled_bind m k V W long longW h :
  wp m (settled W longW h) h -> (longW -> long) ->
  (forall z h1, settled W longW h (inl z) h1 -> wp (k z) (settled V long h1) h1) ->
  wp (maybe m k) (settled V long h) h.
Proof.
  intros Hm Hlong Hk. apply wp_maybe. eapply wp_mono; [exact Hm|]. intros [z|e] h1 Hs.
  - eapply wp_mono; [by apply Hk|]. intros r h2. by apply (settled_trans V long h h1 h2 z W longW).
  - destruct Hs as (He & Hi & Hq & Hr). do 3 (split; [done|]). destruct e; [|done..]. destruct Hr. auto.
Qed.

(** A product whose factors are factors of [V], with room for the rest of them. *)
Lemma wp_product_bind h x y k V :
  patient -> heap_ok h -> idle h -> bigint_ok h x -> bigint_ok h y ->
  Z.abs (number h x * number h y) <= Z.abs V ->
  (forall z h1, extends h h1 -> idle h1 -> bigint_ok h1 z -> number h1 z = number h x * number h y ->
     wp (k z) (settled V (large V) h1) h1) ->
  wp (maybe (BigInt_Multiply x y) k) (settled V (large V) h) h.
Proof.
  intros Hp Hok Hi Hx Hy Hle Hk. eapply wp_settled_bind.
  - eapply wp_mono; [by apply BigInt_Multiply_spec|]. intros r h' [H _]. exact H.
  - intros Hl. eapply large_mono; [exact Hle|]. by apply product_large.
  - intros z h1 (He & Hi1 & _ & _ & Hz & Hn). by apply Hk.
Qed.

Definition factor (h : Heap) (result : option BigInt) : Z :=
  match result with Some r => number h r | None => 1 end.

Definition factor_ok (h : Heap) (result : option BigInt) (n : Z) : Prop :=
  match result with Some r => bigint_ok h r | None => 0 < n end.

Lemma pow_abs_ge_1 a n : a <> 0 -> 0 <= n -> 1 <= Z.abs (a ^ n).
Proof. intros Ha Hn. assert (a ^ n <> 0) by (by apply Z.pow_nonzero). lia. Qed.

Lemma abs_le_mul a c : c <> 0 -> Z.abs a <= Z.abs (a * c).
Proof. intros. rewrite Z.abs_mul. nia. Qed.

Lemma half_steps n : 0 < n ->
  Z.shiftr n 1 = n / 2 /\ (if negb (Z.land n 1 =? 0) then n = 2 * (n / 2) + 1 else n = 2 * (n / 2)).
Proof.
  intros Hn. split; [by rewrite Z.shiftr_div_pow2|].
  change (Z.land n 1) with (Z.land n (Z.ones 1)). rewrite Z.land_ones by lia. change (2 ^ 1) with 2.
  pose proof (Z.div_mod n 2 ltac:(lia)). pose proof (Z.mod_pos_bound n 2 ltac:(lia)). destruct (Z.eqb_spec (n mod 2) 0); cbn; lia.
Qed.

Lemma exponentiate_loop_spec fuel : forall h n result square,
  patient -> heap_ok h -> idle h -> bigint_ok h square -> number h square <> 0 ->
  factor_ok h result n -> factor h result <> 0 -> 0 <= n < 2 ^ Z.of_nat fuel ->
  let V := factor h result * number h square ^ (2 * n) in
  wp (exponentiate_loop (S fuel) n result square) (settled V (large V) h) h.
Proof.
  induction fuel as [|fuel IH]; intros h n result square Hp Hok Hi Hs Hs0 Hr Hr0 Hn V.
  { assert (n = 0) as -> by (cbn in Hn; lia). cbn. destruct result as [r|]; [|cbn in Hr; lia].
    apply wp_ret, settled_self; try done. subst V. cbn. lia. }
  remember (S fuel) as fuel' eqn:Ef. cbn [exponentiate_loop].
  destruct (Z.eqb_spec n 0) as [->|Hn0]; cbn [negb].
  { destruct result as [r|]; [|cbn in Hr; lia]. apply wp_ret, settled_self; try done. subst V. cbn. lia. }
  subst fuel'. rewrite Nat2Z.inj_succ, Z.pow_succ_r in Hn by lia.
  destruct (half_steps n ltac:(lia)) as [-> Hhalf]. set (b := negb (Z.land n 1 =? 0)) in *.
  set (m := n / 2) in *. assert (Hm : 0 <= m < 2 ^ Z.of_nat fuel) by (destruct b; lia).
  set (s := number h square) in *. set (f := factor h result) in *.
  assert (EV : V = f * ((s * s) ^ (2 * m) * (if b then s * s else 1))).
  { subst V. rewrite (Z.pow_mul_r s 2 n), Z.pow_2_r by lia. destruct b; rewrite Hhalf at 1; [|ring].
    rewrite Z.pow_add_r, Z.pow_1_r by lia. ring. }
  assert (Hss : s * s <> 0) by nia. pose proof (pow_abs_ge_1 (s * s) (2 * m) Hss ltac:(lia)) as Hge.
  assert (Hle : Z.abs (s * s) <= Z.abs V).
  { destruct b.
    - replace V with (s * s * (f * (s * s) ^ (2 * m))) by (rewrite EV; ring).
      apply abs_le_mul, Z.neq_mul_0. split; [done|lia].
    - replace V with (s * s * (f * (s * s) ^ (2 * m - 1))).
      + apply abs_le_mul, Z.neq_mul_0. split; [done|]. pose proof (pow_abs_ge_1 (s * s) (2 * m - 1) Hss ltac:(lia)). lia.
      + rewrite EV. replace (2 * m) with (1 + (2 * m - 1)) at 2 by lia. rewrite Z.pow_add_r, Z.pow_1_r by lia. ring. }
  apply wp_product_bind; [done..|]. intros z h1 He Hi1 Hz Hzn. fold s in Hzn.
  pose proof (ext_ok _ _ He) as Hok1.
  assert (Hr1 : factor h1 result = f /\ (factor_ok h result m -> factor_ok h1 result m)).
  { destruct result as [r|]; [|done]. cbn in Hr. by destruct (extends_bigint h h1 r He Hr). }
  destruct Hr1 as [Ef Hrk].
  assert (IHz : forall g r', extends h1 g -> idle g -> factor_ok g r' m -> factor g r' = f * (if b then s * s else 1) ->
    wp (exponentiate_loop (S fuel) m r' z) (settled V (large V) g) g).
  { intros g r' Hg Hig Hrg Efg. destruct (extends_bigint h1 g z Hg Hz) as [Hzg Ezg]. rewrite Hzn in Ezg.
    replace V with (factor g r' * number g z ^ (2 * m)) by (rewrite Efg, Ezg, EV; ring).
    apply IH; try done; [apply Hg|congruence|]. rewrite Efg. destruct b; nia. }
  destruct b.
  - destruct result as [r|].
    + cbn in Hr. destruct (extends_bigint h h1 r He Hr) as [Hr1 Ern]. cbn in f. fold f in Ern.
      apply wp_product_bind; try done.
      * rewrite Ern, Hzn, EV. replace (f * ((s * s) ^ (2 * m) * (s * s))) with (f * (s * s) * (s * s) ^ (2 * m)) by ring. apply abs_le_mul. lia.
      * intros r' g Hg Hig Hrg Erg. apply IHz; try done. cbn. by rewrite Erg, Ern, Hzn.
    + apply IHz; [by apply extends_refl|done|done|]. cbn. subst f. cbn. by rewrite Hzn, Z.mul_1_l.
  - apply IHz; [by apply extends_refl|done|apply Hrk|by rewrite Ef, Z.mul_1_r].
    destruct result; [done|]. cbn in *. lia.
Qed.

(** The top digit of a vector of zeros. *)
Lemma store_top h h2 D v :
  wrote h h2 D (len_ D) -> value h2 D = 0 -> 0 < len_ D -> is_digit v ->
  let h3 := store h2 (digits_ D + (len_ D - 1)) v in
  wrote h h3 D (len_ D) /\ value h3 D = v * kBase ^ (len_ D - 1).
Proof.
  intros [Hok Hf Hr] Hv Hl Hd h3. split.
  - constructor; [|done|]; intros a; cbn.
    + destruct (a =? _); [done|apply Hok].
    + intros Ha. destruct (Z.eqb_spec a (digits_ D + (len_ D - 1))); [lia|by apply Hr].
  - unfold value in *. rewrite sum_pred in Hv |- * by done. cbn. rewrite sum_store_high, Z.eqb_refl by lia.
    pose proof (sum_range (cell h2) (digits_ D) (len_ D - 1) Hok ltac:(lia)).
    pose proof (Hok (digits_ D + (len_ D - 1))) as [? _]. pose proof (kBase_pow_pos (len_ D - 1) ltac:(lia)). nia.
Qed.

Lemma odd_land n : 0 < n -> negb (Z.land n 1 =? 0) = Z.odd n.
Proof.
  intros Hn. destruct (half_steps n Hn) as [_ H]. destruct (negb _) eqn:E; symmetry.
  - apply Z.odd_spec. by exists (n / 2).
  - rewrite <- Z.negb_even. apply negb_false_iff, Z.even_spec. by exists (n / 2).
Qed.

Lemma pow_signed (s : bool) a n : 0 <= n -> signed s a ^ n = signed (s && Z.odd n) (a ^ n).
Proof.
  intros Hn. destruct s; cbn; [|done]. destruct (Z.odd n) eqn:E; cbn.
  - apply Z.pow_opp_odd. by apply Z.odd_spec.
  - apply Z.pow_opp_even, Z.even_spec. by rewrite <- Z.negb_odd, E.
Qed.

Lemma power_of_two_spec h base n :
  heap_ok h -> idle h -> Z.abs (number h base) = 2 -> sign base = (number h base <? 0) -> 0 < n < kMaxLengthBits ->
  wp (power_of_two base n) (settled (number h base ^ n) (large (number h base ^ n)) h) h.
Proof.
  intros Hok Hi Hb Hs Hn. unfold power_of_two. pose proof kDigitBits_pos as HB. pose proof kMaxLength_bits as HK.
  assert (HB0 : kDigitBits <> 0 /\ 0 < kDigitBits) by lia.
  pose proof (Z.div_mod n kDigitBits (proj1 HB0)) as Ediv. pose proof (Z.mod_pos_bound n kDigitBits (proj2 HB0)) as Hmod.
  assert (Hq : 0 <= n / kDigitBits) by (apply Z.div_pos; lia).
  set (q := n / kDigitBits) in *. set (r := n mod kDigitBits) in *.
  assert (Hl : 1 + q <= kMaxLength) by nia.
  assert (Hd : digit_t (Z.shiftl 1 r) = 2 ^ r /\ is_digit (2 ^ r)).
  { rewrite Z.shiftl_1_l. assert (is_digit (2 ^ r)); [|by rewrite digit_t_small].
    split; [apply Z.pow_nonneg; lia|]. apply Z.pow_lt_mono_r; lia. }
  destruct Hd as [Ed Hd]. apply wp_maybe, wp_New; [intros _|lia]. cbn [digits].
  set (D := mkDigits (free h) (1 + q)).
  change (InitializeDigits _ (1 + q) 0) with (Clear D). apply wp_bind.
  eapply wp_mono; [apply wp_quiet; [quiet_tac|apply Clear_spec; [exact Hok|cbn; lia]]|].
  intros [] h2 [[Hw Hv] Ep]. apply wp_bind, wp_set; [cbn; lia|]. rewrite Ed.
  destruct (store_top (alloc h (1 + q)) h2 D (2 ^ r) Hw Hv ltac:(cbn; lia) Hd) as [Hw3 Hv3].
  set (h3 := store h2 _ _) in *. unfold set_sign. cbn [digits].
  set (z := if sign base then _ else _). assert (Ez : z = mkBigInt (sign base && Z.odd n) D).
  { subst z. rewrite odd_land by lia. by destruct (sign base). }
  rewrite Ez. eapply wp_mono; [apply (finish_only h h3 (1 + q) _ (number h base ^ n))|].
  - lia.
  - destruct Hw3 as [Ha Hb3 Hc]. constructor; [done|done|]. intros a _ Ho. by apply Hc.
  - lia.
  - replace (number h base) with (signed (sign base) 2) by (rewrite Hs; destruct (Z.ltb_spec (number h base) 0); cbn; lia).
    rewrite pow_signed by lia. f_equal. fold D. rewrite Hv3. cbn [len_ D]. replace (1 + q - 1) with q by lia.
    rewrite kBase_pow2, <- Z.pow_add_r by lia. f_equal. lia.
  - intros r' h' (-> & z' & -> & Hz). apply settled_same; done.
Qed.

Lemma large_pow b e : 2 <= Z.abs b -> kMaxLengthBits <= e -> large (b ^ e).
Proof.
  intros Hb He. assert (H0 : 0 <= kMaxLengthBits) by done. revert He H0.
  pose proof kMaxLengthBits_eq as E. revert E. generalize kMaxLengthBits. intros k E He H0. unfold large.
  etrans; [apply (kBase_pow_mono _ kMaxLength); lia|]. rewrite E, Z.abs_pow.
  etrans; [apply (Z.pow_le_mono_r 2 k e); lia|]. apply Z.pow_le_mono_l. lia.
Qed.

(** ** The whole of [Exponentiate] *)

Section Exponentiate.
Context (h : Heap) (base exponent : BigInt).
Hypotheses (Hok : heap_ok h) (Hi : idle h) (Hb : bigint_ok h base) (He : bigint_ok h exponent).
Hypothesis Hs : sign exponent = false.

Let b := number h base.
Let e := number h exponent.

Lemma exponent_digit :
  is_zero exponent = false ->
  0 < e /\ is_digit (cell h (digits_ (digits exponent))) /\
  Z.odd (cell h (digits_ (digits exponent))) = Z.odd e /\
  (length exponent <= 1 -> cell h (digits_ (digits exponent)) = e) /\
  (1 < length exponent -> kMaxLengthBits <= e).
Proof.
  intros Hz. pose proof (bigint_pos h exponent Hok He Hz) as Hp. pose proof (bigint_lengths h exponent He) as [L0 _].
  apply Z.eqb_neq in Hz. subst e. unfold number, length in *. rewrite Hs. cbn [signed].
  split; [done|]. split; [apply Hok|]. split; [|split].
  - unfold value. rewrite sum_cons by lia. pose proof kDigitBits_pos.
    replace kBase with (2 * 2 ^ (kDigitBits - 1)).
    + rewrite <- Z.mul_assoc, Z.odd_add_mul_2. done.
    + unfold kBase. rewrite <- Z.pow_succ_r by lia. f_equal. lia.
  - intros L1. by rewrite (value_single h) by lia.
  - intros L1. destruct He as [Hn _ _ _].
    pose proof (normal_lower h (digits exponent) 1 Hok Hn ltac:(lia)) as Hlow. rewrite Z.pow_1_r in Hlow.
    pose proof kBase_pos. unfold kMaxLengthBits. change (Z.shiftl 1 30) with (2 ^ 30). lia.
Qed.

Lemma wp_single_digit v (k : bool -> M Heap (MaybeHandle BigInt)) Q :
  (Z.abs b = v -> wp (k true) Q h) -> (Z.abs b <> v -> wp (k false) Q h) -> 0 < v < 2 ^ 32 ->
  wp (let* u := (if length base =? 1 then let* d := digit base 0 in ret (d =? v) else ret false) in k u) Q h.
Proof.
  intros H1 H2 Hv. apply wp_bind. pose proof (magnitude_number h base Hok Hb) as Hm. fold b in Hm.
  pose proof (bigint_lengths h base Hb) as [L0 _]. destruct (Z.eqb_spec (length base) 1) as [E|E].
  - apply wp_bind, wp_get; [unfold length in E; lia|]. apply wp_ret. rewrite Z.add_0_r.
    rewrite (value_single h) in Hm by done. rewrite <- Hm. destruct (Z.eqb_spec (Z.abs b) v); auto.
  - apply wp_ret, H2. rewrite Hm. intros Ev. destruct Hb as [Hn _ _ _]. pose proof kBase_pos.
    destruct (Z_le_gt_dec (len_ (digits base)) 0) as [L|L].
    + rewrite value_empty in Ev by done. lia.
    + unfold length in E. pose proof (normal_lower h (digits base) 1 Hok Hn ltac:(lia)) as Hlow.
      rewrite Z.pow_1_r in Hlow. lia.
Qed.

Lemma Exponentiate_unsigned :
  patient -> wp (BigInt_Exponentiate base exponent) (settled (b ^ e) (large (b ^ e)) h) h.
Proof.
  intros Hp. unfold BigInt_Exponentiate. rewrite Hs. destruct (is_zero exponent) eqn:Ze.
  { apply wp_bind. eapply wp_mono; [apply wp_quiet; [auto with quiet|apply NewFromInt_spec; [done|lia]]|].
    intros z h' [Hz Ep]. apply wp_ret. apply settled_same; [done|done|].
    subst e. by rewrite (zero_number h exponent). }
  destruct (exponent_digit Ze) as (He0 & Hd & Hodd & Hshort & Hlong).
  destruct (is_zero base) eqn:Zb.
  { apply wp_ret, settled_self; [done|done|done|]. subst b. by rewrite (zero_number h base), Z.pow_0_l. }
  pose proof (bigint_sign h base Hok Hb) as Hsign. fold b in Hsign.
  pose proof (bigint_pos h base Hok Hb Zb) as Hpos. rewrite <- (magnitude_number h base) in Hpos by done. fold b in Hpos.
  assert (Eb : b = signed (sign base) (Z.abs b)) by (destruct (sign base); cbn; lia).
  apply wp_single_digit; [intros Hb1|intros Hb1|lia].
  { assert (Ep : b ^ e = signed (sign base && Z.odd e) 1)
      by (rewrite Eb, Hb1, pow_signed, Z.pow_1_l by lia; done).
    apply wp_bind. apply (wp_mono _ (fun v h' => h' = h /\ v = sign base && negb (Z.odd e))).
    { destruct (sign base); [|by apply wp_ret]. apply wp_bind, wp_get.
      - pose proof (bigint_lengths h exponent He). apply Z.eqb_neq in Ze. unfold length in *. lia.
      - rewrite Z.add_0_r. apply wp_ret. split; [done|]. rewrite <- Hodd. change 1 with (Z.ones 1) at 1.
        rewrite Z.land_ones by lia. change (2 ^ 1) with 2. rewrite Zmod_odd. by destruct (Z.odd _). }
    intros v h' [-> ->]. destruct (sign base) eqn:Es, (Z.odd e) eqn:Eo; cbn [andb negb signed] in *.
    - apply wp_ret, settled_self; [done|done|done|]. fold b. lia.
    - apply wp_bind. eapply wp_mono; [apply wp_quiet; [auto with quiet|by apply UnaryMinus_spec]|].
      intros z h' [Hz Epr]. apply wp_ret. apply settled_same; [done|done|]. fold b in Hz. rewrite Ep.
      by replace 1 with (- b) by lia.
    - apply wp_ret, settled_self; [done|done|done|]. fold b. lia.
    - apply wp_ret, settled_self; [done|done|done|]. fold b. lia. }
  destruct (Z.ltb_spec 1 (length exponent)) as [L1|L1].
  { apply wp_ret, settled_long; [done|done|]. apply large_pow; [lia|auto]. }
  specialize (Hshort L1). pose proof (bigint_lengths h exponent He) as [L0 _]. apply Z.eqb_neq in Ze.
  apply wp_bind, wp_get; [unfold length in *; lia|]. rewrite Z.add_0_r, Hshort.
  destruct (Z.eqb_spec e 1) as [E1|E1].
  { apply wp_ret, settled_self; [done|done|done|]. by rewrite E1, Z.pow_1_r. }
  destruct (Z.leb_spec kMaxLengthBits e) as [Ek|Ek].
  { apply wp_ret, settled_long; [done|done|]. apply large_pow; [lia|done]. }
  rewrite int32_bits by lia. apply wp_single_digit; [intros Hb2|intros Hb2|lia].
  - apply power_of_two_spec; [done|done|done| |lia]. fold b. symmetry. destruct (sign base).
    + by apply Z.ltb_lt.
    + by apply Z.ltb_ge.
  - destruct (half_steps e He0) as [Esh Hhalf]. rewrite Esh.
    set (m := e / 2) in *. set (odd := negb (Z.land e 1 =? 0)) in *.
    set (result := if odd then Some base else None).
    assert (Ef : b ^ e = factor h result * b ^ (2 * m)).
    { subst result. destruct odd; rewrite Hhalf at 1; cbn; fold b; [|ring].
      rewrite Z.pow_add_r, Z.pow_1_r by lia. ring. }
    rewrite Ef. assert (Hm : 0 < m < 2 ^ 30).
    { unfold kMaxLengthBits in Ek. change (Z.shiftl 1 30) with (2 ^ 30) in Ek. destruct odd; lia. }
    apply (exponentiate_loop_spec 30); [done..| | | |].
    + fold b. lia.
    + subst result. destruct odd; [done|]. cbn. lia.
    + subst result. destruct odd; cbn; fold b; lia.
    + change (Z.of_nat 30) with 30. lia.
Qed.
End Exponentiate.

Lemma BigInt_Exponentiate_spec h base exponent :
  patient -> heap_ok h -> idle h -> bigint_ok h base -> bigint_ok h exponent ->
  wp (BigInt_Exponentiate base exponent)
    (fun r h' =>
       if number h exponent <? 0 then r = inr kMustBePositive /\ h' = h
       else let V := number h base ^ number h exponent in settled V (large V) h r h') h.
Proof.
  intros Hp Hok Hi Hb He. pose proof (bigint_sign h exponent Hok He) as Hs. destruct (sign exponent) eqn:Es.
  - rewrite (proj2 (Z.ltb_lt _ _)) by done. unfold BigInt_Exponentiate. rewrite Es. by apply wp_ret.
  - rewrite (proj2 (Z.ltb_ge _ _)) by done. by apply Exponentiate_unsigned.
Qed.

End ProductsSpec.
