(* ===== verification/BigIntQuotients.v ===== *)
(** * Quotients and remainders

    The choice of a division algorithm on the processor and the operations
    [BigInt::Divide] and [BigInt::Remainder] that use it. Barrett division, which
    only builds with the advanced algorithms have, is a parameter with a
    contract. *)

From stdpp Require Import base list numbers.
From Stdlib Require Import ZArith Lia Bool.
From S2P Require Import Prelude.
From S2P Require Import BigIntDigits.
From S2P Require Import BigIntVectors.
From S2P Require Import BigIntMul.
From S2P Require Import BigIntDiv.
From S2P Require Import BigIntKaratsuba.
From S2P Require Import BigIntProcessor.
From S2P Require Import BigIntBurnikel.
From S2P Require Import BigIntObjects.
From S2P Require Import BigIntProducts.

Local Open Scope Z_scope.
Local Open Scope prog_scope.
Local Open Scope handle_scope.

Definition kBarrettThreshold : Z := 13310.

(** The algorithm of [div-barrett.cc]. *)
Class AdvancedDivision := {
  DivideBarrett : Digits -> Digits -> Digits -> Digits -> M Heap unit
}.

Section Lengths.
Context {BB : BigIntBuild}.

Definition DivideResultLength (A B : Digits) : Z :=
  let kBarrettExtraScratch :=
    (if V8_ADVANCED_BIGINT_ALGORITHMS then if kBarrettThreshold <=? len_ B then 1 else 0 else 0) in
  len_ A - len_ B + 1 + kBarrettExtraScratch.

Definition ModuloResultLength (B : Digits) : Z := len_ B.

End Lengths.

(** ** The processor *)

Module Divider.
Section Divide.
Context {T : DigitTarget} {P : Platform} {BB : BigIntBuild} {AM : AdvancedMultiplication} {AD : AdvancedDivision}.
Local Abbreviation HM := (M Heap).

(** [RWDigits(nullptr, 0)]: a view of no digits. Nothing is read from it or
    written to it, so that its place does not matter. *)
Definition no_digits : HM Digits := gets (fun h => mkDigits (free h) 0).

Definition Divide (Q A B : Digits) : HM unit :=
  let* A := Normalize A in
  let* B := Normalize B in
  DCHECK (0 <? len_ B) ;;;
  let* cmp := Compare A B in
  if cmp <? 0 then Clear Q
  else if cmp =? 0 then set Q 0 1 ;;; for_up 1 (len_ Q) (zero_at Q) tt
  else if len_ B =? 1 then
    let* b := get B 0 in
    let* _ := DivideSingle Q A b in ret tt
  else
    let* none := no_digits in
    if len_ B <? kBurnikelThreshold then DivideSchoolbook Q none A B
    else if negb V8_ADVANCED_BIGINT_ALGORITHMS then DivideBurnikelZiegler Q none A B
    else if (len_ B <? kBarrettThreshold) || (len_ A =? len_ B) then DivideBurnikelZiegler Q none A B
    else with_scratch (len_ B) (fun R => DivideBarrett Q R A B).

Definition Modulo (R A B : Digits) : HM unit :=
  let* A := Normalize A in
  let* B := Normalize B in
  DCHECK (0 <? len_ B) ;;;
  let* cmp := Compare A B in
  if cmp <? 0 then
    for_up 0 (len_ B) (copy_at R B) tt ;;;
    for_up (len_ B) (len_ R) (zero_at R) tt
  else if cmp =? 0 then Clear R
  else if len_ B =? 1 then
    let* b := get B 0 in
    let* none := no_digits in
    let* remainder := DivideSingle none A b in
    set R 0 remainder ;;;
    for_up 1 (len_ R) (zero_at R) tt
  else if len_ B <? kBurnikelThreshold then
    let* none := no_digits in DivideSchoolbook none R A B
  else
    let q_len := DivideResultLength A B in
    with_scratch q_len (fun Q =>
      if negb V8_ADVANCED_BIGINT_ALGORITHMS then DivideBurnikelZiegler Q R A B
      else if (len_ B <? kBarrettThreshold) || (len_ A =? len_ B) then DivideBurnikelZiegler Q R A B
      else DivideBarrett Q R A B).

Definition Processor_Divide (Q A B : Digits) : HM Status := Divide Q A B ;;; get_and_clear_status.

Definition Processor_Modulo (R A B : Digits) : HM Status := Modulo R A B ;;; get_and_clear_status.

End Divide.
End Divider.

(** ** BigInts *)

Section Quotients.
Context {T : DigitTarget} {P : Platform} {BB : BigIntBuild} {AM : AdvancedMultiplication} {AD : AdvancedDivision}.
Local Abbreviation HM := (M Heap).

(** [y->length() == 1 && y->digit(0) == 1]. *)
Definition is_unit (y : BigInt) : HM bool :=
  if length y =? 1 then let* d := digit y 0 in ret (d =? 1) else ret false.

Definition BigInt_Divide (x y : BigInt) : HM (MaybeHandle BigInt) :=
  if is_zero y then ret (inr kBigIntDivZero)
  else
    let* c := Compare (digits x) (digits y) in
    if c <? 0 then let* z := Zero in ret (inl z)
    else
      let result_sign := negb (Bool.eqb (sign x) (sign y)) in
      let* one := is_unit y in
      if one : bool then
        if Bool.eqb result_sign (sign x) then ret (inl x) else let* r := UnaryMinus x in ret (inl r)
      else
        let result_length := DivideResultLength (digits x) (digits y) in
        let? quotient := New result_length in
        let* status := Divider.Processor_Divide (digits quotient) (digits x) (digits y) in
        unless_interrupted status
          (let* r := MakeImmutable (set_sign quotient result_sign) in ret (inl r)).

Definition BigInt_Remainder (x y : BigInt) : HM (MaybeHandle BigInt) :=
  if is_zero y then ret (inr kBigIntDivZero)
  else
    let* c := Compare (digits x) (digits y) in
    if c <? 0 then ret (inl x)
    else
      let* one := is_unit y in
      if one : bool then let* z := Zero in ret (inl z)
      else
        let result_length := ModuloResultLength (digits y) in
        let? remainder := New result_length in
        let* status := Divider.Processor_Modulo (digits remainder) (digits x) (digits y) in
        unless_interrupted status
          (let* r := MakeImmutable (set_sign remainder (sign x)) in ret (inl r)).

End Quotients.
