(* ===== verification/BigIntQuotientsSpec.v ===== *)
(** * Quotients and remainders are exact

    The processor's division and what [BigInt::Divide] and [BigInt::Remainder]
    make of it: the exact quotient, rounded towards zero, and the remainder. *)

From stdpp Require Import base list numbers.
From Stdlib Require Import ZArith Lia Bool.
From S2P Require Import Prelude.
From S2P Require Import BigIntDigits.
From S2P Require Import BigIntVectors.
From S2P Require Import BigIntMemory.
From S2P Require Import BigIntArithmetic.
From S2P Require Import BigIntMul.
From S2P Require Import BigIntShift.
From S2P Require Import BigIntDiv.
From S2P Require Import BigIntDivSpec.
From S2P Require Import BigIntBitwise.
From S2P Require Import BigIntBitwiseSpec.
From S2P Require Import BigIntTruncateSpec.
From S2P Require Import BigIntInterrupts.
From S2P Require Import BigIntKaratsuba.
From S2P Require Import BigIntKaratsubaSpec.
From S2P Require Import BigIntKaratsubaChunks.
From S2P Require Import BigIntProcessor.
From S2P Require Import BigIntBurnikel.
From S2P Require Import BigIntBurnikelSpec.
From S2P Require Import BigIntBurnikelBlocks.
From S2P Require Import BigIntObjects.
From S2P Require Import BigIntQuiet.
From S2P Require Import BigIntObjectsSpec.
From S2P Require Import BigIntObjectsBitsSpec.
From S2P Require Import BigIntProducts.
From S2P Require Import BigIntProductsSpec.
From S2P Require Import BigIntQuotients.

Local Open Scope Z_scope.
Local Open Scope prog_scope.
Local Open Scope handle_scope.

Section QuotientsSpec.
Context {T : DigitTarget} {P : Platform} {BB : BigIntBuild} {TOK : DigitTargetOK T}.

(** ** The contract of Barrett division *)

(** The dividend is longer than the divisor, and the quotient has a digit to
    spare. *)
Record barrett_ready (h : Heap) (Q R A B : Digits) : Prop := {
  ba_ok : heap_ok h;
  ba_lens : kBarrettThreshold <= len_ B < len_ A /\ 2 * len_ B <= kMaxInt;
  ba_results : len_ A - len_ B + 2 <= len_ Q /\ len_ B <= len_ R;
  ba_normal : is_normalized h A /\ is_normalized h B;
  ba_below : below Q (free h) /\ below R (free h) /\ below A (free h) /\ below B (free h);
  ba_QR : disjoint Q R;
  ba_operands : disjoint Q A /\ disjoint Q B /\ disjoint R A /\ disjoint R B
}.

Class AdvancedDivisionOK (AD : AdvancedDivision) : Prop := {
  barrett_divides : V8_ADVANCED_BIGINT_ALGORITHMS = true ->
    forall h Q R A B, barrett_ready h Q R A B ->
    wp (DivideBarrett Q R A B) (fun _ => divided_into h Q R (value h A) (value h B)) h
}.

(** ** What a division on the processor needs *)

(** Operands without leading zeros, and a result that does not overlap them. *)
Record operands_ready (h : Heap) (D A B : Digits) : Prop := {
  or_ok : heap_ok h;
  or_going : going h;
  or_normal : is_normalized h A /\ is_normalized h B;
  or_divisor : 0 < len_ B /\ 2 * len_ B <= kMaxInt;
  or_below : below D (free h) /\ below A (free h) /\ below B (free h);
  or_apart : disjoint D A /\ disjoint D B
}.

(** The outcome for the one result that is asked for. *)
Definition result_is (h : Heap) (D : Digits) (V : Z) (h' : Heap) : Prop :=
  changed h h' [D] /\ (status_ (proc h') = kOk -> value h' D = V).

Lemma wrote_result h h' D V :
  (wrote h h' D (len_ D) /\ value h' D = V) /\ polled h h' -> result_is h D V h'.
Proof. intros [[Hw Hv] Hp]. split; [by apply changed_first|done]. Qed.

(** A vector of no digits. *)
Lemma changed_empty h h' D E : changed h h' [D; E] -> len_ E = 0 -> changed h h' [D].
Proof.
  intros [Hok Hf Hp Hfr] E0. constructor; [done|done|done|]. intros a Ha Ho. apply Hfr; [done|].
  apply List.Forall_cons_iff in Ho as [HD _]. each_apart; [done|]. unfold outside. lia.
Qed.

Lemma changed_empty_first h h' D E : changed h h' [E; D] -> len_ E = 0 -> changed h h' [D].
Proof.
  intros Hc. apply changed_empty. apply (changed_mono _ _ _ _ Hc).
  each_apart; [apply exists_next|]; apply exists_self.
Qed.

(** A vector that begins at the end of memory. *)
Lemma end_of_memory h X n : below X (free h) -> disjoint (mkDigits (free h) n) X /\ disjoint X (mkDigits (free h) n).
Proof. intros [_ H]. split; [right|left]; done. Qed.

Lemma normal_ge h A B :
  heap_ok h -> is_normalized h A -> is_normalized h B -> 0 < len_ B -> value h B <= value h A -> len_ B <= len_ A.
Proof.
  intros Hok [LA _] NB HB Hle. destruct (Z_lt_le_dec (len_ A) (len_ B)) as [Hlt|]; [|done].
  pose proof (normal_lower h B (len_ B - 1) Hok NB ltac:(lia)). pose proof (value_range h A Hok LA).
  pose proof (kBase_pow_mono (len_ A) (len_ B - 1) ltac:(lia)). lia.
Qed.

Lemma normal_top h A : is_normalized h A -> 0 < len_ A -> cell h (digits_ A + (len_ A - 1)) <> 0.
Proof. intros [_ H]. exact H. Qed.

Lemma normal_eq h A A' : heap_ok h -> is_normalized h A -> normalized h A A' -> A' = A.
Proof.
  intros Hok HA NA. pose proof (norm_len _ _ _ NA) as Hl. destruct HA as [H0 HA].
  destruct (Z.eq_dec (len_ A) 0) as [E|E].
  - pose proof (norm_digits _ _ _ NA). destruct A, A'. cbn in *. f_equal; lia.
  - apply (normalized_same h); [done|done|lia|apply HA; lia].
Qed.

Section Algorithms.
Context (h : Heap) (A B : Digits).
Hypotheses (Hok : heap_ok h) (Hgo : going h) (NA : is_normalized h A) (NB : is_normalized h B).
Hypotheses (BA : below A (free h)) (BB' : below B (free h)).
Hypotheses (HlB : 2 <= len_ B <= len_ A) (HI : 2 * len_ B <= kMaxInt).

(** Schoolbook division into vectors of which one may have no digits. *)
Lemma schoolbook_divides Q R :
  len_ Q = 0 \/ len_ A - len_ B + 1 <= len_ Q -> len_ R = 0 \/ len_ B <= len_ R ->
  below Q (free h) -> below R (free h) -> disjoint Q B -> disjoint Q R ->
  wp (DivideSchoolbook Q R A B)
    (fun _ h' => changed h h' [Q; R] /\ (len_ Q <> 0 -> value h' Q = value h A / value h B) /\
      (len_ R <> 0 -> value h' R = value h A mod value h B)) h.
Proof.
  intros LQ LR BQ BR QB QR. pose proof (normal_top h B NB ltac:(lia)) as Htop.
  eapply wp_mono; [apply wp_polls; [polls_tac|apply (DivideSchoolbook_spec h Q R A B)]|].
  - constructor; try done. destruct LQ as [E|L]; [by left|right]. split; [lia|by apply fits_length; [|lia|..]].
  - intros [] h' [[Hok' Hf' Hfr' Hq Hrm] Hp]. split; [|done]. constructor; [done|done|done|]. intros a Ha Ho.
    apply List.Forall_cons_iff in Ho as [H1 Ho]. apply List.Forall_cons_iff in Ho as [H2 _]. by apply Hfr'.
Qed.

Lemma burnikel_divides {AM : AdvancedMultiplication} {AMOK : AdvancedMultiplicationOK AM} Q R :
  kBurnikelThreshold <= len_ B -> len_ A - len_ B + 1 <= len_ Q -> len_ R = 0 \/ len_ B <= len_ R ->
  below Q (free h) -> below R (free h) -> disjoint Q R ->
  wp (DivideBurnikelZiegler Q R A B) (fun _ => divided_into h Q R (value h A) (value h B)) h.
Proof.
  intros Ht LQ LR BQ BR QR. apply DivideBurnikelZiegler_spec. constructor; try done; [lia|lia|].
  split; by apply normal_top; [|lia].
Qed.

End Algorithms.

Context {AM : AdvancedMultiplication} {AMOK : AdvancedMultiplicationOK AM}.
Context {AD : AdvancedDivision} {ADOK : AdvancedDivisionOK AD}.

Lemma result_room A B n : DivideResultLength A B <= n ->
  len_ A - len_ B + 1 <= n /\ (V8_ADVANCED_BIGINT_ALGORITHMS = true -> kBarrettThreshold <= len_ B -> len_ A - len_ B + 2 <= n).
Proof.
  unfold DivideResultLength. destruct V8_ADVANCED_BIGINT_ALGORITHMS; [|lia].
  destruct (Z.leb_spec kBarrettThreshold (len_ B)); lia.
Qed.

Lemma wp_result {A} (m : M Heap A) h D V :
  polls m -> wp m (fun _ h' => wrote h h' D (len_ D) /\ value h' D = V) h -> wp m (fun _ => result_is h D V) h.
Proof. intros Hm H. eapply wp_mono; [by apply wp_polls|]. intros x h'. apply wrote_result. Qed.

(** A result of one digit. *)
Lemma put_digit_spec h D v :
  heap_ok h -> 0 < len_ D -> is_digit v ->
  wp (set D 0 v ;;; for_up 1 (len_ D) (zero_at D) tt) (fun _ => result_is h D v) h.
Proof.
  intros Hok HD Hd. apply wp_result; [polls_tac|]. apply wp_bind, wp_set; [lia|]. set (h1 := store h _ _).
  assert (Hacc : accumulated h h1 D 1 v 0).
  { split; [apply (wrote_store h h D 0); [by apply wrote_refl|lia|done]|].
    change 1 with (0 + 1) at 1. rewrite sum_succ, sum_0 by lia. cbn. rewrite Z.eqb_refl. lia. }
  eapply wp_mono; [apply (zero_range_spec h h1 D 1 (len_ D) v); [lia|lia|done]|].
  intros [] h' [Hw Hv]. split; [done|]. unfold value. lia.
Qed.

Lemma clear_result h D : heap_ok h -> 0 <= len_ D -> wp (Clear D) (fun _ => result_is h D 0) h.
Proof. intros Hok HD. apply wp_result; [polls_tac|]. eapply wp_mono; [by apply Clear_spec|]. intros [] h'. done. Qed.

Lemma wp_no_digits (Q : Digits -> Heap -> Prop) h : Q (mkDigits (free h) 0) h -> wp Divider.no_digits Q h.
Proof. intros HQ. unfold Divider.no_digits. by apply wp_gets. Qed.

(** Both operands, without leading zeros, and their order. *)
Lemma wp_compare_normalized {X} h A B (k : Digits -> Digits -> Z -> M Heap X) (Q : X -> Heap -> Prop) :
  heap_ok h -> is_normalized h A -> is_normalized h B -> 0 < len_ B ->
  (forall c, Z.sgn c = Z.sgn (value h A - value h B) -> wp (k A B c) Q h) ->
  wp (let* A := Normalize A in
      let* B := Normalize B in
      DCHECK (0 <? len_ B) ;;;
      let* c := Compare A B in k A B c) Q h.
Proof.
  intros Hok NA NB HB Hk.
  apply wp_bind. eapply wp_mono; [apply Normalize_spec; [done|apply NA]|]. intros A' h' [-> HA'].
  rewrite (normal_eq h A A') by done.
  apply wp_bind. eapply wp_mono; [apply Normalize_spec; [done|apply NB]|]. intros B' h' [-> HB'].
  rewrite (normal_eq h B B') by done. apply wp_bind, wp_DCHECK; [by apply Z.ltb_lt|].
  apply wp_bind. eapply wp_mono; [apply Compare_spec; [done|apply NA|apply NB]|]. intros c h' [-> Hc]. auto.
Qed.

(** *** The quotient *)

Section Divide.
Context (h : Heap) (Q A B : Digits).
Hypotheses (Hr : operands_ready h Q A B) (HQ : DivideResultLength A B <= len_ Q).
Local Abbreviation a := (value h A).
Local Abbreviation b := (value h B).

(** The algorithms for divisors of more than a digit. *)
Lemma divide_long :
  2 <= len_ B <= len_ A ->
  wp (let* none := Divider.no_digits in
      if len_ B <? kBurnikelThreshold then DivideSchoolbook Q none A B
      else if negb V8_ADVANCED_BIGINT_ALGORITHMS then DivideBurnikelZiegler Q none A B
      else if (len_ B <? kBarrettThreshold) || (len_ A =? len_ B) then DivideBurnikelZiegler Q none A B
      else with_scratch (len_ B) (fun R => DivideBarrett Q R A B)) (fun _ => result_is h Q (a / b)) h.
Proof.
  intros HlB. destruct (result_room _ _ _ HQ) as [LQ LQ2].
  pose proof Hr as [Hok Hgo [NA NB] [HB HI] (BQ & BA & BB') [QA QB]].
  apply wp_bind, wp_no_digits. set (none := mkDigits (free h) 0).
  assert (Bn : below none (free h)) by (unfold below; cbn; lia).
  destruct (end_of_memory h Q 0 BQ) as [_ Qn].
  destruct (Z.ltb_spec (len_ B) kBurnikelThreshold) as [Hs|Hs].
  { eapply wp_mono; [apply schoolbook_divides; try done; [by right|by left]|]. intros [] h' (Hc & HVq & _).
    split; [by apply (changed_empty h h' Q none)|]. intros _. apply HVq. lia. }
  assert (Hbz : wp (DivideBurnikelZiegler Q none A B) (fun _ => result_is h Q (a / b)) h).
  { eapply wp_mono; [apply burnikel_divides; try done; by left|]. intros [] h' [Hc HV].
    split; [by apply (changed_empty h h' Q none)|]. intros Hst. by apply HV. }
  destruct V8_ADVANCED_BIGINT_ALGORITHMS eqn:EB; cbn [negb]; [|done].
  destruct (Z.ltb_spec (len_ B) kBarrettThreshold) as [Ht|Ht]; [done|]. cbn [orb].
  destruct (Z.eqb_spec (len_ A) (len_ B)) as [El|El]; [done|].
  apply wp_with_scratch. set (R := mkDigits (free h) (len_ B)).
  assert (HD : forall X, below X (free h) -> disjoint R X) by (intros X HX; by apply end_of_memory).
  eapply wp_mono; [apply (barrett_divides EB)|].
  - constructor; try done.
    + lia.
    + cbn. specialize (LQ2 eq_refl Ht). lia.
    + unfold below in *. cbn. lia.
    + by apply disjoint_sym, HD.
    + do 2 (split; [done|]). split; by apply HD.
  - intros [] g [Hc HV]. split.
    + apply (changed_with_scratch h g [Q] R (len_ B)); [|lia|done]. apply (changed_mono _ _ _ _ Hc).
      each_apart; [apply exists_next|]; apply exists_self.
    + intros Hst. by apply HV.
Qed.

Lemma Divide_spec : wp (Divider.Divide Q A B) (fun _ => result_is h Q (a / b)) h.
Proof.
  destruct (result_room _ _ _ HQ) as [LQ _]. pose proof Hr as [Hok Hgo [NA NB] [HB HI] (BQ & BA & BB') [QA QB]].
  pose proof (value_range h A Hok (proj1 NA)) as Ha.
  pose proof (divisor_pos h B Hok HB (normal_top h B NB HB)) as Hb.
  unfold Divider.Divide. apply wp_compare_normalized; [done..|]. intros c Hc.
  destruct (Z.ltb_spec c 0) as [H1|H1].
  { rewrite Z.div_small by lia. apply clear_result; [done|apply BQ]. }
  assert (Hle : len_ B <= len_ A) by (apply (normal_ge h); (done || lia)).
  destruct (Z.eqb_spec c 0) as [H2|H2].
  { assert (E : a = b) by lia. rewrite E, Z.div_same by lia. apply put_digit_spec; [done|lia|].
    pose proof kBase_pos. unfold is_digit. lia. }
  destruct (Z.eqb_spec (len_ B) 1) as [E1|E1]; [|apply divide_long; lia].
  apply wp_bind, wp_get; [lia|]. rewrite Z.add_0_r, <- (value_single h B E1).
  apply wp_result; [polls_tac|]. apply wp_bind. eapply wp_mono; [apply (DivideSingle_spec h Q A b)|].
  - done.
  - unfold down_order. unfold disjoint in QA. destruct BQ. lia.
  - rewrite value_single by done. apply Hok.
  - lia.
  - lia.
  - apply BQ.
  - intros _. right. lia.
  - intros r h' (_ & Hw & HV). apply wp_ret. split; [done|]. apply HV. lia.
Qed.

End Divide.

(** *** The remainder *)

Section Modulo.
Context (h : Heap) (R A B : Digits).
Hypotheses (Hr : operands_ready h R A B) (HR : len_ B <= len_ R).
Local Abbreviation a := (value h A).
Local Abbreviation b := (value h B).

Lemma copy_divisor :
  wp (for_up 0 (len_ B) (copy_at R B) tt ;;; for_up (len_ B) (len_ R) (zero_at R) tt) (fun _ => result_is h R b) h.
Proof.
  pose proof Hr as [Hok _ _ [HB _] (BR & _) [_ RB]]. apply wp_result; [polls_tac|].
  apply wp_bind. eapply wp_mono; [apply (copy_tail_spec h h R B 0 (len_ B) 0); [done| |lia|done|lia|]|].
  - apply disjoint_in_order; [done|apply BR].
  - split; [by apply wrote_refl|]. by rewrite !sum_0.
  - intros [] h1 Ha. eapply wp_mono; [apply (zero_range_spec h h1 R (len_ B) (len_ R) b); [lia|lia|exact Ha]|].
    intros [] h' [Hw Hv]. split; [done|]. unfold value at 1. lia.
Qed.

Lemma modulo_long :
  kBurnikelThreshold <= len_ B <= len_ A ->
  wp (with_scratch (DivideResultLength A B) (fun Q =>
        if negb V8_ADVANCED_BIGINT_ALGORITHMS then DivideBurnikelZiegler Q R A B
        else if (len_ B <? kBarrettThreshold) || (len_ A =? len_ B) then DivideBurnikelZiegler Q R A B
        else DivideBarrett Q R A B)) (fun _ => result_is h R (a mod b)) h.
Proof.
  intros HlB. pose proof Hr as [Hok Hgo [NA NB] [HB HI] (BR & BA & BB') [RA RB]].
  destruct (result_room A B _ (Z.le_refl _)) as [LQ LQ2]. set (q := DivideResultLength A B) in *.
  apply wp_with_scratch. set (Q := mkDigits (free h) q). set (h1 := mkHeap _ _ _).
  assert (HD : forall X, below X (free h) -> disjoint Q X /\ below X (free h1)).
  { intros X HX. split; [by apply end_of_memory|]. unfold below in *. cbn. lia. }
  destruct (HD R BR) as [QR BR1]. destruct (HD A BA) as [QA BA1]. destruct (HD B BB') as [QB BB1].
  assert (BQ1 : below Q (free h1)) by (unfold below; cbn; lia).
  apply (wp_mono _ (fun _ => divided_into h1 Q R a b)).
  2: { intros [] g [Hc HV]. split.
    - by apply (changed_with_scratch h g [R] Q q); [|lia|].
    - intros Hst. apply HV; [done|lia]. }
  assert (Hbz : wp (DivideBurnikelZiegler Q R A B) (fun _ => divided_into h1 Q R a b) h1).
  { unfold kBurnikelThreshold in HlB. apply (burnikel_divides h1 A B); try done; (by right) || lia || idtac.
    unfold kBurnikelThreshold. lia. }
  destruct V8_ADVANCED_BIGINT_ALGORITHMS eqn:EB; cbn [negb]; [|done].
  destruct (Z.ltb_spec (len_ B) kBarrettThreshold) as [Ht|Ht]; [done|]. cbn [orb].
  destruct (Z.eqb_spec (len_ A) (len_ B)) as [El|El]; [done|].
  refine (barrett_divides EB h1 Q R A B _). constructor; try done.
  - lia.
  - specialize (LQ2 eq_refl Ht). cbn. lia.
Qed.

(** When the dividend is below the divisor, the divisor is what is copied. *)
Lemma Modulo_spec : wp (Divider.Modulo R A B) (fun _ => result_is h R (if a <? b then b else a mod b)) h.
Proof.
  pose proof Hr as [Hok Hgo [NA NB] [HB HI] (BR & BA & BB') [RA RB]].
  pose proof (value_range h A Hok (proj1 NA)) as Ha.
  pose proof (divisor_pos h B Hok HB (normal_top h B NB HB)) as Hb.
  unfold Divider.Modulo. apply wp_compare_normalized; [done..|]. intros c Hc.
  destruct (Z.ltb_spec c 0) as [H1|H1].
  { rewrite (proj2 (Z.ltb_lt a b)) by lia. apply copy_divisor. }
  rewrite (proj2 (Z.ltb_ge a b)) by lia.
  assert (Hle : len_ B <= len_ A) by (apply (normal_ge h); (done || lia)).
  destruct (Z.eqb_spec c 0) as [H2|H2].
  { assert (E : a = b) by lia. rewrite E, Z.mod_same by lia. apply clear_result; [done|apply BR]. }
  destruct (Z.eqb_spec (len_ B) 1) as [E1|E1].
  { apply wp_bind, wp_get; [lia|]. rewrite Z.add_0_r, <- (value_single h B E1).
    apply wp_bind, wp_no_digits. set (none := mkDigits (free h) 0).
    apply wp_bind. eapply wp_mono; [apply wp_polls; [polls_tac|apply (DivideSingle_spec h none A b)]|].
    - done.
    - left. destruct BA. cbn. lia.
    - rewrite value_single by done. apply Hok.
    - lia.
    - lia.
    - done.
    - done.
    - intros r h1 [(-> & Hw & _) Hp]. pose proof (changed_empty_first h h1 R none) as Hc1.
      specialize (Hc1 (changed_first h h1 none [R] Hw Hp) eq_refl).
      eapply wp_mono; [apply (put_digit_spec h1 R (a mod b)); [apply Hc1|lia|]|].
      + pose proof (value_range h B Hok (proj1 NB)) as [_ HBu]. rewrite E1, Z.pow_1_r in HBu.
        pose proof (Z.mod_pos_bound a b Hb). unfold is_digit. lia.
      + intros [] h2 [Hc2 HV2]. split; [by apply (changed_trans _ h1)|done]. }
  destruct (Z.ltb_spec (len_ B) kBurnikelThreshold) as [Hs|Hs]; [|by apply modulo_long].
  apply wp_bind, wp_no_digits. set (none := mkDigits (free h) 0).
  eapply wp_mono; [apply (schoolbook_divides h A B Hok NB BA BB' ltac:(lia) none R)|].
  - by left.
  - by right.
  - unfold below. cbn. lia.
  - done.
  - by apply end_of_memory.
  - by apply end_of_memory.
  - intros [] h' (Hc' & _ & HV). split; [by apply (changed_empty_first h h' R none)|]. intros _. apply HV. lia.
Qed.

End Modulo.

(** *** The status for the caller *)

Lemma processor_result (m : M Heap unit) h D V :
  wp m (fun _ => result_is h D V) h -> idle h ->
  wp (m ;;; get_and_clear_status)
    (fun s h' => answered h s h' /\ only h h' D /\ (s = kOk -> value h' D = V)) h.
Proof.
  intros Hm Hi. apply wp_bind. eapply wp_mono; [exact Hm|]. intros [] g [[Hok Hf Hp Hfr] Hv].
  apply (wp_get_and_clear_status h g); [done|done|]. intros h' Ec Ef Ha. split; [done|]. split.
  - constructor; [intros x; rewrite Ec; apply Hok|congruence|]. intros x Hx Ho. rewrite Ec. apply Hfr; [done|by each_apart].
  - intros E. rewrite <- Hv by done. unfold value. by rewrite Ec.
Qed.

(** ** BigInts *)

Lemma signed_quot s t a b : 0 < b -> Z.quot (signed s a) (signed t b) = signed (negb (Bool.eqb s t)) (Z.quot a b).
Proof.
  intros Hb. destruct s, t; cbn [signed Bool.eqb negb].
  - by apply Z.quot_opp_opp; lia.
  - by apply Z.quot_opp_l; lia.
  - by apply Z.quot_opp_r; lia.
  - done.
Qed.

Lemma signed_rem s t a b : 0 < b -> Z.rem (signed s a) (signed t b) = signed s (Z.rem a b).
Proof.
  intros Hb. destruct s, t; cbn [signed].
  - by apply Z.rem_opp_opp; lia.
  - by apply Z.rem_opp_l; lia.
  - by apply Z.rem_opp_r; lia.
  - done.
Qed.

Lemma kMaxLength_half : 2 * kMaxLength <= kMaxInt.
Proof. unfold kMaxLength, kMaxLengthBits, kDigitBits. destruct TOK as [-> | ->]; vm_compute; congruence. Qed.

Section Objects.
Context (h : Heap) (x y : BigInt).
Hypotheses (Hpat : patient) (Hok : heap_ok h) (Hi : idle h) (Hx : bigint_ok h x) (Hy : bigint_ok h y).
Local Abbreviation a := (value h (digits x)).
Local Abbreviation b := (value h (digits y)).

Lemma object_numbers :
  is_zero y = false -> 0 <= a /\ 0 < b /\
  Z.quot (number h x) (number h y) = signed (negb (Bool.eqb (sign x) (sign y))) (a / b) /\
  Z.rem (number h x) (number h y) = signed (sign x) (a mod b).
Proof.
  intros Zy. pose proof (value_range h (digits x) Hok (proj1 (bigint_lengths _ _ Hx))) as Ha.
  pose proof (bigint_pos h y Hok Hy Zy) as Hb. unfold number. rewrite signed_quot, signed_rem by done.
  rewrite Z.quot_div_nonneg, Z.rem_mod_nonneg by lia. done || lia.
Qed.

(** New digits for the result. *)
Lemma object_ready len :
  0 <= len -> is_zero y = false -> operands_ready (alloc h len) (mkDigits (free h) len) (digits x) (digits y).
Proof.
  intros Hl Zy. pose proof (bigint_lengths _ _ Hx) as LX. pose proof (bigint_lengths _ _ Hy) as LY. apply Z.eqb_neq in Zy.
  pose proof kMaxLength_half as HM.
  pose proof (bi_below h x Hx). pose proof (bi_below h y Hy). unfold length in *. constructor.
  - done.
  - by apply going_idle.
  - split; [apply Hx|apply Hy].
  - lia.
  - unfold below. cbn. lia.
  - split; by apply fresh_disjoint.
Qed.

(** The end of an operation whose result is in new digits. *)
Lemma finish_quotient (m : M Heap unit) len s V :
  0 < len <= kMaxLength ->
  wp m (fun _ => result_is (alloc h len) (mkDigits (free h) len) (Z.abs V)) (alloc h len) ->
  signed s (Z.abs V) = V ->
  wp (let* status := (m ;;; get_and_clear_status) in
      unless_interrupted status
        (let* r := MakeImmutable (mkBigInt s (mkDigits (free h) len)) in ret (inl r))) (settled V False h) (alloc h len).
Proof.
  intros Hl Hm Hs. apply wp_bind. eapply wp_mono; [by apply processor_result|].
  intros st h2 (Ha & Ho & HV). apply (finish_processor h h2 len s V False st); [lia|done|done|lia|].
  intros E. by rewrite HV.
Qed.

Lemma wp_magnitudes (k : Z -> M Heap (MaybeHandle BigInt)) Q :
  (forall c, Z.sgn c = Z.sgn (a - b) -> wp (k c) Q h) -> wp (let* c := Compare (digits x) (digits y) in k c) Q h.
Proof.
  intros Hk. apply wp_bind. eapply wp_mono; [apply Compare_spec; [done|apply Hx|apply Hy]|]. intros c h' [-> Hc]. auto.
Qed.

Lemma wp_zero_result V long : V = 0 -> wp (let* z := Zero in ret (inl z)) (settled V long h) h.
Proof.
  intros ->. apply wp_bind. eapply wp_mono; [apply wp_quiet; [auto with quiet|by apply Zero_spec]|].
  intros z h' [Hz Ep]. by apply wp_ret, settled_same.
Qed.

Lemma BigInt_Divide_spec :
  is_zero y = false ->
  wp (BigInt_Divide x y) (settled (Z.quot (number h x) (number h y)) False h) h.
Proof.
  intros Zy. destruct (object_numbers Zy) as (Ha & Hb & Eq & _). rewrite Eq. unfold BigInt_Divide. rewrite Zy.
  apply wp_magnitudes. intros c Hc. destruct (Z.ltb_spec c 0) as [H1|H1].
  { apply wp_zero_result. rewrite Z.div_small by lia. by destruct (negb _). }
  unfold is_unit. pose proof (magnitude_number h y Hok Hy) as My.
  apply (wp_single_digit h y y Hok Hy 1); [intros Hb1|intros Hb1|lia].
  { rewrite My in Hb1. rewrite Hb1, Z.div_1_r. destruct (sign y) eqn:Sy.
    - replace (signed _ a) with (- number h x) by (unfold number; destruct (sign x); cbn; lia).
      replace (Bool.eqb _ (sign x)) with false by (by destruct (sign x)).
      apply wp_bind. eapply wp_mono; [apply wp_quiet; [auto with quiet|by apply UnaryMinus_spec]|].
      intros z h' [Hz Ep]. by apply wp_ret, settled_same.
    - replace (signed _ a) with (number h x) by (unfold number; by destruct (sign x)).
      replace (Bool.eqb _ (sign x)) with true by (by destruct (sign x)). by apply wp_ret, settled_self. }
  assert (Hle : len_ (digits y) <= len_ (digits x)).
  { apply (normal_ge h); [done|apply Hx|apply Hy| |lia]. apply Z.eqb_neq in Zy. pose proof (bigint_lengths _ _ Hy). unfold length in *. lia. }
  set (len := DivideResultLength (digits x) (digits y)).
  assert (Hl : 0 < len <= kMaxLength).
  { pose proof (bigint_lengths _ _ Hx). pose proof (bigint_lengths _ _ Hy). apply Z.eqb_neq in Zy. unfold length in *.
    subst len. unfold DivideResultLength. destruct V8_ADVANCED_BIGINT_ALGORITHMS; [|lia].
    unfold kBarrettThreshold. destruct (Z.leb_spec 13310 (len_ (digits y))); lia. }
  apply wp_maybe, wp_New; [intros _|lia]. unfold set_sign. cbn [digits].
  apply finish_quotient; [done| |].
  - pose proof (Divide_spec (alloc h len) (mkDigits (free h) len) (digits x) (digits y) (object_ready len ltac:(lia) Zy) (Z.le_refl _)) as HD.
    change (value (alloc h len)) with (value h) in HD. pose proof (Z.div_pos a b Ha Hb).
    replace (Z.abs _) with (a / b) by (destruct (negb _); cbn; lia). exact HD.
  - pose proof (Z.div_pos a b Ha Hb). destruct (negb _); cbn; lia.
Qed.

Lemma BigInt_Remainder_spec :
  is_zero y = false ->
  wp (BigInt_Remainder x y) (settled (Z.rem (number h x) (number h y)) False h) h.
Proof.
  intros Zy. destruct (object_numbers Zy) as (Ha & Hb & _ & Er). rewrite Er. unfold BigInt_Remainder. rewrite Zy.
  apply wp_magnitudes. intros c Hc. destruct (Z.ltb_spec c 0) as [H1|H1].
  { apply wp_ret, settled_self; [done|done|done|]. rewrite Z.mod_small by lia. done. }
  unfold is_unit. pose proof (magnitude_number h y Hok Hy) as My.
  apply (wp_single_digit h y y Hok Hy 1); [intros Hb1|intros Hb1|lia].
  { apply wp_zero_result. rewrite My in Hb1. rewrite Hb1, Z.mod_1_r. by destruct (sign x). }
  set (len := ModuloResultLength (digits y)).
  assert (Hl : 0 < len <= kMaxLength).
  { pose proof (bigint_lengths _ _ Hy). apply Z.eqb_neq in Zy. unfold length in *. subst len. unfold ModuloResultLength. lia. }
  apply wp_maybe, wp_New; [intros _|lia]. unfold set_sign. cbn [digits]. pose proof (Z.mod_pos_bound a b Hb).
  apply finish_quotient; [done| |].
  - pose proof (Modulo_spec (alloc h len) (mkDigits (free h) len) (digits x) (digits y) (object_ready len ltac:(lia) Zy) (Z.le_refl _)) as HM.
    change (value (alloc h len)) with (value h) in HM. rewrite (proj2 (Z.ltb_ge a b)) in HM by lia.
    replace (Z.abs _) with (a mod b) by (destruct (sign x); cbn; lia). exact HM.
  - destruct (sign x); cbn; lia.
Qed.

End Objects.

End QuotientsSpec.
