(* ===== verification/BigIntWordsSpec.v ===== *)
(** * Correctness of the conversions between BigInts and 64-bit words

    [FromInt64] and [AsInt64], [FromUint64] and [AsUint64], and the arrays of
    words of the embedder interface, on 32-bit and on 64-bit targets. *)

From stdpp Require Import base list numbers.
From Stdlib Require Import ZArith Lia Bool.
From S2P Require Import Prelude.
From S2P Require Import BigIntDigits.
From S2P Require Import BigIntVectors.
From S2P Require Import BigIntMemory.
From S2P Require Import BigIntArithmetic.
From S2P Require Import BigIntMul.
From S2P Require Import BigIntTruncateSpec.
From S2P Require Import BigIntObjects.
From S2P Require Import BigIntObjectsSpec.
From S2P Require Import BigIntObjectsBitsSpec.

Local Open Scope Z_scope.
Local Open Scope prog_scope.

Section WordsSpec.
Context {T : DigitTarget} {TOK : DigitTargetOK T}.

(** Either target: one digit makes a word, or two. *)
Lemma target_cases :
  (kDigitBits = 64 /\ kBase = 2 ^ 64) \/ (kDigitBits = 32 /\ kBase = 2 ^ 32).
Proof. unfold kBase, kDigitBits. destruct TOK as [-> | ->]; [right|left]; done. Qed.

Definition digits_per_word : Z := 64 / kDigitBits.

Lemma word_base : kBase ^ digits_per_word = 2 ^ 64 /\ 1 <= digits_per_word <= 2.
Proof. unfold digits_per_word. destruct target_cases as [[-> ->]|[-> ->]]; done. Qed.

Lemma kMaxLength_2 : 2 <= kMaxLength.
Proof. unfold kMaxLength, kMaxLengthBits, kDigitBits. destruct TOK as [-> | ->]; vm_compute; congruence. Qed.

(** ** Single words *)

(** The digits of one word. *)
Lemma set_64_bits_spec h s bits :
  heap_ok h -> 0 <= bits < 2 ^ 64 ->
  let R := mkDigits (free h) digits_per_word in
  wp (BigInt.set_64_bits (mkBigInt s R) bits)
    (fun _ h' => wrote (alloc h digits_per_word) h' R digits_per_word /\ value h' R = bits)
    (alloc h digits_per_word).
Proof.
  intros Hok Hb R. subst R. unfold BigInt.set_64_bits, set_digit, digits_per_word. cbn [digits].
  destruct target_cases as [[EK EB]|[EK EB]]; rewrite EK.
  - change (64 =? 64) with true. change (64 / 64) with 1. cbn iota. apply wp_set_only. assert (is_digit bits) by (unfold is_digit; lia).
    rewrite digit_t_small by done. by apply store_only.
  - change (32 =? 64) with false. change (64 / 32) with 2. cbn iota. apply wp_bind.
    assert (E : bits = bits / 2 ^ 32 * 2 ^ 32 + bits mod 2 ^ 32) by (pose proof (Z.div_mod bits (2 ^ 32)); lia).
    pose proof (Z.mod_pos_bound bits (2 ^ 32) ltac:(lia)).
    assert (0 <= bits / 2 ^ 32 < 2 ^ 32) by (split; [apply Z.div_pos; lia|apply Z.div_lt_upper_bound; lia]).
    change 0xFFFFFFFF with (Z.ones 32). rewrite Z.land_ones, Z.shiftr_div_pow2 by lia.
    rewrite !digit_t_small by (unfold is_digit; lia).
    pose proof (accumulated_start (alloc h 2) (mkDigits (free h) 2) Hok) as Ha.
    eapply (accumulated_step _ _ _ _ _ _ _ (bits mod 2 ^ 32) (bits mod 2 ^ 32) 0) in Ha;
      [|lia|unfold is_digit; lia|lia|reflexivity].
    eapply (accumulated_step _ _ _ _ _ _ _ (bits / 2 ^ 32) (bits / 2 ^ 32) 0) in Ha;
      [|lia|unfold is_digit; lia|lia|reflexivity].
    digit_step. digit_step. destruct (accumulated_done _ _ _ _ Ha) as [Hw Hv]. split; [exact Hw|].
    rewrite Z.pow_0_r, Z.pow_1_r, EB in Hv. etransitivity; [exact Hv|lia].
Qed.

Lemma FromUint64_spec h n :
  heap_ok h -> 0 <= n < 2 ^ 64 -> wp (BigInt.FromUint64 n) (fun z h' => computed h h' z n) h.
Proof.
  intros Hok Hn. unfold BigInt.FromUint64. destruct (Z.eqb_spec n 0) as [->|]; [by apply Zero_spec|].
  fold digits_per_word. pose proof word_base as [_ Hw]. pose proof kMaxLength_2.
  apply wp_bind, wp_NewBigInt, wp_bind. eapply wp_mono; [by apply set_64_bits_spec|].
  intros [] h2 [Hwr Hv]. apply finish_spec; [lia|done|done|]. exact Hv.
Qed.

Lemma FromInt64_spec h n :
  heap_ok h -> - 2 ^ 63 <= n < 2 ^ 63 -> wp (BigInt.FromInt64 n) (fun z h' => computed h h' z n) h.
Proof.
  intros Hok Hn. unfold BigInt.FromInt64. destruct (Z.eqb_spec n 0) as [->|]; [by apply Zero_spec|].
  fold digits_per_word. pose proof word_base as [_ Hw]. pose proof kMaxLength_2.
  apply wp_bind, wp_NewBigInt, wp_bind. set (absolute := if negb (n <? 0) then _ else _).
  assert (absolute = Z.abs n) as ->.
  { subst absolute. unfold uint64. destruct (Z.ltb_spec n 0); cbn [negb].
    - destruct (Z.eqb_spec n (- 2 ^ 63)) as [->|]; [done|]. rewrite wrap_small by lia. lia.
    - rewrite wrap_small by lia. lia. }
  eapply wp_mono; [apply set_64_bits_spec; [done|lia]|].
  intros [] h2 [Hwr Hv]. apply finish_spec; [lia|done|lia|]. rewrite Hv. destruct (Z.ltb_spec n 0); cbn; lia.
Qed.

(** The low 64 bits of a magnitude. *)
Lemma low_word h X :
  heap_ok h -> 0 < len_ X ->
  value h X mod 2 ^ 64 =
    cell h (digits_ X + 0) + (if kDigitBits =? 32 then digit_at h X 1 * 2 ^ 32 else 0).
Proof.
  intros Hok Hl. pose proof (Hok (digits_ X + 0)) as H0. unfold is_digit in H0.
  pose proof (digit_at_ok h X 1 Hok) as H1. unfold is_digit in H1.
  destruct target_cases as [[EK EB]|[EK EB]]; rewrite EB in *.
  - rewrite (low_mod_bits h X 64 0 64) by (done || lia || (constructor; rewrite ?EK; lia)).
    unfold low, digit_at. rewrite Z.min_l, sum_0 by lia. destruct (Z.ltb_spec 0 (len_ X)); [|lia].
    rewrite EK, Z.mod_small by lia. change (64 =? 32) with false. rewrite Z.pow_0_r. lia.
  - rewrite (low_mod_bits h X 64 1 32) by (done || lia || (constructor; rewrite ?EK; lia)).
    rewrite EK, (Z.mod_small (digit_at h X 1)) by lia. change (32 =? 32) with true.
    unfold low. rewrite Z.min_l by lia. rewrite (sum_pred _ _ 1) by lia. change (1 - 1) with 0.
    rewrite sum_0, Z.pow_0_r, Z.pow_1_r, EB. lia.
Qed.

Lemma lossless_length h x :
  heap_ok h -> bigint_ok h x -> negb (digits_per_word <? length x) = (value h (digits x) <? 2 ^ 64).
Proof.
  intros Hok Hx. pose proof word_base as [E Hw]. rewrite <- E. pose proof (bigint_lengths _ _ Hx) as [L _].
  pose proof (value_range h (digits x) Hok L). apply eq_true_iff_eq. rewrite negb_true_iff, Z.ltb_ge, Z.ltb_lt.
  unfold length in *. split; intros H'.
  - pose proof (kBase_pow_mono _ _ H'). lia.
  - destruct (Z_lt_le_dec digits_per_word (len_ (digits x))); [|done].
    pose proof (normal_lower h (digits x) digits_per_word Hok (bi_normal _ _ Hx) ltac:(lia)). lia.
Qed.

Lemma GetRawBits_spec h x :
  heap_ok h -> bigint_ok h x ->
  wp (BigInt.GetRawBits x)
    (fun '(raw, lossless) h' => h' = h /\ raw = number h x mod 2 ^ 64 /\
       lossless = (value h (digits x) <? 2 ^ 64)) h.
Proof.
  intros Hok Hx. pose proof (bigint_lengths _ _ Hx) as [L _]. unfold BigInt.GetRawBits.
  destruct (is_zero x) eqn:Zx.
  { apply wp_ret. split; [done|]. rewrite (zero_number h x) by done. split; [done|].
    apply Z.eqb_eq in Zx. unfold length in Zx. by rewrite value_empty by lia. }
  apply Z.eqb_neq in Zx. unfold digit. fold digits_per_word. rewrite (lossless_length h x) by done.
  apply wp_bind. unfold length in *. apply wp_get; [lia|].
  pose proof (low_word h (digits x) Hok ltac:(lia)) as Elow. pose proof (Hok (digits_ (digits x) + 0)) as H0.
  pose proof (digit_at_ok h (digits x) 1 Hok) as H1. unfold is_digit in H0, H1. set (d0 := cell h (digits_ (digits x) + 0)) in *.
  pose proof target_cases as HT. unfold uint64. rewrite (wrap_small 64 d0) by lia.
  apply wp_bind. apply (wp_mono _ (fun raw h' => h' = h /\ raw = value h (digits x) mod 2 ^ 64)).
  - rewrite Elow. unfold digit_at. destruct HT as [[-> EB]|[-> EB]].
    + change (64 =? 32) with false. cbn [andb]. apply wp_ret. split; [done|]. lia.
    + change (32 =? 32) with true. cbn [andb]. destruct (Z.ltb_spec 1 (len_ (digits x))) as [H|H].
      * apply wp_bind, wp_get; [lia|]. apply wp_ret. split; [done|].
        pose proof (Hok (digits_ (digits x) + 1)) as Hd. unfold is_digit in Hd. set (d1 := cell h (digits_ (digits x) + 1)) in *.
        rewrite (wrap_small 64 d1), Z.shiftl_mul_pow2, wrap_small by lia.
        rewrite Z.lor_comm, lor_add by lia. lia.
      * apply wp_ret. split; [done|]. lia.
  - intros raw h' [-> ->]. apply wp_ret. split; [done|]. split; [|done]. unfold number.
    destruct (sign x); cbn [signed]; [|done]. unfold wrap. rewrite Zplus_mod_idemp_l.
    replace (Z.lnot _ + 1) with (- (value h (digits x) mod 2 ^ 64)) by (unfold Z.lnot; lia).
    rewrite <- (Z.sub_0_l (value h (digits x))), <- Zminus_mod_idemp_r. f_equal. 
Qed.

Lemma int64_spec n v : n = v mod 2 ^ 64 -> BigInt.int64 n = wrap_signed 64 v.
Proof.
  intros ->. unfold BigInt.int64, uint64, wrap, wrap_signed. rewrite Z.mod_mod by lia.
  change (64 - 1) with 63. pose proof (Z.mod_pos_bound v (2 ^ 64) ltac:(lia)).
  rewrite <- Zplus_mod_idemp_l. destruct (Z.ltb_spec (v mod 2 ^ 64) (2 ^ 63)).
  - rewrite (Z.mod_small (v mod 2 ^ 64 + 2 ^ 63)) by lia. lia.
  - rewrite <- (Z.mod_unique (v mod 2 ^ 64 + 2 ^ 63) (2 ^ 64) 1 (v mod 2 ^ 64 - 2 ^ 63)) by lia. lia.
Qed.

Lemma AsInt64_spec h x :
  heap_ok h -> bigint_ok h x ->
  wp (BigInt.AsInt64 x)
    (fun '(n, lossless) h' => h' = h /\ n = wrap_signed 64 (number h x) /\ lossless = (n =? number h x)) h.
Proof.
  intros Hok Hx. unfold BigInt.AsInt64. apply wp_bind. eapply wp_mono; [by apply GetRawBits_spec|].
  intros [raw lossless] h' (-> & Hraw & ->). apply wp_ret. split; [done|].
  rewrite (int64_spec raw (number h x)) by done. split; [done|].
  destruct (wrap_signed_range 64 (number h x) eq_refl) as (Hr & k & Hk). change (64 - 1) with 63 in Hr. set (n := wrap_signed 64 (number h x)) in *.
  pose proof (value_range h (digits x) Hok (proj1 (bigint_lengths _ _ Hx))) as [Hv _]. destruct (sign x) eqn:Sx.
  - pose proof (bigint_pos h x Hok Hx (sign_nonzero h x Hx Sx)). rewrite (number_neg h x) in * by done.
    destruct (Z.ltb_spec n 0), (Z.ltb_spec (value h (digits x)) (2 ^ 64)), (Z.eqb_spec n (- value h (digits x)));
      (done || lia).
  - rewrite number_pos in * by done.
    destruct (Z.ltb_spec n 0), (Z.ltb_spec (value h (digits x)) (2 ^ 64)), (Z.eqb_spec n (value h (digits x)));
      (done || lia).
Qed.

Lemma AsUint64_spec h x :
  heap_ok h -> bigint_ok h x ->
  wp (BigInt.AsUint64 x)
    (fun '(n, lossless) h' => h' = h /\ n = number h x mod 2 ^ 64 /\ lossless = (n =? number h x)) h.
Proof.
  intros Hok Hx. unfold BigInt.AsUint64. apply wp_bind. eapply wp_mono; [by apply GetRawBits_spec|].
  intros [raw lossless] h' (-> & -> & ->). apply wp_ret. split; [done|]. split; [done|].
  pose proof (value_range h (digits x) Hok (proj1 (bigint_lengths _ _ Hx))) as [Hv _].
  pose proof (Z.mod_pos_bound (number h x) (2 ^ 64) ltac:(lia)). destruct (sign x) eqn:Sx.
  - pose proof (bigint_pos h x Hok Hx (sign_nonzero h x Hx Sx)). symmetry. apply Z.eqb_neq.
    rewrite (number_neg h x) in * by done. lia.
  - rewrite number_pos in * by done. apply eq_true_iff_eq. rewrite Z.ltb_lt, Z.eqb_eq. split; [|lia].
    intros. apply Z.mod_small. lia.
Qed.

(** ** Arrays of words *)

Definition word_at (words : list Z) (i : Z) : Z := default 0 (words !! Z.to_nat i).

(** The number the first [n] words make up. *)
Definition word_sum (words : list Z) (n : Z) : Z := total (fun i => word_at words i * 2 ^ (64 * i)) n.

Definition words_ok (words : list Z) : Prop := forall i, 0 <= word_at words i < 2 ^ 64.

Lemma wp_word h words i (Q : Z -> Heap -> Prop) :
  0 <= i < Z.of_nat (List.length words) -> Q (word_at words i) h -> wp (BigInt.word words i) Q h.
Proof.
  intros Hi HQ. unfold BigInt.word, word_at in *. destruct (Z.ltb_spec i 0); [lia|].
  destruct (lookup_lt_is_Some_2 words (Z.to_nat i)) as [w E]; [lia|]. rewrite E in *. by apply wp_ret.
Qed.

Lemma word_sum_succ words n : 0 <= n -> word_sum words (n + 1) = word_sum words n + word_at words n * 2 ^ (64 * n).
Proof. intros. unfold word_sum. by rewrite total_succ. Qed.

Lemma pow_64 n : 0 <= n -> 2 ^ (64 * n) = kBase ^ (digits_per_word * n).
Proof.
  intros Hn. pose proof word_base as [E Hw]. rewrite Z.pow_mul_r, <- E, <- Z.pow_mul_r by lia. done.
Qed.

(** One round of the loop for digits of half a word. *)
Lemma half_words_round h h' R words i len :
  kDigitBits = 32 -> heap_ok h -> words_ok words -> 0 <= i -> 2 * i < len -> len <= len_ R ->
  i < Z.of_nat (List.length words) ->
  (2 * i + 1 = len -> word_at words i < 2 ^ 32) ->
  accumulated h h' R (2 * i) (word_sum words i) 0 ->
  wp (let* w := BigInt.word words (2 * i / 2) in
      set R (2 * i) (digit_t w) ;;;
      (if 2 * i + 1 <? len then set R (2 * i + 1) (digit_t (Z.shiftr w 32)) else ret tt) ;;;
      ret (@inl Z unit (2 * i + 2)))
    (fun r h'' => r = inl (2 * (i + 1)) /\ accumulated h h'' R (Z.min (2 * (i + 1)) len) (word_sum words (i + 1)) 0) h'.
Proof.
  intros EK Hok Hws Hi Hlen HlR Hn Htop Ha. pose proof (Hws i) as Hw. set (w := word_at words i) in *.
  assert (EB : kBase = 2 ^ 32) by (unfold kBase; by rewrite EK).
  assert (E : w = w / 2 ^ 32 * 2 ^ 32 + w mod 2 ^ 32) by (pose proof (Z.div_mod w (2 ^ 32)); lia).
  pose proof (Z.mod_pos_bound w (2 ^ 32) ltac:(lia)).
  assert (0 <= w / 2 ^ 32 < 2 ^ 32) by (split; [apply Z.div_pos; lia|apply Z.div_lt_upper_bound; lia]).
  rewrite (Z.mul_comm 2 i), Z.div_mul, (Z.mul_comm i 2) by lia. apply wp_bind, wp_word; [lia|]. fold w.
  assert (Ed : digit_t w = w mod 2 ^ 32) by (unfold digit_t, wrap; by rewrite EK). rewrite Ed.
  rewrite Z.shiftr_div_pow2, (digit_t_small (w / 2 ^ 32)) by (lia || (unfold is_digit; lia)).
  eapply (accumulated_step _ _ _ _ _ _ _ (w mod 2 ^ 32) (w mod 2 ^ 32) 0) in Ha;
    [|lia|unfold is_digit; lia|lia|reflexivity].
  do 2 digit_step. apply wp_bind. rewrite word_sum_succ, pow_64 by lia.
  assert (Edw : digits_per_word = 2) by (unfold digits_per_word; by rewrite EK). rewrite Edw. fold w.
  destruct (Z.ltb_spec (2 * i + 1) len) as [H1|H1].
  - eapply (accumulated_step _ _ _ _ _ _ _ (w / 2 ^ 32) (w / 2 ^ 32) 0) in Ha;
      [|lia|unfold is_digit; lia|lia|reflexivity].
    digit_step. digit_step. split; [f_equal; lia|]. rewrite Z.min_l by lia.
    replace (2 * (i + 1)) with (2 * i + 1 + 1) by lia. eapply accumulated_eq; [exact Ha|].
    rewrite kBase_pow_succ, EB by lia. nia.
  - digit_step. digit_step. split; [f_equal; lia|]. rewrite Z.min_r by lia. replace len with (2 * i + 1) by lia.
    eapply accumulated_eq; [exact Ha|]. rewrite Z.mod_small by (split; [lia|apply Htop; lia]). done.
Qed.

(** On a 32-bit target the length is shortened by a test of the highest word
    that takes one value too many; see [top_word_ok]. *)
Definition top_word_ok (count : Z) (words : list Z) : Prop :=
  0 < count -> kDigitBits = 32 -> word_at words (count - 1) <> 2 ^ 32.

Lemma fill_words_spec h count words len s :
  heap_ok h -> words_ok words -> 0 < count <= Z.of_nat (List.length words) ->
  len = digits_per_word * count - (if (kDigitBits =? 32) && (word_at words (count - 1) <? 2 ^ 32) then 1 else 0) ->
  let result := mkBigInt s (mkDigits (free h) len) in
  wp (if kDigitBits =? 64 then
        for_up 0 len (fun i _ => let* w := BigInt.word words i in set_digit result i (digit_t w)) tt
      else
        loop (S (Z.to_nat len))
          (fun i =>
             if i <? len then
               let* w := BigInt.word words (i / 2) in
               set_digit result i (digit_t w) ;;;
               (if i + 1 <? len then set_digit result (i + 1) (digit_t (Z.shiftr w 32)) else ret tt) ;;;
               ret (inl (i + 2))
             else ret (inr tt)) 0)
    (fun _ h' => accumulated (alloc h len) h' (mkDigits (free h) len) len (word_sum words count) 0) (alloc h len).
Proof.
  intros Hok Hws Hc El result. subst result. unfold set_digit. cbn [digits]. unfold digits_per_word in El.
  destruct target_cases as [[EK EB]|[EK EB]]; rewrite EK in *.
  - change (64 =? 64) with true. change (64 / 64) with 1 in El. change (64 =? 32) with false in El. cbn [andb] in El.
    assert (len = count) as -> by lia. cbn iota.
    apply (wp_for_up (fun i _ h' => accumulated (alloc h count) h' (mkDigits (free h) count) i (word_sum words i) 0));
      [lia|by apply accumulated_start| |done].
    intros i [] h' Hi Ha. apply wp_bind, wp_word; [lia|]. pose proof (Hws i) as Hw.
    rewrite digit_t_small by (unfold is_digit; lia). digit_step.
    eapply (accumulated_step _ _ _ _ _ _ _ (word_at words i)); [exact Ha|lia|unfold is_digit; lia|lia|].
    rewrite word_sum_succ, pow_64 by lia. unfold digits_per_word. rewrite EK. change (64 / 64) with 1. by rewrite Z.mul_1_l.
  - change (32 =? 64) with false. change (64 / 32) with 2 in El. change (32 =? 32) with true in El. cbn [andb] in El.
    assert (Hlen : 2 * count - 1 <= len <= 2 * count /\ (len = 2 * count - 1 -> word_at words (count - 1) < 2 ^ 32))
      by (destruct (Z.ltb_spec (word_at words (count - 1)) (2 ^ 32)); lia).
    clear El. cbn iota.
    apply (wp_loop (fun i h' => exists j, i = 2 * j /\ 0 <= j <= count /\
      accumulated (alloc h len) h' (mkDigits (free h) len) (Z.min i len) (word_sum words j) 0)
      (fun i _ => Z.to_nat (len - i))).
    + intros i h' (j & -> & Hj & Ha). destruct (Z.ltb_spec (2 * j) len) as [H|H].
      * rewrite Z.min_l in Ha by lia.
        eapply wp_mono; [apply (half_words_round (alloc h len) h' (mkDigits (free h) len) words j len); cbn [len_];
          (done || lia || (intros; replace j with (count - 1) by lia; apply Hlen; lia))|].
        intros r h'' [-> Ha']. split; [exists (j + 1); split; [lia|split; [lia|done]]|lia].
      * apply wp_ret. assert (j = count) as -> by lia. by rewrite Z.min_r in Ha by lia.
    + exists 0. split; [lia|]. split; [lia|]. rewrite Z.min_l by lia. by apply accumulated_start.
    + lia.
Qed.

Lemma FromWords64_spec h s count words :
  heap_ok h -> words_ok words -> count <= Z.of_nat (List.length words) -> top_word_ok count words ->
  wp (BigInt.FromWords64 s count words)
    (outcome ((count <? 0) || (kMaxLength / digits_per_word <? count)) (signed s (word_sum words count)) h) h.
Proof.
  intros Hok Hws Hc Htop. unfold BigInt.FromWords64. fold digits_per_word. pose proof word_base as [_ Hdw].
  destruct (Z.ltb_spec count 0); cbn [orb]; [by apply wp_ret|].
  destruct (Z.ltb_spec (kMaxLength / digits_per_word) count) as [Hb|Hb]; [by apply wp_ret|].
  destruct (Z.eqb_spec count 0) as [->|Hne].
  { apply wp_bind. eapply wp_mono; [by apply Zero_spec|]. intros z h' Hz. apply wp_ret. exists z. split; [done|].
    by destruct s. }
  assert (Hmax : digits_per_word * count <= kMaxLength).
  { pose proof (Z.mul_div_le kMaxLength digits_per_word ltac:(lia)). nia. }
  apply wp_bind, wp_DCHECK; [apply Z.ltb_lt; lia|]. apply wp_bind.
  apply (wp_mono _ (fun b h' => h' = h /\ b = (kDigitBits =? 32) && (word_at words (count - 1) <? 2 ^ 32))).
  { destruct (Z.eqb_spec kDigitBits 32) as [EK|EK]; cbn [andb]; [|by apply wp_ret].
    apply wp_bind, wp_word; [lia|]. apply wp_ret. split; [done|]. specialize (Htop ltac:(lia) EK).
    change (Z.shiftl 1 32) with (2 ^ 32). bool_lia. }
  intros b h' [-> ->]. set (b := _ && _). set (len := if b then _ else _).
  assert (El : len = digits_per_word * count - (if b then 1 else 0)) by (subst len; destruct b; lia).
  clearbody len. assert (Hl : 1 <= len <= kMaxLength).
  { rewrite El. subst b. destruct (Z.eqb_spec kDigitBits 32) as [EK|EK]; cbn [andb]; [|lia].
    unfold digits_per_word in *. rewrite EK in *. change (64 / 32) with 2 in *. destruct (_ <? _); lia. }
  apply wp_maybe, wp_New; intros Hl'; [|lia]. unfold set_sign. cbn [digits]. apply wp_bind.
  eapply wp_mono; [apply (fill_words_spec h count words len s); [done|done|lia|exact El]|]. intros [] h2 Ha.
  destruct (accumulated_done _ _ (mkDigits (free h) len) _ Ha) as [Hw Hv].
  apply finish_maybe_spec; [lia|done|lia|by rewrite Hv].
Qed.

Lemma word_sum_insert words i w n :
  0 <= n <= i -> word_sum (<[Z.to_nat i := w]> words) n = word_sum words n.
Proof.
  intros Hn. unfold word_sum. apply total_ext; [lia|]. intros j Hj. unfold word_at.
  by rewrite list_lookup_insert_ne by lia.
Qed.

Lemma word_at_insert words i w :
  0 <= i < Z.of_nat (List.length words) -> word_at (<[Z.to_nat i := w]> words) i = w.
Proof. intros Hi. unfold word_at. by rewrite list_lookup_insert_eq by lia. Qed.

(** The words written so far make up the digits read so far. *)
Definition words_filled (h : Heap) (X : Digits) (i : Z) (words words' : list Z) : Prop :=
  List.length words' = List.length words /\ (words_ok words -> words_ok words') /\
  word_sum words' i = low h X (digits_per_word * i).

Lemma words_ok_insert i w words : 0 <= w < 2 ^ 64 -> words_ok words -> words_ok (<[Z.to_nat i := w]> words).
Proof.
  intros Hw Hok j. specialize (Hok j). unfold word_at in *.
  destruct (decide (Z.to_nat i = Z.to_nat j)) as [E|E]; [|by rewrite list_lookup_insert_ne].
  rewrite <- E in *. destruct (words !! Z.to_nat i) eqn:El.
  - rewrite list_lookup_insert_eq by (by eapply lookup_lt_Some). done.
  - rewrite list_insert_ge by (by apply lookup_ge_None). by rewrite El.
Qed.

(** Words add up to a number below the next power. *)
Lemma word_sum_range words n : words_ok words -> 0 <= n -> 0 <= word_sum words n < 2 ^ (64 * n).
Proof.
  intros Hok. revert n. refine (sum_ind _ _ _); [done|]. intros n Hn IH. rewrite word_sum_succ by done.
  replace (64 * (n + 1)) with (64 * n + 64) by lia. rewrite Z.pow_add_r by lia. specialize (Hok n). nia.
Qed.

(** The top word of a number. *)
Lemma top_word words n :
  words_ok words -> 0 < n -> word_at words (n - 1) = word_sum words n / 2 ^ (64 * (n - 1)).
Proof.
  intros Hok Hn. replace n with (n - 1 + 1) at 2 by lia. rewrite word_sum_succ by lia.
  pose proof (word_sum_range words (n - 1) Hok ltac:(lia)). rewrite Z.div_add, Z.div_small by lia. done.
Qed.

Lemma words_filled_step h X i words words' w :
  0 <= i < Z.of_nat (List.length words) -> words_filled h X i words words' -> 0 <= w < 2 ^ 64 ->
  low h X (digits_per_word * (i + 1)) = low h X (digits_per_word * i) + w * 2 ^ (64 * i) ->
  words_filled h X (i + 1) words (<[Z.to_nat i := w]> words').
Proof.
  intros Hi (Hl & Hw & Hs) Hd E. split; [by rewrite length_insert|]. split; [auto using words_ok_insert|].
  rewrite word_sum_succ, word_sum_insert, word_at_insert, E, Hs by lia. done.
Qed.

Lemma Words64Count_spec x :
  0 <= length x -> 0 <= BigInt.Words64Count x /\
  length x <= digits_per_word * BigInt.Words64Count x < length x + digits_per_word.
Proof.
  intros Hl. unfold BigInt.Words64Count, digits_per_word.
  destruct target_cases as [[-> _]|[-> _]].
  - change (64 / 64) with 1. change (64 =? 32) with false. cbn [andb]. rewrite Z.div_1_r. lia.
  - change (64 / 32) with 2. change (32 =? 32) with true. cbn [andb].
    destruct (Z.eqb_spec (length x mod 2) 1); Z.to_euclidean_division_equations; lia.
Qed.

Lemma ToWordsArray64_spec h x available words :
  heap_ok h -> bigint_ok h x -> BigInt.Words64Count x <= available ->
  BigInt.Words64Count x <= Z.of_nat (List.length words) ->
  wp (BigInt.ToWordsArray64 x available words)
    (fun '(s, count, words') h' => h' = h /\ s = sign x /\ count = BigInt.Words64Count x /\
       List.length words' = List.length words /\ (words_ok words -> words_ok words') /\
       word_sum words' count = value h (digits x)) h.
Proof.
  intros Hok Hx Hav Hlen. pose proof (bigint_lengths _ _ Hx) as [L _].
  destruct (Words64Count_spec x L) as [Hc0 Hc]. unfold BigInt.ToWordsArray64, digit.
  set (count := BigInt.Words64Count x) in *. pose proof word_base as [_ Hdw].
  assert (Hall : forall words', words_filled h (digits x) count words words' ->
    List.length words' = List.length words /\ (words_ok words -> words_ok words') /\
    word_sum words' count = value h (digits x)).
  { intros words' (H1 & H2 & H3). do 2 (split; [done|]). rewrite H3. unfold low. unfold length in *. by rewrite Z.min_r by lia. }
  destruct (Z.eqb_spec available 0) as [->|Hne].
  { apply wp_ret. do 5 (split; [done|]). assert (count = 0) as -> by lia.
    change (word_sum words 0) with 0. rewrite value_empty; [done|]. unfold length in *. lia. }
  apply wp_bind. apply (wp_mono _ (fun words' h' => h' = h /\ words_filled h (digits x) count words words')).
  2: { intros words' h' [-> Hf]. apply wp_ret. do 3 (split; [done|]). by apply Hall. }
  assert (Hstart : words_filled h (digits x) 0 words words).
  { do 2 (split; [done|]). rewrite Z.mul_0_r. unfold low. rewrite Z.min_l by (unfold length in L; lia). done. }
  unfold length in *. unfold digits_per_word in *. destruct target_cases as [[EK EB]|[EK EB]]; rewrite EK in *.
  - change (64 =? 64) with true. change (64 / 64) with 1 in *. cbn iota. assert (len_ (digits x) = count) as El by lia.
    rewrite El, Z.min_l by lia.
    apply (wp_for_up (fun i words' h' => h' = h /\ words_filled h (digits x) i words words')); [lia|done| |done].
    intros i words' h' Hi [-> Hf]. apply wp_bind, wp_get; [lia|]. pose proof (proj1 Hf) as Hl'.
    rewrite (proj2 (Z.leb_le _ _)), (proj2 (Z.ltb_lt _ _)) by lia. apply wp_ret. split; [done|].
    apply words_filled_step; [lia|done|by rewrite <- EB; apply Hok|].
    unfold digits_per_word. rewrite EK. change (64 / 64) with 1.
    rewrite !Z.mul_1_l, low_succ, pow_64 by lia. unfold digits_per_word, digit_at. rewrite EK.
    change (64 / 64) with 1. rewrite Z.mul_1_l. by case_ltb.
  - change (32 =? 64) with false. change (64 / 32) with 2 in *. cbn iota.
    apply (wp_loop (fun '(i, av, words') h' => exists j, i = 2 * j /\ 0 <= j <= count /\ count - j <= av /\ h' = h /\
      words_filled h (digits x) j words words')
      (fun '(i, av, words') _ => Z.to_nat (len_ (digits x) - i))).
    + intros [[i av] words'] h' (j & -> & Hj & Hv & -> & Hf). destruct (Z.ltb_spec (2 * j) (len_ (digits x))) as [H|H]; cbn [andb].
      2: { apply wp_ret. split; [done|]. by replace count with j by lia. }
      rewrite (proj2 (Z.ltb_lt _ _)) by lia. apply wp_bind, wp_get; [lia|]. apply wp_bind.
      apply (wp_mono _ (fun hi h' => h' = h /\ hi = digit_at h (digits x) (2 * j + 1))).
      { unfold digit_at. destruct (Z.ltb_spec (2 * j + 1) (len_ (digits x))); [apply wp_get; [lia|done]|by apply wp_ret]. }
      intros hi h' [-> ->]. apply wp_bind. pose proof (proj1 Hf) as Hl'.
      replace (2 * j / 2) with j by (rewrite Z.mul_comm, Z.div_mul; lia).
      rewrite (proj2 (Z.leb_le _ _)), (proj2 (Z.ltb_lt _ _)) by lia. apply wp_ret, wp_ret.
      pose proof (Hok (digits_ (digits x) + 2 * j)) as H0. pose proof (digit_at_ok h (digits x) (2 * j + 1) Hok) as H1.
      unfold is_digit in H0, H1. rewrite EB in H0, H1. unfold uint64.
      rewrite Z.shiftl_mul_pow2, wrap_small, Z.lor_comm, lor_add by lia.
      split; [|lia]. exists (j + 1). do 4 (split; [lia || done|]). apply words_filled_step; [lia|done|lia|].
      unfold digits_per_word. rewrite EK. change (64 / 32) with 2.
      replace (2 * (j + 1)) with (2 * j + 1 + 1) by lia. rewrite !low_succ, pow_64, kBase_pow_succ by lia.
      unfold digits_per_word. rewrite EK, EB. change (64 / 32) with 2. rewrite <- EB.
      unfold digit_at at 1. case_ltb.
    + exists 0. do 4 (split; [lia || done|]). done.
    + lia.
Qed.

End WordsSpec.
