(* ===== verification/BigIntProgram.v ===== *)
(** * Programs of BigInt operations

    A sequence of operations on BigInt values, run on the shared memory the way
    the runtime runs it, and the same sequence on integers. The memory is only
    ever extended, every BigInt in it stays canonical, and the values agree
    until an operation throws: the exception the integers ask for, a result near
    the longest length, or the end of an interrupted script. *)

From stdpp Require Import base list numbers.
From Stdlib Require Import ZArith Lia Bool.
From S2P Require Import Prelude.
From S2P Require Import BigIntDigits.
From S2P Require Import BigIntVectors.
From S2P Require Import BigIntMemory.
From S2P Require Import BigIntArithmetic.
From S2P Require Import BigIntMul.
From S2P Require Import BigIntShift.
From S2P Require Import BigIntBitwise.
From S2P Require Import BigIntTruncateSpec.
From S2P Require Import BigIntKaratsuba.
From S2P Require Import BigIntProcessor.
From S2P Require Import BigIntObjects.
From S2P Require Import BigIntQuiet.
From S2P Require Import BigIntObjectsSpec.
From S2P Require Import BigIntObjectsBitsSpec.
From S2P Require Import BigIntProducts.
From S2P Require Import BigIntProductsSpec.
From S2P Require Import BigIntQuotients.
From S2P Require Import BigIntQuotientsSpec.
From S2P Require Import BigIntWordsSpec.

Local Open Scope Z_scope.
Local Open Scope prog_scope.
Local Open Scope handle_scope.

(** ** Operations *)

Inductive UnaryOp := Negate | Not | Inc | Dec | ClampInt (n : Z) | ClampUint (n : Z).
Inductive BinaryOp := Plus | Minus | Times | Power | Over | Remainder | And | Or | Xor | Shl | Sar.

(** An operand is the position of an earlier result, the latest first. *)
Inductive Operation :=
  | Constant (n : Z)
  | Unary (op : UnaryOp) (x : nat)
  | Binary (op : BinaryOp) (x y : nat).

Section Program.
Context {T : DigitTarget} {P : Platform} {BB : BigIntBuild} {AM : AdvancedMultiplication} {AD : AdvancedDivision}.
Local Abbreviation HM := (M Heap).

Definition always {A} (m : HM A) : HM (MaybeHandle A) := let* r := m in ret (inl r).

Definition run_unary (op : UnaryOp) (x : BigInt) : HM (MaybeHandle BigInt) :=
  match op with
  | Negate => always (UnaryMinus x)
  | Not => BigInt.BitwiseNot x
  | Inc => BigInt.Increment x
  | Dec => BigInt.Decrement x
  | ClampInt n => always (BigInt.AsIntN n x)
  | ClampUint n => BigInt.AsUintN n x
  end.

Definition run_binary (op : BinaryOp) : BigInt -> BigInt -> HM (MaybeHandle BigInt) :=
  match op with
  | Plus => BigInt.Add
  | Minus => BigInt.Subtract
  | Times => BigInt_Multiply
  | Power => BigInt_Exponentiate
  | Over => BigInt_Divide
  | Remainder => BigInt_Remainder
  | And => BigInt.BitwiseAnd
  | Or => BigInt.BitwiseOr
  | Xor => BigInt.BitwiseXor
  | Shl => BigInt.LeftShift
  | Sar => BigInt.SignedRightShift
  end.

Definition operand (xs : list BigInt) (i : nat) : HM BigInt :=
  match xs !! i with Some x => ret x | None => undefined end.

Definition run_operation (o : Operation) (xs : list BigInt) : HM (MaybeHandle BigInt) :=
  match o with
  | Constant n => always (BigInt.FromInt64 n)
  | Unary op i => let* x := operand xs i in run_unary op x
  | Binary op i j => let* x := operand xs i in let* y := operand xs j in run_binary op x y
  end.

Fixpoint run_program (os : list Operation) (xs : list BigInt) : HM (MaybeHandle (list BigInt)) :=
  match os with
  | [] => ret (inl xs)
  | o :: os => let? z := run_operation o xs in run_program os (z :: xs)
  end.

(** ** The integers they stand for *)

Definition eval_unary (op : UnaryOp) (v : Z) : Z :=
  match op with
  | Negate => - v
  | Not => Z.lnot v
  | Inc => v + 1
  | Dec => v - 1
  | ClampInt n => asIntN n v
  | ClampUint n => v mod 2 ^ n
  end.

Definition eval_binary (op : BinaryOp) (v w : Z) : Z + Exception :=
  match op with
  | Plus => inl (v + w)
  | Minus => inl (v - w)
  | Times => inl (v * w)
  | Power => if w <? 0 then inr kMustBePositive else inl (v ^ w)
  | Over => if w =? 0 then inr kBigIntDivZero else inl (Z.quot v w)
  | Remainder => if w =? 0 then inr kBigIntDivZero else inl (Z.rem v w)
  | And => inl (Z.land v w)
  | Or => inl (Z.lor v w)
  | Xor => inl (Z.lxor v w)
  | Shl => inl (shifted v w)
  | Sar => inl (shifted v (- w))
  end.

Definition eval_operation (o : Operation) (vs : list Z) : Z + Exception :=
  match o with
  | Constant n => inl n
  | Unary op i => inl (eval_unary op (nth i vs 0))
  | Binary op i j => eval_binary op (nth i vs 0) (nth j vs 0)
  end.

(** The values up to the first exception, and the exception. *)
Fixpoint eval_program (os : list Operation) (vs : list Z) : list Z * option Exception :=
  match os with
  | [] => (vs, None)
  | o :: os =>
      match eval_operation o vs with
      | inl v => eval_program os (v :: vs)
      | inr e => (vs, Some e)
      end
  end.

(** Constants are 64-bit integers, widths are not negative, operands exist. *)
Definition operation_ok (n : nat) (o : Operation) : Prop :=
  match o with
  | Constant c => - 2 ^ 63 <= c < 2 ^ 63
  | Unary (ClampInt w | ClampUint w) i => 0 <= w /\ (i < n)%nat
  | Unary _ i => (i < n)%nat
  | Binary _ i j => (i < n)%nat /\ (j < n)%nat
  end.

Fixpoint program_ok (n : nat) (os : list Operation) : Prop :=
  match os with
  | [] => True
  | o :: os => operation_ok n o /\ program_ok (S n) os
  end.

Context {TOK : DigitTargetOK T} {AMOK : AdvancedMultiplicationOK AM} {ADOK : AdvancedDivisionOK AD}.

Lemma length_large h x : heap_ok h -> bigint_ok h x -> kMaxLength <= length x -> large (number h x).
Proof.
  intros Hok Hx Hl. unfold large. rewrite (magnitude_number h x) by done. pose proof kMaxLength_2.
  destruct Hx as [Hn _ _ _]. unfold length in *.
  etrans; [|apply (normal_lower h (digits x) (len_ (digits x) - 1)); [done|done|lia]].
  apply kBase_pow_mono. lia.
Qed.

Lemma too_long_large V W : too_long V = true -> Z.abs W = V -> large W.
Proof.
  unfold too_long, large. intros H ->. apply Z.leb_le in H. etrans; [|exact H]. apply kBase_pow_mono. lia.
Qed.

(** The condition for throwing in another form. *)
Lemma outcome_when b b' V h m : b = b' -> wp m (outcome b V h) h -> wp m (outcome b' V h) h.
Proof. by intros ->. Qed.

(** ** One operation *)

(** The result denotes [V], or the operation threw and [danger] holds. *)
Definition evaluates (V : Z) (danger : Prop) (h : Heap) (r : MaybeHandle BigInt) (h' : Heap) : Prop :=
  match r with
  | inl z => computed h h' z V
  | inr e => e = kBigIntTooBig /\ h' = h /\ danger
  end.

Lemma outcome_evaluates b V (danger : Prop) h m :
  (b = true -> danger) -> wp m (outcome b V h) h -> wp m (evaluates V danger h) h.
Proof.
  intros Hd H. eapply wp_mono; [exact H|]. intros r h'. unfold outcome.
  destruct b; [intros [-> ->]; cbn; auto|intros (z & -> & Hz); done].
Qed.

Lemma always_evaluates V (danger : Prop) h (m : HM BigInt) :
  wp m (fun z h' => computed h h' z V) h -> wp (always m) (evaluates V danger h) h.
Proof. intros H. apply wp_bind. eapply wp_mono; [exact H|]. intros z h' Hz. by apply wp_ret. Qed.

(** The result is what the integers give: a value, or an exception at once. *)
Definition settled_as (ev : Z + Exception) (danger : Prop) (h : Heap) (r : MaybeHandle BigInt) (h' : Heap) : Prop :=
  match ev with
  | inl V => settled V danger h r h'
  | inr e => r = inr e /\ h' = h
  end.

Lemma settled_weaken V (long long' : Prop) h r h' : (long -> long') -> settled V long h r h' -> settled V long' h r h'.
Proof. intros Hl (He & Hi & Hq & Hr). do 3 (split; [done|]). destruct r as [z|[]]; try done. destruct Hr. auto. Qed.

(** An operation that does not run on the processor. *)
Lemma quiet_settled m V danger h :
  heap_ok h -> idle h -> quiet m -> wp m (evaluates V danger h) h -> wp m (settled V danger h) h.
Proof.
  intros Hok Hi Hq H. eapply wp_mono; [by apply wp_quiet|]. intros [z|e] h' [He Ep].
  - by apply settled_same.
  - destruct He as (-> & -> & Hd). by apply settled_long.
Qed.

Section Operations.
Context (h : Heap) (Hok : heap_ok h).

Lemma grows_large x W :
  bigint_ok h x -> grows_too_long h x = true -> Z.abs W = value h (digits x) + 1 -> large W.
Proof. intros _ H E. by apply (too_long_large (value h (digits x) + 1)). Qed.

Lemma longer_large x y :
  bigint_ok h x -> bigint_ok h y -> kMaxLength < Z.max (length x) (length y) + 1 ->
  large (number h x) \/ large (number h y).
Proof.
  intros Hx Hy Hl. destruct (Z.max_spec (length x) (length y)) as [[_ E]|[_ E]]; rewrite E in Hl.
  - right. apply length_large; [done|done|lia].
  - left. apply length_large; [done|done|lia].
Qed.

Lemma no_longer x y : bigint_ok h x -> bigint_ok h y -> ~ kMaxLength < Z.max (length x) (length y).
Proof. intros Hx Hy. pose proof (bigint_lengths h x Hx). pose proof (bigint_lengths h y Hy). lia. Qed.

Lemma clamp_large x n :
  bigint_ok h x -> 0 <= n -> sign x && (kMaxLengthBits <? n) = true -> large (number h x mod 2 ^ n).
Proof.
  intros Hx Hn [Hs H]%andb_true_iff. apply Z.ltb_lt in H. unfold large.
  pose proof (bigint_pos h x Hok Hx (sign_nonzero h x Hx Hs)) as Hp.
  pose proof (magnitude_small h x Hok Hx) as Hm. unfold number. rewrite Hs. cbn [signed].
  assert (Hk : 0 <= kMaxLengthBits) by done.
  pose proof (pow2_pos kMaxLengthBits Hk) as Hp2. set (m := 2 ^ kMaxLengthBits) in *.
  assert (Hn2 : m * 2 <= 2 ^ n).
  { subst m. replace n with (kMaxLengthBits + 1 + (n - kMaxLengthBits - 1)) by lia.
    rewrite !Z.pow_add_r by lia. pose proof (pow2_pos (n - kMaxLengthBits - 1) ltac:(lia)). nia. }
  rewrite <- (Z.mod_unique (- value h (digits x)) (2 ^ n) (-1) (2 ^ n - value h (digits x))) by lia.
  rewrite Z.abs_eq by lia. transitivity m; [|lia]. subst m. rewrite <- kMaxLengthBits_eq. apply kBase_pow_mono. lia.
Qed.

Lemma run_unary_spec op x i n :
  bigint_ok h x -> operation_ok n (Unary op i) ->
  wp (run_unary op x) (evaluates (eval_unary op (number h x)) (large (eval_unary op (number h x))) h) h.
Proof.
  intros Hx Hop. pose proof (magnitude_number h x Hok Hx) as Hm. destruct op; cbn in Hop |- *.
  - by apply always_evaluates, UnaryMinus_spec.
  - eapply outcome_evaluates; [|by apply BitwiseNot_spec]. intros [Hs H]%andb_true_iff.
    apply (grows_large x); [done|done|]. apply negb_true_iff in Hs. unfold number in *. rewrite Hs in *.
    cbn in *. unfold Z.lnot. lia.
  - eapply outcome_evaluates; [|by apply Increment_spec]. intros [Hs H]%andb_true_iff.
    apply (grows_large x); [done|done|]. apply negb_true_iff in Hs. unfold number in *. rewrite Hs in *.
    cbn in *. lia.
  - eapply outcome_evaluates; [|by apply Decrement_spec]. intros [Hs H]%andb_true_iff.
    apply (grows_large x); [done|done|]. unfold number in *. rewrite Hs in *. cbn in *. lia.
  - destruct Hop. by apply always_evaluates, AsIntN_object_spec.
  - destruct Hop. eapply outcome_evaluates; [|by apply AsUintN_object_spec]. by apply clamp_large.
Qed.

(** A shift of a number that is too long by its own magnitude. *)
Lemma shift_large x n :
  bigint_ok h x -> shift_too_long h x n = true -> large (shifted (number h x) n).
Proof.
  intros Hx [[Hz H0]%andb_true_iff H]%andb_true_iff. unfold shifted. rewrite H0. apply Z.leb_le in H0.
  eapply too_long_large; [exact H|]. rewrite Z.abs_mul, (magnitude_number h x) by done.
  f_equal. apply Z.abs_eq, Z.pow_nonneg. lia.
Qed.

(** The operations that do not run on the processor. *)
Definition plain (op : BinaryOp) : bool :=
  match op with Times | Power | Over | Remainder => false | _ => true end.

Lemma run_plain_spec op x y V :
  bigint_ok h x -> bigint_ok h y -> plain op = true -> eval_binary op (number h x) (number h y) = inl V ->
  wp (run_binary op x y) (evaluates V (large V \/ large (number h x) \/ large (number h y)) h) h.
Proof.
  intros Hx Hy Hp EV. pose proof (no_longer x y Hx Hy) as Hno. pose proof (longer_large x y Hx Hy) as Hlong.
  destruct op; try discriminate Hp; cbn in EV |- *; injection EV as <-.
  - eapply outcome_evaluates; [|by apply Add_object_spec]. rewrite andb_true_iff, Z.ltb_lt.
    unfold AddSignedResultLength, AddResultLength. case_match; intros [_ Hl]; [auto|done].
  - eapply outcome_evaluates; [|by apply Subtract_object_spec]. rewrite andb_true_iff, Z.ltb_lt.
    unfold SubtractSignedResultLength, AddResultLength. case_match; intros [_ Hl]; [done|auto].
  - eapply outcome_evaluates; [|by apply BitwiseAnd_object_spec]. rewrite andb_true_iff, Z.ltb_lt.
    intros [_ H]. auto.
  - by eapply outcome_evaluates; [|by apply BitwiseOr_object_spec].
  - eapply outcome_evaluates; [|by apply BitwiseXor_object_spec]. rewrite andb_true_iff, Z.ltb_lt.
    intros [_ H]. auto.
  - eapply outcome_evaluates; [|by apply LeftShift_object_spec]. left. by apply shift_large.
  - eapply outcome_evaluates; [|by apply SignedRightShift_object_spec]. left. by apply shift_large.
Qed.

Lemma zero_divisor x : bigint_ok h x -> is_zero x = (number h x =? 0).
Proof.
  intros Hx. destruct (is_zero x) eqn:E; symmetry.
  - apply Z.eqb_eq. by apply zero_number.
  - apply Z.eqb_neq. pose proof (bigint_pos h x Hok Hx E). unfold number, signed. destruct (sign x); lia.
Qed.

Context (Hpat : patient) (Hidle : idle h).

Lemma run_binary_spec op x y :
  bigint_ok h x -> bigint_ok h y ->
  wp (run_binary op x y)
    (settled_as (eval_binary op (number h x) (number h y))
       (match eval_binary op (number h x) (number h y) with inl V => large V | inr _ => False end \/
          large (number h x) \/ large (number h y)) h) h.
Proof.
  intros Hx Hy. destruct (plain op) eqn:Ep.
  - destruct (eval_binary op (number h x) (number h y)) as [V|e] eqn:EV; [|by destruct op].
    apply quiet_settled; [done|done| |by apply run_plain_spec].
    destruct op; try discriminate Ep; cbn; auto with quiet.
  - destruct op; try discriminate Ep; cbn.
    + eapply wp_mono; [by apply BigInt_Multiply_spec|]. intros r h' [H _].
      eapply settled_weaken; [|exact H]. intros Hl. left. by apply product_large.
    + eapply wp_mono; [by apply BigInt_Exponentiate_spec|]. intros r h' H. cbn beta in H.
      destruct (number h y <? 0); [exact H|]. eapply settled_weaken; [|exact H]. auto.
    + rewrite <- zero_divisor by done. destruct (is_zero y) eqn:Zy.
      * unfold BigInt_Divide. rewrite Zy. by apply wp_ret.
      * eapply wp_mono; [by apply BigInt_Divide_spec|]. intros r h'. by apply settled_weaken.
    + rewrite <- zero_divisor by done. destruct (is_zero y) eqn:Zy.
      * unfold BigInt_Remainder. rewrite Zy. by apply wp_ret.
      * eapply wp_mono; [by apply BigInt_Remainder_spec|]. intros r h'. by apply settled_weaken.
Qed.

Lemma wp_operand xs i (Q : BigInt -> Heap -> Prop) :
  Forall (bigint_ok h) xs -> (i < List.length xs)%nat ->
  (forall x, bigint_ok h x -> number h x = nth i (map (number h) xs) 0 ->
     In (number h x) (map (number h) xs) -> Q x h) ->
  wp (operand xs i) Q h.
Proof.
  intros Hxs Hi HQ. unfold operand. destruct (lookup_lt_is_Some_2 xs i Hi) as [x E]. rewrite E.
  apply wp_ret, HQ.
  - by apply (Forall_lookup_1 _ _ _ _ Hxs E).
  - symmetry. apply nth_lookup_Some. by rewrite list_lookup_fmap, E.
  - apply in_map, list_elem_of_In. by apply (list_elem_of_lookup_2 _ i).
Qed.

(** The values that may be too long: the result and all before it. *)
Definition danger (ev : Z + Exception) (vs : list Z) : Prop :=
  Exists large (match ev with inl V => V :: vs | inr _ => vs end).

Lemma run_operation_spec o xs :
  Forall (bigint_ok h) xs -> operation_ok (List.length xs) o ->
  let vs := map (number h) xs in
  wp (run_operation o xs) (settled_as (eval_operation o vs) (danger (eval_operation o vs) vs) h) h.
Proof.
  intros Hxs Hop vs. subst vs. destruct o as [n|op i|op i j]; cbn [run_operation eval_operation].
  - apply quiet_settled; [done|done|quiet_tac; auto with quiet|]. by apply always_evaluates, FromInt64_spec.
  - apply wp_bind, wp_operand; [done|by destruct op; try apply Hop|]. intros x Hx <- _.
    eapply wp_mono; [eapply quiet_settled; [done|done| |by eapply run_unary_spec]|].
    + destruct op; cbn; quiet_tac; auto with quiet.
    + intros r h'. apply settled_weaken. by left.
  - destruct Hop as [Hi Hj]. apply wp_bind, wp_operand; [done|done|]. intros x Hx <- Ix.
    apply wp_bind, wp_operand; [done|done|]. intros y Hy <- Iy.
    eapply wp_mono; [by apply run_binary_spec|]. intros r h'. unfold settled_as, danger.
    destruct (eval_binary op (number h x) (number h y)) as [V|e]; [|done]. apply settled_weaken.
    intros Hd. apply Exists_cons. destruct Hd as [Hd|Hd]; [by left|right]. apply Exists_exists. destruct Hd; eauto.
Qed.

End Operations.

(** ** A program *)

Lemma extends_bigints h h' xs :
  extends h h' -> Forall (bigint_ok h) xs ->
  Forall (bigint_ok h') xs /\ map (number h') xs = map (number h) xs.
Proof.
  intros He Hxs. induction Hxs as [|x xs Hx _ [IH1 IH2]]; [done|].
  destruct (extends_bigint h h' x He Hx) as [H1 H2]. split; [by constructor|]. cbn. congruence.
Qed.

Lemma eval_program_keeps os vs (Q : Z -> Prop) : Exists Q vs -> Exists Q (fst (eval_program os vs)).
Proof.
  revert vs. induction os as [|o os IH]; intros vs H; cbn; [done|].
  destruct (eval_operation o vs); [|done]. apply IH. by right.
Qed.

(** What a program that started with [vs] may end with. *)
Definition program_result (os : list Operation) (vs : list Z) (h : Heap)
    (r : MaybeHandle (list BigInt)) (h' : Heap) : Prop :=
  extends h h' /\ idle h' /\ (queries (proc h) <= queries (proc h'))%nat /\
  match r with
  | inl zs => interrupted h h' = false /\ Forall (bigint_ok h') zs /\ eval_program os vs = (map (number h') zs, None)
  | inr kBigIntTooBig => interrupted h h' = false /\ Exists large (fst (eval_program os vs))
  | inr Terminated => interrupted h h' = true
  | inr e => interrupted h h' = false /\ snd (eval_program os vs) = Some e
  end.

(** The rest of a program behind an operation that has settled. *)
Lemma program_result_trans os vs h h1 r h' z V long :
  settled V long h (inl z) h1 -> program_result os vs h1 r h' -> program_result os vs h r h'.
Proof.
  intros (He1 & _ & Hq1 & I1 & _) (He2 & Hi2 & Hq2 & Hr). split; [by eapply extends_trans|].
  split; [done|]. split; [lia|]. rewrite (interrupted_trans h h1 h'), I1 by done. exact Hr.
Qed.

Lemma eval_binary_exception op v w e : eval_binary op v w = inr e -> e = kMustBePositive \/ e = kBigIntDivZero.
Proof. destruct op; cbn; try done; case_match; intros E; simplify_eq; auto. Qed.

Lemma eval_operation_exception o vs e : eval_operation o vs = inr e -> e = kMustBePositive \/ e = kBigIntDivZero.
Proof. destruct o; [done..|]. apply eval_binary_exception. Qed.

(** A program that ends with its first operation. *)
Lemma program_stops o os h vs e h' :
  settled_as (eval_operation o vs) (danger (eval_operation o vs) vs) h (inr e) h' -> heap_ok h -> idle h ->
  program_result (o :: os) vs h (inr e) h'.
Proof.
  intros Hs Hok Hi. unfold program_result. cbn [eval_program]. destruct (eval_operation o vs) as [V|e'] eqn:EV; cbn [settled_as] in Hs.
  - destruct Hs as (He & Hi' & Hq & Hr). do 3 (split; [done|]). destruct e; try done. destruct Hr as [Hn Hd].
    split; [done|]. by apply eval_program_keeps.
  - destruct Hs as [[= <-] ->]. split; [by apply extends_refl|]. split; [done|]. split; [done|].
    pose proof (interrupted_refl h h eq_refl). by destruct (eval_operation_exception o vs e EV) as [-> | ->].
Qed.

Lemma run_program_spec os xs h :
  patient -> heap_ok h -> idle h -> Forall (bigint_ok h) xs -> program_ok (List.length xs) os ->
  wp (run_program os xs) (program_result os (map (number h) xs) h) h.
Proof.
  intros Hpat. revert xs h. induction os as [|o os IH]; intros xs h Hok Hi Hxs Hp; cbn [run_program].
  - apply wp_ret. split; [by apply extends_refl|]. split; [done|]. split; [done|]. by split; [apply interrupted_refl|].
  - destruct Hp as [Ho Hp]. apply wp_maybe. eapply wp_mono; [by apply run_operation_spec|].
    intros [z|e] h1 Hs; [|by apply program_stops].
    destruct (eval_operation o (map (number h) xs)) as [V|e] eqn:EV; cbn [settled_as] in Hs; [|by destruct Hs].
    pose proof Hs as (He & Hi1 & _ & _ & Hz & Hn). destruct (extends_bigints h h1 xs He Hxs) as [Hxs1 Exs].
    eapply wp_mono; [apply (IH (z :: xs) h1); [apply He|done|by constructor|done]|].
    intros r h2 Hr. eapply program_result_trans; [exact Hs|]. cbn [map] in Hr. rewrite Hn, Exs in Hr.
    unfold program_result in *. cbn [eval_program]. by rewrite EV.
Qed.

End Program.
