(* ===== verification/BigIntProperties.v ===== *)
(** * Properties of the BigInt arithmetic

    The claims about digits, vectors and BigInt objects, each with a use on
    concrete numbers in a concrete memory. *)

From stdpp Require Import base list numbers.
From Stdlib Require Import ZArith Lia Bool.
From S2P Require Import Prelude.
From S2P Require Import BigIntDigits.
From S2P Require Import BigIntVectors.
From S2P Require Import BigIntMemory.
From S2P Require Import BigIntArithmetic.
From S2P Require Import BigIntMul.
From S2P Require Import BigIntShift.
From S2P Require Import BigIntDiv.
From S2P Require Import BigIntDivSpec.
From S2P Require Import BigIntBitwise.
From S2P Require Import BigIntTruncateSpec.
From S2P Require Import BigIntInterrupts.
From S2P Require Import BigIntKaratsuba.
From S2P Require Import BigIntKaratsubaSpec.
From S2P Require Import BigIntKaratsubaChunks.
From S2P Require Import BigIntProcessor.
From S2P Require Import BigIntBurnikelSpec.
From S2P Require Import BigIntBurnikelBlocks.
From S2P Require Import BigIntObjects.
From S2P Require Import BigIntObjectsSpec.
From S2P Require Import BigIntObjectsBitsSpec.
From S2P Require Import BigIntProducts.
From S2P Require Import BigIntProductsSpec.
From S2P Require Import BigIntQuotients.
From S2P Require Import BigIntQuotientsSpec.
From S2P Require Import BigIntWordsSpec.
From S2P Require Import BigIntProgram.

Local Open Scope Z_scope.
Local Open Scope prog_scope.

(** ** Concrete targets and memories *)

Definition target64 : DigitTarget := {| kLog2DigitBits := 6; HAVE_TWODIGIT_T := true; HAVE_DIV_INSTRUCTION := false |}.
Definition target32 : DigitTarget := {| kLog2DigitBits := 5; HAVE_TWODIGIT_T := false; HAVE_DIV_INSTRUCTION := false |}.

#[export] Instance target64_ok : DigitTargetOK target64.
Proof. by right. Qed.

#[export] Instance target32_ok : DigitTargetOK target32.
Proof. by left. Qed.

Definition never_interrupted : Platform := fun _ => false.


(** A build with the advanced algorithms, whose places are taken by the
    schoolbook algorithms: they meet the contracts. *)
Definition advanced : BigIntBuild := true.

Definition schoolbook_products {T : DigitTarget} {P : Platform} : AdvancedMultiplication :=
  {| MultiplyToomCook := MultiplySchoolbook; MultiplyFFT := MultiplySchoolbook |}.

Definition schoolbook_quotients {T : DigitTarget} {P : Platform} : AdvancedDivision :=
  {| DivideBarrett := DivideSchoolbook |}.

Lemma schoolbook_products_ok {T : DigitTarget} {P : Platform} {TOK : DigitTargetOK T} :
  AdvancedMultiplicationOK (BB := advanced) schoolbook_products.
Proof.
  split; intros _ h Z_ X Y Hr NX NY HY; apply schoolbook_multiplies; try done; unfold kToomThreshold, kFftThreshold in HY; lia.
Qed.

Lemma schoolbook_quotients_ok {T : DigitTarget} {P : Platform} {TOK : DigitTargetOK T} :
  AdvancedDivisionOK (BB := advanced) schoolbook_quotients.
Proof.
  split. intros _ h Q R A B [Hok [HB _] [LQ LR] [NA NB] (BQ & BR & BA & BB) QR (_ & QB & _)]. unfold kBarrettThreshold in HB.
  eapply wp_mono; [apply (schoolbook_divides h A B); try done; lia|]. intros [] h' (Hc & HQ & HR).
  constructor; [done|]. intros _. split; [apply HQ; lia|done].
Qed.

Definition products64 : AdvancedMultiplication := schoolbook_products (T := target64) (P := never_interrupted).
Definition quotients64 : AdvancedDivision := schoolbook_quotients (T := target64) (P := never_interrupted).

(** The given digits from address 0 on, and zero elsewhere. *)
Definition memory (l : list Z) : Heap :=
  mkHeap (fun a => if a <? 0 then 0 else default 0 (l !! Z.to_nat a)) (Z.of_nat (List.length l))
    (mkProcessor 0 kOk 0).

Definition is_digitb `{DigitTarget} (x : Z) : bool := (0 <=? x) && (x <? kBase).

Lemma memory_ok {T : DigitTarget} {TOK : DigitTargetOK T} l : forallb is_digitb l = true -> heap_ok (memory l).
Proof.
  intros Hl a. cbn. pose proof kBase_pos. destruct (a <? 0); [unfold is_digit; lia|].
  destruct (l !! Z.to_nat a) as [d|] eqn:E; cbn; [|unfold is_digit; lia].
  rewrite forallb_forall in Hl. specialize (Hl d). apply andb_true_iff in Hl; [unfold is_digit; lia|].
  apply list_elem_of_In, (list_elem_of_lookup_2 _ _ _ E).
Qed.

(** [bigint_ok] as a test. *)
Definition bigint_okb `{DigitTarget} (h : Heap) (x : BigInt) : bool :=
  (0 <=? length x) && (length x <=? kMaxLength) && (digits_ (digits x) + length x <=? free h) &&
  (if length x =? 0 then negb (sign x) else negb (cell h (digits_ (digits x) + (length x - 1)) =? 0)).

Lemma bigint_okb_ok `{DigitTarget} h x : bigint_okb h x = true -> bigint_ok h x.
Proof.
  unfold bigint_okb. intros [[[H1 H2]%andb_true_iff H3]%andb_true_iff H4]%andb_true_iff.
  apply Z.leb_le in H1, H2, H3. constructor; [split; [done|]|done| |done].
  - intros H5. destruct (Z.eqb_spec (length x) 0) as [E|E]; [unfold length in E; lia|].
    by apply negb_true_iff, Z.eqb_neq in H4.
  - intros E. rewrite E in H4. by apply negb_true_iff.
Qed.

(** Numbers for the examples: 7 * 2^64 + 5 and -3. *)
Definition example_memory : Heap := memory [5; 7; 3].
Definition example_x : BigInt := mkBigInt false (mkDigits 0 2).
Definition example_y : BigInt := mkBigInt true (mkDigits 2 1).

Lemma example_memory_ok : heap_ok (T := target64) example_memory.
Proof. by apply memory_ok. Qed.

Lemma example_x_ok : bigint_ok (T := target64) example_memory example_x.
Proof. by apply bigint_okb_ok. Qed.

Lemma example_y_ok : bigint_ok (T := target64) example_memory example_y.
Proof. by apply bigint_okb_ok. Qed.

Lemma examples_ok : Forall (bigint_ok (T := target64) example_memory) [example_x; example_y].
Proof. repeat (apply List.Forall_cons || apply List.Forall_nil); [apply example_x_ok|apply example_y_ok]. Qed.

Create HintDb example.
#[local] Hint Resolve example_memory_ok examples_ok example_x_ok example_y_ok target64_ok target32_ok : example.

(** ** Programs *)



(** ** Canonical form *)



(** ** Arithmetic of the language *)

(** C24: addition, subtraction, negation, increment and decrement of canonical
    BigInts give the exact integer result in canonical form and touch no BigInt
    that existed before; the sum of two nonzero numbers throws exactly when its
    conservative length, one digit more than the longer operand when the
    magnitudes are added, exceeds the longest length, and the increment and
    decrement exactly when the result itself is too long. *)
Theorem bigint_addition {T : DigitTarget} {TOK : DigitTargetOK T} h x y :
  heap_ok h -> bigint_ok h x -> bigint_ok h y ->
  let long same_sign :=
    negb (is_zero x) && negb (is_zero y) &&
    (kMaxLength <? Z.max (length x) (length y) + (if same_sign : bool then 1 else 0)) in
  wp (BigInt.Add x y) (outcome (long (Bool.eqb (sign x) (sign y))) (number h x + number h y) h) h /\
  wp (BigInt.Subtract x y) (outcome (long (xorb (sign x) (sign y))) (number h x - number h y) h) h /\
  wp (UnaryMinus x) (fun z h' => computed h h' z (- number h x)) h /\
  wp (BigInt.Increment x) (outcome (kBase ^ kMaxLength <=? number h x + 1) (number h x + 1) h) h /\
  wp (BigInt.Decrement x) (outcome (number h x - 1 <=? - kBase ^ kMaxLength) (number h x - 1) h) h.
Proof.
  intros Hok Hx Hy long. pose proof (value_range h (digits x) Hok (proj1 (bigint_lengths h x Hx))) as Hv.
  pose proof kMaxLength_2. pose proof kBase_pos.
  assert (kBase ^ 1 <= kBase ^ kMaxLength) by (apply kBase_pow_mono; lia). rewrite Z.pow_1_r in *.
  split; [|split; [|split; [|split]]].
  - eapply outcome_when; [|by apply Add_object_spec]. unfold long, AddSignedResultLength, AddResultLength.
    destruct (Bool.eqb _ _); by rewrite ?Z.add_0_r.
  - eapply outcome_when; [|by apply Subtract_object_spec]. unfold long, SubtractSignedResultLength, AddResultLength.
    destruct (sign x), (sign y); by rewrite ?Z.add_0_r.
  - by apply UnaryMinus_spec.
  - eapply outcome_when; [|by apply Increment_spec]. unfold grows_too_long, too_long, number.
    destruct (sign x); cbn [negb andb signed]; [|done]. symmetry. apply Z.leb_gt. lia.
  - eapply outcome_when; [|by apply Decrement_spec]. unfold grows_too_long, too_long, number.
    destruct (sign x); cbn [negb andb signed].
    + apply eq_true_iff_eq. rewrite !Z.leb_le. lia.
    + symmetry. apply Z.leb_gt. lia.
Qed.

Lemma bigint_addition_witness :
  wp (BigInt.Subtract (T := target64) example_x example_y)
    (outcome (T := target64) false (7 * 2 ^ 64 + 8) example_memory) example_memory.
Proof.
  destruct (bigint_addition (T := target64) example_memory example_x example_y) as (_ & H & _);
    [auto with example..|exact H].
Defined.





(** C22: when the embedder does not ask for the end of the script, division by a
    number other than zero does not fail, in any build: the quotient and, after it,
    the remainder are there, the dividend is quotient times divisor plus remainder,
    and the remainder is smaller than the divisor. *)
Theorem division_completes {T : DigitTarget} {P : Platform} {BB : BigIntBuild} {TOK : DigitTargetOK T}
    {AM : AdvancedMultiplication} {AMOK : AdvancedMultiplicationOK AM} {AD : AdvancedDivision} {ADOK : AdvancedDivisionOK AD}
    h x y :
  (forall n, InterruptRequested n = false) -> heap_ok h -> idle h -> bigint_ok h x -> bigint_ok h y -> number h y <> 0 ->
  exists q h1 r h2, BigInt_Divide x y h = Ok (inl q, h1) /\ BigInt_Remainder x y h1 = Ok (inl r, h2) /\
    extends h h2 /\ idle h2 /\ bigint_ok h2 q /\ bigint_ok h2 r /\
    number h x = number h2 q * number h y + number h2 r /\ Z.abs (number h2 r) < Z.abs (number h y).
Proof.
  intros Hnever Hok Hi Hx Hy H0. assert (Hp : patient) by (by right).
  assert (Hquiet : forall h h', interrupted h h' = false) by (intros; by apply quiet_within).
  assert (Zy : is_zero y = false) by (rewrite (zero_divisor h) by done; by apply Z.eqb_neq).
  destruct (wp_ok _ _ _ (BigInt_Divide_spec h x y Hp Hok Hi Hx Hy Zy)) as (q & h1 & E1 & He1 & Hi1 & _ & Hq).
  destruct q as [q|[]]; try done; [|by destruct Hq|by rewrite Hquiet in Hq]. destruct Hq as (_ & Okq & Eq).
  destruct (extends_bigint h h1 x He1 Hx) as [Hx1 Ex]. destruct (extends_bigint h h1 y He1 Hy) as [Hy1 Ey].
  destruct (wp_ok _ _ _ (BigInt_Remainder_spec h1 x y Hp (ext_ok _ _ He1) Hi1 Hx1 Hy1 Zy)) as (r & h2 & E2 & He2 & Hi2 & _ & Hr).
  destruct r as [r|[]]; try done; [|by destruct Hr|by rewrite Hquiet in Hr]. destruct Hr as (_ & Okr & Er).
  destruct (extends_bigint h1 h2 q He2 Okq) as [Okq2 Eq2].
  exists q, h1, r, h2. do 2 (split; [done|]). split; [by eapply extends_trans|]. do 3 (split; [done|]).
  rewrite Er, Eq2, Eq, Ex, Ey. split.
  - rewrite (Z.mul_comm _ (number h y)). by apply Z.quot_rem.
  - apply Z.rem_bound_abs. done.
Qed.

Lemma division_completes_witness :
  exists q h1 r h2,
    BigInt_Divide (T := target64) (P := never_interrupted) (BB := advanced) (AM := products64) (AD := quotients64)
      example_x example_y example_memory = Ok (inl q, h1) /\
    BigInt_Remainder (T := target64) (P := never_interrupted) (BB := advanced) (AM := products64) (AD := quotients64)
      example_x example_y h1 = Ok (inl r, h2) /\
    7 * 2 ^ 64 + 5 = number (T := target64) h2 q * (-3) + number (T := target64) h2 r.
Proof.
  destruct (division_completes (T := target64) (P := never_interrupted) (BB := advanced) (AM := products64)
    (AMOK := schoolbook_products_ok) (AD := quotients64) (ADOK := schoolbook_quotients_ok) example_memory example_x example_y)
    as (q & h1 & r & h2 & E1 & E2 & _ & _ & _ & _ & E & _); [done|auto with example|done|auto with example..|done|].
  exists q, h1, r, h2. split; [exact E1|]. split; [exact E2|exact E].
Defined.

(** Comparison of canonical BigInts decides the order of the integers they
    denote, equality decides their equality, and neither changes the memory. *)
Theorem bigint_comparison {T : DigitTarget} {TOK : DigitTargetOK T} h x y :
  heap_ok h -> bigint_ok h x -> bigint_ok h y ->
  BigInt.CompareToBigInt x y h = Ok (comparison_result (number h x ?= number h y), h) /\
  BigInt.EqualToBigInt x y h = Ok (number h x =? number h y, h).
Proof.
  intros Hok Hx Hy. split.
  - by destruct (wp_ok _ _ _ (CompareToBigInt_spec h x y Hok Hx Hy)) as (r & h' & -> & -> & ->).
  - by destruct (wp_ok _ _ _ (EqualToBigInt_spec h x y Hok Hx Hy)) as (r & h' & -> & -> & ->).
Qed.

(** ** Bits *)

(** The bitwise operations on sign and magnitude act on the infinite two's
    complement representation; only the conjunction of two negative numbers and
    the exclusive or of numbers of different signs can throw, exactly when one
    digit more than the longer operand is too long, and the complement when the
    result is too long. *)
Theorem bigint_bitwise {T : DigitTarget} {TOK : DigitTargetOK T} h x y :
  heap_ok h -> bigint_ok h x -> bigint_ok h y ->
  let long := kMaxLength <? Z.max (length x) (length y) + 1 in
  wp (BigInt.BitwiseAnd x y) (outcome (sign x && sign y && long) (Z.land (number h x) (number h y)) h) h /\
  wp (BigInt.BitwiseOr x y) (outcome false (Z.lor (number h x) (number h y)) h) h /\
  wp (BigInt.BitwiseXor x y) (outcome (xorb (sign x) (sign y) && long) (Z.lxor (number h x) (number h y)) h) h /\
  wp (BigInt.BitwiseNot x)
    (outcome (negb (sign x) && (kBase ^ kMaxLength <=? number h x + 1)) (Z.lnot (number h x)) h) h.
Proof.
  intros Hok Hx Hy long. split; [by apply BitwiseAnd_object_spec|]. split; [by apply BitwiseOr_object_spec|].
  split; [by apply BitwiseXor_object_spec|]. eapply outcome_when; [|by apply BitwiseNot_spec].
  unfold grows_too_long, too_long, number. by destruct (sign x).
Qed.

Lemma bigint_bitwise_witness :
  wp (BigInt.BitwiseAnd (T := target64) example_x example_y)
    (outcome (T := target64) false (7 * 2 ^ 64 + 5) example_memory) example_memory.
Proof.
  destruct (bigint_bitwise (T := target64) example_memory example_x example_y) as (H & _);
    [auto with example..|exact H].
Defined.

(** A shift multiplies by the power of two, or divides by it and rounds towards
    minus infinity when the count is negative; shifts to the left throw exactly
    when the result is too long, however large the count, and shifts to the right
    never. *)
Theorem bigint_shifts {T : DigitTarget} {TOK : DigitTargetOK T} h x y :
  heap_ok h -> bigint_ok h x -> bigint_ok h y ->
  let long n := negb (is_zero x) && (0 <=? n) && (kBase ^ kMaxLength <=? Z.abs (number h x) * 2 ^ n) in
  let result n := if 0 <=? n then number h x * 2 ^ n else number h x / 2 ^ (- n) in
  wp (BigInt.LeftShift x y) (outcome (long (number h y)) (result (number h y)) h) h /\
  wp (BigInt.SignedRightShift x y) (outcome (long (- number h y)) (result (- number h y)) h) h.
Proof.
  intros Hok Hx Hy long result. subst long. rewrite (magnitude_number h x) by done.
  split; [by apply LeftShift_object_spec|by apply SignedRightShift_object_spec].
Qed.

(** The quotient is rounded down: (-3) >> (-(-3)) is -1. *)
Lemma bigint_shifts_witness :
  wp (BigInt.LeftShift (T := target64) example_y example_y)
    (outcome (T := target64) false (-1) example_memory) example_memory.
Proof.
  destruct (bigint_shifts (T := target64) example_memory example_y example_y) as (H & _);
    [auto with example..|exact H].
Defined.

(** AsIntN and asUintN reduce modulo 2^n into the signed and the unsigned range
    of n bits, for every n; asUintN throws exactly for a negative number and an n
    beyond the longest length. *)
Theorem bigint_truncation {T : DigitTarget} {TOK : DigitTargetOK T} h x n :
  heap_ok h -> bigint_ok h x -> 0 <= n ->
  wp (BigInt.AsIntN n x) (fun z h' => computed h h' z (asIntN n (number h x))) h /\
  wp (BigInt.AsUintN n x) (outcome (sign x && (kMaxLengthBits <? n)) (number h x mod 2 ^ n) h) h /\
  (0 < n -> - 2 ^ (n - 1) <= asIntN n (number h x) < 2 ^ (n - 1) /\
     exists k, asIntN n (number h x) = number h x + k * 2 ^ n).
Proof.
  intros Hok Hx Hn. split; [by apply AsIntN_object_spec|]. split; [by apply AsUintN_object_spec|].
  intros H0. unfold asIntN. destruct (Z.eqb_spec n 0); [lia|]. apply wrap_signed_range. lia.
Qed.

Lemma bigint_truncation_witness :
  wp (BigInt.AsUintN (T := target64) 8 example_y)
    (outcome (T := target64) false 253 example_memory) example_memory.
Proof.
  destruct (bigint_truncation (T := target64) example_memory example_y 8) as (_ & H & _);
    [auto with example..|done|exact H].
Defined.

(** ** Digits and vectors *)

(** C23: on every build target, with or without an integer type of two digits and
    a divide instruction, the operations on digits are exact within machine
    words: sums with their carry, differences with their borrow, the two-digit
    product, and the quotient and remainder of two digits by one, which the
    generic code estimates by half digits in at most [kAdjustRounds] rounds. *)
Theorem digit_arithmetic_exact {T : DigitTarget} {TOK : DigitTargetOK T} a b c :
  is_digit a -> is_digit b -> is_digit c ->
  (let '(r, k) := digit_add3 a b c in a + b + c = k * kBase + r /\ is_digit r /\ 0 <= k <= 2) /\
  (c <= 1 -> let '(r, k) := digit_sub2 a b c in a - b - c = r - k * kBase /\ is_digit r /\ 0 <= k <= 1) /\
  (let '(low, high) := digit_mul a b in a * b = high * kBase + low /\ is_digit low /\ is_digit high) /\
  (a < c -> digit_div a b c = Some ((a * kBase + b) / c, (a * kBase + b) mod c)).
Proof.
  intros Ha Hb Hc. split; [|split; [|split]].
  - destruct (digit_add3_spec a b c Ha Hb Hc) as (r & k & -> & H). exact H.
  - intros H1. destruct (digit_sub2_spec a b c Ha Hb) as (r & k & -> & H); [unfold is_digit in Hc; lia|exact H].
  - destruct (digit_mul_spec a b Ha Hb) as (r & k & -> & H). exact H.
  - intros H1. apply digit_div_spec; [unfold is_digit in Ha; lia|done|done].
Qed.

Lemma digit_arithmetic_exact_witness :
  digit_div (T := target32) 6 (2 ^ 32 - 1) 7 = Some ((6 * 2 ^ 32 + (2 ^ 32 - 1)) / 7, (6 * 2 ^ 32 + (2 ^ 32 - 1)) mod 7).
Proof.
  refine (proj2 (proj2 (proj2 (digit_arithmetic_exact (T := target32) 6 (2 ^ 32 - 1) 7 _ _ _))) _);
    unfold is_digit; vm_compute; split; congruence.
Defined.

(** C27: addition and subtraction of signed digit vectors may write over their
    operands: whenever the result starts where an operand starts, or apart from
    it, the result is the exact integer and nothing outside it changes. *)
Theorem in_place_addition {T : DigitTarget} {TOK : DigitTargetOK T} h Z_ X Y x_negative y_negative :
  heap_ok h -> in_order Z_ X -> in_order Z_ Y -> 0 <= len_ X <= len_ Z_ -> 0 <= len_ Y <= len_ Z_ ->
  value h X + value h Y < kBase ^ len_ Z_ ->
  wp (AddSigned Z_ X x_negative Y y_negative)
    (fun z_negative h' => wrote h h' Z_ (len_ Z_) /\
       signed z_negative (value h' Z_) = signed x_negative (value h X) + signed y_negative (value h Y)) h /\
  wp (SubtractSigned Z_ X x_negative Y y_negative)
    (fun z_negative h' => wrote h h' Z_ (len_ Z_) /\
       signed z_negative (value h' Z_) = signed x_negative (value h X) - signed y_negative (value h Y)) h.
Proof. intros. split; [by apply AddSigned_spec|by apply SubtractSigned_spec]. Qed.

(** The vector at 0 is doubled where it is. *)
Lemma in_place_addition_witness :
  wp (AddSigned (T := target64) (mkDigits 0 2) (mkDigits 0 2) false (mkDigits 0 2) false)
    (fun z h' => signed z (value (T := target64) h' (mkDigits 0 2)) = 14 * 2 ^ 64 + 10) example_memory.
Proof.
  eapply wp_mono.
  - refine (proj1 (in_place_addition (T := target64) example_memory (mkDigits 0 2) (mkDigits 0 2) (mkDigits 0 2)
      false false _ _ _ _ _ _)); [auto with example|by left|by left|cbn; lia|cbn; lia|vm_compute; reflexivity].
  - intros z h' [_ H]. rewrite H. reflexivity.
Defined.








(** ** Conversions *)

(** Every 64-bit integer converted to a BigInt and back is itself, without
    loss, signed and unsigned; the conversion of any BigInt gives its residue
    modulo 2^64 and reports a loss exactly when the residue is another number. *)
Theorem int64_roundtrip {T : DigitTarget} {TOK : DigitTargetOK T} h n :
  heap_ok h ->
  (- 2 ^ 63 <= n < 2 ^ 63 ->
   wp (let* z := BigInt.FromInt64 n in BigInt.AsInt64 z) (fun r _ => r = (n, true)) h) /\
  (0 <= n < 2 ^ 64 ->
   wp (let* z := BigInt.FromUint64 n in BigInt.AsUint64 z) (fun r _ => r = (n, true)) h) /\
  forall x, bigint_ok h x ->
    wp (BigInt.AsInt64 x) (fun '(r, lossless) h' => h' = h /\ r = asIntN 64 (number h x) /\ lossless = (r =? number h x)) h /\
    wp (BigInt.AsUint64 x) (fun '(r, lossless) h' => h' = h /\ r = number h x mod 2 ^ 64 /\ lossless = (r =? number h x)) h.
Proof.
  intros Hok. split; [|split].
  - intros Hn. apply wp_bind. eapply wp_mono; [by apply FromInt64_spec|]. intros z h' [He Hz Ez].
    eapply wp_mono; [by apply AsInt64_spec; [apply He|]|]. intros [r l] h'' (_ & Er & El). rewrite Ez in *.
    assert (E : wrap_signed 64 n = n) by (apply (wrap_signed_eq 64 n n 0); [done|unfold fits_signed; bool_lia|lia]).
    rewrite El, Er, E. by rewrite Z.eqb_refl.
  - intros Hn. apply wp_bind. eapply wp_mono; [by apply FromUint64_spec|]. intros z h' [He Hz Ez].
    eapply wp_mono; [by apply AsUint64_spec; [apply He|]|]. intros [r l] h'' (_ & Er & El). rewrite Ez in *.
    rewrite El, Er, Z.mod_small by done. by rewrite Z.eqb_refl.
  - intros x Hx. split; [by apply AsInt64_spec|by apply AsUint64_spec].
Qed.

Lemma int64_roundtrip_witness :
  wp (let* z := BigInt.FromInt64 (T := target32) (- 2 ^ 63) in BigInt.AsInt64 (T := target32) z)
    (fun r _ => r = (- 2 ^ 63, true)) (memory []).
Proof.
  refine (proj1 (int64_roundtrip (T := target32) (memory []) (- 2 ^ 63) _) _); [by apply memory_ok|lia].
Defined.

(** The words of the longest BigInt fit the limit of the deserializer. *)
Lemma word_limit {T : DigitTarget} {TOK : DigitTargetOK T} : kMaxLength = digits_per_word * (kMaxLength / digits_per_word).
Proof.
  unfold digits_per_word, kMaxLength. by destruct target_cases as [[-> _]|[-> _]].
Qed.

(** C25: the words a BigInt is serialized to make up the same BigInt again:
    ToWordsArray64 into an array with room for its words and then FromWords64 of
    the sign, the count and the array give a canonical BigInt that denotes the
    same integer, never an error, provided that on a 32-bit target the top word
    is not 2^32. *)
Theorem words_roundtrip {T : DigitTarget} {TOK : DigitTargetOK T} h x words :
  heap_ok h -> bigint_ok h x -> words_ok words ->
  let count := BigInt.Words64Count x in
  count <= Z.of_nat (List.length words) ->
  (kDigitBits = 32 -> Z.abs (number h x) / 2 ^ (64 * (count - 1)) <> 2 ^ 32) ->
  wp (let* r := BigInt.ToWordsArray64 x count words in
      let '(s, c, words') := r in BigInt.FromWords64 s c words')
    (outcome false (number h x) h) h.
Proof.
  intros Hok Hx Hw count Hlen Htop. pose proof (bigint_lengths h x Hx) as Hl. pose proof word_limit as Hlim.
  destruct (Words64Count_spec x (proj1 Hl)) as [Hc0 Hc]. fold count in Hc0, Hc. pose proof word_base as [_ Hdw].
  apply wp_bind. eapply wp_mono; [by apply ToWordsArray64_spec|].
  intros [[s c] words'] h' (-> & -> & -> & El & Hw' & Ev). change (BigInt.Words64Count x) with count in Ev |- *.
  rewrite (magnitude_number h x), <- Ev in Htop by done. specialize (Hw' Hw).
  eapply outcome_when; [|unfold number; rewrite <- Ev; apply FromWords64_spec; [done|done|lia|]].
  - destruct (Z.ltb_spec count 0); [lia|]. cbn [orb]. apply Z.ltb_ge. nia.
  - intros H0 E32. rewrite top_word by done. by apply Htop.
Qed.

Lemma words_roundtrip_witness :
  wp (let* r := BigInt.ToWordsArray64 (T := target64) example_x 2 [0; 0] in
      let '(s, c, words') := r in BigInt.FromWords64 (T := target64) s c words')
    (outcome (T := target64) false (7 * 2 ^ 64 + 5) example_memory) example_memory.
Proof.
  refine (words_roundtrip (T := target64) example_memory example_x [0; 0] _ _ _ _ _); auto with example.
  - intros i. unfold word_at. destruct (Z.to_nat i) as [|[|n]]; by vm_compute.
  - by vm_compute.
Defined.

(** On a 32-bit target a top word of 2^32 loses its upper digit: the number
    2^32 is read as zero. *)
Theorem FromWords64_drops_digit :
  wp (BigInt.FromWords64 (T := target32) false 1 [2 ^ 32])
    (fun r h' => exists z, r = inl z /\ number (T := target32) h' z = 0) (memory []).
Proof. vm_compute. by eexists. Qed.
