(* ===== verification/BigIntToString.v ===== *)
(** * BigInts as text

    Models [src/bigint/tostring.cc]: the class [ToStringFormatter], the length of
    a result and [Processor::ToString]. The buffer for the characters is filled
    from its end; [room] counts the places that are left in front of [text], and
    a character for which there is no place is [Undefined]. The divide-and-conquer
    algorithm [Fast], which only builds with the advanced algorithms have, is an
    interface. *)

From stdpp Require Import base list numbers strings.
From Stdlib Require Import ZArith Lia Bool.
From S2P Require Import Prelude.
From S2P Require Import BigIntDigits.
From S2P Require Import BigIntVectors.
From S2P Require Import BigIntMul.
From S2P Require Import BigIntDiv.
From S2P Require Import BigIntBitwise.
From S2P Require Import BigIntKaratsuba.
From S2P Require Import BigIntProcessor.

Local Open Scope Z_scope.
Local Open Scope prog_scope.

Definition CountTrailingZeros (value : Z) : Z := if value =? 0 then 32 else Z.log2 (Z.land value (- value)).

Definition IsPowerOfTwo (value : Z) : bool := (0 <? value) && (Z.land value (value - 1) =? 0).

Definition kMaxBitsPerChar : list Z :=
  [ 0;   0;   32;  51;  64;  75;  83;  90;  96;
    102; 107; 111; 115; 119; 122; 126; 128;
    131; 134; 136; 139; 141; 143; 145; 147;
    149; 151; 153; 154; 156; 158; 159; 160;
    162; 163; 165; 166 ].

Definition kBitsPerCharTableShift : Z := 5.
Definition kBitsPerCharTableMultiplier : Z := Z.shiftl 1 kBitsPerCharTableShift.

Definition kConversionChars : list Z := bytes_of "0123456789abcdefghijklmnopqrstuvwxyz"%string.

Definition kToStringFastThreshold : Z := 43.

Definition max_bits_per_char (radix : Z) : Z := nth (Z.to_nat radix) kMaxBitsPerChar 0.
Definition conversion_char (d : Z) : Z := nth (Z.to_nat d) kConversionChars 0.

(** The buffer from [out_start_] to [out_end_]. *)
Record Out := mkOut { room : Z; text : list Z }.

(** The algorithm for long numbers: the digits, the radix, the divisor and the
    number of characters of a chunk. *)
Class AdvancedToString := FormatFast : Digits -> Z -> Z -> Z -> Out -> M Heap Out.

Section ToString.
Context {T : DigitTarget} {P : Platform} {BB : BigIntBuild}.
Local Abbreviation HM := (M Heap).

(** [*(--out) = c] *)
Definition put (c : Z) (out : Out) : HM Out :=
  if 0 <? room out then ret (mkOut (room out - 1) (c :: text out)) else undefined.

(** ** Digits to characters *)

Definition digit_pow (base exponent : Z) : HM Z :=
  loop (S (Z.to_nat exponent))
    (fun '(result, base, exponent) =>
       if 0 <? exponent then
         ret (inl (if negb (Z.land exponent 1 =? 0) then digit_t (result * base) else result,
                   digit_t (base * base), Z.shiftr exponent 1))
       else ret (inr result))
    (1, base, exponent).

Fixpoint digit_pow_rec (base : Z) (exponent : nat) : Z :=
  match exponent with
  | O | S O => base
  | S e => digit_t (base * digit_pow_rec base e)
  end.

(** The character for the last digit of [chunk], in functions for a fixed radix. *)
Definition fixed_char (radix chunk : Z) : Z :=
  if radix <=? 10 then "0"%uc + chunk mod radix else conversion_char (chunk mod radix).

(** A digit has at most [kDigitBits] characters. *)
Definition BasecaseFixedLast (radix chunk : Z) (out : Out) : HM Out :=
  loop (S (Z.to_nat kDigitBits))
    (fun '(chunk, out) =>
       if negb (chunk =? 0) then
         let* out := put (fixed_char radix chunk) out in ret (inl (chunk / radix, out))
       else ret (inr out))
    (chunk, out).

Definition magic_step (rest input : Digits) (chunk_divisor : Z) (i remainder : Z) : HM Z :=
  let* d := get input i in
  let upper := Z.lor (digit_t (Z.shiftl remainder kHalfDigitBits)) (Z.shiftr d kHalfDigitBits) in
  let u_result := upper / chunk_divisor in
  let remainder := upper mod chunk_divisor in
  let lower := Z.lor (digit_t (Z.shiftl remainder kHalfDigitBits)) (Z.land d kHalfDigitMask) in
  let l_result := lower / chunk_divisor in
  let remainder := lower mod chunk_divisor in
  set rest i (Z.lor (digit_t (Z.shiftl u_result kHalfDigitBits)) l_result) ;;; ret remainder.

Definition DivideByMagic (radix : Z) (rest input : Digits) (output : Out) : HM Out :=
  let chunk_chars := kHalfDigitBits * kBitsPerCharTableMultiplier / max_bits_per_char radix in
  let chunk_divisor := digit_pow_rec radix (Z.to_nat chunk_chars) in
  let* remainder := for_down (len_ input - 1) 0 (magic_step rest input chunk_divisor) 0 in
  let* (remainder, output) := for_up 0 chunk_chars
    (fun _ '(remainder, output) =>
       let* output := put (fixed_char radix remainder) output in ret (remainder / radix, output))
    (remainder, output) in
  DCHECK (remainder =? 0) ;;; ret output.

(** [do ... while (digit > 0)] *)
Definition BasecaseLast (radix digit : Z) (out : Out) : HM Out :=
  if radix =? 10 then BasecaseFixedLast 10 digit out
  else
    loop (S (Z.to_nat kDigitBits))
      (fun '(digit, out) =>
         let* out := put (conversion_char (digit mod radix)) out in
         let digit := digit / radix in
         ret (if 0 <? digit then inl (digit, out) else inr out))
      (digit, out).

Definition BasecaseMiddle (radix chunk_chars digit : Z) (out : Out) : HM Out :=
  let* (digit, out) := for_up 0 chunk_chars
    (fun _ '(digit, out) =>
       let* out := put (conversion_char (digit mod radix)) out in ret (digit / radix, out))
    (digit, out) in
  DCHECK (digit =? 0) ;;; ret out.

(** ** The formatter *)

(** [ToStringFormatter::Start]: the characters and the divisor of a chunk. *)
Definition Formatter_Start (radix : Z) : HM (Z * Z) :=
  let chunk_chars := kDigitBits * kBitsPerCharTableMultiplier / max_bits_per_char radix in
  let* chunk_divisor := digit_pow radix chunk_chars in
  DCHECK (negb (chunk_divisor =? 0)) ;;; ret (chunk_chars, chunk_divisor).

(** [MAYBE_INTERRUPT] *)
Definition maybe_interrupt (work : Z) : HM unit :=
  if V8_ADVANCED_BIGINT_ALGORITHMS then ret tt else AddWorkEstimate work.

Definition maybe_stop : HM bool :=
  if V8_ADVANCED_BIGINT_ALGORITHMS then ret false else should_terminate.

(** A round of the loop in [Classic]: the rest in its view, and [true] in front
    of it when the function returns in the middle. Every round takes a bit off
    the number at least. *)
Definition classic_round (radix chunk_chars chunk_divisor : Z) (rest dividend : Digits) (out : Out)
    : HM ((Digits * Digits * Out) + (bool * Digits * Out)) :=
  let* out :=
    (if radix =? 10 then
       let* out := DivideByMagic 10 rest dividend out in
       maybe_interrupt (len_ rest * 2) ;;; ret out
     else
       let* chunk := DivideSingle rest dividend chunk_divisor in
       let* out := BasecaseMiddle radix chunk_chars chunk out in
       maybe_interrupt (len_ rest * 10) ;;; ret out) in
  let* stop := maybe_stop in
  if stop : bool then ret (inr (true, rest, out))
  else
    let* rest := Normalize rest in
    ret (if 1 <? len_ rest then inl (rest, rest, out) else inr (false, rest, out)).

Definition Classic (digits : Digits) (radix chunk_chars chunk_divisor : Z) (out : Out) : HM Out :=
  if len_ digits =? 0 then put "0"%uc out
  else if len_ digits =? 1 then let* d := get digits 0 in BasecaseLast radix d out
  else
    with_scratch (len_ digits) (fun rest =>
      let* (stopped, rest, out) :=
        loop (S (Z.to_nat (kDigitBits * len_ digits)))
          (fun '(rest, dividend, out) => classic_round radix chunk_chars chunk_divisor rest dividend out)
          (rest, digits, out) in
      if stopped : bool then ret out
      else let* d := get rest 0 in BasecaseLast radix d out).

(** [while (available_bits >= bits_per_char)] *)
Definition take_chars (bits_per_char char_mask digit available_bits : Z) (out : Out) : HM (Z * Z * Out) :=
  loop (S (Z.to_nat available_bits))
    (fun '(digit, available_bits, out) =>
       if bits_per_char <=? available_bits then
         let* out := put (conversion_char (Z.land digit char_mask)) out in
         ret (inl (Z.shiftr digit bits_per_char, available_bits - bits_per_char, out))
       else ret (inr (digit, available_bits, out)))
    (digit, available_bits, out).

Definition BasePowerOfTwo (digits : Digits) (radix : Z) (out : Out) : HM Out :=
  let bits_per_char := CountTrailingZeros radix in
  let char_mask := radix - 1 in
  let* (digit, available_bits, out) := for_up 0 (len_ digits - 1)
    (fun i '(digit, available_bits, out) =>
       let* new_digit := get digits i in
       let current := Z.land (Z.lor digit (digit_t (Z.shiftl new_digit available_bits))) char_mask in
       let* out := put (conversion_char current) out in
       let consumed_bits := bits_per_char - available_bits in
       take_chars bits_per_char char_mask (Z.shiftr new_digit consumed_bits) (kDigitBits - consumed_bits) out)
    (0, 0, out) in
  let* msd := msd digits in
  let current := Z.land (Z.lor digit (digit_t (Z.shiftl msd available_bits))) char_mask in
  let* out := put (conversion_char current) out in
  loop (S (Z.to_nat kDigitBits))
    (fun '(digit, out) =>
       if negb (digit =? 0) then
         let* out := put (conversion_char (Z.land digit char_mask)) out in
         ret (inl (Z.shiftr digit bits_per_char, out))
       else ret (inr out))
    (Z.shiftr msd (bits_per_char - available_bits), out).

(** [while (out_ < out_end_ && *out_ == '0') out_++] *)
Fixpoint skip_zeros (room : Z) (text : list Z) : Out :=
  match text with
  | c :: rest => if c =? "0"%uc then skip_zeros (room + 1) rest else mkOut room text
  | [] => mkOut room []
  end.

(** The characters that are moved to the beginning of the buffer. *)
Definition Finish (sign : bool) (out : Out) : HM (list Z) :=
  DCHECK (0 <=? room out) ;;;
  DCHECK (0 <? length (text out))%nat ;;;
  let out := skip_zeros (room out) (text out) in
  if sign then let* out := put "-"%uc out in ret (text out) else ret (text out).

(** ** Conversion *)

Definition ToStringResultLength (X : Digits) (radix : Z) (sign : bool) : HM Z :=
  let* bit_length := BitLength X in
  let sign := if sign then 1 else 0 in
  let* result :=
    (if IsPowerOfTwo radix then ret (DIV_CEIL bit_length (CountTrailingZeros radix) + sign)
     else
       let min_bits_per_char := max_bits_per_char radix - 1 in
       let chars_required := DIV_CEIL (uint64 (bit_length * kBitsPerCharTableMultiplier)) min_bits_per_char in
       DCHECK (chars_required <? kMaxInt) ;;; ret chars_required) in
  ret (result + sign).

Context {AS : AdvancedToString}.

(** [None] when it returns before the text is finished. The text is what stands
    in the buffer, [*out_length] its length. *)
Definition ToStringImpl (out_length : Z) (X : Digits) (radix : Z) (sign fast : bool) : HM (option (list Z)) :=
  let* digits := Normalize X in
  let* required := ToStringResultLength digits radix sign in
  DCHECK (required <=? out_length) ;;;
  let out := mkOut out_length [] in
  if IsPowerOfTwo radix then
    let* out := BasePowerOfTwo digits radix out in
    let* text := Finish sign out in ret (Some text)
  else
    let* (chunk_chars, chunk_divisor) := Formatter_Start radix in
    if V8_ADVANCED_BIGINT_ALGORITHMS && fast then
      let* out := FormatFast digits radix chunk_divisor chunk_chars out in
      let* stop := should_terminate in
      if stop : bool then ret None else let* text := Finish sign out in ret (Some text)
    else
      let* out := Classic digits radix chunk_chars chunk_divisor out in
      let* text := Finish sign out in ret (Some text).

Definition ToString (out_length : Z) (X : Digits) (radix : Z) (sign : bool) : HM (option (list Z)) :=
  ToStringImpl out_length X radix sign (kToStringFastThreshold <=? len_ X).

Definition Processor_ToString (out_length : Z) (X : Digits) (radix : Z) (sign : bool) : HM (Status * option (list Z)) :=
  let* text := ToString out_length X radix sign in
  let* status := get_and_clear_status in
  ret (status, text).

End ToString.
