(* ===== verification/BigIntToStringSpec.v ===== *)
(** * What the text of a BigInt says

    The characters that [BigIntToString.v] writes are the digits of the number in
    the radix, the most significant one first, without leading zeros; they fit
    into the length that [ToStringResultLength] gives. *)

From stdpp Require Import base list numbers.
From Stdlib Require Import ZArith Lia Bool.
From S2P Require Import Prelude.
From S2P Require Import BigIntDigits.
From S2P Require Import BigIntVectors.
From S2P Require Import BigIntMemory.
From S2P Require Import BigIntArithmetic.
From S2P Require Import BigIntMul.
From S2P Require Import BigIntShift.
From S2P Require Import BigIntDiv.
From S2P Require Import BigIntDivSpec.
From S2P Require Import BigIntInterrupts.
From S2P Require Import BigIntKaratsuba.
From S2P Require Import BigIntProcessor.
From S2P Require Import BigIntToString.

Local Open Scope Z_scope.
Local Open Scope prog_scope.

(** ** Numerals *)

Definition is_radix (radix : Z) : Prop := 2 <= radix <= 36.

Definition is_numeral (radix : Z) (ds : list Z) : Prop := Forall (fun d => 0 <= d < radix) ds.

(** The number of a numeral, most significant digit first. *)
Fixpoint numeral_value (radix : Z) (ds : list Z) : Z :=
  match ds with
  | [] => 0
  | d :: ds => d * radix ^ Z.of_nat (length ds) + numeral_value radix ds
  end.

Definition no_leading_zero (ds : list Z) : Prop := match ds with d :: _ => d <> 0 | [] => False end.

Lemma pow_radix_pos radix n : 2 <= radix -> 0 <= n -> 0 < radix ^ n.
Proof. intros. apply Z.pow_pos_nonneg; lia. Qed.

Lemma numeral_bound radix ds : 2 <= radix -> is_numeral radix ds -> 0 <= numeral_value radix ds < radix ^ Z.of_nat (length ds).
Proof.
  intros Hr. induction 1 as [|d ds Hd _ IH]; [cbn; lia|]. cbn [numeral_value length].
  rewrite Nat2Z.inj_succ, Z.pow_succ_r by lia. pose proof (pow_radix_pos radix (Z.of_nat (length ds)) Hr ltac:(lia)). nia.
Qed.

Lemma numeral_length radix ds :
  2 <= radix -> is_numeral radix ds -> no_leading_zero ds -> radix ^ (Z.of_nat (length ds) - 1) <= numeral_value radix ds.
Proof.
  intros Hr Hds Hz. destruct Hds as [|d ds Hd Hds]; [done|]. cbn [no_leading_zero] in Hz. cbn [numeral_value length].
  pose proof (numeral_bound radix ds Hr Hds). pose proof (pow_radix_pos radix (Z.of_nat (length ds)) Hr ltac:(lia)).
  replace (Z.of_nat (S (length ds)) - 1) with (Z.of_nat (length ds)) by lia. nia.
Qed.

(** ** The characters *)

Lemma conversion_char_zero d : 0 <= d < 36 -> (conversion_char d =? "0"%uc) = (d =? 0).
Proof.
  intros Hd. assert (H : forallb (fun d => Bool.eqb (conversion_char d =? "0"%uc) (d =? 0)) (seqZ 0 36) = true) by (vm_compute; reflexivity).
  rewrite forallb_forall in H. apply eqb_prop, H, list_elem_of_In, elem_of_seqZ. lia.
Qed.

Lemma fixed_char_eq radix chunk : 0 <= chunk -> is_radix radix -> fixed_char radix chunk = conversion_char (chunk mod radix).
Proof.
  intros Hc [Hr1 Hr2]. unfold fixed_char. destruct (Z.leb_spec radix 10) as [H10|]; [|done].
  pose proof (Z.mod_pos_bound chunk radix ltac:(lia)) as Hm.
  assert (H : forallb (fun d => "0"%uc + d =? conversion_char d) (seqZ 0 10) = true) by (vm_compute; reflexivity).
  rewrite forallb_forall in H. apply Z.eqb_eq, H, list_elem_of_In, elem_of_seqZ. lia.
Qed.

(** The number [N] is being written: [v] is what is left of it in front of the
    characters in the buffer. *)
Record formatting (radix capacity N v : Z) (out : Out) (ds : list Z) : Prop := {
  fm_text : text out = map conversion_char ds;
  fm_room : room out = capacity - Z.of_nat (length ds);
  fm_fits : 0 <= room out;
  fm_digits : is_numeral radix ds;
  fm_value : N = v * radix ^ Z.of_nat (length ds) + numeral_value radix ds
}.

Definition formats (radix capacity N v : Z) (out : Out) : Prop := exists ds, formatting radix capacity N v out ds.

(** The number of bits, which every division by a radix makes smaller. *)
Definition width (v : Z) : nat := if v =? 0 then O else Z.to_nat (Z.log2 v + 1).

Lemma width_div v radix : 0 < v -> 2 <= radix -> (width (v / radix) < width v)%nat.
Proof.
  intros Hv Hr. unfold width. rewrite (proj2 (Z.eqb_neq v 0)) by lia. pose proof (Z.log2_nonneg v).
  destruct (Z.eqb_spec (v / radix) 0); [lia|]. pose proof (Z.div_pos v radix ltac:(lia) ltac:(lia)).
  pose proof (Z.mul_div_le v radix ltac:(lia)).
  pose proof (Z.log2_le_mono (2 * (v / radix)) v ltac:(nia)) as Hl. rewrite Z.log2_double in Hl by lia.
  pose proof (Z.log2_nonneg (v / radix)). lia.
Qed.

Lemma width_bound v n : 0 <= v < 2 ^ n -> 0 <= n -> (width v <= Z.to_nat n)%nat.
Proof.
  intros Hv Hn. unfold width. destruct (Z.eqb_spec v 0); [lia|]. pose proof (Z.log2_lt_pow2 v n ltac:(lia)). pose proof (Z.log2_nonneg v). lia.
Qed.

Section Characters.
Context {T : DigitTarget} {TOK : DigitTargetOK T} {P : Platform} {BB : BigIntBuild}.
Context (radix capacity N : Z) (Hradix : is_radix radix) (Hfit : N < radix ^ capacity).

Lemma formatting_room v out ds : formatting radix capacity N v out ds -> 0 < v -> 0 < room out.
Proof.
  intros [_ -> _ Hds Hv] Hpos. destruct Hradix. pose proof (numeral_bound radix ds ltac:(lia) Hds).
  assert (radix ^ Z.of_nat (length ds) < radix ^ capacity) by nia.
  destruct (Z.lt_ge_cases (Z.of_nat (length ds)) capacity); [lia|]. exfalso.
  destruct (Z.le_gt_cases 0 capacity); [pose proof (Z.pow_le_mono_r radix capacity (Z.of_nat (length ds)) ltac:(lia) ltac:(lia)); lia|].
  rewrite (Z.pow_neg_r radix capacity) in * by lia. pose proof (pow_radix_pos radix (Z.of_nat (length ds)) ltac:(lia) ltac:(lia)). lia.
Qed.

(** A character for the last digit of what is left. *)
Lemma wp_put_digit v out ds c (Q : Out -> Heap -> Prop) h :
  formatting radix capacity N v out ds -> 0 < v -> c = conversion_char (v mod radix) ->
  (forall out', formatting radix capacity N (v / radix) out' (v mod radix :: ds) -> Q out' h) ->
  wp (put c out) Q h.
Proof.
  intros Hf Hpos -> HQ. unfold put. pose proof (formatting_room _ _ _ Hf Hpos) as Hr. rewrite (proj2 (Z.ltb_lt 0 _) Hr). apply wp_ret, HQ.
  destruct Hf as [Ht Hroom _ Hds Hv]. destruct Hradix. pose proof (Z.mod_pos_bound v radix ltac:(lia)).
  constructor; cbn [text room map length numeral_value].
  - by rewrite Ht.
  - lia.
  - lia.
  - by constructor.
  - rewrite Nat2Z.inj_succ, Z.pow_succ_r by lia. rewrite Hv. pose proof (Z.div_mod v radix ltac:(lia)). nia.
Qed.

Lemma wp_put v out c (Q : Out -> Heap -> Prop) h :
  formats radix capacity N v out -> 0 < v -> c = conversion_char (v mod radix) ->
  (forall out', formats radix capacity N (v / radix) out' -> text out' <> [] -> Q out' h) ->
  wp (put c out) Q h.
Proof.
  intros [ds Hf] Hpos Hc HQ. eapply wp_put_digit; [done..|]. intros out' Hf'. apply HQ; [by eexists|].
  by rewrite (fm_text _ _ _ _ _ _ Hf').
Qed.

Lemma wp_BasecaseFixedLast v out h :
  formats radix capacity N v out -> is_digit v ->
  wp (BasecaseFixedLast radix v out)
    (fun out' h' => h' = h /\ formats radix capacity N 0 out' /\ (0 < v \/ text out <> [] -> text out' <> [])) h.
Proof.
  intros Hf Hd. unfold BasecaseFixedLast.
  apply (wp_loop (fun '(v', out') h' => h' = h /\ 0 <= v' /\ formats radix capacity N v' out' /\
           (0 < v \/ text out <> [] -> 0 < v' \/ text out' <> [])) (fun '(v', _) _ => width v')).
  - intros [v' out'] h' (-> & Hv & Hf' & Ht). destruct (Z.eqb_spec v' 0) as [->|Hne]; cbn [negb].
    + apply wp_ret. split; [done|]. split; [done|]. intros H. destruct (Ht H); [lia|done].
    + apply wp_bind. eapply wp_put; [exact Hf'|lia|apply fixed_char_eq; [lia|done]|]. intros out2 Hf2 Ht2. apply wp_ret.
      destruct Hradix. split; [|apply width_div; lia]. split; [done|]. split; [apply Z.div_pos; lia|]. split; [done|]. intros _. by right.
  - split; [done|]. unfold is_digit in Hd. split; [lia|]. by split.
  - pose proof (width_bound v kDigitBits Hd). pose proof kDigitBits_pos. lia.
Qed.

Lemma wp_BasecaseLast v out h :
  formats radix capacity N v out -> is_digit v -> 0 < v ->
  wp (BasecaseLast radix v out) (fun out' h' => h' = h /\ formats radix capacity N 0 out' /\ text out' <> []) h.
Proof.
  intros Hf Hd Hpos. unfold BasecaseLast. destruct (Z.eqb_spec radix 10) as [E|E].
  { rewrite <- E. eapply wp_mono; [by apply wp_BasecaseFixedLast|]. intros out' h' (-> & H1 & H2). split; [done|]. split; [done|]. auto. }
  apply (wp_loop (fun '(v', out') h' => h' = h /\ 0 < v' /\ formats radix capacity N v' out') (fun '(v', _) _ => width v')).
  - intros [v' out'] h' (-> & Hv & Hf'). apply wp_bind. eapply wp_put; [exact Hf'|done|done|]. intros out2 Hf2 Ht2. apply wp_ret.
    destruct Hradix as [Hr1 Hr2]. destruct (Z.ltb_spec 0 (v' / radix)) as [H|H]; [split; [done|apply width_div; lia]|].
    split; [done|]. split; [|done]. replace 0 with (v' / radix); [done|]. pose proof (Z.div_pos v' radix ltac:(lia) ltac:(lia)). lia.
  - done.
  - pose proof (width_bound v kDigitBits Hd). pose proof kDigitBits_pos. lia.
Qed.

(** The characters of a chunk, with its zeros. *)
Lemma chunk_digits rest k c : 0 < k ->
  (rest * radix ^ k + c) mod radix = c mod radix /\ (rest * radix ^ k + c) / radix = rest * radix ^ (k - 1) + c / radix.
Proof.
  intros Hk. destruct Hradix. replace (rest * radix ^ k + c) with (c + rest * radix ^ (k - 1) * radix).
  - rewrite Z.mod_add, Z.div_add by lia. lia.
  - replace k with (Z.succ (k - 1)) at 2 by lia. rewrite Z.pow_succ_r by lia. lia.
Qed.

Lemma wp_chunk char rest chunk chunk_chars out h :
  (forall c, 0 <= c -> char c = conversion_char (c mod radix)) ->
  formats radix capacity N (rest * radix ^ chunk_chars + chunk) out -> 0 < rest -> 0 < chunk_chars -> 0 <= chunk < radix ^ chunk_chars ->
  wp (let* (chunk, out) := for_up 0 chunk_chars
        (fun _ '(chunk, out) => let* out := put (char chunk) out in ret (chunk / radix, out)) (chunk, out) in
      DCHECK (chunk =? 0) ;;; ret out)
    (fun out' h' => h' = h /\ formats radix capacity N rest out' /\ text out' <> []) h.
Proof.
  intros Hchar Hf Hrest Hk Hc. destruct Hradix as [Hr1 Hr2]. apply wp_bind.
  apply (wp_for_up (fun i '(c, out') h' => h' = h /\ 0 <= c < radix ^ (chunk_chars - i) /\
           formats radix capacity N (rest * radix ^ (chunk_chars - i) + c) out' /\ (0 < i -> text out' <> []))).
  - lia.
  - rewrite Z.sub_0_r. split; [done|]. split; [done|]. split; [done|lia].
  - intros i [c out'] h' Hi (-> & Hcr & Hf' & _). destruct (chunk_digits rest (chunk_chars - i) c ltac:(lia)) as [E1 E2].
    pose proof (pow_radix_pos radix (chunk_chars - i) ltac:(lia) ltac:(lia)).
    apply wp_bind. eapply wp_put; [exact Hf'|nia|rewrite E1; apply Hchar; lia|]. intros out2 Hf2 Ht2. apply wp_ret.
    replace (chunk_chars - (i + 1)) with (chunk_chars - i - 1) by lia. split; [done|]. split.
    + split; [apply Z.div_pos; lia|]. apply Z.div_lt_upper_bound; [lia|]. rewrite <- Z.pow_succ_r by lia.
      replace (Z.succ (chunk_chars - i - 1)) with (chunk_chars - i) by lia. lia.
    + rewrite E2 in Hf2. by split.
  - intros [c out'] h' (-> & Hcr & Hf' & Ht). rewrite Z.sub_diag in *. change (radix ^ 0) with 1 in *.
    assert (c = 0) as -> by lia. apply wp_bind, wp_DCHECK; [done|]. apply wp_ret. split; [done|].
    replace (rest * 1 + 0) with rest in Hf' by lia. split; [done|]. apply Ht. lia.
Qed.
End Characters.

(** ** Chunks *)

Section Chunks.
Context {T : DigitTarget} {TOK : DigitTargetOK T} {P : Platform} {BB : BigIntBuild}.

Lemma radix_check (p : Z -> bool) radix :
  is_radix radix -> forallb (fun r => IsPowerOfTwo r || p r) (seqZ 2 35) = true -> IsPowerOfTwo radix = false -> p radix = true.
Proof.
  intros Hr H Hp. rewrite forallb_forall in H. specialize (H radix ltac:(apply list_elem_of_In, elem_of_seqZ; unfold is_radix in Hr; lia)).
  by rewrite Hp in H.
Qed.

(** The characters of a chunk and of half a digit's chunk. *)
Definition chars_in (bits radix : Z) : Z := bits * kBitsPerCharTableMultiplier / max_bits_per_char radix.

Definition chunk_fits (bits radix : Z) : bool :=
  (0 <? chars_in bits radix) && (chars_in bits radix <=? 64) && (radix ^ chars_in bits radix <? 2 ^ bits).

Lemma chunk_fits_radix radix : is_radix radix -> IsPowerOfTwo radix = false ->
  0 < chars_in kDigitBits radix <= 64 /\ radix ^ chars_in kDigitBits radix < kBase.
Proof.
  intros Hr Hp. assert (H : chunk_fits kDigitBits radix = true).
  { apply (radix_check (chunk_fits kDigitBits)); [done| |done]. unfold kDigitBits. destruct TOK as [-> | ->]; vm_compute; reflexivity. }
  unfold chunk_fits in H. apply andb_true_iff in H as [H H3]. apply andb_true_iff in H as [H1 H2].
  apply Z.ltb_lt in H1, H3. apply Z.leb_le in H2. done.
Qed.

Lemma chunk_fits_magic : 0 < chars_in kHalfDigitBits 10 <= 64 /\ 10 ^ chars_in kHalfDigitBits 10 < kHalfDigitBase.
Proof.
  assert (H : chunk_fits kHalfDigitBits 10 = true) by (unfold kHalfDigitBits, kDigitBits; destruct TOK as [-> | ->]; vm_compute; reflexivity).
  unfold chunk_fits in H. apply andb_true_iff in H as [H H3]. apply andb_true_iff in H as [H1 H2].
  apply Z.ltb_lt in H1, H3. apply Z.leb_le in H2. by rewrite kHalfDigitBase_eq.
Qed.

(** ** Powers *)

Lemma wp_digit_pow base e h :
  1 < base -> 0 <= e -> base ^ e < kBase -> wp (digit_pow base e) (fun r h' => h' = h /\ r = base ^ e) h.
Proof.
  intros Hb He Hfit. unfold digit_pow.
  apply (wp_loop (fun '(r, b, x) h' => h' = h /\ 0 <= x /\ 0 < r /\ exists B, 0 < B /\ b mod kBase = B mod kBase /\ r * B ^ x = base ^ e)
    (fun '(_, _, x) _ => Z.to_nat x)).
  - intros [[r b] x] h' (-> & Hx & Hr & B & HB & Eb & E). destruct (Z.ltb_spec 0 x) as [Hpos|Hz].
    + apply wp_ret. pose proof (Z.div_mod x 2 ltac:(lia)) as Ex. pose proof (Z.mod_pos_bound x 2 ltac:(lia)).
      assert (Hland : Z.land x 1 = x mod 2) by (change 1 with (Z.ones 1); by rewrite Z.land_ones).
      rewrite Hland, Z.shiftr_div_pow2 by lia. change (2 ^ 1) with 2.
      assert (Esq : digit_t (b * b) mod kBase = B * B mod kBase).
      { unfold digit_t, wrap. fold kBase. rewrite Z.mod_mod by (pose proof kBase_pos; lia). by rewrite Z.mul_mod, Eb, <- Z.mul_mod by (pose proof kBase_pos; lia). }
      assert (Epow : B ^ x = (B * B) ^ (x / 2) * B ^ (x mod 2)).
      { rewrite Ex at 1. rewrite Z.pow_add_r, Z.pow_mul_r by lia. by rewrite (Z.pow_2_r B). }
      split; [|lia]. split; [done|]. split; [lia|]. destruct (Z.eqb_spec (x mod 2) 0) as [Em|Em]; cbn [negb].
      * split; [done|]. exists (B * B). split; [lia|]. split; [done|]. rewrite <- E, Epow, Em, Z.pow_0_r. lia.
      * assert (Em1 : x mod 2 = 1) by lia. rewrite Em1, Z.pow_1_r in Epow.
        assert (Hpp : 0 < (B * B) ^ (x / 2)) by (apply Z.pow_pos_nonneg; lia).
        assert (Hlt : r * B < kBase) by (rewrite <- E, Epow in Hfit; nia).
        assert (Er : digit_t (r * b) = r * B).
        { unfold digit_t, wrap. fold kBase. rewrite Z.mul_mod, Eb, <- Z.mul_mod by (pose proof kBase_pos; lia). apply Z.mod_small. nia. }
        rewrite Er. split; [nia|]. exists (B * B). split; [lia|]. split; [done|]. rewrite <- E, Epow. lia.
    + apply wp_ret. assert (x = 0) as -> by lia. rewrite Z.pow_0_r in E. split; [done|]. lia.
  - split; [done|]. split; [done|]. split; [lia|]. exists base. split; [lia|]. split; [done|]. lia.
  - lia.
Qed.

Lemma digit_pow_rec_spec base n : 1 < base -> (0 < n)%nat -> base ^ Z.of_nat n < kBase -> digit_pow_rec base n = base ^ Z.of_nat n.
Proof.
  intros Hb. induction n as [|[|n] IH]; intros Hn Hfit; [lia|by rewrite Z.pow_1_r|].
  rewrite (Nat2Z.inj_succ (S n)), Z.pow_succ_r in * by lia. change (digit_pow_rec base (S (S n))) with (digit_t (base * digit_pow_rec base (S n))).
  pose proof (Z.pow_pos_nonneg base (Z.of_nat (S n)) ltac:(lia) ltac:(lia)). rewrite IH by (first [lia | nia]). apply digit_t_small.
  unfold is_digit. nia.
Qed.

(** ** Division by a chunk in halves of digits *)

Lemma halves_range B x y : 0 <= x < B -> 0 <= y < B -> 0 <= x * B + y < B * B.
Proof. nia. Qed.

Lemma magic_step_spec h Q A b i r h' :
  heap_ok h -> down_order Q A -> 0 < b < kHalfDigitBase -> 0 <= i < len_ A -> len_ A <= len_ Q ->
  divided_down h Q A b (len_ A) i r h' ->
  wp (magic_step Q A b i r) (divided_down h Q A b (len_ A) (i - 1)) h'.
Proof.
  intros Hok HQA Hb Hi HnQ (Hr & W & Hw & HW). unfold magic_step. apply wp_bind, wp_get; [lia|].
  rewrite (written_down_read _ _ _ _ _ _ _ _ Hw HQA) by lia. set (d := cell h (digits_ A + i)).
  assert (Hd : is_digit d) by apply Hok. rewrite !shiftr_half, !shiftl_half, !land_half, !digit_t_mul_half.
  pose proof (half_range d Hd) as Hh. destruct (half_split d) as [Ed Hl]. pose proof kHalfDigitBase_pos as HB.
  rewrite (Z.mod_small r) by lia.
  assert (Hor : forall x y, 0 <= x -> 0 <= y < kHalfDigitBase -> Z.lor (x * kHalfDigitBase) y = x * kHalfDigitBase + y).
  { intros x y Hx Hy. rewrite kHalfDigitBase_eq in *. pose proof kHalfDigitBits_pos. apply lor_add; lia. }
  rewrite (Hor r) by lia. set (upper := r * kHalfDigitBase + d / kHalfDigitBase).
  pose proof (Z.mod_pos_bound upper b ltac:(lia)) as Hm. pose proof (Z.div_mod upper b ltac:(lia)) as Eu.
  assert (Hu : 0 <= upper / b < kHalfDigitBase).
  { split; [apply Z.div_pos; unfold upper; nia|]. apply Z.div_lt_upper_bound; [lia|]. unfold upper. nia. }
  rewrite (Z.mod_small (upper mod b)) by lia. rewrite (Hor (upper mod b)) by lia.
  set (lower := upper mod b * kHalfDigitBase + d mod kHalfDigitBase).
  pose proof (Z.mod_pos_bound lower b ltac:(lia)) as Hm2. pose proof (Z.div_mod lower b ltac:(lia)) as El.
  assert (Hlr : 0 <= lower / b < kHalfDigitBase).
  { split; [apply Z.div_pos; unfold lower; nia|]. apply Z.div_lt_upper_bound; [lia|]. unfold lower. nia. }
  rewrite (Z.mod_small (upper / b)) by lia. rewrite (Hor (upper / b)) by lia. set (q := upper / b * kHalfDigitBase + lower / b).
  assert (Hq : is_digit q) by (unfold is_digit; rewrite kBase_half; by apply halves_range).
  apply wp_bind, wp_set; [lia|]. apply wp_ret. split; [done|]. exists (q + kBase * W). rewrite Z.sub_add. split.
  - pose proof (written_down_step _ _ _ _ _ _ q Hw ltac:(lia) Hq) as H. by rewrite Z.add_simpl_r in H.
  - rewrite (sum_cons _ (digits_ A + i)) by lia. fold d.
    replace (digits_ A + i + 1) with (digits_ A + (i + 1)) by lia. replace (len_ A - i - 1) with (len_ A - (i + 1)) by lia.
    rewrite <- HW, kBase_half. unfold q, lower, upper in *. nia.
Qed.
End Chunks.

(** ** The classic algorithm *)

Section Classic.
Context {T : DigitTarget} {TOK : DigitTargetOK T} {P : Platform} {BB : BigIntBuild}.
Context (radix capacity N : Z) (Hradix : is_radix radix) (Hfit : N < radix ^ capacity).

(** What is left of a number with more than one digit is more than nothing. *)
Lemma chunk_rest v b : kBase <= v -> 0 < b < kBase -> 0 < v / b.
Proof. intros Hv Hb. apply Z.div_str_pos. lia. Qed.

(** The result of a division: the quotient in [rest], the characters of the
    remainder in the buffer. *)
Definition round_done (h : Heap) (rest : Digits) (v : Z) (out' : Out) (h' : Heap) : Prop :=
  wrote h h' rest (len_ rest) /\ 0 < value h' rest /\ (width (value h' rest) < width v)%nat /\
  formats radix capacity N (value h' rest) out' /\ text out' <> [].

Lemma kBase_le_pow n : 1 <= n -> kBase <= kBase ^ n.
Proof. intros Hn. pose proof kBase_pos. rewrite <- (Z.pow_1_r kBase) at 1. apply Z.pow_le_mono_r; lia. Qed.

Lemma formats_chunk v b k out :
  b = radix ^ k -> 0 < b -> formats radix capacity N v out -> formats radix capacity N (v / b * radix ^ k + v mod b) out.
Proof. intros <- Hb Hf. pose proof (Z.div_mod v b ltac:(lia)). by replace (v / b * b + v mod b) with v by lia. Qed.

Lemma DivideByMagic_spec h rest A out :
  radix = 10 -> heap_ok h -> down_order rest A -> len_ A = len_ rest -> 0 <= len_ A -> kBase <= value h A ->
  formats radix capacity N (value h A) out ->
  wp (DivideByMagic radix rest A out) (round_done h rest (value h A)) h.
Proof.
  intros E10 Hok Ho Hl Hl0 Hv Hf. destruct chunk_fits_magic as [Hk Hb]. rewrite <- E10 in Hk, Hb. pose proof Hradix as [Hr1 Hr2].
  unfold DivideByMagic. fold (chars_in kHalfDigitBits radix). set (k := chars_in kHalfDigitBits radix) in *. pose proof kHalfDigitBase_pos as HB. pose proof kBase_half as HBB.
  rewrite digit_pow_rec_spec by (rewrite ?Z2Nat.id by lia; first [lia | nia]). rewrite Z2Nat.id by lia.
  pose proof (pow_radix_pos radix k ltac:(lia) ltac:(lia)) as Hbp. set (b := radix ^ k) in *.
  apply wp_bind. apply (wp_for_down (divided_down h rest A b (len_ A))); [lia| | |].
  - split; [lia|]. exists 0. rewrite Z.sub_add, Z.sub_diag, sum_0. split; [by apply written_down_start|lia].
  - intros i r h' Hi Hd. apply magic_step_spec; done || lia.
  - intros r h' Hd. destruct (divided_down_result _ _ _ _ _ _ _ Hd Hbp) as [Ha ->]. rewrite Hl in Ha.
    apply accumulated_done in Ha as [Hw Hq]. pose proof (chunk_rest (value h A) b Hv ltac:(nia)) as Hrest.
    eapply wp_mono; [apply (wp_chunk radix capacity N Hradix Hfit (fixed_char radix) (value h A / b) (value h A mod b) k)|].
    + intros c Hc. by apply fixed_char_eq.
    + by apply formats_chunk.
    + done.
    + lia.
    + by apply Z.mod_pos_bound.
    + intros out' h2 (-> & Hf' & Ht). unfold round_done. rewrite Hq. split; [done|]. split; [done|].
      split; [apply width_div; [lia|]|done]. unfold b. pose proof (Z.pow_le_mono_r radix 1 k ltac:(lia) ltac:(lia)). lia.
Qed.

Lemma divide_chunk_spec h rest A out :
  IsPowerOfTwo radix = false -> heap_ok h -> down_order rest A -> len_ A = len_ rest -> 0 < len_ A -> kBase <= value h A ->
  formats radix capacity N (value h A) out ->
  let k := chars_in kDigitBits radix in
  wp (let* chunk := DivideSingle rest A (radix ^ k) in BasecaseMiddle radix k chunk out) (round_done h rest (value h A)) h.
Proof.
  intros Hp Hok Ho Hl Hl0 Hv Hf k. destruct (chunk_fits_radix radix Hradix Hp) as [Hk Hb]. fold k in Hk, Hb. pose proof Hradix as [Hr1 Hr2].
  pose proof (pow_radix_pos radix k ltac:(lia) ltac:(lia)) as Hbp. set (b := radix ^ k) in *.
  apply wp_bind. eapply wp_mono; [apply (DivideSingle_spec h rest A b); try done|].
  - unfold is_digit. lia.
  - lia.
  - lia.
  - intros _. right. lia.
  - intros r h' (-> & Hw & Hq). specialize (Hq ltac:(lia)). pose proof (chunk_rest (value h A) b Hv ltac:(lia)) as Hrest.
    eapply wp_mono; [apply (wp_chunk radix capacity N Hradix Hfit (fun c => conversion_char (c mod radix)) (value h A / b) (value h A mod b) k)|].
    + done.
    + by apply formats_chunk.
    + done.
    + lia.
    + by apply Z.mod_pos_bound.
    + intros out' h2 (-> & Hf' & Ht). unfold round_done. rewrite Hq. split; [done|]. split; [done|].
      split; [apply width_div; [lia|]|done]. unfold b. pose proof (Z.pow_le_mono_r radix 1 k ltac:(lia) ltac:(lia)). lia.
Qed.

Lemma wp_maybe_interrupt n (Q : unit -> Heap -> Prop) h :
  (forall h', same_cells h h' -> Q tt h') -> wp (maybe_interrupt n) Q h.
Proof. intros H. unfold maybe_interrupt. case_match; [apply wp_ret, H; by split|by apply wp_AddWorkEstimate]. Qed.

Lemma wp_maybe_stop (Q : bool -> Heap -> Prop) h :
  Q false h -> (status_ (proc h) = kInterrupted -> Q true h) -> wp maybe_stop Q h.
Proof.
  intros H1 H2. unfold maybe_stop, should_terminate. case_match; [by apply wp_ret|]. apply wp_gets. case_match; auto.
Qed.

(** Between two rounds, and from [h0] on: only scratch memory has changed. *)
Definition apart (h0 h : Heap) : Prop := heap_ok h /\ forall a, a < free h0 -> cell h a = cell h0 a.

Record between_rounds (h0 : Heap) (rest A : Digits) (out : Out) (h : Heap) : Prop := {
  br_apart : apart h0 h;
  br_rest : free h0 <= digits_ rest;
  br_order : down_order rest A;
  br_len : len_ A = len_ rest /\ 0 < len_ A;
  br_value : kBase <= value h A;
  br_formats : formats radix capacity N (value h A) out
}.

(** A part of the number is still to be written. *)
Definition unfinished (out : Out) : Prop := exists v, 0 < v /\ formats radix capacity N v out.

(** The end of the loop. *)
Definition rounds_over (h0 : Heap) (r : bool * Digits * Out) (h : Heap) : Prop :=
  let '(stopped, rest, out) := r in
  apart h0 h /\ text out <> [] /\
  if stopped : bool then status_ (proc h) = kInterrupted /\ unfinished out
  else len_ rest = 1 /\ 0 < value h rest /\ formats radix capacity N (value h rest) out.

Context (Hpower : IsPowerOfTwo radix = false).

Lemma value_same h h' D : same_cells h h' -> value h' D = value h D.
Proof. intros [E _]. unfold value. by rewrite E. Qed.

Lemma apart_step h0 h h1 h2 rest :
  apart h0 h -> free h0 <= digits_ rest -> wrote h h1 rest (len_ rest) -> same_cells h1 h2 -> apart h0 h2.
Proof.
  intros [Hok Hfr] Hr [Hok1 _ Hw] [Ec _]. split; [intros a; rewrite Ec; apply Hok1|].
  intros a Ha. rewrite Ec, Hw by lia. by apply Hfr.
Qed.

(** The division of a round, whichever it is. *)
Lemma round_division h rest A out :
  heap_ok h -> down_order rest A -> len_ A = len_ rest -> 0 < len_ A -> kBase <= value h A -> formats radix capacity N (value h A) out ->
  let k := chars_in kDigitBits radix in
  wp (if radix =? 10 then
        let* out := DivideByMagic 10 rest A out in maybe_interrupt (len_ rest * 2) ;;; ret out
      else
        let* chunk := DivideSingle rest A (radix ^ k) in
        let* out := BasecaseMiddle radix k chunk out in maybe_interrupt (len_ rest * 10) ;;; ret out)
    (fun out' h2 => exists h1, round_done h rest (value h A) out' h1 /\ same_cells h1 h2) h.
Proof.
  intros Hok Ho Hl Hl0 Hv Hf k. destruct (Z.eqb_spec radix 10) as [E10|E10].
  - apply wp_bind. rewrite <- E10. eapply wp_mono; [apply DivideByMagic_spec; (done || lia)|]. intros out' h1 Hd.
    apply wp_bind, wp_maybe_interrupt. intros h2 Hs. apply wp_ret. by exists h1.
  - pose proof (divide_chunk_spec h rest A out Hpower Hok Ho Hl Hl0 Hv Hf) as H. cbv zeta in H. fold k in H. apply wp_bind_inv in H.
    apply wp_bind. eapply wp_mono; [exact H|]. cbv beta. intros chunk h0 H0. apply wp_bind. eapply wp_mono; [exact H0|]. intros out' h1 Hd.
    apply wp_bind, wp_maybe_interrupt. intros h2 Hs. apply wp_ret. by exists h1.
Qed.

Lemma classic_round_spec h0 rest A out h :
  between_rounds h0 rest A out h ->
  wp (classic_round radix (chars_in kDigitBits radix) (radix ^ chars_in kDigitBits radix) rest A out)
    (fun r h' => match r with
       | inl (rest', A', out') => between_rounds h0 rest' A' out' h' /\ (width (value h' A') < width (value h A))%nat
       | inr r => rounds_over h0 r h'
       end) h.
Proof.
  intros [Ha Hr Ho [Hl Hl0] Hv Hf]. unfold classic_round. apply wp_bind.
  eapply wp_mono; [apply round_division; try done; apply Ha|].
  intros out' h2 (h1 & (Hw & Hpos & Hlt & Hf' & Ht) & Hs). pose proof (apart_step _ _ _ _ _ Ha Hr Hw Hs) as Ha2.
  rewrite <- (value_same h1 h2) in * by done. apply wp_bind, wp_maybe_stop.
  - apply wp_bind. eapply wp_mono; [apply Normalize_spec; [apply Ha2|lia]|]. intros rest' h' [-> Hn]. apply wp_ret.
    pose proof Hn as [Hd Hlen Hval _]. pose proof (normalized_upper _ _ _ (proj1 Ha2) Hn) as Hup.
    destruct (Z.ltb_spec 1 (len_ rest')) as [H1|H1].
    + rewrite Hval. split; [|done]. pose proof (normalized_lower _ _ _ (proj1 Ha2) Hn ltac:(lia)) as Hlow.
      constructor; [done|lia|left; lia|lia| |by rewrite Hval]. rewrite Hval.
      pose proof (kBase_le_pow (len_ rest' - 1) ltac:(lia)). lia.
    + unfold rounds_over. rewrite Hval. split; [done|]. split; [done|]. split; [|done].
      destruct (Z.eq_dec (len_ rest') 0) as [E|E]; [|lia]. rewrite E, Z.pow_0_r in Hup. lia.
  - intros Hst. apply wp_ret. split; [done|]. split; [done|]. split; [done|]. by exists (value h2 rest).
Qed.

(** Where the characters of a number end up. *)
Definition written_out (h0 : Heap) (out' : Out) (h' : Heap) : Prop :=
  heap_ok h' /\ free h' = free h0 /\ (forall a, a < free h0 -> cell h' a = cell h0 a) /\
  text out' <> [] /\
  (formats radix capacity N 0 out' \/ status_ (proc h') = kInterrupted /\ unfinished out').

Lemma value_one_digit h D : len_ D = 1 -> cell h (digits_ D + 0) = value h D.
Proof. intros E. rewrite Z.add_0_r. symmetry. by apply value_single. Qed.

Lemma Classic_spec h digits out :
  heap_ok h -> below digits (free h) -> is_normalized h digits -> 0 < len_ digits -> formats radix capacity N (value h digits) out ->
  wp (Classic digits radix (chars_in kDigitBits radix) (radix ^ chars_in kDigitBits radix) out) (written_out h) h.
Proof.
  intros Hok [Hl Hb] [_ Hmsd] Hl0 Hf. unfold Classic. rewrite (proj2 (Z.eqb_neq (len_ digits) 0)) by lia.
  assert (Hvpos : kBase ^ (len_ digits - 1) <= value h digits).
  { apply (normalized_lower h digits digits); [done| |done]. constructor; [done|lia|done|]. intros _. specialize (Hmsd ltac:(lia)).
    pose proof (Hok (digits_ digits + (len_ digits - 1))) as Hd. unfold is_digit in Hd. lia. }
  destruct (Z.eqb_spec (len_ digits) 1) as [E1|E1].
  - apply wp_bind, wp_get; [lia|]. rewrite value_one_digit by done. rewrite E1, Z.sub_diag, Z.pow_0_r in Hvpos.
    eapply wp_mono; [apply (wp_BasecaseLast radix capacity N Hradix Hfit); [done| |lia]|].
    + rewrite <- value_one_digit by done. apply Hok.
    + intros out' h' (-> & Hf' & Ht). split; [done|]. split; [done|]. split; [done|]. split; [done|by left].
  - apply wp_with_scratch. set (h1 := mkHeap (cell h) _ _). apply wp_bind.
    assert (Hv1 : value h1 digits = value h digits) by done.
    eapply (wp_mono _ (rounds_over h)).
    { apply (wp_loop (fun '(rest, A, out) => between_rounds h rest A out) (fun '(_, A, _) h' => width (value h' A))).
      + intros [[rest A] o] h' Hbr. eapply wp_mono; [by apply (classic_round_spec h)|]. intros [[[rest' A'] o']|[[st rest'] o']] h2 H; exact H.
      + constructor; cbn [digits_ len_]; [by split|done|left; cbn; lia|lia| |by rewrite Hv1]. rewrite Hv1.
        pose proof (kBase_le_pow (len_ digits - 1) ltac:(lia)). lia.
      + rewrite Hv1. pose proof (value_range h digits Hok ltac:(lia)) as Hr. unfold kBase in Hr.
        rewrite <- Z.pow_mul_r in Hr by (pose proof kDigitBits_pos; lia).
        pose proof (width_bound (value h digits) (kDigitBits * len_ digits) Hr ltac:(pose proof kDigitBits_pos; nia)). lia. }
    intros [[stopped rest] o] h' [[Hok' Hfr] [Ht Hend]]. destruct stopped.
    + apply wp_ret. split; [done|]. split; [done|]. split; [done|]. split; [done|]. by right.
    + destruct Hend as (Hlen & Hpos & Hf'). apply wp_bind, wp_get; [lia|]. rewrite value_one_digit by done.
      eapply wp_mono; [apply (wp_BasecaseLast radix capacity N Hradix Hfit); [done| |done]|].
      { rewrite <- value_one_digit by done. apply Hok'. }
      intros out' h2 (-> & Hf2 & Ht2). split; [done|]. split; [done|]. split; [done|]. split; [done|by left].
Qed.
End Classic.
