(* ===== verification/BigIntToStringBits.v ===== *)
(** * The text of a BigInt in a radix that is a power of two

    [BasePowerOfTwo] of [src/bigint/tostring.cc] takes the characters from the
    bits of the digits, and a character may have bits of two digits. *)

From stdpp Require Import base list numbers.
From Stdlib Require Import ZArith Lia Bool.
From S2P Require Import Prelude.
From S2P Require Import BigIntDigits.
From S2P Require Import BigIntVectors.
From S2P Require Import BigIntMemory.
From S2P Require Import BigIntArithmetic.
From S2P Require Import BigIntMul.
From S2P Require Import BigIntKaratsuba.
From S2P Require Import BigIntProcessor.
From S2P Require Import BigIntToString.
From S2P Require Import BigIntToStringSpec.

Local Open Scope Z_scope.
Local Open Scope prog_scope.

Lemma radix_bits radix : is_radix radix -> IsPowerOfTwo radix = true ->
  1 <= CountTrailingZeros radix <= 5 /\ radix = 2 ^ CountTrailingZeros radix.
Proof.
  intros Hr Hp.
  assert (H : forallb (fun r => negb (IsPowerOfTwo r) ||
    ((1 <=? CountTrailingZeros r) && (CountTrailingZeros r <=? 5) && (r =? 2 ^ CountTrailingZeros r))) (seqZ 2 35) = true) by (vm_compute; reflexivity).
  rewrite forallb_forall in H. specialize (H radix ltac:(apply list_elem_of_In, elem_of_seqZ; unfold is_radix in Hr; lia)).
  rewrite Hp in H. cbn [negb orb] in H. apply andb_true_iff in H as [H H3]. apply andb_true_iff in H as [H1 H2].
  apply Z.leb_le in H1, H2. apply Z.eqb_eq in H3. done.
Qed.

(** ** Bits that are left from a digit *)

(** [low] has [a] bits, in front of which stands [R]. *)
Definition joined (low a R : Z) : Z := low + 2 ^ a * R.

Lemma joined_mod low a R b : 0 <= b <= a -> joined low a R mod 2 ^ b = low mod 2 ^ b.
Proof.
  intros Hb. unfold joined. replace (2 ^ a * R) with (2 ^ (a - b) * R * 2 ^ b).
  - apply Z.mod_add. pose proof (Z.pow_pos_nonneg 2 b). lia.
  - replace a with (b + (a - b)) at 2 by lia. rewrite Z.pow_add_r by lia. lia.
Qed.

Lemma joined_div low a R b : 0 <= b <= a -> joined low a R / 2 ^ b = joined (low / 2 ^ b) (a - b) R.
Proof.
  intros Hb. unfold joined. replace (2 ^ a * R) with (2 ^ (a - b) * R * 2 ^ b).
  - apply Z.div_add. pose proof (Z.pow_pos_nonneg 2 b). lia.
  - replace a with (b + (a - b)) at 2 by lia. rewrite Z.pow_add_r by lia. lia.
Qed.

(** A division by more bits than [low] has. *)
Lemma joined_div_over low a R b : 0 <= a <= b -> 0 <= low < 2 ^ a -> joined low a R / 2 ^ b = R / 2 ^ (b - a).
Proof.
  intros Ha Hl. replace b with (a + (b - a)) at 1 by lia. rewrite Z.pow_add_r by lia.
  pose proof (Z.pow_pos_nonneg 2 a). pose proof (Z.pow_pos_nonneg 2 (b - a)). rewrite <- Z.div_div by lia. f_equal.
  unfold joined. rewrite (Z.mul_comm (2 ^ a)), Z.div_add by lia. rewrite Z.div_small; lia.
Qed.

Lemma shifted_range d n c : 0 <= d < 2 ^ n -> 0 <= c <= n -> 0 <= d / 2 ^ c < 2 ^ (n - c).
Proof.
  intros Hd Hc. pose proof (Z.pow_pos_nonneg 2 c). split; [apply Z.div_pos; lia|]. apply Z.div_lt_upper_bound; [lia|].
  rewrite <- Z.pow_add_r by lia. replace (c + (n - c)) with n by lia. lia.
Qed.

Section Bits.
Context {T : DigitTarget} {TOK : DigitTargetOK T} {P : Platform} {BB : BigIntBuild}.
Context (radix capacity N : Z) (Hradix : is_radix radix) (Hfit : N < radix ^ capacity).
Context (b : Z) (Hb : 1 <= b <= 5) (Eb : radix = 2 ^ b).

Lemma digit_bits_over : b < kDigitBits.
Proof. pose proof kDigitBits_pos. lia. Qed.

(** The bits of [low] and of the next digit that make a character. *)
Lemma current_char low a d R :
  0 <= a < b -> 0 <= low < 2 ^ a ->
  Z.land (Z.lor low (digit_t (Z.shiftl d a))) (radix - 1) = joined low a (d + kBase * R) mod radix.
Proof.
  intros Ha Hl. pose proof digit_bits_over. pose proof (Z.pow_pos_nonneg 2 a ltac:(lia) ltac:(lia)) as Hpa.
  rewrite Eb. replace (2 ^ b - 1) with (Z.ones b) by (rewrite Z.ones_equiv; lia). rewrite Z.land_ones by lia.
  assert (Ek : kBase = 2 ^ a * 2 ^ (kDigitBits - a)) by (unfold kBase; rewrite <- Z.pow_add_r by lia; f_equal; lia).
  rewrite digit_t_mod, Z.shiftl_mul_pow2, (Z.mul_comm d), Ek, Z.mul_mod_distr_l by (first [lia | apply Z.pow_nonzero; lia]).
  rewrite Z.lor_comm, (Z.mul_comm (2 ^ a)), lor_add by lia. unfold joined.
  set (c := 2 ^ (kDigitBits - a)). assert (Hc : 0 < c) by (apply Z.pow_pos_nonneg; lia).
  assert (Ec : 2 ^ a * c = 2 ^ (kDigitBits - b) * 2 ^ b) by (unfold c; rewrite <- !Z.pow_add_r by lia; f_equal; lia).
  pose proof (Z.div_mod d c ltac:(lia)) as Ed.
  replace (low + 2 ^ a * (d + 2 ^ a * c * R)) with (d mod c * 2 ^ a + low + (d / c + 2 ^ a * R) * 2 ^ (kDigitBits - b) * 2 ^ b).
  - rewrite Z.mod_add; [done|]. pose proof (Z.pow_pos_nonneg 2 b). lia.
  - transitivity (d mod c * 2 ^ a + low + (d / c + 2 ^ a * R) * (2 ^ a * c)); [rewrite Ec; lia|]. rewrite Ed at 3. lia.
Qed.

(** What is left when it is written. *)
Lemma current_rest low a d R :
  0 <= a < b -> 0 <= low < 2 ^ a ->
  joined low a (d + kBase * R) / radix = joined (Z.shiftr d (b - a)) (kDigitBits - (b - a)) R.
Proof.
  intros Ha Hl. pose proof digit_bits_over. rewrite Eb, joined_div_over by lia.
  change (d + kBase * R) with (joined d kDigitBits R). rewrite joined_div by lia. by rewrite Z.shiftr_div_pow2 by lia.
Qed.

Lemma land_char d : Z.land d (radix - 1) = d mod radix.
Proof. rewrite Eb. replace (2 ^ b - 1) with (Z.ones b) by (rewrite Z.ones_equiv; lia). by apply Z.land_ones; lia. Qed.

Lemma wp_take_chars low a R out h :
  0 <= a -> 0 <= low < 2 ^ a -> 0 < R -> text out <> [] -> formats radix capacity N (joined low a R) out ->
  wp (take_chars b (radix - 1) low a out)
    (fun '(low', a', out') h' => h' = h /\ 0 <= a' < b /\ 0 <= low' < 2 ^ a' /\ text out' <> [] /\ formats radix capacity N (joined low' a' R) out') h.
Proof.
  intros Ha Hl HR Ht Hf. unfold take_chars.
  apply (wp_loop (fun '(low, a, out) h' => h' = h /\ 0 <= a /\ 0 <= low < 2 ^ a /\ text out <> [] /\ formats radix capacity N (joined low a R) out)
    (fun '(_, a, _) _ => Z.to_nat a)).
  - intros [[low' a'] out'] h' (-> & Ha' & Hl' & Ht' & Hf'). destruct (Z.leb_spec b a') as [H|H]; [|apply wp_ret; by auto].
    pose proof (Z.pow_pos_nonneg 2 a'). apply wp_bind. eapply wp_put; [exact Hradix|exact Hfit|exact Hf'|unfold joined; nia| |].
    { by rewrite land_char, Eb, joined_mod by lia. }
    intros out2 Hf2 Ht2. apply wp_ret. rewrite Eb, joined_div in Hf2 by lia. rewrite Z.shiftr_div_pow2 by lia.
    split; [|lia]. split; [done|]. split; [lia|]. split; [apply shifted_range; lia|]. split; [done|]. by rewrite Eb.
  - by auto.
  - lia.
Qed.

Lemma wp_last_digit low out h :
  is_digit low -> text out <> [] -> formats radix capacity N low out ->
  wp (loop (S (Z.to_nat kDigitBits))
        (fun '(digit, out) =>
           if negb (digit =? 0) then
             let* out := put (conversion_char (Z.land digit (radix - 1))) out in ret (inl (Z.shiftr digit b, out))
           else ret (inr out))
        (low, out))
    (fun out' h' => h' = h /\ text out' <> [] /\ formats radix capacity N 0 out') h.
Proof.
  intros Hd Ht Hf. apply (wp_loop (fun '(low, out) h' => h' = h /\ 0 <= low /\ text out <> [] /\ formats radix capacity N low out)
    (fun '(low, _) _ => width low)).
  - intros [low' out'] h' (-> & Hl & Ht' & Hf'). destruct (Z.eqb_spec low' 0) as [->|Hne]; cbn [negb]; [by apply wp_ret|].
    apply wp_bind. eapply wp_put; [exact Hradix|exact Hfit|exact Hf'|lia|by rewrite land_char|]. intros out2 Hf2 Ht2. apply wp_ret.
    rewrite Z.shiftr_div_pow2, <- Eb by lia. destruct Hradix. split; [|apply width_div; lia]. split; [done|]. split; [apply Z.div_pos; lia|done].
  - unfold is_digit in Hd. split; [done|]. split; [lia|done].
  - pose proof (width_bound low kDigitBits Hd). pose proof kDigitBits_pos. lia.
Qed.

(** The digits from the [i]-th on. *)
Definition digits_from (h : Heap) (D : Digits) (i : Z) : Z := sum (cell h) (digits_ D + i) (len_ D - i).

Lemma digits_from_step h D i : i < len_ D -> digits_from h D i = cell h (digits_ D + i) + kBase * digits_from h D (i + 1).
Proof.
  intros Hi. unfold digits_from. rewrite sum_cons by lia. by replace (len_ D - i - 1) with (len_ D - (i + 1)) by lia; rewrite Z.add_assoc.
Qed.

Lemma digits_from_pos h D i : heap_ok h -> is_normalized h D -> 0 <= i < len_ D -> 0 < digits_from h D i.
Proof.
  intros Hok [_ Hm] Hi. unfold digits_from. rewrite sum_pred by lia. pose proof (sum_range (cell h) (digits_ D + i) (len_ D - i - 1) Hok ltac:(lia)).
  pose proof (kBase_pow_pos (len_ D - i - 1) ltac:(lia)). specialize (Hm ltac:(lia)). pose proof (Hok (digits_ D + (len_ D - 1))) as Hd. unfold is_digit in Hd.
  replace (digits_ D + i + (len_ D - i - 1)) with (digits_ D + (len_ D - 1)) by lia. nia.
Qed.

Lemma BasePowerOfTwo_bits h digits out :
  b = CountTrailingZeros radix -> heap_ok h -> is_normalized h digits -> 0 < len_ digits -> formats radix capacity N (value h digits) out ->
  wp (BasePowerOfTwo digits radix out) (fun out' h' => h' = h /\ text out' <> [] /\ formats radix capacity N 0 out') h.
Proof.
  intros Ez Hok Hn Hl Hf. unfold BasePowerOfTwo. rewrite <- Ez. pose proof digit_bits_over as Hbits. apply wp_bind.
  apply (wp_for_up (fun i '(low, a, out') h' => h' = h /\ 0 <= a < b /\ 0 <= low < 2 ^ a /\
           formats radix capacity N (joined low a (digits_from h digits i)) out')).
  - lia.
  - split; [done|]. split; [lia|]. split; [rewrite Z.pow_0_r; lia|]. unfold joined, digits_from. rewrite Z.add_0_r, Z.sub_0_r, Z.pow_0_r.
    by replace (0 + 1 * sum (cell h) (digits_ digits) (len_ digits)) with (value h digits) by (unfold value; lia).
  - intros i [[low a] out'] h' Hi (-> & Ha & Hlow & Hf'). rewrite digits_from_step in Hf' by lia.
    pose proof (digits_from_pos h digits (i + 1) Hok Hn ltac:(lia)) as Hpos. set (R := digits_from h digits (i + 1)) in *.
    apply wp_bind, wp_get; [lia|]. set (d := cell h (digits_ digits + i)) in *. pose proof (Hok (digits_ digits + i) : is_digit d) as Hd.
    pose proof (Z.pow_pos_nonneg 2 a ltac:(lia) ltac:(lia)). pose proof kBase_pos. unfold is_digit in Hd.
    apply wp_bind. eapply wp_put; [exact Hradix|exact Hfit|exact Hf'|unfold joined; nia|by rewrite (current_char low a d R)|].
    intros out2 Hf2 Ht2. rewrite current_rest in Hf2 by lia.
    eapply wp_mono; [apply (wp_take_chars _ _ R); [lia| |done|done|exact Hf2]|].
    + rewrite Z.shiftr_div_pow2 by lia. apply shifted_range; [done|lia].
    + intros [[low' a'] out3] h' (-> & Ha' & Hl' & _ & Hf3). by auto.
  - intros [[low a] out'] h' (-> & Ha & Hlow & Hf'). rewrite digits_from_step in Hf' by lia.
    assert (E0 : digits_from h digits (len_ digits - 1 + 1) = 0) by (unfold digits_from; apply sum_nonpos; lia).
    apply wp_bind, wp_msd; [done|]. pose proof (Hok (digits_ digits + (len_ digits - 1))) as Hd. pose proof (proj2 Hn Hl) as Hm.
    set (d := cell h (digits_ digits + (len_ digits - 1))) in *. unfold is_digit in Hd. pose proof (Z.pow_pos_nonneg 2 a ltac:(lia) ltac:(lia)).
    rewrite E0 in Hf'. apply wp_bind. eapply wp_put; [exact Hradix|exact Hfit|exact Hf'|unfold joined; nia|by rewrite (current_char low a d 0)|].
    intros out2 Hf2 Ht2. rewrite current_rest in Hf2 by lia. unfold joined in Hf2. rewrite Z.mul_0_r, Z.add_0_r in Hf2.
    apply wp_last_digit; [|done|done]. rewrite Z.shiftr_div_pow2 by lia. destruct (shifted_range d kDigitBits (b - a) Hd ltac:(lia)) as [H0 H1].
    split; [done|]. eapply Z.lt_le_trans; [exact H1|]. apply Z.pow_le_mono_r; lia.
Qed.
End Bits.

Section PowerOfTwo.
Context {T : DigitTarget} {TOK : DigitTargetOK T} {P : Platform} {BB : BigIntBuild}.

Lemma BasePowerOfTwo_spec radix capacity N h digits out :
  is_radix radix -> IsPowerOfTwo radix = true -> N < radix ^ capacity ->
  heap_ok h -> is_normalized h digits -> 0 < len_ digits -> formats radix capacity N (value h digits) out ->
  wp (BasePowerOfTwo digits radix out) (fun out' h' => h' = h /\ text out' <> [] /\ formats radix capacity N 0 out') h.
Proof.
  intros Hr Hp Hfit. destruct (radix_bits radix Hr Hp) as [Hb E]. by apply (BasePowerOfTwo_bits radix capacity N Hr Hfit (CountTrailingZeros radix) Hb E).
Qed.
End PowerOfTwo.
