(* ===== verification/BigIntToStringResult.v ===== *)
(** * The result of a conversion to text

    The length that [ToStringResultLength] gives is enough, leading zeros are
    taken away, and the text of a run that is not interrupted is the numeral of
    the number. *)

From stdpp Require Import base list numbers strings.
From Stdlib Require Import ZArith Lia Bool.
From S2P Require Import Prelude.
From S2P Require Import BigIntDigits.
From S2P Require Import BigIntVectors.
From S2P Require Import BigIntMemory.
From S2P Require Import BigIntArithmetic.
From S2P Require Import BigIntMul.
From S2P Require Import BigIntDiv.
From S2P Require Import BigIntBitwise.
From S2P Require Import BigIntDivSpec.
From S2P Require Import BigIntInterrupts.
From S2P Require Import BigIntKaratsuba.
From S2P Require Import BigIntProcessor.
From S2P Require Import BigIntBurnikelSpec.
From S2P Require Import BigIntToString.
From S2P Require Import BigIntToStringSpec.
From S2P Require Import BigIntToStringBits.

Local Open Scope Z_scope.
Local Open Scope prog_scope.

(** ** Numerals without leading zeros *)

(** [cs] is the numeral of [N] in the radix. *)
Definition is_text (radix N : Z) (cs : list Z) : Prop :=
  exists ds, cs = map conversion_char ds /\ is_numeral radix ds /\ no_leading_zero ds /\ numeral_value radix ds = N.

Lemma is_text_length radix N cs n : is_radix radix -> is_text radix N cs -> N < radix ^ n -> 0 < Z.of_nat (length cs) <= n.
Proof.
  intros [Hr1 Hr2] (ds & -> & Hds & Hz & E) HN. rewrite length_map. pose proof (numeral_length radix ds Hr1 Hds Hz) as Hl.
  assert (0 < Z.of_nat (length ds)) by (destruct ds; [done|cbn; lia]). split; [done|].
  destruct (Z.le_gt_cases (Z.of_nat (length ds)) n); [done|]. exfalso.
  destruct (Z.le_gt_cases 0 n); [|rewrite Z.pow_neg_r in HN by lia; pose proof (pow_radix_pos radix (Z.of_nat (length ds) - 1) Hr1 ltac:(lia)); lia].
  pose proof (Z.pow_le_mono_r radix n (Z.of_nat (length ds) - 1) ltac:(lia) ltac:(lia)). lia.
Qed.

Lemma skip_zeros_spec radix ds room N :
  is_radix radix -> is_numeral radix ds -> numeral_value radix ds = N -> 0 < N ->
  is_text radix N (text (skip_zeros room (map conversion_char ds))) /\
  BigIntToString.room (skip_zeros room (map conversion_char ds)) + Z.of_nat (length (text (skip_zeros room (map conversion_char ds))))
    = room + Z.of_nat (length ds).
Proof.
  intros Hr Hds HN Hpos. revert room. induction Hds as [|d ds Hd Hds IH]; intros room; [cbn in HN; lia|].
  cbn [map skip_zeros numeral_value] in *. destruct Hr as [Hr1 Hr2]. rewrite conversion_char_zero by lia.
  destruct (Z.eqb_spec d 0) as [->|Hne].
  - destruct (IH ltac:(lia) (room + 1)) as [H1 H2]. split; [done|]. rewrite H2. cbn. lia.
  - cbn [text BigIntToString.room length]. split; [|by rewrite length_map].
    exists (d :: ds). split; [done|]. split; [by constructor|]. split; [done|]. exact HN.
Qed.

Lemma skip_zeros_room room cs : room <= BigIntToString.room (skip_zeros room cs).
Proof. revert room. induction cs as [|c cs IH]; intros room; cbn; [lia|]. case_match; [|cbn; lia]. pose proof (IH (room + 1)). lia. Qed.

Section Result.
Context {T : DigitTarget} {TOK : DigitTargetOK T} {P : Platform} {BB : BigIntBuild}.

(** The sign in front. *)
Definition signed_text (sign : bool) (cs : list Z) : list Z := if sign then "-"%uc :: cs else cs.

Lemma Finish_spec radix capacity N sign out h :
  is_radix radix -> 0 < N -> N < radix ^ (capacity - Z.b2z sign) -> text out <> [] -> formats radix capacity N 0 out ->
  wp (Finish sign out) (fun r h' => h' = h /\ exists cs, r = signed_text sign cs /\ is_text radix N cs) h.
Proof.
  intros Hr HN Hcap Ht [ds [Et Er Hroom Hds Ev]]. unfold Finish. apply wp_bind, wp_DCHECK; [by apply Z.leb_le|].
  apply wp_bind, wp_DCHECK; [apply Nat.ltb_lt; destruct (text out); [done|cbn; lia]|]. cbv zeta. rewrite Et.
  destruct (skip_zeros_spec radix ds (room out) N Hr Hds ltac:(lia) HN) as [Hc Hl]. set (out' := skip_zeros _ _) in *.
  destruct (is_text_length _ _ _ _ Hr Hc Hcap) as [_ Hlen]. destruct sign; cbn [Z.b2z signed_text] in *.
  - apply wp_bind. unfold put. rewrite (proj2 (Z.ltb_lt 0 _)) by lia. apply wp_ret, wp_ret. split; [done|]. by exists (text out').
  - apply wp_ret. split; [done|]. by exists (text out').
Qed.

(** A formatter that was stopped still has a place for the sign. *)
Lemma Finish_stopped radix capacity N sign out h :
  is_radix radix -> N < radix ^ (capacity - Z.b2z sign) -> text out <> [] -> unfinished radix capacity N out ->
  wp (Finish sign out) (fun _ h' => h' = h) h.
Proof.
  intros Hr Hcap Ht (v & Hv & ds & Hf). pose proof (fm_fits _ _ _ _ _ _ Hf) as H0.
  assert (Hroom : Z.b2z sign <= room out).
  { destruct Hf as [Et Er _ Hds Ev]. destruct Hr as [Hr1 Hr2]. pose proof (numeral_bound radix ds Hr1 Hds).
    destruct (Z.le_gt_cases (Z.b2z sign) (room out)) as [|Hlt]; [done|]. exfalso.
    destruct (Z.le_gt_cases 0 (capacity - Z.b2z sign)) as [Hc|Hc]; [|rewrite Z.pow_neg_r in Hcap by lia; nia].
    pose proof (Z.pow_le_mono_r radix (capacity - Z.b2z sign) (Z.of_nat (length ds)) ltac:(lia) ltac:(lia)). nia. }
  unfold Finish. apply wp_bind, wp_DCHECK; [by apply Z.leb_le|].
  apply wp_bind, wp_DCHECK; [apply Nat.ltb_lt; destruct (text out); [done|cbn; lia]|]. cbv zeta.
  pose proof (skip_zeros_room (room out) (text out)). destruct sign; [|by apply wp_ret]. cbn [Z.b2z] in *.
  apply wp_bind. unfold put. rewrite (proj2 (Z.ltb_lt 0 _)) by lia. by apply wp_ret, wp_ret.
Qed.

(** ** The length *)

Lemma DIV_CEIL_spec x y : 0 < x -> 0 < y -> x <= y * DIV_CEIL x y /\ 0 < DIV_CEIL x y <= x.
Proof.
  intros Hx Hy. unfold DIV_CEIL. rewrite Z.quot_div_nonneg by lia. pose proof (Z.div_mod (x - 1) y ltac:(lia)). pose proof (Z.mod_pos_bound (x - 1) y Hy).
  pose proof (Z.div_pos (x - 1) y ltac:(lia) Hy). assert ((x - 1) / y <= x - 1) by (apply Z.div_le_upper_bound; nia). split; [nia|lia].
Qed.

(** The bits of a number without leading zeros. *)
Lemma BitLength_spec h X :
  heap_ok h -> is_normalized h X -> 0 < len_ X ->
  wp (BitLength X) (fun n h' => h' = h /\ 0 < n <= len_ X * kDigitBits /\ 2 ^ (n - 1) <= value h X < 2 ^ n) h.
Proof.
  intros Hok [_ Hm] Hl. pose proof kDigitBits_pos. unfold BitLength. apply wp_bind, wp_msd; [done|]. apply wp_ret. specialize (Hm Hl).
  unfold value. rewrite sum_pred by done. set (m := cell h (digits_ X + (len_ X - 1))) in *. pose proof (Hok (digits_ X + (len_ X - 1)) : is_digit m) as Hd.
  pose proof (sum_range (cell h) (digits_ X) (len_ X - 1) Hok ltac:(lia)) as Hs. set (s := sum _ _ _) in *.
  destruct (CountLeadingZeros_spec m ltac:(unfold is_digit in Hd; lia) Hd) as (Hc & Hlo & Hhi). set (c := CountLeadingZeros m) in *.
  assert (Ek : kBase ^ (len_ X - 1) = 2 ^ (kDigitBits * (len_ X - 1))) by (unfold kBase; rewrite Z.pow_mul_r by lia; done).
  assert (Ep : 2 ^ (len_ X * kDigitBits - c) = 2 ^ (kDigitBits - c) * kBase ^ (len_ X - 1)).
  { rewrite Ek, <- Z.pow_add_r by nia. f_equal. lia. }
  assert (Eb : kBase = 2 ^ (kDigitBits - c) * 2 ^ c) by (unfold kBase; rewrite <- Z.pow_add_r by lia; f_equal; lia).
  assert (Eh : 2 ^ (kDigitBits - c) = 2 * 2 ^ (kDigitBits - c - 1)) by (rewrite <- Z.pow_succ_r by lia; f_equal; lia).
  assert (Ep1 : 2 ^ (len_ X * kDigitBits - c - 1) = 2 ^ (kDigitBits - c - 1) * kBase ^ (len_ X - 1)).
  { rewrite Ek, <- Z.pow_add_r by nia. f_equal. lia. }
  assert (Hpc : 0 < 2 ^ c) by (apply Z.pow_pos_nonneg; lia). pose proof (kBase_pow_pos (len_ X - 1) ltac:(lia)) as HB.
  assert (Hm1 : m + 1 <= 2 ^ (kDigitBits - c)) by nia. assert (Hm2 : 2 ^ (kDigitBits - c - 1) <= m) by nia.
  split; [done|]. split; [nia|]. rewrite Ep, Ep1. nia.
Qed.

(** A character has at least a thirty-second of the bits that the table says, less one. *)
Lemma min_bits_per_char radix :
  is_radix radix -> IsPowerOfTwo radix = false -> 50 <= max_bits_per_char radix - 1 /\ 2 ^ (max_bits_per_char radix - 1) <= radix ^ 32.
Proof.
  intros Hr Hp. pose proof (radix_check (fun r => (50 <=? max_bits_per_char r - 1) && (2 ^ (max_bits_per_char r - 1) <=? r ^ 32)) radix Hr ltac:(vm_compute; reflexivity) Hp) as H.
  cbv beta in H. apply andb_true_iff in H as [H1 H2]. by apply Z.leb_le in H1, H2.
Qed.

Lemma chars_suffice radix m L c : 2 <= radix -> 0 <= m -> 0 <= L -> 0 <= c -> 2 ^ m <= radix ^ 32 -> L * 32 <= m * c -> 2 ^ L <= radix ^ c.
Proof.
  intros Hr Hm HL Hc Ht Hle. destruct (Z.le_gt_cases (2 ^ L) (radix ^ c)) as [|Hgt]; [done|]. exfalso.
  pose proof (Z.pow_pos_nonneg radix c). pose proof (Z.pow_lt_mono_l (radix ^ c) (2 ^ L) 32 ltac:(lia) ltac:(lia)) as H1.
  rewrite <- !Z.pow_mul_r in H1 by lia. pose proof (Z.pow_le_mono_r 2 (L * 32) (m * c) ltac:(lia) Hle) as H2.
  pose proof (Z.pow_le_mono_l (2 ^ m) (radix ^ 32) c ltac:(split; [apply Z.pow_nonneg; lia|done])) as H3.
  rewrite <- !Z.pow_mul_r in H3 by lia. rewrite (Z.mul_comm 32 c) in H3. lia.
Qed.

Lemma ToStringResultLength_spec h X radix sign :
  heap_ok h -> is_normalized h X -> 0 < len_ X -> len_ X * kDigitBits <= 2 ^ 30 -> is_radix radix ->
  wp (ToStringResultLength X radix sign)
    (fun n h' => h' = h /\ 0 < n <= 2 ^ 30 + 2 /\ value h X < radix ^ (n - Z.b2z sign)) h.
Proof.
  intros Hok Hn Hl Hmax Hr. unfold ToStringResultLength. apply wp_bind. eapply wp_mono; [by apply BitLength_spec|].
  intros L h' (-> & HL & HvL). pose proof Hr as [Hr1 Hr2]. assert (Hs : (if sign then 1 else 0) = Z.b2z sign) by (by destruct sign).
  rewrite Hs. assert (Hb : 0 <= Z.b2z sign <= 1) by (destruct sign; cbn; lia). destruct (IsPowerOfTwo radix) eqn:Hp.
  - apply wp_bind, wp_ret, wp_ret. split; [done|]. destruct (radix_bits radix Hr Hp) as [Hbits E]. set (b := CountTrailingZeros radix) in *.
    destruct (DIV_CEIL_spec L b ltac:(lia) ltac:(lia)) as [H1 H2]. split; [lia|]. rewrite E, <- Z.pow_mul_r by lia.
    eapply Z.lt_le_trans; [apply HvL|]. apply Z.pow_le_mono_r; [lia|]. nia.
  - destruct (min_bits_per_char radix Hr Hp) as [Hm Ht]. set (m := max_bits_per_char radix - 1) in *. unfold kBitsPerCharTableMultiplier.
    change (Z.shiftl 1 kBitsPerCharTableShift) with 32. unfold uint64. rewrite wrap_small by lia.
    destruct (DIV_CEIL_spec (L * 32) m ltac:(lia) ltac:(lia)) as [H1 _].
    assert (H2 : 0 < DIV_CEIL (L * 32) m <= L).
    { unfold DIV_CEIL. rewrite Z.quot_div_nonneg by lia. pose proof (Z.div_pos (L * 32 - 1) m ltac:(lia) ltac:(lia)).
      assert ((L * 32 - 1) / m < L) by (apply Z.div_lt_upper_bound; nia). lia. }
    apply wp_bind, wp_bind, wp_DCHECK; [apply Z.ltb_lt; unfold kMaxInt; lia|]. apply wp_ret, wp_ret. split; [done|]. split; [lia|].
    rewrite Z.add_simpl_r. eapply Z.lt_le_trans; [apply HvL|]. apply (chars_suffice radix m); lia.
Qed.

(** ** The whole conversion *)

(** The contract of the divide-and-conquer algorithm: it leaves the memory in use
    alone and, unless it is interrupted, puts the characters of the number into
    the buffer, if they fit, perhaps behind zeros. *)
Class AdvancedToStringOK (AS : AdvancedToString) : Prop := {
  fast_formats : V8_ADVANCED_BIGINT_ALGORITHMS = true ->
    forall h digits radix chunk_divisor chunk_chars capacity,
    heap_ok h -> is_normalized h digits -> below digits (free h) -> 0 < len_ digits ->
    is_radix radix -> IsPowerOfTwo radix = false ->
    chunk_chars = chars_in kDigitBits radix -> chunk_divisor = radix ^ chunk_chars ->
    value h digits < radix ^ capacity ->
    wp (FormatFast digits radix chunk_divisor chunk_chars (mkOut capacity []))
      (fun out h' => changed h h' [] /\ text out <> [] /\
         (status_ (proc h') = kOk -> formats radix capacity (value h digits) 0 out)) h
}.

Lemma polls_BasePowerOfTwo digits radix out : polls (BasePowerOfTwo digits radix out).
Proof. polls_tac. Qed.

Lemma polls_DivideSingle Q A b : polls (DivideSingle Q A b).
Proof. polls_tac. Qed.

Lemma polls_classic_round radix k b rest A out : polls (classic_round radix k b rest A out).
Proof. pose proof polls_DivideSingle. polls_tac. Qed.

Lemma polls_Classic digits radix k b out : polls (Classic digits radix k b out).
Proof. pose proof polls_classic_round. polls_tac. Qed.

Context {AS : AdvancedToString} {ASOK : AdvancedToStringOK AS}.

Lemma wp_Normalize_same X (Q : Digits -> Heap -> Prop) h :
  heap_ok h -> is_normalized h X -> Q X h -> wp (Normalize X) Q h.
Proof.
  intros Hok Hn HQ. eapply wp_mono; [apply Normalize_spec; [done|apply Hn]|]. intros X' h' [-> HX].
  replace X' with X; [done|]. pose proof HX as [Hd Hl Hv Hm].
  assert (len_ X = len_ X').
  { apply (normal_length h); [done|done| |done]. split; [lia|]. intros H. specialize (Hm H). lia. }
  destruct X, X'; cbn in *; congruence.
Qed.

Lemma formats_start radix capacity N : 0 <= capacity -> formats radix capacity N N (mkOut capacity []).
Proof. intros Hc. exists []. constructor; cbn [text room map length numeral_value]; [done|lia|done|by constructor|]. change (radix ^ Z.of_nat 0) with 1. lia. Qed.

Lemma wp_Formatter_Start radix (Q : Z * Z -> Heap -> Prop) h :
  is_radix radix -> IsPowerOfTwo radix = false ->
  Q (chars_in kDigitBits radix, radix ^ chars_in kDigitBits radix) h -> wp (Formatter_Start radix) Q h.
Proof.
  intros Hr Hp HQ. destruct (chunk_fits_radix radix Hr Hp) as [Hk Hb]. pose proof Hr as [Hr1 Hr2]. unfold Formatter_Start. fold (chars_in kDigitBits radix).
  set (k := chars_in kDigitBits radix) in *.
  apply wp_bind. eapply wp_mono; [apply wp_digit_pow; lia|]. intros b h' [-> ->].
  pose proof (pow_radix_pos radix k Hr1 ltac:(lia)).
  apply wp_bind, wp_DCHECK; [apply negb_true_iff, Z.eqb_neq; lia|]. by apply wp_ret.
Qed.

(** The text, unless the run was interrupted. *)
Definition text_is (radix N : Z) (sign : bool) (h : Heap) (r : option (list Z)) (h' : Heap) : Prop :=
  changed h h' [] /\ (status_ (proc h') = kOk -> exists cs, r = Some (signed_text sign cs) /\ is_text radix N cs).

Section Run.
Context (h : Heap) (X : Digits) (radix : Z) (sign : bool) (out_length required : Z).
Hypotheses (Hok : heap_ok h) (Hn : is_normalized h X) (Hbelow : below X (free h)) (Hl : 0 < len_ X) (Hr : is_radix radix).
Hypotheses (Hrequired : ToStringResultLength X radix sign h = Ok (required, h)) (Hlen : 0 < required <= out_length).
Hypothesis Hfits : value h X < radix ^ (required - Z.b2z sign).

Lemma out_fits : value h X < radix ^ (out_length - Z.b2z sign) /\ value h X < radix ^ out_length.
Proof.
  assert (0 <= Z.b2z sign <= 1) by (destruct sign; cbn; lia). destruct Hr.
  split; (eapply Z.lt_le_trans; [exact Hfits|apply Z.pow_le_mono_r; lia]).
Qed.

Lemma value_positive : 0 < value h X.
Proof. pose proof (normal_lower h X 0 Hok Hn ltac:(lia)). rewrite Z.pow_0_r in *. lia. Qed.

Lemma wp_finish_text out h' :
  changed h h' [] -> text out <> [] -> formats radix out_length (value h X) 0 out ->
  wp (let* text := Finish sign out in ret (Some text)) (text_is radix (value h X) sign h) h'.
Proof.
  intros Hc Ht Hf. apply wp_bind. eapply wp_mono; [apply (Finish_spec radix out_length (value h X)); try done; [apply value_positive|apply out_fits]|].
  intros r h2 (-> & cs & -> & Hcs). apply wp_ret. split; [done|]. intros _. by exists cs.
Qed.

Lemma run_power_of_two :
  IsPowerOfTwo radix = true ->
  wp (let* out := BasePowerOfTwo X radix (mkOut out_length []) in let* text := Finish sign out in ret (Some text))
    (text_is radix (value h X) sign h) h.
Proof.
  intros Hp. apply wp_bind. eapply wp_mono.
  - apply (BasePowerOfTwo_spec radix out_length (value h X)); try done; [apply out_fits|apply formats_start; lia].
  - intros out h' (-> & Ht & Hf). apply wp_finish_text; [by apply changed_refl|done|done].
Qed.

Lemma run_classic :
  IsPowerOfTwo radix = false ->
  wp (let* out := Classic X radix (chars_in kDigitBits radix) (radix ^ chars_in kDigitBits radix) (mkOut out_length []) in
      let* text := Finish sign out in ret (Some text)) (text_is radix (value h X) sign h) h.
Proof.
  intros Hp. apply wp_bind. eapply wp_mono.
  - apply wp_polls; [apply polls_Classic|]. apply (Classic_spec radix out_length (value h X)); try done; [apply out_fits|apply formats_start; lia].
  - intros out h' [(Hok' & Hfree & Hframe & Ht & Hend) Hp']. assert (Hc : changed h h' []) by (constructor; auto).
    destruct Hend as [Hf|[Hst Hu]]; [by apply wp_finish_text|]. apply wp_bind.
    eapply wp_mono; [apply (Finish_stopped radix out_length (value h X)); try done; apply out_fits|].
    intros r h2 ->. apply wp_ret. split; [done|]. by rewrite Hst.
Qed.

Lemma run_fast :
  V8_ADVANCED_BIGINT_ALGORITHMS = true -> IsPowerOfTwo radix = false ->
  wp (let* out := FormatFast X radix (radix ^ chars_in kDigitBits radix) (chars_in kDigitBits radix) (mkOut out_length []) in
      let* stop := should_terminate in
      if stop : bool then ret None else let* text := Finish sign out in ret (Some text)) (text_is radix (value h X) sign h) h.
Proof.
  intros HB Hp. apply wp_bind. eapply wp_mono.
  - apply (fast_formats HB h X radix _ _ out_length); try done; apply out_fits.
  - intros out h' (Hc & Ht & Hf). apply wp_bind. unfold should_terminate. apply wp_gets. destruct (status_ (proc h')) eqn:Es.
    + by apply wp_finish_text; [done|done|apply Hf].
    + apply wp_ret. split; [done|]. by rewrite Es.
Qed.

Lemma ToStringImpl_spec fast :
  wp (ToStringImpl out_length X radix sign fast) (text_is radix (value h X) sign h) h.
Proof.
  unfold ToStringImpl. apply wp_bind, wp_Normalize_same; [done|done|]. apply wp_bind. unfold wp at 1. rewrite Hrequired.
  apply wp_bind, wp_DCHECK; [apply Z.leb_le; lia|]. cbv zeta. destruct (IsPowerOfTwo radix) eqn:Hp; [by apply run_power_of_two|].
  apply wp_bind, wp_Formatter_Start; [done|done|]. destruct V8_ADVANCED_BIGINT_ALGORITHMS eqn:HB; [destruct fast|]; cbn [andb]; [by apply run_fast|by apply run_classic..].
Qed.

Lemma Processor_ToString_spec :
  idle h ->
  wp (Processor_ToString out_length X radix sign)
    (fun '(status, r) h' => answered h status h' /\ heap_ok h' /\ free h' = free h /\ (forall a, a < free h -> cell h' a = cell h a) /\
       (status = kOk -> exists cs, r = Some (signed_text sign cs) /\ is_text radix (value h X) cs)) h.
Proof.
  intros Hi. unfold Processor_ToString, ToString. apply wp_bind. eapply wp_mono; [apply ToStringImpl_spec|].
  intros r g [[Hok' Hfree Hp Hframe] Ht]. apply wp_bind, (wp_get_and_clear_status h g); [done|done|]. intros h' Ec Ef Ha. apply wp_ret.
  split; [done|]. split; [intros a; rewrite Ec; apply Hok'|]. split; [congruence|]. split; [|done].
  intros a Ha'. rewrite Ec. by apply Hframe.
Qed.
End Run.
End Result.
