(* ===== verification/BigIntText.v ===== *)
(** * BigInt objects to strings

    Models [BigInt::ToString] of [src/objects/bigint.cc]: zero, the shortcut for
    one digit in radix 10 and the general path through the processor, with its
    errors. A string is the list of its characters, what [RightTrimString] leaves
    of the characters that were allocated. *)

From stdpp Require Import base list numbers strings.
From Stdlib Require Import ZArith Lia Bool.
From S2P Require Import Prelude.
From S2P Require Import BigIntDigits.
From S2P Require Import BigIntVectors.
From S2P Require Import BigIntMul.
From S2P Require Import BigIntDiv.
From S2P Require Import BigIntKaratsuba.
From S2P Require Import BigIntProcessor.
From S2P Require Import BigIntToString.
From S2P Require Import BigIntObjects.

Local Open Scope Z_scope.
Local Open Scope prog_scope.

(** No string: a [RangeError], nothing at all when the caller does not want it
    thrown, or the end of the script. *)
Inductive TextError := kInvalidStringLength | kNotThrown | kTerminated.

Inductive ShouldThrow := kThrowOnError | kDontThrow.

Section Text.
Context {T : DigitTarget} {P : Platform} {BB : BigIntBuild} {AS : AdvancedToString}.
Local Abbreviation HM := (M Heap).

(** [String::kMaxLength], for pointers of the width of a digit. *)
Definition String_kMaxLength : Z := if kDigitBits =? 32 then Z.shiftl 1 28 - 16 else Z.shiftl 1 29 - 24.

(** The shortcut for one digit in radix 10. *)
Definition small_decimal (digit : Z) (sign : bool) : HM (list Z) :=
  let bit_length := kDigitBits - CountLeadingZeros digit in
  let kShift := 7 in
  let kShiftedBitsPerChar := 425 in
  let chars_allocated := Z.shiftl bit_length kShift / kShiftedBitsPerChar + 1 + Z.b2z sign in
  let* out :=
    loop (S (Z.to_nat kDigitBits))
      (fun '(digit, out) =>
         if negb (digit =? 0) then let* out := put ("0"%uc + digit mod 10) out in ret (inl (digit / 10, out))
         else ret (inr out))
      (digit, mkOut chars_allocated []) in
  let* out := (if sign then put "-"%uc out else ret out) in
  if room out =? 0 then ret (text out) else DCHECK (0 <? room out) ;;; ret (text out).

Definition BigInt_ToString (bigint : BigInt) (radix : Z) (should_throw : ShouldThrow) : HM (list Z + TextError) :=
  if is_zero bigint then ret (inl ["0"%uc])
  else if (length bigint =? 1) && (radix =? 10) then
    let* digit := digit bigint 0 in
    let* text := small_decimal digit (sign bigint) in ret (inl text)
  else
    DCHECK ((2 <=? radix) && (radix <=? 36)) ;;;
    let* chars_allocated := ToStringResultLength (digits bigint) radix (sign bigint) in
    if String_kMaxLength <? chars_allocated then
      ret (inr (match should_throw with kThrowOnError => kInvalidStringLength | kDontThrow => kNotThrown end))
    else
      let* (status, text) := Processor_ToString chars_allocated (digits bigint) radix (sign bigint) in
      match status with
      | kInterrupted => ret (inr kTerminated)
      | kOk => match text with Some text => ret (inl text) | None => undefined end
      end.

End Text.
