(* ===== verification/BigIntTextSpec.v ===== *)
(** * The text of a BigInt object

    A BigInt is written with the digits of its number, and the text can be read
    back: [text_number] is the number that a text denotes in a radix. *)

From stdpp Require Import base list numbers strings.
From Stdlib Require Import ZArith Lia Bool.
From S2P Require Import Prelude.
From S2P Require Import BigIntDigits.
From S2P Require Import BigIntVectors.
From S2P Require Import BigIntMemory.
From S2P Require Import BigIntArithmetic.
From S2P Require Import BigIntMul.
From S2P Require Import BigIntDiv.
From S2P Require Import BigIntDivSpec.
From S2P Require Import BigIntInterrupts.
From S2P Require Import BigIntKaratsuba.
From S2P Require Import BigIntProcessor.
From S2P Require Import BigIntToString.
From S2P Require Import BigIntToStringSpec.
From S2P Require Import BigIntToStringResult.
From S2P Require Import BigIntObjects.
From S2P Require Import BigIntObjectsSpec.
From S2P Require Import BigIntObjectsBitsSpec.
From S2P Require Import BigIntProductsSpec.
From S2P Require Import BigIntText.

Local Open Scope Z_scope.
Local Open Scope prog_scope.

(** ** Texts and the numbers they denote *)

(** The number of a character, from a table of the characters of all digits. *)
Fixpoint position (c : Z) (l : list Z) : option Z :=
  match l with
  | [] => None
  | d :: l => if c =? d then Some 0 else option_map (Z.add 1) (position c l)
  end.

Definition char_digit (radix c : Z) : option Z :=
  match position c kConversionChars with Some d => if d <? radix then Some d else None | None => None end.

Fixpoint magnitude_of (radix acc : Z) (cs : list Z) : option Z :=
  match cs with
  | [] => Some acc
  | c :: cs => match char_digit radix c with Some d => magnitude_of radix (acc * radix + d) cs | None => None end
  end.

(** The number that a sequence of characters denotes, if it does. *)
Definition text_number (radix : Z) (t : list Z) : option Z :=
  match t with
  | [] => None
  | c :: cs =>
    if c =? "-"%uc then match cs with [] => None | _ => option_map Z.opp (magnitude_of radix 0 cs) end
    else magnitude_of radix 0 t
  end.

Lemma conversion_char_facts d : 0 <= d < 36 -> position (conversion_char d) kConversionChars = Some d /\ conversion_char d <> "-"%uc.
Proof.
  intros Hd.
  assert (H : forallb (fun d => bool_decide (position (conversion_char d) kConversionChars = Some d) && negb (conversion_char d =? "-"%uc)) (seqZ 0 36) = true)
    by (vm_compute; reflexivity).
  rewrite forallb_forall in H. specialize (H d ltac:(apply list_elem_of_In, elem_of_seqZ; lia)).
  apply andb_true_iff in H as [H1 H2]. apply bool_decide_eq_true in H1. by apply negb_true_iff, Z.eqb_neq in H2.
Qed.

Lemma char_digit_conversion radix d : is_radix radix -> 0 <= d < radix -> char_digit radix (conversion_char d) = Some d.
Proof.
  intros [Hr1 Hr2] Hd. unfold char_digit. rewrite (proj1 (conversion_char_facts d ltac:(lia))). by rewrite (proj2 (Z.ltb_lt d radix)) by lia.
Qed.

Lemma magnitude_of_numeral radix ds acc : is_radix radix -> is_numeral radix ds ->
  magnitude_of radix acc (map conversion_char ds) = Some (acc * radix ^ Z.of_nat (List.length ds) + numeral_value radix ds).
Proof.
  intros Hr Hds. revert acc. induction Hds as [|d ds Hd Hds IH]; intros acc; cbn [map magnitude_of numeral_value List.length].
  - f_equal. change (radix ^ Z.of_nat 0) with 1. lia.
  - rewrite char_digit_conversion by done. rewrite IH, Nat2Z.inj_succ, Z.pow_succ_r by lia. f_equal. lia.
Qed.

(** The text of a number: the sign, then its numeral; zero has its own. *)
Definition number_text (radix V : Z) (t : list Z) : Prop :=
  if V =? 0 then t = ["0"%uc]
  else exists cs, t = signed_text (V <? 0) cs /\ is_text radix (Z.abs V) cs.

Lemma number_text_reads radix V t : is_radix radix -> number_text radix V t -> text_number radix t = Some V.
Proof.
  intros Hr Ht. unfold number_text in Ht. destruct (Z.eqb_spec V 0) as [->|Hne].
  - subst t. change ["0"%uc] with (map conversion_char [0]). unfold text_number. destruct Hr as [Hr1 Hr2].
    cbn [map]. rewrite (proj2 (Z.eqb_neq _ _)) by (vm_compute; congruence). change [conversion_char 0] with (map conversion_char [0]).
    rewrite magnitude_of_numeral; [done|done|]. repeat constructor; lia.
  - destruct Ht as (cs & -> & ds & -> & Hds & Hz & E). pose proof Hr as [Hr1 Hr2].
    destruct ds as [|d ds]; [done|]. pose proof (Forall_inv Hds) as Hd. cbv beta in Hd.
    pose proof (magnitude_of_numeral radix (d :: ds) 0 Hr Hds) as Hm. rewrite E in Hm.
    pose proof (conversion_char_facts d ltac:(lia)) as [_ Hc]. cbn [map] in *. unfold signed_text, text_number.
    destruct (Z.ltb_spec V 0) as [H|H].
    + rewrite Z.eqb_refl, Hm. cbn [option_map]. f_equal. lia.
    + rewrite (proj2 (Z.eqb_neq _ _) Hc), Hm. f_equal. lia.
Qed.

Section Texts.
Context {T : DigitTarget} {TOK : DigitTargetOK T} {P : Platform} {BB : BigIntBuild}.
Context {AS : AdvancedToString} {ASOK : AdvancedToStringOK AS}.

(** ** The shortcut *)

(** As many characters as are allocated suffice for a number of so many bits. *)
Lemma decimal_chars_suffice n : 0 < n <= 64 -> 2 ^ n <= 10 ^ (Z.shiftl n 7 / 425 + 1) /\ 0 < Z.shiftl n 7 / 425 + 1.
Proof.
  intros Hn. assert (H : forallb (fun n => (2 ^ n <=? 10 ^ (Z.shiftl n 7 / 425 + 1)) && (0 <? Z.shiftl n 7 / 425 + 1)) (seqZ 1 64) = true) by (vm_compute; reflexivity).
  rewrite forallb_forall in H. specialize (H n ltac:(apply list_elem_of_In, elem_of_seqZ; lia)). cbv beta in H.
  apply andb_true_iff in H as [H1 H2]. by apply Z.leb_le in H1; apply Z.ltb_lt in H2.
Qed.

Lemma digit_bit_length d : is_digit d -> 0 < d -> 0 < kDigitBits - CountLeadingZeros d <= 64 /\ d < 2 ^ (kDigitBits - CountLeadingZeros d).
Proof.
  intros Hd Hpos. destruct (CountLeadingZeros_spec d ltac:(lia) Hd) as (Hc & Hlo & Hhi). set (c := CountLeadingZeros d) in *.
  assert (Hb : kDigitBits <= 64) by (unfold kDigitBits; destruct TOK as [-> | ->]; vm_compute; congruence).
  split; [lia|]. assert (Hp : 0 < 2 ^ c) by (apply Z.pow_pos_nonneg; lia).
  assert (E : kBase = 2 ^ (kDigitBits - c) * 2 ^ c) by (unfold kBase; rewrite <- Z.pow_add_r by lia; f_equal; lia). nia.
Qed.

Lemma wp_decimal_digits capacity d out h :
  d < 10 ^ capacity -> is_digit d -> 0 < d -> formatting 10 capacity d d out [] ->
  wp (loop (S (Z.to_nat kDigitBits))
        (fun '(digit, out) =>
           if negb (digit =? 0) then let* out := put ("0"%uc + digit mod 10) out in ret (inl (digit / 10, out)) else ret (inr out))
        (d, out))
    (fun out' h' => h' = h /\ exists ds, formatting 10 capacity d 0 out' ds /\ no_leading_zero ds) h.
Proof.
  intros Hfit Hd Hpos Hf. assert (Hten : is_radix 10) by (unfold is_radix; lia).
  apply (wp_loop (fun '(v, out') h' => h' = h /\ 0 <= v /\ exists ds, formatting 10 capacity d v out' ds /\ (v = 0 -> no_leading_zero ds))
    (fun '(v, _) _ => width v)).
  - intros [v out'] h' (-> & Hv & ds & Hf' & Hz). destruct (Z.eqb_spec v 0) as [->|Hne]; cbn [negb].
    + apply wp_ret. split; [done|]. exists ds. auto.
    + apply wp_bind. eapply (wp_put_digit 10 capacity d Hten Hfit v out' ds); [done|lia|by apply (fixed_char_eq 10)|]. intros out2 Hf2. apply wp_ret.
      split; [|apply width_div; lia]. split; [done|]. split; [apply Z.div_pos; lia|]. exists (v mod 10 :: ds). split; [done|].
      intros E0. cbn. pose proof (Z.div_mod v 10 ltac:(lia)). lia.
  - split; [done|]. split; [lia|]. exists []. split; [done|lia].
  - pose proof (width_bound d kDigitBits Hd). pose proof kDigitBits_pos. lia.
Qed.

Lemma small_decimal_spec d sign h :
  is_digit d -> 0 < d -> wp (small_decimal d sign) (fun t h' => h' = h /\ exists cs, t = signed_text sign cs /\ is_text 10 d cs) h.
Proof.
  intros Hd Hpos. unfold small_decimal. cbv zeta. destruct (digit_bit_length d Hd Hpos) as [Hn Hlt].
  set (n := kDigitBits - CountLeadingZeros d) in *. destruct (decimal_chars_suffice n Hn) as [Hs Hk]. set (k := Z.shiftl n 7 / 425 + 1) in *.
  assert (Hb : 0 <= Z.b2z sign <= 1) by (destruct sign; cbn; lia). pose proof (Z.pow_le_mono_r 10 k (k + Z.b2z sign) ltac:(lia) ltac:(lia)).
  apply wp_bind. eapply wp_mono; [apply (wp_decimal_digits (k + Z.b2z sign)); [lia|done|done|]|].
  { constructor; cbn [text room map List.length numeral_value]; [done|lia|lia|by constructor|]. change (10 ^ Z.of_nat 0) with 1. lia. }
  intros out h' (-> & ds & [Et Er Hroom Hds Ev] & Hz).
  assert (Hcs : is_text 10 d (text out)) by (exists ds; split; [done|]; split; [done|]; split; [done|lia]).
  assert (Hten : is_radix 10) by (unfold is_radix; lia). pose proof (is_text_length 10 d (text out) k Hten Hcs ltac:(lia)) as Hl.
  rewrite Et, length_map in Hl. apply wp_bind. destruct sign; cbn [Z.b2z signed_text] in *.
  - unfold put. rewrite (proj2 (Z.ltb_lt 0 _)) by lia. apply wp_ret. cbn [room text]. destruct (Z.eqb_spec (room out - 1) 0); cbn [text].
    + apply wp_ret. split; [done|]. by exists (text out).
    + apply wp_bind, wp_DCHECK; [apply Z.ltb_lt; lia|]. apply wp_ret. split; [done|]. by exists (text out).
  - apply wp_ret. destruct (Z.eqb_spec (room out) 0).
    + apply wp_ret. split; [done|]. by exists (text out).
    + apply wp_bind, wp_DCHECK; [apply Z.ltb_lt; lia|]. apply wp_ret. split; [done|]. by exists (text out).
Qed.

(** ** The method *)

(** The end of a conversion: the text of the number, or no string. *)
Definition told (radix V : Z) (throw : ShouldThrow) (too_long : Prop) (h : Heap) (r : list Z + TextError) (h' : Heap) : Prop :=
  extends h h' /\ free h' = free h /\ idle h' /\
  match r with
  | inl t => interrupted h h' = false /\ number_text radix V t
  | inr kTerminated => interrupted h h' = true
  | inr e => e = match throw with kThrowOnError => kInvalidStringLength | kDontThrow => kNotThrown end /\ interrupted h h' = false /\ too_long
  end.

Lemma told_same radix V throw long h r :
  heap_ok h -> idle h ->
  match r with
  | inl t => number_text radix V t
  | inr kTerminated => False
  | inr e => e = match throw with kThrowOnError => kInvalidStringLength | kDontThrow => kNotThrown end /\ long
  end -> told radix V throw long h r h.
Proof.
  intros Hok Hi Hr. pose proof (interrupted_refl h h eq_refl) as E. split; [by apply extends_refl|]. split; [done|]. split; [done|].
  destruct r as [t|[]]; [by split|destruct Hr; auto..|done].
Qed.

Lemma BigInt_ToString_spec x radix throw h :
  heap_ok h -> idle h -> bigint_ok h x -> is_radix radix ->
  wp (BigInt_ToString x radix throw)
    (told radix (number h x) throw (exists n, ToStringResultLength (digits x) radix (sign x) h = Ok (n, h) /\ String_kMaxLength < n) h) h.
Proof.
  intros Hok Hi Hx Hr. pose proof Hr as [Hr1 Hr2]. unfold BigInt_ToString. destruct (is_zero x) eqn:Hz.
  { apply wp_ret, told_same; [done|done|]. unfold number_text. rewrite (zero_number h x) by done. done. }
  pose proof (bigint_pos h x Hok Hx Hz) as Hpos. pose proof (magnitude_number h x Hok Hx) as Hm. pose proof (bigint_sign h x Hok Hx) as Hs.
  assert (Htext : forall cs, is_text radix (value h (digits x)) cs -> number_text radix (number h x) (signed_text (sign x) cs)).
  { intros cs Hcs. unfold number_text. rewrite (proj2 (Z.eqb_neq _ _)) by lia. exists cs. rewrite Hm. split; [|done].
    destruct (sign x); [by rewrite (proj2 (Z.ltb_lt _ _))|by rewrite (proj2 (Z.ltb_ge _ _))]. }
  pose proof (bigint_lengths h x Hx) as Hlx. apply Z.eqb_neq in Hz.
  destruct (Z.eqb_spec (length x) 1) as [E1|E1]; destruct (Z.eqb_spec radix 10) as [E10|E10]; cbn [andb].
  { apply wp_bind, wp_get; [unfold length in *; lia|]. rewrite value_one_digit by done.
    apply wp_bind. eapply wp_mono; [apply small_decimal_spec; [rewrite <- value_one_digit by done; apply Hok|done]|].
    intros t h' (-> & cs & -> & Hcs). apply wp_ret, told_same; [done|done|]. apply Htext. by rewrite E10. }
  all: apply wp_bind, wp_DCHECK; [apply andb_true_iff; rewrite !Z.leb_le; lia|].
  all: assert (Hbits : len_ (digits x) * kDigitBits <= 2 ^ 30)
    by (pose proof kMaxLength_bits as EM; change kMaxLengthBits with (2 ^ 30) in EM; rewrite <- EM; pose proof kDigitBits_pos; unfold length in *; nia).
  all: unfold length in *.
  all: destruct (wp_ok _ _ _ (ToStringResultLength_spec h (digits x) radix (sign x) Hok (bi_normal _ _ Hx) ltac:(lia) Hbits Hr))
         as (n & h1 & En & -> & Hn & Hfit).
  all: apply wp_bind; unfold wp at 1; rewrite En; destruct (Z.ltb_spec String_kMaxLength n).
  1,3,5: apply wp_ret, told_same; [done|done|destruct throw; (split; [done|by exists n])].
  all: apply wp_bind; eapply wp_mono; [apply (Processor_ToString_spec h (digits x) radix (sign x) n n); try done; [apply Hx|split; [apply Hx|apply Hx]|lia|lia]|].
  all: intros [st r] h' (Ha & Hok' & Hfree & Hframe & Hres); destruct Ha as [Est Hidle Hq].
  all: destruct (interrupted h h') eqn:Ei; subst st; apply wp_ret || (destruct (Hres eq_refl) as (cs & -> & Hcs); apply wp_ret).
  all: (split; [constructor; [done|lia|done]|]); (split; [done|]); (split; [done|]); auto.
Qed.
End Texts.
