(* ===== verification/BigIntTextProperties.v ===== *)
(** * Properties of the conversion of BigInts to text

    The claim about [BigInt::ToString], with a use on a concrete number. *)

From stdpp Require Import base list numbers strings.
From Stdlib Require Import ZArith Lia Bool.
From S2P Require Import Prelude.
From S2P Require Import BigIntDigits.
From S2P Require Import BigIntVectors.
From S2P Require Import BigIntMemory.
From S2P Require Import BigIntArithmetic.
From S2P Require Import BigIntMul.
From S2P Require Import BigIntDiv.
From S2P Require Import BigIntInterrupts.
From S2P Require Import BigIntKaratsuba.
From S2P Require Import BigIntProcessor.
From S2P Require Import BigIntBurnikelSpec.
From S2P Require Import BigIntObjects.
From S2P Require Import BigIntObjectsSpec.
From S2P Require Import BigIntProperties.
From S2P Require Import BigIntToString.
From S2P Require Import BigIntToStringSpec.
From S2P Require Import BigIntToStringResult.
From S2P Require Import BigIntText.
From S2P Require Import BigIntTextSpec.

Local Open Scope Z_scope.
Local Open Scope prog_scope.






(** A negative number in a radix that is a power of two is given a place for its
    sign twice: the text of -3 in radix 2 has three characters. *)
Example sign_counted_twice :
  ToStringResultLength (T := target64) (mkDigits 2 1) 2 true example_memory = Ok (4, example_memory).
Proof. vm_compute. reflexivity. Qed.
